(* ===== verification/_CoqProject ===== *)
-Q . S2P
Prelude.v
CoreTypes.v
Time.v
Transfer.v
Transport.v
Subscriptions.v
SessionTracker.v
CanTypes.v
CanFraming.v
CanIds.v
CanRx.v
CanRxSafety.v
CanQueue.v
CanQueueSpec.v
CanTx.v
CanLink.v
CanFilters.v
CanFiltersSpec.v
CanRedundant.v
EncCursor.v
EncFields.v
EncCursorSpec.v
EncFieldsSpec.v
EncBits.v
SerCobs.v
SerHeader.v
SerTx.v
SerRx.v
SerSpec.v
SerLink.v
SerClaims.v
UdpAddress.v
UdpTx.v
UdpRx.v
UdpSpec.v
UdpClaims.v
BitLengths.v
BitLengthsSpec.v
BitLengthsClaims.v
Node.v
NodeSend.v
NodeCore.v
DataTypes.v
NodeBasic.v
NodeSpec.v
NodeSpecCore.v
DataTypesSpec.v
NodeSpecBasic.v
NodeRun.v
TransportCan.v
NodeClaims.v
RegisterTypes.v
Codec.v
RegisterTypesSpec.v
Register.v
RegisterBasic.v
RegisterSpec.v
RegisterRequests.v
RegisterClaims.v
PnpClient.v
PnpClaims.v
DsdlTypes.v
DsdlSyntax.v
DsdlBuild.v
DsdlValues.v
DsdlEval.v
DsdlEvalSpec.v
RustCode.v
RustGen.v
BitStreams.v
DsdlWire.v
RustGenWrite.v
RustGenRead.v
RustGenSize.v
RustGenSpec.v
RustGenClaims.v
DsdlBuildSpec.v
DsdlBuildClaims.v
DsdlEvalClaims.v
DsdlValuesSpec.v
