(* ===== verification/Prelude.v ===== *)
(** * Canadensis, a Cyphal (UAVCAN v1) implementation in Rust: verification library

    This library models the repository in Rocq and proves it correct: the transports, the
    encoding of messages, nodes and their services, and the compiler for DSDL, the language in
    which data types are described. A definition has the name of the Rust item it models where that is possible;
    a prefix tells methods of different types apart ([aq_] array queue, [sfq_] single frame
    queue, [sqd_] single queue driver, [qod_] queue-only driver, [rx_] receiver, [tx_]
    transmitter, [rd_] redundant driver, [ba_] bit array, [wc_] and [rc_] write and read
    cursor, [ser_] serial, [udp_] UDP, [bls_] bit length set).

    ** The program

    A node sends and receives transfers (messages, service requests and responses). A
    transfer has a header and a payload; on a CAN bus it is cut into frames.

    - Transmission: [CanTransmitter::push] computes the frame layout
      ([calculate_frame_stats]), reserves space with its driver, makes the CAN identifier
      ([make_can_id]), feeds payload, padding and CRC to a [Breakdown], and hands each full
      frame to the driver. A driver is usually a queue of frames ordered by priority
      ([ArrayQueue], [SingleFrameQueue]) in front of hardware ([SingleQueueDriver], or
      [QueueOnlyDriver] when the application moves the frames). [RedundantDriver] sends on two
      drivers.
    - Reception: [CanReceiver::receive] drops expired sessions and takes frames from its
      driver until one completes a transfer. A frame is checked and its identifier parsed
      ([frame_sanity_check], [parse_can_id]); it goes to the subscription of its kind and
      port, there to the session of its source node, which appends it to a [Buildup], and at
      the last frame checks the CRC. [Deduplicator] chooses among redundant inputs. The
      receiver gives its subscriptions to the driver, which turns them into mask filters and
      merges these down to the number the hardware has ([optimize]).
    - Cyphal/Serial and Cyphal/UDP do the same with byte-stuffed frames and with datagrams.
    - The application encodes and decodes payloads with the bit cursors [WriteCursor] and
      [ReadCursor].
    - A node ([CoreNode]) owns a clock, a transmitter, a receiver and a driver. It numbers the
      messages of each subject ([Publisher]) and the requests to each destination
      ([Requester]), and hands received transfers to a chain of handlers. [MinimalNode] adds a
      heartbeat, [BasicNode] node information and the list of the ports in use. A
      [RegisterHandler] answers requests for the registers of a node; a node without an
      identifier gets one with the allocation client.
    - The types of messages are compiled from DSDL files. The parser makes the syntax trees of
      a file; the front end reads the files of a package ([Package]), compiles each of them and
      those it refers to, evaluates expressions, and computes the set of lengths of every type;
      the generator prints Rust types with their [Serialize] and [Deserialize].

    ** Files

    - [Prelude] (this file): outcomes of Rust code ([exec] for code that may panic,
      [result]), machine integers as [Z] with explicit wrap-around, build profiles, slices,
      [Vec] with a fallible allocator, and the lemmas, hints and tactics shared by all files.
    - [CoreTypes] (canadensis_core/src/lib.rs, error.rs): identifiers, priorities, errors.
    - [Time] (time.rs, time/u48.rs): the traits [Duration] and [Instant] as classes, with the
      law class [InstantSpec] that clients are proved against; three wrapping clocks.
    - [Transfer] (transfer.rs): headers and transfers.
    - [Subscriptions] (subscription.rs): [DynamicSubscriptionManager], refined to finite maps.
    - [SessionTracker] (session.rs): the session trackers behind one interface,
      [TrackerSpec].
    - [CanTypes] (canadensis_can/src/data.rs, types.rs, crc.rs, lib.rs): frames, the CRC, the
      frame arithmetic.
    - [CanFraming] (tx/breakdown.rs, rx/buildup.rs): cutting and reassembling.
    - [CanIds] (tx.rs, rx.rs): CAN identifiers.
    - [CanRx], [CanRxSafety] (rx.rs, rx/session.rs, rx/subscription.rs): the receiver; its
      invariant [rx_ok], safety, isolation, delivery, clean-up, filters.
    - [CanQueue], [CanQueueSpec] (queue/*.rs, driver.rs): frame queues and drivers, with the
      interfaces [FrameQueueSpec] (an abstract ordered list of frames) and
      [TransmitDriverSpec], against which clients are proved.
    - [CanTx] (tx.rs): the transmitter, over any [TransmitDriver].
    - [CanLink]: the reference layout of a transfer ([wire_frames]); the transmitter queues
      exactly these frames, the receiver delivers the transfer from them.
    - [CanFilters], [CanFiltersSpec] (canadensis_filter_config/src/lib.rs, driver.rs): filters.
    - [CanRedundant] (redundant/*.rs): deduplicator and redundant driver.
    - [EncCursor], [EncFields], [EncCursorSpec], [EncFieldsSpec]
      (canadensis_encoding/src/cursor/*.rs, lib.rs): the bit cursors, all functions of a fixed
      width, and their correctness on the sequence of bits of a slice.
    - [EncBits] (canadensis_encoding/src/bits.rs): bit arrays.
    - [SerCobs], [SerHeader], [SerTx], [SerRx] (canadensis_serial/src/cobs.rs, header.rs,
      header_collector.rs, tx.rs, rx.rs, driver.rs): byte stuffing, headers, the serial
      transmitter and receiver. [SerSpec]: the invariant of the receiver; [SerLink]: what a
      run over a stream of bytes, with the clock moving on, does; [SerClaims]: the transport
      as a whole.
    - [UdpAddress], [UdpTx], [UdpRx] (canadensis_udp/src/address.rs, data.rs, tx.rs,
      tx/breakdown.rs, rx.rs, rx/buildup.rs, rx/session.rs): UDP endpoints, frames, transmitter
      and receiver; [UdpSpec], [UdpClaims]: their correctness.

    - [BitLengths], [BitLengthsSpec], [BitLengthsClaims]
      (canadensis_bit_length_set/src/lib.rs, operator.rs): sets of lengths of serialized
      values as trees of operators, against the sets of numbers that they denote.
    - [Transport] (canadensis_core/src/transport.rs): the traits of transports as classes;
      [LinkSpec] is what a node relies on, [TransportCan] shows that Cyphal/CAN keeps it.
    - [Node], [NodeSend], [NodeCore], [NodeBasic] (canadensis/src/lib.rs, serialize.rs,
      publisher.rs, requester.rs, anonymous.rs, node/*.rs): tokens, handlers, publishers and
      requesters, the core node, the minimal and the basic node, each of them an instance of
      the class [Node]. [DataTypes], [DataTypesSpec] (canadensis_data_types/src/generated.rs):
      the messages that they send.
    - [NodeSpec]: what a node promises, with [SerializeSpec] and [HandlerSpec] for the types
      and handlers of the application; [NodeSpecCore] shows it for the core node over any
      [LinkSpec], [NodeSpecBasic] for the basic node over any node that keeps it. [NodeRun]:
      runs of an application and the transfers that a node sends; [NodeClaims]: the
      properties, with a node on Cyphal/CAN as the example.
    - [Register], [RegisterBasic] (canadensis/src/register.rs, register/basic.rs, the blocks of
      canadensis_derive_register_block/src/lib.rs) and [RegisterTypes] (generated.rs): the
      register service and its messages. [Codec] is the class of types whose values come back
      when they are written and read, [RegisterTypesSpec] has its instances; [RegisterSpec]:
      what registers and blocks promise, and that the basic registers keep it;
      [RegisterRequests]: requests with any bytes; [RegisterClaims]: the service.
    - [PnpClient], [PnpClaims] (canadensis_pnp_client/src/lib.rs): the allocation client.

    - [DsdlTypes] (canadensis_dsdl_frontend/src/types.rs, compiled.rs): types and values.
    - [DsdlSyntax] (canadensis_dsdl_parser/src): the parser.
    - [DsdlBuild] (compile.rs): the state of a file and the transitions of its statements.
    - [DsdlValues] (types/set.rs, types/string.rs, types/constant.rs, operators/*.rs): values
      of expressions, their order, sets, operators, constants.
    - [DsdlEval] (types/expression.rs, types/directive.rs, compile.rs, package.rs,
      type_key.rs): expressions and statements as computations that ask for types; the lookup
      of types; the files of a package and their names.
    - [DsdlEvalSpec]: the reference for packages, which compiles every type anew, and the
      invariant of the compiler; [DsdlEvalClaims]: packages; [DsdlValuesSpec]: constants, sets,
      literals, names.
    - [RustCode]: the Rust that is generated, with its meaning. [RustGen]
      (canadensis_codegen_rust/src): the generator.
    - [BitStreams]: functions that write and read given bits. [DsdlWire]: the encoding that
      DSDL defines, the reference for front end and generator, and the messages that the
      generator handles correctly. [RustGenWrite], [RustGenRead], [RustGenSize]: the generated
      code for fields, its sizes and its copies of memory; [RustGenSpec], [RustGenClaims]: for
      whole messages. [DsdlBuildSpec], [DsdlBuildClaims]: the lengths and flags of the front
      end are those of the encoding.

    ** How state and effects are modelled

    Methods that take [&mut self] return the new state. A function that can panic has a
    result in [exec], so that "never panics" is part of a statement: [f x = Ret y]. Debug and
    release builds differ in arithmetic overflow and [debug_assert!]; functions where this
    matters take a [profile]. Memory allocation is an oracle ([allocator]) that may refuse any
    request and may give any capacity that is large enough; [alloc k] answers the [k]-th
    request of an operation. Hardware drivers, [heapless::LinearMap] and the clock are
    parameters with their documented behaviour as classes ([TransmitDriver], [ReceiveDriver],
    [KeyMap] and their law classes), and so are other crates: itertools and num-integer
    ([Combinatorics]), pest and num-bigint ([ParserCrates]), the normalization of text,
    conversions of rational to floating-point numbers and the sort of the standard library
    ([Conversions]), the case conversion of heck, and the CRC-32C and CRC-64 of bytes.
    Floating-point numbers are their bit patterns; values that are copied from memory as a
    whole have the form of a little-endian processor. Loops that are not structural have fuel, and running
    out of it is a panic (or [None]); the theorems that operations return therefore prove that
    the loops end. The fuel is the number of slots for the array queue, the number of entries
    for the session maps and the number of filters for the merge loop, each plus one; for
    [receive] and [flush_single_queue] it is an argument, and a theorem gives the amount that
    is enough. Compiling a package has fuel for the number of its files, which bounds how deep
    compilations nest and how many the outer loop starts, as a file is pending only until it
    is taken; [package_returns] shows that more fuel changes nothing and that the result is a
    package or an error.

    ** What the theorems show

    - End to end: a transfer pushed by the transmitter is delivered by a subscribed receiver,
      also when other frames come in between ([link_delivers]); sending is all or nothing
      ([push_all_or_nothing]).
    - Reception: no frame makes the receiver panic or leave its invariant, frames of different
      transfers do not interfere, only wanted transfers are delivered, [receive] ends.
    - Framing and identifiers: [Buildup] inverts [Breakdown], parsing inverts making of
      identifiers, the CRC has zero residue and detects short bursts, the layout is minimal.
    - Queues: the ring buffer refines an ordered list, flushing conserves frames, redundant
      drivers keep reservations.
    - Filters: no wanted frame is ever filtered out, whatever the number of hardware filters.
    - Core: clocks order correctly across wrap-around, subscription managers refine maps,
      sessions expire exactly when they should.
    - Serial: byte stuffing inverts, except for data that the encoder damages
      ([cobs_roundtrip_exact]); frames arrive once, in the order they were pushed, after any
      noise ([serial_link_delivers], [serial_no_duplicates], [serial_transmit_fifo]).
    - UDP: which transfers arrive ([udp_link_exact]; the code loses some) and that no datagram
      makes the receiver panic in a release build ([udp_datagram_safe]).
    - Encoding: fields and bit arrays round trip at any alignment; reading extends with
      zeros; writing panics exactly for lack of space.
    - Bit length sets: minimum, maximum and remainders of an expression are those of the set
      that it denotes, without computing it ([bls_bounds_exact], [bls_remainders_exact]; the
      latter is wrong for some paddings), and the order of sets is total.
    - Nodes: no run of an application makes a node panic ([node_never_panics]); the announced
      port list is exact ([port_list_names_the_tokens]); heartbeats and port lists follow
      their schedule; messages, requests and responses are numbered as the protocol asks.
    - Registers: a request is answered with the value that the register has after it
      ([register_access_answered]), the messages come back except for arrays of bits, and
      which bytes make the handler panic is known exactly ([register_requests_panic_exactly]).
      The allocation client takes exactly the answers to its own identifier.
    - Code generator: for messages that are [message_regular], the generated serializer writes
      the DSDL encoding, byte for byte, in a buffer of the computed size, and the deserializer
      reads it back. Examples show what goes wrong for the others.
    - DSDL front end: the lengths and flags of a compiled type are those of its encoding
      ([compiled_layout_exact], for all types of a package [package_layout_exact]); a package
      compiles to what its files mean by themselves ([package_refines_reference]), every
      package in which all files have a meaning compiles ([package_compiles]), and compiling
      ends. Constants are checked exactly, sets of numbers behave as sets, escape sequences
      and names are read as they are written.

    ** Not modelled

    Hardware and operating system drivers ([canadensis_bxcan], [canadensis_linux] and the
    like) are input and output through device registers and sockets. The firmware CRC crates
    are constants for the linker and a tool that patches files. [canadensis_macro] only parses
    its arguments and calls the front end and the generator. Of the generated data types
    ([generated.rs]) those of [DataTypes], [RegisterTypes] and [PnpClient] are modelled; the
    others, and the copy of them in [prdt_compile_test], are output of the generator:
    [RustGenClaims] is about the implementations of every type that is [message_regular]. The code that pest derives
    from the grammar of DSDL, and positions in the text, which errors carry, are left out. Of
    the modelled files, so are formatting, logging and the text of errors; [Debug], [Clone] and
    [PartialEq] implementations, which are structural; and functions that only return a part of
    a structure. *)

From stdpp Require Export base numbers list list_numbers option gmap.
From Stdlib Require Export ZArith Lia ZifyNat ZifyBool.

(** ** Outcomes of Rust code

    [exec A] is the outcome of code that may panic (a failed [assert!], an
    [expect]/[unwrap] on an error, an out-of-range slice index, an arithmetic
    overflow in a debug build). [result E A] is Rust's [Result<A, E>], with the
    error first so that [result E] is a functor. *)

Inductive exec (A : Type) : Type :=
| Ret (a : A)
| Panic.
Arguments Ret {A} a.
Arguments Panic {A}.

Inductive result (E A : Type) : Type :=
| Ok (a : A)
| Err (e : E).
Arguments Ok {E A} a.
Arguments Err {E A} e.

#[global] Instance exec_ret : MRet exec := @Ret.
#[global] Instance exec_bind : MBind exec := λ A B f m,
  match m with Ret a => f a | Panic => Panic end.
#[global] Instance exec_fmap : FMap exec := λ A B f m,
  match m with Ret a => Ret (f a) | Panic => Panic end.
#[global] Instance result_ret {E} : MRet (result E) := @Ok E.
#[global] Instance result_bind {E} : MBind (result E) := λ A B f m,
  match m with Ok a => f a | Err e => Err e end.
#[global] Instance result_fmap {E} : FMap (result E) := λ A B f m,
  match m with Ok a => Ok (f a) | Err e => Err e end.

Definition map_err {E F A} (f : E → F) (r : result E A) : result F A :=
  match r with Ok a => Ok a | Err e => Err (f e) end.

(** Rust's [Result::ok]. *)
Definition ok {E A} (r : result E A) : option A :=
  match r with Ok a => Some a | Err _ => None end.

Definition is_ok {E A} (r : result E A) : bool :=
  match r with Ok _ => true | Err _ => false end.

(** [expect]/[unwrap] on a [Result] and on an [Option]. *)
Definition expect {E A} (r : result E A) : exec A :=
  match r with Ok a => Ret a | Err _ => Panic end.
Definition unwrap {A} (o : option A) : exec A :=
  match o with Some a => Ret a | None => Panic end.

(** [assert!]. *)
Definition assert_ (b : bool) : exec unit := if b then Ret tt else Panic.

(** The [nb] crate's error type, which every transport function returns:
    [WouldBlock] asks the caller to try again later. *)
Inductive nb_error (E : Type) : Type :=
| WouldBlock
| Other (e : E).
Arguments WouldBlock {E}.
Arguments Other {E} e.

Definition nb_map {E F} (f : E → F) (e : nb_error E) : nb_error F :=
  match e with WouldBlock => WouldBlock | Other e => Other (f e) end.

(** Arithmetic differs between build profiles: with [debug_assertions] an
    overflow panics, without them it wraps around. *)
Inductive profile : Set := Debug | Release.

#[global] Instance profile_eq_dec : EqDecision profile.
Proof. solve_decision. Defined.

(** ** Machine integers

    An unsigned [w]-bit integer is a [Z] in [0, 2^w). *)

Declare Scope rust_scope.
Delimit Scope rust_scope with rust.

Definition is_u (w z : Z) : Prop := (0 ≤ z < 2 ^ w)%Z.
Definition is_ub (w z : Z) : bool := ((0 <=? z) && (z <? 2 ^ w))%Z.
Definition wrap (w z : Z) : Z := (z mod 2 ^ w)%Z.

#[global] Arguments wrap w z : simpl never.
#[global] Arguments is_u w z : simpl never.

(** The [as] casts. *)
Abbreviation as_u8 := (wrap 8).
Abbreviation as_u16 := (wrap 16).
Abbreviation as_u32 := (wrap 32).
Abbreviation as_u64 := (wrap 64).

Definition wrapping_add (w a b : Z) : Z := wrap w (a + b).
Definition wrapping_sub (w a b : Z) : Z := wrap w (a - b).
(** [a << n] on a [w]-bit integer drops the bits shifted out. *)
Definition shl (w a n : Z) : Z := wrap w (Z.shiftl a n).
(** [!a] on a [w]-bit integer. *)
Definition unot (w a : Z) : Z := wrap w (Z.lnot a).

Definition checked_mul (w a b : Z) : option Z :=
  if (a * b <? 2 ^ w)%Z then Some (a * b)%Z else None.

(** An arithmetic result [z] of the operators [+], [-] and [*]. *)
Definition arith (p : profile) (w z : Z) : exec Z :=
  if is_ub w z then Ret z else
  match p with Debug => Panic | Release => Ret (wrap w z) end.

Definition b2z (b : bool) : Z := if b then 1 else 0.

Abbreviation u8 := Z (only parsing).
Abbreviation u16 := Z (only parsing).
Abbreviation u32 := Z (only parsing).
Abbreviation u64 := Z (only parsing).
(** [usize] values that count the elements of an in-memory object are [nat]. *)
Abbreviation usize := nat (only parsing).

Definition byte_ok : u8 → Prop := is_u 8.
Abbreviation bytes_ok l := (Forall byte_ok l).

(** ** Tactics *)

(** Case analysis on a match or boolean test of the goal or of a hypothesis,
    closing arithmetically absurd branches. *)
Ltac step := case_match; simplify_eq/=; try lia; try done.
Ltac steps := repeat step.

(** [lia] for goals with divisions and remainders by constants. *)
Ltac dlia := zify; Z.to_euclidean_division_equations; lia.

(** Case analysis on a comparison of naturals or integers in the goal. *)
Ltac case_cmp :=
  match goal with
  | |- context [(?a <=? ?b)%nat] => destruct (Nat.leb_spec a b)
  | |- context [(?a <? ?b)%nat] => destruct (Nat.ltb_spec a b)
  | |- context [(?a =? ?b)%nat] => destruct (Nat.eqb_spec a b)
  | |- context [(?a <=? ?b)%Z] => destruct (Z.leb_spec a b)
  | |- context [(?a <? ?b)%Z] => destruct (Z.ltb_spec a b)
  | |- context [(?a =? ?b)%Z] => destruct (Z.eqb_spec a b)
  end.

(** Splits the [bind]s of a computation that is known to have returned. *)
Lemma exec_bind_Ret {A B} (m : exec A) (f : A → exec B) b :
  m ≫= f = Ret b ↔ ∃ a, m = Ret a ∧ f a = Ret b.
Proof.
  split; [destruct m; cbn; [eauto|done]|]. by intros (a & -> & ?).
Qed.
Lemma result_bind_Ok {E A B} (m : result E A) (f : A → result E B) b :
  m ≫= f = Ok b ↔ ∃ a, m = Ok a ∧ f a = Ok b.
Proof.
  split; [destruct m; cbn; [eauto|done]|]. by intros (a & -> & ?).
Qed.

Ltac unbind :=
  repeat match goal with
  | H : _ ≫= _ = Ret _ |- _ => apply exec_bind_Ret in H as (? & ? & ?)
  | H : _ ≫= _ = Ok _ |- _ => apply result_bind_Ok in H as (? & ? & ?)
  | H : mret _ = _ |- _ => inv H
  | H : Ret _ = Ret _ |- _ => inv H
  | H : Ok _ = Ok _ |- _ => inv H
  end.

(** ** Bit reasoning *)

Create HintDb bits discriminated.

Lemma testbit_above n w i : is_u w n → (0 ≤ w ≤ i)%Z → Z.testbit n i = false.
Proof.
  intros [H0 H1] Hi. rewrite <- (Z.mod_small n (2 ^ w)) by done.
  apply Z.mod_pow2_bits_high. lia.
Qed.

Lemma testbit_wrap w n i : (0 ≤ w)%Z → (0 ≤ i)%Z →
  Z.testbit (wrap w n) i = bool_decide (i < w)%Z && Z.testbit n i.
Proof.
  intros Hw Hi. unfold wrap. case_bool_decide.
  - by rewrite Z.mod_pow2_bits_low by lia.
  - rewrite Z.mod_pow2_bits_high by lia. done.
Qed.

Lemma is_u_wrap w n : (0 ≤ w)%Z → is_u w (wrap w n).
Proof. intros. apply Z.mod_pos_bound. lia. Qed.

Lemma wrap_small w n : is_u w n → wrap w n = n.
Proof. intros. by apply Z.mod_small. Qed.

Lemma wrap_wrap w w' z : (0 ≤ w ≤ w')%Z → wrap w (wrap w' z) = wrap w z.
Proof.
  intros. unfold wrap. replace (2 ^ w')%Z with (2 ^ w * 2 ^ (w' - w))%Z.
  - rewrite Z.rem_mul_r by lia.
    rewrite Z.mul_comm, Z.mod_add, Z.mod_mod by lia. done.
  - rewrite <- Z.pow_add_r by lia. f_equal. lia.
Qed.

Lemma is_ub_spec w z : is_ub w z = true ↔ is_u w z.
Proof. unfold is_ub, is_u. lia. Qed.

Lemma bytes_valid l : forallb (is_ub 8) l = true → bytes_ok l.
Proof. intros H. apply Forall_forall. intros x Hx. apply is_ub_spec. eapply forallb_forall; [exact H|]. by apply list_elem_of_In. Qed.

Lemma is_u_mono w w' n : is_u w n → (0 ≤ w ≤ w')%Z → is_u w' n.
Proof.
  intros [? ?] ?. split; [done|].
  pose proof (Z.pow_le_mono_r 2 w w'). lia.
Qed.

(** A non-negative number whose bits from [w] on are clear fits [w] bits. *)
Lemma is_u_bits w n : (0 ≤ w)%Z → (0 ≤ n)%Z →
  (∀ i, (w ≤ i)%Z → Z.testbit n i = false) → is_u w n.
Proof.
  intros Hw Hn Hb. split; [done|].
  destruct (Z.eq_dec n 0) as [->|]; [lia|].
  destruct (Z_lt_ge_dec (Z.log2 n) w) as [Hl|Hl].
  - apply Z.log2_lt_pow2; lia.
  - specialize (Hb (Z.log2 n)). rewrite Z.bit_log2 in Hb by lia.
    discriminate Hb. lia.
Qed.

Lemma is_u_lor w a b : (0 ≤ w)%Z → is_u w a → is_u w b → is_u w (Z.lor a b).
Proof.
  intros Hw Ha Hb. apply is_u_bits; [done| |].
  - apply Z.lor_nonneg. unfold is_u in *. lia.
  - intros i Hi. rewrite Z.lor_spec, (testbit_above a w), (testbit_above b w); done || lia.
Qed.

Lemma is_u_lxor w a b : (0 ≤ w)%Z → is_u w a → is_u w b → is_u w (Z.lxor a b).
Proof.
  intros Hw Ha Hb. apply is_u_bits; [done| |].
  - apply Z.lxor_nonneg. unfold is_u in *. lia.
  - intros i Hi. rewrite Z.lxor_spec, (testbit_above a w), (testbit_above b w); done || lia.
Qed.

Lemma is_u_land_r w a b : (0 ≤ w)%Z → is_u w b → is_u w (Z.land a b).
Proof.
  intros Hw Hb. apply is_u_bits; [done| |].
  - apply Z.land_nonneg. unfold is_u in *. lia.
  - intros i Hi. rewrite Z.land_spec, (testbit_above b w), andb_false_r; done || lia.
Qed.

Lemma is_u_shiftr w a n : is_u w a → (0 ≤ n)%Z → is_u w (Z.shiftr a n).
Proof.
  intros [H0 H1] Hn. rewrite Z.shiftr_div_pow2 by done.
  pose proof (Z.pow_pos_nonneg 2 n). split; [apply Z.div_pos; lia|].
  apply Z.div_lt_upper_bound; nia.
Qed.

Lemma is_u_shiftl w a n : is_u w a → (0 ≤ w)%Z → (0 ≤ n)%Z → is_u (w + n) (Z.shiftl a n).
Proof.
  intros [H0 H1] Hw Hn. unfold is_u. rewrite Z.shiftl_mul_pow2, Z.pow_add_r by done.
  pose proof (Z.pow_pos_nonneg 2 n). nia.
Qed.

(** The test [(z & !MASK) == 0] for a mask of [k] ones. *)
Lemma land_not_ones w k z : is_u w z → (0 ≤ k ≤ w)%Z →
  (Z.land z (unot w (Z.ones k)) =? 0)%Z = is_ub k z.
Proof.
  intros Hz Hk. unfold unot. destruct (is_ub k z) eqn:Hb.
  - apply is_ub_spec in Hb. apply Z.eqb_eq, Z.bits_inj'. intros i Hi.
    rewrite Z.land_spec, Z.bits_0, testbit_wrap, Z.lnot_spec by lia.
    destruct (Z_lt_ge_dec i k).
    + rewrite Z.ones_spec_low by lia. by rewrite !andb_false_r.
    + by rewrite (testbit_above z k) by (done || lia).
  - apply Z.eqb_neq. intros He. apply not_true_iff_false in Hb. apply Hb, is_ub_spec.
    apply is_u_bits; [lia|unfold is_u in Hz; lia|]. intros i Hi.
    destruct (Z_lt_ge_dec i w).
    + apply (f_equal (λ n, Z.testbit n i)) in He. revert He.
      rewrite Z.land_spec, Z.bits_0, testbit_wrap, Z.lnot_spec by lia.
      rewrite Z.ones_spec_high by lia. rewrite bool_decide_true by lia.
      by rewrite andb_true_r.
    + by apply (testbit_above z w); [|lia].
Qed.

(** Disjoint bit fields: the disjunction is the sum. *)
Lemma lor_shiftl_add k a b : (0 ≤ k)%Z → is_u k a → Z.lor a (Z.shiftl b k) = (a + b * 2 ^ k)%Z.
Proof.
  intros Hk Ha. rewrite <- Z.shiftl_mul_pow2, <- Z.add_lor_land by done.
  assert (Z.land a (Z.shiftl b k) = 0%Z) as ->; [|lia].
  apply Z.bits_inj'. intros i Hi. rewrite Z.land_spec, Z.bits_0, Z.shiftl_spec by done.
  destruct (Z_lt_ge_dec i k).
  - by rewrite (Z.testbit_neg_r b), andb_false_r by lia.
  - by rewrite (testbit_above a k) by (done || lia).
Qed.

#[export] Hint Resolve is_u_wrap is_u_lor is_u_lxor is_u_land_r is_u_shiftr : bits.
#[export] Hint Extern 1 (_ ≤ _)%Z => lia : bits.
#[export] Hint Extern 1 (_ < _)%Z => lia : bits.

(** ** Operators that check for overflow *)

Lemma is_ub_false w z : is_ub w z = false → ~ is_u w z.
Proof. intros Hb Hu. apply is_ub_spec in Hu. congruence. Qed.

Lemma arith_ok p w z : is_u w z → arith p w z = Ret z.
Proof. intros Hz. unfold arith. by rewrite (proj2 (is_ub_spec w z) Hz). Qed.

Lemma arith_Release w z : arith Release w z = Ret (wrap w z).
Proof.
  unfold arith. destruct (is_ub w z) eqn:Hb; [|done].
  apply is_ub_spec in Hb. by rewrite wrap_small.
Qed.

Lemma arith_is_u p w z a : (0 ≤ w)%Z → arith p w z = Ret a → is_u w a.
Proof.
  unfold arith. intros Hw H. destruct (is_ub w z) eqn:Hb; [|destruct p; [done|]]; inv H.
  - by apply is_ub_spec.
  - by apply is_u_wrap.
Qed.

(** ** Computations over lists *)

Lemma mapM_Ret {A B} (f : A → exec B) (g : A → B) l :
  (∀ x, x ∈ l → f x = Ret (g x)) → mapM f l = Ret (g <$> l).
Proof.
  induction l as [|x l IH]; intros H; [done|]. cbn. rewrite H by set_solver. cbn.
  rewrite IH by set_solver. done.
Qed.

Lemma mapM_Ret_Forall2 {A B} (f : A → exec B) (R : A → B → Prop) l :
  Forall (λ x, ∃ y, f x = Ret y ∧ R x y) l → ∃ l', mapM f l = Ret l' ∧ Forall2 R l l'.
Proof.
  induction 1 as [|x l (y & Hy & HR) _ (l' & Hl & HF)]; [by exists []|].
  exists (y :: l'). cbn. rewrite Hy. cbn. rewrite Hl. split; [done|by constructor].
Qed.

(** ** Slices *)

(** [a - b] on [usize], which must not underflow. *)
Definition usize_sub (a b : usize) : exec usize := if b <=? a then Ret (a - b) else Panic.

(** [items[i]], [items[i] = x] and [items.swap(i, j)], which panic out of range. *)
Definition index {A} (items : list A) (i : usize) : exec A := unwrap (items !! i).
Definition assign {A} (items : list A) (i : usize) (x : A) : exec (list A) :=
  _ ← index items i; Ret (<[i := x]> items).
Definition swap {A} (items : list A) (i j : usize) : exec (list A) :=
  a ← index items i; b ← index items j; Ret (<[j := a]> (<[i := b]> items)).

(** [debug_assert!], which release builds skip. *)
Definition debug_assert (p : profile) (b : bool) : exec unit :=
  match p with Debug => assert_ b | Release => Ret tt end.

Lemma debug_assert_Ret p b : b = true → debug_assert p b = Ret tt.
Proof. intros ->. by destruct p. Qed.

Lemma swap_adjacent {A} (l1 l2 : list A) f g :
  <[length l1 := f]> (<[S (length l1) := g]> (l1 ++ g :: f :: l2)) = l1 ++ f :: g :: l2.
Proof. induction l1 as [|x l1 IH]; [done|]. cbn. f_equal. apply IH. Qed.

Lemma index_middle {A} (l1 l2 : list A) x n : n = length l1 → index (l1 ++ x :: l2) n = Ret x.
Proof. intros ->. unfold index. by rewrite lookup_app_r, Nat.sub_diag by lia. Qed.

(** ** Vectors and the allocator

    A [Vec] is its elements and its capacity. The allocator is code outside the
    program: each operation that may allocate takes an oracle [alloc] that maps
    a requested capacity to the capacity obtained, or to [None] when memory is
    exhausted. *)

Record vec (A : Type) := mkVec { vec_list : list A; vec_cap : nat }.
Arguments mkVec {A} _ _.
Arguments vec_list {A} _.
Arguments vec_cap {A} _.

Abbreviation allocator := (nat → option nat) (only parsing).

(** What an allocator promises: at least the capacity asked for. *)
Definition alloc_ok (alloc : allocator) : Prop := ∀ n c, alloc n = Some c → n ≤ c.
Definition vec_wf {A} (v : vec A) : Prop := length (vec_list v) ≤ vec_cap v.

Definition vec_new {A} : vec A := mkVec [] 0.
Definition vec_len {A} (v : vec A) : nat := length (vec_list v).

(** [FallibleVec::try_with_capacity]. *)
Definition vec_with_capacity {A} (alloc : allocator) (n : nat) : option (vec A) :=
  if n =? 0 then Some vec_new else mkVec [] <$> alloc n.

(** [FallibleVec::try_reserve]: nothing happens when the capacity suffices. *)
Definition vec_reserve {A} (alloc : allocator) (v : vec A) (n : nat) : option (vec A) :=
  if vec_len v + n <=? vec_cap v then Some v
  else mkVec (vec_list v) <$> alloc (vec_len v + n).

(** [FallibleVec::try_extend_from_slice] and [try_push]. *)
Definition vec_extend {A} (alloc : allocator) (v : vec A) (l : list A) : option (vec A) :=
  v' ← vec_reserve alloc v (length l);
  Some (mkVec (vec_list v' ++ l) (vec_cap v')).
Definition vec_push {A} (alloc : allocator) (v : vec A) (x : A) : option (vec A) :=
  vec_extend alloc v [x].

(** [Vec::retain]. *)
Definition vec_retain {A} (f : A → bool) (v : vec A) : vec A :=
  mkVec (List.filter f (vec_list v)) (vec_cap v).

Lemma vec_extend_fits {A} alloc (v : vec A) l :
  vec_len v + length l ≤ vec_cap v →
  vec_extend alloc v l = Some (mkVec (vec_list v ++ l) (vec_cap v)).
Proof.
  intros H. unfold vec_extend, vec_reserve.
  by rewrite (proj2 (Nat.leb_le _ _) H).
Qed.

Lemma vec_extend_Some {A} alloc (v v' : vec A) l :
  vec_extend alloc v l = Some v' → vec_list v' = vec_list v ++ l.
Proof.
  unfold vec_extend, vec_reserve. intros H. destruct (_ <=? _); simplify_option_eq; done.
Qed.

Lemma vec_extend_wf {A} alloc (v v' : vec A) l :
  alloc_ok alloc → vec_extend alloc v l = Some v' → vec_wf v'.
Proof.
  unfold vec_extend, vec_reserve, vec_wf. intros Ha H.
  destruct (Nat.leb_spec (vec_len v + length l) (vec_cap v)); simplify_option_eq;
    rewrite length_app; unfold vec_len in *; [lia|].
  match goal with H : alloc _ = Some _ |- _ => apply Ha in H end. done.
Qed.

Lemma vec_extend_None {A} alloc (v : vec A) l :
  vec_extend alloc v l = None ↔
  vec_cap v < vec_len v + length l ∧ alloc (vec_len v + length l) = None.
Proof.
  unfold vec_extend, vec_reserve.
  destruct (Nat.leb_spec (vec_len v + length l) (vec_cap v)); cbn.
  - split; [done|lia].
  - destruct (alloc _); cbn; naive_solver lia.
Qed.

Lemma vec_retain_wf {A} f (v : vec A) : vec_wf v → vec_wf (vec_retain f v).
Proof. unfold vec_wf. cbn. pose proof (List.filter_length_le f (vec_list v)). lia. Qed.
