(* ===== verification/CoreTypes.v ===== *)
(** * Identifiers, priorities and errors of [canadensis_core]

    Models [canadensis_core/src/lib.rs] and [canadensis_core/src/error.rs].
    The newtypes around [u16] are represented by the integer they hold; the
    predicate [*_valid] is the range that the private constructor guarantees. *)

From S2P Require Import Prelude.
From Stdlib Require Import Ascii String.
Local Open Scope Z_scope.

Inductive InvalidValue : Set := mkInvalidValue.

Inductive OutOfMemoryError : Set := mkOutOfMemoryError.

Inductive ServiceSubscribeError (E : Type) : Type :=
| Anonymous
| TransportError (e : E).
Arguments Anonymous {E}.
Arguments TransportError {E} e.

(** The [From<E>] conversion that [?] applies. *)
Definition ServiceSubscribeError_from {E} (inner : E) : ServiceSubscribeError E :=
  TransportError inner.

(** ** Subject, service and port identifiers *)

Abbreviation SubjectId := u16 (only parsing).
Abbreviation ServiceId := u16 (only parsing).
Abbreviation PortId := u16 (only parsing).

Definition VALID_SUBJECT_IDS_end : Z := 8191.
Definition VALID_SERVICE_IDS_end : Z := 511.

Definition SubjectId_valid (s : SubjectId) : Prop := 0 ≤ s ≤ VALID_SUBJECT_IDS_end.
Definition ServiceId_valid (s : ServiceId) : Prop := 0 ≤ s ≤ VALID_SERVICE_IDS_end.

Definition SubjectId_from_truncating (value : u16) : SubjectId :=
  Z.land value VALID_SUBJECT_IDS_end.

Definition SubjectId_try_from (value : u16) : result InvalidValue SubjectId :=
  if (0 <=? value) && (value <=? VALID_SUBJECT_IDS_end)
  then Ok value else Err mkInvalidValue.

Definition ServiceId_from_truncating (value : u16) : ServiceId :=
  Z.land value VALID_SERVICE_IDS_end.

Definition ServiceId_try_from (value : u16) : result InvalidValue ServiceId :=
  if (0 <=? value) && (value <=? VALID_SERVICE_IDS_end)
  then Ok value else Err mkInvalidValue.

(** [PortId] wraps the same integer; its constructors and fallible
    destructors. *)
Definition PortId_from_subject (s : SubjectId) : PortId := s.
Definition PortId_from_service (s : ServiceId) : PortId := s.
Definition SubjectId_try_from_port (p : PortId) : result InvalidValue SubjectId :=
  SubjectId_try_from p.
Definition ServiceId_try_from_port (p : PortId) : result InvalidValue ServiceId :=
  ServiceId_try_from p.

(** [u16::from_str]: an optional [+], then at least one decimal digit, with an
    error as soon as the accumulated value leaves [u16]. *)
Definition digit (c : ascii) : option Z :=
  let n := Z.of_N (N_of_ascii c) in
  if (48 <=? n) && (n <=? 57) then Some (n - 48) else None.

Fixpoint parse_digits (acc : Z) (s : string) : option Z :=
  match s with
  | EmptyString => Some acc
  | String c s' =>
      match digit c with
      | Some d =>
          let acc' := acc * 10 + d in
          if acc' <? 2 ^ 16 then parse_digits acc' s' else None
      | None => None
      end
  end.

Definition u16_from_str (s : string) : option Z :=
  match s with
  | EmptyString => None
  | String "+" EmptyString => None
  | String "+" s' => parse_digits 0 s'
  | _ => parse_digits 0 s
  end.

Definition SubjectId_from_str (s : string) : result InvalidValue SubjectId :=
  match u16_from_str s with
  | Some value => SubjectId_try_from value
  | None => Err mkInvalidValue
  end.

(** ** Priority *)

Inductive Priority : Set :=
| Exceptional | Immediate | Fast | High | Nominal | Low | Slow | Optional.

#[global] Instance Priority_eq_dec : EqDecision Priority.
Proof. solve_decision. Defined.

Definition Priority_default : Priority := Nominal.

(** The discriminants, which [as u8] and [as u32] expose. *)
Definition Priority_as_u8 (p : Priority) : u8 :=
  match p with
  | Exceptional => 0 | Immediate => 1 | Fast => 2 | High => 3
  | Nominal => 4 | Low => 5 | Slow => 6 | Optional => 7
  end.

Definition Priority_try_from (value : u8) : result InvalidValue Priority :=
  match value with
  | 0 => Ok Exceptional | 1 => Ok Immediate | 2 => Ok Fast | 3 => Ok High
  | 4 => Ok Nominal | 5 => Ok Low | 6 => Ok Slow | 7 => Ok Optional
  | _ => Err mkInvalidValue
  end.

(** ** Lemmas *)

Lemma SubjectId_try_from_valid s : SubjectId_valid s → SubjectId_try_from s = Ok s.
Proof. unfold SubjectId_valid, SubjectId_try_from. intros. case_match; [done|lia]. Qed.

Lemma ServiceId_try_from_valid s : ServiceId_valid s → ServiceId_try_from s = Ok s.
Proof. unfold ServiceId_valid, ServiceId_try_from. intros. case_match; [done|lia]. Qed.

Lemma SubjectId_valid_u s : SubjectId_valid s ↔ is_u 13 s.
Proof. unfold SubjectId_valid, VALID_SUBJECT_IDS_end, is_u. lia. Qed.

Lemma ServiceId_valid_u s : ServiceId_valid s ↔ is_u 9 s.
Proof. unfold ServiceId_valid, VALID_SERVICE_IDS_end, is_u. lia. Qed.

Lemma SubjectId_from_truncating_mod v : SubjectId_from_truncating v = wrap 13 v.
Proof. apply (Z.land_ones v 13). lia. Qed.

Lemma ServiceId_from_truncating_mod v : ServiceId_from_truncating v = wrap 9 v.
Proof. apply (Z.land_ones v 9). lia. Qed.

Lemma Priority_as_u8_range p : is_u 3 (Priority_as_u8 p).
Proof. destruct p; done. Qed.

Lemma Priority_roundtrip p : Priority_try_from (Priority_as_u8 p) = Ok p.
Proof. by destruct p. Qed.

Lemma Priority_try_from_lt v : is_u 3 v → ∃ p, Priority_try_from v = Ok p ∧ Priority_as_u8 p = v.
Proof.
  intros [? ?]. assert (v = 0 ∨ v = 1 ∨ v = 2 ∨ v = 3 ∨ v = 4 ∨ v = 5 ∨ v = 6 ∨ v = 7) by lia.
  destruct_or!; subst; simpl; eauto.
Qed.

Create Rewrite HintDb core_types.
#[export] Hint Rewrite SubjectId_from_truncating_mod ServiceId_from_truncating_mod
  Priority_roundtrip : core_types.
