(* ===== verification/Time.v ===== *)
(** * Instants, durations and the 48-bit integer of [canadensis_core]

    Models [canadensis_core/src/time.rs] and [canadensis_core/src/time/u48.rs].
    The traits [Duration] and [Instant] are type classes. [InstantSpec] states
    what the rest of the code relies on: a clock whose readings wrap around
    still orders and subtracts correctly any two readings that are close
    enough. The three microsecond clocks are instances of both. *)

From S2P Require Import Prelude CoreTypes.
Local Open Scope Z_scope.

(** ** The traits *)

Class Duration (D : Type) := {
  dur_from_millis : u32 → option D;
  dur_as_secs : D → exec u64;
  dur_subsec_nanos : profile → D → exec u32;
  dur_default : D;
  (** [>] of [PartialOrd] *)
  dur_gt : D → D → bool;
  (** [Add<Self, Output = Self>] *)
  dur_add : profile → D → D → exec D;
}.

Class Instant (I D : Type) `{Duration D} := {
  duration_since : I → I → D;
  overflow_safe_compare : I → I → comparison;
  (** [Add<Instant, Output = Instant>] of the duration type *)
  add_instant : profile → D → I → exec I;
}.

(** The trait [Clock]: [now] takes the clock by mutable reference. *)
Class Clock (C I : Type) := { clock_now : C → C * I }.

(** What a client of [Instant] relies on. [clock t] is the reading of a clock
    that has counted [t] microseconds, however often it has wrapped around. *)
Class InstantSpec (I D : Type) `{Instant I D} := {
  clock : Z → I;
  dur_us : D → Z;
  period : Z;
  period_pos : 2 ≤ period;
  compare_spec x y :
    2 * Z.abs (x - y) < period →
    overflow_safe_compare (clock x) (clock y) = Z.compare x y;
  since_spec x y :
    0 ≤ y - x < period → dur_us (duration_since (clock y) (clock x)) = y - x;
  dur_gt_spec d e : dur_gt d e = (dur_us e <? dur_us d);
}.

Definition milliseconds {D} `{Duration D} (ms : u32) : exec D :=
  unwrap (dur_from_millis ms).
Definition try_milliseconds {D} `{Duration D} (ms : u32) : option D :=
  dur_from_millis ms.

(** ** 32-bit microseconds *)

Record MicrosecondDuration32 := mkMicrosecondDuration32 { us_dur32 : u32 }.
Record Microseconds32 := mkMicroseconds32 { us32 : u32 }.

Module D32.
Definition from_millis (millis : u32) : option MicrosecondDuration32 :=
  mkMicrosecondDuration32 <$> checked_mul 32 millis 1000.
Definition as_secs (d : MicrosecondDuration32) : exec u64 :=
  Ret (us_dur32 d / 1000000).
Definition subsec_nanos (p : profile) (d : MicrosecondDuration32) : exec u32 :=
  arith p 32 (us_dur32 d mod 1000000 * 1000).
Definition add (p : profile) (a b : MicrosecondDuration32) : exec MicrosecondDuration32 :=
  mkMicrosecondDuration32 <$> arith p 32 (us_dur32 a + us_dur32 b).
Definition add_to_instant (p : profile) (d : MicrosecondDuration32) (t : Microseconds32)
    : exec Microseconds32 :=
  mkMicroseconds32 <$> arith p 32 (us_dur32 d + us32 t).
Definition since (self other : Microseconds32) : MicrosecondDuration32 :=
  mkMicrosecondDuration32 (wrapping_sub 32 (us32 self) (us32 other)).
Definition compare (self other : Microseconds32) : comparison :=
  let half_max := (2 ^ 32 - 1) / 2 in
  if us32 self =? us32 other then Eq
  else
    let subtract_result := wrapping_sub 32 (us32 other) (us32 self) in
    if subtract_result <=? half_max then Lt else Gt.
End D32.

#[global] Instance duration32 : Duration MicrosecondDuration32 := {
  dur_from_millis := D32.from_millis;
  dur_as_secs := D32.as_secs;
  dur_subsec_nanos := D32.subsec_nanos;
  dur_default := mkMicrosecondDuration32 0;
  dur_gt d e := us_dur32 e <? us_dur32 d;
  dur_add := D32.add;
}.
#[global] Instance instant32 : Instant Microseconds32 MicrosecondDuration32 := {
  duration_since := D32.since;
  overflow_safe_compare := D32.compare;
  add_instant := D32.add_to_instant;
}.

(** ** The 48-bit integer *)

Definition U48_MASK : u64 := 0x0000ffffffffffff.

Record U48 := mkU48 { u48 : u64 }.

(** The invariant of the type: the 16 most significant bits are zero. *)
Definition U48_ok (a : U48) : Prop := is_u 48 (u48 a).

Module U48.
Definition MIN : U48 := mkU48 0.
Definition MAX : U48 := mkU48 U48_MASK.

Definition wrapping_add (self rhs : U48) : U48 :=
  let inner_sum := wrapping_add 64 (u48 self) (u48 rhs) in
  mkU48 (Z.land inner_sum U48_MASK).
Definition wrapping_sub (self rhs : U48) : U48 :=
  let inner_difference := wrapping_sub 64 (u48 self) (u48 rhs) in
  mkU48 (Z.land inner_difference U48_MASK).

(** [From<u8>], [From<u16>], [From<u32>]. *)
Definition from_small (small : Z) : U48 := mkU48 small.
(** [TryFrom<i8>], [TryFrom<i16>], [TryFrom<i32>]: negative values do not
    convert to [u64]. *)
Definition try_from_signed (small : Z) : result unit U48 :=
  if 0 <=? small then Ok (mkU48 small) else Err tt.
Definition try_from_u64 (value : u64) : result InvalidValue U48 :=
  if Z.land value (unot 64 U48_MASK) =? 0 then Ok (mkU48 value) else Err mkInvalidValue.
Definition to_u64 (small : U48) : u64 := u48 small.
Definition try_to_u32 (value : U48) : result InvalidValue u32 :=
  if Z.land (u48 value) (unot 64 (2 ^ 32 - 1)) =? 0
  then Ok (as_u32 (u48 value)) else Err mkInvalidValue.

(** The check after the 64-bit operation, which depends on the profile. *)
Definition finish (p : profile) (inner : u64) : exec U48 :=
  match p with
  | Debug => if negb (Z.land inner (unot 64 U48_MASK) =? 0) then Panic else Ret (mkU48 inner)
  | Release => Ret (mkU48 (Z.land inner U48_MASK))
  end.
Definition add (p : profile) (self rhs : U48) : exec U48 :=
  arith p 64 (u48 self + u48 rhs) ≫= finish p.
Definition sub (p : profile) (self rhs : U48) : exec U48 :=
  arith p 64 (u48 self - u48 rhs) ≫= finish p.
Definition mul (p : profile) (self : U48) (rhs : u32) : exec U48 :=
  arith p 64 (u48 self * rhs) ≫= finish p.
Definition div (self : U48) (rhs : u32) : exec U48 :=
  if rhs =? 0 then Panic else Ret (mkU48 (u48 self / rhs)).
Definition rem (self : U48) (rhs : u32) : exec U48 :=
  if rhs =? 0 then Panic else Ret (mkU48 (u48 self mod rhs)).
(** A shift by 64 or more overflows: a panic, or only the low 6 bits count. *)
Definition shr (p : profile) (self : U48) (rhs : u32) : exec U48 :=
  if rhs <? 64 then Ret (mkU48 (Z.shiftr (u48 self) rhs)) else
  match p with
  | Debug => Panic
  | Release => Ret (mkU48 (Z.shiftr (u48 self) (rhs mod 64)))
  end.
End U48.

(** ** 48-bit microseconds *)

Record MicrosecondDuration48 := mkMicrosecondDuration48 { us_dur48 : U48 }.
Record Microseconds48 := mkMicroseconds48 { us48 : U48 }.

Module D48.
Definition from_millis (millis : u32) : option MicrosecondDuration48 :=
  microseconds ← checked_mul 64 millis 1000;
  microseconds_48 ← ok (U48.try_from_u64 microseconds);
  Some (mkMicrosecondDuration48 microseconds_48).
Definition as_secs (d : MicrosecondDuration48) : exec u64 :=
  U48.to_u64 <$> U48.div (us_dur48 d) 1000000.
Definition subsec_nanos (p : profile) (d : MicrosecondDuration48) : exec u32 :=
  microseconds ← U48.rem (us_dur48 d) 1000000;
  product ← U48.mul p microseconds 1000;
  expect (U48.try_to_u32 product).
Definition add (p : profile) (a b : MicrosecondDuration48) : exec MicrosecondDuration48 :=
  mkMicrosecondDuration48 <$> U48.add p (us_dur48 a) (us_dur48 b).
Definition add_to_instant (p : profile) (d : MicrosecondDuration48) (t : Microseconds48)
    : exec Microseconds48 :=
  mkMicroseconds48 <$> U48.add p (us_dur48 d) (us48 t).
Definition since (self other : Microseconds48) : MicrosecondDuration48 :=
  mkMicrosecondDuration48 (U48.wrapping_sub (us48 self) (us48 other)).
(** [U48::MAX / 2], by the [Div<u32>] implementation. *)
Definition half_max : Z := U48_MASK / 2.
Definition compare (self other : Microseconds48) : comparison :=
  if u48 (us48 self) =? u48 (us48 other) then Eq
  else
    let subtract_result := U48.wrapping_sub (us48 other) (us48 self) in
    if u48 subtract_result <=? half_max then Lt else Gt.
End D48.

#[global] Instance duration48 : Duration MicrosecondDuration48 := {
  dur_from_millis := D48.from_millis;
  dur_as_secs := D48.as_secs;
  dur_subsec_nanos := D48.subsec_nanos;
  dur_default := mkMicrosecondDuration48 (mkU48 0);
  dur_gt d e := u48 (us_dur48 e) <? u48 (us_dur48 d);
  dur_add := D48.add;
}.
#[global] Instance instant48 : Instant Microseconds48 MicrosecondDuration48 := {
  duration_since := D48.since;
  overflow_safe_compare := D48.compare;
  add_instant := D48.add_to_instant;
}.

(** ** 64-bit microseconds *)

Record MicrosecondDuration64 := mkMicrosecondDuration64 { us_dur64 : u64 }.
Record Microseconds64 := mkMicroseconds64 { us64 : u64 }.

Module D64.
Definition from_millis (millis : u32) : option MicrosecondDuration64 :=
  mkMicrosecondDuration64 <$> checked_mul 64 millis 1000.
Definition as_secs (d : MicrosecondDuration64) : exec u64 :=
  Ret (us_dur64 d / 1000000).
Definition subsec_nanos (p : profile) (d : MicrosecondDuration64) : exec u32 :=
  as_u32 <$> arith p 64 (us_dur64 d mod 1000000 * 1000).
Definition add (p : profile) (a b : MicrosecondDuration64) : exec MicrosecondDuration64 :=
  mkMicrosecondDuration64 <$> arith p 64 (us_dur64 a + us_dur64 b).
Definition add_to_instant (p : profile) (d : MicrosecondDuration64) (t : Microseconds64)
    : exec Microseconds64 :=
  mkMicroseconds64 <$> arith p 64 (us_dur64 d + us64 t).
Definition since (self other : Microseconds64) : MicrosecondDuration64 :=
  mkMicrosecondDuration64 (wrapping_sub 64 (us64 self) (us64 other)).
Definition compare (self other : Microseconds64) : comparison :=
  let half_max := (2 ^ 64 - 1) / 2 in
  if us64 self =? us64 other then Eq
  else
    let subtract_result := wrapping_sub 64 (us64 other) (us64 self) in
    if subtract_result <=? half_max then Lt else Gt.
End D64.

#[global] Instance duration64 : Duration MicrosecondDuration64 := {
  dur_from_millis := D64.from_millis;
  dur_as_secs := D64.as_secs;
  dur_subsec_nanos := D64.subsec_nanos;
  dur_default := mkMicrosecondDuration64 0;
  dur_gt d e := us_dur64 e <? us_dur64 d;
  dur_add := D64.add;
}.
#[global] Instance instant64 : Instant Microseconds64 MicrosecondDuration64 := {
  duration_since := D64.since;
  overflow_safe_compare := D64.compare;
  add_instant := D64.add_to_instant;
}.

(** ** Lemmas on wrapping clocks *)

#[local] Obligation Tactic := idtac.

Lemma U48_MASK_ones : U48_MASK = Z.ones 48.
Proof. done. Qed.

Lemma land_mask48 z : Z.land z U48_MASK = wrap 48 z.
Proof. rewrite U48_MASK_ones. apply Z.land_ones. lia. Qed.

Lemma wrap_sub_wrap w x y : wrap w (wrap w x - wrap w y) = wrap w (x - y).
Proof. unfold wrap. by rewrite <- Zminus_mod. Qed.

(** The comparison that all three clocks perform, on two readings of a clock
    that wraps around at [2 ^ w]. *)
Lemma wrapped_compare w x y :
  1 ≤ w → 2 * Z.abs (x - y) < 2 ^ w →
  (if wrap w x =? wrap w y then Eq
   else if wrap w (wrap w y - wrap w x) <=? (2 ^ w - 1) / 2 then Lt else Gt)
  = (x ?= y).
Proof.
  intros Hw Hd. rewrite wrap_sub_wrap.
  assert (Hp : 2 ^ w = 2 * 2 ^ (w - 1)) by (rewrite <- Z.pow_succ_r by lia; f_equal; lia).
  assert (Hh : (2 ^ w - 1) / 2 = 2 ^ (w - 1) - 1).
  { symmetry. apply (Z.div_unique _ _ _ 1); lia. }
  rewrite Hh. destruct (Z.compare_spec x y) as [->|Hlt|Hgt].
  - by rewrite Z.eqb_refl.
  - assert (Hs : wrap w (y - x) = y - x) by (apply wrap_small; unfold is_u; lia).
    destruct (Z.eqb_spec (wrap w x) (wrap w y)) as [He|_].
    + pose proof (wrap_sub_wrap w y x) as Hww. rewrite He, Z.sub_diag, Hs in Hww.
      unfold wrap in Hww. rewrite Z.mod_0_l in Hww by lia. lia.
    + rewrite Hs. destruct (Z.leb_spec (y - x) (2 ^ (w - 1) - 1)); [done|lia].
  - assert (Hs : wrap w (y - x) = y - x + 2 ^ w).
    { unfold wrap. rewrite <- (Z_mod_plus_full _ 1), Z.mul_1_l. apply Z.mod_small. lia. }
    destruct (Z.eqb_spec (wrap w x) (wrap w y)) as [He|_].
    + pose proof (wrap_sub_wrap w y x) as Hww. rewrite He, Z.sub_diag, Hs in Hww.
      unfold wrap in Hww. rewrite Z.mod_0_l in Hww by lia. lia.
    + rewrite Hs. destruct (Z.leb_spec (y - x + 2 ^ w) (2 ^ (w - 1) - 1)); [lia|done].
Qed.

Lemma u48_wrapping_sub a b : u48 (U48.wrapping_sub a b) = wrap 48 (u48 a - u48 b).
Proof. cbn. rewrite land_mask48. apply wrap_wrap. lia. Qed.

Lemma u48_wrapping_add a b : u48 (U48.wrapping_add a b) = wrap 48 (u48 a + u48 b).
Proof. cbn. rewrite land_mask48. apply wrap_wrap. lia. Qed.

#[global] Program Instance instant_spec32 : InstantSpec Microseconds32 MicrosecondDuration32 := {
  clock t := mkMicroseconds32 (wrap 32 t);
  dur_us := us_dur32;
  period := 2 ^ 32;
}.
Next Obligation. done. Qed.
Next Obligation. intros. by apply wrapped_compare. Qed.
Next Obligation. intros. cbn. unfold wrapping_sub. rewrite wrap_sub_wrap. by apply wrap_small. Qed.
Next Obligation. done. Qed.

#[global] Program Instance instant_spec48 : InstantSpec Microseconds48 MicrosecondDuration48 := {
  clock t := mkMicroseconds48 (mkU48 (wrap 48 t));
  dur_us d := u48 (us_dur48 d);
  period := 2 ^ 48;
}.
Next Obligation. done. Qed.
Next Obligation.
  intros. cbn. unfold D48.compare. rewrite u48_wrapping_sub. by apply wrapped_compare.
Qed.
Next Obligation.
  intros. cbn -[U48.wrapping_sub]. rewrite u48_wrapping_sub. cbn [us48 u48]. rewrite wrap_sub_wrap. by apply wrap_small.
Qed.
Next Obligation. done. Qed.

#[global] Program Instance instant_spec64 : InstantSpec Microseconds64 MicrosecondDuration64 := {
  clock t := mkMicroseconds64 (wrap 64 t);
  dur_us := us_dur64;
  period := 2 ^ 64;
}.
Next Obligation. done. Qed.
Next Obligation. intros. by apply wrapped_compare. Qed.
Next Obligation. intros. cbn. unfold wrapping_sub. rewrite wrap_sub_wrap. by apply wrap_small. Qed.
Next Obligation. done. Qed.

(** Clients only ever ask whether more than a timeout has passed. *)
Lemma timeout_spec {I D} `{InstantSpec I D} x y timeout :
  0 ≤ y - x < period →
  dur_gt (duration_since (clock y) (clock x)) timeout = (dur_us timeout <? y - x).
Proof. intros. by rewrite dur_gt_spec, since_spec. Qed.

Lemma not_land_mask48 z : is_u 64 z →
  (Z.land z (unot 64 U48_MASK) =? 0) = is_ub 48 z.
Proof. intros. rewrite U48_MASK_ones. by apply land_not_ones. Qed.

(** ** Properties *)

Lemma U48_finish_spec p z r : is_u 64 z → U48.finish p z = Ret r → U48_ok r.
Proof.
  intros Hz. destruct p; cbn.
  - rewrite not_land_mask48 by done. destruct (is_ub 48 z) eqn:Hb; [|done].
    intros [= <-]. by apply is_ub_spec.
  - intros [= <-]. unfold U48_ok. cbn. rewrite land_mask48. by apply is_u_wrap.
Qed.

(** Ordering two instants is correct across a wrap-around of the clock. For
    each of the three clocks, the comparison of two readings agrees with the
    order of the real times at which they were taken whenever these are less
    than half a clock period apart. *)
Theorem clock_order_correct (x y : Z) :
  (2 * Z.abs (x - y) < 2 ^ 32 →
     D32.compare (mkMicroseconds32 (wrap 32 x)) (mkMicroseconds32 (wrap 32 y)) = (x ?= y)) ∧
  (2 * Z.abs (x - y) < 2 ^ 48 →
     D48.compare (mkMicroseconds48 (mkU48 (wrap 48 x)))
                 (mkMicroseconds48 (mkU48 (wrap 48 y))) = (x ?= y)) ∧
  (2 * Z.abs (x - y) < 2 ^ 64 →
     D64.compare (mkMicroseconds64 (wrap 64 x)) (mkMicroseconds64 (wrap 64 y)) = (x ?= y)).
Proof.
  split_and!; intros.
  - by apply (compare_spec (InstantSpec := instant_spec32) x y).
  - by apply (compare_spec (InstantSpec := instant_spec48) x y).
  - by apply (compare_spec (InstantSpec := instant_spec64) x y).
Qed.

(** Every constructor and operation of the 48-bit integer keeps its 16 most
    significant bits zero, in debug and in release builds. *)
Theorem U48_operations_preserve_invariant (p : profile) (a b : U48) (n : Z) :
  U48_ok a → U48_ok b → is_u 64 n →
  U48_ok (U48.wrapping_add a b) ∧ U48_ok (U48.wrapping_sub a b) ∧
  (∀ r, U48.try_from_u64 n = Ok r → U48_ok r) ∧
  (∀ r, U48.add p a b = Ret r → U48_ok r) ∧
  (∀ r, U48.sub p a b = Ret r → U48_ok r) ∧
  (∀ r, U48.mul p a n = Ret r → U48_ok r) ∧
  (∀ r, U48.div a n = Ret r → U48_ok r) ∧
  (∀ r, U48.rem a n = Ret r → U48_ok r) ∧
  (∀ r, U48.shr p a n = Ret r → U48_ok r).
Proof.
  intros Ha Hb Hn. unfold U48_ok in *.
  rewrite u48_wrapping_add, u48_wrapping_sub.
  split_and!; try (by apply is_u_wrap); intros r Hr.
  - unfold U48.try_from_u64 in Hr. rewrite not_land_mask48 in Hr by done.
    destruct (is_ub 48 n) eqn:E; inv Hr. by apply is_ub_spec.
  - unfold U48.add in Hr. unbind.
    eapply U48_finish_spec; [|done]. by eapply arith_is_u.
  - unfold U48.sub in Hr. unbind.
    eapply U48_finish_spec; [|done]. by eapply arith_is_u.
  - unfold U48.mul in Hr. unbind.
    eapply U48_finish_spec; [|done]. by eapply arith_is_u.
  - unfold U48.div in Hr. destruct (Z.eqb_spec n 0); inv Hr. destruct Ha, Hn.
    split; [apply Z.div_pos; lia|]. apply Z.div_lt_upper_bound; nia.
  - unfold U48.rem in Hr. destruct (Z.eqb_spec n 0); inv Hr. destruct Ha, Hn.
    pose proof (Z.mod_pos_bound (u48 a) n ltac:(lia)).
    pose proof (Z.mod_le (u48 a) n ltac:(lia) ltac:(lia)).
    unfold is_u. cbn. lia.
  - destruct Hn. unfold U48.shr in Hr. pose proof (Z.mod_pos_bound n 64).
    destruct (n <? 64); [|destruct p]; inv Hr; apply is_u_shiftr; done || lia.
Qed.

Lemma U48_operations_preserve_invariant_witness :
  U48_ok (mkU48 5) ∧ U48_ok (U48.wrapping_sub (mkU48 5) (mkU48 7)).
Proof.
  assert (H5 : U48_ok (mkU48 5)) by done. assert (H7 : U48_ok (mkU48 7)) by done.
  assert (H3 : is_u 64 3) by done. split; [done|].
  exact (proj1 (proj2 (U48_operations_preserve_invariant Debug _ _ 3 H5 H7 H3))).
Defined.

(** Splitting a duration into whole seconds and remaining nanoseconds never
    panics and loses nothing, in any build profile, for all three duration
    types. *)
Theorem duration_split_exact (p : profile) (us : Z) :
  (is_u 32 us → ∃ s n, D32.as_secs (mkMicrosecondDuration32 us) = Ret s ∧
     D32.subsec_nanos p (mkMicrosecondDuration32 us) = Ret n ∧
     0 ≤ n < 10 ^ 9 ∧ s * 10 ^ 9 + n = us * 1000) ∧
  (is_u 48 us → ∃ s n, D48.as_secs (mkMicrosecondDuration48 (mkU48 us)) = Ret s ∧
     D48.subsec_nanos p (mkMicrosecondDuration48 (mkU48 us)) = Ret n ∧
     0 ≤ n < 10 ^ 9 ∧ s * 10 ^ 9 + n = us * 1000) ∧
  (is_u 64 us → ∃ s n, D64.as_secs (mkMicrosecondDuration64 us) = Ret s ∧
     D64.subsec_nanos p (mkMicrosecondDuration64 us) = Ret n ∧
     0 ≤ n < 10 ^ 9 ∧ s * 10 ^ 9 + n = us * 1000).
Proof.
  pose proof (Z.mod_pos_bound us 1000000 ltac:(lia)) as Hm.
  pose proof (Z.div_mod us 1000000 ltac:(lia)) as Hd.
  assert (Hr : ∀ w, 30 ≤ w → is_u w (us mod 1000000 * 1000)).
  { intros w Hw. apply (is_u_mono 30); [unfold is_u|]; lia. }
  split_and!; intros Hus; exists (us / 1000000), (us mod 1000000 * 1000);
    (split_and!; [done| |lia|lia|lia]).
  - unfold D32.subsec_nanos. cbn. apply arith_ok, Hr. lia.
  - unfold D48.subsec_nanos, U48.rem, U48.mul. cbn -[U48.finish U48.try_to_u32].
    rewrite arith_ok by (apply Hr; lia). cbn -[U48.finish U48.try_to_u32].
    assert (Hf : U48.finish p (us mod 1000000 * 1000) = Ret (mkU48 (us mod 1000000 * 1000))).
    { destruct p; cbn.
      - rewrite not_land_mask48 by (apply Hr; lia).
        by rewrite (proj2 (is_ub_spec 48 _)) by (apply Hr; lia).
      - by rewrite land_mask48, wrap_small by (apply Hr; lia). }
    rewrite Hf. unfold mbind, exec_bind, U48.try_to_u32. cbn -[Z.land Z.pow].
    change (unot 64 (2 ^ 32 - 1)) with (Z.shiftl (Z.ones 32) 32).
    assert (Z.land (us mod 1000000 * 1000) (Z.shiftl (Z.ones 32) 32) = 0) as ->.
    { apply Z.bits_inj'. intros i Hi. rewrite Z.land_spec, Z.bits_0, Z.shiftl_spec by lia.
      destruct (Z_lt_ge_dec i 32).
      - by rewrite (Z.testbit_neg_r _ (i - 32)), andb_false_r by lia.
      - by rewrite (testbit_above _ 32) by (apply Hr || idtac; lia). }
    cbn. by rewrite wrap_small by (apply Hr; lia).
  - unfold D64.subsec_nanos. cbn. rewrite arith_ok by (apply Hr; lia). cbn.
    by rewrite wrap_small by (apply Hr; lia).
Qed.

(** Adding a timeout to a 32-bit instant. In a release build the sum is the
    reading of the clock after that time, wrap-around included; in a debug build
    the same addition panics as soon as the clock would wrap around, although
    comparison and subtraction of instants are written to survive it. *)
Theorem add_to_instant_wraps_or_panics (x us : Z) :
  is_u 32 us →
  D32.add_to_instant Release (mkMicrosecondDuration32 us) (mkMicroseconds32 (wrap 32 x))
    = Ret (mkMicroseconds32 (wrap 32 (x + us))) ∧
  (D32.add_to_instant Debug (mkMicrosecondDuration32 us) (mkMicroseconds32 (wrap 32 x)) = Panic
     ↔ 2 ^ 32 ≤ us + wrap 32 x).
Proof.
  intros Hus. pose proof (is_u_wrap 32 x ltac:(lia)) as Hx.
  unfold D32.add_to_instant. cbn [us_dur32 us32]. split.
  - rewrite arith_Release. cbn. do 2 f_equal. unfold wrap.
    rewrite Z.add_comm. apply Zplus_mod_idemp_l.
  - unfold arith, is_ub, is_u in *. destruct ((0 <=? _) && _) eqn:E; cbn; split; try done; lia.
Qed.

Lemma add_to_instant_wraps_or_panics_witness :
  is_u 32 5 ∧
  D32.add_to_instant Debug (mkMicrosecondDuration32 5) (mkMicroseconds32 (wrap 32 (2 ^ 32 - 2)))
    = Panic.
Proof.
  assert (H : is_u 32 5) by done. split; [done|].
  apply (add_to_instant_wraps_or_panics (2 ^ 32 - 2) 5 H). vm_compute. discriminate.
Defined.
