(* ===== verification/Transfer.v ===== *)
(** * Transfers and their headers

    Models [canadensis_core/src/transfer.rs]. A header is parameterised by the
    instant type [I] and by the node identifier [N] and transfer identifier [T]
    of the transport; all transports use the same [Priority]. *)

From S2P Require Import Prelude CoreTypes.

Record MessageHeader (I N T : Type) := mkMessageHeader {
  mh_timestamp : I;
  mh_transfer_id : T;
  mh_priority : Priority;
  mh_subject : SubjectId;
  mh_source : option N;
}.
Arguments mkMessageHeader {I N T}.
Arguments mh_timestamp {I N T}.
Arguments mh_transfer_id {I N T}.
Arguments mh_priority {I N T}.
Arguments mh_subject {I N T}.
Arguments mh_source {I N T}.

Record ServiceHeader (I N T : Type) := mkServiceHeader {
  sh_timestamp : I;
  sh_transfer_id : T;
  sh_priority : Priority;
  sh_service : ServiceId;
  sh_source : N;
  sh_destination : N;
}.
Arguments mkServiceHeader {I N T}.
Arguments sh_timestamp {I N T}.
Arguments sh_transfer_id {I N T}.
Arguments sh_priority {I N T}.
Arguments sh_service {I N T}.
Arguments sh_source {I N T}.
Arguments sh_destination {I N T}.

Inductive Header (I N T : Type) :=
| Message (h : MessageHeader I N T)
| Request (h : ServiceHeader I N T)
| Response (h : ServiceHeader I N T).
Arguments Message {I N T} h.
Arguments Request {I N T} h.
Arguments Response {I N T} h.

Record Transfer (A I N T : Type) := mkTransfer {
  tr_header : Header I N T;
  tr_payload : A;
}.
Arguments mkTransfer {A I N T}.
Arguments tr_header {A I N T}.
Arguments tr_payload {A I N T}.

(** The derived [PartialEq] is equality of all fields. *)
#[global] Instance MessageHeader_eq_dec {I N T} `{EqDecision I, EqDecision N, EqDecision T} :
  EqDecision (MessageHeader I N T).
Proof. solve_decision. Defined.
#[global] Instance ServiceHeader_eq_dec {I N T} `{EqDecision I, EqDecision N, EqDecision T} :
  EqDecision (ServiceHeader I N T).
Proof. solve_decision. Defined.
#[global] Instance Header_eq_dec {I N T} `{EqDecision I, EqDecision N, EqDecision T} :
  EqDecision (Header I N T).
Proof. solve_decision. Defined.
#[global] Instance Transfer_eq_dec {A I N T}
  `{EqDecision A, EqDecision I, EqDecision N, EqDecision T} : EqDecision (Transfer A I N T).
Proof. solve_decision. Defined.

Section header.
Context {I N T : Type}.
Implicit Types h : Header I N T.

Definition timestamp h : I :=
  match h with
  | Message m => mh_timestamp m
  | Request s | Response s => sh_timestamp s
  end.

Definition set_timestamp (t : I) h : Header I N T :=
  let set_service s :=
    mkServiceHeader t (sh_transfer_id s) (sh_priority s) (sh_service s)
      (sh_source s) (sh_destination s) in
  match h with
  | Message m =>
      Message (mkMessageHeader t (mh_transfer_id m) (mh_priority m) (mh_subject m) (mh_source m))
  | Request s => Request (set_service s)
  | Response s => Response (set_service s)
  end.

Definition priority h : Priority :=
  match h with
  | Message m => mh_priority m
  | Request s | Response s => sh_priority s
  end.

Definition set_priority (p : Priority) h : Header I N T :=
  let set_service s :=
    mkServiceHeader (sh_timestamp s) (sh_transfer_id s) p (sh_service s)
      (sh_source s) (sh_destination s) in
  match h with
  | Message m =>
      Message (mkMessageHeader (mh_timestamp m) (mh_transfer_id m) p (mh_subject m) (mh_source m))
  | Request s => Request (set_service s)
  | Response s => Response (set_service s)
  end.

Definition source h : option N :=
  match h with
  | Message m => mh_source m
  | Request s | Response s => Some (sh_source s)
  end.

Definition port_id h : PortId :=
  match h with
  | Message m => PortId_from_subject (mh_subject m)
  | Request s | Response s => PortId_from_service (sh_service s)
  end.

Definition transfer_id h : T :=
  match h with
  | Message m => mh_transfer_id m
  | Request s | Response s => sh_transfer_id s
  end.

(** Setting a timestamp changes nothing else. *)
Lemma set_timestamp_fields t h :
  timestamp (set_timestamp t h) = t ∧ priority (set_timestamp t h) = priority h ∧
  source (set_timestamp t h) = source h ∧ port_id (set_timestamp t h) = port_id h ∧
  transfer_id (set_timestamp t h) = transfer_id h.
Proof. by destruct h. Qed.

Lemma set_timestamp_id h : set_timestamp (timestamp h) h = h.
Proof. by destruct h as [[]|[]|[]]. Qed.

Lemma set_timestamp_twice t t' h : set_timestamp t (set_timestamp t' h) = set_timestamp t h.
Proof. by destruct h. Qed.

Lemma set_priority_fields p h :
  priority (set_priority p h) = p ∧ timestamp (set_priority p h) = timestamp h ∧
  source (set_priority p h) = source h ∧ port_id (set_priority p h) = port_id h ∧
  transfer_id (set_priority p h) = transfer_id h.
Proof. by destruct h. Qed.
End header.
