(* ===== verification/Transport.v ===== *)
(** * The traits between a node and its transport

    Models [canadensis_core/src/transport.rs]: [Transport], [Transmitter], [Receiver] and
    [TransferId] as classes. [TransportSpec] and [LinkSpec] state what a node relies on; the
    node layer is proved against them, and [TransportCan] and [TransportSerial] show that
    the transports of the repository keep them. *)

From S2P Require Import Prelude CoreTypes Time Transfer.

(** The allocator of one call to a transport: it may answer differently at each of the
    points (counted in up to three levels) where the call allocates memory. *)
Abbreviation memory := (nat → nat → nat → allocator) (only parsing).
Definition memory_ok (mem : memory) : Prop := ∀ i j k, alloc_ok (mem i j k).

(** Disjoint parts of it: for the buffer into which a payload is serialized, and for two
    calls that are made one after the other. *)
Definition buffer_memory (mem : memory) : allocator := mem 0 0 0.
Definition first_part (mem : memory) : memory := λ i, mem (2 * i + 1).
Definition second_part (mem : memory) : memory := λ i, mem (2 * i + 2).

Lemma first_part_ok mem : memory_ok mem → memory_ok (first_part mem).
Proof. intros Hm i j k. apply Hm. Qed.
Lemma second_part_ok mem : memory_ok mem → memory_ok (second_part mem).
Proof. intros Hm i j k. apply Hm. Qed.
#[export] Hint Resolve first_part_ok second_part_ok : core.

(** [Transport] and [TransferId], for node identifiers [N] and transfer identifiers [T];
    the priority type of every transport is the one of [CoreTypes]. *)
Class Transport (N T : Type) := {
  transfer_id_default : T;
  transfer_id_increment : T → T;
}.

Class TransportSpec (N T : Type) `{Transport N T} := {
  node_id_valid : N → Prop;
  transfer_id_valid : T → Prop;
  transfer_id_default_valid : transfer_id_valid transfer_id_default;
  transfer_id_increment_valid t : transfer_id_valid t → transfer_id_valid (transfer_id_increment t);
}.

(** A transmitter [Tx] that uses clocks [C] and the driver [Drv], with errors [E]. *)
Class Transmitter (Tx C I N T Drv E : Type) := {
  transmit_push : memory → Tx → Transfer (list u8) I N T → C → Drv →
    exec (Tx * C * Drv * result (nb_error E) unit);
  transmit_flush : Tx → C → Drv → exec (Tx * C * Drv * result (nb_error E) unit);
  transmit_mtu : Tx → exec usize;
  (** [From<OutOfMemoryError>] of the error type *)
  transmit_oom : OutOfMemoryError → E;
}.

Class Receiver (Rx I D N T Drv E : Type) := {
  receiver_receive : memory → Rx → I → Drv →
    exec (Rx * Drv * result E (option (Transfer (list u8) I N T)));
  receiver_subscribe_message : memory → Rx → SubjectId → usize → D → Drv →
    exec (Rx * Drv * result E unit);
  receiver_unsubscribe_message : Rx → SubjectId → Drv → exec (Rx * Drv);
  receiver_subscribe_request : memory → Rx → ServiceId → usize → D → Drv →
    exec (Rx * Drv * result (ServiceSubscribeError E) unit);
  receiver_unsubscribe_request : Rx → ServiceId → Drv → exec (Rx * Drv);
  receiver_subscribe_response : memory → Rx → ServiceId → usize → D → Drv →
    exec (Rx * Drv * result (ServiceSubscribeError E) unit);
  receiver_unsubscribe_response : Rx → ServiceId → Drv → exec (Rx * Drv);
}.

(** Headers whose fields are in the ranges of their types. *)
Definition header_ok {I N T} `{TransportSpec N T} (h : Header I N T) : Prop :=
  match h with
  | Message m =>
      SubjectId_valid (mh_subject m) ∧ transfer_id_valid (mh_transfer_id m) ∧
      (∀ n, mh_source m = Some n → node_id_valid n)
  | Request s | Response s =>
      ServiceId_valid (sh_service s) ∧ transfer_id_valid (sh_transfer_id s) ∧
      node_id_valid (sh_source s) ∧ node_id_valid (sh_destination s)
  end.

(** Messages are for every node, service transfers for the node they name. *)
Definition for_node {I N T} (id : N) (h : Header I N T) : Prop :=
  match h with Message _ => True | Request s | Response s => sh_destination s = id end.

(** What a node with the identifier [id] relies on: an invariant of its transmitter, receiver
    and driver that every operation keeps, without a panic. [link_ready] says that the driver
    has an amount of input that one call of [receive] can go through. Only a receiver without
    a node identifier reports [Anonymous]. *)
Class LinkSpec (Tx Rx C I D N T Drv ETx ERx : Type)
    `{TransportSpec N T, !Transmitter Tx C I N T Drv ETx, !Receiver Rx I D N T Drv ERx} := {
  link_ok : N → Tx → Rx → Drv → Prop;
  link_ready : Rx → Drv → Prop;
  push_ok mem id tx rx d c (tr : Transfer (list u8) I N T) :
    memory_ok mem → link_ok id tx rx d → header_ok (tr_header tr) → bytes_ok (tr_payload tr) →
    ∃ tx' c' d' r, transmit_push mem tx tr c d = Ret (tx', c', d', r) ∧ link_ok id tx' rx d';
  flush_ok id tx rx d (c : C) : link_ok id tx rx d →
    ∃ tx' c' d' r, transmit_flush tx c d = Ret (tx', c', d', r) ∧ link_ok id tx' rx d';
  receive_ok mem id tx rx d (now : I) :
    memory_ok mem → link_ok id tx rx d → link_ready rx d →
    ∃ rx' d' r, receiver_receive mem rx now d = Ret (rx', d', r) ∧ link_ok id tx rx' d' ∧
      match r with
      | Ok (Some tr) => header_ok (tr_header tr) ∧ for_node id (tr_header tr) ∧ bytes_ok (tr_payload tr)
      | _ => True
      end;
  subscribe_message_ok mem id tx rx d subject size timeout :
    memory_ok mem → link_ok id tx rx d → SubjectId_valid subject →
    ∃ rx' d' r, receiver_subscribe_message mem rx subject size timeout d = Ret (rx', d', r) ∧
      link_ok id tx rx' d';
  subscribe_request_ok mem id tx rx d service size timeout :
    memory_ok mem → link_ok id tx rx d → ServiceId_valid service →
    ∃ rx' d' r, receiver_subscribe_request mem rx service size timeout d = Ret (rx', d', r) ∧
      link_ok id tx rx' d' ∧ r ≠ Err Anonymous;
  subscribe_response_ok mem id tx rx d service size timeout :
    memory_ok mem → link_ok id tx rx d → ServiceId_valid service →
    ∃ rx' d' r, receiver_subscribe_response mem rx service size timeout d = Ret (rx', d', r) ∧
      link_ok id tx rx' d' ∧ r ≠ Err Anonymous;
}.
