(* ===== verification/Subscriptions.v ===== *)
(** * Subscription management of [canadensis_core]

    Models [canadensis_core/src/subscription.rs]: the trait
    [SubscriptionManager] and its implementation [DynamicSubscriptionManager],
    which keeps one vector of (port, subscription) pairs per kind of transfer. *)

From S2P Require Import Prelude CoreTypes Transfer.
Local Open Scope Z_scope.

(** What a driver is told to receive. *)
Inductive Subscription : Set :=
| SubMessage (subject : SubjectId)
| SubRequest (service : ServiceId)
| SubResponse (service : ServiceId).

Section manager.
Context {S : Type}.

Record DynamicSubscriptionManager := mkManager {
  message_subscriptions : vec (SubjectId * S);
  request_subscriptions : vec (ServiceId * S);
  response_subscriptions : vec (ServiceId * S);
}.

Definition manager_default : DynamicSubscriptionManager := mkManager vec_new vec_new vec_new.

(** [iter().position(...)] *)
Fixpoint position (port : Z) (l : list (Z * S)) : option nat :=
  match l with
  | [] => None
  | (p, _) :: l' => if p =? port then Some 0%nat else Datatypes.S <$> position port l'
  end.

(** [Vec::swap_remove]: the last element takes the place of the removed one. *)
Definition swap_remove (l : list (Z * S)) (i : nat) : list (Z * S) :=
  match last l with
  | Some x => take (length l - 1) (<[i := x]> l)
  | None => l
  end.

(** The body shared by the three [unsubscribe_*] functions. *)
Definition unsubscribe (v : vec (Z * S)) (port : Z) : vec (Z * S) * option S :=
  match position port (vec_list v) with
  | Some index =>
      (mkVec (swap_remove (vec_list v) index) (vec_cap v), snd <$> vec_list v !! index)
  | None => (v, None)
  end.

(** The body shared by the three [subscribe_*] functions. The vector shrinks even
    when the push that follows fails. *)
Definition subscribe (alloc : allocator) (v : vec (Z * S)) (port : Z) (sub : S)
    : vec (Z * S) * result OutOfMemoryError unit :=
  let v' := (unsubscribe v port).1 in
  match vec_push alloc v' (port, sub) with
  | Some v'' => (v'', Ok tt)
  | None => (v', Err mkOutOfMemoryError)
  end.

(** [iter().find(...).map(...)] *)
Definition find_in (l : list (Z * S)) (port : Z) : option S :=
  snd <$> List.find (λ e, e.1 =? port) l.

(** [for_each_*_subscription_mut] *)
Definition for_each (f : S → S) (v : vec (Z * S)) : vec (Z * S) :=
  mkVec (map (λ e, (e.1, f e.2)) (vec_list v)) (vec_cap v).

(** [iter_mut().find(...)] followed by a write through the reference. *)
Fixpoint update_in (f : S → S) (l : list (Z * S)) (port : Z) : list (Z * S) :=
  match l with
  | [] => []
  | e :: l' => if e.1 =? port then (e.1, f e.2) :: l' else e :: update_in f l' port
  end.

Definition subscribe_message alloc (m : DynamicSubscriptionManager) subject sub :=
  let '(v, r) := subscribe alloc (message_subscriptions m) subject sub in
  (mkManager v (request_subscriptions m) (response_subscriptions m), r).
Definition subscribe_request alloc (m : DynamicSubscriptionManager) service sub :=
  let '(v, r) := subscribe alloc (request_subscriptions m) service sub in
  (mkManager (message_subscriptions m) v (response_subscriptions m), r).
Definition subscribe_response alloc (m : DynamicSubscriptionManager) service sub :=
  let '(v, r) := subscribe alloc (response_subscriptions m) service sub in
  (mkManager (message_subscriptions m) (request_subscriptions m) v, r).

Definition unsubscribe_message (m : DynamicSubscriptionManager) subject :=
  let '(v, r) := unsubscribe (message_subscriptions m) subject in
  (mkManager v (request_subscriptions m) (response_subscriptions m), r).
Definition unsubscribe_request (m : DynamicSubscriptionManager) service :=
  let '(v, r) := unsubscribe (request_subscriptions m) service in
  (mkManager (message_subscriptions m) v (response_subscriptions m), r).
Definition unsubscribe_response (m : DynamicSubscriptionManager) service :=
  let '(v, r) := unsubscribe (response_subscriptions m) service in
  (mkManager (message_subscriptions m) (request_subscriptions m) v, r).

Definition find_message_subscription (m : DynamicSubscriptionManager) subject :=
  find_in (vec_list (message_subscriptions m)) subject.
Definition find_request_subscription (m : DynamicSubscriptionManager) service :=
  find_in (vec_list (request_subscriptions m)) service.
Definition find_response_subscription (m : DynamicSubscriptionManager) service :=
  find_in (vec_list (response_subscriptions m)) service.

(** [SubscriptionManager::find_subscription] *)
Definition find_subscription {I N T} (m : DynamicSubscriptionManager) (h : Header I N T)
    : option S :=
  match h with
  | Message mh => find_message_subscription m (mh_subject mh)
  | Request sh => find_request_subscription m (sh_service sh)
  | Response sh => find_response_subscription m (sh_service sh)
  end.

(** [SubscriptionManager::find_subscription_mut] and a write through it. *)
Definition update_subscription {I N T} (f : S → S) (m : DynamicSubscriptionManager)
    (h : Header I N T) : DynamicSubscriptionManager :=
  let upd v port := mkVec (update_in f (vec_list v) port) (vec_cap v) in
  match h with
  | Message mh =>
      mkManager (upd (message_subscriptions m) (mh_subject mh))
        (request_subscriptions m) (response_subscriptions m)
  | Request sh =>
      mkManager (message_subscriptions m)
        (upd (request_subscriptions m) (sh_service sh)) (response_subscriptions m)
  | Response sh =>
      mkManager (message_subscriptions m) (request_subscriptions m)
        (upd (response_subscriptions m) (sh_service sh))
  end.

(** All three lists in turn, as the receivers do to clean up sessions. *)
Definition for_each_subscription (f : S → S) (m : DynamicSubscriptionManager) :=
  mkManager (for_each f (message_subscriptions m)) (for_each f (request_subscriptions m))
    (for_each f (response_subscriptions m)).
End manager.
Arguments DynamicSubscriptionManager S : clear implicits.

(** ** A manager's vector is a finite map from ports to subscriptions *)

Section refinement.
Context {S : Type}.
Implicit Types (l : list (Z * S)) (v : vec (Z * S)).

Definition abs v : gmap Z S := list_to_map (vec_list v).

(** The invariant: one entry per port, and no more elements than capacity. *)
Definition subs_wf v : Prop := NoDup (vec_list v).*1 ∧ vec_wf v.

Lemma find_in_lookup l port : find_in l port = (list_to_map l : gmap Z S) !! port.
Proof.
  induction l as [|[p s] l IH]; [done|]. unfold find_in in *. cbn.
  destruct (Z.eqb_spec p port) as [->|Hne].
  - by rewrite lookup_insert_eq.
  - by rewrite lookup_insert_ne.
Qed.

Lemma position_spec l port :
  match position port l with
  | Some i => ∃ s, l !! i = Some (port, s) ∧ find_in l port = Some s
  | None => find_in l port = None
  end.
Proof.
  induction l as [|[p s] l IH]; [done|]. unfold find_in in *. cbn.
  destruct (Z.eqb_spec p port) as [->|Hne]; cbn; [eauto|].
  by destruct (position port l).
Qed.

Lemma swap_remove_perm l i x : l !! i = Some x → l ≡ₚ x :: swap_remove l i.
Proof.
  intros Hi. unfold swap_remove.
  destruct (last l) as [y|] eqn:Hl; [|by apply last_None in Hl; subst].
  apply last_Some in Hl as [l' ->]. rewrite length_app, Nat.add_sub. cbn.
  apply lookup_lt_Some in Hi as Hlt. rewrite length_app in Hlt. cbn in Hlt.
  destruct (decide (i < length l')%nat) as [Hlt'|Hge].
  - rewrite insert_app_l, take_app_length' by (rewrite ?length_insert; lia).
    rewrite lookup_app_l in Hi by done.
    rewrite (Permutation_app_comm l' [y]). cbn.
    rewrite insert_take_drop by done.
    rewrite <- (take_drop_middle l' i x Hi) at 1.
    rewrite <- !Permutation_middle. apply perm_swap.
  - rewrite lookup_app_r in Hi by lia. replace (i - length l')%nat with 0%nat in Hi by lia.
    injection Hi as ->. rewrite insert_app_r_alt by lia.
    rewrite take_app_length' by done. by rewrite Permutation_app_comm.
Qed.

Lemma length_swap_remove l i x : l !! i = Some x → length l = Datatypes.S (length (swap_remove l i)).
Proof. intros H. by rewrite (swap_remove_perm l i x H) at 1. Qed.

Lemma unsubscribe_spec v port :
  subs_wf v →
  let '(v', r) := unsubscribe v port in
  subs_wf v' ∧ abs v' = delete port (abs v) ∧ r = abs v !! port ∧
  vec_cap v' = vec_cap v ∧ (is_Some (abs v !! port) → vec_len v' < vec_len v)%nat.
Proof.
  intros [Hnd Hwf]. unfold unsubscribe, abs. rewrite <- find_in_lookup.
  pose proof (position_spec (vec_list v) port) as Hp.
  destruct (position port (vec_list v)) as [i|].
  - destruct Hp as (s & Hi & Hf). rewrite Hi, Hf. cbn.
    pose proof (swap_remove_perm _ _ _ Hi) as Hperm.
    pose proof (length_swap_remove _ _ _ Hi) as Hlen.
    pose proof Hnd as Hnd'. rewrite Hperm in Hnd'. cbn in Hnd'.
    apply NoDup_cons in Hnd' as [Hnin Hnd'].
    split_and!; [split|..]; try done.
    + unfold vec_wf in *. cbn. lia.
    + rewrite (list_to_map_proper _ _ Hnd Hperm). cbn.
      rewrite delete_insert_id; [done|]. by apply not_elem_of_list_to_map.
    + intros _. unfold vec_len. cbn. lia.
  - split_and!; try done.
    + rewrite delete_id; [done|]. by rewrite <- find_in_lookup.
    + rewrite Hp. by intros [].
Qed.

Lemma subscribe_spec alloc v port sub :
  alloc_ok alloc → subs_wf v →
  let '(v', r) := subscribe alloc v port sub in
  subs_wf v' ∧
  match r with
  | Ok _ => abs v' = <[port := sub]> (abs v)
  | Err _ => abs v' = delete port (abs v) ∧ abs v !! port = None
  end.
Proof.
  intros Ha Hv. unfold subscribe.
  pose proof (unsubscribe_spec v port Hv) as Hu.
  destruct (unsubscribe v port) as [v1 r1]. cbn.
  destruct Hu as (Hv1 & Habs & _ & Hcap & Hlen).
  destruct (vec_push alloc v1 (port, sub)) as [v2|] eqn:Hpush.
  - pose proof (vec_extend_Some _ _ _ _ Hpush) as Hl. split; [split|].
    + rewrite Hl, fmap_app. apply NoDup_app. split; [apply Hv1|]. split; [|apply NoDup_singleton].
      intros x Hx Hx'. apply list_elem_of_singleton in Hx' as ->.
      assert (Hn : abs v1 !! port = None) by (rewrite Habs; apply lookup_delete_eq).
      apply not_elem_of_list_to_map in Hn. done.
    + by eapply vec_extend_wf.
    + unfold abs. rewrite Hl, list_to_map_app. fold (abs v1). rewrite Habs. cbn.
      apply map_eq. intros j. rewrite lookup_union, lookup_delete.
      destruct (decide (port = j)) as [->|Hne].
      * by rewrite !lookup_insert_eq.
      * rewrite !lookup_insert_ne, lookup_empty by done. fold (abs v). by destruct (abs v !! j).
  - split; [done|]. split; [done|]. apply vec_extend_None in Hpush as [Hc _]. cbn in Hc.
    destruct (abs v !! port) eqn:E; [|done].
    destruct Hv as [_ Hwf]. unfold vec_wf, vec_len in *.
    specialize (Hlen (mk_is_Some _ _ eq_refl)). lia.
Qed.

Lemma update_in_spec f l port j :
  find_in (update_in f l port) j =
  if bool_decide (j = port) then f <$> find_in l j else find_in l j.
Proof.
  unfold find_in. induction l as [|[p s] l IH]; cbn; [by case_bool_decide|].
  destruct (Z.eqb_spec p port) as [->|Hne]; cbn.
  - destruct (Z.eqb_spec port j) as [->|]; cbn; [by rewrite bool_decide_true|].
    by rewrite bool_decide_false by congruence.
  - destruct (Z.eqb_spec p j) as [->|]; cbn; [by rewrite bool_decide_false|]. done.
Qed.

Lemma for_each_spec f v j :
  abs (for_each f v) !! j = f <$> abs v !! j.
Proof.
  unfold abs. rewrite <- !find_in_lookup. unfold find_in. cbn.
  induction (vec_list v) as [|[p s] l IH]; cbn; [done|].
  destruct (p =? j); done.
Qed.
End refinement.

Section manager_refinement.
Context {S : Type}.
Implicit Types (m : DynamicSubscriptionManager S).

Definition manager_wf m : Prop :=
  subs_wf (message_subscriptions m) ∧ subs_wf (request_subscriptions m) ∧
  subs_wf (response_subscriptions m).

(** The abstract state: three maps, for messages, requests and responses. *)
Definition manager_abs m : gmap Z S * gmap Z S * gmap Z S :=
  (abs (message_subscriptions m), abs (request_subscriptions m), abs (response_subscriptions m)).

Lemma subscribe_spec' alloc (v : vec (Z * S)) port sub :
  alloc_ok alloc → subs_wf v →
  let '(v', r) := subscribe alloc v port sub in
  subs_wf v' ∧ abs v' = (if is_ok r then <[port := sub]> (abs v) else abs v) ∧
  (is_ok r = false → abs v !! port = None).
Proof.
  intros Ha Hv. pose proof (subscribe_spec alloc v port sub Ha Hv) as H.
  destruct (subscribe alloc v port sub) as [v' [[]|[]]]; cbn; destruct H as [? H]; [done|].
  destruct H as [Hd Hn]. by rewrite Hd, delete_id.
Qed.

(** The dynamic subscription manager implements three finite maps. Subscribing
    to a port replaces the entry of that port of that kind and nothing else;
    when memory runs out nothing changes, and this can only happen for a port
    that was not subscribed. The invariant of one entry per port is preserved. *)
Theorem manager_subscribe_refines alloc m port (sub : S) :
  alloc_ok alloc → manager_wf m →
  let '(ma, ra) := subscribe_message alloc m port sub in
  let '(mb, rb) := subscribe_request alloc m port sub in
  let '(mc, rc) := subscribe_response alloc m port sub in
  let '(A, B, C) := manager_abs m in
  manager_wf ma ∧ manager_wf mb ∧ manager_wf mc ∧
  manager_abs ma = (if is_ok ra then <[port := sub]> A else A, B, C) ∧
  manager_abs mb = (A, if is_ok rb then <[port := sub]> B else B, C) ∧
  manager_abs mc = (A, B, if is_ok rc then <[port := sub]> C else C) ∧
  (is_ok ra = false → A !! port = None) ∧
  (is_ok rb = false → B !! port = None) ∧
  (is_ok rc = false → C !! port = None).
Proof.
  intros Ha (Hm & Hq & Hr). unfold subscribe_message, subscribe_request, subscribe_response.
  pose proof (subscribe_spec' alloc _ port sub Ha Hm) as H1.
  pose proof (subscribe_spec' alloc _ port sub Ha Hq) as H2.
  pose proof (subscribe_spec' alloc _ port sub Ha Hr) as H3.
  destruct (subscribe alloc (message_subscriptions m) port sub) as [v1 r1].
  destruct (subscribe alloc (request_subscriptions m) port sub) as [v2 r2].
  destruct (subscribe alloc (response_subscriptions m) port sub) as [v3 r3].
  unfold manager_wf, manager_abs. cbn.
  destruct H1 as (? & -> & ?), H2 as (? & -> & ?), H3 as (? & -> & ?). done.
Qed.

(** Unsubscribing removes exactly the named port of the named kind and returns
    the subscription that was there; looking up a subscription by a transfer's
    header consults the map of the header's kind at its port. *)
Theorem manager_unsubscribe_refines {I N T} m port (h : Header I N T) :
  manager_wf m →
  let '(ma, ra) := unsubscribe_message m port in
  let '(mb, rb) := unsubscribe_request m port in
  let '(mc, rc) := unsubscribe_response m port in
  let '(A, B, C) := manager_abs m in
  manager_wf ma ∧ manager_wf mb ∧ manager_wf mc ∧
  manager_abs ma = (delete port A, B, C) ∧ ra = A !! port ∧
  manager_abs mb = (A, delete port B, C) ∧ rb = B !! port ∧
  manager_abs mc = (A, B, delete port C) ∧ rc = C !! port ∧
  find_subscription m h =
    match h with
    | Message _ => A !! port_id h
    | Request _ => B !! port_id h
    | Response _ => C !! port_id h
    end.
Proof.
  intros (Hm & Hq & Hr).
  unfold unsubscribe_message, unsubscribe_request, unsubscribe_response.
  pose proof (unsubscribe_spec _ port Hm) as H1.
  pose proof (unsubscribe_spec _ port Hq) as H2.
  pose proof (unsubscribe_spec _ port Hr) as H3.
  destruct (unsubscribe (message_subscriptions m) port) as [v1 r1].
  destruct (unsubscribe (request_subscriptions m) port) as [v2 r2].
  destruct (unsubscribe (response_subscriptions m) port) as [v3 r3].
  unfold manager_wf, manager_abs. cbn.
  destruct H1 as (? & -> & -> & _), H2 as (? & -> & -> & _), H3 as (? & -> & -> & _).
  split_and!; try done. destruct h; apply find_in_lookup.
Qed.
End manager_refinement.

Lemma manager_subscribe_refines_witness :
  alloc_ok Some ∧ manager_wf (manager_default (S := nat)) ∧
  manager_abs (subscribe_message Some manager_default 7 42%nat).1 = (<[7 := 42%nat]> ∅, ∅, ∅).
Proof.
  assert (Ha : alloc_ok Some) by (intros n c [= ->]; done).
  assert (Hw : manager_wf (manager_default (S := nat))).
  { split_and!; (split; [apply NoDup_nil_2|unfold vec_wf; cbn; lia]). }
  split_and!; [done|done|].
  exact (proj1 (proj2 (proj2 (proj2 (manager_subscribe_refines Some _ 7 42%nat Ha Hw))))).
Defined.

Lemma manager_unsubscribe_refines_witness :
  manager_wf (manager_default (S := nat)) ∧
  manager_abs (unsubscribe_message (manager_default (S := nat)) 7).1 = (delete 7 ∅, ∅, ∅).
Proof.
  assert (Hw : manager_wf (manager_default (S := nat))).
  { split_and!; (split; [apply NoDup_nil_2|unfold vec_wf; cbn; lia]). }
  split; [done|].
  exact (proj1 (proj2 (proj2 (proj2 (manager_unsubscribe_refines _ 7
    (Message (mkMessageHeader tt tt Nominal 7 (Some tt))) Hw))))).
Defined.
