(* ===== verification/SessionTracker.v ===== *)
(** * Receive sessions of [canadensis_core]

    Models [canadensis_core/src/session.rs]: the session record, the trait
    [SessionTracker] as the class [Tracker] with the laws a receiver relies on,
    and its three implementations: a fixed-capacity linear map (over a map
    structure [KeyMap] that stands for [heapless::LinearMap]), an array indexed
    by node identifier, and a dynamic ordered map. *)

From S2P Require Import Prelude CoreTypes Time.

Section session.
Context {I D : Type} `{Instant I D} {T X : Type}.

Record Session := mkSession {
  last_activity : I;
  session_timeout : D;
  last_transfer_id : option T;
  session_data : X;
}.

Definition is_expired (now : I) (s : Session) : bool :=
  dur_gt (duration_since now (last_activity s)) (session_timeout s).

Definition set_last_activity (time : I) (s : Session) : Session :=
  mkSession time (session_timeout s) (last_transfer_id s) (session_data s).
Definition set_last_transfer_id (id : T) (s : Session) : Session :=
  mkSession (last_activity s) (session_timeout s) (Some id) (session_data s).
Definition set_session_data (d : X) (s : Session) : Session :=
  mkSession (last_activity s) (session_timeout s) (last_transfer_id s) d.
End session.
Arguments Session : clear implicits.

(** ** The trait, with a reference specification

    A tracker [M] over node identifiers [N] denotes a partial map from nodes to
    sessions. [tr_update] is a write through the reference that [get_mut]
    returns. *)

Class Tracker (M N S : Type) := {
  tr_get : M → N → option S;
  tr_update : M → N → (S → S) → M;
  tr_get_mut_or_insert : M → N → S → M * result OutOfMemoryError S;
  tr_insert : M → N → S → M * result OutOfMemoryError unit;
  tr_remove_expired : M → (S → bool) → M;
}.

Class TrackerSpec (M N S : Type) `{Tracker M N S} := {
  tr_ok : M → Prop;
  (** the node identifiers that the tracker can hold *)
  tr_key : M → N → Prop;
  tr_get_update m n f n' : tr_ok m → tr_key m n → tr_key m n' →
    tr_ok (tr_update m n f) ∧
    (n' = n → tr_get (tr_update m n f) n' = f <$> tr_get m n) ∧
    (n' ≠ n → tr_get (tr_update m n f) n' = tr_get m n');
  tr_get_insert m n s n' : tr_ok m → tr_key m n → tr_key m n' →
    let '(m', r) := tr_insert m n s in
    tr_ok m' ∧
    (if is_ok r
     then (n' = n → tr_get m' n' = Some s) ∧ (n' ≠ n → tr_get m' n' = tr_get m n')
     else tr_get m' n' = tr_get m n' ∧ tr_get m n = None);
  tr_get_or_insert m n s n' : tr_ok m → tr_key m n → tr_key m n' →
    let '(m', r) := tr_get_mut_or_insert m n s in
    tr_ok m' ∧
    match r with
    | Ok s' => tr_get m' n = Some s' ∧ s' = default s (tr_get m n) ∧
               (n' ≠ n → tr_get m' n' = tr_get m n')
    | Err _ => tr_get m' n' = tr_get m n' ∧ tr_get m n = None
    end;
  tr_get_remove_expired m f n : tr_ok m → tr_key m n →
    tr_ok (tr_remove_expired m f) ∧
    tr_get (tr_remove_expired m f) n =
      match tr_get m n with Some s => if f s then None else Some s | None => None end;
  (** the operations do not change which nodes the tracker can hold *)
  tr_key_kept m n n' : tr_key m n' →
    (∀ f, tr_key (tr_update m n f) n') ∧ (∀ s, tr_key (tr_get_mut_or_insert m n s).1 n') ∧
    (∀ s, tr_key (tr_insert m n s).1 n') ∧ (∀ f, tr_key (tr_remove_expired m f) n');
}.

(** ** [SessionLinearMap]

    [heapless::LinearMap] is code of another crate: [KeyMap] has the operations
    used here and [KeyMapSpec] its documented behaviour. *)

Class KeyMap (M K V : Type) := {
  km_get : M → K → option V;
  (** [Err] when the map is full *)
  km_insert : M → K → V → option M;
  km_remove : M → K → M;
  km_alter : M → K → (V → V) → M;
  km_items : M → list (K * V);
}.

Class KeyMapSpec (M K V : Type) `{KeyMap M K V} := {
  km_insert_Some m k v m' k' : km_insert m k v = Some m' →
    (k' = k → km_get m' k' = Some v) ∧ (k' ≠ k → km_get m' k' = km_get m k');
  km_insert_None m k v : km_insert m k v = None → km_get m k = None;
  km_remove_get m k k' :
    (k' = k → km_get (km_remove m k) k' = None) ∧
    (k' ≠ k → km_get (km_remove m k) k' = km_get m k');
  km_alter_get m k f k' :
    (k' = k → km_get (km_alter m k f) k' = f <$> km_get m k) ∧
    (k' ≠ k → km_get (km_alter m k f) k' = km_get m k');
  km_items_get m k v : (k, v) ∈ km_items m ↔ km_get m k = Some v;
  (** removing a key that is present makes the map smaller *)
  km_remove_length m k : is_Some (km_get m k) →
    length (km_items (km_remove m k)) < length (km_items m);
}.

(** The laws with the comparison of keys made explicit. *)
Section key_map.
Context {M K V : Type} `{KeyMapSpec M K V, !EqDecision K}.

Lemma km_alter_lookup m k f k' :
  km_get (km_alter m k f) k' = if decide (k' = k) then f <$> km_get m k else km_get m k'.
Proof. destruct (km_alter_get m k f k') as [He Hn]. case_decide; [by apply He|by apply Hn]. Qed.

Lemma km_insert_lookup m k v m' k' : km_insert m k v = Some m' →
  km_get m' k' = if decide (k' = k) then Some v else km_get m k'.
Proof.
  intros Hm. destruct (km_insert_Some m k v m' k' Hm) as [He Hn].
  case_decide; [by apply He|by apply Hn].
Qed.

Lemma km_remove_lookup m k k' :
  km_get (km_remove m k) k' = if decide (k' = k) then None else km_get m k'.
Proof. destruct (km_remove_get m k k') as [He Hn]. case_decide; [by apply He|by apply Hn]. Qed.
End key_map.

Section linear_map.
Context {M N S : Type} `{KeyMap M N S}.

(** The scan of [remove_expired]: the first expired entry in iteration order. *)
Fixpoint first_expired (f : S → bool) (l : list (N * S)) : option N :=
  match l with
  | [] => None
  | (id, s) :: l' => if f s then Some id else first_expired f l'
  end.

(** The loop of [remove_expired]. Every iteration but the last removes an entry,
    so the number of entries bounds the number of iterations. *)
Fixpoint remove_expired_loop (fuel : nat) (f : S → bool) (m : M) : option M :=
  match fuel with
  | 0 => None
  | Datatypes.S fuel' =>
      match first_expired f (km_items m) with
      | Some id => remove_expired_loop fuel' f (km_remove m id)
      | None => Some m
      end
  end.

Definition LinearMap_remove_expired (m : M) (f : S → bool) : M :=
  default m (remove_expired_loop (Datatypes.S (length (km_items m))) f m).

Definition LinearMap_insert (m : M) (n : N) (s : S) : M * result OutOfMemoryError unit :=
  match km_insert m n s with
  | Some m' => (m', Ok tt)
  | None => (m, Err mkOutOfMemoryError)
  end.

Definition LinearMap_get_mut_or_insert (m : M) (n : N) (s : S)
    : M * result OutOfMemoryError S :=
  match km_get m n with
  | Some s' => (m, Ok s')
  | None =>
      match km_insert m n s with
      | Some m' => (m', Ok s)
      | None => (m, Err mkOutOfMemoryError)
      end
  end.

#[local] Instance linear_map_tracker : Tracker M N S := {
  tr_get := km_get;
  tr_update := km_alter;
  tr_get_mut_or_insert := LinearMap_get_mut_or_insert;
  tr_insert := LinearMap_insert;
  tr_remove_expired := LinearMap_remove_expired;
}.

Context `{!KeyMapSpec M N S} `{EqDecision N}.

Lemma first_expired_Some f m id :
  first_expired f (km_items m) = Some id → ∃ s, km_get m id = Some s ∧ f s = true.
Proof.
  intros Hf. assert (∃ s, (id, s) ∈ km_items m ∧ f s = true) as (s & Hin & Hs).
  { revert Hf. generalize (km_items m). intros l. induction l as [|[i s] l IH]; cbn; [done|].
    destruct (f s) eqn:E; [intros [= ->]; exists s; split; [left|]; done|].
    intros (s' & ? & ?)%IH. exists s'. split; [by right|done]. }
  exists s. split; [by apply km_items_get|done].
Qed.

Lemma first_expired_None f m n s :
  first_expired f (km_items m) = None → km_get m n = Some s → f s = false.
Proof.
  intros Hf Hg. apply km_items_get in Hg. revert Hf Hg. generalize (km_items m).
  intros l. induction l as [|[i s'] l IH]; cbn; [by rewrite elem_of_nil|].
  destruct (f s') eqn:E; [done|]. intros Hf [[= -> ->]|Hin]%elem_of_cons; [done|].
  by apply IH.
Qed.

(** The loop ends within its fuel and keeps exactly the live sessions. *)
Lemma remove_expired_loop_spec f fuel m :
  length (km_items m) < fuel →
  ∃ m', remove_expired_loop fuel f m = Some m' ∧
    ∀ n, km_get m' n =
      match km_get m n with Some s => if f s then None else Some s | None => None end.
Proof.
  revert m. induction fuel as [|fuel IH]; intros m Hl; [lia|]. cbn.
  destruct (first_expired f (km_items m)) as [id|] eqn:E.
  - destruct (first_expired_Some _ _ _ E) as (s & Hs & Hf).
    pose proof (km_remove_length m id (mk_is_Some _ _ Hs)).
    destruct (IH (km_remove m id)) as (m' & Hm' & Hg); [lia|].
    exists m'. split; [done|]. intros n. rewrite Hg.
    destruct (km_remove_get m id n) as [H1 H2].
    destruct (decide (n = id)) as [->|Hne].
    + by rewrite H1, Hs, Hf.
    + by rewrite H2.
  - exists m. split; [done|]. intros n. destruct (km_get m n) as [s|] eqn:Hs; [|done].
    by rewrite (first_expired_None _ _ _ _ E Hs).
Qed.

#[local] Obligation Tactic := idtac.
#[local] Program Instance linear_map_tracker_spec : TrackerSpec M N S := {
  tr_ok _ := True; tr_key _ _ := True;
}.
Next Obligation. intros m n f n' _ _ _. destruct (km_alter_get m n f n') as [? ?]. done. Qed.
Next Obligation.
  intros m n s n' _ _ _. cbn. unfold LinearMap_insert.
  destruct (km_insert m n s) as [m'|] eqn:E; (split; [done|]); cbn.
  - destruct (km_insert_Some m n s m' n' E). done.
  - split; [done|]. by eapply km_insert_None.
Qed.
Next Obligation.
  intros m n s n' _ _ _. cbn. unfold LinearMap_get_mut_or_insert.
  destruct (km_get m n) as [s'|] eqn:Hg; [done|].
  destruct (km_insert m n s) as [m'|] eqn:E; (split; [done|]); [|done].
  destruct (km_insert_Some m n s m' n' E). destruct (km_insert_Some m n s m' n E). auto.
Qed.
Next Obligation.
  intros m f n _ _. split; [done|]. cbn -[LinearMap_remove_expired]. unfold LinearMap_remove_expired.
  destruct (remove_expired_loop_spec f (Datatypes.S (length (km_items m))) m) as (m' & -> & Hg);
    [lia|]. apply Hg.
Qed.
Next Obligation. done. Qed.
End linear_map.

(** ** [SessionArray]

    One slot per node identifier; [C] is the array length. Indexing out of
    range panics, which the functions with an [exec] result show. *)

Section array.
Context {S : Type}.

Definition SessionArray_get (a : list (option S)) (n : nat) : exec (option S) :=
  unwrap (a !! n).
Definition SessionArray_insert (a : list (option S)) (n : nat) (s : S) : exec (list (option S)) :=
  _ ← unwrap (a !! n); Ret (<[n := Some s]> a).
Definition SessionArray_get_mut_or_insert (a : list (option S)) (n : nat) (s : S)
    : exec (list (option S) * S) :=
  entry ← unwrap (a !! n);
  match entry with
  | None => Ret (<[n := Some s]> a, s)
  | Some s' => Ret (a, s')
  end.
Definition SessionArray_remove_expired (a : list (option S)) (f : S → bool) : list (option S) :=
  map (λ entry, match entry with Some s => if f s then None else Some s | None => None end) a.

(** Within the array bounds the operations cannot panic, so the tracker's
    functions are total there. *)
Definition from_exec {A} (d : A) (e : exec A) : A := match e with Ret a => a | Panic => d end.

#[local] Instance array_tracker : Tracker (list (option S)) nat S := {
  tr_get a n := from_exec None (SessionArray_get a n);
  tr_update a n f := alter (fmap f) n a;
  tr_get_mut_or_insert a n s :=
    match SessionArray_get_mut_or_insert a n s with
    | Ret (a', s') => (a', Ok s')
    | Panic => (a, Err mkOutOfMemoryError)
    end;
  tr_insert a n s :=
    match SessionArray_insert a n s with
    | Ret a' => (a', Ok tt)
    | Panic => (a, Err mkOutOfMemoryError)
    end;
  tr_remove_expired := SessionArray_remove_expired;
}.

#[local] Obligation Tactic := idtac.
#[local] Program Instance array_tracker_spec : TrackerSpec (list (option S)) nat S := {
  tr_ok _ := True; tr_key a n := n < length a;
}.
Next Obligation.
  intros a n f n' _ Hn Hn'. cbn. unfold SessionArray_get. split_and!; [done|..].
  - intros ->. rewrite list_lookup_alter_eq.
    destruct (lookup_lt_is_Some_2 a n Hn) as [x ->]. done.
  - intros Hne. by rewrite list_lookup_alter_ne.
Qed.
Next Obligation.
  intros a n s n' _ Hn Hn'. cbn. unfold SessionArray_get, SessionArray_insert.
  destruct (lookup_lt_is_Some_2 a n Hn) as [x ->]. cbn. split_and!; [done|..].
  - intros ->. by rewrite list_lookup_insert_eq.
  - intros Hne. by rewrite list_lookup_insert_ne.
Qed.
Next Obligation.
  intros a n s n' _ Hn Hn'. cbn. unfold SessionArray_get, SessionArray_get_mut_or_insert.
  destruct (lookup_lt_is_Some_2 a n Hn) as [[s'|] Hx]; rewrite Hx; cbn; split_and!; try done.
  - by rewrite Hx.
  - by rewrite list_lookup_insert_eq.
  - intros Hne. by rewrite list_lookup_insert_ne.
Qed.
Next Obligation.
  intros a f n _ Hn. cbn. split; [done|]. unfold SessionArray_get, SessionArray_remove_expired.
  rewrite list_lookup_fmap. by destruct (a !! n) as [[s|]|].
Qed.
Next Obligation.
  intros a n n' Hn. cbn. unfold SessionArray_get_mut_or_insert, SessionArray_insert, SessionArray_remove_expired.
  split_and!; intros x; [by rewrite length_alter|..|by rewrite length_map].
  all: destruct (a !! n) as [[s'|]|]; cbn; rewrite ?length_insert; done.
Qed.
End array.

(** ** [SessionDynamicMap]

    Rust's [BTreeMap] is a finite map; [BTreeMap::insert] and
    [entry().or_insert_with()] never report a failure. Its [remove_expired]
    runs the same loop as the linear map, in key order. *)

Section dynamic.
Context {N S : Type} `{Countable N}.

#[global] Instance btree_key_map : KeyMap (gmap N S) N S := {
  km_get m k := m !! k;
  km_insert m k v := Some (<[k := v]> m);
  km_remove m k := delete k m;
  km_alter m k f := alter f k m;
  km_items m := map_to_list m;
}.

#[local] Obligation Tactic := idtac.
#[global] Program Instance btree_key_map_spec : KeyMapSpec (gmap N S) N S.
Next Obligation.
  intros m k v m' k' [= <-]. split; intros.
  - subst. apply lookup_insert_eq.
  - by apply lookup_insert_ne.
Qed.
Next Obligation. done. Qed.
Next Obligation.
  intros m k k'. split; intros; cbn.
  - subst. apply lookup_delete_eq.
  - by apply lookup_delete_ne.
Qed.
Next Obligation.
  intros m k f k'. split; intros; cbn.
  - subst. apply lookup_alter_eq.
  - by apply lookup_alter_ne.
Qed.
Next Obligation. intros m k v. apply elem_of_map_to_list. Qed.
Next Obligation.
  intros m k [v Hk]. cbn. rewrite !length_map_to_list.
  rewrite <- (insert_delete_id m k v Hk) at 2.
  rewrite map_size_insert_None by apply lookup_delete_eq. lia.
Qed.

#[global] Instance dynamic_tracker : Tracker (gmap N S) N S := linear_map_tracker.
#[global] Instance dynamic_tracker_spec : TrackerSpec (gmap N S) N S := linear_map_tracker_spec.
End dynamic.

(** ** Properties *)

(** The clean-up loop of the linear and of the dynamic session map terminates
    (one iteration per stored session and one more is enough), removes every
    session for which the expiry test holds and keeps every other one. *)
Theorem remove_expired_terminates_exact {M N S} `{KeyMapSpec M N S} `{EqDecision N}
    (m : M) (f : S → bool) :
  ∃ m', remove_expired_loop (Datatypes.S (length (km_items m))) f m = Some m' ∧
    LinearMap_remove_expired m f = m' ∧
    ∀ n s, km_get m' n = Some s ↔ km_get m n = Some s ∧ f s = false.
Proof.
  destruct (remove_expired_loop_spec f (Datatypes.S (length (km_items m))) m) as (m' & Hm & Hg);
    [lia|].
  exists m'. unfold LinearMap_remove_expired. rewrite Hm. split_and!; [done|done|].
  intros n s. rewrite Hg. destruct (km_get m n) as [s'|]; [|by split; [|intros []]].
  destruct (f s') eqn:E; (split; [by intros [= ->]|intros [[= ->] ?]; congruence]).
Qed.

Lemma remove_expired_terminates_exact_witness :
  ∃ m' : gmap Z nat,
    remove_expired_loop 3 (λ s, s =? 1) ({[ 5%Z := 1; 9%Z := 2 ]} : gmap Z nat) = Some m' ∧
    m' !! 5%Z = None.
Proof.
  destruct (remove_expired_terminates_exact
    ({[ 5%Z := 1; 9%Z := 2 ]} : gmap Z nat) (λ s, s =? 1)) as (m' & Hl & _ & Hg).
  exists m'. split; [exact Hl|]. destruct (m' !! 5%Z) as [s|] eqn:E; [|done].
  apply Hg in E as [E Hf]. vm_compute in E. injection E as <-. done.
Defined.

(** Whichever tracker is used, a session last active at time [x] survives a
    clean-up at time [y] exactly while no more than its timeout has passed, also
    when the clock has wrapped around in between. *)
Theorem session_expires_after_timeout {I D T X M N} `{InstantSpec I D}
    `{TrackerSpec M N (Session I D T X)} (m : M) (n : N) (s : Session I D T X) (x y : Z) :
  tr_ok m → tr_key m n → tr_get m n = Some s →
  last_activity s = clock x → (0 ≤ y - x < period)%Z →
  tr_get (tr_remove_expired m (is_expired (clock y))) n =
    if (dur_us (session_timeout s) <? y - x)%Z then None else Some s.
Proof.
  intros Hm Hk Hg Ha Hxy. destruct (tr_get_remove_expired m (is_expired (clock y)) n Hm Hk) as [_ ->].
  rewrite Hg. unfold is_expired. by rewrite Ha, timeout_spec.
Qed.

Definition example_session : Session Microseconds32 MicrosecondDuration32 Z unit :=
  mkSession (clock (2 ^ 32 - 10)%Z) (mkMicrosecondDuration32 100) None tt.

Lemma session_expires_after_timeout_witness :
  tr_get (tr_remove_expired ({[ 5%Z := example_session ]} :
      gmap Z (Session Microseconds32 MicrosecondDuration32 Z unit))
    (is_expired (clock (2 ^ 32 + 90)%Z))) 5%Z = Some example_session.
Proof.
  refine (session_expires_after_timeout _ 5%Z example_session (2 ^ 32 - 10) (2 ^ 32 + 90) _ _ _ _ _);
    try done; cbn; lia.
Defined.
