(* ===== verification/CanTypes.v ===== *)
(** * Data types of the Cyphal/CAN transport

    Models [canadensis_can/src/data.rs] and [types.rs] (with the [can-fd]
    feature), the transfer CRC of [crc.rs] and the frame arithmetic of [lib.rs]. *)

From S2P Require Import Prelude CoreTypes Time Transfer.
Local Open Scope Z_scope.

(** ** CAN identifiers and frames *)

Abbreviation CanId := u32 (only parsing).
Definition CAN_ID_MASK : u32 := 0x1fffffff.
Definition CanId_valid (id : CanId) : Prop := is_u 29 id.

Definition CanId_try_from (value : u32) : result InvalidValue CanId :=
  if Z.land value (unot 32 CAN_ID_MASK) =? 0 then Ok value else Err mkInvalidValue.

Inductive Mtu : Set := Can8 | CanFd64.
Definition as_bytes (m : Mtu) : usize := match m with Can8 => 8 | CanFd64 => 64 end.

Definition FRAME_CAPACITY : usize := 64.

Record Frame (I : Type) := mkFrame {
  frame_timestamp : I;
  frame_id : CanId;
  frame_data : list u8;
}.
Arguments mkFrame {I}.
Arguments frame_timestamp {I}.
Arguments frame_id {I}.
Arguments frame_data {I}.

(** [Frame::new]: the conversion to a [heapless::Vec] fails for too much data. *)
Definition Frame_new {I} (timestamp : I) (id : CanId) (data : list u8) : exec (Frame I) :=
  if (length data <=? FRAME_CAPACITY)%nat then Ret (mkFrame timestamp id data) else Panic.

(** ** Node and transfer identifiers *)

Abbreviation CanNodeId := u8 (only parsing).
Definition VALID_NODE_IDS_end : Z := 127.
Definition CanNodeId_valid (n : CanNodeId) : Prop := 0 ≤ n ≤ VALID_NODE_IDS_end.

Definition CanNodeId_MIN : CanNodeId := 0.
Definition CanNodeId_MAX : CanNodeId := VALID_NODE_IDS_end.
Definition CanNodeId_from_truncating (value : u8) : CanNodeId := Z.land value VALID_NODE_IDS_end.
Definition is_diagnostic_reserved (n : CanNodeId) : bool := VALID_NODE_IDS_end - 1 <=? n.
Definition CanNodeId_try_from_u8 (bits : u8) : result InvalidValue CanNodeId :=
  if (0 <=? bits) && (bits <=? VALID_NODE_IDS_end) then Ok bits else Err mkInvalidValue.
Definition CanNodeId_try_from_u16 (value : u16) : result InvalidValue CanNodeId :=
  if value <=? VALID_NODE_IDS_end then Ok (as_u8 value) else Err mkInvalidValue.

Abbreviation CanTransferId := u8 (only parsing).
Definition VALID_TRANSFER_IDS_end : Z := 31.
Definition CanTransferId_valid (t : CanTransferId) : Prop := 0 ≤ t ≤ VALID_TRANSFER_IDS_end.
Definition CanTransferId_default : CanTransferId := 0.
Definition CanTransferId_increment (t : CanTransferId) : CanTransferId :=
  if t =? VALID_TRANSFER_IDS_end then 0 else t + 1.
Definition CanTransferId_try_from (value : u8) : result InvalidValue CanTransferId :=
  if (0 <=? value) && (value <=? VALID_TRANSFER_IDS_end) then Ok value else Err mkInvalidValue.

Abbreviation CanHeader I := (Header I CanNodeId CanTransferId) (only parsing).
Abbreviation CanTransfer A I := (Transfer A I CanNodeId CanTransferId) (only parsing).

(** The transport's error type: [types.rs::Error]. *)
Inductive CanError (E : Type) : Type :=
| CanMemory (e : OutOfMemoryError)
| CanDriver (e : E).
Arguments CanMemory {E} e.
Arguments CanDriver {E} e.

(** The values that the Rust types of a header's fields allow. *)
Definition header_valid {I} (h : CanHeader I) : Prop :=
  match h with
  | Message m =>
      SubjectId_valid (mh_subject m) ∧ CanTransferId_valid (mh_transfer_id m) ∧
      (∀ n, mh_source m = Some n → CanNodeId_valid n)
  | Request s | Response s =>
      ServiceId_valid (sh_service s) ∧ CanTransferId_valid (sh_transfer_id s) ∧
      CanNodeId_valid (sh_source s) ∧ CanNodeId_valid (sh_destination s)
  end.

(** ** Transfer CRC *)

Definition TRANSFER_CRC_INIT : u16 := 0xffff.
Definition TRANSFER_CRC_POLY : u16 := 0x1021.

(** One iteration of the loop over the bits of a byte. *)
Definition crc_bit (value : u16) : u16 :=
  if negb (Z.land value 0x8000 =? 0)
  then Z.lxor (shl 16 value 1) TRANSFER_CRC_POLY
  else shl 16 value 1.

Definition crc_new : u16 := TRANSFER_CRC_INIT.
Definition crc_add (value : u16) (byte : u8) : u16 :=
  Nat.iter 8 crc_bit (Z.lxor value (shl 16 byte 8)).
Definition crc_add_bytes (value : u16) (bytes : list u8) : u16 :=
  fold_left crc_add bytes value.

(** ** Number of frames and padding *)

Local Open Scope nat_scope.

Record FrameStats := mkFrameStats { frames : usize; last_frame_padding : usize }.

Definition round_up_frame_length (length : usize) : exec usize :=
  if length <=? 8 then Ret length
  else if length <=? 12 then Ret 12
  else if length <=? 16 then Ret 16
  else if length <=? 20 then Ret 20
  else if length <=? 24 then Ret 24
  else if length <=? 32 then Ret 32
  else if length <=? 48 then Ret 48
  else if length <=? 64 then Ret 64
  else Panic.

Definition calculate_frame_stats (payload_length mtu : usize) : exec FrameStats :=
  _ ← assert_ (mtu <=? 64);
  _ ← assert_ (1 <? mtu);
  let mtu_without_tail := mtu - 1 in
  let crc_length := if payload_length <=? mtu_without_tail then 0 else 2 in
  let tail_bytes :=
    max 1 ((payload_length + crc_length + (mtu_without_tail - 1)) / mtu_without_tail) in
  let total_length := payload_length + crc_length + tail_bytes in
  let frames := (total_length + mtu - 1) / mtu in
  let last_frame_length := total_length mod mtu in
  last_frame_rounded_length ← round_up_frame_length last_frame_length;
  let last_frame_padding := last_frame_rounded_length - last_frame_length in
  Ret (mkFrameStats frames last_frame_padding).

(** ** Lemmas on the CRC

    One step of the CRC is linear over exclusive or and injective on 16-bit
    values. *)

Section crc_lemmas.
Local Open Scope Z_scope.

Lemma shl_lxor w a b n : 0 ≤ w → 0 ≤ n → shl w (Z.lxor a b) n = Z.lxor (shl w a n) (shl w b n).
Proof.
  intros Hw Hn. unfold shl. apply Z.bits_inj'. intros i Hi.
  rewrite Z.lxor_spec, !testbit_wrap, Z.shiftl_lxor, Z.lxor_spec by done.
  by case_bool_decide.
Qed.

Lemma is_u_shl w a n : 0 ≤ w → is_u w (shl w a n).
Proof. apply is_u_wrap. Qed.

Lemma shl_small w k a n : is_u k a → 0 ≤ k → 0 ≤ n → k + n ≤ w → shl w a n = Z.shiftl a n.
Proof.
  intros Ha Hk Hn Hw. apply wrap_small.
  apply (is_u_mono (k + n)); [by apply is_u_shiftl|lia].
Qed.

Lemma land_bit15 v : (Z.land v 0x8000 =? 0) = negb (Z.testbit v 15).
Proof.
  change 0x8000 with (Z.shiftl 1 15). destruct (Z.testbit v 15) eqn:E; cbn [negb].
  - apply Z.eqb_neq. intros H. apply (f_equal (λ n, Z.testbit n 15)) in H.
    by rewrite Z.land_spec, E in H.
  - apply Z.eqb_eq, Z.bits_inj'. intros i Hi. rewrite Z.land_spec, Z.bits_0.
    rewrite Z.shiftl_1_l. destruct (Z.eq_dec i 15) as [->|Hne]; [by rewrite E|].
    by rewrite Z.pow2_bits_false, andb_false_r by lia.
Qed.

Lemma crc_bit_alt v :
  crc_bit v = Z.lxor (shl 16 v 1) (if Z.testbit v 15 then TRANSFER_CRC_POLY else 0).
Proof.
  unfold crc_bit. rewrite land_bit15, negb_involutive.
  destruct (Z.testbit v 15); [done|]. by rewrite Z.lxor_0_r.
Qed.

Lemma crc_bit_is_u v : is_u 16 (crc_bit v).
Proof.
  rewrite crc_bit_alt. apply is_u_lxor; [done|by apply is_u_shl|].
  by destruct (Z.testbit v 15).
Qed.

Lemma lxor_swap a b c d : Z.lxor (Z.lxor a b) (Z.lxor c d) = Z.lxor (Z.lxor a c) (Z.lxor b d).
Proof.
  rewrite <- !Z.lxor_assoc. f_equal. rewrite !Z.lxor_assoc. f_equal. apply Z.lxor_comm.
Qed.

Lemma crc_bit_lxor a b : crc_bit (Z.lxor a b) = Z.lxor (crc_bit a) (crc_bit b).
Proof.
  rewrite !crc_bit_alt, shl_lxor, Z.lxor_spec by done. rewrite lxor_swap. f_equal.
  by destruct (Z.testbit a 15), (Z.testbit b 15).
Qed.

Lemma iter_crc_lxor n a b :
  Nat.iter n crc_bit (Z.lxor a b) = Z.lxor (Nat.iter n crc_bit a) (Nat.iter n crc_bit b).
Proof. induction n as [|n IH]; [done|]. by rewrite !Nat.iter_succ, IH, crc_bit_lxor. Qed.

Lemma iter_crc_is_u n v : is_u 16 v → is_u 16 (Nat.iter n crc_bit v).
Proof. destruct n; [done|]. intros _. rewrite Nat.iter_succ. apply crc_bit_is_u. Qed.

Lemma crc_bit_zero v : is_u 16 v → crc_bit v = 0 → v = 0.
Proof.
  intros Hv H. rewrite crc_bit_alt in H. destruct (Z.testbit v 15) eqn:E.
  - apply (f_equal (λ n, Z.testbit n 0)) in H. revert H. unfold shl.
    rewrite Z.lxor_spec, testbit_wrap, Z.shiftl_spec by done. done.
  - rewrite Z.lxor_0_r in H.
    assert (Hv' : is_u 15 v).
    { apply is_u_bits; [done|by destruct Hv|]. intros i Hi.
      destruct (Z.eq_dec i 15) as [->|]; [done|]. apply (testbit_above v 16); [done|lia]. }
    rewrite (shl_small 16 15), Z.shiftl_mul_pow2 in H; (done || lia).
Qed.

Lemma iter_crc_zero n v : is_u 16 v → Nat.iter n crc_bit v = 0 → v = 0.
Proof.
  induction n as [|n IH]; [done|]. rewrite Nat.iter_succ. intros Hv H. apply IH; [done|].
  apply crc_bit_zero; [by apply iter_crc_is_u|done].
Qed.

Lemma iter_crc_inj n a b :
  is_u 16 a → is_u 16 b → Nat.iter n crc_bit a = Nat.iter n crc_bit b → a = b.
Proof.
  intros Ha Hb H. apply Z.lxor_eq. apply (iter_crc_zero n); [by apply is_u_lxor|].
  rewrite iter_crc_lxor, H. apply Z.lxor_nilpotent.
Qed.

(** While the top bits are clear, the CRC register only shifts. *)
Lemma iter_crc_shift n v :
  is_u (16 - Z.of_nat n) v → (n ≤ 16)%nat → Nat.iter n crc_bit v = Z.shiftl v (Z.of_nat n).
Proof.
  induction n as [|n IH]; intros Hv Hn; [by rewrite Z.shiftl_0_r|]. rewrite Nat.iter_succ.
  rewrite IH by ((eapply is_u_mono; [exact Hv|lia]) || lia).
  assert (Hs : is_u 15 (Z.shiftl v (Z.of_nat n))).
  { replace 15 with ((16 - Z.of_nat (S n)) + Z.of_nat n) by lia. apply is_u_shiftl; [done|lia..]. }
  rewrite crc_bit_alt, (testbit_above _ 15), Z.lxor_0_r by (done || lia).
  rewrite (shl_small 16 15), Z.shiftl_shiftl by (done || lia). f_equal. lia.
Qed.

Lemma crc_add_is_u v b : is_u 16 v → is_u 16 (crc_add v b).
Proof. intros. apply iter_crc_is_u, is_u_lxor; [done..|]. by apply is_u_shl. Qed.

Lemma crc_add_bytes_is_u l v : is_u 16 v → is_u 16 (crc_add_bytes v l).
Proof. revert v. induction l; intros; cbn; [done|]. by apply IHl, crc_add_is_u. Qed.

Lemma crc_add_inj b v v' :
  is_u 16 v → is_u 16 v' → crc_add v b = crc_add v' b → v = v'.
Proof.
  intros Hv Hv' H. apply iter_crc_inj in H; [|apply is_u_lxor; try done; by apply is_u_shl..].
  apply Z.lxor_eq. assert (H' : Z.lxor (Z.lxor v v') 0 = 0); [|by rewrite Z.lxor_0_r in H'].
  rewrite <- (Z.lxor_nilpotent (shl 16 b 8)), <- lxor_swap, H.
  by rewrite !Z.lxor_nilpotent.
Qed.

Lemma crc_add_bytes_inj l v v' :
  is_u 16 v → is_u 16 v' → crc_add_bytes v l = crc_add_bytes v' l → v = v'.
Proof.
  revert v v'. induction l as [|b l IH]; intros v v' Hv Hv' H; [done|]. cbn in H.
  apply IH in H; [|by apply crc_add_is_u..]. by apply crc_add_inj in H.
Qed.

Lemma crc_add_bytes_app v l k : crc_add_bytes v (l ++ k) = crc_add_bytes (crc_add_bytes v l) k.
Proof. apply fold_left_app. Qed.

(** Two bytes at a time. *)
Lemma crc_add_two v a b : is_u 8 a → is_u 8 b → is_u 16 v →
  crc_add (crc_add v a) b = Nat.iter 16 crc_bit (Z.lxor v (Z.lxor (Z.shiftl a 8) b)).
Proof.
  intros Ha Hb Hv. unfold crc_add.
  rewrite !(shl_small 16 8) by done.
  change 16%nat with (8 + 8)%nat. rewrite Nat.iter_add. f_equal.
  rewrite <- Z.lxor_assoc, (iter_crc_lxor 8 _ b). f_equal.
  rewrite (iter_crc_shift 8); [done|exact Hb|lia].
Qed.

Lemma crc_residue v : is_u 16 v → crc_add (crc_add v (Z.shiftr v 8)) (as_u8 v) = 0.
Proof.
  intros Hv. rewrite crc_add_two; [|..]; try done.
  - replace (Z.lxor (Z.shiftl (Z.shiftr v 8) 8) (as_u8 v)) with v.
    + by rewrite Z.lxor_nilpotent.
    + apply Z.bits_inj'. intros i Hi. rewrite Z.lxor_spec, testbit_wrap by done.
      rewrite Z.shiftl_spec by done. case_bool_decide.
      * by rewrite (Z.testbit_neg_r _ (i - 8)), xorb_false_l by lia.
      * rewrite Z.shiftr_spec by lia. rewrite andb_false_l, xorb_false_r. f_equal. lia.
  - rewrite Z.shiftr_div_pow2 by done. destruct Hv. split; [by apply Z.div_pos|].
    by apply Z.div_lt_upper_bound.
  - by apply is_u_wrap.
Qed.
End crc_lemmas.

(** ** Lemmas on the frame arithmetic *)

(** The data lengths that a CAN FD data length code can express. *)
Definition valid_frame_length (n : nat) : bool :=
  (n <=? 8) || existsb (Nat.eqb n) [12; 16; 20; 24; 32; 48; 64].

Lemma round_up_frame_length_spec n :
  n ≤ 64 → ∃ r, round_up_frame_length n = Ret r ∧ n ≤ r ≤ 64 ∧ valid_frame_length r = true ∧
    (n ≤ 8 → r = n) ∧ ∀ k, n ≤ k → valid_frame_length k = true → r ≤ k.
Proof.
  intros Hn. unfold round_up_frame_length, valid_frame_length.
  assert (Hk : ∀ k, (k <=? 8) || existsb (Nat.eqb k) [12; 16; 20; 24; 32; 48; 64] = true →
    k ≤ 8 ∨ k = 12 ∨ k = 16 ∨ k = 20 ∨ k = 24 ∨ k = 32 ∨ k = 48 ∨ k = 64).
  { intros k. cbn [existsb]. rewrite !orb_true_iff, !Nat.eqb_eq, Nat.leb_le.
    intros; destruct_or!; try done; tauto. }
  assert (Hv8 : ∀ k, k ≤ 8 →
    (k <=? 8) || existsb (Nat.eqb k) [12; 16; 20; 24; 32; 48; 64] = true).
  { intros k Hk8. apply orb_true_iff. left. by apply Nat.leb_le. }
  repeat case_cmp; try lia; eexists;
    (split_and!; [done|lia|lia|done || (apply Hv8; lia)|lia|intros k Hle Hv%Hk; lia]).
Qed.

(** The arithmetic of [calculate_frame_stats] in terms of the index [q] of the
    last frame, for [w] data bytes per frame. *)
Lemma stats_arith d w :
  0 < w → ∃ q,
    (d = 0 ∧ q = 0 ∨ q * w < d ≤ q * w + w) ∧
    let total := d + max 1 ((d + (w - 1)) / w) in
    (total + S w - 1) / S w = q + 1 ∧ total mod S w = (d - q * w + 1) mod S w.
Proof.
  intros Hw. destruct (decide (d = 0)) as [->|Hd].
  - exists 0. split; [by left|]. cbn zeta. rewrite (Nat.div_small (0 + (w - 1))) by lia.
    split; [|f_equal; lia]. symmetry. apply (Nat.div_unique _ _ _ 0); lia.
  - set (q := (d - 1) / w). exists q.
    pose proof (Nat.div_mod_eq (d - 1) w) as Hdm.
    pose proof (Nat.mod_upper_bound (d - 1) w ltac:(lia)) as Hmod. fold q in Hdm.
    assert (Ht : (d + (w - 1)) / w = q + 1).
    { symmetry. apply (Nat.div_unique _ _ _ ((d - 1) mod w)); [done|]. nia. }
    cbn zeta. rewrite Ht, Nat.max_r by lia. split; [nia|].
    assert (He : d + (q + 1) = (d - q * w + 1) + q * S w) by nia. rewrite He. split.
    + symmetry. apply (Nat.div_unique _ _ _ (d - q * w)); nia.
    + apply Nat.Div0.mod_add.
Qed.

(** How a payload of [n] bytes is laid out over the frames: with [w] data bytes
    per frame, padding and CRC included, all frames but the last are full and
    the last one has a valid length. *)
Lemma calculate_frame_stats_spec n m :
  let w := as_bytes m - 1 in
  ∃ st, calculate_frame_stats n (as_bytes m) = Ret st ∧
    let crc := if n <=? w then 0 else 2 in
    let d := n + last_frame_padding st + crc in
    1 ≤ frames st ∧ d ≤ frames st * w ∧ (frames st = 1 ∨ (frames st - 1) * w < n + crc) ∧
    (frames st = 1 ↔ n ≤ w) ∧
    valid_frame_length (d - (frames st - 1) * w + 1) = true ∧
    (∀ v, valid_frame_length v = true → n + crc - (frames st - 1) * w + 1 ≤ v →
       d - (frames st - 1) * w + 1 ≤ v).
Proof.
  cbn zeta. set (w := as_bytes m - 1).
  assert (Hw : as_bytes m = S w ∧ (w = 7 ∨ w = 63)) by (subst w; destruct m; cbn; lia).
  destruct Hw as [-> Hw]. clearbody w. unfold calculate_frame_stats.
  rewrite (proj2 (Nat.leb_le (S w) 64)), (proj2 (Nat.ltb_lt 1 (S w))) by lia.
  cbn [mbind exec_bind assert_]. replace (S w - 1) with w by lia.
  set (crc := if n <=? w then 0 else 2).
  assert (Hcrc : crc = 0 ∧ n ≤ w ∨ crc = 2 ∧ w < n) by (subst crc; case_cmp; lia).
  clearbody crc. destruct (stats_arith (n + crc) w) as (q & Hq & Hfr & Hmod); [lia|].
  cbn zeta in Hfr, Hmod. rewrite Hfr, Hmod. clear Hfr Hmod.
  assert (Hl : ∃ l, n + crc = q * w + l ∧ l ≤ w) by (exists (n + crc - q * w); nia).
  destruct Hl as (l & Hnl & Hlw). replace (n + crc - q * w) with l by lia.
  assert (Hk : ∃ k, (l + 1) mod S w = k ∧ (l = w ∧ k = 0 ∨ l < w ∧ k = l + 1)).
  { destruct (decide (l = w)) as [->|].
    - exists 0. rewrite Nat.add_1_r, Nat.Div0.mod_same. auto.
    - exists (l + 1). rewrite Nat.mod_small by lia. split; [done|lia]. }
  destruct Hk as (k & -> & Hk).
  destruct (round_up_frame_length_spec k) as (r & Hr & Hle & Hv & H8 & Hmin); [lia|].
  rewrite Hr. eexists. split; [done|]. cbn [frames last_frame_padding].
  rewrite Nat.add_sub.
  assert (Hl : l = w ∧ k = 0 ∧ r = 0 ∨ l < w ∧ k = l + 1) by lia.
  assert (Hrw : r ≤ S w).
  { destruct Hl as [(_ & _ & ->)|(? & Hll)]; [lia|].
    apply Hmin; [lia|]. by destruct Hw as [-> | ->]. }
  destruct Hl as [(E & -> & ->)|(E & Hll)].
  - split_and!; [lia|nia|nia|nia| |lia].
    replace (n + (0 - 0) + crc - q * w + 1) with (S w) by lia. by destruct Hw as [-> | ->].
  - subst k. replace (n + (r - (l + 1)) + crc - q * w + 1) with r by lia.
    split_and!; [lia|nia|nia|nia|done|]. intros v Hvv Hlv. apply Hmin; [lia|done].
Qed.

(** ** Properties *)

Lemma crc_appended_zero (data : list u8) :
  let crc := crc_add_bytes crc_new data in
  crc_add_bytes crc_new (data ++ [as_u8 (Z.shiftr crc 8); as_u8 crc]) = 0%Z.
Proof.
  intros crc. assert (Hc : is_u 16 crc) by (apply crc_add_bytes_is_u; done).
  rewrite crc_add_bytes_app. cbn [crc_add_bytes fold_left]. fold crc_new.
  change (fold_left crc_add data crc_new) with crc.
  rewrite (wrap_small 8 (Z.shiftr crc 8)); [by apply crc_residue|].
  rewrite Z.shiftr_div_pow2 by lia. destruct Hc. split; [by apply Z.div_pos|].
  by apply Z.div_lt_upper_bound.
Qed.

(** Appending the two bytes of a transfer's CRC, most significant first, makes
    the CRC of the whole zero, which is the receiver's test. *)
Theorem crc_residue_zero (data : list u8) :
  let crc := crc_add_bytes crc_new data in
  crc_add_bytes crc_new (data ++ [as_u8 (Z.shiftr crc 8); as_u8 crc]) = 0%Z.
Proof. apply crc_appended_zero. Qed.

(** The transfer CRC detects every error burst of up to 16 bits that is confined
    to two adjacent bytes: a corrupted transfer never passes the zero test that
    the intact one passes. *)
Theorem crc_detects_two_byte_burst (pre post : list u8) (a b a' b' : u8) :
  is_u 8 a → is_u 8 b → is_u 8 a' → is_u 8 b' → (a, b) ≠ (a', b') →
  crc_add_bytes crc_new (pre ++ [a; b] ++ post) = 0%Z →
  crc_add_bytes crc_new (pre ++ [a'; b'] ++ post) ≠ 0%Z.
Proof.
  intros Ha Hb Ha' Hb' Hne H0 H0'. apply Hne. rewrite <- H0' in H0. revert H0.
  rewrite !crc_add_bytes_app. set (v := crc_add_bytes crc_new pre).
  assert (Hv : is_u 16 v) by (apply crc_add_bytes_is_u; done).
  cbn [crc_add_bytes fold_left]. intros H.
  apply crc_add_bytes_inj in H; [|by apply crc_add_is_u, crc_add_is_u..].
  rewrite !crc_add_two in H by done.
  assert (Hs : ∀ x y, is_u 8 x → is_u 8 y → is_u 16 (Z.lxor (Z.shiftl x 8) y)).
  { intros x y Hx Hy. apply is_u_lxor; [done| |].
    - exact (is_u_shiftl 8 x 8 Hx ltac:(lia) ltac:(lia)).
    - apply (is_u_mono 8); [exact Hy|lia]. }
  apply iter_crc_inj in H; [|by apply is_u_lxor; auto..].
  assert (Hx : Z.lxor (Z.shiftl a 8) b = Z.lxor (Z.shiftl a' 8) b').
  { rewrite <- (Z.lxor_0_l (Z.lxor _ b)), <- (Z.lxor_nilpotent v), Z.lxor_assoc, H.
    by rewrite <- Z.lxor_assoc, Z.lxor_nilpotent, Z.lxor_0_l. }
  assert (Hbit : ∀ i, (0 ≤ i)%Z → xorb (Z.testbit a (i - 8)) (Z.testbit b i) =
                                  xorb (Z.testbit a' (i - 8)) (Z.testbit b' i)).
  { intros i Hi. apply (f_equal (λ n, Z.testbit n i)) in Hx.
    by rewrite !Z.lxor_spec, !Z.shiftl_spec in Hx by done. }
  f_equal; apply Z.bits_inj'; intros i Hi.
  - specialize (Hbit (i + 8)%Z ltac:(lia)).
    rewrite (testbit_above b 8), (testbit_above b' 8) in Hbit by (done || lia).
    rewrite !xorb_false_r in Hbit. by replace (i + 8 - 8)%Z with i in Hbit by lia.
  - destruct (Z_lt_ge_dec i 8).
    + specialize (Hbit i Hi). by rewrite !(Z.testbit_neg_r _ (i - 8)), !xorb_false_l in Hbit by lia.
    + by rewrite (testbit_above b 8), (testbit_above b' 8) by (done || lia).
Qed.

Lemma crc_detects_two_byte_burst_witness :
  crc_add_bytes crc_new ([1%Z] ++ [2%Z; 3%Z] ++ [0xad%Z; 0xad%Z]) = 0%Z ∧
  crc_add_bytes crc_new ([1%Z] ++ [2%Z; 7%Z] ++ [0xad%Z; 0xad%Z]) ≠ 0%Z.
Proof.
  assert (H : crc_add_bytes crc_new ([1%Z] ++ [2%Z; 3%Z] ++ [0xad%Z; 0xad%Z]) = 0%Z)
    by (vm_compute; reflexivity).
  assert (Hb : ∀ z, (0 ≤ z < 256)%Z → is_u 8 z) by (intros z Hz; exact Hz).
  assert (Hne : (2%Z, 3%Z) ≠ (2%Z, 7%Z)) by discriminate.
  split; [exact H|].
  apply (crc_detects_two_byte_burst [1%Z] [0xad%Z; 0xad%Z] 2 3 2 7);
    [apply Hb; lia..|exact Hne|exact H].
Defined.

(** The frame arithmetic is right for classic CAN and for CAN FD: it never
    panics, the payload, padding and CRC fill all frames but the last completely,
    the number of frames is the least one possible, and the last frame, tail byte
    included, has the least length that a CAN data length code can express. *)
Theorem frame_stats_layout (n : usize) (m : Mtu) :
  let w := as_bytes m - 1 in
  ∃ st, calculate_frame_stats n (as_bytes m) = Ret st ∧
    let crc := if n <=? w then 0 else 2 in
    let d := n + last_frame_padding st + crc in
    1 ≤ frames st ∧ d ≤ frames st * w ∧ (frames st = 1 ∨ (frames st - 1) * w < n + crc) ∧
    (frames st = 1 ↔ n ≤ w) ∧
    valid_frame_length (d - (frames st - 1) * w + 1) = true ∧
    (∀ v, valid_frame_length v = true → n + crc - (frames st - 1) * w + 1 ≤ v →
       d - (frames st - 1) * w + 1 ≤ v).
Proof. apply calculate_frame_stats_spec. Qed.
