(* ===== verification/CanFraming.v ===== *)
(** * Splitting transfers into CAN frames and putting them back together

    Models [canadensis_can/src/tx/breakdown.rs] ([Breakdown], [make_tail_byte]),
    [canadensis_can/src/rx/buildup.rs] ([Buildup]) and the [TailByte] of
    [canadensis_can/src/rx.rs]. *)

From S2P Require Import Prelude CoreTypes CanTypes.
Local Open Scope Z_scope.

(** ** Tail bytes *)

(** [GetBits::bit_set] for [u8] and [u32]. *)
Definition bit_set (self offset : Z) : bool := Z.land (Z.shiftr self offset) 1 =? 1.

Record TailByte := mkTailByte {
  tb_start : bool;
  tb_end : bool;
  tb_toggle : bool;
  tb_transfer_id : CanTransferId;
}.

Definition TailByte_parse (bits : u8) : exec TailByte :=
  transfer_id ← expect (CanTransferId_try_from (Z.land bits 0x1f));
  Ret (mkTailByte (bit_set bits 7) (bit_set bits 6) (bit_set bits 5) transfer_id).

Definition make_tail_byte (start end_ toggle : bool) (transfer_id : CanTransferId) : u8 :=
  Z.lor (Z.lor (Z.lor (shl 8 (b2z start) 7) (shl 8 (b2z end_) 6)) (shl 8 (b2z toggle) 5))
    transfer_id.

(** ** Breakdown *)

Definition TOGGLE_INIT : bool := true.

Record Breakdown := mkBreakdown {
  bd_mtu : usize;
  bd_transfer_id : CanTransferId;
  bd_start : bool;
  bd_toggle : bool;
  bd_frame : list u8;
}.

Definition Breakdown_new (mtu : usize) (transfer_id : CanTransferId) : Breakdown :=
  mkBreakdown mtu transfer_id true TOGGLE_INIT [].

(** [heapless::Vec<u8, 64>::push(..).expect(..)] *)
Definition push64 (l : list u8) (b : u8) : exec (list u8) :=
  if (length l <? 64)%nat then Ret (l ++ [b]) else Panic.

Definition Breakdown_add (self : Breakdown) (byte : u8)
    : exec (Breakdown * option (list u8)) :=
  if (length (bd_frame self) =? bd_mtu self - 1)%nat then
    full ← push64 (bd_frame self)
             (make_tail_byte (bd_start self) false (bd_toggle self) (bd_transfer_id self));
    frame ← push64 [] byte;
    Ret (mkBreakdown (bd_mtu self) (bd_transfer_id self) false (negb (bd_toggle self)) frame,
         Some full)
  else
    frame ← push64 (bd_frame self) byte;
    Ret (mkBreakdown (bd_mtu self) (bd_transfer_id self) (bd_start self) (bd_toggle self) frame,
         None).

Definition Breakdown_finish (self : Breakdown) : exec (list u8) :=
  push64 (bd_frame self)
    (make_tail_byte (bd_start self) true (bd_toggle self) (bd_transfer_id self)).

(** Feeding a sequence of bytes, collecting the frames that are filled up. *)
Fixpoint Breakdown_add_all (self : Breakdown) (bytes : list u8)
    : exec (Breakdown * list (list u8)) :=
  match bytes with
  | [] => Ret (self, [])
  | byte :: bytes' =>
      '(self', out) ← Breakdown_add self byte;
      '(self'', rest) ← Breakdown_add_all self' bytes';
      Ret (self'', match out with Some f => f :: rest | None => rest end)
  end.

(** ** Buildup *)

Inductive BuildupError : Set :=
| BuildupOutOfMemory
| InvalidStart
| InvalidToggle.

Record Buildup := mkBuildup {
  bu_transfer_id : CanTransferId;
  bu_frames : usize;
  bu_expect_start : bool;
  bu_expect_toggle : bool;
  bu_transfer : vec u8;
}.

Definition Buildup_new (alloc : allocator) (transfer_id : CanTransferId)
    (max_payload_length : usize) : result OutOfMemoryError Buildup :=
  match vec_with_capacity alloc max_payload_length with
  | Some transfer => Ok (mkBuildup transfer_id 0 true true transfer)
  | None => Err mkOutOfMemoryError
  end.

Definition Buildup_add (alloc : allocator) (self : Buildup) (frame_data : list u8)
    : exec (Buildup * result BuildupError (option (list u8))) :=
  let self1 := mkBuildup (bu_transfer_id self) (S (bu_frames self))
                 (bu_expect_start self) (bu_expect_toggle self) (bu_transfer self) in
  match last frame_data with
  | None => Panic
  | Some last_byte =>
      tail ← TailByte_parse last_byte;
      if negb (eqb (tb_start tail) (bu_expect_start self1)) then Ret (self1, Err InvalidStart)
      else if negb (eqb (tb_toggle tail) (bu_expect_toggle self1)) then
        Ret (self1, Err InvalidToggle)
      else
        _ ← assert_ (tb_transfer_id tail =? bu_transfer_id self1);
        let self2 := mkBuildup (bu_transfer_id self1) (bu_frames self1) false
                       (negb (bu_expect_toggle self1)) (bu_transfer self1) in
        let frame_without_tail := take (length frame_data - 1) frame_data in
        match vec_extend alloc (bu_transfer self2) frame_without_tail with
        | None => Ret (self2, Err BuildupOutOfMemory)
        | Some transfer =>
            if tb_end tail then
              (* [mem::take] leaves an empty vector behind *)
              Ret (mkBuildup (bu_transfer_id self2) (bu_frames self2) (bu_expect_start self2)
                     (bu_expect_toggle self2) vec_new, Ok (Some (vec_list transfer)))
            else
              Ret (mkBuildup (bu_transfer_id self2) (bu_frames self2) (bu_expect_start self2)
                     (bu_expect_toggle self2) transfer, Ok None)
        end
  end.

Definition payload_length (self : Buildup) : usize := vec_len (bu_transfer self).

(** ** Reference: the frames of a transfer

    A transfer's bytes are cut into chunks of [w] data bytes; every chunk gets a
    tail byte, with alternating toggle, the start bit on the first and the end
    bit on the last. *)

Fixpoint chunks_fuel (fuel w : nat) (l : list u8) : list (list u8) :=
  match fuel with
  | O => [l]
  | S fuel' =>
      if (length l <=? w)%nat then [l] else take w l :: chunks_fuel fuel' w (drop w l)
  end.
Definition chunks (w : nat) (l : list u8) : list (list u8) := chunks_fuel (length l) w l.

Fixpoint tag_frames (tid : CanTransferId) (start toggle : bool) (cs : list (list u8))
    : list (list u8) :=
  match cs with
  | [] => []
  | [c] => [c ++ [make_tail_byte start true toggle tid]]
  | c :: cs' => (c ++ [make_tail_byte start false toggle tid]) ::
                tag_frames tid false (negb toggle) cs'
  end.

(** ** Lemmas: chunks *)

Section chunks.
Local Open Scope nat_scope.

Lemma chunks_fuel_enough n n' w l :
  0 < w → length l ≤ n → length l ≤ n' → chunks_fuel n w l = chunks_fuel n' w l.
Proof.
  intros Hw. revert n' l. induction n as [|n IH]; intros n' l Hn Hn'.
  - destruct l; [|cbn in Hn; lia]. by destruct n'.
  - destruct n' as [|n']; [destruct l; [done|cbn in Hn'; lia]|]. cbn.
    case_cmp; [done|]. f_equal. apply IH; rewrite length_drop; lia.
Qed.

Lemma chunks_small w l : length l ≤ w → chunks w l = [l].
Proof.
  intros H. unfold chunks. destruct (length l) eqn:E; [done|]. cbn.
  by rewrite (proj2 (Nat.leb_le _ _)) by lia.
Qed.

Lemma chunks_large w l : 0 < w < length l → chunks w l = take w l :: chunks w (drop w l).
Proof.
  intros H. unfold chunks. destruct (length l) eqn:E; [lia|]. cbn.
  rewrite (proj2 (Nat.leb_gt _ _)) by lia. f_equal.
  apply chunks_fuel_enough; rewrite ?length_drop; lia.
Qed.

Lemma chunks_app w c l : 0 < w → length c = w → l ≠ [] → chunks w (c ++ l) = c :: chunks w l.
Proof.
  intros Hw Hc Hl. rewrite chunks_large.
  - by rewrite take_app_length', drop_app_length'.
  - rewrite length_app. destruct l; [done|]. cbn. lia.
Qed.

(** Induction over the chunks of a list. *)
Lemma chunks_ind w (Hw : 0 < w) (P : list u8 → Prop) :
  (∀ l, length l ≤ w → P l) →
  (∀ c l, length c = w → l ≠ [] → P l → P (c ++ l)) → ∀ l, P l.
Proof.
  intros Hs Hl l. induction l as [l IH] using (Wf_nat.induction_ltof1 _ (@length _)).
  unfold Wf_nat.ltof in IH. destruct (decide (length l ≤ w)) as [|Hgt]; [by apply Hs|].
  rewrite <- (take_drop w l). apply Hl.
  - rewrite length_take. lia.
  - intros E. apply (f_equal length) in E. rewrite length_drop in E. cbn in E. lia.
  - apply IH. rewrite length_drop. lia.
Qed.

Lemma concat_chunks w l : 0 < w → concat (chunks w l) = l.
Proof.
  intros Hw. induction l as [l Hl|c l Hc Hl IH] using (chunks_ind w Hw).
  - rewrite chunks_small by done. cbn. apply app_nil_r.
  - rewrite chunks_app by done. cbn. by rewrite IH.
Qed.

Lemma chunks_length w l : 0 < w →
  length (chunks w l) = max 1 ((length l + (w - 1)) / w).
Proof.
  intros Hw. induction l as [l Hl|c l Hc Hl IH] using (chunks_ind w Hw).
  - rewrite chunks_small by done. cbn [length]. rewrite Nat.max_l; [done|].
    apply Nat.lt_succ_r, Nat.Div0.div_lt_upper_bound. lia.
  - rewrite chunks_app, length_app, Hc by done. cbn [length]. rewrite IH.
    destruct l as [|x l]; [done|]. cbn [length].
    replace (w + S (length l) + (w - 1)) with (S (length l) + (w - 1) + 1 * w) by lia.
    rewrite Nat.div_add by lia.
    assert (1 ≤ (S (length l) + (w - 1)) / w) by (apply Nat.div_le_lower_bound; lia). lia.
Qed.

Lemma chunks_not_nil w l : chunks w l ≠ [].
Proof. unfold chunks. destruct (length l); cbn; [done|]. by case_match. Qed.

Lemma chunks_Forall w (P : u8 → Prop) l : 0 < w → Forall P l → Forall (Forall P) (chunks w l).
Proof.
  intros Hw. induction l as [l Hl|c l Hc Hl IH] using (chunks_ind w Hw); intros HP.
  - rewrite chunks_small by done. by constructor.
  - rewrite chunks_app by done. apply Forall_app in HP as [? ?]. constructor; auto.
Qed.

(** All chunks but the last are full. *)
Lemma chunks_sizes w l : 0 < w →
  ∃ cs c, chunks w l = cs ++ [c] ∧ Forall (λ x, length x = w) cs ∧ length c ≤ w ∧
    length l = length cs * w + length c ∧ (cs = [] ∨ 0 < length c).
Proof.
  intros Hw. induction l as [l Hl|c l Hc Hl IH] using (chunks_ind w Hw).
  - exists [], l. rewrite chunks_small by done. split_and!; auto.
  - destruct IH as (cs & c' & Hch & Hf & Hle & Hlen & Hcs).
    exists (c :: cs), c'. rewrite chunks_app, Hch, length_app, Hc, Hlen by done.
    split_and!; [done|by constructor|done|cbn; lia|]. right.
    destruct Hcs as [->|]; [|done]. destruct l; [done|]. cbn in Hlen. lia.
Qed.
End chunks.

(** ** Lemmas: tail bytes *)

Lemma bit_set_testbit z i : 0 ≤ i → bit_set z i = Z.testbit z i.
Proof.
  intros Hi. unfold bit_set. change 1 with (Z.ones 1) at 1. rewrite Z.land_ones by done.
  rewrite Z.shiftr_div_pow2, <- Z.bit0_mod, <- Z.shiftr_div_pow2 by done.
  rewrite Z.shiftr_spec, Z.add_0_l by done. by destruct (Z.testbit z i).
Qed.

Lemma make_tail_byte_is_u start end_ toggle tid :
  CanTransferId_valid tid → is_u 8 (make_tail_byte start end_ toggle tid).
Proof.
  intros Ht. unfold make_tail_byte. repeat apply is_u_lor; try apply is_u_wrap; try done.
  unfold CanTransferId_valid, VALID_TRANSFER_IDS_end in Ht. unfold is_u. lia.
Qed.

(** Parsing inverts making. *)
Lemma TailByte_parse_make start end_ toggle tid :
  CanTransferId_valid tid →
  TailByte_parse (make_tail_byte start end_ toggle tid) = Ret (mkTailByte start end_ toggle tid).
Proof.
  intros Ht. unfold CanTransferId_valid, VALID_TRANSFER_IDS_end in Ht.
  assert (Hu : is_u 5 tid) by (unfold is_u; lia).
  unfold TailByte_parse. rewrite !bit_set_testbit by done.
  assert (Z.land (make_tail_byte start end_ toggle tid) 0x1f = tid) as ->.
  { change 0x1f with (Z.ones 5). rewrite Z.land_ones by done. unfold make_tail_byte.
    apply Z.bits_inj'. intros i Hi. change (?a mod 2 ^ 5) with (wrap 5 a).
    rewrite testbit_wrap by done. case_bool_decide.
    - assert (i = 0 ∨ i = 1 ∨ i = 2 ∨ i = 3 ∨ i = 4) by lia.
      destruct_or!; subst; destruct start, end_, toggle; by rewrite !Z.lor_spec.
    - by rewrite (testbit_above tid 5) by (done || lia). }
  unfold CanTransferId_try_from. rewrite (proj2 (andb_true_iff _ _)).
  - cbn [mbind exec_bind expect]. unfold make_tail_byte.
    do 2 f_equal; rewrite !Z.lor_spec, (testbit_above tid 5) by (done || lia);
      by destruct start, end_, toggle.
  - unfold VALID_TRANSFER_IDS_end. lia.
Qed.

Lemma TailByte_parse_total b : is_u 8 b →
  TailByte_parse b = Ret (mkTailByte (Z.testbit b 7) (Z.testbit b 6) (Z.testbit b 5) (wrap 5 b)).
Proof.
  intros Hb. unfold TailByte_parse. change 0x1f with (Z.ones 5).
  rewrite Z.land_ones, !bit_set_testbit by done. fold (wrap 5 b).
  pose proof (is_u_wrap 5 b ltac:(done)) as H5.
  unfold CanTransferId_try_from. rewrite (proj2 (andb_true_iff _ _)); [done|].
  unfold VALID_TRANSFER_IDS_end, is_u in *. lia.
Qed.

(** ** Lemmas: breakdown *)

Lemma tag_frames_cons tid start toggle c cs : cs ≠ [] →
  tag_frames tid start toggle (c :: cs) =
  (c ++ [make_tail_byte start false toggle tid]) :: tag_frames tid false (negb toggle) cs.
Proof. by destruct cs. Qed.

Lemma length_tag_frames tid start toggle cs : length (tag_frames tid start toggle cs) = length cs.
Proof.
  revert start toggle. induction cs as [|c cs IH]; intros; [done|].
  destruct (decide (cs = [])) as [->|]; [done|]. rewrite tag_frames_cons by done. cbn. by rewrite IH.
Qed.

(** The invariant of [Breakdown]: between calls a frame has room for a tail byte. *)
Definition Breakdown_inv (w : nat) (bd : Breakdown) : Prop :=
  bd_mtu bd = S w ∧ (1 ≤ w ≤ 63)%nat ∧ (length (bd_frame bd) ≤ w)%nat.

Lemma push64_ok l b : (length l ≤ 63)%nat → push64 l b = Ret (l ++ [b]).
Proof. intros H. unfold push64. by rewrite (proj2 (Nat.ltb_lt _ _)) by lia. Qed.

(** [add] never panics, keeps the invariant, and returns a frame exactly when the
    current one is full. *)
Lemma Breakdown_add_spec w bd b : Breakdown_inv w bd →
  ∃ bd' out, Breakdown_add bd b = Ret (bd', out) ∧ Breakdown_inv w bd' ∧
    bd_transfer_id bd' = bd_transfer_id bd ∧ bd_frame bd' ≠ [] ∧
    if decide (length (bd_frame bd) = w)
    then out = Some (bd_frame bd ++
               [make_tail_byte (bd_start bd) false (bd_toggle bd) (bd_transfer_id bd)]) ∧
         bd_frame bd' = [b] ∧ bd_start bd' = false ∧ bd_toggle bd' = negb (bd_toggle bd)
    else out = None ∧ bd_frame bd' = bd_frame bd ++ [b] ∧ bd_start bd' = bd_start bd ∧
         bd_toggle bd' = bd_toggle bd.
Proof.
  intros (Hm & Hw & Hf). unfold Breakdown_add. rewrite Hm. replace (S w - 1)%nat with w by lia.
  destruct (Nat.eqb_spec (length (bd_frame bd)) w) as [E|E].
  - rewrite !push64_ok by (cbn; lia). eexists _, _. split; [done|]. cbn.
    rewrite decide_True by done. unfold Breakdown_inv. cbn. split_and!; try done; lia.
  - rewrite push64_ok by lia. eexists _, _. split; [done|]. cbn.
    rewrite decide_False by done. unfold Breakdown_inv. cbn. rewrite length_app. cbn.
    split_and!; try done; try lia. by destruct (bd_frame bd).
Qed.

Lemma Breakdown_add_all_spec w bd l : Breakdown_inv w bd →
  ∃ bd' fs lst, Breakdown_add_all bd l = Ret (bd', fs) ∧ Breakdown_inv w bd' ∧
    Breakdown_finish bd' = Ret lst ∧
    fs ++ [lst] = tag_frames (bd_transfer_id bd) (bd_start bd) (bd_toggle bd)
                    (chunks w (bd_frame bd ++ l)).
Proof.
  revert bd. induction l as [|b l IH]; intros bd Hinv.
  - pose proof Hinv as (Hm & Hw & Hf). exists bd, []. eexists. split_and!; [done..| |].
    + unfold Breakdown_finish. by rewrite push64_ok by lia.
    + by rewrite app_nil_r, chunks_small by done.
  - destruct (Breakdown_add_spec w bd b Hinv) as (bd1 & out & Hadd & Hinv1 & Htid & Hne & Hcase).
    destruct (IH bd1 Hinv1) as (bd2 & fs & lst & Hall & Hinv2 & Hfin & Htag).
    cbn [Breakdown_add_all]. rewrite Hadd. cbn [mbind exec_bind]. rewrite Hall.
    eexists bd2, _, lst. split_and!; [done..|].
    destruct (decide (length (bd_frame bd) = w)) as [E|E].
    + destruct Hcase as (-> & Hb & Hs & Ht). rewrite Htid, Hb, Hs, Ht in Htag. cbn in Htag.
      cbn [app]. rewrite Htag. destruct Hinv as (_ & Hw & _).
      rewrite chunks_app, tag_frames_cons by (done || lia || apply chunks_not_nil). done.
    + destruct Hcase as (-> & Hb & Hs & Ht). rewrite Htid, Hb, Hs, Ht in Htag.
      by rewrite <- app_assoc in Htag.
Qed.

Lemma Breakdown_add_all_app bd l k :
  Breakdown_add_all bd (l ++ k) =
  ('(bd1, fs1) ← Breakdown_add_all bd l;
   '(bd2, fs2) ← Breakdown_add_all bd1 k;
   Ret (bd2, fs1 ++ fs2)).
Proof.
  revert bd. induction l as [|b l IH]; intros bd; cbn.
  - by destruct (Breakdown_add_all bd k) as [[]|].
  - destruct (Breakdown_add bd b) as [[bd1 out]|]; [|done]. cbn. rewrite IH.
    destruct (Breakdown_add_all bd1 l) as [[bd2 fs]|]; [|done]. cbn.
    destruct (Breakdown_add_all bd2 k) as [[bd3 fs2]|]; [|done]. cbn. by destruct out.
Qed.

(** ** Lemmas: buildup *)

Lemma last_snoc_tail (c : list u8) b : last (c ++ [b]) = Some b.
Proof. apply last_snoc. Qed.

(** A frame with the expected start and toggle bits that fits the capacity. *)
Lemma Buildup_add_tagged alloc bu c e :
  CanTransferId_valid (bu_transfer_id bu) →
  (vec_len (bu_transfer bu) + length c ≤ vec_cap (bu_transfer bu))%nat →
  Buildup_add alloc bu
    (c ++ [make_tail_byte (bu_expect_start bu) e (bu_expect_toggle bu) (bu_transfer_id bu)]) =
  Ret (mkBuildup (bu_transfer_id bu) (S (bu_frames bu)) false (negb (bu_expect_toggle bu))
         (if e then vec_new
          else mkVec (vec_list (bu_transfer bu) ++ c) (vec_cap (bu_transfer bu))),
       Ok (if e then Some (vec_list (bu_transfer bu) ++ c) else None)).
Proof.
  intros Hv Hfit. unfold Buildup_add. rewrite last_snoc.
  rewrite TailByte_parse_make by done. cbn [mbind exec_bind tb_start tb_toggle tb_transfer_id tb_end
    bu_expect_start bu_expect_toggle bu_transfer_id bu_transfer bu_frames].
  rewrite !eqb_reflx, Z.eqb_refl. cbn [negb assert_].
  rewrite length_app, Nat.add_sub, take_app_length.
  rewrite vec_extend_fits by done. by destruct e.
Qed.

(** Feeding frames until one of them completes the transfer or fails. *)
Fixpoint Buildup_add_all (alloc : allocator) (self : Buildup) (fs : list (list u8))
    : exec (Buildup * result BuildupError (option (list u8))) :=
  match fs with
  | [] => Ret (self, Ok None)
  | f :: fs' =>
      '(self', r) ← Buildup_add alloc self f;
      match r with
      | Ok None => Buildup_add_all alloc self' fs'
      | _ => Ret (self', r)
      end
  end.

Lemma Buildup_add_all_tagged alloc cs bu :
  cs ≠ [] → CanTransferId_valid (bu_transfer_id bu) →
  (vec_len (bu_transfer bu) + length (concat cs) ≤ vec_cap (bu_transfer bu))%nat →
  ∃ bu', Buildup_add_all alloc bu
      (tag_frames (bu_transfer_id bu) (bu_expect_start bu) (bu_expect_toggle bu) cs) =
    Ret (bu', Ok (Some (vec_list (bu_transfer bu) ++ concat cs))) ∧
    bu_frames bu' = (bu_frames bu + length cs)%nat.
Proof.
  revert bu. induction cs as [|c cs IH]; intros bu Hne Hv Hfit; [done|].
  cbn [concat] in Hfit. rewrite length_app in Hfit.
  destruct (decide (cs = [])) as [->|Hcs].
  - cbn [tag_frames Buildup_add_all]. rewrite Buildup_add_tagged by (done || (cbn in Hfit; lia)).
    cbn. rewrite app_nil_r. eexists. split; [done|]. cbn. lia.
  - rewrite tag_frames_cons by done. cbn [Buildup_add_all].
    rewrite Buildup_add_tagged by (done || lia). cbn [mbind exec_bind].
    set (bu1 := mkBuildup _ _ _ _ _).
    destruct (IH bu1) as (bu' & Hrun & Hfr); [done..| |].
    + cbn. unfold vec_len in *. cbn. rewrite length_app. lia.
    + cbn [bu_transfer_id bu_expect_start bu_expect_toggle bu1] in Hrun.
      exists bu'. split; [|cbn in Hfr |- *; lia].
      rewrite Hrun. cbn. by rewrite app_assoc.
Qed.

Lemma Buildup_add_all_prefix alloc cs bu :
  cs ≠ [] → CanTransferId_valid (bu_transfer_id bu) →
  (vec_len (bu_transfer bu) + length (concat cs) ≤ vec_cap (bu_transfer bu))%nat →
  ∃ bu', Buildup_add_all alloc bu (removelast
      (tag_frames (bu_transfer_id bu) (bu_expect_start bu) (bu_expect_toggle bu) cs)) =
    Ret (bu', Ok None).
Proof.
  revert bu. induction cs as [|c cs IH]; intros bu Hne Hv Hfit; [done|].
  cbn [concat] in Hfit. rewrite length_app in Hfit.
  destruct (decide (cs = [])) as [->|Hcs]; [by eexists|].
  rewrite tag_frames_cons by done. set (t := tag_frames _ false _ cs).
  assert (Ht : t ≠ []).
  { intros E. apply (f_equal length) in E. subst t. rewrite length_tag_frames in E. by destruct cs. }
  replace (removelast (_ :: t)) with
    ((c ++ [make_tail_byte (bu_expect_start bu) false (bu_expect_toggle bu) (bu_transfer_id bu)])
       :: removelast t) by (by destruct t).
  cbn [Buildup_add_all]. rewrite Buildup_add_tagged by (done || lia). cbn [mbind exec_bind].
  set (bu1 := mkBuildup _ _ _ _ _). apply (IH bu1); [done..|].
  cbn. unfold vec_len in *. cbn. rewrite length_app. lia.
Qed.

Lemma Buildup_new_Ok alloc tid room bu :
  alloc_ok alloc → Buildup_new alloc tid room = Ok bu →
  ∃ cap, bu = mkBuildup tid 0 true true (mkVec [] cap) ∧ (room ≤ cap)%nat.
Proof.
  intros Ha. unfold Buildup_new, vec_with_capacity.
  destruct (Nat.eqb_spec room 0) as [->|]; [intros [= <-]; by exists 0%nat|].
  destruct (alloc room) as [c|] eqn:E; cbn; [|done]. intros [= <-].
  apply Ha in E. by exists c.
Qed.

(** ** Properties *)

(** Breaking a transfer down never panics and yields exactly the frames of the
    specification: the bytes in order, cut into full frames, each with a tail
    byte carrying the transfer ID and alternating toggle, the start bit on the
    first frame only and the end bit on the last frame only. *)
Theorem breakdown_refines_reference (m : Mtu) (tid : CanTransferId) (l : list u8) :
  ∃ bd fs lst,
    Breakdown_add_all (Breakdown_new (as_bytes m) tid) l = Ret (bd, fs) ∧
    Breakdown_finish bd = Ret lst ∧
    fs ++ [lst] = tag_frames tid true true (chunks (as_bytes m - 1) l).
Proof.
  destruct (Breakdown_add_all_spec (as_bytes m - 1) (Breakdown_new (as_bytes m) tid) l)
    as (bd & fs & lst & ? & _ & ? & ?); [|by exists bd, fs, lst].
  unfold Breakdown_inv. destruct m; cbn; lia.
Qed.

(** C3: a buildup with enough room puts back together exactly the bytes that a
    breakdown split, for any MTU and transfer ID. Nothing is returned before the
    last frame, no memory is allocated on the way, and the number of frames is
    counted right. *)
Theorem buildup_inverts_breakdown alloc (m : Mtu) (tid : CanTransferId) (l : list u8)
    (room : usize) (bu : Buildup) :
  CanTransferId_valid tid → alloc_ok alloc → (length l ≤ room)%nat →
  Buildup_new alloc tid room = Ok bu →
  ∃ bd fs lst bu1 bu2,
    Breakdown_add_all (Breakdown_new (as_bytes m) tid) l = Ret (bd, fs) ∧
    Breakdown_finish bd = Ret lst ∧
    Buildup_add_all (λ _, None) bu fs = Ret (bu1, Ok None) ∧
    Buildup_add_all (λ _, None) bu (fs ++ [lst]) = Ret (bu2, Ok (Some l)) ∧
    bu_frames bu2 = S (length fs).
Proof.
  intros Ht Ha Hroom Hnew. destruct (Buildup_new_Ok _ _ _ _ Ha Hnew) as (cap & -> & Hcap).
  destruct (Breakdown_add_all_spec (as_bytes m - 1) (Breakdown_new (as_bytes m) tid) l)
    as (bd & fs & lst & Hall & _ & Hfin & Htag); [unfold Breakdown_inv; destruct m; cbn; lia|].
  cbn [Breakdown_new bd_transfer_id bd_start bd_toggle bd_frame app] in Htag.
  set (w := (as_bytes m - 1)%nat) in *.
  assert (Hw : (0 < w)%nat) by (subst w; destruct m; cbn; lia).
  set (bu := mkBuildup tid 0 true true (mkVec [] cap)).
  assert (Hfit : (vec_len (bu_transfer bu) + length (concat (chunks w l)) ≤
                  vec_cap (bu_transfer bu))%nat) by (rewrite concat_chunks by done; cbn; lia).
  destruct (Buildup_add_all_tagged (λ _, None) (chunks w l) bu) as (bu2 & Hrun & Hfr);
    [apply chunks_not_nil|done|done|].
  destruct (Buildup_add_all_prefix (λ _, None) (chunks w l) bu) as (bu1 & Hpre);
    [apply chunks_not_nil|done|done|].
  cbn [bu bu_transfer_id bu_expect_start bu_expect_toggle] in Hrun, Hpre.
  fold bu in Hrun, Hpre.
  change TOGGLE_INIT with true in Htag. rewrite <- Htag in Hrun, Hpre.
  rewrite removelast_last in Hpre. rewrite concat_chunks in Hrun by done.
  exists bd, fs, lst, bu1, bu2. split_and!; [done..|].
  rewrite Hfr. cbn [bu bu_frames]. rewrite <- (length_tag_frames tid true true), <- Htag, length_app.
  cbn. lia.
Qed.

Lemma buildup_inverts_breakdown_witness :
  CanTransferId_valid 3 ∧
  ∃ fs lst bu1 bu2, Buildup_add_all (λ _, None) bu1 (fs ++ [lst]) =
    Ret (bu2, Ok (Some [1; 2; 3; 4; 5; 6; 7; 8; 9])).
Proof.
  assert (Ht : CanTransferId_valid 3) by (unfold CanTransferId_valid, VALID_TRANSFER_IDS_end; lia).
  assert (Ha : alloc_ok Some) by (intros n c [= ->]; done). split; [exact Ht|].
  destruct (buildup_inverts_breakdown Some Can8 3 [1; 2; 3; 4; 5; 6; 7; 8; 9] 16
    (mkBuildup 3 0 true true (mkVec [] 16)) Ht Ha ltac:(cbn; lia) ltac:(reflexivity))
    as (bd & fs & lst & bu1 & bu2 & _ & _ & _ & H & _).
  exists fs, lst, (mkBuildup 3 0 true true (mkVec [] 16)), bu2. exact H.
Defined.

(** C35: a frame that does not continue the transfer is rejected without touching
    the bytes collected so far: an unexpected start bit, and an unexpected toggle
    bit (a lost or repeated frame), each give their own error; a frame of another
    transfer is never mixed in. *)
Theorem buildup_rejects_out_of_order alloc (bu : Buildup) (c : list u8) (tail : u8) :
  is_u 8 tail →
  let start := Z.testbit tail 7 in
  let toggle := Z.testbit tail 5 in
  (start ≠ bu_expect_start bu → ∃ bu', Buildup_add alloc bu (c ++ [tail]) =
     Ret (bu', Err InvalidStart) ∧ bu_transfer bu' = bu_transfer bu) ∧
  (start = bu_expect_start bu → toggle ≠ bu_expect_toggle bu →
     ∃ bu', Buildup_add alloc bu (c ++ [tail]) = Ret (bu', Err InvalidToggle) ∧
            bu_transfer bu' = bu_transfer bu) ∧
  (start = bu_expect_start bu → toggle = bu_expect_toggle bu →
     wrap 5 tail ≠ bu_transfer_id bu → Buildup_add alloc bu (c ++ [tail]) = Panic).
Proof.
  intros Hu start toggle. unfold Buildup_add. rewrite last_snoc, TailByte_parse_total by done.
  cbn [mbind exec_bind tb_start tb_toggle tb_transfer_id tb_end bu_expect_start bu_expect_toggle
       bu_transfer_id]. fold start toggle. split_and!.
  - intros Hs. rewrite (proj2 (eqb_false_iff _ _) Hs). by eexists.
  - intros -> Hs. rewrite eqb_reflx, (proj2 (eqb_false_iff _ _) Hs). by eexists.
  - intros -> -> Ht. rewrite !eqb_reflx. cbn [negb].
    by rewrite (proj2 (Z.eqb_neq _ _) Ht).
Qed.

Lemma buildup_rejects_out_of_order_witness :
  ∃ bu', Buildup_add Some (mkBuildup 1 1 false false (mkVec [7] 16)) ([9] ++ [0x21]) =
    Ret (bu', Err InvalidToggle).
Proof.
  destruct (buildup_rejects_out_of_order Some (mkBuildup 1 1 false false (mkVec [7] 16)) [9] 0x21)
    as (_ & H & _); [done|].
  destruct (H eq_refl) as (bu' & Hb & _); [by vm_compute|]. exists bu'. exact Hb.
Defined.
