(* ===== verification/CanIds.v ===== *)
(** * CAN identifiers of transfers

    Models [make_can_id], [encode_common_service_fields] and [make_pseudo_id] of
    [canadensis_can/src/tx.rs], and [parse_can_id] and [GetBits] of
    [canadensis_can/src/rx.rs]. *)

From S2P Require Import Prelude CoreTypes Transfer CanTypes CanFraming.
From Stdlib Require Import Btauto.
Local Open Scope Z_scope.

(** ** Making an identifier *)

(** The loop of [make_pseudo_id]; only the two highest identifiers are reserved. *)
Fixpoint skip_reserved (fuel : nat) (id : CanNodeId) : option CanNodeId :=
  match fuel with
  | O => None
  | S fuel' =>
      if is_diagnostic_reserved id
      then skip_reserved fuel' (CanNodeId_from_truncating (id - 1))
      else Some id
  end.

Definition make_pseudo_id (payload : list u8) : option CanNodeId :=
  let bits := fold_left (λ state payload_byte, Z.lxor state payload_byte) payload 0x55 in
  skip_reserved 3 (CanNodeId_from_truncating bits).

Section make.
Context {I : Type}.

Definition encode_common_service_fields (h : ServiceHeader I CanNodeId CanTransferId) : u32 :=
  Z.lor (Z.lor (shl 32 (sh_service h) 14) (shl 32 (sh_destination h) 7)) (shl 32 1 25).

Definition make_can_id (header : CanHeader I) (payload : list u8) : exec CanId :=
  let bits := shl 32 (Priority_as_u8 (priority header)) 26 in
  source_node ← unwrap (match source header with
                        | Some n => Some n
                        | None => make_pseudo_id payload
                        end);
  let bits := Z.lor bits source_node in
  let bits :=
    match header with
    | Message message_header =>
        let bits := Z.lor bits (shl 32 (mh_subject message_header) 8) in
        let bits := Z.lor bits (Z.lor (shl 32 1 21) (shl 32 1 22)) in
        match mh_source message_header with
        | None => Z.lor bits (shl 32 1 24)
        | Some _ => bits
        end
    | Request service_header =>
        let bits := Z.lor bits (encode_common_service_fields service_header) in
        Z.lor bits (shl 32 1 24)
    | Response service_header =>
        Z.lor bits (encode_common_service_fields service_header)
    end in
  expect (CanId_try_from bits).
End make.

(** ** Parsing an identifier *)

Inductive CanIdParseError : Set := Bit23Set | Bit7Set.

Definition get_u8 (self offset : u32) : u8 := as_u8 (Z.shiftr self offset).
Definition get_u16 (self offset : u32) : u16 := as_u16 (Z.shiftr self offset).

Definition parse_can_id {I} (id : CanId) (timestamp : I) (transfer_id : CanTransferId)
    : exec (result CanIdParseError (CanHeader I)) :=
  let bits := id in
  if bit_set bits 23 then Ret (Err Bit23Set) else
  priority ← expect (Priority_try_from (get_u8 bits 26));
  source_id ← expect (CanNodeId_try_from_u8 (Z.land (get_u8 bits 0) 0x7f));
  if bit_set bits 25 then
    service ← expect (ServiceId_try_from (Z.land (get_u16 bits 14) 0x1ff));
    destination ← expect (CanNodeId_try_from_u8 (Z.land (get_u8 bits 7) 0x7f));
    let service_header :=
      mkServiceHeader timestamp transfer_id priority service source_id destination in
    if bit_set bits 24 then Ret (Ok (Request service_header))
    else Ret (Ok (Response service_header))
  else if bit_set bits 7 then Ret (Err Bit7Set)
  else
    let anonymous := bit_set bits 24 in
    let message_source_id := if anonymous then None else Some source_id in
    subject ← expect (SubjectId_try_from (Z.land (get_u16 bits 8) 0x1fff));
    Ret (Ok (Message (mkMessageHeader timestamp transfer_id priority subject message_source_id))).

(** ** Lemmas *)

Lemma bit_set_mod z k : 0 ≤ k → bit_set z k = ((z / 2 ^ k) mod 2 =? 1).
Proof.
  intros. unfold bit_set. change 1 with (Z.ones 1) at 1.
  by rewrite Z.land_ones, Z.shiftr_div_pow2.
Qed.

Lemma skip_reserved_spec id : CanNodeId_valid id →
  ∃ n, skip_reserved 3 id = Some n ∧ CanNodeId_valid n ∧ is_diagnostic_reserved n = false.
Proof.
  intros Hid. unfold CanNodeId_valid, VALID_NODE_IDS_end in *.
  destruct (Z.eq_dec id 127) as [->|]; [exists 125; done|].
  destruct (Z.eq_dec id 126) as [->|]; [exists 125; done|].
  exists id. cbn. assert (is_diagnostic_reserved id = false) as ->; [|done].
  unfold is_diagnostic_reserved, VALID_NODE_IDS_end. lia.
Qed.

(** The pseudo-ID of an anonymous message exists and is never a reserved one. *)
Lemma make_pseudo_id_spec payload :
  ∃ n, make_pseudo_id payload = Some n ∧ CanNodeId_valid n ∧ is_diagnostic_reserved n = false.
Proof.
  apply skip_reserved_spec. unfold CanNodeId_from_truncating, CanNodeId_valid.
  change VALID_NODE_IDS_end with (Z.ones 7). rewrite Z.land_ones by lia.
  pose proof (Z.mod_pos_bound (fold_left (λ s b, Z.lxor s b) payload 0x55) (2 ^ 7)).
  change (Z.ones 7) with 127. lia.
Qed.

(** The source field of the identifier: the node ID, or the pseudo-ID. *)
Definition source_field {I} (h : CanHeader I) (payload : list u8) : Z :=
  default 0 (match source h with Some n => Some n | None => make_pseudo_id payload end).

Lemma source_field_valid {I} (h : CanHeader I) payload : header_valid h →
  (match source h with Some n => Some n | None => make_pseudo_id payload end)
    = Some (source_field h payload) ∧ CanNodeId_valid (source_field h payload).
Proof.
  intros Hv. unfold source_field. destruct (source h) as [n|] eqn:E.
  - split; [done|]. cbn. destruct h; cbn in *.
    + by apply Hv.
    + injection E as <-. apply Hv.
    + injection E as <-. apply Hv.
  - destruct (make_pseudo_id_spec payload) as (n & -> & ? & _). done.
Qed.

(** The layout of the 29 bits as a sum of fields. *)
Definition id_layout {I} (h : CanHeader I) (payload : list u8) : Z :=
  let src := source_field h payload in
  let prio := Priority_as_u8 (priority h) in
  match h with
  | Message m =>
      src + (mh_subject m + (3 + (b2z (bool_decide (mh_source m = None)) + prio * 2 ^ 2)
        * 2 ^ 3) * 2 ^ 13) * 2 ^ 8
  | Request s =>
      src + (sh_destination s + (sh_service s + (3 + prio * 2 ^ 2) * 2 ^ 10) * 2 ^ 7) * 2 ^ 7
  | Response s =>
      src + (sh_destination s + (sh_service s + (2 + prio * 2 ^ 2) * 2 ^ 10) * 2 ^ 7) * 2 ^ 7
  end.

Ltac lor_fields :=
  rewrite ?Z.shiftl_lor, ?Z.shiftl_shiftl by lia;
  repeat match goal with
  | |- context [Z.shiftl _ (?a + ?b)] => let c := eval compute in (a + b) in change (a + b) with c
  end;
  apply Z.bits_inj'; intros i Hi; rewrite ?Z.lor_spec; btauto.

Lemma service_layout {I} (s : ServiceHeader I CanNodeId CanTransferId) src prio (r : bool) :
  is_u 7 src → is_u 3 prio → ServiceId_valid (sh_service s) → CanNodeId_valid (sh_destination s) →
  let bits := Z.lor (Z.lor (shl 32 prio 26) src) (encode_common_service_fields s) in
  let id := src + (sh_destination s + (sh_service s + (2 + b2z r + prio * 2 ^ 2) * 2 ^ 10)
                   * 2 ^ 7) * 2 ^ 7 in
  (if r then Z.lor bits (shl 32 1 24) else bits) = id ∧ is_u 29 id.
Proof.
  intros Hs Hp Hsv Hd. apply ServiceId_valid_u in Hsv.
  unfold CanNodeId_valid, VALID_NODE_IDS_end in Hd.
  assert (Hdu : is_u 7 (sh_destination s)) by (unfold is_u; lia).
  cbn zeta. split; [|destruct r; cbn [b2z]; unfold is_u in *; lia].
  unfold encode_common_service_fields.
  rewrite (shl_small 32 3), (shl_small 32 9), (shl_small 32 7) by (done || lia).
  change (shl 32 1 25) with (Z.shiftl 1 25). change (shl 32 1 24) with (Z.shiftl 1 24).
  replace (2 + b2z r + prio * 2 ^ 2) with (b2z r + (1 + prio * 2 ^ 1) * 2 ^ 1) by lia.
  rewrite <- (lor_shiftl_add 1 1 prio) by (unfold is_u; lia).
  rewrite <- (lor_shiftl_add 1 (b2z r)) by (destruct r; cbn; unfold is_u; lia).
  rewrite <- (lor_shiftl_add 10) by ((eapply is_u_mono; [exact Hsv|lia]) || lia).
  rewrite <- (lor_shiftl_add 7 (sh_destination s)), <- (lor_shiftl_add 7 src) by (done || lia).
  destruct r; cbn [b2z]; rewrite ?Z.lor_0_l; lor_fields.
Qed.

Lemma make_can_id_layout {I} (h : CanHeader I) payload :
  header_valid h → make_can_id h payload = Ret (id_layout h payload) ∧
                   CanId_valid (id_layout h payload).
Proof.
  intros Hv. destruct (source_field_valid h payload Hv) as [Hs Hsv].
  pose proof (Priority_as_u8_range (priority h)) as Hp.
  unfold make_can_id. rewrite Hs. cbn [mbind exec_bind unwrap].
  set (src := source_field h payload) in *. set (prio := Priority_as_u8 (priority h)) in *.
  unfold CanNodeId_valid, VALID_NODE_IDS_end in Hsv.
  assert (Hsu : is_u 7 src) by (unfold is_u; lia).
  assert (Hgoal : ∀ bits, bits = id_layout h payload → is_u 29 (id_layout h payload) →
    expect (CanId_try_from bits) = Ret (id_layout h payload) ∧ CanId_valid (id_layout h payload)).
  { intros bits <- Hb. split; [|done]. unfold CanId_try_from.
    change CAN_ID_MASK with (Z.ones 29).
    rewrite land_not_ones by (done || (eapply is_u_mono; [exact Hb|lia])).
    by rewrite (proj2 (is_ub_spec _ _) Hb). }
  destruct h as [m|s|s]; cbn [header_valid] in Hv; cbn [id_layout] in *; fold src prio in Hgoal |- *.
  - destruct Hv as (Hsubj & _ & _). apply SubjectId_valid_u in Hsubj.
    set (anon := b2z (bool_decide (mh_source m = None))) in *.
    assert (Hanon : anon = 0 ∨ anon = 1) by (subst anon; case_bool_decide; cbn; lia).
    apply Hgoal.
    + rewrite (shl_small 32 3), (shl_small 32 13) by (done || lia).
      change (shl 32 1 21) with (Z.shiftl 1 21). change (shl 32 1 22) with (Z.shiftl 1 22).
      change (shl 32 1 24) with (Z.shiftl 1 24).
      rewrite <- (lor_shiftl_add 2 anon prio) by (unfold is_u; lia).
      rewrite <- (lor_shiftl_add 3 3) by (unfold is_u; lia).
      rewrite <- (lor_shiftl_add 13) by (done || lia).
      rewrite <- (lor_shiftl_add 8) by (done || (eapply is_u_mono; [exact Hsu|lia])).
      change 3 with (Z.lor 1 (Z.shiftl 1 1)) at 1.
      subst anon. destruct (mh_source m); cbn [b2z bool_decide decide_rel]; 
        [rewrite bool_decide_false by done|rewrite bool_decide_true by done]; cbn [b2z];
        rewrite ?Z.lor_0_l; lor_fields.
    + unfold is_u in *. lia.
  - destruct (service_layout s src prio true) as [? ?]; [apply Hv || done..|]. by apply Hgoal.
  - destruct (service_layout s src prio false) as [? ?]; [apply Hv || done..|]. by apply Hgoal.
Qed.

Lemma land_wrap_ones k w x : 0 ≤ k ≤ w → Z.land (wrap w x) (Z.ones k) = x mod 2 ^ k.
Proof. intros. rewrite Z.land_ones by lia. by apply wrap_wrap. Qed.

(** Parsing in terms of bit fields; it never panics on a 29-bit identifier. *)
Lemma parse_can_id_spec {I} id (ts : I) tid : CanId_valid id →
  ∃ prio, Priority_as_u8 prio = id / 2 ^ 26 ∧
  parse_can_id id ts tid = Ret (
    if (id / 2 ^ 23) mod 2 =? 1 then Err Bit23Set
    else if (id / 2 ^ 25) mod 2 =? 1 then
      let sh := mkServiceHeader ts tid prio ((id / 2 ^ 14) mod 2 ^ 9) (id mod 2 ^ 7)
                  ((id / 2 ^ 7) mod 2 ^ 7) in
      Ok (if (id / 2 ^ 24) mod 2 =? 1 then Request sh else Response sh)
    else if (id / 2 ^ 7) mod 2 =? 1 then Err Bit7Set
    else Ok (Message (mkMessageHeader ts tid prio ((id / 2 ^ 8) mod 2 ^ 13)
               (if (id / 2 ^ 24) mod 2 =? 1 then None else Some (id mod 2 ^ 7))))).
Proof.
  intros Hid. unfold CanId_valid, is_u in Hid.
  destruct (Priority_try_from_lt (id / 2 ^ 26)) as (prio & Hprio & Hpv); [unfold is_u; dlia|].
  exists prio. split; [done|]. unfold parse_can_id. rewrite !bit_set_mod by done.
  destruct ((id / 2 ^ 23) mod 2 =? 1); [done|].
  assert (get_u8 id 26 = id / 2 ^ 26) as ->.
  { unfold get_u8. rewrite Z.shiftr_div_pow2, wrap_small by (done || (unfold is_u; dlia)). done. }
  rewrite Hprio. cbn [expect mbind exec_bind]. unfold get_u8, get_u16.
  change 0x7f with (Z.ones 7). change 0x1ff with (Z.ones 9). change 0x1fff with (Z.ones 13).
  rewrite !land_wrap_ones, !Z.shiftr_div_pow2 by done. rewrite (Z.div_1_r id : id / 2 ^ 0 = id).
  assert (Hn : ∀ x, expect (CanNodeId_try_from_u8 (x mod 2 ^ 7)) = Ret (x mod 2 ^ 7)).
  { intros x. unfold CanNodeId_try_from_u8, VALID_NODE_IDS_end.
    pose proof (Z.mod_pos_bound x (2 ^ 7)). rewrite (proj2 (andb_true_iff _ _)); [done|lia]. }
  rewrite !Hn. cbn [mbind exec_bind].
  destruct ((id / 2 ^ 25) mod 2 =? 1).
  - rewrite ServiceId_try_from_valid by
      (apply ServiceId_valid_u; apply Z.mod_pos_bound; lia).
    cbn [expect mbind exec_bind]. by destruct ((id / 2 ^ 24) mod 2 =? 1).
  - destruct ((id / 2 ^ 7) mod 2 =? 1); [done|].
    rewrite SubjectId_try_from_valid by (apply SubjectId_valid_u; apply Z.mod_pos_bound; lia).
    done.
Qed.

Lemma Priority_as_u8_inj p q : Priority_as_u8 p = Priority_as_u8 q → p = q.
Proof. by destruct p, q. Qed.

(** The fields of a laid-out identifier can be read back. *)
Lemma message_id_fields src subj a p :
  0 ≤ src ≤ 127 → 0 ≤ subj ≤ 8191 → 0 ≤ a ≤ 1 → 0 ≤ p < 8 →
  let id := src + (subj + (3 + (a + p * 2 ^ 2) * 2 ^ 3) * 2 ^ 13) * 2 ^ 8 in
  (id / 2 ^ 23) mod 2 = 0 ∧ (id / 2 ^ 25) mod 2 = 0 ∧ (id / 2 ^ 7) mod 2 = 0 ∧
  (id / 2 ^ 8) mod 2 ^ 13 = subj ∧ id mod 2 ^ 7 = src ∧ (id / 2 ^ 24) mod 2 = a ∧
  id / 2 ^ 26 = p.
Proof. intros ???? id. subst id. split_and!; dlia. Qed.

Lemma service_id_fields src dst svc k p :
  0 ≤ src ≤ 127 → 0 ≤ dst ≤ 127 → 0 ≤ svc ≤ 511 → 2 ≤ k ≤ 3 → 0 ≤ p < 8 →
  let id := src + (dst + (svc + (k + p * 2 ^ 2) * 2 ^ 10) * 2 ^ 7) * 2 ^ 7 in
  (id / 2 ^ 23) mod 2 = 0 ∧ (id / 2 ^ 25) mod 2 = 1 ∧ (id / 2 ^ 24) mod 2 = k - 2 ∧
  (id / 2 ^ 14) mod 2 ^ 9 = svc ∧ (id / 2 ^ 7) mod 2 ^ 7 = dst ∧ id mod 2 ^ 7 = src ∧
  id / 2 ^ 26 = p.
Proof. intros ????? id. subst id. split_and!; dlia. Qed.

Lemma parse_fields_valid {I} (id : CanId) (ts : I) (tid : CanTransferId) :
  CanId_valid id → CanTransferId_valid tid →
  ∃ r, parse_can_id id ts tid = Ret r ∧
    match r with
    | Ok h => header_valid h ∧ timestamp h = ts ∧ transfer_id h = tid ∧
              Z.testbit id 23 = false
    | Err Bit23Set => Z.testbit id 23 = true
    | Err Bit7Set => Z.testbit id 25 = false ∧ Z.testbit id 7 = true
    end.
Proof.
  intros Hid Htid. destruct (parse_can_id_spec id ts tid Hid) as (prio & _ & ->).
  eexists. split; [done|]. rewrite <- !bit_set_testbit, !bit_set_mod by done.
  unfold header_valid, SubjectId_valid, ServiceId_valid, CanNodeId_valid,
    VALID_NODE_IDS_end, VALID_SUBJECT_IDS_end, VALID_SERVICE_IDS_end.
  pose proof (Z.mod_pos_bound id (2 ^ 7)).
  pose proof (Z.mod_pos_bound (id / 2 ^ 7) (2 ^ 7)).
  pose proof (Z.mod_pos_bound (id / 2 ^ 14) (2 ^ 9)).
  pose proof (Z.mod_pos_bound (id / 2 ^ 8) (2 ^ 13)).
  destruct ((id / 2 ^ 23) mod 2 =? 1); [done|].
  destruct ((id / 2 ^ 25) mod 2 =? 1).
  - destruct ((id / 2 ^ 24) mod 2 =? 1); cbn; split_and!; done || lia.
  - destruct ((id / 2 ^ 7) mod 2 =? 1); [done|]. cbn.
    destruct ((id / 2 ^ 24) mod 2 =? 1); cbn; split_and!; try (done || lia).
    intros n [= <-]. lia.
Qed.

(** ** Properties *)

(** Parsing the identifier of a header gives the header back. *)
Lemma parse_make_can_id {I} (h : CanHeader I) (payload : list u8) :
  header_valid h →
  ∃ id, make_can_id h payload = Ret id ∧ CanId_valid id ∧
        parse_can_id id (timestamp h) (transfer_id h) = Ret (Ok h).
Proof.
  intros Hv. destruct (make_can_id_layout h payload Hv) as [Hmk Hid].
  exists (id_layout h payload). split_and!; [done..|].
  destruct (parse_can_id_spec (id_layout h payload) (timestamp h) (transfer_id h) Hid)
    as (prio & Hprio & ->).
  destruct (source_field_valid h payload Hv) as [Hsrc Hsv].
  pose proof (Priority_as_u8_range (priority h)) as Hp. clear Hid Hmk.
  unfold CanNodeId_valid, VALID_NODE_IDS_end, is_u, id_layout in *.
  set (src := source_field h payload) in *.
  destruct h as [m|s|s]; cbn [header_valid priority timestamp transfer_id source] in *;
    unfold SubjectId_valid, ServiceId_valid, CanNodeId_valid, VALID_NODE_IDS_end,
      VALID_SUBJECT_IDS_end, VALID_SERVICE_IDS_end in Hv.
  - destruct (message_id_fields src (mh_subject m) (b2z (bool_decide (mh_source m = None)))
      (Priority_as_u8 (mh_priority m))) as (-> & -> & -> & -> & -> & -> & Hpf); [lia|lia| |lia|].
    { case_bool_decide; cbn; lia. }
    rewrite Hpf in Hprio. apply Priority_as_u8_inj in Hprio as ->. clear Hpf.
    by destruct m as [ts tid pr subj [n|]].
  - destruct (service_id_fields src (sh_destination s) (sh_service s) 3
      (Priority_as_u8 (sh_priority s))) as (-> & -> & -> & -> & -> & -> & Hpf); [lia..|].
    rewrite Hpf in Hprio. apply Priority_as_u8_inj in Hprio as ->.
    by destruct s.
  - destruct (service_id_fields src (sh_destination s) (sh_service s) 2
      (Priority_as_u8 (sh_priority s))) as (-> & -> & -> & -> & -> & -> & Hpf); [lia..|].
    rewrite Hpf in Hprio. apply Priority_as_u8_inj in Hprio as ->.
    by destruct s.
Qed.

(** C4: making the CAN identifier of a transfer never panics (the loop that looks
    for a pseudo-ID included), the result fits into 29 bits, and parsing it gives
    back exactly the transfer's header: kind, priority, port, source and
    destination; an anonymous message stays anonymous. *)
Theorem can_id_roundtrip {I} (h : CanHeader I) (payload : list u8) :
  header_valid h →
  ∃ id, make_can_id h payload = Ret id ∧ CanId_valid id ∧
        parse_can_id id (timestamp h) (transfer_id h) = Ret (Ok h).
Proof. apply parse_make_can_id. Qed.

Lemma can_id_roundtrip_witness :
  ∃ id, make_can_id (Message (mkMessageHeader tt 0 Nominal 7509 (Some 42))) [] = Ret id ∧
    parse_can_id id tt 0 = Ret (Ok (Message (mkMessageHeader tt 0 Nominal 7509 (Some 42)))).
Proof.
  destruct (can_id_roundtrip (Message (mkMessageHeader tt 0 Nominal 7509 (Some 42))) [])
    as (id & H1 & _ & H2).
  - unfold header_valid, SubjectId_valid, CanTransferId_valid, CanNodeId_valid. cbn.
    unfold VALID_SUBJECT_IDS_end, VALID_TRANSFER_IDS_end, VALID_NODE_IDS_end.
    split_and!; try lia. intros n [= <-]. lia.
  - exists id. split; [exact H1|exact H2].
Defined.

(** Parsing any 29-bit identifier neither panics nor produces a header outside
    the ranges of its field types; it is rejected exactly when reserved bit 23 is
    set, or reserved bit 7 of a message. *)
Theorem parse_can_id_total {I} (id : CanId) (ts : I) (tid : CanTransferId) :
  CanId_valid id → CanTransferId_valid tid →
  ∃ r, parse_can_id id ts tid = Ret r ∧
    match r with
    | Ok h => header_valid h ∧ timestamp h = ts ∧ transfer_id h = tid ∧
              Z.testbit id 23 = false
    | Err Bit23Set => Z.testbit id 23 = true
    | Err Bit7Set => Z.testbit id 25 = false ∧ Z.testbit id 7 = true
    end.
Proof. apply parse_fields_valid. Qed.

Lemma parse_can_id_total_witness :
  CanId_valid 0x107d552a ∧ ∃ r, parse_can_id 0x107d552a tt 3 = Ret r.
Proof.
  assert (H : CanId_valid 0x107d552a) by (unfold CanId_valid, is_u; lia).
  split; [exact H|].
  destruct (parse_can_id_total 0x107d552a tt 3 H) as (r & Hr & _).
  - unfold CanTransferId_valid, VALID_TRANSFER_IDS_end. lia.
  - exists r. exact Hr.
Defined.
