(* ===== verification/CanRx.v ===== *)
(** * The Cyphal/CAN receiver

    Models [canadensis_can/src/rx/session.rs], [rx/subscription.rs] and [rx.rs]:
    sessions that reassemble one transfer from one node, subscriptions with one
    session slot per source node, and the receiver with its three lists of
    subscriptions, counters and clean-up.

    The allocator is an oracle: a function that processes one frame takes
    [alloc : nat → allocator], where [alloc k] answers its [k]-th request. *)

From S2P Require Import Prelude CoreTypes Time Transfer Subscriptions CanTypes CanFraming CanIds.

Section rx.
Context {I D : Type} `{Instant I D}.

(** ** Sessions *)

Record Session := mkSession {
  se_transfer_timestamp : I;
  se_buildup : Buildup;
}.

Inductive SessionError : Set :=
| SessionCrc
| SessionPayloadLength
| SessionTimeout
| SessionBuildup (e : BuildupError)
| SessionMemory (e : OutOfMemoryError).

Definition Session_new (alloc : allocator) (transfer_timestamp : I) (transfer_id : CanTransferId)
    (max_payload_length : usize) : result OutOfMemoryError Session :=
  mkSession transfer_timestamp <$> Buildup_new alloc transfer_id max_payload_length.

Definition handle_transfer_data (self : Session) (transfer_data : list u8)
    (frame_header : CanHeader I)
    : exec (result SessionError (option (CanTransfer (list u8) I))) :=
  let finish data :=
    Ret (Ok (Some (mkTransfer (set_timestamp (se_transfer_timestamp self) frame_header) data))) in
  if 1 <? bu_frames (se_buildup self) then
    if negb (crc_add_bytes crc_new transfer_data =? 0)%Z then Ret (Err SessionCrc)
    else
      n ← usize_sub (length transfer_data) 2;
      finish (take n transfer_data)
  else finish transfer_data.

Definition Session_accept (alloc : allocator) (self : Session) (frame : Frame I)
    (frame_header : CanHeader I) (tail : TailByte) (max_payload_length : usize)
    (transfer_timeout : D)
    : exec (Session * result SessionError (option (CanTransfer (list u8) I))) :=
  if negb (tb_transfer_id tail =? bu_transfer_id (se_buildup self))%Z then Ret (self, Ok None)
  else
    frame_len ← usize_sub (length (frame_data frame)) 1;
    let new_payload_length := payload_length (se_buildup self) + frame_len in
    if max_payload_length <? new_payload_length then Ret (self, Err SessionPayloadLength)
    else
      let time_since_first_frame :=
        duration_since (frame_timestamp frame) (se_transfer_timestamp self) in
      if dur_gt time_since_first_frame transfer_timeout then Ret (self, Err SessionTimeout)
      else
        '(buildup, r) ← Buildup_add alloc (se_buildup self) (frame_data frame);
        let self' := mkSession (se_transfer_timestamp self) buildup in
        match r with
        | Err e => Ret (self', Err (SessionBuildup e))
        | Ok (Some transfer_data) =>
            r' ← handle_transfer_data self' transfer_data frame_header;
            Ret (self', r')
        | Ok None => Ret (self', Ok None)
        end.

(** ** Subscriptions *)

Definition RX_SESSIONS_PER_SUBSCRIPTION : usize := 128.

Record RxSubscription := mkRxSubscription {
  rs_sessions : list (option Session);
  rs_timeout : D;
  rs_payload_size_max : usize;
  rs_port_id : PortId;
}.

Inductive SubscriptionError : Set :=
| NotStart
| SubSession (e : SessionError)
| SubMemory (e : OutOfMemoryError).

Definition init_rx_sessions : list (option Session) := replicate RX_SESSIONS_PER_SUBSCRIPTION None.

Definition add_padding_and_crc_space (payload_size_max : usize) (mtu : Mtu) : exec usize :=
  stats ← calculate_frame_stats payload_size_max (as_bytes mtu);
  let crc_space := if 1 <? frames stats then 2 else 0 in
  Ret (payload_size_max + last_frame_padding stats + crc_space).

Definition Subscription_new (timeout : D) (payload_size_max : usize) (port_id : PortId) (mtu : Mtu)
    : exec RxSubscription :=
  size ← add_padding_and_crc_space payload_size_max mtu;
  Ret (mkRxSubscription init_rx_sessions timeout size port_id).

Definition set_slot (self : RxSubscription) (node : nat) (s : option Session) : RxSubscription :=
  mkRxSubscription (<[node := s]> (rs_sessions self)) (rs_timeout self)
    (rs_payload_size_max self) (rs_port_id self).

(** The frame's data as a transfer, for transfers of a single frame. *)
Definition single_frame_transfer (alloc : allocator) (frame : Frame I) (frame_header : CanHeader I)
    : exec (result SubscriptionError (option (CanTransfer (list u8) I))) :=
  n ← usize_sub (length (frame_data frame)) 1;
  match vec_extend alloc vec_new (take n (frame_data frame)) with
  | Some payload => Ret (Ok (Some (mkTransfer frame_header (vec_list payload))))
  | None => Ret (Err (SubMemory mkOutOfMemoryError))
  end.

(** Finds the session of a node, or creates it from the start of a transfer. *)
Definition session_for (alloc : nat → allocator) (self : RxSubscription) (slot : option Session)
    (frame_header : CanHeader I) (tail : TailByte) : result SubscriptionError Session :=
  match slot with
  | Some session => Ok session
  | None =>
      if negb (tb_start tail) then Err NotStart
      else
        match Session_new (alloc 0) (timestamp frame_header) (tb_transfer_id tail)
                (rs_payload_size_max self) with
        | Err e => Err (SubMemory e)
        | Ok session =>
            (* [FallibleBox::try_new] *)
            match alloc 1 1 with
            | Some _ => Ok session
            | None => Err (SubMemory mkOutOfMemoryError)
            end
        end
  end.

Definition accept_with_session (alloc : nat → allocator) (self : RxSubscription) (frame : Frame I)
    (frame_header : CanHeader I) (source_node : CanNodeId) (tail : TailByte)
    : exec (RxSubscription * result SubscriptionError (option (CanTransfer (list u8) I))) :=
  let node := Z.to_nat source_node in
  slot ← unwrap (rs_sessions self !! node);
  match session_for alloc self slot frame_header tail with
  | Err e => Ret (self, Err e)
  | Ok session =>
      '(session', accept_status) ← Session_accept (alloc 2) session frame frame_header tail
        (rs_payload_size_max self) (rs_timeout self);
      match accept_status with
      | Ok (Some transfer) => Ret (set_slot self node None, Ok (Some transfer))
      | Ok None => Ret (set_slot self node (Some session'), Ok None)
      | Err e => Ret (set_slot self node None, Err (SubSession e))
      end
  end.

Definition accept_non_anonymous (alloc : nat → allocator) (self : RxSubscription) (frame : Frame I)
    (frame_header : CanHeader I) (source_node : CanNodeId) (tail : TailByte)
    : exec (RxSubscription * result SubscriptionError (option (CanTransfer (list u8) I))) :=
  if tb_start tail && tb_end tail then
    if rs_payload_size_max self + 1 <? length (frame_data frame) then
      Ret (self, Err (SubSession SessionPayloadLength))
    else
      r ← single_frame_transfer (alloc 0) frame frame_header;
      Ret (self, r)
  else accept_with_session alloc self frame frame_header source_node tail.

(** An anonymous transfer has one frame and no session. *)
Definition accept_anonymous (alloc : nat → allocator) (self : RxSubscription) (frame : Frame I)
    (frame_header : CanHeader I)
    : exec (RxSubscription * result SubscriptionError (option (CanTransfer (list u8) I))) :=
  r ← single_frame_transfer (alloc 0) frame frame_header;
  Ret (self, r).

Definition Subscription_accept (alloc : nat → allocator) (self : RxSubscription) (frame : Frame I)
    (frame_header : CanHeader I) (tail : TailByte)
    : exec (RxSubscription * result SubscriptionError (option (CanTransfer (list u8) I))) :=
  match source frame_header with
  | Some source_node => accept_non_anonymous alloc self frame frame_header source_node tail
  | None => accept_anonymous alloc self frame frame_header
  end.

(** ** The receiver *)

Inductive TransferKind : Set := KMessage | KRequest | KResponse.

Definition from_header (h : CanHeader I) : TransferKind :=
  match h with Message _ => KMessage | Request _ => KRequest | Response _ => KResponse end.

Record CanReceiver := mkCanReceiver {
  subscriptions_message : vec RxSubscription;
  subscriptions_response : vec RxSubscription;
  subscriptions_request : vec RxSubscription;
  rx_id : option CanNodeId;
  rx_mtu : Mtu;
  rx_transfer_count : u64;
  rx_error_count : u64;
}.

Definition new_inner (id : option CanNodeId) (mtu : Mtu) : CanReceiver :=
  mkCanReceiver vec_new vec_new vec_new id mtu 0 0.
Definition CanReceiver_new (id : CanNodeId) (mtu : Mtu) : CanReceiver := new_inner (Some id) mtu.
Definition CanReceiver_new_anonymous (mtu : Mtu) : CanReceiver := new_inner None mtu.

Definition set_id (self : CanReceiver) (id : option CanNodeId) : CanReceiver :=
  mkCanReceiver (subscriptions_message self) (subscriptions_response self)
    (subscriptions_request self) id (rx_mtu self) (rx_transfer_count self) (rx_error_count self).

Definition subscriptions_for_kind (self : CanReceiver) (kind : TransferKind) : vec RxSubscription :=
  match kind with
  | KMessage => subscriptions_message self
  | KResponse => subscriptions_response self
  | KRequest => subscriptions_request self
  end.

(** A write through the reference that [subscriptions_for_kind] returns. *)
Definition set_subscriptions (self : CanReceiver) (kind : TransferKind) (v : vec RxSubscription)
    : CanReceiver :=
  mkCanReceiver
    (match kind with KMessage => v | _ => subscriptions_message self end)
    (match kind with KResponse => v | _ => subscriptions_response self end)
    (match kind with KRequest => v | _ => subscriptions_request self end)
    (rx_id self) (rx_mtu self) (rx_transfer_count self) (rx_error_count self).

Definition increment_transfer_count (self : CanReceiver) : CanReceiver :=
  mkCanReceiver (subscriptions_message self) (subscriptions_response self)
    (subscriptions_request self) (rx_id self) (rx_mtu self)
    (wrapping_add 64 (rx_transfer_count self) 1) (rx_error_count self).
Definition increment_error_count (self : CanReceiver) : CanReceiver :=
  mkCanReceiver (subscriptions_message self) (subscriptions_response self)
    (subscriptions_request self) (rx_id self) (rx_mtu self)
    (rx_transfer_count self) (wrapping_add 64 (rx_error_count self) 1).

Definition frame_sanity_check (frame : Frame I) : exec (option (CanHeader I * TailByte)) :=
  match last (frame_data frame) with
  | None => Ret None
  | Some last_byte =>
      tail_byte ← TailByte_parse last_byte;
      r ← parse_can_id (frame_id frame) (frame_timestamp frame) (tb_transfer_id tail_byte);
      match r with
      | Err _ => Ret None
      | Ok header =>
          match header with
          | Message message_header =>
              match mh_source message_header with
              | None =>
                  if negb (tb_toggle tail_byte && tb_start tail_byte && tb_end tail_byte)
                  then Ret None else Ret (Some (header, tail_byte))
              | Some _ => Ret (Some (header, tail_byte))
              end
          | _ => Ret (Some (header, tail_byte))
          end
      end
  end.

(** [iter_mut().find(..)] by port. *)
Definition find_port (l : list RxSubscription) (port : PortId) : option (nat * RxSubscription) :=
  list_find (λ s, rs_port_id s = port) l.

Definition accept_sane_frame (alloc : nat → allocator) (self : CanReceiver) (frame : Frame I)
    (frame_header : CanHeader I) (tail : TailByte)
    : exec (CanReceiver * result OutOfMemoryError (option (CanTransfer (list u8) I))) :=
  let kind := from_header frame_header in
  let subscriptions := subscriptions_for_kind self kind in
  match find_port (vec_list subscriptions) (port_id frame_header) with
  | None => Ret (self, Ok None)
  | Some (i, subscription) =>
      '(subscription', r) ← Subscription_accept alloc subscription frame frame_header tail;
      let self := set_subscriptions self kind
        (mkVec (<[i := subscription']> (vec_list subscriptions)) (vec_cap subscriptions)) in
      match r with
      | Ok (Some transfer) => Ret (increment_transfer_count self, Ok (Some transfer))
      | Ok None => Ret (self, Ok None)
      | Err e =>
          let self := increment_error_count self in
          match e with
          | SubSession (SessionMemory e) | SubMemory e => Ret (self, Err e)
          | _ => Ret (self, Ok None)
          end
      end
  end.

(** A service transfer is accepted only when it is addressed to this node. *)
Definition destined_here (self : CanReceiver) (h : CanHeader I) : bool :=
  match h with
  | Message _ => true
  | Request s | Response s =>
      match rx_id self with
      | Some this_id => (sh_destination s =? this_id)%Z
      | None => false
      end
  end.

Definition accept_frame (alloc : nat → allocator) (self : CanReceiver) (frame : Frame I)
    : exec (CanReceiver * result OutOfMemoryError (option (CanTransfer (list u8) I))) :=
  checked ← frame_sanity_check frame;
  match checked with
  | None => Ret (increment_error_count self, Ok None)
  | Some (frame_header, tail) =>
      if destined_here self frame_header
      then accept_sane_frame alloc self frame frame_header tail
      else Ret (self, Ok None)
  end.

(** ** Clean-up and subscriptions *)

Definition clean_session (now : I) (timeout : D) (slot : option Session) : option Session :=
  match slot with
  | Some session =>
      if dur_gt (duration_since now (se_transfer_timestamp session)) timeout then None
      else Some session
  | None => None
  end.

Definition clean_sessions_from_subscriptions (now : I) (v : vec RxSubscription)
    : vec RxSubscription :=
  mkVec ((λ s, mkRxSubscription (clean_session now (rs_timeout s) <$> rs_sessions s)
                 (rs_timeout s) (rs_payload_size_max s) (rs_port_id s)) <$> vec_list v)
    (vec_cap v).

Definition clean_expired_sessions (self : CanReceiver) (now : I) : CanReceiver :=
  mkCanReceiver
    (clean_sessions_from_subscriptions now (subscriptions_message self))
    (clean_sessions_from_subscriptions now (subscriptions_response self))
    (clean_sessions_from_subscriptions now (subscriptions_request self))
    (rx_id self) (rx_mtu self) (rx_transfer_count self) (rx_error_count self).

Definition rx_unsubscribe (self : CanReceiver) (kind : TransferKind) (port : PortId) : CanReceiver :=
  set_subscriptions self kind
    (vec_retain (λ sub, negb (rs_port_id sub =? port)%Z) (subscriptions_for_kind self kind)).

Definition rx_subscribe (alloc : allocator) (self : CanReceiver) (kind : TransferKind)
    (port : PortId) (payload_size_max : usize) (timeout : D)
    : exec (CanReceiver * result OutOfMemoryError unit) :=
  let self := rx_unsubscribe self kind port in
  new_subscription ← Subscription_new timeout payload_size_max port (rx_mtu self);
  match vec_push alloc (subscriptions_for_kind self kind) new_subscription with
  | Some v => Ret (set_subscriptions self kind v, Ok tt)
  | None => Ret (self, Err mkOutOfMemoryError)
  end.

(** The subscriptions handed to the driver by [apply_frame_filters]. *)
Fixpoint try_map {A B} (f : A → exec B) (l : list A) : exec (list B) :=
  match l with
  | [] => Ret []
  | a :: l' => b ← f a; bs ← try_map f l'; Ret (b :: bs)
  end.

Definition filter_subscriptions (self : CanReceiver) : exec (list Subscription) :=
  message ← try_map (λ sub, SubMessage <$> expect (SubjectId_try_from_port (rs_port_id sub)))
              (vec_list (subscriptions_message self));
  request ← try_map (λ sub, SubRequest <$> expect (ServiceId_try_from_port (rs_port_id sub)))
              (vec_list (subscriptions_request self));
  response ← try_map (λ sub, SubResponse <$> expect (ServiceId_try_from_port (rs_port_id sub)))
              (vec_list (subscriptions_response self));
  Ret (message ++ request ++ response).
End rx.

Arguments Session : clear implicits.
Arguments RxSubscription : clear implicits.
Arguments CanReceiver : clear implicits.

(** ** The receive driver and the [Receiver] interface *)

Class ReceiveDriver (Drv I E : Type) := {
  drv_receive : Drv → I → Drv * result (nb_error E) (Frame I);
  drv_apply_filters : Drv → option CanNodeId → list Subscription → Drv;
  drv_apply_accept_all : Drv → Drv;
}.

Section receiver.
Context {I D Drv E : Type} `{Instant I D} `{ReceiveDriver Drv I E}.

Definition apply_frame_filters (self : CanReceiver I D) (driver : Drv) : exec Drv :=
  subs ← filter_subscriptions self;
  Ret (drv_apply_filters driver (rx_id self) subs).

(** The loop of [receive]. It ends when a frame completes a transfer or fails, or
    when the driver has no more frames; [None] means that the fuel was not
    enough. [alloc n] is the allocator for the frame that is read with [n]
    iterations left. *)
Fixpoint receive_loop (fuel : nat) (alloc : nat → nat → allocator) (self : CanReceiver I D)
    (driver : Drv) (now : I)
    : option (exec (CanReceiver I D * Drv *
                    result (CanError E) (option (CanTransfer (list u8) I)))) :=
  match fuel with
  | 0 => None
  | S fuel' =>
      let '(driver, r) := drv_receive driver now in
      match r with
      | Err WouldBlock => Some (Ret (self, driver, Ok None))
      | Err (Other e) => Some (Ret (self, driver, Err (CanDriver e)))
      | Ok frame =>
          match accept_frame (alloc fuel') self frame with
          | Panic => Some Panic
          | Ret (self, Ok (Some transfer)) => Some (Ret (self, driver, Ok (Some transfer)))
          | Ret (self, Ok None) => receive_loop fuel' alloc self driver now
          | Ret (self, Err e) => Some (Ret (self, driver, Err (CanMemory e)))
          end
      end
  end.

Definition receive (fuel : nat) (alloc : nat → nat → allocator) (self : CanReceiver I D)
    (now : I) (driver : Drv) :=
  receive_loop fuel alloc (clean_expired_sessions self now) driver now.

Definition rx_subscribe_message (alloc : allocator) (self : CanReceiver I D) (subject : SubjectId)
    (payload_size_max : usize) (timeout : D) (driver : Drv)
    : exec (CanReceiver I D * Drv * result (CanError E) unit) :=
  '(self, r) ← rx_subscribe alloc self KMessage (PortId_from_subject subject) payload_size_max timeout;
  match r with
  | Err e => Ret (self, driver, Err (CanMemory e))
  | Ok _ => driver ← apply_frame_filters self driver; Ret (self, driver, Ok tt)
  end.

(** The body shared by [subscribe_request] and [subscribe_response]. *)
Definition rx_subscribe_service (kind : TransferKind) (alloc : allocator) (self : CanReceiver I D)
    (service : ServiceId) (payload_size_max : usize) (timeout : D) (driver : Drv)
    : exec (CanReceiver I D * Drv * result (ServiceSubscribeError (CanError E)) unit) :=
  match rx_id self with
  | Some _ =>
      '(self, r) ← rx_subscribe alloc self kind (PortId_from_service service) payload_size_max timeout;
      match r with
      | Err e => Ret (self, driver, Err (TransportError (CanMemory e)))
      | Ok _ => driver ← apply_frame_filters self driver; Ret (self, driver, Ok tt)
      end
  | None => Ret (self, driver, Err Anonymous)
  end.
Definition rx_subscribe_request := rx_subscribe_service KRequest.
Definition rx_subscribe_response := rx_subscribe_service KResponse.

Definition rx_unsubscribe_kind (kind : TransferKind) (self : CanReceiver I D) (port : PortId)
    (driver : Drv) : exec (CanReceiver I D * Drv) :=
  let self := rx_unsubscribe self kind port in
  driver ← apply_frame_filters self driver;
  Ret (self, driver).
Definition rx_unsubscribe_message := rx_unsubscribe_kind KMessage.
Definition rx_unsubscribe_request := rx_unsubscribe_kind KRequest.
Definition rx_unsubscribe_response := rx_unsubscribe_kind KResponse.
End receiver.
