(* ===== verification/CanRxSafety.v ===== *)
(** * Safety of the Cyphal/CAN receiver

    The invariant of sessions, subscriptions and receivers, that every operation
    of [CanRx] preserves it and never panics, what a delivered transfer
    satisfies, and that the frames of one session never touch another. *)

From S2P Require Import Prelude CoreTypes Time Transfer Subscriptions CanTypes CanFraming CanIds CanRx.

(** ** Invariants *)

Section invariants.
Context {I D : Type} `{Instant I D}.

(** A frame as a driver delivers it. *)
Definition frame_ok (f : Frame I) : Prop :=
  CanId_valid (frame_id f) ∧ bytes_ok (frame_data f) ∧ length (frame_data f) ≤ FRAME_CAPACITY.

(** The buffer of a session was allocated once for the largest transfer, and holds
    less than that. *)
Definition session_ok (max : usize) (s : Session I) : Prop :=
  let bu := se_buildup s in
  CanTransferId_valid (bu_transfer_id bu) ∧ bytes_ok (vec_list (bu_transfer bu)) ∧
  vec_len (bu_transfer bu) ≤ max ≤ vec_cap (bu_transfer bu).

Definition sub_ok (s : RxSubscription I D) : Prop :=
  length (rs_sessions s) = RX_SESSIONS_PER_SUBSCRIPTION ∧
  ∀ n se, rs_sessions s !! n = Some (Some se) → session_ok (rs_payload_size_max s) se.

Definition port_ok (kind : TransferKind) (p : PortId) : Prop :=
  match kind with KMessage => SubjectId_valid p | _ => ServiceId_valid p end.

Definition subs_list_ok (kind : TransferKind) (v : vec (RxSubscription I D)) : Prop :=
  vec_wf v ∧ NoDup (rs_port_id <$> vec_list v) ∧
  Forall (λ s, sub_ok s ∧ port_ok kind (rs_port_id s)) (vec_list v).

Definition rx_ok (r : CanReceiver I D) : Prop :=
  (∀ kind, subs_list_ok kind (subscriptions_for_kind r kind)) ∧
  is_u 64 (rx_transfer_count r) ∧ is_u 64 (rx_error_count r).

(** A message is for every node, a service transfer for the node it names. *)
Definition addressed (r : CanReceiver I D) (h : CanHeader I) : Prop :=
  match h with
  | Message _ => True
  | Request s | Response s => rx_id r = Some (sh_destination s)
  end.

Lemma destined_here_spec r h : destined_here r h = true ↔ addressed r h.
Proof.
  destruct h as [m|s|s]; cbn; [done|..];
    (destruct (rx_id r); [rewrite Z.eqb_eq; split; congruence|done]).
Qed.

(** ** Sessions *)

Lemma crc_zero_length d : bytes_ok d → crc_add_bytes crc_new d = 0%Z → 2 ≤ length d.
Proof.
  intros Hd Hc. destruct d as [|b [|b' d]]; [done| |cbn; lia]. exfalso.
  apply Forall_cons in Hd as [Hb _]. cbn [crc_add_bytes fold_left] in Hc.
  unfold crc_add in Hc. apply iter_crc_zero in Hc.
  - apply (f_equal (λ n, Z.testbit n 0)) in Hc. revert Hc. unfold shl.
    by rewrite Z.lxor_spec, testbit_wrap, Z.shiftl_spec by lia.
  - apply is_u_lxor; [done|done|]. by apply is_u_wrap.
Qed.

(** Splitting a frame into data and tail byte. *)
Lemma frame_split (f : Frame I) b : bytes_ok (frame_data f) → last (frame_data f) = Some b →
  ∃ c, frame_data f = c ++ [b] ∧ bytes_ok c ∧ is_u 8 b.
Proof.
  intros Hb [c Hc]%last_Some. exists c. rewrite Hc in *.
  apply Forall_app in Hb as [? Hb]. apply Forall_cons in Hb as [Hb _]. done.
Qed.

(** Reassembly within the buffer never allocates and never panics. *)
Lemma Buildup_add_within alloc bu c t :
  is_u 8 t → wrap 5 t = bu_transfer_id bu →
  vec_len (bu_transfer bu) + length c ≤ vec_cap (bu_transfer bu) →
  ∃ bu' r, Buildup_add alloc bu (c ++ [t]) = Ret (bu', r) ∧ r ≠ Err BuildupOutOfMemory ∧
    bu_transfer_id bu' = bu_transfer_id bu ∧
    match r with
    | Ok None => bu_transfer bu' =
        mkVec (vec_list (bu_transfer bu) ++ c) (vec_cap (bu_transfer bu))
    | Ok (Some d) => d = vec_list (bu_transfer bu) ++ c ∧ Z.testbit t 6 = true
    | Err _ => True
    end.
Proof.
  intros Ht Htid Hfit. unfold Buildup_add. rewrite last_snoc, TailByte_parse_total by done.
  cbn [mbind exec_bind tb_start tb_toggle tb_transfer_id tb_end bu_expect_start bu_expect_toggle
       bu_transfer_id bu_frames bu_transfer].
  destruct (negb (eqb (Z.testbit t 7) _)); [by eexists _, _|].
  destruct (negb (eqb (Z.testbit t 5) _)); [by eexists _, _|].
  rewrite Htid, Z.eqb_refl. cbn [assert_].
  rewrite length_app, Nat.add_sub, take_app_length, vec_extend_fits by done.
  destruct (Z.testbit t 6); by eexists _, _.
Qed.

Lemma handle_transfer_data_spec (s : Session I) (d : list u8) (h : CanHeader I) :
  bytes_ok d → ∃ r, handle_transfer_data s d h = Ret r ∧
    match r with
    | Ok (Some tr) => tr_header tr = set_timestamp (se_transfer_timestamp s) h ∧
        tr_payload tr = take (length (tr_payload tr)) d ∧ length (tr_payload tr) ≤ length d
    | Ok None => False
    | Err e => e = SessionCrc
    end.
Proof.
  intros Hd. unfold handle_transfer_data. destruct (1 <? _).
  - destruct (Z.eqb_spec (crc_add_bytes crc_new d) 0) as [Hc|]; [|by eexists].
    pose proof (crc_zero_length d Hd Hc). unfold usize_sub.
    rewrite (proj2 (Nat.leb_le _ _)) by done. eexists. split; [done|]. cbn.
    rewrite length_take. split_and!; [done| |lia]. f_equal. lia.
  - eexists. split; [done|]. cbn. split_and!; [done| |done]. by rewrite firstn_all.
Qed.

(** One step of a session: never a panic, never an allocation failure; the session
    stays within its buffer, and a completed transfer is no longer than it. *)
Lemma Session_accept_spec alloc (s : Session I) (f : Frame I) (h : CanHeader I) c t max
    (timeout : D) :
  session_ok max s → frame_data f = c ++ [t] → bytes_ok c → is_u 8 t →
  let tail := mkTailByte (Z.testbit t 7) (Z.testbit t 6) (Z.testbit t 5) (wrap 5 t) in
  ∃ s' r, Session_accept alloc s f h tail max timeout = Ret (s', r) ∧
    match r with
    | Ok None => session_ok max s'
    | Ok (Some tr) => tr_header tr = set_timestamp (se_transfer_timestamp s) h ∧
        length (tr_payload tr) ≤ max ∧ bytes_ok (tr_payload tr)
    | Err e => e ≠ SessionMemory mkOutOfMemoryError ∧ e ≠ SessionBuildup BuildupOutOfMemory
    end.
Proof.
  intros (Hv & Hb & Hlen & Hcap) Hf Hc Ht tail. unfold Session_accept. rewrite Hf.
  destruct (Z.eqb_spec (tb_transfer_id tail) (bu_transfer_id (se_buildup s))) as [Htid|].
  2: { eexists s, _. split; [done|]. split_and!; done. }
  cbn [negb]. unfold usize_sub. rewrite length_app. cbn [length].
  rewrite (proj2 (Nat.leb_le 1 _)), Nat.add_sub by lia. cbn [mbind exec_bind].
  unfold payload_length. case_cmp; [by eexists s, _|].
  destruct (dur_gt _ timeout); [by eexists s, _|].
  destruct (Buildup_add_within alloc (se_buildup s) c t) as (bu' & r & -> & Hr & Htid' & Hpost);
    [done|exact Htid|lia|]. cbn [mbind exec_bind].
  destruct r as [[d|]|e].
  - destruct Hpost as [-> _].
    destruct (handle_transfer_data_spec (mkSession (se_transfer_timestamp s) bu')
      (vec_list (bu_transfer (se_buildup s)) ++ c) h) as (r' & -> & Hpost);
      [by apply Forall_app|]. cbn [mbind exec_bind]. eexists _, r'. split; [done|].
    destruct r' as [[tr|]|e]; [|done|by subst e].
    destruct Hpost as (Hh & Hp & Hl). split_and!; [done| |].
    + rewrite length_app in Hl. unfold vec_len in *. lia.
    + rewrite Hp. apply Forall_take, Forall_app. done.
  - eexists _, _. split; [done|]. unfold session_ok. cbn. rewrite Htid', Hpost. cbn.
    unfold vec_len in *. cbn. rewrite length_app. split_and!; [done|by apply Forall_app|lia|lia].
  - eexists _, _. split; [done|]. split; [done|]. congruence.
Qed.

(** ** Subscriptions *)

Implicit Types (f : Frame I) (h : CanHeader I) (sub : RxSubscription I D).

(** Some allocation request fails. *)
Definition alloc_fails (alloc : nat → allocator) : Prop := ∃ k n, alloc k n = None.

Lemma single_frame_transfer_spec alloc f h c t :
  frame_data f = c ++ [t] →
  ∃ r, single_frame_transfer alloc f h = Ret r ∧
    match r with
    | Ok (Some tr) => tr = mkTransfer h c
    | Ok None => False
    | Err e => e = SubMemory mkOutOfMemoryError ∧ ∃ n, alloc n = None
    end.
Proof.
  intros Hf. unfold single_frame_transfer, usize_sub. rewrite Hf, length_app. cbn [length].
  rewrite (proj2 (Nat.leb_le 1 _)) by lia. cbn [mbind exec_bind].
  rewrite Nat.add_sub, take_app_length.
  destruct (vec_extend alloc vec_new c) as [v|] eqn:E; eexists; (split; [done|]).
  - apply vec_extend_Some in E. cbn in E. by rewrite E.
  - apply vec_extend_None in E as [_ E]. eauto.
Qed.

Lemma session_for_spec alloc sub slot h tail :
  (∀ k, alloc_ok (alloc k)) → CanTransferId_valid (tb_transfer_id tail) →
  (∀ se, slot = Some se → session_ok (rs_payload_size_max sub) se) →
  match session_for alloc sub slot h tail with
  | Ok se => session_ok (rs_payload_size_max sub) se ∧
             (slot = None → se_transfer_timestamp se = timestamp h)
  | Err NotStart => slot = None ∧ tb_start tail = false
  | Err (SubMemory _) => alloc_fails alloc
  | Err (SubSession _) => False
  end.
Proof.
  intros Ha Ht Hslot. unfold session_for. destruct slot as [se|]; [split; [by apply Hslot|done]|].
  destruct (tb_start tail) eqn:Es; cbn [negb]; [|done]. unfold Session_new.
  destruct (Buildup_new (alloc 0) (tb_transfer_id tail) (rs_payload_size_max sub)) as [bu|[]] eqn:E.
  - apply Buildup_new_Ok in E as (cap & -> & Hcap); [|done]. cbn.
    destruct (alloc 1 1) eqn:E1; [|by exists 1, 1]. split; [|done].
    unfold session_ok. cbn. split_and!; [done|apply Forall_nil_2|lia|done].
  - cbn. unfold Buildup_new, vec_with_capacity in E. exists 0, (rs_payload_size_max sub).
    destruct (_ =? 0); [done|]. by destruct (alloc 0 _).
Qed.

(** What may change when a subscription accepts a frame from one node. *)
Definition same_except (node : nat) sub sub' : Prop :=
  rs_timeout sub' = rs_timeout sub ∧ rs_payload_size_max sub' = rs_payload_size_max sub ∧
  rs_port_id sub' = rs_port_id sub ∧
  ∀ n, n ≠ node → rs_sessions sub' !! n = rs_sessions sub !! n.

Lemma same_except_refl node sub : same_except node sub sub.
Proof. done. Qed.

Lemma set_slot_ok sub node slot :
  sub_ok sub → (∀ se, slot = Some se → session_ok (rs_payload_size_max sub) se) →
  sub_ok (set_slot sub node slot) ∧ same_except node sub (set_slot sub node slot).
Proof.
  intros [Hl Hs] Hslot. split.
  - split; cbn; [by rewrite length_insert|]. intros n se.
    intros [(-> & ? & ?)|[? ?]]%list_lookup_insert_Some; eauto.
  - split_and!; try done. intros n Hn. cbn. by rewrite list_lookup_insert_ne by congruence.
Qed.

(** The post-condition of accepting a frame on a subscription. *)
Definition accept_post (alloc : nat → allocator) sub h c
    (r : result SubscriptionError (option (CanTransfer (list u8) I))) : Prop :=
  match r with
  | Ok None => source h ≠ None
  | Ok (Some tr) =>
      (∃ ts, tr_header tr = set_timestamp ts h) ∧ bytes_ok (tr_payload tr) ∧
      (source h ≠ None → length (tr_payload tr) ≤ rs_payload_size_max sub) ∧
      (source h = None → tr_payload tr = c)
  | Err (SubSession e) =>
      e ≠ SessionMemory mkOutOfMemoryError ∧ e ≠ SessionBuildup BuildupOutOfMemory
  | Err NotStart => source h ≠ None
  | Err (SubMemory _) => alloc_fails alloc
  end.

Lemma Subscription_accept_spec alloc sub f h c t :
  sub_ok sub → (∀ k, alloc_ok (alloc k)) → header_valid h →
  frame_data f = c ++ [t] → bytes_ok c → is_u 8 t →
  let tail := mkTailByte (Z.testbit t 7) (Z.testbit t 6) (Z.testbit t 5) (wrap 5 t) in
  ∃ sub' r, Subscription_accept alloc sub f h tail = Ret (sub', r) ∧ sub_ok sub' ∧
    same_except (Z.to_nat (default 0%Z (source h))) sub sub' ∧
    (source h = None → sub' = sub) ∧ accept_post alloc sub h c r.
Proof.
  intros Hsub Ha Hh Hf Hc Ht tail. unfold Subscription_accept, accept_anonymous.
  assert (Htid : CanTransferId_valid (wrap 5 t)).
  { pose proof (is_u_wrap 5 t ltac:(lia)). unfold CanTransferId_valid, VALID_TRANSFER_IDS_end, is_u in *. lia. }
  destruct (source h) as [src|] eqn:Esrc.
  2: { destruct (single_frame_transfer_spec (alloc 0) f h c t Hf) as (r & -> & Hr).
    cbn [mbind exec_bind]. eexists sub, r. split_and!; [done..|]. unfold accept_post.
    destruct r as [[tr|]|e]; [|done|destruct Hr as [-> [n ?]]; by exists 0, n].
    subst tr. cbn. split_and!; [|done|congruence|done]. exists (timestamp h). by rewrite set_timestamp_id. }
  cbn [default]. unfold accept_non_anonymous.
  destruct (tb_start tail && tb_end tail).
  - case_cmp; [eexists sub, _; split_and!; [done..|by cbn]|].
    destruct (single_frame_transfer_spec (alloc 0) f h c t Hf) as (r & -> & Hr).
    cbn [mbind exec_bind]. eexists sub, r. split_and!; [done..|]. unfold accept_post.
    destruct r as [[tr|]|e]; [|done|destruct Hr as [-> [n ?]]; by exists 0, n].
    subst tr. cbn. rewrite Hf, length_app in *. cbn [length] in *.
    split_and!; [|done|lia|congruence]. exists (timestamp h). by rewrite set_timestamp_id.
  - unfold accept_with_session.
    assert (Hn : Z.to_nat src < length (rs_sessions sub)).
    { destruct Hsub as [-> _]. unfold RX_SESSIONS_PER_SUBSCRIPTION.
      assert (CanNodeId_valid src) as Hs.
      { destruct h; cbn in *; [by apply Hh|injection Esrc as <-; apply Hh..]. }
      unfold CanNodeId_valid, VALID_NODE_IDS_end in Hs. lia. }
    destruct (lookup_lt_is_Some_2 _ _ Hn) as [slot Hslot]. rewrite Hslot. cbn [unwrap mbind exec_bind].
    assert (Hse : ∀ se, slot = Some se → session_ok (rs_payload_size_max sub) se).
    { intros se ->. by eapply Hsub. }
    pose proof (session_for_spec alloc sub slot h tail Ha Htid Hse) as Hfor.
    destruct (session_for alloc sub slot h tail) as [se|e].
    2: { eexists sub, _. split_and!; [done..|]. destruct e; cbn; [congruence|done|done]. }
    destruct Hfor as [Hseok _].
    destruct (Session_accept_spec (alloc 2) se f h c t (rs_payload_size_max sub) (rs_timeout sub)
      Hseok Hf Hc Ht) as (se' & r & Hacc & Hr). fold tail in Hacc. rewrite Hacc.
    cbn [mbind exec_bind].
    destruct r as [[tr|]|e].
    + destruct (set_slot_ok sub (Z.to_nat src) None Hsub) as [? ?]; [done|].
      eexists _, _. split_and!; [done..|]. destruct Hr as (Hh' & Hl & Hb).
      cbn. split_and!; [eauto|done|done|congruence].
    + destruct (set_slot_ok sub (Z.to_nat src) (Some se') Hsub) as [? ?]; [by intros ? [= <-]|].
      eexists _, _. split_and!; [done..|]. cbn. congruence.
    + destruct (set_slot_ok sub (Z.to_nat src) None Hsub) as [? ?]; [done|].
      eexists _, _. split_and!; done.
Qed.

(** ** The receiver *)

Implicit Types (rx : CanReceiver I D).

#[global] Instance TransferKind_eq_dec : EqDecision TransferKind.
Proof. solve_decision. Defined.

Lemma subscriptions_set rx kind v kind' :
  subscriptions_for_kind (set_subscriptions rx kind v) kind' =
  if decide (kind' = kind) then v else subscriptions_for_kind rx kind'.
Proof. by destruct kind, kind'. Qed.

Lemma subs_list_ok_insert kind v i sub sub' :
  subs_list_ok kind v → vec_list v !! i = Some sub → sub_ok sub' →
  rs_port_id sub' = rs_port_id sub →
  subs_list_ok kind (mkVec (<[i := sub']> (vec_list v)) (vec_cap v)).
Proof.
  intros (Hwf & Hnd & Hall) Hi Hs Hp. split_and!.
  - unfold vec_wf in *. cbn. by rewrite length_insert.
  - cbn. rewrite list_fmap_insert, Hp, list_insert_id; [done|]. by rewrite list_lookup_fmap, Hi.
  - cbn. apply Forall_insert; [done|]. rewrite Hp. split; [done|].
    by apply (Forall_lookup_1 _ _ _ _ Hall Hi).
Qed.

Lemma rx_ok_set rx kind v : rx_ok rx → subs_list_ok kind v → rx_ok (set_subscriptions rx kind v).
Proof.
  intros (Hs & Ht & He) Hv. split_and!; [|by destruct kind..].
  intros kind'. rewrite subscriptions_set. case_decide; subst; done.
Qed.

Lemma rx_ok_count_transfer rx : rx_ok rx → rx_ok (increment_transfer_count rx).
Proof. intros (Hs & Ht & He). split_and!; [by intros []; apply (Hs KMessage) || apply (Hs KRequest) || apply (Hs KResponse)|by apply is_u_wrap|done]. Qed.

Lemma rx_ok_count_error rx : rx_ok rx → rx_ok (increment_error_count rx).
Proof. intros (Hs & Ht & He). split_and!; [by intros []; apply (Hs KMessage) || apply (Hs KRequest) || apply (Hs KResponse)|done|by apply is_u_wrap]. Qed.

Lemma frame_sanity_check_spec f : frame_ok f →
  ∃ r, frame_sanity_check f = Ret r ∧
    match r with
    | None => True
    | Some (h, tail) => header_valid h ∧ timestamp h = frame_timestamp f ∧
        ∃ c t, frame_data f = c ++ [t] ∧ bytes_ok c ∧ is_u 8 t ∧ transfer_id h = wrap 5 t ∧
          tail = mkTailByte (Z.testbit t 7) (Z.testbit t 6) (Z.testbit t 5) (wrap 5 t) ∧
          (source h = None → tb_start tail = true ∧ tb_end tail = true)
    end.
Proof.
  intros (Hid & Hb & _). unfold frame_sanity_check.
  destruct (last (frame_data f)) as [t|] eqn:El; [|by eexists].
  destruct (frame_split f t Hb El) as (c & Hf & Hc & Ht).
  rewrite TailByte_parse_total by done. cbn [mbind exec_bind tb_transfer_id tb_toggle tb_start tb_end].
  assert (Htid : CanTransferId_valid (wrap 5 t)).
  { pose proof (is_u_wrap 5 t ltac:(lia)). unfold CanTransferId_valid, VALID_TRANSFER_IDS_end, is_u in *. lia. }
  destruct (parse_fields_valid (frame_id f) (frame_timestamp f) (wrap 5 t) Hid Htid)
    as (r & Hr & Hpost). rewrite Hr. cbn [mbind exec_bind].
  destruct r as [h|e]; [|by eexists]. destruct Hpost as (Hh & Hts & Htr & _).
  assert (Hdone : (source h = None → Z.testbit t 7 = true ∧ Z.testbit t 6 = true) →
    ∃ r, Ret (Some (h, mkTailByte (Z.testbit t 7) (Z.testbit t 6) (Z.testbit t 5) (wrap 5 t))) =
      Ret r ∧ match r with
    | None => True
    | Some (h, tail) => header_valid h ∧ timestamp h = frame_timestamp f ∧
        ∃ c t, frame_data f = c ++ [t] ∧ bytes_ok c ∧ is_u 8 t ∧ transfer_id h = wrap 5 t ∧
          tail = mkTailByte (Z.testbit t 7) (Z.testbit t 6) (Z.testbit t 5) (wrap 5 t) ∧
          (source h = None → tb_start tail = true ∧ tb_end tail = true)
    end).
  { intros Hs. eexists. split; [done|]. split_and!; [done..|]. by exists c, t. }
  destruct h as [m|s|s]; [|by apply Hdone..].
  destruct (mh_source m) eqn:Em; [apply Hdone; cbn; congruence|].
  destruct (Z.testbit t 5), (Z.testbit t 7), (Z.testbit t 6); cbn [negb andb];
    (by eexists) || by apply Hdone.
Qed.

(** The session that reassembles transfers of one kind and port from one node. *)
Definition session_at rx (kind : TransferKind) (port : PortId) (node : nat) : option (Session I) :=
  match find_port (vec_list (subscriptions_for_kind rx kind)) port with
  | Some (_, sub) => mjoin (rs_sessions sub !! node)
  | None => None
  end.

(** The parameters of a subscription. *)
Definition config_at rx (kind : TransferKind) (port : PortId) : option (D * usize) :=
  (λ p, (rs_timeout p.2, rs_payload_size_max p.2)) <$>
    find_port (vec_list (subscriptions_for_kind rx kind)) port.

Lemma find_port_insert l i sub sub' port port' :
  find_port l port = Some (i, sub) → rs_port_id sub' = rs_port_id sub →
  find_port (<[i := sub']> l) port' =
    if decide (port' = port) then Some (i, sub') else find_port l port'.
Proof.
  unfold find_port. intros Hf Hp.
  apply list_find_Some in Hf as (Hi & Hport & Hbefore). case_decide; subst.
  - apply list_find_Some. split_and!; [|done|].
    + by apply list_lookup_insert_eq, (lookup_lt_Some _ _ _ Hi).
    + intros j y Hj Hlt. rewrite list_lookup_insert_ne in Hj by lia. by apply (Hbefore j).
  - destruct (list_find (λ s, rs_port_id s = port') l) as [[j y]|] eqn:E.
    + apply list_find_Some in E as (Hj & Hpj & Hb). apply list_find_Some. split_and!; [|done|].
      * rewrite list_lookup_insert_ne; [done|]. intros ->. congruence.
      * intros k z. intros [(-> & -> & _)|[? Hk]]%list_lookup_insert_Some Hlt; [congruence|].
        by apply (Hb k).
    + apply list_find_None in E. apply list_find_None. apply Forall_insert; [done|]. congruence.
Qed.

(** The effect of accepting a frame that passed the checks. *)
Lemma accept_sane_frame_spec alloc rx f h c t :
  rx_ok rx → (∀ k, alloc_ok (alloc k)) → header_valid h →
  frame_data f = c ++ [t] → bytes_ok c → is_u 8 t →
  let tail := mkTailByte (Z.testbit t 7) (Z.testbit t 6) (Z.testbit t 5) (wrap 5 t) in
  ∃ rx' r, accept_sane_frame alloc rx f h tail = Ret (rx', r) ∧ rx_ok rx' ∧
    rx_id rx' = rx_id rx ∧
    (∀ kind port node,
       (kind, port, Some node) ≠ (from_header h, port_id h, Z.to_nat <$> source h) →
       session_at rx' kind port node = session_at rx kind port node) ∧
    (∀ kind port, config_at rx' kind port = config_at rx kind port) ∧
    match r with
    | Err _ => alloc_fails alloc
    | Ok None => True
    | Ok (Some tr) => (∃ ts, tr_header tr = set_timestamp ts h) ∧ bytes_ok (tr_payload tr) ∧
        ∃ i sub, find_port (vec_list (subscriptions_for_kind rx (from_header h))) (port_id h)
                   = Some (i, sub) ∧
          (source h ≠ None → length (tr_payload tr) ≤ rs_payload_size_max sub)
    end.
Proof.
  intros Hrx Ha Hh Hf Hc Ht tail. unfold accept_sane_frame.
  set (kind := from_header h). set (v := subscriptions_for_kind rx kind).
  destruct (find_port (vec_list v) (port_id h)) as [[i sub]|] eqn:Efind; [|by eexists rx, _].
  pose proof Efind as (Hi & Hport & _)%list_find_Some.
  pose proof (proj1 Hrx kind) as Hsl. fold v in Hsl.
  assert (Hsub : sub_ok sub) by (by apply (Forall_lookup_1 _ _ _ _ (proj2 (proj2 Hsl)) Hi)).
  destruct (Subscription_accept_spec alloc sub f h c t Hsub Ha Hh Hf Hc Ht)
    as (sub' & r & Hacc & Hsub' & Hsame & Hanon & Hpost). fold tail in Hacc. rewrite Hacc.
  cbn [mbind exec_bind]. pose proof Hsame as (Htimeout & Hmax & Hport' & Hslots).
  set (rx1 := set_subscriptions rx kind _).
  assert (Hrx1 : rx_ok rx1) by (by apply rx_ok_set, (subs_list_ok_insert _ _ _ sub)).
  assert (Hsess : ∀ kind' port node,
    (kind', port, Some node) ≠ (kind, port_id h, Z.to_nat <$> source h) →
    session_at rx1 kind' port node = session_at rx kind' port node).
  { intros kind' port node Hne. unfold session_at, rx1. rewrite subscriptions_set.
    case_decide as Hk; [|done]. subst kind'. cbn [vec_list]. fold v.
    rewrite (find_port_insert _ i sub sub' (port_id h)) by done. case_decide as Hp; [|done]. subst port.
    rewrite Efind. destruct (source h) as [src|]; cbn in *.
    - rewrite Hslots; [done|]. congruence.
    - by rewrite Hanon. }
  assert (Hconf : ∀ kind' port, config_at rx1 kind' port = config_at rx kind' port).
  { intros kind' port. unfold config_at, rx1. rewrite subscriptions_set. case_decide as Hk; [|done].
    subst kind'. cbn [vec_list]. fold v. rewrite (find_port_insert _ i sub sub' (port_id h)) by done.
    case_decide as Hp; [|done]. subst port. rewrite Efind. cbn. by rewrite Htimeout, Hmax. }
  destruct r as [[tr|]|e].
  - eexists _, _. split_and!; [done|by apply rx_ok_count_transfer|by destruct kind|..].
    + intros kind' port node Hne. rewrite <- Hsess by done. by destruct kind'.
    + intros kind' port. rewrite <- Hconf. by destruct kind'.
    + destruct Hpost as (? & ? & ? & _). split_and!; [done..|]. by exists i, sub.
  - eexists _, (Ok None). split_and!; [done|done|by destruct kind|done|done|done].
  - assert (Herr : ∀ kind' port node, session_at (increment_error_count rx1) kind' port node =
      session_at rx1 kind' port node) by (by intros []).
    destruct e as [|e|e]; [|destruct e|]; cbn in Hpost |- *;
      (eexists _, _; split_and!;
        [done|by apply rx_ok_count_error|by destruct kind
        |intros; rewrite Herr; by apply Hsess|intros kind' port'; rewrite <- Hconf; by destruct kind'|]); try done.
    destruct e. by destruct Hpost.
Qed.

(** ** Subscribing *)

Lemma add_padding_and_crc_space_total n m :
  ∃ size, add_padding_and_crc_space n m = Ret size ∧ n ≤ size.
Proof.
  unfold add_padding_and_crc_space.
  destruct (calculate_frame_stats_spec n m) as (st & -> & _). cbn [mbind exec_bind].
  eexists. split; [done|]. lia.
Qed.

Lemma Subscription_new_spec (timeout : D) n port m :
  ∃ sub, Subscription_new (I := I) timeout n port m = Ret sub ∧ sub_ok sub ∧
    rs_port_id sub = port ∧ rs_timeout sub = timeout ∧ n ≤ rs_payload_size_max sub ∧
    (∀ node, mjoin (rs_sessions sub !! node) = None).
Proof.
  unfold Subscription_new. destruct (add_padding_and_crc_space_total n m) as (size & -> & Hs).
  cbn [mbind exec_bind]. eexists. split; [done|].
  assert (Hnone : ∀ node se, (init_rx_sessions : list (option (Session I))) !! node = Some (Some se) → False).
  { intros node se [? ?]%lookup_replicate. done. }
  split_and!; try done.
  - split; [apply length_replicate|]. intros node se Hn. by apply Hnone in Hn.
  - intros node. cbn -[init_rx_sessions].
    destruct (init_rx_sessions !! node) as [[se|]|] eqn:E; [|done..]. by apply Hnone in E.
Qed.

Lemma retain_ports (l : list (RxSubscription I D)) port :
  let l' := List.filter (λ sub, negb (rs_port_id sub =? port)%Z) l in
  (∀ sub, sub ∈ l' ↔ sub ∈ l ∧ rs_port_id sub ≠ port) ∧
  (NoDup (rs_port_id <$> l) → NoDup (rs_port_id <$> l')) ∧ (port ∉ (rs_port_id <$> l')) ∧
  (∀ port', port' ≠ port →
     (snd <$> find_port l' port') = (snd <$> find_port l port')) ∧
  (port ∈ (rs_port_id <$> l) → length l' < length l).
Proof.
  cbn zeta. set (keep := λ sub, _).
  assert (Hin : ∀ sub, sub ∈ List.filter keep l ↔ sub ∈ l ∧ rs_port_id sub ≠ port).
  { intros sub. rewrite !list_elem_of_In, List.filter_In. subst keep. cbn.
    rewrite negb_true_iff, Z.eqb_neq. done. }
  split_and!; [done|..].
  - clear Hin. induction l as [|sub l IH]; [done|]. cbn. rewrite NoDup_cons. intros [Hni Hnd].
    destruct (keep sub); [|by apply IH]. cbn. rewrite NoDup_cons. split; [|by apply IH].
    intros (s & Hs & Hs')%list_elem_of_fmap. apply Hni, list_elem_of_fmap. exists s.
    split; [done|]. apply list_elem_of_In, List.filter_In in Hs' as [? _]. by apply list_elem_of_In.
  - intros (s & Hs & Hs')%list_elem_of_fmap. apply Hin in Hs' as [_ ?]. congruence.
  - clear Hin. intros port' Hne. unfold find_port. induction l as [|sub l IH]; [done|].
    cbn. unfold keep at 1. destruct (Z.eqb_spec (rs_port_id sub) port) as [E|E]; cbn [negb].
    + rewrite decide_False by congruence. rewrite IH. by destruct (list_find _ l) as [[]|].
    + cbn. case_decide; [done|]. fold keep.
      destruct (list_find (λ s, rs_port_id s = port') (List.filter keep l)) as [[]|],
        (list_find (λ s, rs_port_id s = port') l) as [[]|]; cbn in *; congruence.
  - intros (s & Hs & Hs')%list_elem_of_fmap.
    pose proof (List.filter_length_le keep l) as Hle.
    destruct (decide (length (List.filter keep l) = length l)) as [E|]; [|lia].
    apply List.filter_length_forallb in E. rewrite List.forallb_forall in E.
    specialize (E s). rewrite <- list_elem_of_In in E. specialize (E Hs').
    subst keep. cbn in E. apply negb_true_iff, Z.eqb_neq in E. congruence.
Qed.

Lemma rx_unsubscribe_ok rx kind port : rx_ok rx → rx_ok (rx_unsubscribe rx kind port).
Proof.
  intros Hrx. apply rx_ok_set; [done|]. destruct (proj1 Hrx kind) as (Hwf & Hnd & Hall).
  destruct (retain_ports (vec_list (subscriptions_for_kind rx kind)) port) as (Hin & Hnd' & _).
  split_and!; [by apply vec_retain_wf|by apply Hnd'|].
  apply Forall_forall. intros sub Hs. cbn in Hs.
  apply Hin in Hs as [Hs _]. rewrite Forall_forall in Hall. by apply Hall.
Qed.

Lemma rx_unsubscribe_sessions rx kind port kind' port' node :
  (kind', port') ≠ (kind, port) →
  session_at (rx_unsubscribe rx kind port) kind' port' node = session_at rx kind' port' node.
Proof.
  intros Hne. unfold session_at, rx_unsubscribe. rewrite subscriptions_set. case_decide; [|done].
  subst kind'. assert (port' ≠ port) as Hp by congruence. cbn [vec_list vec_retain].
  destruct (retain_ports (vec_list (subscriptions_for_kind rx kind)) port) as (_ & _ & _ & Hf & _).
  specialize (Hf port' Hp). cbn zeta in Hf.
  destruct (find_port (List.filter _ _) port') as [[]|],
    (find_port (vec_list (subscriptions_for_kind rx kind)) port') as [[]|]; cbn in *; congruence.
Qed.

(** Appending a subscription with a new port. *)
Lemma find_port_snoc l sub port : rs_port_id sub ∉ (rs_port_id <$> l) →
  find_port (l ++ [sub]) port =
    if decide (port = rs_port_id sub) then Some (length l, sub) else find_port l port.
Proof.
  intros Hni. unfold find_port. case_decide as Hp; subst.
  - apply list_find_Some. split_and!; [by rewrite lookup_app_r, Nat.sub_diag by lia|done|].
    intros j y Hj Hlt Hy. rewrite lookup_app_l in Hj by lia. apply Hni. rewrite <- Hy.
    by apply list_elem_of_fmap_2, (list_elem_of_lookup_2 _ j).
  - induction l as [|s l IH]; cbn; [by rewrite decide_False by congruence|].
    case_decide; [done|]. rewrite IH; [done|]. cbn in Hni. by apply not_elem_of_cons in Hni as [_ ?].
Qed.

(** Subscribing replaces the subscription of the port, if any, by one without
    sessions, and touches no other subscription. *)
Lemma rx_subscribe_spec alloc rx kind port size timeout :
  rx_ok rx → alloc_ok alloc → port_ok kind port →
  ∃ rx' r, rx_subscribe alloc rx kind port size timeout = Ret (rx', r) ∧ rx_ok rx' ∧
    rx_id rx' = rx_id rx ∧
    (∀ kind' port' node, (kind', port') ≠ (kind, port) →
       session_at rx' kind' port' node = session_at rx kind' port' node) ∧
    (∀ node, session_at rx' kind port node = None) ∧
    match r with
    | Ok _ => ∃ i sub, find_port (vec_list (subscriptions_for_kind rx' kind)) port = Some (i, sub) ∧
        rs_timeout sub = timeout ∧ size ≤ rs_payload_size_max sub
    | Err _ => (∃ n, alloc n = None) ∧
        find_port (vec_list (subscriptions_for_kind rx kind)) port = None ∧
        find_port (vec_list (subscriptions_for_kind rx' kind)) port = None
    end.
Proof.
  intros Hrx Ha Hport. unfold rx_subscribe.
  destruct (Subscription_new_spec timeout size port (rx_mtu (rx_unsubscribe rx kind port)))
    as (sub & -> & Hsub & Hp & Htm & Hsz & Hempty). cbn [mbind exec_bind].
  pose proof (rx_unsubscribe_ok rx kind port Hrx) as Hrx1.
  pose proof (retain_ports (vec_list (subscriptions_for_kind rx kind)) port)
    as (_ & _ & Hni & _ & Hlen). cbn zeta in Hni, Hlen.
  set (rx1 := rx_unsubscribe rx kind port) in *.
  assert (Hl : vec_list (subscriptions_for_kind rx1 kind) =
    List.filter (λ s, negb (rs_port_id s =? port)%Z) (vec_list (subscriptions_for_kind rx kind)))
    by (unfold rx1, rx_unsubscribe; by rewrite subscriptions_set, decide_True).
  assert (Hcap : vec_cap (subscriptions_for_kind rx1 kind) = vec_cap (subscriptions_for_kind rx kind))
    by (unfold rx1, rx_unsubscribe; by rewrite subscriptions_set, decide_True).
  rewrite <- Hl in Hni, Hlen.
  assert (Hnone : find_port (vec_list (subscriptions_for_kind rx1 kind)) port = None).
  { apply list_find_None, Forall_forall. intros s Hs <-. by apply Hni, list_elem_of_fmap_2. }
  assert (Hid : rx_id rx1 = rx_id rx) by done.
  assert (Hother : ∀ kind' port' node, (kind', port') ≠ (kind, port) →
    session_at rx1 kind' port' node = session_at rx kind' port' node)
    by (intros; by apply rx_unsubscribe_sessions).
  destruct (vec_push alloc (subscriptions_for_kind rx1 kind) sub) as [v|] eqn:E.
  - pose proof (vec_extend_wf _ _ _ _ Ha E) as Hwf. apply vec_extend_Some in E.
    eexists _, _. split_and!; [done|..].
    + apply rx_ok_set; [done|]. destruct (proj1 Hrx1 kind) as (_ & Hnd & Hall).
      split_and!; [done|rewrite E, fmap_app; apply NoDup_app; split_and!; [done| |apply NoDup_singleton]
        |rewrite E; apply Forall_app; split; [done|]; by rewrite Forall_singleton, Hp].
      intros x Hx Hx'. apply list_elem_of_singleton in Hx'. subst x. by rewrite Hp in Hx.
    + by destruct kind.
    + intros kind' port' node Hne. rewrite <- Hother by done. unfold session_at.
      rewrite subscriptions_set. case_decide; [|done]. subst kind'.
      rewrite E, find_port_snoc by (by rewrite Hp). rewrite decide_False; [done|congruence].
    + intros node. unfold session_at. rewrite subscriptions_set, decide_True by done.
      rewrite E, find_port_snoc by (by rewrite Hp). by rewrite Hp, decide_True.
    + rewrite subscriptions_set, decide_True by done. rewrite E, find_port_snoc by (by rewrite Hp).
      rewrite Hp, decide_True by done. eauto.
  - apply vec_extend_None in E as [Hfull Hno]. cbn [length] in *.
    eexists rx1, (Err _). split_and!; [done|done|done|done| |eauto| |done].
    + intros node. unfold session_at. by rewrite Hnone.
    + apply list_find_None, Forall_forall. intros s Hs Hsp.
      assert (port ∈ (rs_port_id <$> vec_list (subscriptions_for_kind rx kind))) as Hin
        by (rewrite <- Hsp; by apply list_elem_of_fmap_2).
      specialize (Hlen Hin). destruct (proj1 Hrx kind) as [Hwf _]. unfold vec_wf, vec_len in *. lia.
Qed.

Lemma try_map_Ret {A B} (g : A → exec B) (k : A → B) l :
  Forall (λ a, g a = Ret (k a)) l → try_map g l = Ret (k <$> l).
Proof. induction 1 as [|a l Ha _ IH]; cbn; [done|]. by rewrite Ha; cbn; rewrite IH. Qed.

(** The driver's view of a subscription. *)
Definition filter_of (kind : TransferKind) (port : PortId) : Subscription :=
  match kind with
  | KMessage => SubMessage port | KRequest => SubRequest port | KResponse => SubResponse port
  end.

(** Every subscribed port can be handed to the driver. *)
Lemma filter_subscriptions_total rx : rx_ok rx → ∃ subs, filter_subscriptions rx = Ret subs ∧
  ∀ s, s ∈ subs ↔ ∃ kind i sub,
    vec_list (subscriptions_for_kind rx kind) !! i = Some sub ∧ s = filter_of kind (rs_port_id sub).
Proof.
  intros (Hsubs & _). unfold filter_subscriptions.
  rewrite (try_map_Ret _ (λ sub, filter_of KMessage (rs_port_id sub)) (vec_list (subscriptions_message rx))).
  2: { eapply Forall_impl; [exact (proj2 (proj2 (Hsubs KMessage)))|]. intros s [_ Hp].
    unfold SubjectId_try_from_port. by rewrite SubjectId_try_from_valid. }
  cbn [mbind exec_bind]. rewrite (try_map_Ret _ (λ sub, filter_of KRequest (rs_port_id sub)) (vec_list (subscriptions_request rx))).
  2: { eapply Forall_impl; [exact (proj2 (proj2 (Hsubs KRequest)))|]. intros s [_ Hp].
    unfold ServiceId_try_from_port. by rewrite ServiceId_try_from_valid. }
  cbn [mbind exec_bind]. rewrite (try_map_Ret _ (λ sub, filter_of KResponse (rs_port_id sub)) (vec_list (subscriptions_response rx))).
  2: { eapply Forall_impl; [exact (proj2 (proj2 (Hsubs KResponse)))|]. intros s [_ Hp].
    unfold ServiceId_try_from_port. by rewrite ServiceId_try_from_valid. }
  cbn [mbind exec_bind]. eexists. split; [done|]. intros s.
  rewrite !elem_of_app, !list_elem_of_fmap. setoid_rewrite list_elem_of_lookup. split.
  - intros [(x & -> & i & ?)|[(x & -> & i & ?)|(x & -> & i & ?)]];
      [by exists KMessage, i, x|by exists KRequest, i, x|by exists KResponse, i, x].
  - intros ([] & i & x & Hi & ->); cbn in Hi; [left|right; left|right; right]; exists x; eauto.
Qed.

(** ** Clean-up *)

Lemma clean_session_Some now timeout slot se :
  clean_session now timeout slot = Some se ↔
  slot = Some se ∧ dur_gt (duration_since now (se_transfer_timestamp se)) timeout = false.
Proof.
  unfold clean_session. destruct slot as [s|]; [|by split; [|intros [? _]]].
  destruct (dur_gt _ _) eqn:E; split.
  - done.
  - intros [[= ->] ?]. congruence.
  - by intros [= ->].
  - by intros [[= ->] _].
Qed.

Lemma clean_subs_for rx now kind :
  subscriptions_for_kind (clean_expired_sessions rx now) kind =
  clean_sessions_from_subscriptions now (subscriptions_for_kind rx kind).
Proof. by destruct kind. Qed.

Lemma clean_expired_ok rx now : rx_ok rx → rx_ok (clean_expired_sessions rx now).
Proof.
  intros (Hs & Ht & He). split; [|done]. intros kind. rewrite clean_subs_for.
  destruct (Hs kind) as (Hwf & Hnd & Hall). split_and!.
  - unfold vec_wf in *. cbn. by rewrite length_fmap.
  - cbn. by rewrite <- list_fmap_compose.
  - cbn. apply Forall_fmap. eapply Forall_impl; [exact Hall|]. intros s [[Hl Hse] Hp].
    split; [|done]. split; cbn; [by rewrite length_fmap|]. intros n se.
    rewrite list_lookup_fmap, fmap_Some. intros (slot & Hsl & Hc).
    symmetry in Hc. apply clean_session_Some in Hc as [-> _]. by apply (Hse n).
Qed.

Lemma find_port_map (g : RxSubscription I D → RxSubscription I D) (l : list (RxSubscription I D)) port :
  (∀ s, rs_port_id (g s) = rs_port_id s) →
  find_port (g <$> l) port = prod_map id g <$> find_port l port.
Proof.
  intros Hg. unfold find_port. induction l as [|s l IH]; [done|]. cbn. rewrite Hg.
  case_decide; [done|]. cbn in IH. rewrite IH. by destruct (list_find _ l) as [[]|].
Qed.

(** A session survives the clean-up exactly when it is within its timeout. *)
Lemma clean_session_at rx now kind port node :
  session_at (clean_expired_sessions rx now) kind port node =
  match find_port (vec_list (subscriptions_for_kind rx kind)) port with
  | Some (_, sub) => clean_session now (rs_timeout sub) (session_at rx kind port node)
  | None => None
  end.
Proof.
  unfold session_at. rewrite clean_subs_for. cbn [clean_sessions_from_subscriptions vec_list].
  rewrite find_port_map by done.
  destruct (find_port _ _) as [[i sub]|]; [|done]. cbn. rewrite list_lookup_fmap.
  by destruct (rs_sessions sub !! node) as [[]|].
Qed.

(** ** Accepting a frame *)

Lemma accept_frame_spec alloc rx f : rx_ok rx → (∀ k, alloc_ok (alloc k)) → frame_ok f →
  ∃ rx' r, accept_frame alloc rx f = Ret (rx', r) ∧ rx_ok rx' ∧ rx_id rx' = rx_id rx ∧
    (∀ kind port node,
       (∀ h tail, frame_sanity_check f = Ret (Some (h, tail)) →
          (kind, port, Some node) ≠ (from_header h, port_id h, Z.to_nat <$> source h)) →
       session_at rx' kind port node = session_at rx kind port node) ∧
    (∀ kind port, config_at rx' kind port = config_at rx kind port) ∧
    match r with
    | Err _ => alloc_fails alloc
    | Ok None => True
    | Ok (Some tr) => ∃ h tail ts i sub, frame_sanity_check f = Ret (Some (h, tail)) ∧
        tr_header tr = set_timestamp ts h ∧ addressed rx h ∧ bytes_ok (tr_payload tr) ∧
        find_port (vec_list (subscriptions_for_kind rx (from_header h))) (port_id h) = Some (i, sub) ∧
        (source h ≠ None → length (tr_payload tr) ≤ rs_payload_size_max sub)
    end.
Proof.
  intros Hrx Ha Hf. unfold accept_frame.
  destruct (frame_sanity_check_spec f Hf) as (r & Hr & Hpost). rewrite Hr. cbn [mbind exec_bind].
  destruct r as [[h tail]|].
  2: { eexists _, (Ok None). split_and!; [done|by apply rx_ok_count_error|done|by intros []|by intros []|done]. }
  destruct Hpost as (Hh & _ & c & t & Hfd & Hc & Ht & _ & -> & _).
  destruct (destined_here rx h) eqn:Ed.
  2: { eexists _, (Ok None). split_and!; done. }
  apply destined_here_spec in Ed. destruct (accept_sane_frame_spec alloc rx f h c t Hrx Ha Hh Hfd Hc Ht)
    as (rx' & r & Hacc & Hrx' & Hid & Hiso & Hconf & Hr'). eexists rx', r. split_and!; [done|done|done| |done|].
  - intros kind port node Hne. apply Hiso. by eapply Hne.
  - destruct r as [[tr|]|]; [|done..]. destruct Hr' as ([ts Hts] & Hb & i & sub & Hfind & Hlen).
    by eexists h, _, ts, i, sub.
Qed.
End invariants.

(** ** Claims *)

Section claims.
Context {I D : Type} `{Instant I D}.

(** C2: a receiver in a consistent state never panics on a frame from the bus,
    whatever its identifier and contents, and stays consistent: every buffer keeps
    within the capacity allocated when its session began, every session slot keeps
    its place, ports stay unique. An error is reported only when the allocator
    failed. *)
Theorem accept_frame_safe (alloc : nat → allocator) (rx : CanReceiver I D) (f : Frame I) :
  rx_ok rx → (∀ k, alloc_ok (alloc k)) → frame_ok f →
  ∃ rx' r, accept_frame alloc rx f = Ret (rx', r) ∧ rx_ok rx' ∧
    (∀ e, r = Err e → alloc_fails alloc).
Proof.
  intros Hrx Ha Hf. destruct (accept_frame_spec alloc rx f Hrx Ha Hf)
    as (rx' & r & Hacc & Hrx' & _ & _ & _ & Hr). eexists rx', r. split_and!; [done..|].
  by intros e ->.
Qed.

(** C18: a frame changes at most the session of its own transfer kind, port and
    source node: frames of different transfers may be interleaved in any way. *)
Theorem accept_frame_isolation (alloc : nat → allocator) (rx rx' : CanReceiver I D) (f : Frame I) r
    kind port node :
  rx_ok rx → (∀ k, alloc_ok (alloc k)) → frame_ok f →
  accept_frame alloc rx f = Ret (rx', r) →
  session_at rx' kind port node ≠ session_at rx kind port node →
  ∃ h tail src, frame_sanity_check f = Ret (Some (h, tail)) ∧ source h = Some src ∧
    kind = from_header h ∧ port = port_id h ∧ node = Z.to_nat src.
Proof.
  intros Hrx Ha Hf Hacc Hne. destruct (accept_frame_spec alloc rx f Hrx Ha Hf)
    as (rx1 & r1 & Hacc1 & _ & _ & Hiso & _). rewrite Hacc in Hacc1. injection Hacc1 as <- <-.
  destruct (frame_sanity_check f) as [[[h tail]|]|] eqn:Es; [|by destruct Hne; apply Hiso..].
  destruct (decide ((kind, port, Some node) = (from_header h, port_id h, Z.to_nat <$> source h))) as [E|E].
  - destruct (source h) as [src|] eqn:Esrc; [|done]. injection E as -> -> ->. by exists h, tail, src.
  - destruct Hne. apply Hiso. by intros ? ? [= <- <-].
Qed.

(** C25: a delivered transfer was asked for: it has the header that its last frame
    carries, is a message or is addressed to this node, there is a subscription for
    its kind and port, and, unless it is anonymous, its payload fits the
    subscription's limit. *)
Theorem accept_frame_delivers_subscribed (alloc : nat → allocator) (rx rx' : CanReceiver I D)
    (f : Frame I) tr :
  rx_ok rx → (∀ k, alloc_ok (alloc k)) → frame_ok f →
  accept_frame alloc rx f = Ret (rx', Ok (Some tr)) →
  ∃ h tail ts i sub, frame_sanity_check f = Ret (Some (h, tail)) ∧
    tr_header tr = set_timestamp ts h ∧ addressed rx h ∧ bytes_ok (tr_payload tr) ∧
    find_port (vec_list (subscriptions_for_kind rx (from_header h))) (port_id h) = Some (i, sub) ∧
    (source h ≠ None → length (tr_payload tr) ≤ rs_payload_size_max sub).
Proof.
  intros Hrx Ha Hf Hacc. destruct (accept_frame_spec alloc rx f Hrx Ha Hf)
    as (rx1 & r1 & Hacc1 & _ & _ & _ & _ & Hr). rewrite Hacc in Hacc1. by injection Hacc1 as <- <-.
Qed.

(** Subscribing never panics and keeps the receiver consistent. On success the
    port has a fresh subscription with room for the payload asked for; a failure
    means that memory ran out, and then no earlier subscription to the port has
    been lost. Sessions of other ports and kinds are untouched. *)
Theorem subscribe_correct alloc (rx : CanReceiver I D) kind port size timeout :
  rx_ok rx → alloc_ok alloc → port_ok kind port →
  ∃ rx' r, rx_subscribe alloc rx kind port size timeout = Ret (rx', r) ∧ rx_ok rx' ∧
    (∀ kind' port' node, (kind', port') ≠ (kind, port) →
       session_at rx' kind' port' node = session_at rx kind' port' node) ∧
    (∀ node, session_at rx' kind port node = None) ∧
    match r with
    | Ok _ => ∃ i sub, find_port (vec_list (subscriptions_for_kind rx' kind)) port = Some (i, sub) ∧
        rs_timeout sub = timeout ∧ size ≤ rs_payload_size_max sub
    | Err _ => (∃ n, alloc n = None) ∧
        find_port (vec_list (subscriptions_for_kind rx kind)) port = None
    end.
Proof.
  intros Hrx Ha Hp. destruct (rx_subscribe_spec alloc rx kind port size timeout Hrx Ha Hp)
    as (rx' & r & Hs & Hrx' & _ & Hother & Hempty & Hr). exists rx', r. split_and!; [done..|].
  destruct r; [done|]. by destruct Hr as (? & ? & _).
Qed.

(** The clean-up that starts every [receive] drops exactly the sessions whose
    age is above their subscription's timeout, as long as no session is older than
    the wrap-around period of the clock. *)
Theorem clean_expired_sessions_exact `{!InstantSpec I D} (rx : CanReceiver I D) now start kind port
    node i sub se :
  find_port (vec_list (subscriptions_for_kind rx kind)) port = Some (i, sub) →
  session_at rx kind port node = Some se → se_transfer_timestamp se = clock start →
  (0 ≤ now - start < period)%Z →
  session_at (clean_expired_sessions rx (clock now)) kind port node =
    if (now - start <=? dur_us (rs_timeout sub))%Z then Some se else None.
Proof.
  intros Hfind Hse Hts Hper. rewrite clean_session_at, Hfind, Hse. cbn.
  rewrite Hts, dur_gt_spec, since_spec by done. repeat case_cmp; done || lia.
Qed.

(** A receiver can always tell the driver its filters: the conversion of stored
    ports back to subject and service identifiers never panics, and the driver is
    given exactly the receiver's subscriptions. *)
Theorem apply_frame_filters_exact {Drv E} `{ReceiveDriver Drv I E} (rx : CanReceiver I D)
    (driver : Drv) :
  rx_ok rx → ∃ subs, apply_frame_filters (E := E) rx driver = Ret (drv_apply_filters driver (rx_id rx) subs) ∧
    ∀ s, s ∈ subs ↔ ∃ kind i sub,
      vec_list (subscriptions_for_kind rx kind) !! i = Some sub ∧ s = filter_of kind (rs_port_id sub).
Proof.
  intros Hrx. destruct (filter_subscriptions_total rx Hrx) as (subs & Hs & Hin). exists subs.
  unfold apply_frame_filters. by rewrite Hs.
Qed.
End claims.

(** ** The receive loop *)

(** What [receive] relies on: the driver delivers well-formed frames, and only
    finitely many before it has none left. *)
Class ReceiveDriverSpec (Drv I E : Type) `{ReceiveDriver Drv I E} := {
  drv_pending : Drv → nat;
  drv_receive_spec d now :
    match drv_receive d now with
    | (d', Ok f) => frame_ok f ∧ drv_pending d' < drv_pending d
    | _ => True
    end;
}.

Section receive.
Context {I D Drv E : Type} `{Instant I D} `{ReceiveDriverSpec Drv I E}.

(** [receive] terminates within one iteration per pending frame, without a
    panic and with the receiver consistent. It reports no transfer only when the
    driver has no frame left, an out-of-memory error only when the allocator failed,
    and a driver error only when the driver reported it. *)
Theorem receive_terminates fuel alloc (rx : CanReceiver I D) (drv : Drv) now :
  rx_ok rx → (∀ n k, alloc_ok (alloc n k)) → drv_pending drv < fuel →
  ∃ rx' drv' r, receive fuel alloc rx now drv = Some (Ret (rx', drv', r)) ∧ rx_ok rx' ∧
    match r with
    | Ok (Some tr) => bytes_ok (tr_payload tr)
    | Ok None => ∃ d, drv_receive d now = (drv', Err WouldBlock)
    | Err (CanMemory _) => ∃ n, alloc_fails (alloc n)
    | Err (CanDriver e) => ∃ d, drv_receive d now = (drv', Err (Other e))
    end.
Proof.
  intros Hrx Ha. unfold receive. apply (clean_expired_ok rx now) in Hrx. revert Hrx.
  generalize (clean_expired_sessions rx now). clear rx. revert drv.
  induction fuel as [|fuel IH]; intros drv rx Hrx Hfuel; [lia|]. cbn [receive_loop].
  pose proof (drv_receive_spec drv now) as Hd. destruct (drv_receive drv now) as [drv' r] eqn:Er.
  destruct r as [f|[|e]]; [|by eexists rx, drv', (Ok None); eauto|by eexists rx, drv', (Err (CanDriver e)); eauto].
  destruct Hd as [Hf Hlt].
  destruct (accept_frame_spec (alloc fuel) rx f Hrx (Ha fuel) Hf) as (rx' & r & -> & Hrx' & _ & _ & _ & Hr).
  destruct r as [[tr|]|e].
  - eexists rx', drv', (Ok (Some tr)). split_and!; [done..|]. by destruct Hr as (? & ? & ? & ? & ? & _ & _ & _ & ? & _).
  - apply IH; [done|lia].
  - eexists rx', drv', (Err (CanMemory e)). eauto.
Qed.
End receive.

(** ** Witnesses *)

Module RxExample.
Definition us (z : Z) := mkMicroseconds32 z.
Definition dur (z : Z) := mkMicrosecondDuration32 z.
Definition alloc : nat → allocator := λ _, Some.

(** Node 42 on classic CAN, subscribed to subject 7509 with payloads up to 12 bytes. *)
Definition rx : CanReceiver Microseconds32 MicrosecondDuration32 :=
  match rx_subscribe Some (CanReceiver_new 42%Z Can8) KMessage 7509%Z 12 (dur 1000000) with
  | Ret (rx, _) => rx
  | Panic => CanReceiver_new_anonymous Can8
  end.

(** A message of one frame from node 7 on that subject. *)
Definition frame : Frame Microseconds32 := mkFrame (us 5) 0x107d5507%Z [1; 2; 0xe0]%Z.
(** The first frame of a longer one. *)
Definition first : Frame Microseconds32 := mkFrame (us 5) 0x107d5507%Z [1; 2; 3; 4; 5; 6; 7; 0xa0]%Z.

Lemma alloc_valid k : alloc_ok (alloc k).
Proof. intros n c. unfold alloc. intros [= <-]. lia. Qed.

Lemma new_ok id m : rx_ok (new_inner (I := Microseconds32) (D := MicrosecondDuration32) id m).
Proof.
  split_and!; [|done..]. intros []; (split_and!; [unfold vec_wf; cbn; lia|apply NoDup_nil_2|apply Forall_nil_2]).
Qed.

Lemma rx_valid : rx_ok rx.
Proof.
  destruct (rx_subscribe_spec (I := Microseconds32) Some (CanReceiver_new 42%Z Can8) KMessage 7509%Z 12 (dur 1000000))
    as (rx' & r & Hs & Hok & _); [apply new_ok|apply (alloc_valid 0)| |].
  - cbn. unfold SubjectId_valid, VALID_SUBJECT_IDS_end. lia.
  - unfold rx. by rewrite Hs.
Qed.

Lemma frame_valid f : f = frame ∨ f = first → frame_ok f.
Proof.
  intros [-> | ->]; unfold frame_ok, CanId_valid, frame, first; cbn;
    (split_and!; [vm_compute; intuition congruence|repeat constructor; unfold byte_ok, is_u; lia|vm_compute; lia]).
Qed.

Example delivered : accept_frame alloc rx frame =
  Ret (increment_transfer_count rx,
       Ok (Some (mkTransfer (Message (mkMessageHeader (us 5) 0%Z Nominal 7509%Z (Some 7%Z))) [1; 2]%Z))).
Proof. vm_compute. reflexivity. Qed.
End RxExample.

Lemma accept_frame_safe_witness :
  ∃ rx' r, accept_frame RxExample.alloc RxExample.rx RxExample.frame = Ret (rx', r) ∧ rx_ok rx'.
Proof.
  destruct (accept_frame_safe RxExample.alloc RxExample.rx RxExample.frame) as (rx' & r & ? & ? & _);
    [apply RxExample.rx_valid|apply RxExample.alloc_valid|apply RxExample.frame_valid; by left|].
  by exists rx', r.
Defined.

Lemma accept_frame_isolation_witness :
  ∃ rx' r h tail src, accept_frame RxExample.alloc RxExample.rx RxExample.first = Ret (rx', r) ∧
    session_at rx' KMessage 7509%Z 7 ≠ session_at RxExample.rx KMessage 7509%Z 7 ∧
    frame_sanity_check RxExample.first = Ret (Some (h, tail)) ∧ source h = Some src.
Proof.
  destruct (accept_frame RxExample.alloc RxExample.rx RxExample.first) as [[rx' r]|] eqn:E.
  2: { vm_compute in E. discriminate E. }
  assert (Hne : session_at rx' KMessage 7509%Z 7 ≠ session_at RxExample.rx KMessage 7509%Z 7).
  { vm_compute in E. injection E as <- <-. vm_compute. discriminate. }
  destruct (accept_frame_isolation RxExample.alloc RxExample.rx rx' RxExample.first r KMessage 7509%Z 7)
    as (h & tail & src & Hs & Hsrc & _);
    [apply RxExample.rx_valid|apply RxExample.alloc_valid|apply RxExample.frame_valid; by right|exact E|exact Hne|].
  by exists rx', r, h, tail, src.
Defined.

Lemma accept_frame_delivers_subscribed_witness :
  ∃ rx' tr h tail, accept_frame RxExample.alloc RxExample.rx RxExample.frame = Ret (rx', Ok (Some tr)) ∧
    frame_sanity_check RxExample.frame = Ret (Some (h, tail)) ∧ addressed RxExample.rx h.
Proof.
  destruct (accept_frame_delivers_subscribed _ _ _ _ _ RxExample.rx_valid RxExample.alloc_valid
    (RxExample.frame_valid _ (or_introl eq_refl)) RxExample.delivered)
    as (h & tail & ts & i & sub & Hs & _ & Hd & _).
  eexists _, _, h, tail. split; [exact RxExample.delivered|]. split; [exact Hs|exact Hd].
Defined.

Lemma subscribe_correct_witness :
  ∃ rx' r, rx_subscribe Some RxExample.rx KMessage 7509%Z 100 (RxExample.dur 7) = Ret (rx', r) ∧ rx_ok rx'.
Proof.
  destruct (subscribe_correct Some RxExample.rx KMessage 7509%Z 100 (RxExample.dur 7))
    as (rx' & r & ? & ? & _); [apply RxExample.rx_valid|apply (RxExample.alloc_valid 0)| |by exists rx', r].
  cbn. unfold SubjectId_valid, VALID_SUBJECT_IDS_end. lia.
Defined.

(** A session that began just before the clock wrapped around. *)
Definition clean_example : CanReceiver Microseconds32 MicrosecondDuration32 :=
  match accept_frame RxExample.alloc RxExample.rx
          (mkFrame (clock (2 ^ 32 - 10)%Z) (frame_id RxExample.first) (frame_data RxExample.first)) with
  | Ret (rx, _) => rx
  | Panic => RxExample.rx
  end.

Lemma clean_expired_sessions_exact_witness :
  session_at (clean_expired_sessions clean_example (clock (2 ^ 32 + 100)%Z)) KMessage 7509%Z 7 ≠ None ∧
  session_at (clean_expired_sessions clean_example (clock (2 ^ 32 + 1000000)%Z)) KMessage 7509%Z 7 = None.
Proof.
  destruct (find_port (vec_list (subscriptions_for_kind clean_example KMessage)) 7509%Z) as [[i sub]|] eqn:E.
  2: { vm_compute in E. discriminate E. }
  destruct (session_at clean_example KMessage 7509%Z 7) as [se|] eqn:Ese.
  2: { vm_compute in Ese. discriminate Ese. }
  assert (Hts : se_transfer_timestamp se = clock (2 ^ 32 - 10)%Z).
  { vm_compute in Ese. injection Ese as <-. vm_compute. reflexivity. }
  assert (Htm : dur_us (rs_timeout sub) = 1000000%Z).
  { vm_compute in E. injection E as <- <-. vm_compute. reflexivity. }
  split;
    rewrite (clean_expired_sessions_exact clean_example _ (2 ^ 32 - 10)%Z KMessage 7509%Z 7 i sub se E Ese Hts)
      by (split; vm_compute; congruence); rewrite Htm; cbn; discriminate || reflexivity.
Defined.

(** A driver that reads from a list of frames. *)
Definition ListDriver := list (Frame Microseconds32).
#[local] Instance list_driver : ReceiveDriver ListDriver Microseconds32 unit := {
  drv_receive l _ := match l with [] => ([], Err WouldBlock) | f :: l' => (l', Ok f) end;
  drv_apply_filters l _ _ := l;
  drv_apply_accept_all l := l;
}.

(** A driver over frames that are known to be well-formed. *)
Definition OkDriver := { l : ListDriver | Forall frame_ok l }.
#[local] Instance ok_driver : ReceiveDriver OkDriver Microseconds32 unit := {
  drv_receive d _ :=
    match d with
    | [] ↾ _ => (d, Err WouldBlock)
    | (f :: l) ↾ H => (l ↾ Forall_inv_tail H, Ok f)
    end;
  drv_apply_filters d _ _ := d;
  drv_apply_accept_all d := d;
}.
#[local] Program Instance ok_driver_spec : ReceiveDriverSpec OkDriver Microseconds32 unit := {
  drv_pending d := length (`d);
}.
Next Obligation.
  intros [[|f l] H] now; [done|]. cbn. split; [by apply Forall_cons in H as [? _]|lia].
Qed.

Lemma apply_frame_filters_exact_witness :
  apply_frame_filters RxExample.rx ([] : ListDriver) = Ret [].
Proof.
  destruct (apply_frame_filters_exact RxExample.rx ([] : ListDriver) RxExample.rx_valid)
    as (subs & Hs & _). exact Hs.
Defined.

Lemma receive_frames_valid : Forall frame_ok [RxExample.first; RxExample.frame].
Proof. rewrite !Forall_cons. split_and!; [apply RxExample.frame_valid; by right|apply RxExample.frame_valid; by left|done]. Qed.

Lemma receive_terminates_witness :
  ∃ rx' drv' r, receive 3 (λ _, RxExample.alloc) RxExample.rx (RxExample.us 6)
    ([RxExample.first; RxExample.frame] ↾ receive_frames_valid : OkDriver) = Some (Ret (rx', drv', r)) ∧ rx_ok rx'.
Proof.
  destruct (receive_terminates 3 (λ _, RxExample.alloc) RxExample.rx
    ([RxExample.first; RxExample.frame] ↾ receive_frames_valid : OkDriver) (RxExample.us 6))
    as (rx' & drv' & r & ? & ? & _);
    [apply RxExample.rx_valid|intros; apply RxExample.alloc_valid|cbn; lia|by exists rx', drv', r].
Defined.
