(* ===== verification/CanQueue.v ===== *)
(** * Queues of outgoing frames

    Models [canadensis_can/src/queue/mod.rs] (the [FrameQueue] trait, the driver
    that joins a queue and a hardware driver, [flush_single_queue]),
    [queue/array_queue.rs] (a ring buffer that keeps frames in bus-priority order),
    [queue/single_frame_queue.rs] and [queue/queue_only_driver.rs], and the
    [TransmitDriver] trait of [driver.rs].

    Operations that index the ring buffer are in [exec]; the fuel of the loops is
    the number of slots (or, for [flush_single_queue], an argument), and running out of
    it counts as a panic, so that a theorem that an operation returns also shows
    that its loop ends. *)

From stdpp Require Import sorting.
From S2P Require Import Prelude CoreTypes Time Transfer Subscriptions CanTypes CanRx.

(** ** Interfaces *)

Class FrameQueue (Q I : Type) := {
  fq_try_reserve : Q → usize → exec (Q * result OutOfMemoryError unit);
  fq_shrink_to_fit : Q → Q;
  fq_push_frame : Q → Frame I → exec (Q * result OutOfMemoryError unit);
  fq_peek_frame : Q → exec (option (Frame I));
  fq_pop_frame : Q → exec (Q * option (Frame I));
  fq_return_frame : Q → Frame I → exec (Q * result OutOfMemoryError unit);
}.

Class TransmitDriver (Drv I E : Type) := {
  td_try_reserve : Drv → usize → exec (Drv * result OutOfMemoryError unit);
  td_transmit : Drv → Frame I → I → exec (Drv * result (nb_error E) (option (Frame I)));
  td_flush : Drv → I → exec (Drv * result (nb_error E) unit);
}.

(** ** The abstract queue: frames in order of their CAN identifiers *)

Section spec.
Context {I : Type}.
Implicit Types (f g : Frame I) (l : list (Frame I)).

Definition id_le f g : Prop := (frame_id f ≤ frame_id g)%Z.

(** Behind all frames with an equal or lesser identifier. *)
Fixpoint insert_behind f l : list (Frame I) :=
  match l with
  | [] => [f]
  | g :: l' => if (frame_id g <=? frame_id f)%Z then g :: insert_behind f l' else f :: g :: l'
  end.

(** In front of all frames with an equal or greater identifier. *)
Fixpoint insert_front f l : list (Frame I) :=
  match l with
  | [] => [f]
  | g :: l' => if (frame_id f <=? frame_id g)%Z then f :: g :: l' else g :: insert_front f l'
  end.
End spec.

(** What a queue promises: its contents are ordered, the two insertions place the
    frame where the trait's documentation says, and [fq_room] insertions are sure
    to succeed. *)
Class FrameQueueSpec (Q I : Type) `{FrameQueue Q I} := {
  fq_inv : Q → Prop;
  fq_contents : Q → list (Frame I);
  fq_room : Q → nat;
  fq_sorted q : fq_inv q → StronglySorted id_le (fq_contents q);
  fq_try_reserve_spec q n : fq_inv q →
    ∃ q' r, fq_try_reserve q n = Ret (q', r) ∧ fq_inv q' ∧ fq_contents q' = fq_contents q ∧
      (is_ok r = true → n ≤ fq_room q');
  fq_push_spec q f : fq_inv q →
    ∃ q' r, fq_push_frame q f = Ret (q', r) ∧ fq_inv q' ∧
      (0 < fq_room q → is_ok r = true) ∧
      if is_ok r then fq_contents q' = insert_behind f (fq_contents q) ∧ fq_room q ≤ S (fq_room q')
      else fq_contents q' = fq_contents q;
  fq_peek_spec q : fq_inv q → fq_peek_frame q = Ret (head (fq_contents q));
  fq_pop_spec q : fq_inv q →
    ∃ q', fq_pop_frame q = Ret (q', head (fq_contents q)) ∧ fq_inv q' ∧
      fq_contents q' = tail (fq_contents q) ∧ (fq_contents q ≠ [] → fq_room q < fq_room q');
  fq_return_spec q f : fq_inv q →
    ∃ q' r, fq_return_frame q f = Ret (q', r) ∧ fq_inv q' ∧
      (0 < fq_room q → is_ok r = true) ∧
      if is_ok r then fq_contents q' = insert_front f (fq_contents q) ∧ fq_room q ≤ S (fq_room q')
      else fq_contents q' = fq_contents q;
}.

(** ** The ring buffer *)

Section array_queue.
Context {I : Type} `{Inhabited I} (N : nat).

Record ArrayQueue := mkArrayQueue {
  aq_items : list (Frame I);
  aq_head : usize;
  aq_length : usize;
}.

Definition Frame_default : Frame I := mkFrame inhabitant 0%Z [].

Definition ArrayQueue_new : ArrayQueue := mkArrayQueue (replicate N Frame_default) 0 0.
Definition aq_len (q : ArrayQueue) : usize := aq_length q.
Definition aq_is_empty (q : ArrayQueue) : bool := aq_length q =? 0.
Definition aq_capacity (q : ArrayQueue) : usize := N.

(** Indices stay below [2 N], which fits [usize] because the items are in memory:
    [wrapping_add] never wraps. *)
Definition increment_head (q : ArrayQueue) : ArrayQueue :=
  if N =? 0 then q else mkArrayQueue (aq_items q) ((aq_head q + 1) mod N) (aq_length q).
Definition decrement_head (q : ArrayQueue) : ArrayQueue :=
  if N =? 0 then q else mkArrayQueue (aq_items q) ((aq_head q + (N - 1)) mod N) (aq_length q).

(** [a % N], which panics when [N] is zero. *)
Definition mod_N (a : usize) : exec usize := if N =? 0 then Panic else Ret (a mod N).

Definition aq_try_reserve (q : ArrayQueue) (additional : usize)
    : exec (ArrayQueue * result OutOfMemoryError unit) :=
  free_capacity ← usize_sub N (aq_length q);
  Ret (q, if additional <=? free_capacity then Ok tt else Err mkOutOfMemoryError).

(** Moves the inserted frame towards the front until the frame ahead of it has a
    lesser or equal identifier. *)
Fixpoint move_up (fuel : nat) (id : CanId) (head inserted_index : usize) (items : list (Frame I))
    : exec (list (Frame I)) :=
  match fuel with
  | 0 => Panic
  | S fuel' =>
      if inserted_index =? head then Ret items
      else
        ahead ← mod_N (inserted_index + (N - 1));
        f ← index items ahead;
        if (frame_id f <=? id)%Z then Ret items
        else
          items ← swap items inserted_index ahead;
          move_up fuel' id head ahead items
  end.

Definition aq_push_frame (q : ArrayQueue) (frame : Frame I)
    : exec (ArrayQueue * result OutOfMemoryError unit) :=
  if aq_length q =? N then Ret (q, Err mkOutOfMemoryError)
  else
    tail_index ← mod_N (aq_head q + aq_length q);
    items ← assign (aq_items q) tail_index frame;
    items ← move_up (S N) (frame_id frame) (aq_head q) tail_index items;
    Ret (mkArrayQueue items (aq_head q) (aq_length q + 1), Ok tt).

Definition aq_peek_frame (q : ArrayQueue) : exec (option (Frame I)) :=
  if negb (aq_length q =? 0) then Some <$> index (aq_items q) (aq_head q) else Ret None.

Definition aq_pop_frame (q : ArrayQueue) : exec (ArrayQueue * option (Frame I)) :=
  if negb (aq_length q =? 0) then
    (* [mem::take] leaves a default frame in the slot *)
    frame ← index (aq_items q) (aq_head q);
    let q := mkArrayQueue (<[aq_head q := Frame_default]> (aq_items q)) (aq_head q) (aq_length q) in
    let q := increment_head q in
    Ret (mkArrayQueue (aq_items q) (aq_head q) (aq_length q - 1), Some frame)
  else Ret (q, None).

(** Moves the inserted frame towards the back until the frame behind it has a
    greater or equal identifier. *)
Fixpoint move_down (fuel : nat) (id : CanId) (tail inserted_index : usize) (items : list (Frame I))
    : exec (list (Frame I)) :=
  match fuel with
  | 0 => Panic
  | S fuel' =>
      if inserted_index =? tail then Ret items
      else
        behind ← mod_N (inserted_index + 1);
        f ← index items behind;
        if (id <=? frame_id f)%Z then Ret items
        else
          items ← swap items inserted_index behind;
          move_down fuel' id tail behind items
  end.

Definition aq_return_frame (q : ArrayQueue) (frame : Frame I)
    : exec (ArrayQueue * result OutOfMemoryError unit) :=
  if aq_length q =? N then Ret (q, Err mkOutOfMemoryError)
  else
    let q := decrement_head q in
    items ← assign (aq_items q) (aq_head q) frame;
    let length := aq_length q + 1 in
    tail ← mod_N (aq_head q + (length - 1));
    items ← move_down (S N) (frame_id frame) tail (aq_head q) items;
    Ret (mkArrayQueue items (aq_head q) length, Ok tt).

#[local] Instance array_queue : FrameQueue ArrayQueue I := {
  fq_try_reserve := aq_try_reserve;
  fq_shrink_to_fit q := q;
  fq_push_frame := aq_push_frame;
  fq_peek_frame := aq_peek_frame;
  fq_pop_frame := aq_pop_frame;
  fq_return_frame := aq_return_frame;
}.
End array_queue.
Arguments ArrayQueue : clear implicits.

(** ** A queue of one frame *)

Section single_frame_queue.
Context {I : Type}.

Record SingleFrameQueue := mkSingleFrameQueue { sfq_frame : option (Frame I) }.

Definition SingleFrameQueue_new : SingleFrameQueue := mkSingleFrameQueue None.

Definition sfq_try_reserve (q : SingleFrameQueue) (additional : usize)
    : exec (SingleFrameQueue * result OutOfMemoryError unit) :=
  Ret (q, match sfq_frame q with
          | None => if additional =? 1 then Ok tt else Err mkOutOfMemoryError
          | Some _ => Err mkOutOfMemoryError
          end).

Definition sfq_push_frame (q : SingleFrameQueue) (frame : Frame I)
    : exec (SingleFrameQueue * result OutOfMemoryError unit) :=
  Ret (match sfq_frame q with
       | None => (mkSingleFrameQueue (Some frame), Ok tt)
       | Some _ => (q, Err mkOutOfMemoryError)
       end).

Definition sfq_pop_frame (q : SingleFrameQueue) : exec (SingleFrameQueue * option (Frame I)) :=
  Ret (mkSingleFrameQueue None, sfq_frame q).

Definition sfq_return_frame (q : SingleFrameQueue) (frame : Frame I)
    : exec (SingleFrameQueue * result OutOfMemoryError unit) :=
  Ret (match sfq_frame q with
       | Some _ => (q, Err mkOutOfMemoryError)
       | None => (mkSingleFrameQueue (Some frame), Ok tt)
       end).

#[export] Instance single_frame_queue : FrameQueue SingleFrameQueue I := {
  fq_try_reserve := sfq_try_reserve;
  fq_shrink_to_fit q := q;
  fq_push_frame := sfq_push_frame;
  fq_peek_frame q := Ret (sfq_frame q);
  fq_pop_frame := sfq_pop_frame;
  fq_return_frame := sfq_return_frame;
}.
End single_frame_queue.
Arguments SingleFrameQueue : clear implicits.

(** ** A queue and a driver *)

Section single_queue_driver.
Context {I D Q Drv E : Type} `{Instant I D} `{FrameQueue Q I} `{TransmitDriver Drv I E}.

(** The deadline of the frame is in the past. *)
Definition frame_is_expired (frame : Frame I) (now : I) : bool :=
  match overflow_safe_compare (frame_timestamp frame) now with Lt => true | _ => false end.

Fixpoint flush_single_queue (fuel : nat) (queue : Q) (driver : Drv) (now : I)
    : exec (Q * Drv * result (nb_error E) unit) :=
  match fuel with
  | 0 => Panic
  | S fuel' =>
      '(queue, popped) ← fq_pop_frame queue;
      match popped with
      | None => Ret (queue, driver, Ok tt)
      | Some frame =>
          if frame_is_expired frame now then flush_single_queue fuel' queue driver now
          else
            '(driver, r) ← td_transmit driver frame now;
            match r with
            | Ok None => flush_single_queue fuel' queue driver now
            | Ok (Some removed_frame) =>
                if negb (frame_is_expired removed_frame now) then
                  '(queue, r) ← fq_return_frame queue removed_frame;
                  _ ← expect r;
                  flush_single_queue fuel' queue driver now
                else flush_single_queue fuel' queue driver now
            | Err WouldBlock =>
                '(queue, r) ← fq_return_frame queue frame;
                _ ← expect r;
                Ret (queue, driver, Err WouldBlock)
            | Err (Other e) => Ret (queue, driver, Err (Other e))
            end
      end
  end.

Record SingleQueueDriver := mkSingleQueueDriver { sqd_queue : Q; sqd_driver : Drv }.

Definition SingleQueueDriver_new (queue : Q) (driver : Drv) : SingleQueueDriver :=
  mkSingleQueueDriver queue driver.
Definition into_parts (self : SingleQueueDriver) : Q * Drv := (sqd_queue self, sqd_driver self).

Definition sqd_try_reserve (self : SingleQueueDriver) (frames : usize)
    : exec (SingleQueueDriver * result OutOfMemoryError unit) :=
  '(queue, r) ← fq_try_reserve (sqd_queue self) frames;
  Ret (mkSingleQueueDriver queue (sqd_driver self), r).

Definition sqd_transmit (self : SingleQueueDriver) (frame : Frame I) (_now : I)
    : exec (SingleQueueDriver * result (nb_error E) (option (Frame I))) :=
  '(queue, r) ← fq_push_frame (sqd_queue self) frame;
  Ret (mkSingleQueueDriver queue (sqd_driver self),
       match r with Ok _ => Ok None | Err _ => Err WouldBlock end).

Definition sqd_flush (fuel : nat) (self : SingleQueueDriver) (now : I)
    : exec (SingleQueueDriver * result (nb_error E) unit) :=
  '(queue, driver, r) ← flush_single_queue fuel (sqd_queue self) (sqd_driver self) now;
  Ret (mkSingleQueueDriver queue driver, r).
End single_queue_driver.
Arguments SingleQueueDriver : clear implicits.

(** Its implementations of the driver traits: transmission goes through the queue,
    reception straight to the driver. *)
Definition single_queue_transmit {I D Q Drv E} `{Instant I D} `{FrameQueue Q I}
    `{TransmitDriver Drv I E} (fuel : nat) : TransmitDriver (SingleQueueDriver Q Drv) I E := {|
  td_try_reserve := sqd_try_reserve;
  td_transmit := sqd_transmit;
  td_flush := sqd_flush fuel;
|}.

Definition sqd_receive {I Q Drv E} `{ReceiveDriver Drv I E} (self : SingleQueueDriver Q Drv) (now : I)
    : SingleQueueDriver Q Drv * result (nb_error E) (Frame I) :=
  let '(driver, r) := drv_receive (sqd_driver self) now in
  (mkSingleQueueDriver (sqd_queue self) driver, r).
Definition sqd_apply_filters {I Q Drv E} `{ReceiveDriver Drv I E} (self : SingleQueueDriver Q Drv)
    (local_node : option CanNodeId) (subscriptions : list Subscription) : SingleQueueDriver Q Drv :=
  mkSingleQueueDriver (sqd_queue self) (drv_apply_filters (sqd_driver self) local_node subscriptions).
Definition sqd_apply_accept_all {I Q Drv E} `{ReceiveDriver Drv I E} (self : SingleQueueDriver Q Drv)
    : SingleQueueDriver Q Drv :=
  mkSingleQueueDriver (sqd_queue self) (drv_apply_accept_all (sqd_driver self)).

Definition single_queue_receive {I Q Drv E} `{ReceiveDriver Drv I E}
    : ReceiveDriver (SingleQueueDriver Q Drv) I E := {|
  drv_receive := sqd_receive;
  drv_apply_filters := sqd_apply_filters;
  drv_apply_accept_all := sqd_apply_accept_all;
|}.

(** ** Queues emptied and filled by other code *)

Section queue_only_driver.
Context {I : Type} `{Inhabited I} (TC RC : nat).

(** [heapless::Deque] is a sequence of at most [RC] frames. *)
Record QueueOnlyDriver := mkQueueOnlyDriver {
  qod_tx_queue : ArrayQueue I;
  qod_rx_queue : list (Frame I);
  qod_subscriptions : option (vec Subscription);
}.

Definition QueueOnlyDriver_new : QueueOnlyDriver := mkQueueOnlyDriver (ArrayQueue_new TC) [] None.

Definition push_rx_frame (self : QueueOnlyDriver) (frame : Frame I)
    : QueueOnlyDriver * result OutOfMemoryError unit :=
  if length (qod_rx_queue self) <? RC then
    (mkQueueOnlyDriver (qod_tx_queue self) (qod_rx_queue self ++ [frame]) (qod_subscriptions self), Ok tt)
  else (self, Err mkOutOfMemoryError).

Definition set_tx_queue (self : QueueOnlyDriver) (q : ArrayQueue I) : QueueOnlyDriver :=
  mkQueueOnlyDriver q (qod_rx_queue self) (qod_subscriptions self).

Definition pop_tx_frame (self : QueueOnlyDriver) : exec (QueueOnlyDriver * option (Frame I)) :=
  '(q, r) ← aq_pop_frame TC (qod_tx_queue self); Ret (set_tx_queue self q, r).
Definition return_tx_frame (self : QueueOnlyDriver) (frame : Frame I)
    : exec (QueueOnlyDriver * result OutOfMemoryError unit) :=
  '(q, r) ← aq_return_frame TC (qod_tx_queue self) frame; Ret (set_tx_queue self q, r).

Definition qod_try_reserve (self : QueueOnlyDriver) (frames : usize)
    : exec (QueueOnlyDriver * result OutOfMemoryError unit) :=
  '(q, r) ← aq_try_reserve TC (qod_tx_queue self) frames; Ret (set_tx_queue self q, r).
Definition qod_transmit (self : QueueOnlyDriver) (frame : Frame I) (_now : I)
    : exec (QueueOnlyDriver * result (nb_error Empty_set) (option (Frame I))) :=
  '(q, r) ← aq_push_frame TC (qod_tx_queue self) frame;
  Ret (set_tx_queue self q, match r with Ok _ => Ok None | Err _ => Err WouldBlock end).
Definition qod_flush (self : QueueOnlyDriver) (_now : I)
    : exec (QueueOnlyDriver * result (nb_error Empty_set) unit) := Ret (self, Ok tt).

#[local] Instance queue_only_transmit : TransmitDriver QueueOnlyDriver I Empty_set := {
  td_try_reserve := qod_try_reserve;
  td_transmit := qod_transmit;
  td_flush := qod_flush;
}.

Definition qod_receive (self : QueueOnlyDriver) (_now : I)
    : QueueOnlyDriver * result (nb_error Empty_set) (Frame I) :=
  match qod_rx_queue self with
  | f :: rest => (mkQueueOnlyDriver (qod_tx_queue self) rest (qod_subscriptions self), Ok f)
  | [] => (self, Err WouldBlock)
  end.

(** The loop over the new subscriptions: the vector, and whether it ran to the
    end. [alloc k] answers the [k]-th push. *)
Fixpoint collect (alloc : nat → allocator) (k : nat) (subscriptions : vec Subscription)
    (new_subscriptions : list Subscription) : vec Subscription * bool :=
  match new_subscriptions with
  | [] => (subscriptions, true)
  | s :: rest =>
      match vec_push (alloc k) subscriptions s with
      | Some v => collect alloc (S k) v rest
      | None => (subscriptions, false)
      end
  end.

Definition qod_apply_filters (alloc : nat → allocator) (self : QueueOnlyDriver)
    (_local_node : option CanNodeId) (new_subscriptions : list Subscription) : QueueOnlyDriver :=
  let subscriptions :=
    match qod_subscriptions self with
    | Some subscriptions =>
        let '(v, complete) := collect alloc 0 (mkVec [] (vec_cap subscriptions)) new_subscriptions in
        if complete then Some v else None
    | None =>
        (* the [None] stored on failure is overwritten after the loop *)
        let '(v, _) := collect alloc 0 vec_new new_subscriptions in
        Some v
    end in
  mkQueueOnlyDriver (qod_tx_queue self) (qod_rx_queue self) subscriptions.

Definition qod_apply_accept_all (self : QueueOnlyDriver) : QueueOnlyDriver :=
  mkQueueOnlyDriver (qod_tx_queue self) (qod_rx_queue self) None.

Definition queue_only_receive (alloc : nat → allocator) : ReceiveDriver QueueOnlyDriver I Empty_set := {|
  drv_receive := qod_receive;
  drv_apply_filters := qod_apply_filters alloc;
  drv_apply_accept_all := qod_apply_accept_all;
|}.
End queue_only_driver.
Arguments QueueOnlyDriver : clear implicits.
