(* ===== verification/CanQueueSpec.v ===== *)
(** * Correctness of the outgoing frame queues

    The ring buffer and the one-frame queue implement the abstract ordered queue
    ([FrameQueueSpec]); flushing a queue into a driver terminates, never runs out of
    space and loses no frame that is within its deadline. *)

From stdpp Require Import sorting.
From S2P Require Import Prelude CoreTypes Time Transfer Subscriptions CanTypes CanRx CanRxSafety CanQueue.

(** ** The abstract queue *)

Section insertion.
Context {I : Type}.
Implicit Types (f g : Frame I) (l : list (Frame I)).

#[global] Instance id_le_trans : Transitive (@id_le I).
Proof. unfold id_le. intros x y z. lia. Qed.

Lemma insert_behind_perm f l : insert_behind f l ≡ₚ f :: l.
Proof. induction l as [|g l IH]; cbn; [done|]. case_match; [|done]. rewrite IH. constructor. Qed.

Lemma insert_front_perm f l : insert_front f l ≡ₚ f :: l.
Proof. induction l as [|g l IH]; cbn; [done|]. case_match; [done|]. rewrite IH. constructor. Qed.

Lemma insert_behind_sorted f l : StronglySorted id_le l → StronglySorted id_le (insert_behind f l).
Proof.
  induction 1 as [|g l Hl IH Hg]; cbn; [by repeat constructor|]. case_cmp.
  - constructor; [done|]. rewrite insert_behind_perm. by constructor.
  - constructor; [by constructor|]. constructor; [unfold id_le; lia|].
    eapply Forall_impl; [exact Hg|]. unfold id_le. cbn. lia.
Qed.

Lemma insert_front_sorted f l : StronglySorted id_le l → StronglySorted id_le (insert_front f l).
Proof.
  induction 1 as [|g l Hl IH Hg]; cbn; [by repeat constructor|]. case_cmp.
  - constructor; [by constructor|]. constructor; [done|].
    eapply Forall_impl; [exact Hg|]. unfold id_le. cbn. lia.
  - constructor; [done|]. rewrite insert_front_perm. constructor; [unfold id_le; lia|done].
Qed.

(** Insertion seen from the back, as the ring buffer does it. *)
Lemma insert_behind_snoc f l g : StronglySorted id_le (l ++ [g]) →
  insert_behind f (l ++ [g]) =
    if (frame_id g <=? frame_id f)%Z then l ++ [g; f] else insert_behind f l ++ [g].
Proof.
  induction l as [|x l IH]; cbn; intros Hs; [done|].
  apply StronglySorted_cons in Hs as [Hx Hs].
  apply Forall_app in Hx as [_ Hg]. rewrite Forall_singleton in Hg. unfold id_le in Hg.
  rewrite (IH Hs). repeat case_cmp; done || lia.
Qed.

Lemma StronglySorted_snoc_inv f l : StronglySorted id_le (l ++ [f]) → StronglySorted id_le l.
Proof.
  induction l as [|x l IH]; cbn; [constructor|]. intros [Hx Hs]%StronglySorted_cons.
  apply Forall_app in Hx as [? _]. constructor; auto.
Qed.

Lemma filter_all_out (P : Frame I → Prop) `{!∀ x, Decision (P x)} l :
  Forall (λ x, ¬ P x) l → filter P l = [].
Proof. induction 1 as [|x l Hx _ IH]; [done|]. by rewrite filter_cons, decide_False. Qed.

(** Among the frames of one identifier, [insert_behind] is first in, first out and
    does not disturb the others. *)
Lemma insert_behind_filter f l id : StronglySorted id_le l →
  filter (λ g, frame_id g = id) (insert_behind f l) =
  filter (λ g, frame_id g = id) l ++ (if decide (frame_id f = id) then [f] else []).
Proof.
  induction 1 as [|g l Hl IH Hg]; cbn [insert_behind].
  - rewrite filter_cons, filter_nil. by destruct (decide _).
  - case_cmp.
    + rewrite !filter_cons, IH. by destruct (decide (frame_id g = id)).
    + rewrite filter_cons. destruct (decide (frame_id f = id)); [|by rewrite app_nil_r].
      assert (filter (λ g, frame_id g = id) (g :: l) = []) as ->; [|done].
      apply filter_all_out. rewrite Forall_cons. split; [lia|].
      eapply Forall_impl; [exact Hg|]. unfold id_le. cbn. lia.
Qed.
End insertion.

(** ** The ring buffer *)

Section ring.
Context {I : Type} `{Inhabited I} (N : nat) (HN : 0 < N).
Implicit Types (items l : list (Frame I)) (f g : Frame I).

#[global] Instance frame_inhabited : Inhabited (Frame I) := populate Frame_default.

(** All slots, starting from the head. *)
Definition ring (h : nat) items : list (Frame I) := (λ i, items !!! ((h + i) mod N)) <$> seq 0 N.

Lemma ring_length h items : length (ring h items) = N.
Proof. unfold ring. by rewrite length_fmap, length_seq. Qed.

Lemma ring_lookup h items i : length items = N → i < N → ring h items !! i = items !! ((h + i) mod N).
Proof.
  intros Hl Hi. unfold ring. rewrite list_lookup_fmap, lookup_seq_lt by done. cbn.
  symmetry. apply list_lookup_lookup_total_lt. rewrite Hl. by apply Nat.mod_upper_bound; lia.
Qed.

Lemma mod_step a b : ((a mod N) + b) mod N = (a + b) mod N.
Proof. apply Nat.Div0.add_mod_idemp_l. Qed.

Lemma mod_inj h i j : i < N → j < N → (h + i) mod N = (h + j) mod N → i = j.
Proof.
  intros Hi Hj E. pose proof (Nat.div_mod_eq (h + i) N). pose proof (Nat.div_mod_eq (h + j) N).
  rewrite E in *. assert ((h + i) / N = (h + j) / N); nia.
Qed.

Lemma ring_insert h items i f : length items = N → i < N →
  ring h (<[(h + i) mod N := f]> items) = <[i := f]> (ring h items).
Proof.
  intros Hl Hi. apply list_eq. intros j. destruct (decide (j < N)) as [Hj|Hj].
  2: { rewrite !lookup_ge_None_2; [done|by rewrite length_insert, ring_length; lia|rewrite ring_length; lia]. }
  rewrite ring_lookup by (done || by rewrite length_insert).
  destruct (decide (i = j)) as [<-|Hne].
  - rewrite !list_lookup_insert_eq; [done|by rewrite ring_length|rewrite Hl; apply Nat.mod_upper_bound; lia].
  - rewrite !list_lookup_insert_ne; [by rewrite ring_lookup|done|]. contradict Hne. by apply (mod_inj h).
Qed.

Lemma ring_next h items : length items = N →
  ring ((h + 1) mod N) items = tail (ring h items) ++ [items !!! (h mod N)].
Proof.
  intros Hl. apply list_eq. intros j.
  assert (Ht : length (tail (ring h items)) = N - 1) by (pose proof (ring_length h items); destruct (ring h items); cbn in *; lia).
  destruct (decide (j < N)) as [Hj|Hj].
  2: { rewrite !lookup_ge_None_2; [done|rewrite length_app; cbn; lia|rewrite ring_length; lia]. }
  rewrite ring_lookup, mod_step by done. destruct (decide (j < N - 1)).
  - rewrite lookup_app_l, lookup_tail, ring_lookup by (done || lia). do 2 f_equal. lia.
  - assert (j = N - 1) as -> by lia. rewrite lookup_app_r, Ht, Nat.sub_diag by lia. cbn.
    replace (h + 1 + (N - 1)) with (h + 1 * N) by lia. rewrite Nat.Div0.mod_add.
    apply list_lookup_lookup_total_lt. rewrite Hl. by apply Nat.mod_upper_bound; lia.
Qed.

Lemma ring_prev h items : length items = N → h < N →
  ring ((h + (N - 1)) mod N) items = items !!! ((h + (N - 1)) mod N) :: take (N - 1) (ring h items).
Proof.
  intros Hl Hh. apply list_eq. intros j. destruct (decide (j < N)) as [Hj|Hj].
  2: { rewrite !lookup_ge_None_2; [done|cbn; rewrite length_take, ring_length; lia|rewrite ring_length; lia]. }
  rewrite ring_lookup, mod_step by done. destruct j as [|j].
  - rewrite Nat.add_0_r. cbn -[Nat.modulo]. apply list_lookup_lookup_total_lt. rewrite Hl. by apply Nat.mod_upper_bound; lia.
  - rewrite <- (lookup_tail (_ :: _)). cbn [tail]. rewrite lookup_take_lt, ring_lookup by lia.
    replace (h + (N - 1) + S j) with (h + j + 1 * N) by lia. by rewrite Nat.Div0.mod_add.
Qed.

(** *** The loops *)

Lemma ring_index h items i f l1 l2 : length items = N → ring h items = l1 ++ f :: l2 →
  i = length l1 → index items ((h + i) mod N) = Ret f.
Proof.
  intros Hl Hr ->. unfold index. rewrite <- ring_lookup; [|done|].
  - by rewrite Hr, lookup_app_r, Nat.sub_diag by lia.
  - rewrite <- (ring_length h items), Hr, length_app. cbn. lia.
Qed.

(** The head slot. *)
Lemma ring_index_head h items f l : h < N → length items = N → ring h items = f :: l →
  index items h = Ret f.
Proof.
  intros Hh Hl Hr. rewrite <- (Nat.mod_small h N), <- (Nat.add_0_r h) by done.
  by apply (ring_index h items 0 f [] l).
Qed.
Lemma ring_insert_head h items f : h < N → length items = N →
  ring h (<[h := f]> items) = <[0 := f]> (ring h items).
Proof.
  intros Hh Hl. rewrite <- ring_insert by done. by rewrite Nat.add_0_r, Nat.mod_small.
Qed.

Lemma ring_swap h items i f g l1 l2 : length items = N → ring h items = l1 ++ g :: f :: l2 →
  i = length l1 →
  ∃ items', length items' = N ∧ ring h items' = l1 ++ f :: g :: l2 ∧
    swap items ((h + S i) mod N) ((h + i) mod N) = Ret items' ∧
    swap items ((h + i) mod N) ((h + S i) mod N) = Ret items'.
Proof.
  intros Hl Hr Hi. subst i.
  assert (Hlen : S (length l1) < N) by (rewrite <- (ring_length h items), Hr, length_app; cbn; lia).
  unfold swap. rewrite (ring_index h items (length l1) g l1 (f :: l2)) by done.
  rewrite (ring_index h items (S (length l1)) f (l1 ++ [g]) l2)
    by (done || (by rewrite <- app_assoc) || (rewrite length_app; cbn; lia)).
  cbn [mbind exec_bind]. exists (<[(h + length l1) mod N := f]> (<[(h + S (length l1)) mod N := g]> items)).
  split_and!; [by rewrite !length_insert| |done|].
  - rewrite ring_insert; [|by rewrite length_insert|lia].
    rewrite ring_insert by done. rewrite Hr. apply swap_adjacent.
  - f_equal. apply list_insert_insert_ne. intros E. apply mod_inj in E; lia.
Qed.

Lemma move_up_spec fuel h items f l1 l2 :
  h < N → length items = N → ring h items = l1 ++ f :: l2 → StronglySorted id_le l1 →
  length l1 < fuel →
  ∃ items', move_up N fuel (frame_id f) h ((h + length l1) mod N) items = Ret items' ∧
    length items' = N ∧ ring h items' = insert_behind f l1 ++ l2.
Proof.
  intros Hh. revert items l1 l2. induction fuel as [|fuel IH]; intros items l1 l2 Hl Hr Hs Hfuel; [lia|].
  assert (Hlen : length l1 < N) by (rewrite <- (ring_length h items), Hr, length_app; cbn; lia).
  cbn [move_up]. destruct l1 as [|g l1 _] using rev_ind.
  { cbn. rewrite Nat.add_0_r, (Nat.mod_small h N), Nat.eqb_refl by done. by exists items. }
  rewrite length_app in *. cbn [length] in *.
  rewrite (proj2 (Nat.eqb_neq _ _)).
  2: { intros E. rewrite <- (Nat.mod_small h N) in E at 2 by done. rewrite <- (Nat.add_0_r h) in E at 2.
       apply mod_inj in E; lia. }
  unfold mod_N at 1. rewrite (proj2 (Nat.eqb_neq N 0)) by lia. cbn [mbind exec_bind].
  rewrite mod_step. replace (h + (length l1 + 1) + (N - 1)) with (h + length l1 + 1 * N) by lia.
  rewrite Nat.Div0.mod_add, <- app_assoc in *. cbn [app] in Hr.
  rewrite (ring_index h items _ g l1 (f :: l2)) by done. cbn [mbind exec_bind].
  rewrite insert_behind_snoc by done. destruct (frame_id g <=? frame_id f)%Z eqn:E.
  - exists items. split_and!; [done..|]. by rewrite <- app_assoc.
  - destruct (ring_swap h items _ f g l1 l2 Hl Hr eq_refl) as (items' & Hl' & Hr' & Hsw & _).
    rewrite Nat.add_1_r, Hsw. cbn [mbind exec_bind].
    destruct (IH items' l1 (g :: l2)) as (items'' & Hm & Hl'' & Hr''); [done|done|by eapply StronglySorted_snoc_inv|lia|].
    exists items''. split_and!; [done..|]. by rewrite Hr'', <- app_assoc.
Qed.

Lemma move_down_spec fuel h items f l1 l2 l3 :
  length items = N → ring h items = l1 ++ f :: l2 ++ l3 → length l2 < fuel →
  ∃ items', move_down N fuel (frame_id f) ((h + (length l1 + length l2)) mod N)
      ((h + length l1) mod N) items = Ret items' ∧
    length items' = N ∧ ring h items' = l1 ++ insert_front f l2 ++ l3.
Proof.
  revert items l1 l2. induction fuel as [|fuel IH]; intros items l1 l2 Hl Hr Hfuel; [lia|].
  assert (Hlen : length l1 + length l2 < N).
  { rewrite <- (ring_length h items), Hr, length_app. cbn. rewrite length_app. lia. }
  cbn [move_down]. destruct l2 as [|g l2].
  { rewrite Nat.add_0_r, Nat.eqb_refl. by exists items. }
  cbn [length] in *. rewrite (proj2 (Nat.eqb_neq _ _)) by (intros E; apply mod_inj in E; lia).
  unfold mod_N at 1. rewrite (proj2 (Nat.eqb_neq N 0)) by lia. cbn [mbind exec_bind].
  rewrite mod_step. cbn [app] in Hr.
  replace (h + length l1 + 1) with (h + S (length l1)) by lia.
  rewrite (ring_index h items _ g (l1 ++ [f]) (l2 ++ l3))
    by (done || (by rewrite <- app_assoc) || (rewrite length_app; cbn; lia)).
  cbn [mbind exec_bind insert_front]. destruct (frame_id f <=? frame_id g)%Z eqn:E.
  - by exists items.
  - destruct (ring_swap h items _ g f l1 (l2 ++ l3) Hl Hr eq_refl) as (items' & Hl' & Hr' & _ & Hsw).
    rewrite Hsw. cbn [mbind exec_bind].
    destruct (IH items' (l1 ++ [g]) l2) as (items'' & Hm & Hl'' & Hr''); [done|by rewrite <- app_assoc|lia|].
    rewrite length_app in Hm. cbn [length] in Hm.
    replace (length l1 + 1 + length l2) with (length l1 + S (length l2)) in Hm by lia.
    rewrite Nat.add_1_r in Hm. exists items''. split_and!; [done..|]. by rewrite Hr'', <- app_assoc.
Qed.
End ring.

Section array_queue_spec.
Context {I : Type} `{Inhabited I} (N : nat).
Implicit Types (q : ArrayQueue I).

Definition aq_contents q : list (Frame I) := take (aq_length q) (ring N (aq_head q) (aq_items q)).
Definition aq_inv q : Prop :=
  length (aq_items q) = N ∧ (0 < N → aq_head q < N) ∧ aq_length q ≤ N ∧
  StronglySorted id_le (aq_contents q).

Lemma aq_contents_length q : aq_inv q → length (aq_contents q) = aq_length q.
Proof. intros (_ & _ & ? & _). unfold aq_contents. rewrite length_take, ring_length. lia. Qed.

(** The ring as contents and free slots. *)
Lemma ring_split q : aq_inv q →
  ∃ free, ring N (aq_head q) (aq_items q) = aq_contents q ++ free ∧ length free = N - aq_length q.
Proof.
  intros Hq. exists (drop (aq_length q) (ring N (aq_head q) (aq_items q))).
  split; [by unfold aq_contents; rewrite take_drop|]. by rewrite length_drop, ring_length.
Qed.

(** A queue from its ring. *)
Lemma aq_inv_intro items h l free :
  h < N → length items = N → ring N h items = l ++ free → StronglySorted id_le l →
  aq_inv (mkArrayQueue items h (length l)) ∧ aq_contents (mkArrayQueue items h (length l)) = l.
Proof.
  intros Hh Hl Hr Hs. assert (Hlen : length l ≤ N).
  { rewrite <- (ring_length N h items), Hr, length_app. lia. }
  assert (aq_contents (mkArrayQueue items h (length l)) = l) as Hc.
  { unfold aq_contents. cbn [aq_length aq_head aq_items]. by rewrite Hr, take_app_length. }
  split; [|done]. unfold aq_inv. cbn [aq_length aq_head aq_items]. by rewrite Hc.
Qed.

Lemma aq_push_spec q f : aq_inv q →
  ∃ q' r, aq_push_frame N q f = Ret (q', r) ∧ aq_inv q' ∧
    (0 < N - aq_length q → is_ok r = true) ∧
    if is_ok r then aq_contents q' = insert_behind f (aq_contents q) ∧
      N - aq_length q ≤ S (N - aq_length q')
    else aq_contents q' = aq_contents q.
Proof.
  intros Hq. unfold aq_push_frame. destruct (Nat.eqb_spec (aq_length q) N) as [E|E].
  { eexists q, (Err _). split_and!; [done|done|lia|done]. }
  destruct (ring_split q Hq) as ([|x free] & Hr & Hfree); pose proof Hq as (Hl & Hh & Hlen & Hs);
    cbn [length] in Hfree; [lia|].
  assert (HN : 0 < N) by lia. specialize (Hh HN).
  unfold mod_N at 1. rewrite (proj2 (Nat.eqb_neq N 0)) by lia. cbn [mbind exec_bind].
  pose proof (aq_contents_length q Hq) as Hc.
  unfold assign. rewrite (ring_index N HN (aq_head q) (aq_items q) (aq_length q) x (aq_contents q) free)
    by done. cbn [mbind exec_bind].
  destruct (move_up_spec N HN (S N) (aq_head q) (<[(aq_head q + aq_length q) mod N := f]> (aq_items q)) f
    (aq_contents q) free) as (items & Hm & Hl' & Hr');
    [done|by rewrite length_insert| |done|lia|].
  { rewrite ring_insert, Hr by (done || lia). rewrite <- Hc. by rewrite insert_app_r_alt, Nat.sub_diag by lia. }
  rewrite Hc in Hm. rewrite Hm. cbn [mbind exec_bind].
  destruct (aq_inv_intro items (aq_head q) _ free Hh Hl' Hr') as [Hinv Hc'].
  { by apply insert_behind_sorted. }
  assert (Hlen' : length (insert_behind f (aq_contents q)) = aq_length q + 1).
  { rewrite insert_behind_perm. cbn. lia. }
  rewrite Hlen' in *. eexists _, (Ok tt). split_and!; [done..|]. cbn [is_ok aq_length]. split; [done|lia].
Qed.

Lemma aq_return_spec q f : aq_inv q →
  ∃ q' r, aq_return_frame N q f = Ret (q', r) ∧ aq_inv q' ∧
    (0 < N - aq_length q → is_ok r = true) ∧
    if is_ok r then aq_contents q' = insert_front f (aq_contents q) ∧
      N - aq_length q ≤ S (N - aq_length q')
    else aq_contents q' = aq_contents q.
Proof.
  intros Hq. unfold aq_return_frame. destruct (Nat.eqb_spec (aq_length q) N) as [E|E].
  { eexists q, (Err _). split_and!; [done|done|lia|done]. }
  destruct (ring_split q Hq) as (free & Hr & Hfree). pose proof Hq as (Hl & Hh & Hlen & Hs).
  assert (HN : 0 < N) by lia. specialize (Hh HN). pose proof (aq_contents_length q Hq) as Hc.
  unfold decrement_head. rewrite (proj2 (Nat.eqb_neq N 0)) by lia. cbn [aq_items aq_head aq_length].
  set (h := (aq_head q + (N - 1)) mod N).
  assert (Hh' : h < N) by (apply Nat.mod_upper_bound; lia).
  pose proof (ring_prev N HN (aq_head q) (aq_items q) Hl Hh) as Hp. fold h in Hp.
  rewrite Hr, take_app, take_ge in Hp by lia. set (free' := take _ free) in Hp.
  unfold assign. rewrite (ring_index_head N HN h (aq_items q) _ _ Hh' Hl Hp).
  cbn [mbind exec_bind]. unfold mod_N at 1. rewrite (proj2 (Nat.eqb_neq N 0)) by lia.
  cbn [mbind exec_bind].
  destruct (move_down_spec N HN (S N) h (<[h := f]> (aq_items q)) f [] (aq_contents q) free')
    as (items & Hm & Hl' & Hr'); [by rewrite length_insert| |lia|].
  { by rewrite ring_insert_head, Hp. }
  cbn [length app] in Hm, Hr'. rewrite Nat.add_0_r, Nat.add_0_l, (Nat.mod_small h), Hc in Hm by done. rewrite Nat.add_sub, Hm.
  cbn [mbind exec_bind].
  destruct (aq_inv_intro items h _ free' Hh' Hl' Hr') as [Hinv Hc'].
  { by apply insert_front_sorted. }
  assert (Hlen' : length (insert_front f (aq_contents q)) = aq_length q + 1).
  { rewrite insert_front_perm. cbn. lia. }
  rewrite Hlen' in *. eexists _, (Ok tt). split_and!; [done..|]. cbn [is_ok aq_length]. split; [done|lia].
Qed.

Lemma aq_pop_spec q : aq_inv q →
  ∃ q', aq_pop_frame N q = Ret (q', head (aq_contents q)) ∧ aq_inv q' ∧
    aq_contents q' = tail (aq_contents q) ∧
    (aq_contents q ≠ [] → N - aq_length q < N - aq_length q').
Proof.
  intros Hq. unfold aq_pop_frame. pose proof (aq_contents_length q Hq) as Hc.
  destruct (ring_split q Hq) as (free & Hr & Hfree). pose proof Hq as (Hl & Hh & Hlen & Hs).
  destruct (Nat.eqb_spec (aq_length q) 0) as [E|E]; cbn [negb].
  { rewrite E in Hc. apply length_zero_iff_nil in Hc. rewrite Hc. exists q.
    split_and!; [done|done|by rewrite Hc|done]. }
  assert (HN : 0 < N) by lia. specialize (Hh HN).
  destruct (aq_contents q) as [|f l] eqn:Ec; cbn [length] in Hc; [lia|].
  rewrite (ring_index_head N HN _ _ _ _ Hh Hl Hr).
  cbn [mbind exec_bind]. unfold increment_head. rewrite (proj2 (Nat.eqb_neq N 0)) by lia.
  cbn [aq_items aq_head aq_length head tail]. set (items := <[aq_head q := Frame_default]> (aq_items q)).
  assert (Hl' : length items = N) by (by unfold items; rewrite length_insert).
  apply StronglySorted_cons in Hs as [_ Hs].
  destruct (aq_inv_intro items ((aq_head q + 1) mod N) l (free ++ [items !!! (aq_head q mod N)]))
    as [Hinv Hc']; [by apply Nat.mod_upper_bound; lia|done| |done|].
  { rewrite ring_next by done. unfold items at 1.
    by rewrite ring_insert_head, Hr, app_assoc. }
  replace (length l) with (aq_length q - 1) in * by lia.
  eexists. split_and!; [done..|]. cbn [aq_length]. lia.
Qed.

#[local] Program Instance array_queue_spec : @FrameQueueSpec (ArrayQueue I) I (array_queue N) := {
  fq_inv := aq_inv;
  fq_contents := aq_contents;
  fq_room q := N - aq_length q;
  fq_push_spec := aq_push_spec;
  fq_pop_spec := aq_pop_spec;
  fq_return_spec := aq_return_spec;
}.
Next Obligation. by intros q (_ & _ & _ & ?). Qed.
Next Obligation.
  intros q n Hq. cbn. unfold aq_try_reserve, usize_sub. destruct Hq as (? & ? & Hlen & ?).
  rewrite (proj2 (Nat.leb_le _ _) Hlen). cbn [mbind exec_bind].
  eexists q, _. split_and!; [done..|]. case_cmp; cbn; [done|congruence].
Qed.
Next Obligation.
  intros q Hq. cbn. unfold aq_peek_frame. pose proof (aq_contents_length q Hq) as Hc.
  destruct (ring_split q Hq) as (free & Hr & Hfree). pose proof Hq as (Hl & Hh & Hlen & Hs).
  destruct (aq_contents q) as [|f l]; cbn [length] in Hc; rewrite <- Hc; cbn [Nat.eqb negb]; [done|].
  assert (HN : 0 < N) by lia. specialize (Hh HN).
  by rewrite (ring_index_head N HN _ _ _ _ Hh Hl Hr).
Qed.

Lemma ArrayQueue_new_inv : aq_inv (ArrayQueue_new N) ∧ aq_contents (ArrayQueue_new N) = [].
Proof. split; [|done]. split_and!; [apply length_replicate|done|cbn; lia|constructor]. Qed.
End array_queue_spec.

#[export] Program Instance single_frame_queue_spec {I} : FrameQueueSpec (SingleFrameQueue I) I := {
  fq_inv _ := True;
  fq_contents q := option_list (sfq_frame q);
  fq_room q := match sfq_frame q with None => 1 | Some _ => 0 end;
}.
Next Obligation. intros I [[f|]] _; repeat constructor. Qed.
Next Obligation.
  intros I [[f|]] n _; eexists _, _; split_and!; try done. cbn. case_cmp; cbn; [lia|done].
Qed.
Next Obligation. intros I [[g|]] f _; eexists _, _; split_and!; try done; cbn; (split; [done|lia]) || lia. Qed.
Next Obligation. intros I [[g|]] _; done. Qed.
Next Obligation. intros I [[g|]] _; eexists _; split_and!; try done; cbn; intros; lia. Qed.
Next Obligation. intros I [[g|]] f _; eexists _, _; split_and!; try done; cbn; (split; [done|lia]) || lia. Qed.

(** ** Flushing *)

(** What flushing relies on. [td_held] are the frames that the driver has accepted
    and not given back. A driver may displace a frame to make space for another, but
    not forever: [td_potential] bounds how often. *)
Class TransmitDriverSpec (Drv I E : Type) `{TransmitDriver Drv I E} := {
  td_inv : Drv → Prop;
  td_held : Drv → list (Frame I);
  td_potential : Drv → nat;
  td_transmit_spec d f now : td_inv d →
    ∃ d' r, td_transmit d f now = Ret (d', r) ∧ td_inv d' ∧ td_potential d' ≤ td_potential d ∧
      match r with
      | Ok None => td_held d' ≡ₚ f :: td_held d
      | Ok (Some g) => g :: td_held d' ≡ₚ f :: td_held d ∧ td_potential d' < td_potential d
      | Err WouldBlock => td_held d' ≡ₚ td_held d
      | Err (Other _) => td_held d' ≡ₚ td_held d
      end;
}.

Section flush.
Context {I D Q Drv E : Type} `{Instant I D} `{FrameQueueSpec Q I} `{TransmitDriverSpec Drv I E}.

Lemma flush_step (c' h' ex fa h1 h l : list (Frame I)) f g :
  g :: h1 ≡ₚ f :: h → c' ++ h' ++ ex ++ fa ≡ₚ (g :: l) ++ h1 →
  c' ++ h' ++ ex ++ fa ≡ₚ (f :: l) ++ h.
Proof.
  intros Hr ->. transitivity (l ++ (g :: h1)); [solve_Permutation|]. rewrite Hr. solve_Permutation.
Qed.

(** C22: flushing a queue into a driver terminates and never panics: the space for a
    frame that the driver does not take, or gives back, is always there. Frames are
    neither duplicated nor lost: each ends up with the driver or stays in the queue,
    unless its deadline has passed. On success the queue is empty. If the driver
    reports an error, exactly the frame that was being transmitted is dropped. *)
Theorem flush_single_queue_conserves fuel (q : Q) (drv : Drv) now :
  fq_inv q → td_inv drv → length (fq_contents q) + td_potential drv < fuel →
  ∃ q' drv' r expired failed, flush_single_queue fuel q drv now = Ret (q', drv', r) ∧
    fq_inv q' ∧ td_inv drv' ∧
    Forall (λ f, frame_is_expired f now = true) expired ∧
    fq_contents q' ++ td_held drv' ++ expired ++ failed ≡ₚ fq_contents q ++ td_held drv ∧
    match r with
    | Ok _ => fq_contents q' = [] ∧ failed = []
    | Err WouldBlock => fq_contents q' ≠ [] ∧ failed = []
    | Err (Other _) => ∃ f, failed = [f] ∧ frame_is_expired f now = false
    end.
Proof.
  revert q drv. induction fuel as [|fuel IH]; intros q drv Hq Hd Hfuel; [lia|].
  cbn [flush_single_queue]. destruct (fq_pop_spec q Hq) as (q1 & Hpop & Hq1 & Hc1 & Hroom).
  rewrite Hpop. cbn [mbind exec_bind].
  destruct (fq_contents q) as [|f l] eqn:Ec; cbn [head tail length] in *.
  { eexists q1, drv, (Ok tt), [], []. split_and!; try done. by rewrite Hc1, app_nil_r. }
  specialize (Hroom ltac:(done)). destruct (frame_is_expired f now) eqn:Ef.
  { destruct (IH q1 drv) as (q' & drv' & r & ex & fa & Hfl & Hq' & Hd' & Hex & Hp & Hr);
      [done|done|rewrite Hc1; lia|].
    eexists q', drv', r, (f :: ex), fa. split_and!; [done|done|done|by constructor| |done].
    rewrite Hc1 in Hp. cbn. rewrite <- Hp. solve_Permutation. }
  destruct (td_transmit_spec drv f now Hd) as (drv1 & r & -> & Hd1 & Hpot & Hr). cbn [mbind exec_bind].
  destruct r as [[g|]|[|e]].
  - destruct Hr as [Hr Hlt]. destruct (frame_is_expired g now) eqn:Eg; cbn [negb].
    + destruct (IH q1 drv1) as (q' & drv' & r & ex & fa & Hfl & Hq' & Hd' & Hex & Hp & Hres);
        [done|done|rewrite Hc1; lia|].
      eexists q', drv', r, (g :: ex), fa. split_and!; [done|done|done|by constructor| |done].
      apply (flush_step _ _ _ _ _ _ _ _ _ Hr). rewrite Hc1 in Hp.
      transitivity (g :: (l ++ td_held drv1)); [rewrite <- Hp; solve_Permutation|done].
    + destruct (fq_return_spec q1 g Hq1) as (q2 & rr & -> & Hq2 & Hok & Hres). cbn [mbind exec_bind].
      specialize (Hok ltac:(lia)). rewrite Hok in Hres. destruct rr as [u|]; [|done]. cbn [expect mbind exec_bind].
      destruct Hres as [Hc2 _].
      destruct (IH q2 drv1) as (q' & drv' & r & ex & fa & Hfl & Hq' & Hd' & Hex & Hp & Hres); [done|done| |].
      { rewrite Hc2, insert_front_perm, Hc1. cbn. lia. }
      eexists q', drv', r, ex, fa. split_and!; [done|done|done|done| |done].
      apply (flush_step _ _ _ _ _ _ _ _ _ Hr). rewrite Hp, Hc2, insert_front_perm, Hc1. done.
  - destruct (IH q1 drv1) as (q' & drv' & r & ex & fa & Hfl & Hq' & Hd' & Hex & Hp & Hres);
      [done|done|rewrite Hc1; lia|].
    eexists q', drv', r, ex, fa. split_and!; [done|done|done|done| |done].
    rewrite Hp, Hc1, Hr. solve_Permutation.
  - destruct (fq_return_spec q1 f Hq1) as (q2 & rr & -> & Hq2 & Hok & Hres). cbn [mbind exec_bind].
    specialize (Hok ltac:(lia)). rewrite Hok in Hres. destruct rr as [u|]; [|done]. cbn [expect mbind exec_bind].
    destruct Hres as [Hc2 _].
    eexists q2, drv1, (Err WouldBlock), [], []. split_and!; [done|done|done|done| | |done].
    + by rewrite Hr, Hc2, insert_front_perm, Hc1, app_nil_r.
    + intros Hnil. rewrite Hc2 in Hnil. apply (f_equal length) in Hnil.
      rewrite insert_front_perm in Hnil. done.
  - eexists q1, drv1, (Err (Other e)), [], [f]. split_and!; [done|done|done|done| |eauto].
    rewrite Hr, Hc1. solve_Permutation.
Qed.
End flush.

(** ** Claims *)

(** C21: the ring buffer implements the abstract ordered queue. A pushed frame ends
    up behind all frames with a lesser or equal identifier, a returned one in front of
    all frames with a greater or equal identifier; no operation panics, and an insertion
    fails only when all [N] slots are in use. *)
Theorem array_queue_refines {I} `{Inhabited I} (N : nat) (q : ArrayQueue I) (f : Frame I) :
  aq_inv N q →
  StronglySorted id_le (aq_contents N q) ∧
  (∃ q' r, aq_push_frame N q f = Ret (q', r) ∧ aq_inv N q' ∧
     if length (aq_contents N q) <? N
     then r = Ok tt ∧ aq_contents N q' = insert_behind f (aq_contents N q)
     else r = Err mkOutOfMemoryError ∧ q' = q) ∧
  (∃ q' r, aq_return_frame N q f = Ret (q', r) ∧ aq_inv N q' ∧
     if length (aq_contents N q) <? N
     then r = Ok tt ∧ aq_contents N q' = insert_front f (aq_contents N q)
     else r = Err mkOutOfMemoryError ∧ q' = q) ∧
  aq_peek_frame q = Ret (head (aq_contents N q)) ∧
  (∃ q', aq_pop_frame N q = Ret (q', head (aq_contents N q)) ∧ aq_inv N q' ∧
     aq_contents N q' = tail (aq_contents N q)).
Proof.
  intros Hq. pose proof Hq as (_ & _ & Hlen & Hs). rewrite (aq_contents_length N q Hq).
  assert (Hfull : aq_length q = N →
    aq_push_frame N q f = Ret (q, Err mkOutOfMemoryError) ∧
    aq_return_frame N q f = Ret (q, Err mkOutOfMemoryError)).
  { intros E. unfold aq_push_frame, aq_return_frame. by rewrite (proj2 (Nat.eqb_eq _ _) E). }
  split_and!; [done|..].
  - destruct (aq_push_spec N q f Hq) as (q' & r & Hr & Hq' & Hok & Hc). exists q', r.
    split_and!; [done..|]. case_cmp.
    + specialize (Hok ltac:(lia)). rewrite Hok in Hc. destruct r as [[]|]; [|done]. by destruct Hc.
    + destruct (Hfull ltac:(lia)) as [E _]. rewrite Hr in E. by injection E as -> ->.
  - destruct (aq_return_spec N q f Hq) as (q' & r & Hr & Hq' & Hok & Hc). exists q', r.
    split_and!; [done..|]. case_cmp.
    + specialize (Hok ltac:(lia)). rewrite Hok in Hc. destruct r as [[]|]; [|done]. by destruct Hc.
    + destruct (Hfull ltac:(lia)) as [_ E]. rewrite Hr in E. by injection E as -> ->.
  - exact (@fq_peek_spec _ _ _ (array_queue_spec N) q Hq).
  - destruct (aq_pop_spec N q Hq) as (q' & ? & ? & ? & _). by exists q'.
Qed.

(** ** Drivers with a queue *)

(** What the transmitter relies on: the driver queues the frames it is given in bus
    order, and after a successful reservation of [n] frames accepts [n] frames. *)
Class QueueingDriver (Drv I E : Type) `{TransmitDriver Drv I E} := {
  qd_inv : Drv → Prop;
  qd_queue : Drv → list (Frame I);
  qd_room : Drv → nat;
  qd_sorted d : qd_inv d → StronglySorted id_le (qd_queue d);
  qd_reserve_spec d n : qd_inv d →
    ∃ d' r, td_try_reserve d n = Ret (d', r) ∧ qd_inv d' ∧ qd_queue d' = qd_queue d ∧
      (is_ok r = true → n ≤ qd_room d');
  qd_transmit_spec d f now : qd_inv d →
    ∃ d' r, td_transmit d f now = Ret (d', r) ∧ qd_inv d' ∧
      (0 < qd_room d → r = Ok None) ∧
      match r with
      | Ok _ => qd_queue d' = insert_behind f (qd_queue d) ∧ qd_room d ≤ S (qd_room d')
      | Err _ => qd_queue d' = qd_queue d
      end;
}.

#[export] Program Instance queue_only_queueing {I} `{Inhabited I} (TC : nat) :
    @QueueingDriver (QueueOnlyDriver I) I Empty_set (queue_only_transmit TC) := {
  qd_inv d := aq_inv TC (qod_tx_queue d);
  qd_queue d := aq_contents TC (qod_tx_queue d);
  qd_room d := TC - aq_length (qod_tx_queue d);
}.
Next Obligation. intros I ? TC d Hd. exact (@fq_sorted _ _ _ (array_queue_spec TC) _ Hd). Qed.
Next Obligation.
  intros I ? TC d n Hd. destruct (@fq_try_reserve_spec _ _ _ (array_queue_spec TC) _ n Hd)
    as (q' & r & Hr & Hq' & Hc & Hok). cbn in *. unfold qod_try_reserve. rewrite Hr.
  cbn [mbind exec_bind]. by eexists (set_tx_queue d q'), r.
Qed.
Next Obligation.
  intros I ? TC d f now Hd. destruct (aq_push_spec TC _ f Hd) as (q' & r & Hr & Hq' & Hok & Hc).
  cbn. unfold qod_transmit. rewrite Hr. cbn [mbind exec_bind].
  eexists (set_tx_queue d q'), _. split_and!; [done|done| |by destruct r].
  intros Hroom. specialize (Hok Hroom). by destruct r.
Qed.

Program Definition single_queue_queueing {I D Q Drv E} `{Instant I D} `{FrameQueueSpec Q I}
    `{TransmitDriver Drv I E} (fuel : nat) :
    @QueueingDriver (SingleQueueDriver Q Drv) I E (single_queue_transmit fuel) := {|
  qd_inv d := fq_inv (sqd_queue d);
  qd_queue d := fq_contents (sqd_queue d);
  qd_room d := fq_room (sqd_queue d);
|}.
Next Obligation. intros. by apply fq_sorted. Qed.
Next Obligation.
  intros I D Q Drv E ????? fuel [q drv] n Hd. destruct (fq_try_reserve_spec q n Hd)
    as (q' & r & Hr & Hq' & Hc & Hok). cbn. unfold sqd_try_reserve. cbn. rewrite Hr.
  cbn [mbind exec_bind]. by eexists (mkSingleQueueDriver q' drv), r.
Qed.
Next Obligation.
  intros I D Q Drv E ????? fuel [q drv] f now Hd.
  destruct (fq_push_spec q f Hd) as (q' & r & Hr & Hq' & Hok & Hc). cbn. unfold sqd_transmit. cbn.
  rewrite Hr. cbn [mbind exec_bind].
  eexists (mkSingleQueueDriver q' drv), _. split_and!; [done|done| |by destruct r].
  intros Hroom. specialize (Hok Hroom). by destruct r.
Qed.

(** The queue-only driver never gives frames back and never fails. *)
#[export] Program Instance queue_only_transmit_spec {I} `{Inhabited I} (TC : nat) :
    @TransmitDriverSpec (QueueOnlyDriver I) I Empty_set (queue_only_transmit TC) := {
  td_inv d := aq_inv TC (qod_tx_queue d);
  td_held d := aq_contents TC (qod_tx_queue d);
  td_potential _ := 0;
}.
Next Obligation.
  intros I ? TC d f now Hd. destruct (aq_push_spec TC _ f Hd) as (q' & r & Hr & Hq' & Hok & Hc).
  cbn. unfold qod_transmit. rewrite Hr. cbn [mbind exec_bind].
  eexists (set_tx_queue d q'), _. split_and!; [done|done|done|].
  destruct r as [[]|]; cbn in *; [|by rewrite Hc]. destruct Hc as [-> _]. apply insert_behind_perm.
Qed.

Lemma collect_spec alloc k v news :
  ∃ m, vec_list (collect alloc k v news).1 = vec_list v ++ take m news ∧ m ≤ length news ∧
    (m = length news ↔ (collect alloc k v news).2 = true).
Proof.
  revert k v. induction news as [|s news IH]; intros k v; cbn [collect].
  - exists 0. by rewrite app_nil_r.
  - destruct (vec_push (alloc k) v s) as [v'|] eqn:E.
    + apply vec_extend_Some in E. destruct (IH (S k) v') as (m & Hm & Hle & Hiff). exists (S m).
      rewrite Hm, E, <- app_assoc. cbn. split_and!; [done|lia|]. rewrite <- Hiff. lia.
    + exists 0. cbn. rewrite app_nil_r. split_and!; [done|lia|]. split; [lia|done].
Qed.

(** The subscriptions that a queue-only driver shows are those of the last
    [apply_filters], or a proper prefix of them: when memory runs out while the
    driver had no subscriptions before, it keeps the ones collected so far,
    although it is documented to show none. *)
Theorem queue_only_filters_outcome {I} (alloc : nat → allocator) (d : QueueOnlyDriver I) node news :
  match qod_subscriptions (qod_apply_filters alloc d node news) with
  | Some v => vec_list v = news ∨
      (qod_subscriptions d = None ∧
       (collect alloc 0 vec_new news).2 = false ∧ ∃ m, m < length news ∧ vec_list v = take m news)
  | None => qod_subscriptions d ≠ None
  end.
Proof.
  unfold qod_apply_filters. cbn [qod_subscriptions]. destruct (qod_subscriptions d) as [v0|].
  - destruct (collect_spec alloc 0 (mkVec [] (vec_cap v0)) news) as (m & Hm & _ & Hiff).
    destruct (collect _ _ _ _) as [v [|]]; cbn in *; [|done]. left.
    rewrite Hm, (proj2 Hiff), firstn_all by done. done.
  - destruct (collect_spec alloc 0 vec_new news) as (m & Hm & Hle & Hiff).
    destruct (collect _ _ _ _) as [v [|]]; cbn in *.
    + left. by rewrite Hm, (proj2 Hiff), firstn_all by done.
    + right. split_and!; [done..|]. exists m. split; [|done].
      destruct (decide (m = length news)) as [E|]; [by apply Hiff in E|lia].
Qed.

(** ** Witnesses *)

Module QueueExample.
Definition f (id : CanId) (tag : u8) : Frame Microseconds32 := mkFrame (mkMicroseconds32 100) id [tag].
#[local] Instance inh : Inhabited Microseconds32 := populate (mkMicroseconds32 0).

(** A queue of three slots in which two frames wrap around the end. *)
Definition q : ArrayQueue Microseconds32 := mkArrayQueue [f 9 2; f 1 1; f 7 1]%Z 2 2.

Lemma q_inv : aq_inv 3 q.
Proof. split_and!; cbn; [done|lia|lia|]. repeat constructor; cbn; unfold id_le; cbn; lia. Qed.

(** Memory runs out at the second push. *)
Definition alloc (k : nat) : allocator := λ n, if k =? 0 then Some n else None.

Example partial_filters :
  qod_subscriptions (qod_apply_filters alloc (QueueOnlyDriver_new (I := Microseconds32) 4) None
    [SubMessage 1; SubMessage 2]%Z) = Some (mkVec [SubMessage 1%Z] 1).
Proof. reflexivity. Qed.
End QueueExample.

#[local] Existing Instance QueueExample.inh.

Lemma array_queue_refines_witness :
  ∃ q', aq_push_frame 3 QueueExample.q (QueueExample.f 7 2) = Ret (q', Ok tt) ∧
    aq_contents 3 q' =
      [QueueExample.f 7 1; QueueExample.f 7 2; QueueExample.f 9 2]%Z.
Proof.
  destruct (array_queue_refines 3 QueueExample.q (QueueExample.f 7 2)
    QueueExample.q_inv) as (_ & (q' & r & Hp & _ & Hr) & _). cbn in Hr. destruct Hr as [-> Hc].
  exists q'. split; [exact Hp|]. rewrite Hc. reflexivity.
Defined.

Lemma flush_single_queue_conserves_witness :
  let Hq := array_queue 3 in
  let Hd := queue_only_transmit 4 in
  ∃ q' drv' r, flush_single_queue 5 QueueExample.q (QueueOnlyDriver_new 4)
    (mkMicroseconds32 50) = Ret (q', drv', r) ∧ fq_inv (FrameQueueSpec := array_queue_spec 3) q'.
Proof.
  intros Hq Hd.
  destruct (flush_single_queue_conserves (H2 := array_queue_spec 3)
    (H4 := queue_only_transmit_spec 4) 5 QueueExample.q
    (QueueOnlyDriver_new 4) (mkMicroseconds32 50))
    as (q' & drv' & r & _ & _ & Hfl & Hq' & _); [apply QueueExample.q_inv| |cbn; lia|].
  - apply ArrayQueue_new_inv.
  - by exists q', drv', r.
Defined.
