(* ===== verification/CanTx.v ===== *)
(** * The Cyphal/CAN transmitter

    Models [canadensis_can/src/tx.rs]: a transfer is broken into frames, which are
    handed to a [TransmitDriver] one by one; the transmitter counts transfers and
    errors. The identifier of the frames is in [CanIds], the splitting in
    [CanFraming]. *)

From S2P Require Import Prelude CoreTypes Time Transfer Subscriptions CanTypes CanFraming.
From S2P Require Import CanIds CanRx CanQueue.

Section tx.
Context {I D Drv E : Type} `{Instant I D} `{TransmitDriver Drv I E}.

Record CanTransmitter := mkCanTransmitter {
  tx_mtu : usize;
  tx_transfer_count : u64;
  tx_error_count : u64;
}.

Definition CanTransmitter_new (mtu : Mtu) : CanTransmitter := mkCanTransmitter (as_bytes mtu) 0 0.
Definition set_mtu (self : CanTransmitter) (mtu : Mtu) : CanTransmitter :=
  mkCanTransmitter (as_bytes mtu) (tx_transfer_count self) (tx_error_count self).
(** One byte of each frame is the tail byte. *)
Definition mtu (self : CanTransmitter) : usize := tx_mtu self - 1.

Definition push_frame (timestamp : I) (id : CanId) (data : list u8) (driver : Drv) (now : I)
    : exec (Drv * result (nb_error E) unit) :=
  frame ← Frame_new timestamp id data;
  '(driver, r) ← td_transmit driver frame now;
  Ret (driver, match r with Ok _ => Ok tt | Err e => Err e end).

(** The loop over payload and padding: [frames] counts the frames filled up, and
    the CRC runs over each byte as it is consumed. *)
Fixpoint push_payload (timestamp : I) (can_id : CanId) (now : I) (driver : Drv)
    (breakdown : Breakdown) (crc : u16) (frames : nat) (bytes : list u8)
    : exec (Drv * result (nb_error (CanError E)) (Breakdown * u16 * nat)) :=
  match bytes with
  | [] => Ret (driver, Ok (breakdown, crc, frames))
  | byte :: bytes' =>
      '(breakdown, full) ← Breakdown_add breakdown byte;
      let crc := crc_add crc byte in
      match full with
      | None => push_payload timestamp can_id now driver breakdown crc frames bytes'
      | Some frame_data =>
          '(driver, r) ← push_frame timestamp can_id frame_data driver now;
          match r with
          | Err e => Ret (driver, Err (nb_map CanDriver e))
          | Ok _ => push_payload timestamp can_id now driver breakdown crc (S frames) bytes'
          end
      end
  end.

(** The loop over the two bytes of the CRC. *)
Fixpoint push_crc (timestamp : I) (can_id : CanId) (now : I) (driver : Drv)
    (breakdown : Breakdown) (bytes : list u8)
    : exec (Drv * result (nb_error (CanError E)) Breakdown) :=
  match bytes with
  | [] => Ret (driver, Ok breakdown)
  | byte :: bytes' =>
      '(breakdown, full) ← Breakdown_add breakdown byte;
      match full with
      | None => push_crc timestamp can_id now driver breakdown bytes'
      | Some frame_data =>
          '(driver, r) ← push_frame timestamp can_id frame_data driver now;
          match r with
          | Err e => Ret (driver, Err (nb_map CanDriver e))
          | Ok _ => push_crc timestamp can_id now driver breakdown bytes'
          end
      end
  end.

Definition push_inner (self : CanTransmitter) (transfer : CanTransfer (list u8) I) (now : I)
    (driver : Drv) : exec (Drv * result (nb_error (CanError E)) unit) :=
  let payload := tr_payload transfer in
  let header := tr_header transfer in
  frame_stats ← calculate_frame_stats (length payload) (tx_mtu self);
  '(driver, r) ← td_try_reserve driver (frames frame_stats);
  match r with
  | Err oom => Ret (driver, Err (Other (CanMemory oom)))
  | Ok _ =>
      let payload_and_padding := payload ++ replicate (last_frame_padding frame_stats) 0%Z in
      can_id ← make_can_id header payload;
      let breakdown := Breakdown_new (tx_mtu self) (transfer_id header) in
      '(driver, r) ← push_payload (timestamp header) can_id now driver breakdown crc_new 0
                       payload_and_padding;
      match r with
      | Err e => Ret (driver, Err e)
      | Ok (breakdown, crc, frames) =>
          '(driver, r) ←
            (if negb (frames =? 0) then
               push_crc (timestamp header) can_id now driver breakdown
                 [as_u8 (Z.shiftr crc 8); as_u8 crc]
             else Ret (driver, Ok breakdown));
          match r with
          | Err e => Ret (driver, Err e)
          | Ok breakdown =>
              last_frame_data ← Breakdown_finish breakdown;
              '(driver, r) ← push_frame (timestamp header) can_id last_frame_data driver now;
              Ret (driver, map_err (nb_map CanDriver) r)
          end
      end
  end.

Definition push (self : CanTransmitter) (transfer : CanTransfer (list u8) I) (now : I) (driver : Drv)
    : exec (CanTransmitter * Drv * result (nb_error (CanError E)) unit) :=
  '(driver, r) ← push_inner self transfer now driver;
  match r with
  | Ok _ =>
      Ret (mkCanTransmitter (tx_mtu self) (wrapping_add 64 (tx_transfer_count self) 1)
             (tx_error_count self), driver, Ok tt)
  | Err e =>
      Ret (mkCanTransmitter (tx_mtu self) (tx_transfer_count self)
             (wrapping_add 64 (tx_error_count self) 1), driver, Err e)
  end.

Definition tx_flush (driver : Drv) (now : I) : exec (Drv * result (nb_error (CanError E)) unit) :=
  '(driver, r) ← td_flush driver now;
  Ret (driver, map_err (nb_map CanDriver) r).
End tx.
