(* ===== verification/CanLink.v ===== *)
(** * From transmitter to receiver

    The transmitter queues exactly the frames of the reference layout, or none at
    all; and those frames, given to a receiver that is subscribed to the port, make
    it deliver the transfer. *)

From stdpp Require Import sorting.
From S2P Require Import Prelude CoreTypes Time Transfer Subscriptions CanTypes CanFraming.
From S2P Require Import CanIds CanRx CanRxSafety CanQueue CanQueueSpec CanTx.

(** ** The reference: the frames of a transfer *)

Section reference.
Context {I : Type}.

(** The bytes on the wire: the payload, zeros up to a valid frame length, and a CRC
    when one frame is not enough. *)
Definition wire_bytes (m : Mtu) (padding : nat) (payload : list u8) : list u8 :=
  let padded := payload ++ replicate padding 0%Z in
  let crc := crc_add_bytes crc_new padded in
  padded ++ (if length payload <=? as_bytes m - 1 then [] else [as_u8 (Z.shiftr crc 8); as_u8 crc]).

Definition wire_frames (m : Mtu) (padding : nat) (id : CanId) (tr : CanTransfer (list u8) I)
    : list (Frame I) :=
  mkFrame (timestamp (tr_header tr)) id <$>
    tag_frames (transfer_id (tr_header tr)) true true
      (chunks (as_bytes m - 1) (wire_bytes m padding (tr_payload tr))).
End reference.

Lemma tag_frames_sizes tid start toggle w cs : Forall (λ c, length c ≤ w) cs →
  Forall (λ f, length f ≤ S w) (tag_frames tid start toggle cs).
Proof.
  intros Hcs. revert start toggle. induction Hcs as [|c cs Hc Hcs IH]; intros; [constructor|].
  destruct (decide (cs = [])) as [->|].
  - cbn. apply Forall_singleton. rewrite length_app. cbn. lia.
  - rewrite tag_frames_cons by done. constructor; [rewrite length_app; cbn; lia|apply IH].
Qed.

Lemma chunks_le w l : 0 < w → Forall (λ c, length c ≤ w) (chunks w l).
Proof.
  intros Hw. destruct (chunks_sizes w l Hw) as (cs & c & -> & Hcs & Hc & _).
  apply Forall_app. split; [|by apply Forall_singleton]. eapply Forall_impl; [exact Hcs|]. cbn. lia.
Qed.

(** ** Transmission *)

Section push.
Context {I D Drv E : Type} `{Instant I D} `{QueueingDriver Drv I E}.
Implicit Types (d : Drv) (fs : list (list u8)).

Definition enqueue (q : list (Frame I)) (fs : list (Frame I)) : list (Frame I) :=
  fold_left (λ q f, insert_behind f q) fs q.

Lemma push_frame_spec ts id data d now : qd_inv d → 0 < qd_room d → length data ≤ FRAME_CAPACITY →
  ∃ d', push_frame ts id data d now = Ret (d', Ok tt) ∧ qd_inv d' ∧
    qd_queue d' = insert_behind (mkFrame ts id data) (qd_queue d) ∧ qd_room d ≤ S (qd_room d').
Proof.
  intros Hd Hroom Hlen. unfold push_frame, Frame_new. rewrite (proj2 (Nat.leb_le _ _) Hlen).
  cbn [mbind exec_bind].
  destruct (qd_transmit_spec d (mkFrame ts id data) now Hd) as (d' & r & -> & Hd' & Hok & Hr).
  cbn [mbind exec_bind]. rewrite (Hok Hroom) in *. by exists d'.
Qed.

Lemma push_payload_spec ts id now bytes bd bd' crc n d fs :
  Breakdown_add_all bd bytes = Ret (bd', fs) → Forall (λ f, length f ≤ FRAME_CAPACITY) fs →
  qd_inv d → length fs ≤ qd_room d →
  ∃ d', push_payload ts id now d bd crc n bytes =
      Ret (d', Ok (bd', crc_add_bytes crc bytes, n + length fs)) ∧ qd_inv d' ∧
    qd_queue d' = enqueue (qd_queue d) (mkFrame ts id <$> fs) ∧ qd_room d ≤ length fs + qd_room d'.
Proof.
  revert bd crc n d fs. induction bytes as [|b bytes IH]; intros bd crc n d fs Ha Hfs Hd Hroom.
  - injection Ha as <- <-. exists d. cbn. by rewrite Nat.add_0_r.
  - cbn [Breakdown_add_all push_payload] in *.
    destruct (Breakdown_add bd b) as [[bd1 out]|]; [|done]. cbn [mbind exec_bind] in *.
    destruct (Breakdown_add_all bd1 bytes) as [[bd2 rest]|] eqn:Er; [|done]. cbn [mbind exec_bind] in Ha.
    injection Ha as <- <-. destruct out as [f|].
    + apply Forall_cons in Hfs as [Hf Hfs]. cbn [length] in Hroom.
      destruct (push_frame_spec ts id f d now Hd ltac:(lia) Hf) as (d1 & -> & Hd1 & Hq1 & Hr1).
      cbn [mbind exec_bind].
      destruct (IH bd1 (crc_add crc b) (S n) d1 rest Er Hfs Hd1 ltac:(lia)) as (d' & -> & Hd' & Hq & Hr).
      exists d'. cbn [length]. split_and!; [|done|by rewrite Hq, Hq1|lia].
      by replace (n + S (length rest)) with (S n + length rest) by lia.
    + destruct (IH bd1 (crc_add crc b) n d rest Er Hfs Hd Hroom) as (d' & -> & Hd' & Hq & Hr).
      by exists d'.
Qed.

Lemma push_crc_spec ts id now bytes bd bd' d fs :
  Breakdown_add_all bd bytes = Ret (bd', fs) → Forall (λ f, length f ≤ FRAME_CAPACITY) fs →
  qd_inv d → length fs ≤ qd_room d →
  ∃ d', push_crc ts id now d bd bytes = Ret (d', Ok bd') ∧ qd_inv d' ∧
    qd_queue d' = enqueue (qd_queue d) (mkFrame ts id <$> fs) ∧ qd_room d ≤ length fs + qd_room d'.
Proof.
  revert bd d fs. induction bytes as [|b bytes IH]; intros bd d fs Ha Hfs Hd Hroom.
  - injection Ha as <- <-. by exists d.
  - cbn [Breakdown_add_all push_crc] in *.
    destruct (Breakdown_add bd b) as [[bd1 out]|]; [|done]. cbn [mbind exec_bind] in *.
    destruct (Breakdown_add_all bd1 bytes) as [[bd2 rest]|] eqn:Er; [|done]. cbn [mbind exec_bind] in Ha.
    injection Ha as <- <-. destruct out as [f|].
    + apply Forall_cons in Hfs as [Hf Hfs]. cbn [length] in Hroom.
      destruct (push_frame_spec ts id f d now Hd ltac:(lia) Hf) as (d1 & -> & Hd1 & Hq1 & Hr1).
      cbn [mbind exec_bind].
      destruct (IH bd1 d1 rest Er Hfs Hd1 ltac:(lia)) as (d' & -> & Hd' & Hq & Hr).
      exists d'. cbn [length]. split_and!; [done|done|by rewrite Hq, Hq1|lia].
    + destruct (IH bd1 d rest Er Hfs Hd Hroom) as (d' & -> & Hd' & Hq & Hr). by exists d'.
Qed.

(** Queueing frames of one identifier: behind the earlier ones, and nothing else moves. *)
Lemma enqueue_filter id (fs q : list (Frame I)) :
  Forall (λ f, frame_id f = id) fs → StronglySorted id_le q →
  filter (λ f, frame_id f = id) (enqueue q fs) = filter (λ f, frame_id f = id) q ++ fs ∧
  filter (λ f, frame_id f ≠ id) (enqueue q fs) = filter (λ f, frame_id f ≠ id) q.
Proof.
  intros Hfs. revert q. induction Hfs as [|f fs Hf _ IH]; intros q Hq; [by rewrite app_nil_r|].
  change (enqueue q (f :: fs)) with (enqueue (insert_behind f q) fs).
  destruct (IH (insert_behind f q)) as [-> ->]; [by apply insert_behind_sorted|].
  rewrite insert_behind_filter, decide_True, <- app_assoc by done. split; [done|].
  clear IH Hq. induction q as [|g q IHq]; cbn [insert_behind].
  - rewrite filter_cons, decide_False; naive_solver.
  - case_match; [by rewrite !filter_cons, IHq|]. rewrite filter_cons, decide_False; naive_solver.
Qed.

Lemma enqueue_app q (l k : list (Frame I)) : enqueue q (l ++ k) = enqueue (enqueue q l) k.
Proof. apply fold_left_app. Qed.
End push.

Lemma Breakdown_new_inv m tid : Breakdown_inv (as_bytes m - 1) (Breakdown_new (as_bytes m) tid).
Proof. destruct m; cbn; (split_and!; cbn; [done|lia|lia|lia]). Qed.

Lemma wire_bytes_length m padding payload :
  length (wire_bytes m padding payload) =
    length payload + padding + (if length payload <=? as_bytes m - 1 then 0 else 2).
Proof.
  unfold wire_bytes. cbn zeta. rewrite !length_app, length_replicate. by destruct (_ <=? _).
Qed.

(** The number of frames that is reserved is the number of frames sent. *)
Lemma wire_chunks m payload st : calculate_frame_stats (length payload) (as_bytes m) = Ret st →
  let w := as_bytes m - 1 in
  length (chunks w (wire_bytes m (last_frame_padding st) payload)) = frames st ∧
  (length (chunks w (payload ++ replicate (last_frame_padding st) 0%Z)) = 1 ↔ length payload ≤ w).
Proof.
  intros Hst w. assert (Hw : w = 7 ∨ w = 63) by (subst w; destruct m; cbn; lia).
  destruct (calculate_frame_stats_spec (length payload) m) as (st' & Hst' & Hst2). fold w in Hst2.
  rewrite Hst in Hst'. injection Hst' as <-. destruct Hst2 as (H1 & Hle & Hgt & Hone & _).
  rewrite !chunks_length, wire_bytes_length, length_app, length_replicate by lia. fold w.
  destruct (Nat.leb_spec (length payload) w).
  - assert (frames st = 1) as E by (by apply Hone). rewrite E in *. rewrite Nat.mul_1_l, Nat.add_0_r in *.
    assert ((length payload + last_frame_padding st + (w - 1)) / w ≤ 1) by (destruct Hw as [-> | ->]; dlia).
    split; [lia|]. split; [done|lia].
  - assert (frames st ≠ 1) by (rewrite Hone; lia). destruct Hgt as [|Hgt]; [done|]. split.
    + assert ((length payload + last_frame_padding st + 2 + (w - 1)) / w = frames st); [|lia].
      destruct Hw as [-> | ->]; dlia.
    + assert (2 ≤ (length payload + last_frame_padding st + (w - 1)) / w) by (destruct Hw as [-> | ->]; dlia). lia.
Qed.

(** The transmitter's use of the breakdown, for the whole of a transfer. *)
Lemma wire_breakdown m tid payload st : calculate_frame_stats (length payload) (as_bytes m) = Ret st →
  let padded := payload ++ replicate (last_frame_padding st) 0%Z in
  let crc := crc_add_bytes crc_new padded in
  ∃ bd1 fs1 bd2 fs2 lst,
    Breakdown_add_all (Breakdown_new (as_bytes m) tid) padded = Ret (bd1, fs1) ∧
    (if length fs1 =? 0 then bd2 = bd1 ∧ fs2 = []
     else Breakdown_add_all bd1 [as_u8 (Z.shiftr crc 8); as_u8 crc] = Ret (bd2, fs2)) ∧
    Breakdown_finish bd2 = Ret lst ∧
    fs1 ++ fs2 ++ [lst] = tag_frames tid true true
      (chunks (as_bytes m - 1) (wire_bytes m (last_frame_padding st) payload)) ∧
    Forall (λ f, length f ≤ FRAME_CAPACITY) (fs1 ++ fs2 ++ [lst]) ∧
    length (fs1 ++ fs2 ++ [lst]) = frames st.
Proof.
  intros Hst padded crc. destruct (wire_chunks m payload st Hst) as [Hfr Hsingle]. fold padded in Hsingle.
  pose proof (Breakdown_new_inv m tid) as Hbd0. set (w := as_bytes m - 1) in *.
  set (bd0 := Breakdown_new _ _) in *. set (bytes := wire_bytes _ _ _) in *.
  destruct (Breakdown_add_all_spec w bd0 bytes Hbd0) as (bd2 & fs & lst & Hadd & _ & Hfin & Htag).
  destruct (Breakdown_add_all_spec w bd0 padded Hbd0) as (bd1 & fs1 & lst1 & Hadd1 & _ & _ & Htag1).
  change (fs ++ [lst] = tag_frames tid true true (chunks w bytes)) in Htag.
  change (fs1 ++ [lst1] = tag_frames tid true true (chunks w padded)) in Htag1.
  apply (f_equal length) in Htag1. rewrite length_app, length_tag_frames in Htag1. cbn [length] in Htag1.
  unfold bytes, wire_bytes in Hadd. cbn zeta in Hadd. fold padded crc w in Hadd.
  rewrite Breakdown_add_all_app, Hadd1 in Hadd. cbn [mbind exec_bind] in Hadd.
  apply exec_bind_Ret in Hadd as ([bd2' fs2] & Hadd2 & Hret). injection Hret as -> <-.
  rewrite <- app_assoc in Htag. exists bd1, fs1, bd2, fs2, lst. split_and!; [done| |done|done|..].
  - destruct (Nat.leb_spec (length payload) w) as [Hle|Hgt].
    + rewrite (proj2 (Nat.eqb_eq _ _)) by (apply Hsingle in Hle; lia). by injection Hadd2 as <- <-.
    + rewrite (proj2 (Nat.eqb_neq _ _)); [done|]. intros E.
      assert (length payload ≤ w) by (apply Hsingle; lia). lia.
  - rewrite Htag. eapply Forall_impl; [apply (tag_frames_sizes _ _ _ w), chunks_le|]; subst w.
    + destruct m; cbn; lia.
    + intros f. unfold FRAME_CAPACITY. destruct m; cbn; lia.
  - by rewrite Htag, length_tag_frames.
Qed.

(** A subscription for payloads of [n] bytes has room for the padding and CRC of every
    shorter payload. *)
Lemma room_for_shorter m payload n size st :
  add_padding_and_crc_space n m = Ret size → length payload ≤ n →
  calculate_frame_stats (length payload) (as_bytes m) = Ret st →
  length (wire_bytes m (last_frame_padding st) payload) ≤ size.
Proof.
  intros Hsize Hn Hst. rewrite wire_bytes_length. unfold add_padding_and_crc_space in Hsize.
  destruct (calculate_frame_stats_spec n m) as (st' & Hst' & H1 & Hle & Hgt & Hone & Hv & _).
  destruct (calculate_frame_stats_spec (length payload) m) as (st2 & Hst2 & G1 & Gle & Ggt & Gone & _ & Gmin).
  rewrite Hst in Hst2. injection Hst2 as <-. rewrite Hst' in Hsize. cbn [mbind exec_bind] in Hsize.
  injection Hsize as <-. set (w := as_bytes m - 1) in *.
  assert (Hw : w = 7 ∨ w = 63) by (subst w; destruct m; cbn; lia).
  set (k := length payload) in *. clearbody k.
  set (cn := if n <=? w then 0 else 2) in *. set (ck := if k <=? w then 0 else 2) in *.
  assert (Hcn : cn = 0 ∧ n ≤ w ∨ cn = 2 ∧ w < n) by (subst cn; case_cmp; lia).
  assert (Hck : ck = 0 ∧ k ≤ w ∨ ck = 2 ∧ w < k) by (subst ck; case_cmp; lia).
  assert (Hc : (if 1 <? frames st' then 2 else 0) = cn) by (case_cmp; lia). rewrite Hc.
  destruct (decide (frames st = frames st')) as [E|E].
  - rewrite <- E in *. specialize (Gmin _ Hv).
    assert ((frames st - 1) * w ≤ k + ck) by (destruct Ggt as [-> |]; lia). lia.
  - assert (frames st < frames st'); destruct Hw as [-> | ->]; lia.
Qed.

Section push_spec.
Context {I D Drv E : Type} `{Instant I D} `{QueueingDriver Drv I E}.

Lemma push_inner_spec self m (tr : CanTransfer (list u8) I) now (d : Drv) :
  tx_mtu self = as_bytes m → header_valid (tr_header tr) → qd_inv d →
  ∃ st id d' r, calculate_frame_stats (length (tr_payload tr)) (as_bytes m) = Ret st ∧
    make_can_id (tr_header tr) (tr_payload tr) = Ret id ∧
    push_inner self tr now d = Ret (d', r) ∧ qd_inv d' ∧
    match r with
    | Ok _ => qd_queue d' = enqueue (qd_queue d) (wire_frames m (last_frame_padding st) id tr)
    | Err e => e = Other (CanMemory mkOutOfMemoryError) ∧ qd_queue d' = qd_queue d
    end.
Proof.
  intros Hm Hh Hd. unfold push_inner. rewrite Hm.
  destruct (calculate_frame_stats_spec (length (tr_payload tr)) m) as (st & Hst & _).
  destruct (make_can_id_layout (tr_header tr) (tr_payload tr) Hh) as [Hid _].
  set (id := id_layout _ _) in Hid. set (ts := timestamp (tr_header tr)).
  exists st, id. rewrite Hst, Hid. cbn [mbind exec_bind].
  destruct (qd_reserve_spec d (frames st) Hd) as (d1 & r1 & -> & Hd1 & Hq1 & Hroom). cbn [mbind exec_bind].
  destruct r1 as [[]|[]]; [|by exists d1, (Err (Other (CanMemory mkOutOfMemoryError)))].
  specialize (Hroom eq_refl).
  destruct (wire_breakdown m (transfer_id (tr_header tr)) (tr_payload tr) st Hst)
    as (bd1 & fs1 & bd2 & fs2 & lst & Hadd1 & Hadd2 & Hfin & Htag & Hcap & Hn). cbn zeta in Hadd2.
  rewrite !length_app in Hn. cbn [length] in Hn.
  apply Forall_app in Hcap as [Hcap1 [Hcap2 [Hlst _]%Forall_cons]%Forall_app].
  destruct (push_payload_spec ts id now _ _ bd1 crc_new 0 d1 fs1 Hadd1 Hcap1 Hd1 ltac:(lia))
    as (d2 & -> & Hd2 & Hq2 & Hr2). cbn [mbind exec_bind]. rewrite Nat.add_0_l.
  set (crc := crc_add_bytes _ _) in *.
  assert (Hcrc : ∃ d3, (if negb (length fs1 =? 0) then
      push_crc ts id now d2 bd1 [as_u8 (Z.shiftr crc 8); as_u8 crc]
      else Ret (d2, Ok bd1)) = Ret (d3, Ok bd2) ∧ qd_inv d3 ∧
    qd_queue d3 = enqueue (qd_queue d2) (mkFrame ts id <$> fs2) ∧ qd_room d2 ≤ length fs2 + qd_room d3).
  { destruct (length fs1 =? 0); cbn [negb]; [destruct Hadd2 as [-> ->]; by exists d2|].
    by apply push_crc_spec; [| |done|lia]. }
  destruct Hcrc as (d3 & -> & Hd3 & Hq3 & Hr3). cbn [mbind exec_bind]. rewrite Hfin. cbn [mbind exec_bind].
  destruct (push_frame_spec ts id lst d3 now Hd3 ltac:(lia) Hlst) as (d4 & -> & Hd4 & Hq4 & _).
  cbn [mbind exec_bind map_err]. exists d4, (Ok tt). split_and!; [done..|].
  unfold wire_frames. rewrite <- Htag, !fmap_app, !enqueue_app. by rewrite Hq4, Hq3, Hq2, Hq1.
Qed.
End push_spec.

(** ** Reception *)

Section reception.
Context {I D : Type} `{Instant I D}.
Implicit Types (rx : CanReceiver I D) (h : CanHeader I).

(** Giving frames to a receiver one by one; [alloc n] serves the frame with [n]
    frames after it. *)
Fixpoint feed (alloc : nat → nat → allocator) rx (fs : list (Frame I))
    : exec (CanReceiver I D * list (result OutOfMemoryError (option (CanTransfer (list u8) I)))) :=
  match fs with
  | [] => Ret (rx, [])
  | f :: fs' =>
      '(rx, r) ← accept_frame (alloc (length fs')) rx f;
      '(rx, rs) ← feed alloc rx fs';
      Ret (rx, r :: rs)
  end.

(** One frame of a transfer that is split over several frames. *)
Lemma accept_own alloc rx f h tail src timeout max se se' o :
  rx_ok rx → frame_sanity_check f = Ret (Some (h, tail)) → destined_here rx h = true →
  source h = Some src → CanNodeId_valid src →
  config_at rx (from_header h) (port_id h) = Some (timeout, max) →
  tb_start tail && tb_end tail = false →
  (∀ sub, rs_payload_size_max sub = max →
     session_for (D := D) alloc sub (session_at rx (from_header h) (port_id h) (Z.to_nat src)) h tail = Ok se) →
  Session_accept (alloc 2) se f h tail max timeout = Ret (se', Ok o) →
  ∃ rx', accept_frame alloc rx f = Ret (rx', Ok o) ∧
    session_at rx' (from_header h) (port_id h) (Z.to_nat src) = (if o is None then Some se' else None).
Proof.
  intros Hrx Hsane Hdest Hsrc Hv Hconf Hmulti Hfor Hacc. unfold accept_frame. rewrite Hsane.
  cbn [mbind exec_bind]. rewrite Hdest. unfold accept_sane_frame.
  set (kind := from_header h) in *. set (v := subscriptions_for_kind rx kind).
  unfold config_at in Hconf. fold v in Hconf.
  destruct (find_port (vec_list v) (port_id h)) as [[i sub]|] eqn:Ef; [|done]. injection Hconf as Ht Hm.
  pose proof Ef as (Hi & Hp & _)%list_find_Some. pose proof (proj1 Hrx kind) as Hsl. fold v in Hsl.
  assert (Hsub : sub_ok sub) by (by apply (Forall_lookup_1 _ _ _ _ (proj2 (proj2 Hsl)) Hi)).
  assert (Hn : Z.to_nat src < length (rs_sessions sub)).
  { destruct Hsub as [-> _]. unfold RX_SESSIONS_PER_SUBSCRIPTION, CanNodeId_valid, VALID_NODE_IDS_end in *. lia. }
  destruct (lookup_lt_is_Some_2 _ _ Hn) as [slot Hslot].
  assert (Hat : session_at rx kind (port_id h) (Z.to_nat src) = slot).
  { unfold session_at. fold v. by rewrite Ef, Hslot. }
  rewrite Hat in Hfor. specialize (Hfor sub Hm). cbn [snd] in Ht, Hm.
  assert (Hsa : Subscription_accept alloc sub f h tail =
    Ret (set_slot sub (Z.to_nat src) (if o is None then Some se' else None), Ok o)).
  { unfold Subscription_accept, accept_non_anonymous, accept_with_session.
    rewrite Hsrc, Hmulti, Hslot. cbn [unwrap mbind exec_bind]. rewrite Hfor, Hm, Ht, Hacc.
    cbn [mbind exec_bind]. by destruct o. }
  rewrite Hsa. cbn [mbind exec_bind]. set (sub' := set_slot _ _ _).
  assert (Hses : session_at (set_subscriptions rx kind (mkVec (<[i:=sub']> (vec_list v)) (vec_cap v)))
    kind (port_id h) (Z.to_nat src) = (if o is None then Some se' else None)).
  { unfold session_at. rewrite subscriptions_set, decide_True by done. cbn [vec_list].
    rewrite (find_port_insert _ i sub sub' (port_id h)), decide_True by done.
    subst sub'. cbn [set_slot rs_sessions]. by rewrite list_lookup_insert_eq. }
  destruct o as [tr|]; eexists; (split; [done|]); [|done]. rewrite <- Hses. by destruct kind.
Qed.

(** A transfer that fits into one frame. *)
Lemma accept_single alloc rx f h tail c t timeout max :
  frame_sanity_check f = Ret (Some (h, tail)) → destined_here rx h = true →
  frame_data f = c ++ [t] → (∀ n, alloc 0 n ≠ None) →
  config_at rx (from_header h) (port_id h) = Some (timeout, max) → length c ≤ max →
  tb_start tail && tb_end tail = true →
  ∃ rx', accept_frame alloc rx f = Ret (rx', Ok (Some (mkTransfer h c))).
Proof.
  intros Hsane Hdest Hf Ha Hconf Hlen Hone. unfold accept_frame. rewrite Hsane.
  cbn [mbind exec_bind]. rewrite Hdest. unfold accept_sane_frame, config_at in *.
  destruct (find_port _ (port_id h)) as [[i sub]|] eqn:Ef; [|done]. injection Hconf as Ht Hm.
  assert (Hs : single_frame_transfer (alloc 0) f h = Ret (Ok (Some (mkTransfer h c)))).
  { destruct (single_frame_transfer_spec (alloc 0) f h c t Hf) as (r & -> & Hr).
    destruct r as [[tr|]|e]; [by subst tr|done|]. destruct Hr as [_ [n Hn]]. by apply Ha in Hn. }
  assert (Hsa : Subscription_accept alloc sub f h tail = Ret (sub, Ok (Some (mkTransfer h c)))).
  { unfold Subscription_accept, accept_anonymous, accept_non_anonymous. rewrite Hone, Hf, length_app. cbn [length snd] in *.
    rewrite (proj2 (Nat.ltb_ge _ _)) by lia. rewrite Hs. by destruct (source h). }
  rewrite Hsa. cbn [mbind exec_bind]. by eexists.
Qed.

Lemma header_tid_valid h : header_valid h → CanTransferId_valid (transfer_id h).
Proof. destruct h; cbn; tauto. Qed.

Lemma header_source_valid h src : header_valid h → source h = Some src → CanNodeId_valid src.
Proof. destruct h; cbn; [intros (_ & _ & Hs); apply Hs|intros (_ & _ & ? & _) [= <-]; done..]. Qed.

Lemma set_timestamp_kind ts h : from_header (set_timestamp ts h) = from_header h.
Proof. by destruct h. Qed.
Lemma set_timestamp_dest ts rx h : destined_here rx (set_timestamp ts h) = destined_here rx h.
Proof. by destruct h. Qed.

(** A frame made by the transmitter passes the checks of the receiver. *)
Lemma sanity_of_wire f h c start end_ toggle payload :
  header_valid h → make_can_id h payload = Ret (frame_id f) →
  frame_data f = c ++ [make_tail_byte start end_ toggle (transfer_id h)] →
  (source h = None → start && end_ && toggle = true) →
  frame_sanity_check f =
    Ret (Some (set_timestamp (frame_timestamp f) h, mkTailByte start end_ toggle (transfer_id h))).
Proof.
  intros Hh Hid Hf Hanon. unfold frame_sanity_check. set (ts := frame_timestamp f).
  rewrite Hf, last_snoc, TailByte_parse_make by (by apply header_tid_valid). cbn [mbind exec_bind tb_transfer_id].
  destruct (parse_make_can_id (set_timestamp ts h) payload) as (id' & Hid' & _ & Hparse); [by destruct h|].
  assert (Hsame : make_can_id (set_timestamp ts h) payload = make_can_id h payload) by (by destruct h).
  rewrite Hsame, Hid in Hid'. injection Hid' as <-.
  destruct (set_timestamp_fields ts h) as (E1 & _ & _ & _ & E2). rewrite E1, E2 in Hparse.
  rewrite Hparse. cbn [mbind exec_bind].
  destruct h as [m|s|s]; cbn [set_timestamp mh_source tb_toggle tb_start tb_end]; [|done..].
  destruct (mh_source m) eqn:Em; [done|]. specialize (Hanon Em).
  by destruct start, end_, toggle.
Qed.

Lemma feed_total alloc rx fs : rx_ok rx → (∀ n k, alloc_ok (alloc n k)) → Forall frame_ok fs →
  ∃ rx' rs, feed alloc rx fs = Ret (rx', rs).
Proof.
  intros Hrx Ha Hfs. revert rx Hrx. induction Hfs as [|f fs Hf Hfs IH]; intros rx Hrx; cbn [feed]; [eauto|].
  destruct (accept_frame_spec (alloc (length fs)) rx f Hrx (Ha _) Hf) as (rx1 & r & -> & Hrx1 & _).
  cbn [mbind exec_bind]. destruct (IH rx1 Hrx1) as (rx' & rs & ->). cbn. eauto.
Qed.

(** The frames of a transfer, in order, among other frames that satisfy [P]. *)
Inductive interleaved (P : Frame I → Prop) : list (Frame I) → list (Frame I) → Prop :=
| interleaved_nil : interleaved P [] []
| interleaved_own f own all : interleaved P own all → interleaved P (f :: own) (f :: all)
| interleaved_other g own all : P g → interleaved P own all → interleaved P own (g :: all).

(** Frames that belong to no transfer of the same kind and port from the same node. *)
Definition foreign h (g : Frame I) : Prop :=
  frame_ok g ∧ ∀ h' tail, frame_sanity_check g = Ret (Some (h', tail)) →
    (from_header h', port_id h', Z.to_nat <$> source h') ≠ (from_header h, port_id h, Z.to_nat <$> source h).

Lemma interleaved_ok h own all :
  interleaved (foreign h) own all → Forall frame_ok own → Forall frame_ok all.
Proof.
  induction 1 as [|f own all _ IH|g own all [Hg _] _ IH]; [done| |auto].
  intros [? ?]%Forall_cons. auto.
Qed.

Section transfer.
Context (h : CanHeader I) (payload : list u8) (id : CanId) (src : CanNodeId) (timeout : D) (max : usize)
  (ts0 : I) (alloc : nat → nat → allocator).
Context (Hh : header_valid h) (Hid : make_can_id h payload = Ret id) (Hsrc : source h = Some src).
Context (Halloc : ∀ n k, alloc_ok (alloc n k)) (Hmem : ∀ n k c, alloc n k c ≠ None).

Let kind := from_header h.
Let port := port_id h.
Let node := Z.to_nat src.
Let tid := transfer_id h.

(** The receiver is subscribed, and the transfer is for it. *)
Definition listening rx : Prop :=
  rx_ok rx ∧ destined_here rx h = true ∧ config_at rx kind port = Some (timeout, max).

(** How far reassembly has come: [acc] was received in [j] frames. *)
Definition progress rx (start toggle : bool) (j : nat) (acc : list u8) : Prop :=
  if start then session_at rx kind port node = None ∧ acc = [] ∧ j = 0 ∧ toggle = true
  else 1 ≤ j ∧ ∃ cap, max ≤ cap ∧ session_at rx kind port node =
    Some (mkSession ts0 (mkBuildup tid j false toggle (mkVec acc cap))).

(** An arriving frame of the transfer: its data on the wire, and its time. *)
Definition arrives (f : Frame I) (data : list u8) : Prop :=
  frame_id f = id ∧ frame_data f = data ∧ frame_ok f ∧
  dur_gt (duration_since (frame_timestamp f) ts0) timeout = false.

Lemma listening_step n rx f rx' r : listening rx → frame_ok f →
  accept_frame (alloc n) rx f = Ret (rx', r) → listening rx'.
Proof.
  intros (Hrx & Hd & Hc) Hf Hacc.
  destruct (accept_frame_spec (alloc n) rx f Hrx (Halloc n) Hf) as (rx1 & r1 & Hacc1 & Hrx1 & Hid1 & _ & Hc1 & _).
  rewrite Hacc in Hacc1. injection Hacc1 as <- <-. split_and!; [done| |by rewrite Hc1].
  unfold destined_here in *. by rewrite Hid1.
Qed.

Lemma foreign_step n rx g start toggle j acc : listening rx → foreign h g → progress rx start toggle j acc →
  ∃ rx' r, accept_frame (alloc n) rx g = Ret (rx', r) ∧ listening rx' ∧ progress rx' start toggle j acc.
Proof.
  intros Hl [Hg Hfor] Hp.
  destruct (accept_frame_spec (alloc n) rx g (proj1 Hl) (Halloc n) Hg) as (rx' & r & Hacc & _ & _ & Hiso & _).
  exists rx', r. split_and!; [done|by eapply listening_step|].
  assert (session_at rx' kind port node = session_at rx kind port node) as E.
  { apply Hiso. intros h' tail Hs. specialize (Hfor h' tail Hs). rewrite Hsrc in Hfor.
    intros E. apply Hfor. by rewrite <- E. }
  unfold progress in *. by rewrite E.
Qed.

(** What the next frame of the transfer does to the session. *)
Lemma session_step n (rx : CanReceiver I D) f c e start toggle j acc :
  arrives f (c ++ [make_tail_byte start e toggle tid]) → (start = true → frame_timestamp f = ts0) →
  progress rx start toggle j acc → length acc + length c ≤ max →
  ∃ cap, max ≤ cap ∧
    let se := mkSession ts0 (mkBuildup tid j start toggle (mkVec acc cap)) in
    (∀ sub, rs_payload_size_max sub = max →
       session_for (D := D) (alloc n) sub (session_at rx kind port node) (set_timestamp (frame_timestamp f) h)
         (mkTailByte start e toggle tid) = Ok se) ∧
    Session_accept (alloc n 2) se f (set_timestamp (frame_timestamp f) h) (mkTailByte start e toggle tid) max timeout =
      if e then
        r ← handle_transfer_data (mkSession ts0 (mkBuildup tid (S j) false (negb toggle) vec_new)) (acc ++ c)
              (set_timestamp (frame_timestamp f) h);
        Ret (mkSession ts0 (mkBuildup tid (S j) false (negb toggle) vec_new), r)
      else Ret (mkSession ts0 (mkBuildup tid (S j) false (negb toggle) (mkVec (acc ++ c) cap)), Ok None).
Proof.
  intros (Hfid & Hfd & Hfok & Htime) Hstart Hp Hfit.
  assert (Hacc : ∀ cap, max ≤ cap → Session_accept (alloc n 2)
    (mkSession ts0 (mkBuildup tid j start toggle (mkVec acc cap))) f (set_timestamp (frame_timestamp f) h)
    (mkTailByte start e toggle tid) max timeout =
      if e then
        r ← handle_transfer_data (mkSession ts0 (mkBuildup tid (S j) false (negb toggle) vec_new)) (acc ++ c)
              (set_timestamp (frame_timestamp f) h);
        Ret (mkSession ts0 (mkBuildup tid (S j) false (negb toggle) vec_new), r)
      else Ret (mkSession ts0 (mkBuildup tid (S j) false (negb toggle) (mkVec (acc ++ c) cap)), Ok None)).
  { intros cap Hcap. unfold Session_accept, payload_length, vec_len, usize_sub.
    cbn [tb_transfer_id se_buildup bu_transfer_id bu_transfer vec_list se_transfer_timestamp].
    rewrite Z.eqb_refl, Hfd, length_app. cbn [negb length].
    rewrite (proj2 (Nat.leb_le 1 _)), Nat.add_sub by lia. cbn [mbind exec_bind].
    rewrite (proj2 (Nat.ltb_ge _ _)) by done. rewrite Htime.
    pose proof (Buildup_add_tagged (alloc n 2) (mkBuildup tid j start toggle (mkVec acc cap)) c e) as Hb.
    cbn [bu_transfer_id bu_expect_start bu_expect_toggle bu_frames bu_transfer vec_list vec_cap] in Hb.
    rewrite Hb; [|by apply header_tid_valid|unfold vec_len; cbn; lia]. cbn [mbind exec_bind].
    by destruct e. }
  unfold progress in Hp. destruct start.
  - destruct Hp as (Hs & -> & -> & ->). rewrite Hs.
    destruct (Buildup_new (alloc n 0) tid max) as [bu|] eqn:Eb.
    + apply Buildup_new_Ok in Eb as Hbu; [|done]. destruct Hbu as (cap & -> & Hcap). exists cap.
      cbn zeta. split_and!; [done| |by apply Hacc]. intros sub Hsub. unfold session_for, Session_new.
      cbn [tb_start negb tb_transfer_id]. rewrite Hsub, Eb. cbn.
      destruct (alloc n 1 1) eqn:E1; [|by apply Hmem in E1].
      rewrite (proj1 (set_timestamp_fields _ _)), Hstart by done. done.
    + unfold Buildup_new, vec_with_capacity in Eb. destruct (max =? 0); [done|].
      destruct (alloc n 0 max) eqn:E0; [done|by apply Hmem in E0].
  - destruct Hp as (_ & cap & Hcap & Hs). exists cap. rewrite Hs. cbn zeta. split_and!; [done..|by apply Hacc].
Qed.

Lemma own_step n (rx : CanReceiver I D) f c e start toggle j acc :
  listening rx → arrives f (c ++ [make_tail_byte start e toggle tid]) →
  (start = true → frame_timestamp f = ts0) → progress rx start toggle j acc → length acc + length c ≤ max →
  start && e = false → (e = true → crc_add_bytes crc_new (acc ++ c) = 0%Z ∧ 2 ≤ length (acc ++ c)) →
  ∃ rx' r, accept_frame (alloc n) rx f = Ret (rx', r) ∧ listening rx' ∧
    if e then r = Ok (Some (mkTransfer (set_timestamp ts0 h) (take (length (acc ++ c) - 2) (acc ++ c))))
    else progress rx' false (negb toggle) (S j) (acc ++ c).
Proof.
  intros Hl Harr Hstart Hp Hfit Hse Hcrc.
  destruct (session_step n rx f c e start toggle j acc Harr Hstart Hp Hfit) as (cap & Hcap & Hfor & Hacc).
  pose proof Harr as (Hfid & Hfd & Hfok & _). pose proof Hl as (Hrx & Hdest & Hconf).
  destruct (set_timestamp_fields (frame_timestamp f) h) as (_ & _ & Es & Ep & _).
  assert (Ek : from_header (set_timestamp (frame_timestamp f) h) = kind) by apply set_timestamp_kind.
  assert (Hd : destined_here rx (set_timestamp (frame_timestamp f) h) = true) by (by rewrite set_timestamp_dest).
  assert (Hsane : frame_sanity_check f =
    Ret (Some (set_timestamp (frame_timestamp f) h, mkTailByte start e toggle tid))).
  { apply (sanity_of_wire f h c start e toggle payload); [done|by rewrite Hfid|done|congruence]. }
  set (hf := set_timestamp (frame_timestamp f) h) in *.
  set (o := if e then Some (mkTransfer (set_timestamp ts0 h) (take (length (acc ++ c) - 2) (acc ++ c))) else None).
  set (se' := mkSession ts0 (mkBuildup tid (S j) false (negb toggle) (if e then vec_new else mkVec (acc ++ c) cap))).
  assert (Hacc' : Session_accept (alloc n 2) (mkSession ts0 (mkBuildup tid j start toggle (mkVec acc cap))) f hf
    (mkTailByte start e toggle tid) max timeout = Ret (se', Ok o)).
  { rewrite Hacc. subst o se'. destruct e; [|done]. unfold handle_transfer_data. cbn [se_buildup bu_frames].
    destruct (Hcrc eq_refl) as [Hz Hlen]. rewrite Hz, Z.eqb_refl. cbn [negb].
    assert (1 ≤ j) as Hj by (unfold progress in Hp; destruct start; [done|]; apply Hp).
    rewrite (proj2 (Nat.ltb_lt 1 (S j))) by lia. unfold usize_sub. rewrite (proj2 (Nat.leb_le 2 _)) by done.
    cbn [mbind exec_bind se_transfer_timestamp]. subst hf. by rewrite set_timestamp_twice. }
  destruct (accept_own (alloc n) rx f hf (mkTailByte start e toggle tid) src timeout max
    (mkSession ts0 (mkBuildup tid j start toggle (mkVec acc cap))) se' o Hrx Hsane Hd)
    as (rx' & Hrx' & Hsess); [by rewrite Es|by apply (header_source_valid h)|by rewrite Ek, Ep|done| |done|].
  { rewrite Ek, Ep. done. }
  exists rx', (Ok o). split_and!; [done|by eapply listening_step|].
  subst o se'. destruct e; [done|]. cbn. split; [lia|]. exists cap. rewrite <- Hsess, Ek, Ep. done.
Qed.

Lemma feed_transfer cs : ∀ own all rx start toggle j acc,
  interleaved (foreign h) own all → cs ≠ [] → (start = true → 2 ≤ length cs) →
  Forall2 arrives own (tag_frames tid start toggle cs) →
  (start = true → head (frame_timestamp <$> own) = Some ts0) →
  listening rx → progress rx start toggle j acc → length acc + length (concat cs) ≤ max →
  crc_add_bytes crc_new (acc ++ concat cs) = 0%Z → 2 ≤ length (acc ++ concat cs) →
  ∃ rx' rs, feed alloc rx all = Ret (rx', rs) ∧
    Ok (Some (mkTransfer (set_timestamp ts0 h)
      (take (length (acc ++ concat cs) - 2) (acc ++ concat cs)))) ∈ rs.
Proof.
  intros own all rx start toggle j acc Hint. revert cs rx start toggle j acc.
  induction Hint as [|f own all Hint IH|g own all Hg Hint IH];
    intros cs rx start toggle j acc Hne Hmulti Harr Hts Hl Hp Hfit Hcrc Hlen.
  - apply Forall2_nil_inv_l in Harr. apply (f_equal length) in Harr. rewrite length_tag_frames in Harr.
    by destruct cs.
  - destruct cs as [|c cs]; [done|]. cbn [feed]. cbn [concat] in *.
    assert (Hts' : start = true → frame_timestamp f = ts0) by (intros E; specialize (Hts E); cbn in Hts; congruence).
    destruct (decide (cs = [])) as [->|Hcs].
    + cbn [tag_frames concat] in *. rewrite app_nil_r in *. apply Forall2_cons in Harr as [Hf Hrest].
      apply Forall2_nil_inv_r in Hrest. subst own.
      destruct (own_step (length all) rx f c true start toggle j acc Hl Hf Hts' Hp Hfit) as (rx1 & r & -> & Hl1 & ->);
        [destruct start; [by specialize (Hmulti eq_refl); cbn in Hmulti; lia|done]|done|].
      cbn [mbind exec_bind].
      destruct (feed_total alloc rx1 all (proj1 Hl1) Halloc) as (rx' & rs & ->).
      { by apply (interleaved_ok h [] all). }
      cbn [mbind exec_bind]. eexists _, _. split; [done|]. apply list_elem_of_here.
    + rewrite tag_frames_cons in Harr by done. apply Forall2_cons in Harr as [Hf Hrest].
      rewrite length_app in Hfit.
      destruct (own_step (length all) rx f c false start toggle j acc Hl Hf Hts' Hp) as (rx1 & r & -> & Hl1 & Hp1);
        [lia|by rewrite andb_false_r|done|].
      cbn [mbind exec_bind]. rewrite app_assoc in *.
      destruct (IH cs rx1 false (negb toggle) (S j) (acc ++ c)) as (rx' & rs & -> & Hin);
        [done|done|done|done|done|done|rewrite length_app; lia|done|done|].
      cbn [mbind exec_bind]. eexists _, _. split; [done|]. by apply list_elem_of_further.
  - cbn [feed]. destruct (foreign_step (length all) rx g start toggle j acc Hl Hg Hp) as (rx1 & r & -> & Hl1 & Hp1).
    cbn [mbind exec_bind].
    destruct (IH cs rx1 start toggle j acc) as (rx' & rs & -> & Hin); [done..|].
    cbn [mbind exec_bind]. eexists _, _. split; [done|]. by apply list_elem_of_further.
Qed.
End transfer.
End reception.

(** The data of the frames of a transfer are well-formed. *)
Lemma wire_data_ok m padding payload tid : bytes_ok payload → CanTransferId_valid tid →
  Forall (λ data, bytes_ok data ∧ length data ≤ FRAME_CAPACITY)
    (tag_frames tid true true (chunks (as_bytes m - 1) (wire_bytes m padding payload))).
Proof.
  intros Hp Ht. assert (Hw : 0 < as_bytes m - 1) by (destruct m; cbn; lia).
  assert (Hb : bytes_ok (wire_bytes m padding payload)).
  { unfold wire_bytes. rewrite !Forall_app. split_and!; [done|by apply Forall_replicate|].
    case_match; [done|]. repeat constructor; by apply is_u_wrap. }
  apply Forall_and. split.
  - generalize true at 1. generalize true. intros toggle start.
    revert start toggle. induction (chunks_Forall (as_bytes m - 1) byte_ok _ Hw Hb) as [|c cs Hc Hcs IH];
      intros; [constructor|].
    assert (Hone : ∀ e, bytes_ok (c ++ [make_tail_byte start e toggle tid])).
    { intros e. apply Forall_app. split; [done|]. apply Forall_singleton. by apply make_tail_byte_is_u. }
    destruct (decide (cs = [])) as [->|]; [by constructor|].
    rewrite tag_frames_cons by done. constructor; [done|apply IH].
  - eapply Forall_impl; [apply (tag_frames_sizes _ _ _ (as_bytes m - 1)), chunks_le, Hw|].
    intros f. unfold FRAME_CAPACITY. destruct m; cbn; lia.
Qed.

(** ** Claims *)

Section claims.
Context {I D Drv E : Type} `{Instant I D}.

(** C5: sending a transfer is all or nothing. It never panics; either the driver
    cannot reserve space, the queue is unchanged and the error is counted, or all
    frames of the transfer are queued, in order, behind the frames with the same
    identifier that were there before, and the transfer is counted. The frames are
    the reference layout: payload, padding, CRC if needed, tail bytes. *)
Theorem push_all_or_nothing `{QueueingDriver Drv I E} (self : CanTransmitter) m
    (tr : CanTransfer (list u8) I) now (d : Drv) :
  tx_mtu self = as_bytes m → header_valid (tr_header tr) → qd_inv d →
  ∃ st id self' d' r, calculate_frame_stats (length (tr_payload tr)) (as_bytes m) = Ret st ∧
    make_can_id (tr_header tr) (tr_payload tr) = Ret id ∧
    push self tr now d = Ret (self', d', r) ∧ qd_inv d' ∧ tx_mtu self' = tx_mtu self ∧
    match r with
    | Ok _ =>
        tx_transfer_count self' = wrapping_add 64 (tx_transfer_count self) 1 ∧
        tx_error_count self' = tx_error_count self ∧
        filter (λ f, frame_id f = id) (qd_queue d') =
          filter (λ f, frame_id f = id) (qd_queue d) ++ wire_frames m (last_frame_padding st) id tr ∧
        filter (λ f, frame_id f ≠ id) (qd_queue d') = filter (λ f, frame_id f ≠ id) (qd_queue d)
    | Err e =>
        e = Other (CanMemory mkOutOfMemoryError) ∧ qd_queue d' = qd_queue d ∧
        tx_transfer_count self' = tx_transfer_count self ∧
        tx_error_count self' = wrapping_add 64 (tx_error_count self) 1
    end.
Proof.
  intros Hm Hh Hd. destruct (push_inner_spec self m tr now d Hm Hh Hd)
    as (st & id & d' & r & Hst & Hid & Hp & Hd' & Hr). unfold push. rewrite Hp. cbn [mbind exec_bind].
  exists st, id. destruct r as [u|e]; eexists _, d', _; (split_and!; [done..|]).
  - assert (Hall : Forall (λ f, frame_id f = id) (wire_frames m (last_frame_padding st) id tr)).
    { unfold wire_frames. apply Forall_fmap. by apply Forall_true. }
    destruct (enqueue_filter id _ (qd_queue d) Hall (qd_sorted d Hd)) as [? ?]. by rewrite Hr.
  - by destruct Hr.
Qed.

(** An arriving copy of a frame of a transfer: the identifier and data of the wire,
    any time within the timeout of the first frame. *)
Definition received (id : CanId) (ts0 : I) (timeout : D) (f : Frame I) (data : list u8) : Prop :=
  frame_id f = id ∧ frame_data f = data ∧
  dur_gt (duration_since (frame_timestamp f) ts0) timeout = false.

Lemma received_arrives id ts0 timeout own datas :
  CanId_valid id → Forall (λ data, bytes_ok data ∧ length data ≤ FRAME_CAPACITY) datas →
  Forall2 (received id ts0 timeout) own datas → Forall2 (arrives id timeout ts0) own datas.
Proof.
  intros Hid Hd. induction 1 as [|f data own datas (Hi & Hf & Ht) _ IH]; [constructor|].
  apply Forall_cons in Hd as [[Hb Hl] Hd]. constructor; [|auto].
  split_and!; [done..| |done]. unfold frame_ok. by rewrite Hi, Hf.
Qed.

(** Delivery of a transfer of one frame. *)
Lemma feed_single h payload id ts0 timeout max alloc c toggle own_f all (rx : CanReceiver I D) :
  header_valid h → make_can_id h payload = Ret id →
  (∀ n k, alloc_ok (alloc n k)) → (∀ n k c, alloc n k c ≠ None) → toggle = true →
  interleaved (foreign h) [own_f] all →
  arrives id timeout ts0 own_f (c ++ [make_tail_byte true true toggle (transfer_id h)]) →
  listening h timeout max rx → length c ≤ max → frame_timestamp own_f = ts0 →
  ∃ rx' rs, feed alloc rx all = Ret (rx', rs) ∧ Ok (Some (mkTransfer (set_timestamp ts0 h) c)) ∈ rs.
Proof.
  intros Hh Hid Ha Hmem -> Hint Harr Hl Hlen Hts. revert rx Hl.
  remember [own_f] as own eqn:Eown. induction Hint as [|f own all Hint _|g own all [Hg _] Hint IH]; intros rx Hl.
  - done.
  - injection Eown as -> ->. cbn [feed]. destruct Harr as (Hfi & Hfd & Hfok & _).
    destruct (accept_single (alloc (length all)) rx own_f (set_timestamp ts0 h)
      (mkTailByte true true true (transfer_id h)) c (make_tail_byte true true true (transfer_id h)) timeout max)
      as (rx1 & Hacc); try done.
    + rewrite <- Hts. by apply (sanity_of_wire own_f h c true true true payload); [|rewrite Hfi| |].
    + rewrite set_timestamp_dest. apply Hl.
    + destruct (set_timestamp_fields ts0 h) as (_ & _ & _ & -> & _). rewrite set_timestamp_kind. apply Hl.
    + rewrite Hacc. cbn [mbind exec_bind].
      assert (Hl1 : listening h timeout max rx1) by (by eapply listening_step).
      destruct (feed_total alloc rx1 all (proj1 Hl1) Ha) as (rx' & rs & ->).
      { by apply (interleaved_ok h [] all). }
      cbn [mbind exec_bind]. eexists _, _. split; [done|]. apply list_elem_of_here.
  - cbn [feed]. destruct (accept_frame_spec (alloc (length all)) rx g (proj1 Hl) (Ha _) Hg)
      as (rx1 & r & Hacc & _). rewrite Hacc. cbn [mbind exec_bind].
    assert (Hl1 : listening h timeout max rx1) by (by eapply listening_step).
    destruct (IH Eown rx1 Hl1) as (rx' & rs & -> & Hin). cbn [mbind exec_bind].
    eexists _, _. split; [done|]. by apply list_elem_of_further.
Qed.

End claims.

(** ** Witnesses *)

Module LinkExample.
Import RxExample.
Definition h : CanHeader Microseconds32 := Message (mkMessageHeader (us 0) 3%Z Nominal 7509%Z (Some 7%Z)).
Definition payload : list u8 := [1; 2; 3; 4; 5; 6; 7; 8; 9; 10]%Z.
Definition id : CanId := 0x107d5507%Z.
Definition ts0 := us (2 ^ 32 - 3).

(** The two frames of the transfer, before and after the clock wraps around. *)
Definition own : list (Frame Microseconds32) :=
  [mkFrame ts0 id [1; 2; 3; 4; 5; 6; 7; 0xa3]%Z; mkFrame (us 4) id [8; 9; 10; 44; 114; 0x43]%Z].
(** A frame of another node in between. *)
Definition other : Frame Microseconds32 := mkFrame (us 1) 0x107d5508%Z [1; 2; 3; 4; 5; 6; 7; 0xa3]%Z.

Lemma h_valid : header_valid h.
Proof.
  unfold h, header_valid, SubjectId_valid, CanTransferId_valid, CanNodeId_valid. cbn.
  unfold VALID_SUBJECT_IDS_end, VALID_TRANSFER_IDS_end, VALID_NODE_IDS_end.
  split_and!; try lia. intros n [= <-]. lia.
Qed.

Lemma own_received : Forall2 (received id ts0 (dur 1000000)) own
  (tag_frames (transfer_id h) true true (chunks (as_bytes Can8 - 1) (wire_bytes Can8 0 payload))).
Proof. repeat constructor. Qed.

Lemma other_foreign : foreign h other.
Proof.
  split.
  - split_and!; [split; vm_compute; congruence|repeat constructor; unfold byte_ok, is_u; lia|vm_compute; lia].
  - intros h' tail Hs. vm_compute in Hs. injection Hs as <- <-. vm_compute. intros [=].
Qed.
End LinkExample.


#[local] Existing Instance QueueExample.inh.

Lemma push_all_or_nothing_witness :
  let Hd := queue_only_transmit 4 in
  ∃ self' d' r, push (CanTransmitter_new Can8) (mkTransfer LinkExample.h LinkExample.payload) (RxExample.us 0)
      (QueueOnlyDriver_new 4) = Ret (self', d', r) ∧ tx_mtu self' = 8.
Proof.
  intros Hd.
  destruct (push_all_or_nothing (H2 := queue_only_queueing 4)
    (CanTransmitter_new Can8) Can8 (mkTransfer LinkExample.h LinkExample.payload) (RxExample.us 0)
    (QueueOnlyDriver_new 4))
    as (st & id & self' & d' & r & _ & _ & Hp & _ & Hm & _);
    [reflexivity|exact LinkExample.h_valid|apply (ArrayQueue_new_inv 4)|].
  exists self', d', r. split; [exact Hp|exact Hm].
Defined.
