(* ===== verification/CanFilters.v ===== *)
(** * Acceptance filters

    Models [canadensis_filter_config/src/lib.rs] (mask filters for extended CAN
    identifiers and the algorithm that merges them down to the number the hardware
    has) and the filter functions of [canadensis_can/src/driver.rs], which turn
    subscriptions into filters.

    The merge loop runs with fuel, and running out of it counts as a panic: the
    theorem that [optimize] returns also shows that the loop ends. *)

From S2P Require Import Prelude CoreTypes Transfer Subscriptions CanTypes CanFraming CanIds.

Local Open Scope Z_scope.

Definition EXTENDED_ID_MASK : u32 := 0x1fffffff.
Definition VALID_BIT : u32 := 0x80000000.

Record Filter := mkFilter { filter_mask : u32; id_and_valid : u32 }.

Definition Filter_new (mask id : u32) : Filter :=
  mkFilter (Z.land mask EXTENDED_ID_MASK) (Z.lor (Z.land id EXTENDED_ID_MASK) VALID_BIT).
Definition exact_match (id : u32) : Filter := Filter_new EXTENDED_ID_MASK id.
Definition filter_id (f : Filter) : u32 := Z.land (id_and_valid f) EXTENDED_ID_MASK.
Definition is_valid (f : Filter) : bool := negb (Z.land (id_and_valid f) VALID_BIT =? 0).
Definition invalidate (f : Filter) : Filter := mkFilter 0 0.

(** [count_ones] of a [u32]. *)
Definition count_ones (z : u32) : nat := length (List.filter (λ i, Z.testbit z (Z.of_nat i)) (seq 0 32)).
Definition rank (f : Filter) : nat := count_ones (filter_mask f).

Definition accepts (f : Filter) (id : u32) : bool :=
  Z.land (filter_mask f) id =? Z.land (filter_mask f) (filter_id f).

Definition merge_masks (a b : Filter) : u32 :=
  Z.land (Z.land (filter_mask a) (filter_mask b)) (unot 32 (Z.lxor (filter_id a) (filter_id b))).
Definition merge (a b : Filter) : Filter :=
  let mask := merge_masks a b in
  Filter_new mask (Z.land (filter_id a) mask).

Definition count_valid (l : list Filter) : nat := length (List.filter is_valid l).

(** The pairs [(i, j)] of the two nested loops, in order. *)
Definition index_pairs (n : nat) : list (nat * nat) :=
  flat_map (λ i, map (λ j, (i, j)) (seq (i + 1) (n - (i + 1)))) (seq 0 n).

(** The body of the nested loops: keeps the last pair of valid filters with the
    greatest rank when merged. *)
Definition better_pair (working : list Filter) (best : exec (nat * (nat * nat))) (ij : nat * nat)
    : exec (nat * (nat * nat)) :=
  '(max_rank, max_rank_indices) ← best;
  filter1 ← index working ij.1;
  filter2 ← index working ij.2;
  if is_valid filter1 && is_valid filter2 then
    let r := rank (merge filter1 filter2) in
    if (max_rank <=? r)%nat then Ret (r, ij) else Ret (max_rank, max_rank_indices)
  else Ret (max_rank, max_rank_indices).

Definition best_pair (working : list Filter) : exec (nat * nat) :=
  snd <$> fold_left (better_pair working) (index_pairs (length working)) (Ret (0%nat, (0%nat, 0%nat))).

Fixpoint merge_loop (fuel : nat) (p : profile) (working : list Filter) (valid_filters max_filters : nat)
    : exec (list Filter) :=
  match fuel with
  | 0%nat => Panic
  | S fuel' =>
      if (max_filters <? valid_filters)%nat then
        '(i, j) ← best_pair working;
        a ← index working i;
        b ← index working j;
        working ← assign working i (merge a b);
        b ← index working j;
        working ← assign working j (invalidate b);
        let valid_filters := (valid_filters - 1)%nat in
        _ ← debug_assert p (valid_filters =? count_valid working)%nat;
        merge_loop fuel' p working valid_filters max_filters
      else Ret working
  end.

Definition merge_filters (p : profile) (working : list Filter) (max_filters : nat) : exec (list Filter) :=
  _ ← assert_ (negb (max_filters =? 0)%nat);
  merge_loop (S (length working)) p working (length working) max_filters.

(** The inner loop of [compact]: a valid filter moves ahead of the invalid ones. *)
Fixpoint compact_inner (j : nat) (filters : list Filter) : exec (list Filter) :=
  match j with
  | 0%nat => Ret filters
  | S j' =>
      a ← index filters j';
      if negb (is_valid a) then
        b ← index filters j;
        if is_valid b then
          filters ← swap filters j' j;
          compact_inner j' filters
        else Ret filters
      else Ret filters
  end.

Definition compact (filters : list Filter) : exec (list Filter) :=
  fold_left (λ acc i, filters ← acc; compact_inner i filters) (seq 1 (length filters - 1)) (Ret filters).

Fixpoint first_invalid (l : list Filter) : nat :=
  match l with
  | [] => 0
  | f :: l' => if is_valid f then S (first_invalid l') else 0
  end.

Definition optimize (p : profile) (ideal_filters : list Filter) (max_filters : nat)
    : exec (list Filter) :=
  if (max_filters =? 0)%nat then Ret []
  else
    working ← merge_filters p ideal_filters max_filters;
    _ ← debug_assert p (count_valid working <=? max_filters)%nat;
    working ← compact working;
    let n := first_invalid working in
    _ ← debug_assert p (forallb is_valid (take n working));
    _ ← debug_assert p (negb (existsb is_valid (drop n working)));
    Ret (take n working).

(** ** Filters for subscriptions *)

Definition subject_filter (subject : SubjectId) : Filter :=
  Filter_new 0x29fff80 (Z.lor 0x600000 (shl 32 subject 8)).
Definition request_filter (service : ServiceId) (destination : CanNodeId) : Filter :=
  let dynamic_id_bits := Z.lor (shl 32 service 14) (shl 32 destination 7) in
  Filter_new 0x3ffff80 (Z.lor 0x3000000 dynamic_id_bits).
Definition response_filter (service : ServiceId) (destination : CanNodeId) : Filter :=
  let dynamic_id_bits := Z.lor (shl 32 service 14) (shl 32 destination 7) in
  Filter_new 0x3ffff80 (Z.lor 0x2000000 dynamic_id_bits).

Definition make_filter (subscription : Subscription) (local_node : option CanNodeId) : option Filter :=
  match subscription with
  | SubMessage subject => Some (subject_filter subject)
  | SubRequest service => request_filter service <$> local_node
  | SubResponse service => response_filter service <$> local_node
  end.

(** The filters are collected in a vector; [alloc k] answers the [k]-th push. *)
Fixpoint collect_filters (alloc : nat → allocator) (k : nat) (local_node : option CanNodeId)
    (filters : vec Filter) (subscriptions : list Subscription) : option (vec Filter) :=
  match subscriptions with
  | [] => Some filters
  | s :: rest =>
      match make_filter s local_node with
      | Some f =>
          match vec_push (alloc k) filters f with
          | Some v => collect_filters alloc (S k) local_node v rest
          | None => None
          end
      | None => collect_filters alloc k local_node filters rest
      end
  end.

(** What the callback is given. *)
Definition optimize_filters (p : profile) (alloc : nat → allocator) (local_node : option CanNodeId)
    (subscriptions : list Subscription) (max_filters : nat)
    : exec (result OutOfMemoryError (list Filter)) :=
  match collect_filters alloc 0 local_node vec_new subscriptions with
  | None => Ret (Err mkOutOfMemoryError)
  | Some filters => Ok <$> optimize p (vec_list filters) max_filters
  end.
