(* ===== verification/CanFiltersSpec.v ===== *)
(** * Correctness of the acceptance filters

    A filter made for a subscription accepts exactly the identifiers of the transfers
    it is for, merging filters never loses an identifier, and [optimize] leaves at
    most the number of filters asked for. *)

From S2P Require Import Prelude CoreTypes Transfer Subscriptions CanTypes CanFraming CanIds.
From S2P Require Import Time CanRx CanRxSafety CanFilters.

Local Open Scope Z_scope.

(** ** Single filters *)

Lemma accepts_bits f id :
  accepts f id = true ↔
  ∀ k, 0 ≤ k → Z.testbit (filter_mask f) k = true → Z.testbit id k = Z.testbit (filter_id f) k.
Proof.
  unfold accepts. rewrite Z.eqb_eq. split.
  - intros E k Hk Hm. apply (f_equal (λ z, Z.testbit z k)) in E. rewrite !Z.land_spec, Hm in E. done.
  - intros E. apply Z.bits_inj'. intros k Hk. rewrite !Z.land_spec.
    destruct (Z.testbit (filter_mask f) k) eqn:Em; [|done]. by rewrite E.
Qed.

Lemma testbit_ext_mask k : 0 ≤ k → Z.testbit EXTENDED_ID_MASK k = (k <? 29).
Proof.
  intros. unfold EXTENDED_ID_MASK. change 0x1fffffff with (Z.ones 29). case_cmp.
  - by apply Z.ones_spec_low.
  - by apply Z.ones_spec_high.
Qed.

Lemma testbit_valid_bit k : 0 ≤ k → Z.testbit VALID_BIT k = (k =? 31).
Proof.
  intros. unfold VALID_BIT. change 0x80000000 with (2 ^ 31). rewrite Z.pow2_bits_eqb by done.
  apply Z.eqb_sym.
Qed.

Lemma Filter_new_id mask id : filter_id (Filter_new mask id) = Z.land id EXTENDED_ID_MASK.
Proof.
  unfold filter_id, Filter_new. cbn. apply Z.bits_inj'. intros k Hk.
  rewrite !Z.land_spec, Z.lor_spec, Z.land_spec, testbit_ext_mask, testbit_valid_bit by done.
  destruct (Z.testbit id k); repeat case_cmp; done || lia.
Qed.

Lemma Filter_new_valid mask id : is_valid (Filter_new mask id) = true.
Proof.
  unfold is_valid, Filter_new. cbn. apply negb_true_iff, Z.eqb_neq. intros E.
  apply (f_equal (λ z, Z.testbit z 31)) in E. revert E.
  rewrite Z.land_spec, Z.lor_spec, Z.land_spec, testbit_ext_mask, testbit_valid_bit by done.
  by rewrite andb_false_r.
Qed.

Lemma Filter_new_accepts mask id x :
  accepts (Filter_new mask id) x = true ↔
  ∀ k, 0 ≤ k < 29 → Z.testbit mask k = true → Z.testbit x k = Z.testbit id k.
Proof.
  rewrite accepts_bits, Filter_new_id. cbn [filter_mask Filter_new].
  split; intros Ha k Hk.
  - intros Hm. specialize (Ha k). rewrite !Z.land_spec, testbit_ext_mask, Hm in Ha by lia.
    rewrite (proj2 (Z.ltb_lt k 29)), (andb_true_r (Z.testbit id k)) in Ha by lia. apply Ha; [lia|done].
  - rewrite !Z.land_spec, testbit_ext_mask by done. intros [Hm Hlt]%andb_true_iff.
    rewrite Hlt, andb_true_r. apply Ha; [lia|done].
Qed.

(** Merging loses no identifier. *)
Lemma merge_accepts a b id : accepts a id = true ∨ accepts b id = true → accepts (merge a b) id = true.
Proof.
  intros Hab. unfold merge. rewrite Filter_new_accepts. intros k Hk Hm.
  pose proof Hm as Hm'. unfold merge_masks, unot in Hm'.
  rewrite !Z.land_spec, testbit_wrap, Z.lnot_spec, Z.lxor_spec in Hm' by lia.
  apply andb_true_iff in Hm' as [[Ha Hb]%andb_true_iff [_ Hx]%andb_true_iff].
  rewrite Z.land_spec, Hm, andb_true_r. apply negb_true_iff, Bool.xorb_eq in Hx.
  destruct Hab as [H|H]; rewrite accepts_bits in H; rewrite H by (done || lia); done.
Qed.

Lemma invalidate_invalid f : is_valid (invalidate f) = false.
Proof. done. Qed.

(** ** Merging *)

Local Open Scope nat_scope.

Definition accepted_by (l : list Filter) (id : u32) : Prop :=
  ∃ f, f ∈ l ∧ is_valid f = true ∧ accepts f id = true.

Lemma index_pairs_spec n i j : (i, j) ∈ index_pairs n ↔ i < j < n.
Proof.
  unfold index_pairs. rewrite list_elem_of_In, in_flat_map. setoid_rewrite in_map_iff.
  setoid_rewrite in_seq. split.
  - intros (i' & Hi & j' & [= -> ->] & Hj). lia.
  - intros Hij. exists i. split; [lia|]. exists j. split; [done|lia].
Qed.

Definition good_pair (l : list Filter) (ij : nat * nat) : Prop :=
  ij.1 < ij.2 ∧ ∃ a b, l !! ij.1 = Some a ∧ l !! ij.2 = Some b ∧ is_valid a = true ∧ is_valid b = true.

Lemma best_pair_fold l ps : ∀ r ij, Forall (λ ij, ij.1 < ij.2 < length l) ps →
  good_pair l ij ∨ (r = 0 ∧ Exists (good_pair l) ps) →
  ∃ r' ij', fold_left (better_pair l) ps (Ret (r, ij)) = Ret (r', ij') ∧ good_pair l ij'.
Proof.
  induction ps as [|[i j] ps IH]; intros r ij Hps Hg; cbn [fold_left].
  - destruct Hg as [Hg|[_ Hg]]; [eauto|]. by apply Exists_nil in Hg.
  - apply Forall_cons in Hps as [[Hij Hj] Hps]. cbn [fst snd] in *.
    destruct (lookup_lt_is_Some_2 l i ltac:(lia)) as [a Ha].
    destruct (lookup_lt_is_Some_2 l j Hj) as [b Hb].
    unfold better_pair at 2. cbn [mbind exec_bind fst snd]. unfold index. rewrite Ha, Hb.
    cbn [unwrap mbind exec_bind].
    destruct (is_valid a && is_valid b) eqn:Ev.
    + apply andb_true_iff in Ev as [Ea Eb].
      assert (good_pair l (i, j)) as Hgood by (split; [done|]; by exists a, b).
      case_cmp; [by apply IH; [|left]|]. apply IH; [done|].
      destruct Hg as [Hg|[-> _]]; [by left|lia].
    + apply IH; [done|]. destruct Hg as [Hg|[-> [Hg|Hg]%Exists_cons]]; [by left| |by right].
      destruct Hg as [_ (a' & b' & Ha' & Hb' & Ea & Eb)]. cbn in *. simplify_eq. by rewrite Ea, Eb in Ev.
Qed.

Lemma count_valid_cons f l : count_valid (f :: l) = (if is_valid f then 1 else 0) + count_valid l.
Proof. unfold count_valid. cbn. by destruct (is_valid f). Qed.

Lemma count_valid_insert l i f x : l !! i = Some f →
  count_valid (<[i := x]> l) + (if is_valid f then 1 else 0) = count_valid l + (if is_valid x then 1 else 0).
Proof.
  revert i. induction l as [|g l IH]; intros [|i]; cbn [lookup]; try done.
  - intros [= ->]. change (<[0:=x]> (f :: l)) with (x :: l). rewrite !count_valid_cons. lia.
  - intros Hi. change (<[S i:=x]> (g :: l)) with (g :: <[i:=x]> l). rewrite !count_valid_cons.
    specialize (IH i Hi). lia.
Qed.

Lemma count_valid_pos l : 0 < count_valid l → ∃ j b, l !! j = Some b ∧ is_valid b = true.
Proof.
  induction l as [|f l IH]; [cbn; lia|]. rewrite count_valid_cons. destruct (is_valid f) eqn:E.
  - by exists 0, f.
  - intros H. destruct (IH H) as (j & b & ? & ?). by exists (S j), b.
Qed.

Lemma two_valid l : 2 ≤ count_valid l → ∃ ij, good_pair l ij.
Proof.
  induction l as [|f l IH]; [cbn; lia|]. rewrite count_valid_cons. destruct (is_valid f) eqn:E; intros H.
  - destruct (count_valid_pos l) as (j & b & Hj & Hb); [lia|]. exists (0, S j). split; cbn; [lia|].
    by exists f, b.
  - destruct (IH H) as ([i j] & Hij & a & b & ? & ? & ? & ?). exists (S i, S j). split; cbn in *; [lia|].
    by exists a, b.
Qed.

Lemma best_pair_spec l : 2 ≤ count_valid l → ∃ ij, best_pair l = Ret ij ∧ good_pair l ij.
Proof.
  intros H. destruct (two_valid l H) as (ij0 & Hg). unfold best_pair.
  assert (Hps : Forall (λ ij, ij.1 < ij.2 < length l) (index_pairs (length l))).
  { apply Forall_forall. intros [i j] Hij. by apply index_pairs_spec in Hij. }
  destruct (best_pair_fold l (index_pairs (length l)) 0 (0, 0) Hps) as (r & ij & -> & Hij); [|by exists ij].
  right. split; [done|]. apply Exists_exists. exists ij0. split; [|done].
  destruct ij0 as [i j], Hg as [Hlt (a & b & _ & Hb & _)]. apply index_pairs_spec. cbn in *.
  split; [done|]. by apply lookup_lt_Some in Hb.
Qed.

(** One merge step keeps everything accepted. *)
Lemma merge_step_accepts l i j a b id :
  i ≠ j → l !! i = Some a → l !! j = Some b → accepted_by l id →
  accepted_by (<[j := invalidate b]> (<[i := merge a b]> l)) id.
Proof.
  intros Hij Ha Hb (f & Hf & Hv & Hacc). apply list_elem_of_lookup in Hf as [k Hk].
  assert (Hi : <[j := invalidate b]> (<[i := merge a b]> l) !! i = Some (merge a b)).
  { rewrite list_lookup_insert_ne by done. apply list_lookup_insert_eq. by apply lookup_lt_Some in Ha. }
  destruct (decide (k = i ∨ k = j)) as [Hkij|Hkij].
  - exists (merge a b). split_and!; [by eapply list_elem_of_lookup_2|apply Filter_new_valid|].
    apply merge_accepts. destruct Hkij as [-> | ->]; simplify_eq; auto.
  - exists f. split_and!; [|done|done]. apply (list_elem_of_lookup_2 _ k).
    by rewrite !list_lookup_insert_ne by naive_solver.
Qed.

Lemma merge_loop_spec fuel p l max : 0 < max → count_valid l < fuel →
  ∃ l', merge_loop fuel p l (count_valid l) max = Ret l' ∧ count_valid l' ≤ max ∧
    (∀ id, accepted_by l id → accepted_by l' id) ∧ (count_valid l ≤ max → l' = l).
Proof.
  intros Hmax. revert l. induction fuel as [|fuel IH]; intros l Hfuel; [lia|]. cbn [merge_loop].
  case_cmp; [|by exists l]. destruct (best_pair_spec l ltac:(lia)) as ([i j] & -> & Hlt & a & b & Ha & Hb & Va & Vb).
  cbn [mbind exec_bind fst snd] in *. unfold assign, index. rewrite Ha, Hb. cbn [unwrap mbind exec_bind].
  rewrite list_lookup_insert_ne, Hb by lia. cbn [unwrap mbind exec_bind].
  set (l1 := <[j := invalidate b]> (<[i := merge a b]> l)).
  assert (Hc : count_valid l - 1 = count_valid l1).
  { pose proof (count_valid_insert l i a (merge a b) Ha) as E1.
    pose proof (count_valid_insert (<[i := merge a b]> l) j b (invalidate b)) as E2.
    rewrite list_lookup_insert_ne in E2 by lia. specialize (E2 Hb). fold l1 in E2.
    rewrite Va, (Filter_new_valid _ _ : is_valid (merge a b) = true) in E1. rewrite Vb, invalidate_invalid in E2. lia. }
  rewrite Hc, Nat.eqb_refl. assert (debug_assert p true = Ret tt) as -> by (by destruct p).
  cbn [mbind exec_bind]. destruct (IH l1) as (l' & Hl' & Hle & Hacc & _); [lia|].
  exists l'. split_and!; [done|done| |lia]. intros id Hid. apply Hacc. by apply merge_step_accepts; [lia|..].
Qed.

(** ** Compacting *)

Lemma swap_behind {A} (l1 l2 : list A) a b j : j = length l1 →
  swap (l1 ++ a :: b :: l2) j (S j) = Ret (l1 ++ b :: a :: l2).
Proof.
  intros ->. unfold swap.
  assert (index (l1 ++ a :: b :: l2) (S (length l1)) = Ret b) as ->.
  { rewrite (cons_middle a l1 (b :: l2)), app_assoc. apply index_middle. rewrite length_app. cbn. lia. }
  rewrite index_middle by done. cbn [mbind exec_bind]. f_equal.
  rewrite list_insert_insert_ne by lia. apply swap_adjacent.
Qed.

Lemma compact_inner_spec V Inv x rest :
  Forall (λ f, is_valid f = true) V → Forall (λ f, is_valid f = false) Inv →
  compact_inner (length V + length Inv) (V ++ Inv ++ x :: rest) =
    Ret (if is_valid x then V ++ x :: Inv ++ rest else V ++ Inv ++ x :: rest).
Proof.
  intros HV HI. revert rest. induction Inv as [|y Inv IH] using rev_ind; intros rest; cbn [app length].
  - rewrite Nat.add_0_r. assert (compact_inner (length V) (V ++ x :: rest) = Ret (V ++ x :: rest)) as ->.
    { destruct V as [|v V _] using rev_ind; [done|]. apply Forall_app in HV as [_ [Hv _]%Forall_cons].
      rewrite length_app, <- app_assoc. cbn [length]. rewrite Nat.add_1_r. cbn [compact_inner app].
      rewrite (index_middle V (x :: rest) v (length V) eq_refl). cbn [mbind exec_bind]. by rewrite Hv. }
    by destruct (is_valid x).
  - apply Forall_app in HI as [HI [Hy _]%Forall_cons]. rewrite length_app. cbn [length].
    replace (length V + (length Inv + 1)) with (S (length V + length Inv)) by lia. cbn [compact_inner].
    assert (E : V ++ (Inv ++ [y]) ++ x :: rest = (V ++ Inv) ++ y :: x :: rest) by (by rewrite <- !app_assoc).
    assert (E' : (V ++ Inv) ++ y :: x :: rest = (V ++ Inv ++ [y]) ++ x :: rest) by (by rewrite <- !app_assoc).
    rewrite E. rewrite (index_middle (V ++ Inv) (x :: rest) y (length V + length Inv)) by (by rewrite length_app). cbn [mbind exec_bind].
    rewrite Hy. cbn [negb]. rewrite E' at 1. rewrite (index_middle (V ++ Inv ++ [y]) rest x (S (length V + length Inv))) by (rewrite !length_app; cbn; lia).
    cbn [mbind exec_bind]. destruct (is_valid x) eqn:Ex; [|done].
    rewrite swap_behind by (by rewrite length_app). cbn [mbind exec_bind].
    rewrite <- app_assoc, (IH HI), <- app_assoc. done.
Qed.

Lemma compact_spec l :
  compact l = Ret (List.filter is_valid l ++ List.filter (λ f, negb (is_valid f)) l).
Proof.
  assert (Hfold : ∀ done_ rest, fold_left (λ acc i, filters ← acc; compact_inner i filters)
    (seq (length done_) (length rest))
    (Ret ((List.filter is_valid done_ ++ List.filter (λ f, negb (is_valid f)) done_) ++ rest)) =
    Ret (List.filter is_valid (done_ ++ rest) ++ List.filter (λ f, negb (is_valid f)) (done_ ++ rest))).
  { intros done_ rest. revert done_. induction rest as [|x rest IH]; intros done_; cbn [seq fold_left length].
    { by rewrite !app_nil_r. }
    set (V := List.filter is_valid done_). set (Inv := List.filter (λ f, negb (is_valid f)) done_).
    assert (HV : Forall (λ f, is_valid f = true) V).
    { apply Forall_forall. intros f Hf. apply list_elem_of_In, List.filter_In in Hf. tauto. }
    assert (HI : Forall (λ f, is_valid f = false) Inv).
    { apply Forall_forall. intros f Hf. apply list_elem_of_In, List.filter_In in Hf as [_ Hf].
      by apply negb_true_iff in Hf. }
    assert (Hlen : length done_ = length V + length Inv).
    { rewrite <- (List.filter_length is_valid done_). done. }
    cbn [mbind exec_bind]. rewrite <- app_assoc. rewrite Hlen at 2. rewrite compact_inner_spec by done.
    specialize (IH (done_ ++ [x])). rewrite length_app in IH. cbn [length] in IH. rewrite Nat.add_1_r in IH.
    replace (done_ ++ x :: rest) with ((done_ ++ [x]) ++ rest) by (by rewrite <- app_assoc).
    rewrite <- IH. f_equal. f_equal. rewrite !List.filter_app. fold V Inv. cbn.
    destruct (is_valid x); cbn; rewrite ?app_nil_r, <- !app_assoc; done. }
  unfold compact. destruct l as [|x l]; [done|].
  specialize (Hfold [x] l). cbn [length app] in Hfold |- *. rewrite Nat.sub_succ, Nat.sub_0_r, <- Hfold.
  f_equal. f_equal. cbn. by destruct (is_valid x).
Qed.

Lemma first_invalid_spec V Inv :
  Forall (λ f, is_valid f = true) V → Forall (λ f, is_valid f = false) Inv →
  first_invalid (V ++ Inv) = length V.
Proof.
  intros HV HI. induction HV as [|f V Hf _ IH]; cbn.
  - destruct HI as [|f Inv Hf _]; [done|]. cbn. by rewrite Hf.
  - by rewrite Hf, IH.
Qed.

Lemma optimize_spec p l max : Forall (λ f, is_valid f = true) l → 0 < max →
  ∃ out, optimize p l max = Ret out ∧ length out ≤ max ∧ Forall (λ f, is_valid f = true) out ∧
    (∀ id, accepted_by l id → accepted_by out id) ∧ (length l ≤ max → out = l).
Proof.
  intros Hl Hmax. unfold optimize. rewrite (proj2 (Nat.eqb_neq max 0)) by lia. unfold merge_filters.
  rewrite (proj2 (Nat.eqb_neq max 0)) by lia. cbn [negb assert_ mbind exec_bind].
  assert (Hall : List.filter is_valid l = l).
  { clear Hmax. induction Hl as [|f l Hf _ IH]; cbn; [done|]. by rewrite Hf, IH. }
  assert (Hcount : length l = count_valid l) by (unfold count_valid; by rewrite Hall).
  rewrite Hcount. destruct (merge_loop_spec (S (count_valid l)) p l max Hmax) as (l' & -> & Hle & Hacc & Hsame); [lia|].
  cbn [mbind exec_bind]. rewrite (proj2 (Nat.leb_le _ _) Hle).
  assert (Hd : debug_assert p true = Ret tt) by (by destruct p). rewrite Hd. cbn [mbind exec_bind].
  rewrite compact_spec. cbn [mbind exec_bind].
  set (V := List.filter is_valid l'). set (Inv := List.filter _ l').
  assert (HV : Forall (λ f, is_valid f = true) V).
  { apply Forall_forall. intros f Hf. apply list_elem_of_In, List.filter_In in Hf. tauto. }
  assert (HI : Forall (λ f, is_valid f = false) Inv).
  { apply Forall_forall. intros f Hf. apply list_elem_of_In, List.filter_In in Hf as [_ Hf].
    by apply negb_true_iff in Hf. }
  rewrite first_invalid_spec, take_app_length, drop_app_length by done.
  assert (forallb is_valid V = true) as ->.
  { apply List.forallb_forall. intros f Hf. rewrite Forall_forall in HV. by apply HV, list_elem_of_In. }
  assert (existsb is_valid Inv = false) as ->.
  { apply not_true_iff_false. rewrite List.existsb_exists. intros (f & Hf & Hv).
    rewrite Forall_forall in HI. rewrite HI in Hv; [done|]. by apply list_elem_of_In. }
  cbn [negb]. rewrite Hd. cbn [mbind exec_bind]. exists V. split_and!; [done|done|done| |].
  - intros id Hid. apply Hacc in Hid as (f & Hf & Hv & Ha). exists f. split_and!; [|done|done].
    apply list_elem_of_In, List.filter_In. split; [by apply list_elem_of_In|done].
  - intros Hlm. unfold V. rewrite Hsame by lia. done.
Qed.

(** ** The filters of subscriptions are exact *)

Local Open Scope Z_scope.

Lemma testbit_shl32 a n k : 0 ≤ n → 0 ≤ k < 32 → Z.testbit (shl 32 a n) k = Z.testbit a (k - n).
Proof.
  intros Hn Hk. unfold shl. rewrite testbit_wrap, Z.shiftl_spec by lia. by rewrite bool_decide_true by lia.
Qed.

Lemma testbit_div_mod z k : 0 ≤ k → ((z / 2 ^ k) mod 2 =? 1) = Z.testbit z k.
Proof. intros. by rewrite <- bit_set_mod, bit_set_testbit. Qed.

(** A bit field has a given value when its bits do. *)
Lemma field_bits x a b v : 0 ≤ a → 0 ≤ b → is_u b v →
  (x / 2 ^ a) mod 2 ^ b = v ↔ ∀ k, a ≤ k < a + b → Z.testbit x k = Z.testbit v (k - a).
Proof.
  intros Ha Hb Hv. split.
  - intros <- k Hk. rewrite Z.mod_pow2_bits_low, <- Z.shiftr_div_pow2, Z.shiftr_spec by lia.
    f_equal. lia.
  - intros Hbits. apply Z.bits_inj'. intros k Hk. destruct (Z_lt_ge_dec k b).
    + rewrite Z.mod_pow2_bits_low, <- Z.shiftr_div_pow2, Z.shiftr_spec, Hbits by lia. f_equal. lia.
    + rewrite Z.mod_pow2_bits_high by lia. symmetry. apply (testbit_above v b); [done|lia].
Qed.

(** A fact about the 29 bits of an identifier, by evaluation. *)
Lemma all_bits (P : Z → bool) :
  forallb (λ n, P (Z.of_nat n)) (seq 0 29) = true → ∀ k, 0 ≤ k < 29 → P k = true.
Proof.
  intros H k Hk. rewrite List.forallb_forall in H. specialize (H (Z.to_nat k)).
  rewrite Z2Nat.id in H by lia. apply H, in_seq. lia.
Qed.

Lemma subject_mask_bits k : 0 ≤ k < 29 →
  Z.testbit 0x29fff80 k = (k =? 25) || (k =? 23) || ((7 <=? k) && (k <? 21)).
Proof. intros Hk. apply eqb_prop. revert k Hk. apply (all_bits (λ k, eqb _ _)). vm_compute. reflexivity. Qed.

Lemma service_mask_bits k : 0 ≤ k < 29 → Z.testbit 0x3ffff80 k = (7 <=? k) && (k <? 26).
Proof. intros Hk. apply eqb_prop. revert k Hk. apply (all_bits (λ k, eqb _ _)). vm_compute. reflexivity. Qed.

Lemma subject_base_bits k : 0 ≤ k < 29 → Z.testbit 0x600000 k = (k =? 21) || (k =? 22).
Proof. intros Hk. apply eqb_prop. revert k Hk. apply (all_bits (λ k, eqb _ _)). vm_compute. reflexivity. Qed.

Lemma subject_filter_bits subject x : SubjectId_valid subject →
  accepts (subject_filter subject) x = true ↔
  Z.testbit x 23 = false ∧ Z.testbit x 25 = false ∧ Z.testbit x 7 = false ∧
  (x / 2 ^ 8) mod 2 ^ 13 = subject.
Proof.
  intros Hs%SubjectId_valid_u. unfold subject_filter. rewrite Filter_new_accepts, field_bits by done.
  assert (Hid : ∀ k, 0 ≤ k < 29 → Z.testbit (Z.lor 0x600000 (shl 32 subject 8)) k =
    (k =? 21) || (k =? 22) || Z.testbit subject (k - 8)).
  { intros k Hk. rewrite Z.lor_spec, subject_base_bits, testbit_shl32 by lia. done. }
  split.
  - intros Ha. split_and!.
    4: { intros k Hk. rewrite Ha by (lia || (rewrite subject_mask_bits; lia)). rewrite Hid by lia.
      rewrite (proj2 (Z.eqb_neq k 21)), (proj2 (Z.eqb_neq k 22)) by lia. done. }
    all: rewrite Ha by (lia || done); rewrite Hid by lia; cbn [Z.eqb orb].
    + by apply (testbit_above subject 13).
    + by apply (testbit_above subject 13).
    + done.
  - intros (H23 & H25 & H7 & Hf) k Hk Hm. rewrite subject_mask_bits in Hm by done. rewrite Hid by done.
    assert (k = 25 ∨ k = 23 ∨ k = 7 ∨ 8 ≤ k < 8 + 13) as [-> | [-> | [-> | Hr]]] by lia.
    + rewrite H25. symmetry. by apply (testbit_above subject 13).
    + rewrite H23. symmetry. by apply (testbit_above subject 13).
    + done.
    + rewrite Hf by lia. rewrite (proj2 (Z.eqb_neq k 21)), (proj2 (Z.eqb_neq k 22)) by lia. done.
Qed.

(** Request and response filters: [kind_bit] is bit 24. *)
Lemma service_filter_bits base (kind_bit : bool) service node x :
  (∀ k, 0 ≤ k < 29 → Z.testbit base k = (k =? 25) || (kind_bit && (k =? 24))) →
  ServiceId_valid service → CanNodeId_valid node →
  accepts (Filter_new 0x3ffff80 (Z.lor base (Z.lor (shl 32 service 14) (shl 32 node 7)))) x = true ↔
  Z.testbit x 23 = false ∧ Z.testbit x 25 = true ∧ Z.testbit x 24 = kind_bit ∧
  (x / 2 ^ 14) mod 2 ^ 9 = service ∧ (x / 2 ^ 7) mod 2 ^ 7 = node.
Proof.
  intros Hbase Hs%ServiceId_valid_u Hn.
  assert (Hn7 : is_u 7 node) by (unfold CanNodeId_valid, VALID_NODE_IDS_end, is_u in *; lia).
  rewrite Filter_new_accepts, !field_bits by done.
  assert (Hid : ∀ k, 0 ≤ k < 29 →
    Z.testbit (Z.lor base (Z.lor (shl 32 service 14) (shl 32 node 7))) k =
    (k =? 25) || (kind_bit && (k =? 24)) || (Z.testbit service (k - 14) || Z.testbit node (k - 7))).
  { intros k Hk. rewrite !Z.lor_spec, Hbase, !testbit_shl32 by lia. done. }
  assert (Hhi : ∀ k, 23 ≤ k → Z.testbit service (k - 14) = false ∧ Z.testbit node (k - 7) = false).
  { intros k Hk. split; [by apply (testbit_above service 9); [|lia]|by apply (testbit_above node 7); [|lia]]. }
  assert (Hmid : ∀ k, 14 ≤ k < 23 → Z.testbit node (k - 7) = false).
  { intros k Hk. by apply (testbit_above node 7); [|lia]. }
  assert (Hlow : ∀ k, k < 14 → Z.testbit service (k - 14) = false) by (intros; by apply Z.testbit_neg_r; lia).
  assert (Hval : ∀ k, 7 ≤ k < 26 → Z.testbit (Z.lor base (Z.lor (shl 32 service 14) (shl 32 node 7))) k =
    if k =? 25 then true else if k =? 24 then kind_bit else if k =? 23 then false
    else if k <? 14 then Z.testbit node (k - 7) else Z.testbit service (k - 14)).
  { intros k Hk. rewrite Hid by lia.
    repeat case_cmp; subst; try lia; cbn [orb];
      rewrite ?andb_true_r, ?andb_false_r, ?Hlow, ?Hmid, ?orb_false_r by lia; try done;
      try (destruct (Hhi k) as [-> ->]; [lia|]; by rewrite ?orb_false_r, ?andb_true_r).
    all: try (destruct (Hhi 24) as [-> ->]; [lia|]; by rewrite ?orb_false_r, ?andb_true_r).
    all: destruct (Hhi 23) as [-> ->]; [lia|]; by rewrite ?orb_false_r. }
  split.
  - intros Ha. assert (Hx : ∀ k, 7 ≤ k < 26 → Z.testbit x k = _) by
      (intros k Hk; rewrite Ha by (lia || (rewrite service_mask_bits; lia)); exact (Hval k Hk)).
    split_and!; [by rewrite Hx by lia|by rewrite Hx by lia|by rewrite Hx by lia|..];
      intros k Hk; rewrite Hx by lia; repeat case_cmp; done || lia.
  - intros (H23 & H25 & H24 & Hf & Hg) k Hk Hm. rewrite service_mask_bits in Hm by done.
    rewrite Hval by lia. repeat case_cmp; subst; try done; [apply Hg|apply Hf]; lia.
Qed.

Lemma request_base_bits k : 0 ≤ k < 29 → Z.testbit 0x3000000 k = (k =? 25) || (true && (k =? 24)).
Proof. intros Hk. apply eqb_prop. revert k Hk. apply (all_bits (λ k, eqb _ _)). vm_compute. reflexivity. Qed.
Lemma response_base_bits k : 0 ≤ k < 29 → Z.testbit 0x2000000 k = (k =? 25) || (false && (k =? 24)).
Proof. intros Hk. apply eqb_prop. revert k Hk. apply (all_bits (λ k, eqb _ _)). vm_compute. reflexivity. Qed.

(** The transfers that a subscription is for. *)
Definition subscription_matches {I} (s : Subscription) (local_node : option CanNodeId) (h : CanHeader I) : Prop :=
  match s, h with
  | SubMessage subject, Message m => mh_subject m = subject
  | SubRequest service, Request r | SubResponse service, Response r =>
      sh_service r = service ∧ local_node = Some (sh_destination r)
  | _, _ => False
  end.

Definition subscription_valid (s : Subscription) : Prop :=
  match s with
  | SubMessage subject => SubjectId_valid subject
  | SubRequest service | SubResponse service => ServiceId_valid service
  end.

Lemma make_filter_exact {I} s local_node f id (ts : I) tid :
  subscription_valid s → (∀ n, local_node = Some n → CanNodeId_valid n) → CanId_valid id →
  make_filter s local_node = Some f →
  accepts f id = true ↔ ∃ h, parse_can_id id ts tid = Ret (Ok h) ∧ subscription_matches s local_node h.
Proof.
  intros Hs Hn Hid Hf. destruct (parse_can_id_spec id ts tid Hid) as (prio & _ & ->).
  rewrite !testbit_div_mod by done.
  destruct s as [subject|service|service]; cbn in Hf;
    [injection Hf as <-|apply fmap_Some in Hf as (node & -> & ->); specialize (Hn node eq_refl)..].
  - rewrite subject_filter_bits by done. split.
    + intros (-> & -> & -> & E). by eexists.
    + intros (h & E & Hm). destruct (Z.testbit id 23); [done|]. destruct (Z.testbit id 25).
      { destruct (Z.testbit id 24); injection E as <-; destruct Hm. }
      destruct (Z.testbit id 7); [done|]. injection E as <-. by split_and!.
  - unfold request_filter. rewrite (service_filter_bits _ true) by (done || apply request_base_bits). split.
    + intros (-> & -> & -> & E1 & E2). eexists. split; [done|]. cbn. by rewrite E1, E2.
    + intros (h & E & Hm). destruct (Z.testbit id 23); [done|]. destruct (Z.testbit id 25).
      2: { destruct (Z.testbit id 7); [done|]. injection E as <-. by cbn in Hm. }
      destruct (Z.testbit id 24); injection E as <-; [|destruct Hm]. destruct Hm as [? [= ?]]. done.
  - unfold response_filter. rewrite (service_filter_bits _ false) by (done || apply response_base_bits). split.
    + intros (-> & -> & -> & E1 & E2). eexists. split; [done|]. cbn. by rewrite E1, E2.
    + intros (h & E & Hm). destruct (Z.testbit id 23); [done|]. destruct (Z.testbit id 25).
      2: { destruct (Z.testbit id 7); [done|]. injection E as <-. by cbn in Hm. }
      destruct (Z.testbit id 24); injection E as <-; [destruct Hm|]. destruct Hm as [? [= ?]]. done.
Qed.

Lemma make_filter_valid s n f : make_filter s n = Some f → is_valid f = true.
Proof.
  destruct s; cbn; [intros [= <-]|intros (? & _ & ->)%fmap_Some..]; apply Filter_new_valid.
Qed.

Lemma collect_filters_spec alloc k n v subs out :
  collect_filters alloc k n v subs = Some out →
  Forall (λ f, is_valid f = true) (vec_list v) →
  Forall (λ f, is_valid f = true) (vec_list out) ∧
  ∀ f, f ∈ vec_list out ↔ f ∈ vec_list v ∨ ∃ s, s ∈ subs ∧ make_filter s n = Some f.
Proof.
  revert k v. induction subs as [|s subs IH]; intros k v; cbn [collect_filters].
  - intros [= <-] Hv. split; [done|]. intros f. split; [by left|]. intros [?|(s & Hs & _)]; [done|].
    by apply not_elem_of_nil in Hs.
  - destruct (make_filter s n) as [g|] eqn:Eg.
    + destruct (vec_push (alloc k) v g) as [v1|] eqn:Ev; [|done]. apply vec_extend_Some in Ev. intros Hc Hv.
      destruct (IH (S k) v1 Hc) as [Hout Hin].
      { rewrite Ev. apply Forall_app. split; [done|]. apply Forall_singleton. by eapply make_filter_valid. }
      split; [done|]. intros f. rewrite Hin, Ev, elem_of_app, list_elem_of_singleton.
      setoid_rewrite elem_of_cons. split; [intros [[?| ->]|(s' & ? & ?)]; eauto 6|].
      intros [?|(s' & [-> |Hs'] & Hm)]; [by auto| |by eauto]. left. right. congruence.
    + intros Hc Hv. destruct (IH k v Hc Hv) as [Hout Hin]. split; [done|]. intros f. rewrite Hin.
      setoid_rewrite elem_of_cons. split; [intros [?|(s' & ? & ?)]; eauto 6|].
      intros [?|(s' & [-> |Hs'] & Hm)]; [by auto|congruence|by eauto].
Qed.

(** ** Claims *)

(** Reducing a list of filters to at most [max_filters] never blocks an identifier
    that one of the original filters accepts. In debug builds none of the assertions
    fails, in every build the loops end, and when there are few enough filters
    they are returned unchanged. *)
Theorem optimize_accepts_superset (p : profile) (l : list Filter) (max_filters : nat) :
  Forall (λ f, is_valid f = true) l → (0 < max_filters)%nat →
  ∃ out, optimize p l max_filters = Ret out ∧ (length out ≤ max_filters)%nat ∧
    (∀ id, (∃ f, f ∈ l ∧ accepts f id = true) → ∃ f, f ∈ out ∧ accepts f id = true) ∧
    ((length l ≤ max_filters)%nat → out = l).
Proof.
  intros Hl Hmax. destruct (optimize_spec p l max_filters Hl Hmax) as (out & Ho & Hlen & _ & Hacc & Hsame).
  exists out. split_and!; [done..| |done]. intros id (f & Hf & Ha).
  rewrite Forall_forall in Hl. destruct (Hacc id) as (g & Hg & _ & Hga); [|by exists g].
  exists f. split_and!; [done|by apply Hl|done].
Qed.

(** The filter made for a subscription accepts exactly the identifiers that
    parse as a transfer for it: a message on the subject, or a request (or
    response) of the service that is addressed to this node. *)
Theorem subscription_filter_exact {I} s local_node f id (ts : I) tid :
  subscription_valid s → (∀ n, local_node = Some n → CanNodeId_valid n) → CanId_valid id →
  make_filter s local_node = Some f →
  accepts f id = true ↔ ∃ h, parse_can_id id ts tid = Ret (Ok h) ∧ subscription_matches s local_node h.
Proof. apply make_filter_exact. Qed.

(** C24: the filters that a receiver gives to its hardware never hide a frame that
    the receiver would process: if a well-formed frame is for this node and its port is
    subscribed, one of the (merged) filters accepts it. *)
Theorem receiver_filters_complete {I D} `{Instant I D} p alloc (rx : CanReceiver I D) max_filters subs out
    (f : Frame I) h tail i sub :
  rx_ok rx → (∀ n, rx_id rx = Some n → CanNodeId_valid n) → (0 < max_filters)%nat →
  filter_subscriptions rx = Ret subs →
  optimize_filters p alloc (rx_id rx) subs max_filters = Ret (Ok out) →
  frame_ok f → frame_sanity_check f = Ret (Some (h, tail)) → addressed rx h →
  find_port (vec_list (subscriptions_for_kind rx (from_header h))) (port_id h) = Some (i, sub) →
  ∃ flt, flt ∈ out ∧ accepts flt (frame_id f) = true.
Proof.
  intros Hrx Hn Hmax Hsubs Hopt Hf Hsane Hdest Hfind. unfold optimize_filters in Hopt.
  destruct (collect_filters alloc 0 (rx_id rx) vec_new subs) as [v|] eqn:Ec; [|done].
  destruct (collect_filters_spec _ _ _ _ _ _ Ec) as [Hv Hin]; [apply Forall_nil_2|].
  destruct (optimize_spec p (vec_list v) max_filters Hv Hmax) as (out' & Ho & _ & _ & Hacc & _).
  rewrite Ho in Hopt. injection Hopt as ->.
  assert (Hparse : ∃ tid, parse_can_id (frame_id f) (frame_timestamp f) tid = Ret (Ok h)).
  { unfold frame_sanity_check in Hsane. destruct (last (frame_data f)); [|done].
    destruct (TailByte_parse z) as [tb|]; [|done]. cbn [mbind exec_bind] in Hsane.
    destruct (parse_can_id _ _ _) as [[h'|]|] eqn:Ep; cbn [mbind exec_bind] in Hsane; [|done..].
    exists (tb_transfer_id tb). rewrite Ep. destruct h' as [m| |]; [destruct (mh_source m); [|destruct (negb _)]|..]; congruence. }
  destruct Hparse as [tid Hparse].
  destruct (filter_subscriptions_total rx Hrx) as (subs' & Hsubs' & Hs). rewrite Hsubs in Hsubs'. injection Hsubs' as <-.
  set (s := filter_of (from_header h) (rs_port_id sub)).
  apply list_find_Some in Hfind as (Hi & Hport & _).
  assert (Hsin : s ∈ subs) by (apply Hs; by exists (from_header h), i, sub).
  assert (Hsv : subscription_valid s).
  { pose proof (proj2 (proj2 (proj1 Hrx (from_header h)))) as Hall.
    apply (Forall_lookup_1 _ _ _ _ Hall) in Hi as [_ Hp]. subst s. by destruct h. }
  assert (Hmatch : subscription_matches s (rx_id rx) h).
  { subst s. rewrite Hport. destruct h as [m|r|r]; cbn in *; [done|..];
      by rewrite Hdest. }
  assert (Hmk : ∃ flt, make_filter s (rx_id rx) = Some flt).
  { subst s. destruct h as [m|r|r]; cbn in *; [by eexists|..]; destruct Hmatch as [_ ->]; by eexists. }
  destruct Hmk as [flt Hmk]. destruct (Hacc (frame_id f)) as (g & Hg & _ & Hga); [|by exists g].
  exists flt. split_and!; [apply Hin; right; by exists s|by eapply make_filter_valid|].
  apply (make_filter_exact s (rx_id rx) flt (frame_id f) (frame_timestamp f) tid); [done|done|apply Hf|done|by exists h].
Qed.

(** ** Witnesses *)

Lemma optimize_accepts_superset_witness :
  ∃ out, optimize Debug [exact_match 0x107d552a; exact_match 0x11733775; exact_match 0x136b957b] 2 = Ret out ∧
    (length out ≤ 2)%nat.
Proof.
  destruct (optimize_accepts_superset Debug
    [exact_match 0x107d552a; exact_match 0x11733775; exact_match 0x136b957b] 2) as (out & Ho & Hl & _);
    [by repeat constructor|lia|by exists out].
Defined.

Lemma subscription_filter_exact_witness :
  accepts (subject_filter 7509) 0x107d5507 = true ↔
  ∃ h, parse_can_id 0x107d5507 tt 3 = Ret (Ok h) ∧ subscription_matches (SubMessage 7509) None h.
Proof.
  apply (subscription_filter_exact (SubMessage 7509) None);
    [cbn; unfold SubjectId_valid, VALID_SUBJECT_IDS_end; lia|discriminate|split; vm_compute; congruence|reflexivity].
Defined.

Lemma receiver_filters_complete_witness :
  ∃ out flt, optimize_filters Release RxExample.alloc (rx_id RxExample.rx) [SubMessage 7509] 1 = Ret (Ok out) ∧
    flt ∈ out ∧ accepts flt (frame_id RxExample.frame) = true.
Proof.
  destruct (receiver_filters_complete Release RxExample.alloc RxExample.rx 1 [SubMessage 7509]
    [subject_filter 7509] RxExample.frame (Message (mkMessageHeader (RxExample.us 5) 0 Nominal 7509 (Some 7)))
    (mkTailByte true true true 0) 0
    (match find_port (vec_list (subscriptions_message RxExample.rx)) 7509 with
     | Some (_, s) => s
     | None => mkRxSubscription [] (RxExample.dur 0) 0 0
     end)) as (flt & Hin & Hacc);
    [apply RxExample.rx_valid| |lia|reflexivity|reflexivity|apply RxExample.frame_valid; by left|reflexivity..|].
  - intros n [= <-]. unfold CanNodeId_valid, VALID_NODE_IDS_end. lia.
  - exists [subject_filter 7509], flt. split; [reflexivity|]. by split.
Defined.
