(* ===== verification/CanRedundant.v ===== *)
(** * Redundant CAN transports

    Models [canadensis_can/src/redundant/deduplicator.rs] (frames received on
    several transports are taken from one active transport) and
    [redundant/redundant_queue.rs] (frames are transmitted on two drivers). *)

From stdpp Require Import sorting.
From S2P Require Import Prelude CoreTypes Time Transfer CanTypes CanRx CanRxSafety CanQueue CanQueueSpec.

(** ** Deduplication *)

Section deduplicator.
Context {I D : Type} `{Instant I D} (N : nat).

(** [TransportState]: the time of the last frame of a transport. *)
Record TransportState := mkTransportState { last_frame_time : option I }.
Definition TransportState_default : TransportState := mkTransportState None.

Record Deduplicator := mkDeduplicator {
  dd_states : list TransportState;
  dd_active_index : usize;
  dd_timeout : D;
}.

Definition Deduplicator_new (timeout : D) : exec Deduplicator :=
  _ ← assert_ (negb (N =? 0));
  Ret (mkDeduplicator (replicate N TransportState_default) 0 timeout).

Definition active_transport_timed_out (self : Deduplicator) (now : I) : exec bool :=
  state ← index (dd_states self) (dd_active_index self);
  Ret (match last_frame_time state with
       | Some active_last_frame => dur_gt (duration_since now active_last_frame) (dd_timeout self)
       | None => true
       end).

Definition Deduplicator_accept (self : Deduplicator) (frame : Frame I) (idx : usize)
    : exec (Deduplicator * bool) :=
  states ← assign (dd_states self) idx (mkTransportState (Some (frame_timestamp frame)));
  let self := mkDeduplicator states (dd_active_index self) (dd_timeout self) in
  timed_out ← active_transport_timed_out self (frame_timestamp frame);
  let active_index := if (timed_out : bool) then idx else dd_active_index self in
  Ret (mkDeduplicator (dd_states self) active_index (dd_timeout self), idx =? active_index).
End deduplicator.

Arguments TransportState : clear implicits.
Arguments Deduplicator : clear implicits.

(** ** Transmission on two drivers *)

Inductive RedundantError (E0 E1 : Type) : Type :=
| Driver0 (e : E0)
| Driver1 (e : E1)
| Both (e0 : E0) (e1 : E1).
Arguments Driver0 {E0 E1} e.
Arguments Driver1 {E0 E1} e.
Arguments Both {E0 E1} e0 e1.

Section redundant.
Context {I D0 D1 E0 E1 : Type} `{T0 : TransmitDriver D0 I E0} `{T1 : TransmitDriver D1 I E1}.

Record RedundantDriver := mkRedundantDriver {
  rd_driver0 : D0;
  rd_driver1 : D1;
  rd_status0 : result OutOfMemoryError unit;
  rd_status1 : result OutOfMemoryError unit;
}.

Definition RedundantDriver_new (driver0 : D0) (driver1 : D1) : RedundantDriver :=
  mkRedundantDriver driver0 driver1 (Ok tt) (Ok tt).

Definition rd_try_reserve (self : RedundantDriver) (additional : usize)
    : exec (RedundantDriver * result OutOfMemoryError unit) :=
  '(d0, s0) ← td_try_reserve (rd_driver0 self) additional;
  '(d1, s1) ← td_try_reserve (rd_driver1 self) additional;
  Ret (mkRedundantDriver d0 d1 s0 s1, match s0 with Ok u => Ok u | Err _ => s1 end).

(** The combination of two failures, which [transmit] and [flush] share. *)
Definition redundant_error (e0 : nb_error E0) (e1 : nb_error E1) : nb_error (RedundantError E0 E1) :=
  match e0, e1 with
  | WouldBlock, WouldBlock => WouldBlock
  | Other e0, Other e1 => Other (Both e0 e1)
  | Other e, WouldBlock => Other (Driver0 e)
  | WouldBlock, Other e => Other (Driver1 e)
  end.

Definition rd_transmit (self : RedundantDriver) (frame : Frame I) (now : I)
    : exec (RedundantDriver * result (nb_error (RedundantError E0 E1)) (option (Frame I))) :=
  '(d0, push_status_0) ←
    (if is_ok (rd_status0 self) then td_transmit (rd_driver0 self) frame now
     else Ret (rd_driver0 self, Err WouldBlock));
  '(d1, push_status_1) ←
    (if is_ok (rd_status1 self) then td_transmit (rd_driver1 self) frame now
     else Ret (rd_driver1 self, Err WouldBlock));
  Ret (mkRedundantDriver d0 d1 (rd_status0 self) (rd_status1 self),
       match push_status_0, push_status_1 with
       | Ok returned, _ => Ok returned
       | Err _, Ok returned => Ok returned
       | Err e0, Err e1 => Err (redundant_error e0 e1)
       end).

Definition rd_flush (self : RedundantDriver) (now : I)
    : exec (RedundantDriver * result (nb_error (RedundantError E0 E1)) unit) :=
  '(d0, s0) ← td_flush (rd_driver0 self) now;
  '(d1, s1) ← td_flush (rd_driver1 self) now;
  Ret (mkRedundantDriver d0 d1 (rd_status0 self) (rd_status1 self),
       match s0, s1 with
       | Ok _, _ | Err _, Ok _ => Ok tt
       | Err e0, Err e1 => Err (redundant_error e0 e1)
       end).

#[export] Instance redundant_transmit :
    TransmitDriver RedundantDriver I (RedundantError E0 E1) := {
  td_try_reserve := rd_try_reserve;
  td_transmit := rd_transmit;
  td_flush := rd_flush;
}.
End redundant.
Arguments RedundantDriver : clear implicits.

(** ** Properties of deduplication *)

Section dedup_spec.
Context {I D : Type} `{InstantSpec I D} (N : nat).

Definition dedup_ok (d : Deduplicator I D) : Prop :=
  length (dd_states d) = N ∧ dd_active_index d < N.

(** The deduplicator takes every frame of the active transport. It takes a frame
    of another transport, and makes that one active, exactly when the active
    transport never received a frame or has been silent for more than the timeout;
    otherwise the frame is discarded and the active transport stays. *)
Theorem deduplicator_switches_on_silence (d : Deduplicator I D) (f : Frame I) idx now :
  dedup_ok d → idx < N → frame_timestamp f = clock now →
  (∀ t, dd_states d !! dd_active_index d = Some (mkTransportState (Some t)) →
     ∃ t0, t = clock t0 ∧ (0 ≤ now - t0 < period)%Z) → (0 ≤ dur_us (dd_timeout d))%Z →
  ∃ d', Deduplicator_accept d f idx = Ret (d', idx =? dd_active_index d') ∧ dedup_ok d' ∧
    dd_states d' !! idx = Some (mkTransportState (Some (clock now))) ∧
    (∀ i, i ≠ idx → dd_states d' !! i = dd_states d !! i) ∧
    (idx = dd_active_index d → dd_active_index d' = idx) ∧
    (idx ≠ dd_active_index d →
       match dd_states d !! dd_active_index d with
       | Some (mkTransportState (Some t)) => ∃ t0, t = clock t0 ∧
           dd_active_index d' = if (dur_us (dd_timeout d) <? now - t0)%Z then idx else dd_active_index d
       | _ => dd_active_index d' = idx
       end).
Proof.
  intros [Hlen Hact] Hidx Hts Hold Htimeout. unfold Deduplicator_accept, assign, index. rewrite Hts.
  destruct (lookup_lt_is_Some_2 (dd_states d) idx ltac:(lia)) as [s Hs]. rewrite Hs.
  cbn [unwrap mbind exec_bind]. unfold active_transport_timed_out, index. cbn [dd_states dd_active_index dd_timeout].
  destruct (lookup_lt_is_Some_2 (dd_states d) (dd_active_index d) ltac:(lia)) as [sa Hsa].
  set (states := <[idx := _]> (dd_states d)).
  assert (Hst : ∀ to, dedup_ok (mkDeduplicator states to (dd_timeout d)) ↔ to < N).
  { intros to. unfold dedup_ok, states. cbn. rewrite length_insert. tauto. }
  assert (Hself : states !! idx = Some (mkTransportState (Some (clock now)))).
  { unfold states. rewrite list_lookup_insert_eq by lia. done. }
  assert (Hoth : ∀ i, i ≠ idx → states !! i = dd_states d !! i).
  { intros i Hi. unfold states. by rewrite list_lookup_insert_ne by congruence. }
  destruct (decide (idx = dd_active_index d)) as [E|E].
  - rewrite <- E, Hself. cbn [unwrap mbind exec_bind last_frame_time].
    rewrite dur_gt_spec, since_spec, Z.sub_diag by (pose proof period_pos; lia).
    rewrite (proj2 (Z.ltb_ge _ _)) by done.
    exists (mkDeduplicator states idx (dd_timeout d)). split_and!; [done|by apply Hst|done|done|done|done].
  - rewrite Hoth, Hsa by done. cbn [unwrap mbind exec_bind]. destruct sa as [[t|]]; cbn [last_frame_time].
    + destruct (Hold t Hsa) as (t0 & -> & Hper). rewrite dur_gt_spec, since_spec by done.
      exists (mkDeduplicator states (if (dur_us (dd_timeout d) <? now - t0)%Z then idx else dd_active_index d)
        (dd_timeout d)).
      split_and!; [done| |done|done|done|].
      * apply Hst. by destruct (_ <? _)%Z.
      * intros _. by exists t0.
    + exists (mkDeduplicator states idx (dd_timeout d)). split_and!; [done|by apply Hst|done|done|done|done].
Qed.
End dedup_spec.

(** ** Properties of redundant transmission *)

(** One driver, which is skipped when its reservation failed. *)
Lemma queueing_step {I Dv Ev} `{QueueingDriver Dv I Ev} (dv : Dv) (ok : bool) f now n : qd_inv dv →
  ∃ dv' r, (if ok then td_transmit dv f now else Ret (dv, Err WouldBlock)) = Ret (dv', r) ∧ qd_inv dv' ∧
    (∀ g, g ∈ qd_queue dv → g ∈ qd_queue dv') ∧ (is_ok r = true → f ∈ qd_queue dv') ∧
    (ok = true → S n ≤ qd_room dv → is_ok r = true ∧ n ≤ qd_room dv').
Proof.
  intros Hdv. destruct ok; [|by exists dv, (Err WouldBlock)].
  destruct (qd_transmit_spec dv f now Hdv) as (dv' & r & -> & Hdv' & Hok & Hq). exists dv', r.
  split_and!; [done|done| | |].
  - intros g Hg. destruct r; [destruct Hq as [-> _]; rewrite insert_behind_perm; by right|by rewrite Hq].
  - destruct r; [intros _; destruct Hq as [-> _]; rewrite insert_behind_perm; by left|done].
  - intros _ Hr. specialize (Hok ltac:(lia)). subst r. split; [done|]. destruct Hq as [_ Hle]. lia.
Qed.

Section redundant_spec.
Context {I D0 D1 E0 E1 : Type} `{Q0 : QueueingDriver D0 I E0} `{Q1 : QueueingDriver D1 I E1}.

Definition rd_inv (d : RedundantDriver D0 D1) : Prop := qd_inv (rd_driver0 d) ∧ qd_inv (rd_driver1 d).
Definition rd_queued (d : RedundantDriver D0 D1) (f : Frame I) : Prop :=
  f ∈ qd_queue (rd_driver0 d) ∨ f ∈ qd_queue (rd_driver1 d).

(** Transmitting frames one after the other. *)
Fixpoint rd_transmit_all (d : RedundantDriver D0 D1) (fs : list (Frame I)) (now : I)
    : exec (RedundantDriver D0 D1 * list (result (nb_error (RedundantError E0 E1)) (option (Frame I)))) :=
  match fs with
  | [] => Ret (d, [])
  | f :: fs' =>
      '(d, r) ← rd_transmit d f now;
      '(d, rs) ← rd_transmit_all d fs' now;
      Ret (d, r :: rs)
  end.

(** One of the two drivers has reserved space for [n] frames. *)
Definition rd_room (d : RedundantDriver D0 D1) (n : nat) : Prop :=
  (is_ok (rd_status0 d) = true ∧ n ≤ qd_room (rd_driver0 d)) ∨
  (is_ok (rd_status1 d) = true ∧ n ≤ qd_room (rd_driver1 d)).

Lemma rd_transmit_spec d f now n : rd_inv d → rd_room d (S n) →
  ∃ d' o, rd_transmit d f now = Ret (d', Ok o) ∧ rd_inv d' ∧ rd_room d' n ∧ rd_queued d' f ∧
    (∀ g, rd_queued d g → rd_queued d' g).
Proof.
  intros [Hi0 Hi1] Hroom. unfold rd_transmit.
  destruct (queueing_step (rd_driver0 d) (is_ok (rd_status0 d)) f now n Hi0) as (d0 & r0 & -> & Hd0 & Hk0 & Hf0 & Hr0).
  cbn [mbind exec_bind].
  destruct (queueing_step (rd_driver1 d) (is_ok (rd_status1 d)) f now n Hi1) as (d1 & r1 & -> & Hd1 & Hk1 & Hf1 & Hr1).
  cbn [mbind exec_bind]. exists (mkRedundantDriver d0 d1 (rd_status0 d) (rd_status1 d)).
  assert (Hroom' : rd_room (mkRedundantDriver d0 d1 (rd_status0 d) (rd_status1 d)) n ∧
    (is_ok r0 = true ∨ is_ok r1 = true)).
  { unfold rd_room in *. cbn. destruct Hroom as [[Hs Hr]|[Hs Hr]].
    - destruct (Hr0 Hs Hr). auto.
    - destruct (Hr1 Hs Hr). auto. }
  destruct Hroom' as [Hroom' Hok].
  assert (Hq : rd_queued (mkRedundantDriver d0 d1 (rd_status0 d) (rd_status1 d)) f).
  { unfold rd_queued. cbn. destruct Hok; auto. }
  assert (Hkeep : ∀ g, rd_queued d g → rd_queued (mkRedundantDriver d0 d1 (rd_status0 d) (rd_status1 d)) g).
  { unfold rd_queued. cbn. intros g [?|?]; auto. }
  destruct r0 as [o|], r1 as [o'|]; cbn in Hok; [by exists o..|by exists o'|by destruct Hok].
Qed.

Lemma rd_transmit_all_spec fs now : ∀ d n, length fs ≤ n → rd_inv d → rd_room d n →
  ∃ d2 rs, rd_transmit_all d fs now = Ret (d2, rs) ∧ rd_inv d2 ∧
    Forall (λ r, is_ok r = true) rs ∧ Forall (rd_queued d2) fs ∧ ∀ g, rd_queued d g → rd_queued d2 g.
Proof.
  induction fs as [|f fs IH]; intros d n Hlen Hinv Hroom; cbn [rd_transmit_all]; [by exists d, []|].
  destruct n as [|n]; cbn [length] in Hlen; [lia|].
  destruct (rd_transmit_spec d f now n Hinv Hroom) as (d' & o & -> & Hinv' & Hroom' & Hf & Hkeep).
  cbn [mbind exec_bind]. destruct (IH d' n ltac:(lia) Hinv' Hroom') as (d2 & rs & -> & Hinv2 & Hrs & Hfs & Hkeep2).
  cbn [mbind exec_bind]. exists d2, (Ok o :: rs). split_and!; [done|done|by constructor|constructor; auto|auto].
Qed.

(** Two redundant drivers keep the promise of a reservation: if reserving space
    for the frames succeeds on at least one of them, transmitting that many frames
    succeeds for each, and every frame is in the queue of at least one driver, even
    if the other one is full. *)
Theorem redundant_reserve_promise d n fs now d1 :
  rd_inv d → rd_try_reserve d n = Ret (d1, Ok tt) → length fs ≤ n →
  ∃ d2 rs, rd_transmit_all d1 fs now = Ret (d2, rs) ∧ rd_inv d2 ∧
    Forall (λ r, is_ok r = true) rs ∧ Forall (rd_queued d2) fs ∧ ∀ g, rd_queued d g → rd_queued d2 g.
Proof.
  intros [Hi0 Hi1] Hres Hlen. unfold rd_try_reserve in Hres.
  destruct (qd_reserve_spec (rd_driver0 d) n Hi0) as (d0' & s0 & E0' & Hd0 & Hq0 & Hr0). rewrite E0' in Hres.
  cbn [mbind exec_bind] in Hres.
  destruct (qd_reserve_spec (rd_driver1 d) n Hi1) as (d1' & s1 & E1' & Hd1 & Hq1 & Hr1). rewrite E1' in Hres.
  cbn [mbind exec_bind] in Hres. injection Hres as <- Hs.
  destruct (rd_transmit_all_spec fs now (mkRedundantDriver d0' d1' s0 s1) n Hlen)
    as (d2 & rs & ? & ? & ? & ? & Hkeep); [done| |].
  - unfold rd_room. cbn. destruct s0; [left; auto|]. subst s1. right; auto.
  - exists d2, rs. split_and!; [done..|]. intros g Hg. apply Hkeep. unfold rd_queued in *. cbn.
    by rewrite Hq0, Hq1.
Qed.
End redundant_spec.

(** ** Witnesses *)

Lemma deduplicator_switches_on_silence_witness :
  ∃ d', Deduplicator_accept
      (mkDeduplicator [mkTransportState None; mkTransportState (Some (clock 5%Z))] 1 (mkMicrosecondDuration32 1000))
      (mkFrame (clock 1006%Z) 0%Z []) 0 = Ret (d', true) ∧ dd_active_index d' = 0.
Proof.
  destruct (deduplicator_switches_on_silence 2
    (mkDeduplicator [mkTransportState None; mkTransportState (Some (clock 5%Z))] 1 (mkMicrosecondDuration32 1000))
    (mkFrame (clock 1006%Z) 0%Z []) 0 1006%Z) as (d' & Hacc & _ & _ & _ & _ & Hsw);
    [split; cbn; lia|lia|reflexivity| |cbn; lia|].
  - intros t [= <-]. exists 5%Z. split; [reflexivity|split; vm_compute; congruence].
  - destruct Hsw as (t0 & Ht0 & Hact); [discriminate|]. vm_compute in Hacc. injection Hacc as <-.
    eexists. split; reflexivity.
Defined.

#[local] Existing Instance QueueExample.inh.

Lemma redundant_reserve_promise_witness :
  ∃ d1 d2 rs, rd_try_reserve (T0 := queue_only_transmit 0) (T1 := queue_only_transmit 3) (mkRedundantDriver (QueueOnlyDriver_new 0) (QueueOnlyDriver_new 3) (Ok tt) (Ok tt)) 2
      = Ret (d1, Ok tt) ∧
    rd_transmit_all (H := queue_only_transmit 0) (H0 := queue_only_transmit 3) d1
      [QueueExample.f 1 1; QueueExample.f 2 2]%Z (mkMicroseconds32 0) = Ret (d2, rs) ∧
    Forall (λ r, is_ok r = true) rs.
Proof.
  destruct (redundant_reserve_promise (Q0 := queue_only_queueing 0) (Q1 := queue_only_queueing 3)
    (mkRedundantDriver (QueueOnlyDriver_new 0) (QueueOnlyDriver_new 3) (Ok tt) (Ok tt)) 2
    [QueueExample.f 1 1; QueueExample.f 2 2]%Z (mkMicroseconds32 0)
    (mkRedundantDriver (QueueOnlyDriver_new 0) (QueueOnlyDriver_new 3) (Err mkOutOfMemoryError) (Ok tt)))
    as (d2 & rs & Ht & _ & Hok & _); [split; apply ArrayQueue_new_inv|reflexivity|cbn; lia|].
  eexists _, d2, rs. split; [reflexivity|]. by split.
Defined.
