(* ===== verification/EncCursor.v ===== *)
(** * Bit cursors of [canadensis_encoding]

    Models [canadensis_encoding/src/cursor/serialize.rs] and
    [cursor/deserialize.rs]: a cursor that writes unsigned integers of any width up
    to 64 bits into a byte slice, least significant bit first, and a cursor that
    reads them back with implicit zero extension. The 64 functions per width that
    delegate to these are in [EncFields].

    Bit counts and positions are [nat], values are [Z]; floating-point values are
    represented by their bit patterns ([to_bits] and [from_bits]). *)

From S2P Require Import Prelude.

(** [a << n] on a [w]-bit integer: an overflow of the shift amount panics in debug
    builds and is masked in release builds. *)
Definition shl_arith (p : profile) (w : Z) (a : Z) (n : nat) : exec Z :=
  if (Z.of_nat n <? w)%Z then Ret (shl w a (Z.of_nat n))
  else match p with Debug => Panic | Release => Ret (shl w a (Z.of_nat n mod w)) end.

(** [((1u16 << bits) - 1) as u8] *)
Definition bit_mask (bits : nat) : u8 := as_u8 (shl 16 1 (Z.of_nat bits) - 1).

(** ** Writing *)

Record WriteCursor := mkWriteCursor {
  wc_bytes : list u8;
  wc_bytes_written : usize;
  wc_bit_index : nat;
}.

Definition WriteCursor_new (bytes : list u8) : WriteCursor :=
  mkWriteCursor ((λ _, 0%Z) <$> bytes) 0 0.

Definition wc_is_aligned_to_8_bits (c : WriteCursor) : bool := wc_bit_index c =? 0.

(** [remaining_bytes()], a slice of [bytes] that must start within it. *)
Definition remaining_bytes (c : WriteCursor) : exec (list u8) :=
  if wc_bytes_written c <=? length (wc_bytes c) then Ret (drop (wc_bytes_written c) (wc_bytes c))
  else Panic.

(** Replaces the remaining bytes, which the source changes through a reference. *)
Definition set_remaining (c : WriteCursor) (rest : list u8) : WriteCursor :=
  mkWriteCursor (take (wc_bytes_written c) (wc_bytes c) ++ rest) (wc_bytes_written c) (wc_bit_index c).

Definition check_length (c : WriteCursor) (bits : usize) : exec unit :=
  let extended_bit_index := wc_bit_index c + bits in
  let byte_increment := extended_bit_index / 8 in
  room ← usize_sub (length (wc_bytes c)) (wc_bytes_written c);
  assert_ (byte_increment <=? room).

Definition wc_advance_bits (c : WriteCursor) (bits : usize) : exec WriteCursor :=
  _ ← check_length c bits;
  let extended_bit_index := wc_bit_index c + bits in
  Ret (mkWriteCursor (wc_bytes c) (wc_bytes_written c + extended_bit_index / 8) (extended_bit_index mod 8)).

(** [slice[k] |= x] *)
Definition or_at (slice : list u8) (k : nat) (x : u8) : exec (list u8) :=
  b ← index slice k; Ret (<[k := Z.lor b x]> slice).

Definition write_up_to_u8 (p : profile) (c : WriteCursor) (value : u8) (bits : nat) : exec WriteCursor :=
  _ ← debug_assert p (bits <=? 8);
  if bits =? 0 then Ret c
  else
    _ ← check_length c bits;
    let value := Z.land value (bit_mask bits) in
    free ← usize_sub 8 bits;
    rest ← remaining_bytes c;
    rest ←
      (if wc_bit_index c <=? free then or_at rest 0 (shl 8 value (Z.of_nat (wc_bit_index c)))
       else
         let current_bits := shl 8 value (Z.of_nat (wc_bit_index c)) in
         let next_bits := Z.shiftr value (8 - Z.of_nat (wc_bit_index c)) in
         rest ← or_at rest 0 current_bits;
         or_at rest 1 next_bits);
    wc_advance_bits (set_remaining c rest) bits.

(** The loop over whole bytes: [n] times the low byte, shifting the value down. *)
Fixpoint write_whole_bytes (p : profile) (n : nat) (c : WriteCursor) (value : Z)
    : exec (WriteCursor * Z) :=
  match n with
  | 0 => Ret (c, value)
  | S n' =>
      c ← write_up_to_u8 p c (as_u8 value) 8;
      write_whole_bytes p n' c (Z.shiftr value 8)
  end.

(** The body shared by [write_up_to_u16], [write_up_to_u32] and [write_up_to_u64]. *)
Definition write_up_to (limit : nat) (p : profile) (c : WriteCursor) (value : Z) (bits : nat)
    : exec WriteCursor :=
  _ ← debug_assert p (bits <=? limit);
  '(c, value) ← write_whole_bytes p (bits / 8) c value;
  write_up_to_u8 p c (as_u8 value) (bits mod 8).
Definition write_up_to_u16 := write_up_to 16.
Definition write_up_to_u32 := write_up_to 32.
Definition write_up_to_u64 := write_up_to 64.

(** [to_le_bytes] of an [n]-byte integer. *)
Fixpoint to_le_bytes (n : nat) (value : Z) : list u8 :=
  match n with
  | 0 => []
  | S n' => as_u8 value :: to_le_bytes n' (Z.shiftr value 8)
  end.

(** [from_le_bytes] of an integer of as many bytes as the list has. *)
Fixpoint from_le_bytes (l : list u8) : Z :=
  match l with [] => 0 | b :: l' => (b + 256 * from_le_bytes l')%Z end.

Definition write_aligned_u8 (c : WriteCursor) (value : u8) : exec WriteCursor :=
  _ ← assert_ (wc_is_aligned_to_8_bits c);
  rest ← remaining_bytes c;
  rest ← assign rest 0 value;
  wc_advance_bits (set_remaining c rest) 8.

(** The body shared by [write_aligned_u16], [write_aligned_u32] and [write_aligned_u64]. *)
Definition write_aligned (n : nat) (c : WriteCursor) (value : Z) : exec WriteCursor :=
  _ ← assert_ (wc_is_aligned_to_8_bits c);
  rest ← remaining_bytes c;
  _ ← assert_ (n <=? length rest);
  wc_advance_bits (set_remaining c (to_le_bytes n value ++ drop n rest)) (n * 8).
Definition write_aligned_u16 := write_aligned 2.
Definition write_aligned_u32 := write_aligned 4.
Definition write_aligned_u64 := write_aligned 8.

Definition wc_skip_bits (c : WriteCursor) (bits : nat) : exec WriteCursor :=
  _ ← check_length c bits;
  wc_advance_bits c bits.

Definition wc_align_to_8_bits (c : WriteCursor) : exec WriteCursor :=
  if negb (wc_bit_index c =? 0) then
    n ← usize_sub 8 (wc_bit_index c);
    wc_skip_bits c n
  else Ret c.

Definition write_aligned_bytes (c : WriteCursor) (bytes : list u8) : exec WriteCursor :=
  rest ← remaining_bytes c;
  _ ← assert_ (length bytes <=? length rest);
  wc_advance_bits (set_remaining c (bytes ++ drop (length bytes) rest)) (8 * length bytes).

Definition bits_written (c : WriteCursor) : usize := wc_bytes_written c * 8 + wc_bit_index c.

(** ** Reading *)

Record ReadCursor := mkReadCursor { rc_bytes : list u8; rc_bit_index : nat }.

Definition ReadCursor_new (bytes : list u8) : ReadCursor := mkReadCursor bytes 0.

Definition as_bytes_slice (c : ReadCursor) : option (list u8) :=
  if rc_bit_index c =? 0 then Some (rc_bytes c) else None.

Definition read_current (c : ReadCursor) : u8 := default 0%Z (rc_bytes c !! 0).
Definition read_next (c : ReadCursor) : u8 := default 0%Z (rc_bytes c !! 1).

Definition advance_bytes (c : ReadCursor) (byte_increment : usize) : ReadCursor :=
  let real_byte_increment := min byte_increment (length (rc_bytes c)) in
  mkReadCursor (drop real_byte_increment (rc_bytes c)) (rc_bit_index c).

Definition rc_advance_bits (c : ReadCursor) (bits : usize) : ReadCursor :=
  let extended_bit_index := rc_bit_index c + bits in
  let c := mkReadCursor (rc_bytes c) (extended_bit_index mod 8) in
  advance_bytes c (extended_bit_index / 8).

Definition rc_is_aligned_to_8_bits (c : ReadCursor) : bool := rc_bit_index c =? 0.

Definition read_up_to_u8 (p : profile) (c : ReadCursor) (bits : nat) : exec (ReadCursor * u8) :=
  _ ← debug_assert p (bits <=? 8);
  if bits =? 0 then Ret (c, 0%Z)
  else
    free ← usize_sub 8 bits;
    let value :=
      if rc_bit_index c <=? free then Z.shiftr (read_current c) (Z.of_nat (rc_bit_index c))
      else
        let current_bits := Z.shiftr (read_current c) (Z.of_nat (rc_bit_index c)) in
        let next_bits := shl 8 (read_next c) (8 - Z.of_nat (rc_bit_index c)) in
        Z.lor next_bits current_bits in
    let value := Z.land value (bit_mask bits) in
    Ret (rc_advance_bits c bits, value).

Definition read_up_to_u16 (p : profile) (c : ReadCursor) (bits : nat) : exec (ReadCursor * u16) :=
  _ ← debug_assert p (bits <=? 16);
  '(c, value, shift_bits) ←
    (if 8 <? bits then '(c, b) ← read_up_to_u8 p c 8; Ret (c, b, 8) else Ret (c, 0%Z, 0));
  '(c, b) ← read_up_to_u8 p c (bits mod 8);
  b ← shl_arith p 16 b shift_bits;
  Ret (c, Z.lor value b).

(** The loop over whole bytes: [n] bytes, each shifted into its place. *)
Fixpoint read_whole_bytes (p : profile) (w : Z) (n : nat) (c : ReadCursor) (value : Z) (shift_bits : nat)
    : exec (ReadCursor * Z * nat) :=
  match n with
  | 0 => Ret (c, value, shift_bits)
  | S n' =>
      '(c, b) ← read_up_to_u8 p c 8;
      b ← shl_arith p w b shift_bits;
      read_whole_bytes p w n' c (Z.lor value b) (shift_bits + 8)
  end.

Definition read_up_to_u32 (p : profile) (c : ReadCursor) (bits : nat) : exec (ReadCursor * u32) :=
  _ ← debug_assert p (bits <=? 32);
  '(c, value, shift_bits) ← read_whole_bytes p 32 (bits / 8) c 0 0;
  '(c, b) ← read_up_to_u8 p c (bits mod 8);
  b ← shl_arith p 32 b shift_bits;
  Ret (c, Z.lor value b).

Definition read_up_to_u64 (p : profile) (c : ReadCursor) (bits : nat) : exec (ReadCursor * u64) :=
  _ ← debug_assert p (bits <=? 64);
  '(c, value, shift_bits) ← read_whole_bytes p 64 (bits / 8) c 0 0;
  if negb (bits =? 64) then
    '(c, b) ← read_up_to_u8 p c (bits mod 8);
    b ← shl_arith p 64 b shift_bits;
    Ret (c, Z.lor value b)
  else Ret (c, value).

Definition read_aligned_u8 (c : ReadCursor) : exec (ReadCursor * u8) :=
  _ ← assert_ (rc_is_aligned_to_8_bits c);
  Ret (advance_bytes c 1, read_current c).
Definition read_aligned_u16 (c : ReadCursor) : exec (ReadCursor * u16) :=
  '(c, lsb) ← read_aligned_u8 c;
  '(c, msb) ← read_aligned_u8 c;
  Ret (c, Z.lor (shl 16 msb 8) lsb).
Definition read_aligned_u32 (c : ReadCursor) : exec (ReadCursor * u32) :=
  '(c, lsbs) ← read_aligned_u16 c;
  '(c, msbs) ← read_aligned_u16 c;
  Ret (c, Z.lor (shl 32 msbs 16) lsbs).
Definition read_aligned_u64 (c : ReadCursor) : exec (ReadCursor * u64) :=
  '(c, lsbs) ← read_aligned_u32 c;
  '(c, msbs) ← read_aligned_u32 c;
  Ret (c, Z.lor (shl 64 msbs 32) lsbs).

Definition rc_align_to_8_bits (c : ReadCursor) : exec ReadCursor :=
  if negb (rc_bit_index c =? 0) then
    n ← usize_sub 8 (rc_bit_index c);
    Ret (rc_advance_bits c n)
  else Ret c.

Definition fork (c : ReadCursor) (fork_bytes : usize) : exec (ReadCursor * ReadCursor) :=
  _ ← assert_ (rc_bit_index c =? 0);
  _ ← assert_ (fork_bytes <=? length (rc_bytes c));
  Ret (mkReadCursor (drop fork_bytes (rc_bytes c)) (rc_bit_index c),
       mkReadCursor (take fork_bytes (rc_bytes c)) 0).
