(* ===== verification/EncFields.v ===== *)
(** * The cursor functions for each width

    The functions of [cursor/serialize.rs] and [cursor/deserialize.rs] that write,
    read or skip a number of bits fixed by their names, and the functions built on
    them: floating-point values, booleans, byte arrays and composite values. *)

From S2P Require Import Prelude EncCursor.

(** ** Writing *)

Definition write_u1 (p : profile) (c : WriteCursor) (value : u8) : exec WriteCursor :=
  write_up_to_u8 p c value 1.
Definition write_u2 (p : profile) (c : WriteCursor) (value : u8) : exec WriteCursor :=
  write_up_to_u8 p c value 2.
Definition write_u3 (p : profile) (c : WriteCursor) (value : u8) : exec WriteCursor :=
  write_up_to_u8 p c value 3.
Definition write_u4 (p : profile) (c : WriteCursor) (value : u8) : exec WriteCursor :=
  write_up_to_u8 p c value 4.
Definition write_u5 (p : profile) (c : WriteCursor) (value : u8) : exec WriteCursor :=
  write_up_to_u8 p c value 5.
Definition write_u6 (p : profile) (c : WriteCursor) (value : u8) : exec WriteCursor :=
  write_up_to_u8 p c value 6.
Definition write_u7 (p : profile) (c : WriteCursor) (value : u8) : exec WriteCursor :=
  write_up_to_u8 p c value 7.
Definition write_u8 (p : profile) (c : WriteCursor) (value : u8) : exec WriteCursor :=
  write_up_to_u8 p c value 8.
Definition write_u9 (p : profile) (c : WriteCursor) (value : u16) : exec WriteCursor :=
  write_up_to_u16 p c value 9.
Definition write_u10 (p : profile) (c : WriteCursor) (value : u16) : exec WriteCursor :=
  write_up_to_u16 p c value 10.
Definition write_u11 (p : profile) (c : WriteCursor) (value : u16) : exec WriteCursor :=
  write_up_to_u16 p c value 11.
Definition write_u12 (p : profile) (c : WriteCursor) (value : u16) : exec WriteCursor :=
  write_up_to_u16 p c value 12.
Definition write_u13 (p : profile) (c : WriteCursor) (value : u16) : exec WriteCursor :=
  write_up_to_u16 p c value 13.
Definition write_u14 (p : profile) (c : WriteCursor) (value : u16) : exec WriteCursor :=
  write_up_to_u16 p c value 14.
Definition write_u15 (p : profile) (c : WriteCursor) (value : u16) : exec WriteCursor :=
  write_up_to_u16 p c value 15.
Definition write_u16 (p : profile) (c : WriteCursor) (value : u16) : exec WriteCursor :=
  write_up_to_u16 p c value 16.
Definition write_u17 (p : profile) (c : WriteCursor) (value : u32) : exec WriteCursor :=
  write_up_to_u32 p c value 17.
Definition write_u18 (p : profile) (c : WriteCursor) (value : u32) : exec WriteCursor :=
  write_up_to_u32 p c value 18.
Definition write_u19 (p : profile) (c : WriteCursor) (value : u32) : exec WriteCursor :=
  write_up_to_u32 p c value 19.
Definition write_u20 (p : profile) (c : WriteCursor) (value : u32) : exec WriteCursor :=
  write_up_to_u32 p c value 20.
Definition write_u21 (p : profile) (c : WriteCursor) (value : u32) : exec WriteCursor :=
  write_up_to_u32 p c value 21.
Definition write_u22 (p : profile) (c : WriteCursor) (value : u32) : exec WriteCursor :=
  write_up_to_u32 p c value 22.
Definition write_u23 (p : profile) (c : WriteCursor) (value : u32) : exec WriteCursor :=
  write_up_to_u32 p c value 23.
Definition write_u24 (p : profile) (c : WriteCursor) (value : u32) : exec WriteCursor :=
  write_up_to_u32 p c value 24.
Definition write_u25 (p : profile) (c : WriteCursor) (value : u32) : exec WriteCursor :=
  write_up_to_u32 p c value 25.
Definition write_u26 (p : profile) (c : WriteCursor) (value : u32) : exec WriteCursor :=
  write_up_to_u32 p c value 26.
Definition write_u27 (p : profile) (c : WriteCursor) (value : u32) : exec WriteCursor :=
  write_up_to_u32 p c value 27.
Definition write_u28 (p : profile) (c : WriteCursor) (value : u32) : exec WriteCursor :=
  write_up_to_u32 p c value 28.
Definition write_u29 (p : profile) (c : WriteCursor) (value : u32) : exec WriteCursor :=
  write_up_to_u32 p c value 29.
Definition write_u30 (p : profile) (c : WriteCursor) (value : u32) : exec WriteCursor :=
  write_up_to_u32 p c value 30.
Definition write_u31 (p : profile) (c : WriteCursor) (value : u32) : exec WriteCursor :=
  write_up_to_u32 p c value 31.
Definition write_u32 (p : profile) (c : WriteCursor) (value : u32) : exec WriteCursor :=
  write_up_to_u32 p c value 32.
Definition write_u33 (p : profile) (c : WriteCursor) (value : u64) : exec WriteCursor :=
  write_up_to_u64 p c value 33.
Definition write_u34 (p : profile) (c : WriteCursor) (value : u64) : exec WriteCursor :=
  write_up_to_u64 p c value 34.
Definition write_u35 (p : profile) (c : WriteCursor) (value : u64) : exec WriteCursor :=
  write_up_to_u64 p c value 35.
Definition write_u36 (p : profile) (c : WriteCursor) (value : u64) : exec WriteCursor :=
  write_up_to_u64 p c value 36.
Definition write_u37 (p : profile) (c : WriteCursor) (value : u64) : exec WriteCursor :=
  write_up_to_u64 p c value 37.
Definition write_u38 (p : profile) (c : WriteCursor) (value : u64) : exec WriteCursor :=
  write_up_to_u64 p c value 38.
Definition write_u39 (p : profile) (c : WriteCursor) (value : u64) : exec WriteCursor :=
  write_up_to_u64 p c value 39.
Definition write_u40 (p : profile) (c : WriteCursor) (value : u64) : exec WriteCursor :=
  write_up_to_u64 p c value 40.
Definition write_u41 (p : profile) (c : WriteCursor) (value : u64) : exec WriteCursor :=
  write_up_to_u64 p c value 41.
Definition write_u42 (p : profile) (c : WriteCursor) (value : u64) : exec WriteCursor :=
  write_up_to_u64 p c value 42.
Definition write_u43 (p : profile) (c : WriteCursor) (value : u64) : exec WriteCursor :=
  write_up_to_u64 p c value 43.
Definition write_u44 (p : profile) (c : WriteCursor) (value : u64) : exec WriteCursor :=
  write_up_to_u64 p c value 44.
Definition write_u45 (p : profile) (c : WriteCursor) (value : u64) : exec WriteCursor :=
  write_up_to_u64 p c value 45.
Definition write_u46 (p : profile) (c : WriteCursor) (value : u64) : exec WriteCursor :=
  write_up_to_u64 p c value 46.
Definition write_u47 (p : profile) (c : WriteCursor) (value : u64) : exec WriteCursor :=
  write_up_to_u64 p c value 47.
Definition write_u48 (p : profile) (c : WriteCursor) (value : u64) : exec WriteCursor :=
  write_up_to_u64 p c value 48.
Definition write_u49 (p : profile) (c : WriteCursor) (value : u64) : exec WriteCursor :=
  write_up_to_u64 p c value 49.
Definition write_u50 (p : profile) (c : WriteCursor) (value : u64) : exec WriteCursor :=
  write_up_to_u64 p c value 50.
Definition write_u51 (p : profile) (c : WriteCursor) (value : u64) : exec WriteCursor :=
  write_up_to_u64 p c value 51.
Definition write_u52 (p : profile) (c : WriteCursor) (value : u64) : exec WriteCursor :=
  write_up_to_u64 p c value 52.
Definition write_u53 (p : profile) (c : WriteCursor) (value : u64) : exec WriteCursor :=
  write_up_to_u64 p c value 53.
Definition write_u54 (p : profile) (c : WriteCursor) (value : u64) : exec WriteCursor :=
  write_up_to_u64 p c value 54.
Definition write_u55 (p : profile) (c : WriteCursor) (value : u64) : exec WriteCursor :=
  write_up_to_u64 p c value 55.
Definition write_u56 (p : profile) (c : WriteCursor) (value : u64) : exec WriteCursor :=
  write_up_to_u64 p c value 56.
Definition write_u57 (p : profile) (c : WriteCursor) (value : u64) : exec WriteCursor :=
  write_up_to_u64 p c value 57.
Definition write_u58 (p : profile) (c : WriteCursor) (value : u64) : exec WriteCursor :=
  write_up_to_u64 p c value 58.
Definition write_u59 (p : profile) (c : WriteCursor) (value : u64) : exec WriteCursor :=
  write_up_to_u64 p c value 59.
Definition write_u60 (p : profile) (c : WriteCursor) (value : u64) : exec WriteCursor :=
  write_up_to_u64 p c value 60.
Definition write_u61 (p : profile) (c : WriteCursor) (value : u64) : exec WriteCursor :=
  write_up_to_u64 p c value 61.
Definition write_u62 (p : profile) (c : WriteCursor) (value : u64) : exec WriteCursor :=
  write_up_to_u64 p c value 62.
Definition write_u63 (p : profile) (c : WriteCursor) (value : u64) : exec WriteCursor :=
  write_up_to_u64 p c value 63.
Definition write_u64 (p : profile) (c : WriteCursor) (value : u64) : exec WriteCursor :=
  write_up_to_u64 p c value 64.

Definition wc_skip_1 (c : WriteCursor) : exec WriteCursor := wc_skip_bits c 1.
Definition wc_skip_2 (c : WriteCursor) : exec WriteCursor := wc_skip_bits c 2.
Definition wc_skip_3 (c : WriteCursor) : exec WriteCursor := wc_skip_bits c 3.
Definition wc_skip_4 (c : WriteCursor) : exec WriteCursor := wc_skip_bits c 4.
Definition wc_skip_5 (c : WriteCursor) : exec WriteCursor := wc_skip_bits c 5.
Definition wc_skip_6 (c : WriteCursor) : exec WriteCursor := wc_skip_bits c 6.
Definition wc_skip_7 (c : WriteCursor) : exec WriteCursor := wc_skip_bits c 7.
Definition wc_skip_8 (c : WriteCursor) : exec WriteCursor := wc_skip_bits c 8.
Definition wc_skip_9 (c : WriteCursor) : exec WriteCursor := wc_skip_bits c 9.
Definition wc_skip_10 (c : WriteCursor) : exec WriteCursor := wc_skip_bits c 10.
Definition wc_skip_11 (c : WriteCursor) : exec WriteCursor := wc_skip_bits c 11.
Definition wc_skip_12 (c : WriteCursor) : exec WriteCursor := wc_skip_bits c 12.
Definition wc_skip_13 (c : WriteCursor) : exec WriteCursor := wc_skip_bits c 13.
Definition wc_skip_14 (c : WriteCursor) : exec WriteCursor := wc_skip_bits c 14.
Definition wc_skip_15 (c : WriteCursor) : exec WriteCursor := wc_skip_bits c 15.
Definition wc_skip_16 (c : WriteCursor) : exec WriteCursor := wc_skip_bits c 16.
Definition wc_skip_17 (c : WriteCursor) : exec WriteCursor := wc_skip_bits c 17.
Definition wc_skip_18 (c : WriteCursor) : exec WriteCursor := wc_skip_bits c 18.
Definition wc_skip_19 (c : WriteCursor) : exec WriteCursor := wc_skip_bits c 19.
Definition wc_skip_20 (c : WriteCursor) : exec WriteCursor := wc_skip_bits c 20.
Definition wc_skip_21 (c : WriteCursor) : exec WriteCursor := wc_skip_bits c 21.
Definition wc_skip_22 (c : WriteCursor) : exec WriteCursor := wc_skip_bits c 22.
Definition wc_skip_23 (c : WriteCursor) : exec WriteCursor := wc_skip_bits c 23.
Definition wc_skip_24 (c : WriteCursor) : exec WriteCursor := wc_skip_bits c 24.
Definition wc_skip_25 (c : WriteCursor) : exec WriteCursor := wc_skip_bits c 25.
Definition wc_skip_26 (c : WriteCursor) : exec WriteCursor := wc_skip_bits c 26.
Definition wc_skip_27 (c : WriteCursor) : exec WriteCursor := wc_skip_bits c 27.
Definition wc_skip_28 (c : WriteCursor) : exec WriteCursor := wc_skip_bits c 28.
Definition wc_skip_29 (c : WriteCursor) : exec WriteCursor := wc_skip_bits c 29.
Definition wc_skip_30 (c : WriteCursor) : exec WriteCursor := wc_skip_bits c 30.
Definition wc_skip_31 (c : WriteCursor) : exec WriteCursor := wc_skip_bits c 31.
Definition wc_skip_32 (c : WriteCursor) : exec WriteCursor := wc_skip_bits c 32.
Definition wc_skip_33 (c : WriteCursor) : exec WriteCursor := wc_skip_bits c 33.
Definition wc_skip_34 (c : WriteCursor) : exec WriteCursor := wc_skip_bits c 34.
Definition wc_skip_35 (c : WriteCursor) : exec WriteCursor := wc_skip_bits c 35.
Definition wc_skip_36 (c : WriteCursor) : exec WriteCursor := wc_skip_bits c 36.
Definition wc_skip_37 (c : WriteCursor) : exec WriteCursor := wc_skip_bits c 37.
Definition wc_skip_38 (c : WriteCursor) : exec WriteCursor := wc_skip_bits c 38.
Definition wc_skip_39 (c : WriteCursor) : exec WriteCursor := wc_skip_bits c 39.
Definition wc_skip_40 (c : WriteCursor) : exec WriteCursor := wc_skip_bits c 40.
Definition wc_skip_41 (c : WriteCursor) : exec WriteCursor := wc_skip_bits c 41.
Definition wc_skip_42 (c : WriteCursor) : exec WriteCursor := wc_skip_bits c 42.
Definition wc_skip_43 (c : WriteCursor) : exec WriteCursor := wc_skip_bits c 43.
Definition wc_skip_44 (c : WriteCursor) : exec WriteCursor := wc_skip_bits c 44.
Definition wc_skip_45 (c : WriteCursor) : exec WriteCursor := wc_skip_bits c 45.
Definition wc_skip_46 (c : WriteCursor) : exec WriteCursor := wc_skip_bits c 46.
Definition wc_skip_47 (c : WriteCursor) : exec WriteCursor := wc_skip_bits c 47.
Definition wc_skip_48 (c : WriteCursor) : exec WriteCursor := wc_skip_bits c 48.
Definition wc_skip_49 (c : WriteCursor) : exec WriteCursor := wc_skip_bits c 49.
Definition wc_skip_50 (c : WriteCursor) : exec WriteCursor := wc_skip_bits c 50.
Definition wc_skip_51 (c : WriteCursor) : exec WriteCursor := wc_skip_bits c 51.
Definition wc_skip_52 (c : WriteCursor) : exec WriteCursor := wc_skip_bits c 52.
Definition wc_skip_53 (c : WriteCursor) : exec WriteCursor := wc_skip_bits c 53.
Definition wc_skip_54 (c : WriteCursor) : exec WriteCursor := wc_skip_bits c 54.
Definition wc_skip_55 (c : WriteCursor) : exec WriteCursor := wc_skip_bits c 55.
Definition wc_skip_56 (c : WriteCursor) : exec WriteCursor := wc_skip_bits c 56.
Definition wc_skip_57 (c : WriteCursor) : exec WriteCursor := wc_skip_bits c 57.
Definition wc_skip_58 (c : WriteCursor) : exec WriteCursor := wc_skip_bits c 58.
Definition wc_skip_59 (c : WriteCursor) : exec WriteCursor := wc_skip_bits c 59.
Definition wc_skip_60 (c : WriteCursor) : exec WriteCursor := wc_skip_bits c 60.
Definition wc_skip_61 (c : WriteCursor) : exec WriteCursor := wc_skip_bits c 61.
Definition wc_skip_62 (c : WriteCursor) : exec WriteCursor := wc_skip_bits c 62.
Definition wc_skip_63 (c : WriteCursor) : exec WriteCursor := wc_skip_bits c 63.
Definition wc_skip_64 (c : WriteCursor) : exec WriteCursor := wc_skip_bits c 64.

(** ** Reading *)

Definition read_u1 (p : profile) (c : ReadCursor) : exec (ReadCursor * u8) :=
  read_up_to_u8 p c 1.
Definition read_u2 (p : profile) (c : ReadCursor) : exec (ReadCursor * u8) :=
  read_up_to_u8 p c 2.
Definition read_u3 (p : profile) (c : ReadCursor) : exec (ReadCursor * u8) :=
  read_up_to_u8 p c 3.
Definition read_u4 (p : profile) (c : ReadCursor) : exec (ReadCursor * u8) :=
  read_up_to_u8 p c 4.
Definition read_u5 (p : profile) (c : ReadCursor) : exec (ReadCursor * u8) :=
  read_up_to_u8 p c 5.
Definition read_u6 (p : profile) (c : ReadCursor) : exec (ReadCursor * u8) :=
  read_up_to_u8 p c 6.
Definition read_u7 (p : profile) (c : ReadCursor) : exec (ReadCursor * u8) :=
  read_up_to_u8 p c 7.
Definition read_u8 (p : profile) (c : ReadCursor) : exec (ReadCursor * u8) :=
  read_up_to_u8 p c 8.
Definition read_u9 (p : profile) (c : ReadCursor) : exec (ReadCursor * u16) :=
  read_up_to_u16 p c 9.
Definition read_u10 (p : profile) (c : ReadCursor) : exec (ReadCursor * u16) :=
  read_up_to_u16 p c 10.
Definition read_u11 (p : profile) (c : ReadCursor) : exec (ReadCursor * u16) :=
  read_up_to_u16 p c 11.
Definition read_u12 (p : profile) (c : ReadCursor) : exec (ReadCursor * u16) :=
  read_up_to_u16 p c 12.
Definition read_u13 (p : profile) (c : ReadCursor) : exec (ReadCursor * u16) :=
  read_up_to_u16 p c 13.
Definition read_u14 (p : profile) (c : ReadCursor) : exec (ReadCursor * u16) :=
  read_up_to_u16 p c 14.
Definition read_u15 (p : profile) (c : ReadCursor) : exec (ReadCursor * u16) :=
  read_up_to_u16 p c 15.
Definition read_u16 (p : profile) (c : ReadCursor) : exec (ReadCursor * u16) :=
  '(c, v) ← read_up_to_u32 p c 16; Ret (c, as_u16 v).
Definition read_u17 (p : profile) (c : ReadCursor) : exec (ReadCursor * u32) :=
  read_up_to_u32 p c 17.
Definition read_u18 (p : profile) (c : ReadCursor) : exec (ReadCursor * u32) :=
  read_up_to_u32 p c 18.
Definition read_u19 (p : profile) (c : ReadCursor) : exec (ReadCursor * u32) :=
  read_up_to_u32 p c 19.
Definition read_u20 (p : profile) (c : ReadCursor) : exec (ReadCursor * u32) :=
  read_up_to_u32 p c 20.
Definition read_u21 (p : profile) (c : ReadCursor) : exec (ReadCursor * u32) :=
  read_up_to_u32 p c 21.
Definition read_u22 (p : profile) (c : ReadCursor) : exec (ReadCursor * u32) :=
  read_up_to_u32 p c 22.
Definition read_u23 (p : profile) (c : ReadCursor) : exec (ReadCursor * u32) :=
  read_up_to_u32 p c 23.
Definition read_u24 (p : profile) (c : ReadCursor) : exec (ReadCursor * u32) :=
  read_up_to_u32 p c 24.
Definition read_u25 (p : profile) (c : ReadCursor) : exec (ReadCursor * u32) :=
  read_up_to_u32 p c 25.
Definition read_u26 (p : profile) (c : ReadCursor) : exec (ReadCursor * u32) :=
  read_up_to_u32 p c 26.
Definition read_u27 (p : profile) (c : ReadCursor) : exec (ReadCursor * u32) :=
  read_up_to_u32 p c 27.
Definition read_u28 (p : profile) (c : ReadCursor) : exec (ReadCursor * u32) :=
  read_up_to_u32 p c 28.
Definition read_u29 (p : profile) (c : ReadCursor) : exec (ReadCursor * u32) :=
  read_up_to_u32 p c 29.
Definition read_u30 (p : profile) (c : ReadCursor) : exec (ReadCursor * u32) :=
  read_up_to_u32 p c 30.
Definition read_u31 (p : profile) (c : ReadCursor) : exec (ReadCursor * u32) :=
  read_up_to_u32 p c 31.
Definition read_u32 (p : profile) (c : ReadCursor) : exec (ReadCursor * u32) :=
  '(c, v) ← read_up_to_u64 p c 32; Ret (c, as_u32 v).
Definition read_u33 (p : profile) (c : ReadCursor) : exec (ReadCursor * u64) :=
  read_up_to_u64 p c 33.
Definition read_u34 (p : profile) (c : ReadCursor) : exec (ReadCursor * u64) :=
  read_up_to_u64 p c 34.
Definition read_u35 (p : profile) (c : ReadCursor) : exec (ReadCursor * u64) :=
  read_up_to_u64 p c 35.
Definition read_u36 (p : profile) (c : ReadCursor) : exec (ReadCursor * u64) :=
  read_up_to_u64 p c 36.
Definition read_u37 (p : profile) (c : ReadCursor) : exec (ReadCursor * u64) :=
  read_up_to_u64 p c 37.
Definition read_u38 (p : profile) (c : ReadCursor) : exec (ReadCursor * u64) :=
  read_up_to_u64 p c 38.
Definition read_u39 (p : profile) (c : ReadCursor) : exec (ReadCursor * u64) :=
  read_up_to_u64 p c 39.
Definition read_u40 (p : profile) (c : ReadCursor) : exec (ReadCursor * u64) :=
  read_up_to_u64 p c 40.
Definition read_u41 (p : profile) (c : ReadCursor) : exec (ReadCursor * u64) :=
  read_up_to_u64 p c 41.
Definition read_u42 (p : profile) (c : ReadCursor) : exec (ReadCursor * u64) :=
  read_up_to_u64 p c 42.
Definition read_u43 (p : profile) (c : ReadCursor) : exec (ReadCursor * u64) :=
  read_up_to_u64 p c 43.
Definition read_u44 (p : profile) (c : ReadCursor) : exec (ReadCursor * u64) :=
  read_up_to_u64 p c 44.
Definition read_u45 (p : profile) (c : ReadCursor) : exec (ReadCursor * u64) :=
  read_up_to_u64 p c 45.
Definition read_u46 (p : profile) (c : ReadCursor) : exec (ReadCursor * u64) :=
  read_up_to_u64 p c 46.
Definition read_u47 (p : profile) (c : ReadCursor) : exec (ReadCursor * u64) :=
  read_up_to_u64 p c 47.
Definition read_u48 (p : profile) (c : ReadCursor) : exec (ReadCursor * u64) :=
  read_up_to_u64 p c 48.
Definition read_u49 (p : profile) (c : ReadCursor) : exec (ReadCursor * u64) :=
  read_up_to_u64 p c 49.
Definition read_u50 (p : profile) (c : ReadCursor) : exec (ReadCursor * u64) :=
  read_up_to_u64 p c 50.
Definition read_u51 (p : profile) (c : ReadCursor) : exec (ReadCursor * u64) :=
  read_up_to_u64 p c 51.
Definition read_u52 (p : profile) (c : ReadCursor) : exec (ReadCursor * u64) :=
  read_up_to_u64 p c 52.
Definition read_u53 (p : profile) (c : ReadCursor) : exec (ReadCursor * u64) :=
  read_up_to_u64 p c 53.
Definition read_u54 (p : profile) (c : ReadCursor) : exec (ReadCursor * u64) :=
  read_up_to_u64 p c 54.
Definition read_u55 (p : profile) (c : ReadCursor) : exec (ReadCursor * u64) :=
  read_up_to_u64 p c 55.
Definition read_u56 (p : profile) (c : ReadCursor) : exec (ReadCursor * u64) :=
  read_up_to_u64 p c 56.
Definition read_u57 (p : profile) (c : ReadCursor) : exec (ReadCursor * u64) :=
  read_up_to_u64 p c 57.
Definition read_u58 (p : profile) (c : ReadCursor) : exec (ReadCursor * u64) :=
  read_up_to_u64 p c 58.
Definition read_u59 (p : profile) (c : ReadCursor) : exec (ReadCursor * u64) :=
  read_up_to_u64 p c 59.
Definition read_u60 (p : profile) (c : ReadCursor) : exec (ReadCursor * u64) :=
  read_up_to_u64 p c 60.
Definition read_u61 (p : profile) (c : ReadCursor) : exec (ReadCursor * u64) :=
  read_up_to_u64 p c 61.
Definition read_u62 (p : profile) (c : ReadCursor) : exec (ReadCursor * u64) :=
  read_up_to_u64 p c 62.
Definition read_u63 (p : profile) (c : ReadCursor) : exec (ReadCursor * u64) :=
  read_up_to_u64 p c 63.
Definition read_u64 (p : profile) (c : ReadCursor) : exec (ReadCursor * u64) :=
  read_up_to_u64 p c 64.

Definition rc_skip_1 (c : ReadCursor) : ReadCursor := rc_advance_bits c 1.
Definition rc_skip_2 (c : ReadCursor) : ReadCursor := rc_advance_bits c 2.
Definition rc_skip_3 (c : ReadCursor) : ReadCursor := rc_advance_bits c 3.
Definition rc_skip_4 (c : ReadCursor) : ReadCursor := rc_advance_bits c 4.
Definition rc_skip_5 (c : ReadCursor) : ReadCursor := rc_advance_bits c 5.
Definition rc_skip_6 (c : ReadCursor) : ReadCursor := rc_advance_bits c 6.
Definition rc_skip_7 (c : ReadCursor) : ReadCursor := rc_advance_bits c 7.
Definition rc_skip_8 (c : ReadCursor) : ReadCursor := rc_advance_bits c 8.
Definition rc_skip_9 (c : ReadCursor) : ReadCursor := rc_advance_bits c 9.
Definition rc_skip_10 (c : ReadCursor) : ReadCursor := rc_advance_bits c 10.
Definition rc_skip_11 (c : ReadCursor) : ReadCursor := rc_advance_bits c 11.
Definition rc_skip_12 (c : ReadCursor) : ReadCursor := rc_advance_bits c 12.
Definition rc_skip_13 (c : ReadCursor) : ReadCursor := rc_advance_bits c 13.
Definition rc_skip_14 (c : ReadCursor) : ReadCursor := rc_advance_bits c 14.
Definition rc_skip_15 (c : ReadCursor) : ReadCursor := rc_advance_bits c 15.
Definition rc_skip_16 (c : ReadCursor) : ReadCursor := rc_advance_bits c 16.
Definition rc_skip_17 (c : ReadCursor) : ReadCursor := rc_advance_bits c 17.
Definition rc_skip_18 (c : ReadCursor) : ReadCursor := rc_advance_bits c 18.
Definition rc_skip_19 (c : ReadCursor) : ReadCursor := rc_advance_bits c 19.
Definition rc_skip_20 (c : ReadCursor) : ReadCursor := rc_advance_bits c 20.
Definition rc_skip_21 (c : ReadCursor) : ReadCursor := rc_advance_bits c 21.
Definition rc_skip_22 (c : ReadCursor) : ReadCursor := rc_advance_bits c 22.
Definition rc_skip_23 (c : ReadCursor) : ReadCursor := rc_advance_bits c 23.
Definition rc_skip_24 (c : ReadCursor) : ReadCursor := rc_advance_bits c 24.
Definition rc_skip_25 (c : ReadCursor) : ReadCursor := rc_advance_bits c 25.
Definition rc_skip_26 (c : ReadCursor) : ReadCursor := rc_advance_bits c 26.
Definition rc_skip_27 (c : ReadCursor) : ReadCursor := rc_advance_bits c 27.
Definition rc_skip_28 (c : ReadCursor) : ReadCursor := rc_advance_bits c 28.
Definition rc_skip_29 (c : ReadCursor) : ReadCursor := rc_advance_bits c 29.
Definition rc_skip_30 (c : ReadCursor) : ReadCursor := rc_advance_bits c 30.
Definition rc_skip_31 (c : ReadCursor) : ReadCursor := rc_advance_bits c 31.
Definition rc_skip_32 (c : ReadCursor) : ReadCursor := rc_advance_bits c 32.
Definition rc_skip_33 (c : ReadCursor) : ReadCursor := rc_advance_bits c 33.
Definition rc_skip_34 (c : ReadCursor) : ReadCursor := rc_advance_bits c 34.
Definition rc_skip_35 (c : ReadCursor) : ReadCursor := rc_advance_bits c 35.
Definition rc_skip_36 (c : ReadCursor) : ReadCursor := rc_advance_bits c 36.
Definition rc_skip_37 (c : ReadCursor) : ReadCursor := rc_advance_bits c 37.
Definition rc_skip_38 (c : ReadCursor) : ReadCursor := rc_advance_bits c 38.
Definition rc_skip_39 (c : ReadCursor) : ReadCursor := rc_advance_bits c 39.
Definition rc_skip_40 (c : ReadCursor) : ReadCursor := rc_advance_bits c 40.
Definition rc_skip_41 (c : ReadCursor) : ReadCursor := rc_advance_bits c 41.
Definition rc_skip_42 (c : ReadCursor) : ReadCursor := rc_advance_bits c 42.
Definition rc_skip_43 (c : ReadCursor) : ReadCursor := rc_advance_bits c 43.
Definition rc_skip_44 (c : ReadCursor) : ReadCursor := rc_advance_bits c 44.
Definition rc_skip_45 (c : ReadCursor) : ReadCursor := rc_advance_bits c 45.
Definition rc_skip_46 (c : ReadCursor) : ReadCursor := rc_advance_bits c 46.
Definition rc_skip_47 (c : ReadCursor) : ReadCursor := rc_advance_bits c 47.
Definition rc_skip_48 (c : ReadCursor) : ReadCursor := rc_advance_bits c 48.
Definition rc_skip_49 (c : ReadCursor) : ReadCursor := rc_advance_bits c 49.
Definition rc_skip_50 (c : ReadCursor) : ReadCursor := rc_advance_bits c 50.
Definition rc_skip_51 (c : ReadCursor) : ReadCursor := rc_advance_bits c 51.
Definition rc_skip_52 (c : ReadCursor) : ReadCursor := rc_advance_bits c 52.
Definition rc_skip_53 (c : ReadCursor) : ReadCursor := rc_advance_bits c 53.
Definition rc_skip_54 (c : ReadCursor) : ReadCursor := rc_advance_bits c 54.
Definition rc_skip_55 (c : ReadCursor) : ReadCursor := rc_advance_bits c 55.
Definition rc_skip_56 (c : ReadCursor) : ReadCursor := rc_advance_bits c 56.
Definition rc_skip_57 (c : ReadCursor) : ReadCursor := rc_advance_bits c 57.
Definition rc_skip_58 (c : ReadCursor) : ReadCursor := rc_advance_bits c 58.
Definition rc_skip_59 (c : ReadCursor) : ReadCursor := rc_advance_bits c 59.
Definition rc_skip_60 (c : ReadCursor) : ReadCursor := rc_advance_bits c 60.
Definition rc_skip_61 (c : ReadCursor) : ReadCursor := rc_advance_bits c 61.
Definition rc_skip_62 (c : ReadCursor) : ReadCursor := rc_advance_bits c 62.
Definition rc_skip_63 (c : ReadCursor) : ReadCursor := rc_advance_bits c 63.
Definition rc_skip_64 (c : ReadCursor) : ReadCursor := rc_advance_bits c 64.

(** The functions by width, from 1 to 64. *)
Definition write_fns : list (profile → WriteCursor → Z → exec WriteCursor) :=
  [write_u1; write_u2; write_u3; write_u4; write_u5; write_u6; write_u7; write_u8;
   write_u9; write_u10; write_u11; write_u12; write_u13; write_u14; write_u15; write_u16;
   write_u17; write_u18; write_u19; write_u20; write_u21; write_u22; write_u23; write_u24;
   write_u25; write_u26; write_u27; write_u28; write_u29; write_u30; write_u31; write_u32;
   write_u33; write_u34; write_u35; write_u36; write_u37; write_u38; write_u39; write_u40;
   write_u41; write_u42; write_u43; write_u44; write_u45; write_u46; write_u47; write_u48;
   write_u49; write_u50; write_u51; write_u52; write_u53; write_u54; write_u55; write_u56;
   write_u57; write_u58; write_u59; write_u60; write_u61; write_u62; write_u63; write_u64].
Definition read_fns : list (profile → ReadCursor → exec (ReadCursor * Z)) :=
  [read_u1; read_u2; read_u3; read_u4; read_u5; read_u6; read_u7; read_u8;
   read_u9; read_u10; read_u11; read_u12; read_u13; read_u14; read_u15; read_u16;
   read_u17; read_u18; read_u19; read_u20; read_u21; read_u22; read_u23; read_u24;
   read_u25; read_u26; read_u27; read_u28; read_u29; read_u30; read_u31; read_u32;
   read_u33; read_u34; read_u35; read_u36; read_u37; read_u38; read_u39; read_u40;
   read_u41; read_u42; read_u43; read_u44; read_u45; read_u46; read_u47; read_u48;
   read_u49; read_u50; read_u51; read_u52; read_u53; read_u54; read_u55; read_u56;
   read_u57; read_u58; read_u59; read_u60; read_u61; read_u62; read_u63; read_u64].
Definition wc_skip_fns : list (WriteCursor → exec WriteCursor) :=
  [wc_skip_1; wc_skip_2; wc_skip_3; wc_skip_4; wc_skip_5; wc_skip_6; wc_skip_7; wc_skip_8;
   wc_skip_9; wc_skip_10; wc_skip_11; wc_skip_12; wc_skip_13; wc_skip_14; wc_skip_15; wc_skip_16;
   wc_skip_17; wc_skip_18; wc_skip_19; wc_skip_20; wc_skip_21; wc_skip_22; wc_skip_23; wc_skip_24;
   wc_skip_25; wc_skip_26; wc_skip_27; wc_skip_28; wc_skip_29; wc_skip_30; wc_skip_31; wc_skip_32;
   wc_skip_33; wc_skip_34; wc_skip_35; wc_skip_36; wc_skip_37; wc_skip_38; wc_skip_39; wc_skip_40;
   wc_skip_41; wc_skip_42; wc_skip_43; wc_skip_44; wc_skip_45; wc_skip_46; wc_skip_47; wc_skip_48;
   wc_skip_49; wc_skip_50; wc_skip_51; wc_skip_52; wc_skip_53; wc_skip_54; wc_skip_55; wc_skip_56;
   wc_skip_57; wc_skip_58; wc_skip_59; wc_skip_60; wc_skip_61; wc_skip_62; wc_skip_63; wc_skip_64].
Definition rc_skip_fns : list (ReadCursor → ReadCursor) :=
  [rc_skip_1; rc_skip_2; rc_skip_3; rc_skip_4; rc_skip_5; rc_skip_6; rc_skip_7; rc_skip_8;
   rc_skip_9; rc_skip_10; rc_skip_11; rc_skip_12; rc_skip_13; rc_skip_14; rc_skip_15; rc_skip_16;
   rc_skip_17; rc_skip_18; rc_skip_19; rc_skip_20; rc_skip_21; rc_skip_22; rc_skip_23; rc_skip_24;
   rc_skip_25; rc_skip_26; rc_skip_27; rc_skip_28; rc_skip_29; rc_skip_30; rc_skip_31; rc_skip_32;
   rc_skip_33; rc_skip_34; rc_skip_35; rc_skip_36; rc_skip_37; rc_skip_38; rc_skip_39; rc_skip_40;
   rc_skip_41; rc_skip_42; rc_skip_43; rc_skip_44; rc_skip_45; rc_skip_46; rc_skip_47; rc_skip_48;
   rc_skip_49; rc_skip_50; rc_skip_51; rc_skip_52; rc_skip_53; rc_skip_54; rc_skip_55; rc_skip_56;
   rc_skip_57; rc_skip_58; rc_skip_59; rc_skip_60; rc_skip_61; rc_skip_62; rc_skip_63; rc_skip_64].

(** ** Derived functions *)

Definition write_f16 (p : profile) (c : WriteCursor) (value : u16) : exec WriteCursor := write_u16 p c value.
Definition write_f32 (p : profile) (c : WriteCursor) (value : u32) : exec WriteCursor := write_u32 p c value.
Definition write_f64 (p : profile) (c : WriteCursor) (value : u64) : exec WriteCursor := write_u64 p c value.
Definition write_bool (p : profile) (c : WriteCursor) (value : bool) : exec WriteCursor :=
  write_u1 p c (b2z value).
Fixpoint write_bytes (p : profile) (c : WriteCursor) (bytes : list u8) : exec WriteCursor :=
  match bytes with
  | [] => Ret c
  | byte :: bytes' => c ← write_u8 p c byte; write_bytes p c bytes'
  end.

Definition read_f16 (p : profile) (c : ReadCursor) : exec (ReadCursor * u16) := read_u16 p c.
Definition read_f32 (p : profile) (c : ReadCursor) : exec (ReadCursor * u32) := read_u32 p c.
Definition read_f64 (p : profile) (c : ReadCursor) : exec (ReadCursor * u64) := read_u64 p c.
Definition read_aligned_f16 (c : ReadCursor) : exec (ReadCursor * u16) := read_aligned_u16 c.
Definition read_aligned_f32 (c : ReadCursor) : exec (ReadCursor * u32) := read_aligned_u32 c.
Definition read_aligned_f64 (c : ReadCursor) : exec (ReadCursor * u64) := read_aligned_u64 c.
Definition read_bool (p : profile) (c : ReadCursor) : exec (ReadCursor * bool) :=
  '(c, v) ← read_u1 p c; Ret (c, (v =? 1)%Z).
(** Fills a slice of [n] bytes. *)
Fixpoint read_bytes (p : profile) (c : ReadCursor) (n : nat) : exec (ReadCursor * list u8) :=
  match n with
  | 0 => Ret (c, [])
  | S n' =>
      '(c, b) ← read_u8 p c;
      '(c, bs) ← read_bytes p c n';
      Ret (c, b :: bs)
  end.

(** ** Composite types: the traits of [canadensis_encoding/src/lib.rs] *)

Inductive DeserializeError : Set := ArrayLength | UnionTag | DelimitedLength.

Class DataType (T : Type) := { EXTENT_BYTES : option u32 }.
Class Serialize (T : Type) `{DataType T} := {
  size_bits : T → usize;
  serialize : profile → T → WriteCursor → exec WriteCursor;
}.
Class Deserialize (T : Type) `{DataType T} := {
  deserialize : profile → ReadCursor → exec (ReadCursor * result DeserializeError T);
}.

Definition serialize_to_bytes {T} `{Serialize T} (p : profile) (value : T) (bytes : list u8)
    : exec (list u8) :=
  c ← serialize p value (WriteCursor_new bytes); Ret (wc_bytes c).
Definition deserialize_from_bytes {T} `{Deserialize T} (p : profile) (bytes : list u8)
    : exec (result DeserializeError T) :=
  '(_, r) ← deserialize p (ReadCursor_new bytes); Ret r.

(** [Self::deserialize_zero_copy], for a type whose values are [n] bytes in memory: the bytes
    of the value. *)
Definition deserialize_zero_copy (n : nat) (c : ReadCursor) : exec (ReadCursor * list u8) :=
  cursor_bytes ← unwrap (as_bytes_slice c);
  let bytes_to_copy := min n (length cursor_bytes) in
  let value_bytes := take bytes_to_copy cursor_bytes ++ drop bytes_to_copy (replicate n 0%Z) in
  Ret (advance_bytes c bytes_to_copy, value_bytes).

Definition is_delimited {T} `{DataType T} : bool :=
  match EXTENT_BYTES with Some _ => true | None => false end.

Definition write_composite {T} `{Serialize T} (p : profile) (c : WriteCursor) (value : T)
    : exec WriteCursor :=
  c ← wc_align_to_8_bits c;
  c ←
    (if is_delimited (T := T) then
       let composite_size_bytes := Z.of_nat ((size_bits value + 7) / 8) in
       _ ← assert_ (is_ub 32 composite_size_bytes);
       write_u32 p c composite_size_bytes
     else Ret c);
  c ← serialize p value c;
  wc_align_to_8_bits c.

Definition read_composite {T} `{Deserialize T} (p : profile) (c : ReadCursor)
    : exec (ReadCursor * result DeserializeError T) :=
  c ← rc_align_to_8_bits c;
  '(c, status) ←
    (if is_delimited (T := T) then
       '(c, n) ← read_aligned_u32 c;
       let composite_length_bytes := Z.to_nat n in
       if length (rc_bytes c) <? composite_length_bytes then Ret (c, Err DelimitedLength)
       else
         '(c, forked) ← fork c composite_length_bytes;
         '(_, r) ← deserialize p forked;
         Ret (c, r)
     else deserialize p c);
  c ← rc_align_to_8_bits c;
  Ret (c, status).
