(* ===== verification/EncCursorSpec.v ===== *)
(** * Correctness of the bit cursors

    A byte slice is seen as a sequence of bits, least significant bit of each byte
    first. Writing [n] bits appends the low [n] bits of a value; reading [n] bits
    takes the next [n] bits, zeros past the end; what is written is read back. *)

From S2P Require Import Prelude EncCursor EncFields.

(** ** Bits of a slice *)

Definition bit_at (bytes : list u8) (i : nat) : bool :=
  Z.testbit (default 0%Z (bytes !! (i / 8))) (Z.of_nat (i mod 8)).

Lemma bit_at_end bytes i : 8 * length bytes ≤ i → bit_at bytes i = false.
Proof.
  intros Hi. unfold bit_at. rewrite lookup_ge_None_2; [apply Z.testbit_0_l|].
  apply Nat.div_le_lower_bound; lia.
Qed.

Lemma bit_at_drop bytes k i : bit_at (drop k bytes) i = bit_at bytes (8 * k + i).
Proof.
  unfold bit_at. rewrite lookup_drop. rewrite (Nat.mul_comm 8 k), (Nat.add_comm (k * 8) i).
  rewrite Nat.div_add, Nat.Div0.mod_add by lia. by rewrite Nat.add_comm.
Qed.

Lemma bit_at_insert bytes j x i : j < length bytes →
  bit_at (<[j := x]> bytes) i = if i / 8 =? j then Z.testbit x (Z.of_nat (i mod 8)) else bit_at bytes i.
Proof.
  intros Hj. unfold bit_at. case_cmp.
  - subst j. by rewrite list_lookup_insert_eq.
  - by rewrite list_lookup_insert_ne by congruence.
Qed.

Lemma testbit_bit_mask bits k : bits ≤ 8 →
  Z.testbit (bit_mask bits) (Z.of_nat k) = (k <? bits).
Proof.
  intros Hb. assert (Hm : bit_mask bits = Z.ones (Z.of_nat bits)) by (by do 9 (destruct bits as [|bits]; [done|]); lia).
  rewrite Hm. case_cmp; [by apply Z.ones_spec_low; lia|by apply Z.ones_spec_high; lia].
Qed.

Lemma is_u_land_mask v n : n ≤ 8 → is_u (Z.of_nat n) (Z.land v (bit_mask n)).
Proof.
  intros Hn. assert (Hm : bit_mask n = Z.ones (Z.of_nat n)) by (by do 9 (destruct n as [|n]; [done|]); lia).
  rewrite Hm, Z.land_ones by lia. apply Z.mod_pos_bound. lia.
Qed.

(** ** Writing *)

(** Everything from the position of the cursor on is still zero. *)
Definition wc_ok (c : WriteCursor) : Prop :=
  wc_bit_index c < 8 ∧ bits_written c ≤ 8 * length (wc_bytes c) ∧ bytes_ok (wc_bytes c) ∧
  ∀ i, bits_written c ≤ i → bit_at (wc_bytes c) i = false.

(** [c'] is [c] with [n] more bits, those of [v]. *)
Definition appended (c c' : WriteCursor) (v : Z) (n : nat) : Prop :=
  wc_ok c' ∧ length (wc_bytes c') = length (wc_bytes c) ∧ bits_written c' = bits_written c + n ∧
  (∀ i, i < bits_written c → bit_at (wc_bytes c') i = bit_at (wc_bytes c) i) ∧
  (∀ k, k < n → bit_at (wc_bytes c') (bits_written c + k) = Z.testbit v (Z.of_nat k)).

Lemma check_length_spec c bits : wc_ok c →
  check_length c bits = if bits_written c + bits <? 8 * (length (wc_bytes c) + 1) then Ret tt else Panic.
Proof.
  intros (Hb & Hle & _ & _). unfold check_length, usize_sub, bits_written in *.
  rewrite (proj2 (Nat.leb_le _ _)) by lia. cbn [mbind exec_bind]. unfold assert_.
  destruct (Nat.leb_spec ((wc_bit_index c + bits) / 8) (length (wc_bytes c) - wc_bytes_written c)) as [E|E];
    case_cmp; try done; exfalso; dlia.
Qed.

Lemma wc_advance_spec c bits : wc_ok c → bits_written c + bits ≤ 8 * length (wc_bytes c) →
  ∃ c', wc_advance_bits c bits = Ret c' ∧ wc_bytes c' = wc_bytes c ∧ wc_bit_index c' < 8 ∧
    bits_written c' = bits_written c + bits.
Proof.
  intros Hc Hle. unfold wc_advance_bits. rewrite check_length_spec by done.
  rewrite (proj2 (Nat.ltb_lt _ _)) by lia. cbn [mbind exec_bind]. eexists. split; [done|].
  unfold bits_written. cbn [wc_bytes wc_bit_index wc_bytes_written]. split_and!; [done|by apply Nat.mod_upper_bound|].
  pose proof (Nat.div_mod_eq (wc_bit_index c + bits) 8). lia.
Qed.

Lemma set_remaining_insert (l : list u8) w k x : w ≤ length l →
  take w l ++ <[k := x]> (drop w l) = <[w + k := x]> l.
Proof.
  intros Hw. rewrite <- (take_drop w l) at 3.
  rewrite insert_app_r_alt by (rewrite length_take; lia). do 2 f_equal. rewrite length_take. lia.
Qed.

Lemma or_at_spec (l : list u8) k x : k < length l →
  ∃ b, l !! k = Some b ∧ or_at l k x = Ret (<[k := Z.lor b x]> l).
Proof.
  intros Hk. destruct (lookup_lt_is_Some_2 l k Hk) as [b Hb]. exists b. split; [done|].
  unfold or_at, index. by rewrite Hb.
Qed.

Lemma bit_at_or l k x b i : l !! k = Some b →
  bit_at (<[k := Z.lor b x]> l) i =
    bit_at l i || (if i / 8 =? k then Z.testbit x (Z.of_nat (i mod 8)) else false).
Proof.
  intros Hb. rewrite bit_at_insert by (by apply lookup_lt_Some in Hb). case_cmp.
  - rewrite Z.lor_spec. unfold bit_at. subst k. by rewrite Hb.
  - by rewrite orb_false_r.
Qed.

(** What the one or two changed bytes add to the bits of the slice. *)
Lemma write_bits_arith w b n v i : b < 8 → 1 ≤ n ≤ 8 →
  let value := Z.land v (bit_mask n) in
  (if i / 8 =? w then Z.testbit (shl 8 value (Z.of_nat b)) (Z.of_nat (i mod 8)) else false) ||
  (if i / 8 =? w + 1 then Z.testbit (Z.shiftr value (8 - Z.of_nat b)) (Z.of_nat (i mod 8)) else false) =
  (if (8 * w + b <=? i) && (i <? 8 * w + b + n) then Z.testbit v (Z.of_nat (i - (8 * w + b))) else false).
Proof.
  intros Hb Hn value. pose proof (Nat.div_mod_eq i 8) as Hi.
  pose proof (Nat.mod_upper_bound i 8 ltac:(lia)) as Hm. set (q := i / 8) in *. set (r := i mod 8) in *.
  assert (Hval : ∀ k, (0 ≤ k)%Z → Z.testbit value k = Z.testbit v k && (k <? Z.of_nat n)%Z).
  { intros k Hk. unfold value. rewrite Z.land_spec. f_equal. rewrite <- (Z2Nat.id k), testbit_bit_mask by lia. lia. }
  assert (H1 : Z.testbit (shl 8 value (Z.of_nat b)) (Z.of_nat r) =
    if b <=? r then Z.testbit v (Z.of_nat (r - b)) && (r - b <? n) else false).
  { unfold shl. rewrite testbit_wrap, Z.shiftl_spec, bool_decide_true by lia. cbn [andb]. case_cmp.
    - rewrite Hval by lia. f_equal; [f_equal; lia|lia].
    - apply Z.testbit_neg_r. lia. }
  assert (H2 : Z.testbit (Z.shiftr value (8 - Z.of_nat b)) (Z.of_nat r) =
    Z.testbit v (Z.of_nat (r + 8 - b)) && (r + 8 - b <? n)).
  { rewrite Z.shiftr_spec, Hval by lia. f_equal; [f_equal; lia|lia]. }
  rewrite H1, H2. clear H1 H2 Hval. clearbody q r value.
  destruct (Nat.eqb_spec q w) as [Hq1|Hq1], (Nat.eqb_spec q (w + 1)) as [Hq2|Hq2]; try lia; cbn [orb].
  - rewrite orb_false_r. replace (i - (8 * w + b)) with (r - b) by lia.
    repeat case_cmp; cbn [andb]; rewrite ?andb_true_r, ?andb_false_r; try done; lia.
  - replace (i - (8 * w + b)) with (r + 8 - b) by lia.
    repeat case_cmp; cbn [andb]; rewrite ?andb_true_r, ?andb_false_r; try done; lia.
  - repeat case_cmp; cbn [andb]; try done; lia.
Qed.

Lemma debug_assert_true p : debug_assert p true = Ret tt.
Proof. by destruct p. Qed.

Lemma appended_refl c v : wc_ok c → appended c c v 0.
Proof. intros Hc. split_and!; [done|done|lia|done|lia]. Qed.

(** A slice that differs from that of [c] in the new bits only. *)
Lemma appended_intro c bytes v n : wc_ok c → bits_written c + n ≤ 8 * length (wc_bytes c) →
  length bytes = length (wc_bytes c) → bytes_ok bytes →
  (∀ i, bit_at bytes i = bit_at (wc_bytes c) i ||
     (if (bits_written c <=? i) && (i <? bits_written c + n)
      then Z.testbit v (Z.of_nat (i - bits_written c)) else false)) →
  ∃ c', wc_advance_bits (mkWriteCursor bytes (wc_bytes_written c) (wc_bit_index c)) n = Ret c' ∧
    appended c c' v n.
Proof.
  intros (Hb & Hle & Hok & Hz) Hfit Hlen Hbytes Hbits.
  assert (Hadv : ∃ c', wc_advance_bits (mkWriteCursor bytes (wc_bytes_written c) (wc_bit_index c)) n = Ret c' ∧
    wc_bytes c' = bytes ∧ wc_bit_index c' < 8 ∧ bits_written c' = bits_written c + n).
  { unfold wc_advance_bits, check_length, usize_sub, bits_written in *.
    cbn [wc_bytes wc_bytes_written wc_bit_index].
    rewrite (proj2 (Nat.leb_le (wc_bytes_written c) _)) by lia. cbn [mbind exec_bind].
    rewrite (proj2 (Nat.leb_le _ _)) by (apply Nat.lt_succ_r, Nat.Div0.div_lt_upper_bound; lia).
    cbn [assert_ mbind exec_bind]. eexists. split; [done|]. cbn [wc_bytes wc_bytes_written wc_bit_index].
    split_and!; [done|by apply Nat.mod_upper_bound|].
    pose proof (Nat.div_mod_eq (wc_bit_index c + n) 8). lia. }
  destruct Hadv as (c' & -> & Hby & Hbi & Hbw). exists c'. split; [done|].
  split_and!.
  - split_and!; [done|by rewrite Hbw, Hby, Hlen|by rewrite Hby|]. intros i Hi. rewrite Hby, Hbits, Hz by lia.
    repeat case_cmp; done || lia.
  - by rewrite Hby.
  - done.
  - intros i Hi. rewrite Hby, Hbits. repeat case_cmp; cbn [andb]; rewrite ?orb_false_r; done || lia.
  - intros k Hk. rewrite Hby, Hbits, Hz by lia. cbn [orb].
    rewrite (proj2 (Nat.leb_le _ _)), (proj2 (Nat.ltb_lt _ _)) by lia. cbn [andb]. do 2 f_equal. lia.
Qed.

Lemma write_up_to_u8_spec p c v bits : wc_ok c → bits ≤ 8 →
  bits_written c + bits ≤ 8 * length (wc_bytes c) →
  ∃ c', write_up_to_u8 p c v bits = Ret c' ∧ appended c c' v bits.
Proof.
  intros Hc Hbits Hfit. unfold write_up_to_u8. rewrite (proj2 (Nat.leb_le _ _) Hbits), debug_assert_true.
  cbn [mbind exec_bind]. destruct (Nat.eqb_spec bits 0) as [->|Hn]; [eexists; split; [done|]; by apply appended_refl|].
  rewrite check_length_spec by done. rewrite (proj2 (Nat.ltb_lt _ _)) by lia. cbn [mbind exec_bind].
  unfold usize_sub. rewrite (proj2 (Nat.leb_le _ _) Hbits). cbn [mbind exec_bind].
  pose proof Hc as (Hb & Hle & Hok & Hz). unfold bits_written in Hle, Hfit.
  unfold remaining_bytes. rewrite (proj2 (Nat.leb_le (wc_bytes_written c) _)) by lia. cbn [mbind exec_bind].
  set (w := wc_bytes_written c) in *. set (b := wc_bit_index c) in *.
  set (value := Z.land v (bit_mask bits)). set (x0 := shl 8 value (Z.of_nat b)).
  set (x1 := Z.shiftr value (8 - Z.of_nat b)).
  assert (Hw : w < length (wc_bytes c)) by lia.
  assert (Hvalue : is_u 8 value) by (apply (is_u_mono (Z.of_nat bits)); [by apply is_u_land_mask|lia]).
  assert (Hx0 : is_u 8 x0) by (by apply is_u_wrap). assert (Hx1 : is_u 8 x1) by (apply is_u_shiftr; [done|lia]).
  destruct (or_at_spec (drop w (wc_bytes c)) 0 x0) as (b0 & Hb0 & E0); [rewrite length_drop; lia|].
  rewrite E0. rewrite lookup_drop, Nat.add_0_r in Hb0.
  pose proof (λ i, write_bits_arith w b bits v i Hb ltac:(lia)) as Harith. cbn zeta in Harith. fold value x0 x1 in Harith.
  assert (Hpos : 8 * w + b = bits_written c) by (unfold bits_written; lia). rewrite Hpos in Harith.
  destruct (Nat.leb_spec b (8 - bits)) as [Hone|Htwo]; cbn [mbind exec_bind]; unfold set_remaining; fold w b.
  - rewrite set_remaining_insert, Nat.add_0_r by lia.
    apply appended_intro; [done|unfold bits_written; lia|by rewrite length_insert
      |by apply Forall_insert, is_u_lor; [|lia|apply (Forall_lookup_1 _ _ _ _ Hok Hb0)|]|].
    intros i. rewrite (bit_at_or _ w x0 b0) by done. f_equal. rewrite <- Harith.
    assert (Hno : (if i / 8 =? w + 1 then Z.testbit x1 (Z.of_nat (i mod 8)) else false) = false); [|by rewrite Hno, orb_false_r].
    specialize (Harith i). case_cmp; [|done]. rewrite (proj2 (Nat.eqb_neq _ _)) in Harith by lia.
    cbn [orb] in Harith. rewrite Harith. pose proof (Nat.div_mod_eq i 8). repeat case_cmp; cbn [andb]; done || lia.
  - destruct (or_at_spec (<[0 := Z.lor b0 x0]> (drop w (wc_bytes c))) 1 x1) as (b1 & Hb1 & E1);
      [rewrite length_insert, length_drop; lia|].
    rewrite E1. cbn [mbind exec_bind]. rewrite list_lookup_insert_ne, lookup_drop in Hb1 by lia.
    rewrite list_insert_insert_ne by lia.
    assert (Hset : take w (wc_bytes c) ++ <[0 := Z.lor b0 x0]> (<[1 := Z.lor b1 x1]> (drop w (wc_bytes c))) =
      <[w := Z.lor b0 x0]> (<[w + 1 := Z.lor b1 x1]> (wc_bytes c))).
    { rewrite <- (Nat.add_0_r w) at 3. rewrite <- set_remaining_insert by (rewrite length_insert; lia).
      rewrite take_insert_ge, drop_insert_ge by lia. do 3 f_equal. lia. }
    rewrite Hset.
    apply appended_intro; [done|unfold bits_written; lia|by rewrite !length_insert| |].
    { apply Forall_insert; [apply Forall_insert; [done|]|]; apply is_u_lor; try done;
        [apply (Forall_lookup_1 _ _ _ _ Hok Hb1)|apply (Forall_lookup_1 _ _ _ _ Hok Hb0)]. }
    intros i. rewrite (bit_at_or _ w x0 b0) by (rewrite list_lookup_insert_ne by lia; done).
    rewrite (bit_at_or _ (w + 1) x1 b1) by done. rewrite <- Harith, <- orb_assoc. f_equal. apply orb_comm.
Qed.

Lemma appended_ext c c' v v' n :
  (∀ k, k < n → Z.testbit v (Z.of_nat k) = Z.testbit v' (Z.of_nat k)) → appended c c' v n → appended c c' v' n.
Proof. intros Hv (H1 & H2 & H3 & H4 & H5). split_and!; auto. intros k Hk. rewrite H5 by done. auto. Qed.

Lemma appended_trans c c1 c2 v n m :
  appended c c1 v n → appended c1 c2 (Z.shiftr v (Z.of_nat n)) m → appended c c2 v (n + m).
Proof.
  intros (A1 & A2 & A3 & A4 & A5) (B1 & B2 & B3 & B4 & B5). split_and!; [done|lia|lia|..].
  - intros i Hi. rewrite B4, A4 by lia. done.
  - intros k Hk. destruct (decide (k < n)) as [Hkn|Hkn].
    + rewrite B4 by lia. auto.
    + replace (bits_written c + k) with (bits_written c1 + (k - n)) by lia.
      rewrite B5, Z.shiftr_spec by lia. f_equal. lia.
Qed.

Lemma write_byte_spec p c v bits : wc_ok c → bits ≤ 8 → bits_written c + bits ≤ 8 * length (wc_bytes c) →
  ∃ c', write_up_to_u8 p c (as_u8 v) bits = Ret c' ∧ appended c c' v bits.
Proof.
  intros Hc Hb Hfit. destruct (write_up_to_u8_spec p c (as_u8 v) bits Hc Hb Hfit) as (c' & ? & Ha).
  exists c'. split; [done|]. eapply appended_ext; [|exact Ha]. intros k Hk.
  rewrite testbit_wrap, bool_decide_true by lia. done.
Qed.

Lemma write_whole_bytes_spec p n c v : wc_ok c → bits_written c + 8 * n ≤ 8 * length (wc_bytes c) →
  ∃ c', write_whole_bytes p n c v = Ret (c', Z.shiftr v (Z.of_nat (8 * n))) ∧ appended c c' v (8 * n).
Proof.
  revert c v. induction n as [|n IH]; intros c v Hc Hfit; cbn [write_whole_bytes].
  - exists c. rewrite Z.shiftr_0_r. split; [done|]. by apply appended_refl.
  - destruct (write_byte_spec p c v 8 Hc ltac:(lia) ltac:(lia)) as (c1 & -> & H1). cbn [mbind exec_bind].
    pose proof H1 as (Hc1 & Hl1 & Hw1 & _).
    destruct (IH c1 (Z.shiftr v 8) Hc1 ltac:(lia)) as (c2 & -> & H2). exists c2. split.
    + rewrite Z.shiftr_shiftr by lia. do 3 f_equal. lia.
    + replace (8 * S n) with (8 + 8 * n) by lia. by apply (appended_trans c c1).
Qed.

Lemma write_up_to_spec limit p c v bits : wc_ok c → bits ≤ limit →
  bits_written c + bits ≤ 8 * length (wc_bytes c) →
  ∃ c', write_up_to limit p c v bits = Ret c' ∧ appended c c' v bits.
Proof.
  intros Hc Hlim Hfit. unfold write_up_to. rewrite (proj2 (Nat.leb_le _ _) Hlim), debug_assert_true.
  cbn [mbind exec_bind]. pose proof (Nat.div_mod_eq bits 8) as Hdm.
  destruct (write_whole_bytes_spec p (bits / 8) c v Hc ltac:(lia)) as (c1 & -> & H1). cbn [mbind exec_bind].
  pose proof H1 as (Hc1 & Hl1 & Hw1 & _).
  pose proof (Nat.mod_upper_bound bits 8 ltac:(lia)) as Hmod.
  destruct (write_byte_spec p c1 (Z.shiftr v (Z.of_nat (8 * (bits / 8)))) (bits mod 8) Hc1 ltac:(lia) ltac:(lia))
    as (c2 & -> & H2). exists c2. split; [done|].
  rewrite Hdm. by apply (appended_trans c c1).
Qed.

(** ** Reading *)

Definition rc_ok (c : ReadCursor) : Prop := rc_bit_index c < 8 ∧ bytes_ok (rc_bytes c).

(** The bits that are still to be read, with zeros past the end. *)
Definition stream (c : ReadCursor) (i : nat) : bool := bit_at (rc_bytes c) (rc_bit_index c + i).

(** [v] is made of the next [n] bits. *)
Definition next_bits (c : ReadCursor) (n : nat) (v : Z) : Prop :=
  is_u (Z.of_nat n) v ∧ ∀ k, k < n → Z.testbit v (Z.of_nat k) = stream c k.

(** The bits that are left. *)
Definition rc_left (c : ReadCursor) : nat := 8 * length (rc_bytes c) - rc_bit_index c.

(** [c'] has read [n] bits more than [c]. *)
Definition consumed (c c' : ReadCursor) (n : nat) : Prop :=
  rc_ok c' ∧ (∀ i, stream c' i = stream c (n + i)) ∧ rc_bit_index c' = (rc_bit_index c + n) mod 8 ∧
  rc_left c' = rc_left c - n.

Lemma consumed_refl c : rc_ok c → consumed c c 0.
Proof. intros Hc. split_and!; [done|done| |lia]. rewrite Nat.add_0_r, Nat.mod_small; [done|apply Hc]. Qed.

Lemma rc_advance_spec c n : rc_ok c → consumed c (rc_advance_bits c n) n.
Proof.
  intros [Hb Hby]. unfold rc_advance_bits, advance_bytes. cbn [rc_bytes rc_bit_index].
  set (e := rc_bit_index c + n). split_and!; [| |done|].
  - split; cbn [rc_bytes rc_bit_index]; [by apply Nat.mod_upper_bound|by apply Forall_drop].
  - intros i. unfold stream. cbn [rc_bytes rc_bit_index]. rewrite bit_at_drop.
    pose proof (Nat.div_mod_eq e 8) as He. destruct (Nat.le_gt_cases (e / 8) (length (rc_bytes c))).
    + rewrite Nat.min_l by done. f_equal. unfold e in *. lia.
    + rewrite Nat.min_r, !bit_at_end by (unfold e in *; lia). done.
  - unfold rc_left. cbn [rc_bytes rc_bit_index]. rewrite length_drop. pose proof (Nat.div_mod_eq e 8).
    pose proof (Nat.mod_upper_bound e 8). unfold e in *. lia.
Qed.

Lemma byte_at_ok bytes i : bytes_ok bytes → is_u 8 (default 0%Z (bytes !! i)).
Proof.
  intros Hb. destruct (bytes !! i) as [b|] eqn:E; cbn; [|unfold is_u; lia].
  by apply (Forall_lookup_1 _ _ _ _ Hb E).
Qed.

Lemma read_up_to_u8_spec p c n : rc_ok c → n ≤ 8 →
  ∃ c' v, read_up_to_u8 p c n = Ret (c', v) ∧ consumed c c' n ∧ next_bits c n v.
Proof.
  intros Hc Hn. unfold read_up_to_u8. rewrite (proj2 (Nat.leb_le _ _) Hn), debug_assert_true. cbn [mbind exec_bind].
  destruct (Nat.eqb_spec n 0) as [->|Hn0].
  { exists c, 0%Z. split_and!; [done|by apply consumed_refl|split; [unfold is_u; cbn; lia|lia]]. }
  unfold usize_sub. rewrite (proj2 (Nat.leb_le _ _) Hn). cbn [mbind exec_bind].
  eexists _, _. split; [done|]. split; [by apply rc_advance_spec|]. split; [by apply is_u_land_mask|].
  intros k Hk. rewrite Z.land_spec, testbit_bit_mask, (proj2 (Nat.ltb_lt k n) Hk), andb_true_r by done.
  destruct Hc as [Hb Hby]. set (b := rc_bit_index c) in *. unfold stream, bit_at. fold b.
  pose proof (byte_at_ok (rc_bytes c) 0 Hby) as H0. unfold read_current, read_next.
  destruct (Nat.leb_spec b (8 - n)) as [Hone|Htwo].
  - rewrite Z.shiftr_spec, Nat.div_small, Nat.mod_small by lia. f_equal. lia.
  - rewrite Z.lor_spec, Z.shiftr_spec by lia. unfold shl. rewrite testbit_wrap, Z.shiftl_spec, bool_decide_true by lia.
    cbn [andb]. destruct (Nat.lt_ge_cases (b + k) 8) as [Hlo|Hhi].
    + rewrite Nat.div_small, Nat.mod_small by lia. rewrite (Z.testbit_neg_r _ (Z.of_nat k - _)) by lia.
      cbn [orb]. f_equal. lia.
    + assert ((b + k) / 8 = 1 ∧ (b + k) mod 8 = b + k - 8) as [-> ->] by dlia.
      rewrite (testbit_above _ 8 (Z.of_nat k + _)), orb_false_r by (done || lia). f_equal. lia.
Qed.

Lemma consumed_trans c c1 c2 n m : consumed c c1 n → consumed c1 c2 m → consumed c c2 (n + m).
Proof.
  intros (H1 & S1 & I1 & L1) (H2 & S2 & I2 & L2). split_and!; [done| | |lia].
  - intros i. rewrite S2, S1. f_equal. lia.
  - rewrite I2, I1, Nat.Div0.add_mod_idemp_l. f_equal. lia.
Qed.

(** Shifting the next bits into their place. *)
Lemma next_bits_lor w c c1 n m v b :
  consumed c c1 n → next_bits c n v → next_bits c1 m b → (Z.of_nat (n + m) ≤ w)%Z →
  next_bits c (n + m) (Z.lor v (shl w b (Z.of_nat n))).
Proof.
  intros (_ & Hs & _) [Hv Hvb] [Hb Hbb] Hw.
  assert (Hshl : shl w b (Z.of_nat n) = Z.shiftl b (Z.of_nat n)).
  { unfold shl. apply wrap_small. apply (is_u_mono (Z.of_nat m + Z.of_nat n)); [|lia].
    apply is_u_shiftl; [done|lia|lia]. }
  rewrite Hshl. split.
  - apply is_u_lor; [lia|apply (is_u_mono (Z.of_nat n)); [done|lia]|].
    replace (Z.of_nat (n + m)) with (Z.of_nat m + Z.of_nat n)%Z by lia. apply is_u_shiftl; [done|lia|lia].
  - intros k Hk. rewrite Z.lor_spec, Z.shiftl_spec by lia. destruct (decide (k < n)).
    + rewrite Hvb, (Z.testbit_neg_r b) by lia. apply orb_false_r.
    + rewrite (testbit_above v (Z.of_nat n)) by (done || lia). cbn [orb].
      replace (Z.of_nat k - Z.of_nat n)%Z with (Z.of_nat (k - n)) by lia. rewrite Hbb, Hs by lia. f_equal. lia.
Qed.

Lemma shl_arith_ok p w a n : (Z.of_nat n < w)%Z → shl_arith p w a n = Ret (shl w a (Z.of_nat n)).
Proof. intros Hn. unfold shl_arith. by rewrite (proj2 (Z.ltb_lt _ _) Hn). Qed.

Lemma read_whole_bytes_spec p w n c c0 v s : consumed c0 c s → next_bits c0 s v →
  (Z.of_nat (s + 8 * n) ≤ w)%Z →
  ∃ c' v', read_whole_bytes p w n c v s = Ret (c', v', s + 8 * n) ∧
    consumed c0 c' (s + 8 * n) ∧ next_bits c0 (s + 8 * n) v'.
Proof.
  revert c v s. induction n as [|n IH]; intros c v s Hc Hv Hw; cbn [read_whole_bytes].
  - exists c, v. by replace (s + 8 * 0) with s by lia.
  - destruct (read_up_to_u8_spec p c 8 (proj1 Hc) ltac:(lia)) as (c1 & b & -> & Hc1 & Hb). cbn [mbind exec_bind].
    rewrite shl_arith_ok by lia. cbn [mbind exec_bind].
    destruct (IH c1 (Z.lor v (shl w b (Z.of_nat s))) (s + 8)) as (c' & v' & -> & Hc' & Hv').
    + by apply (consumed_trans c0 c).
    + apply (next_bits_lor w c0 c); [done|done|done|lia].
    + lia.
    + exists c', v'. replace (s + 8 * S n) with (s + 8 + 8 * n) by lia. done.
Qed.

Lemma next_bits_zero c : next_bits c 0 0.
Proof. split; [unfold is_u; cbn; lia|lia]. Qed.

(** The last bits that do not fill a byte. *)
Lemma read_rest_spec p w c c0 v s r : consumed c0 c s → next_bits c0 s v → r ≤ 8 →
  (Z.of_nat s < w)%Z → (Z.of_nat (s + r) ≤ w)%Z →
  ∃ c' b, read_up_to_u8 p c r = Ret (c', b) ∧ shl_arith p w b s = Ret (shl w b (Z.of_nat s)) ∧
    consumed c0 c' (s + r) ∧ next_bits c0 (s + r) (Z.lor v (shl w b (Z.of_nat s))).
Proof.
  intros Hc Hv Hr Hs Hw. destruct (read_up_to_u8_spec p c r (proj1 Hc) Hr) as (c' & b & -> & Hc' & Hb).
  exists c', b. split_and!; [done|by apply shl_arith_ok|by apply (consumed_trans c0 c)|].
  by apply (next_bits_lor w c0 c).
Qed.

Lemma read_up_to_u16_spec p c bits : rc_ok c → 9 ≤ bits < 16 →
  ∃ c' v, read_up_to_u16 p c bits = Ret (c', v) ∧ consumed c c' bits ∧ next_bits c bits v.
Proof.
  intros Hc Hb. unfold read_up_to_u16. rewrite (proj2 (Nat.leb_le bits 16)), debug_assert_true by lia.
  cbn [mbind exec_bind]. rewrite (proj2 (Nat.ltb_lt 8 bits)) by lia.
  destruct (read_up_to_u8_spec p c 8 Hc ltac:(lia)) as (c1 & b & -> & Hc1 & Hb1). cbn [mbind exec_bind].
  destruct (read_rest_spec p 16 c1 c b 8 (bits mod 8) Hc1 Hb1) as (c2 & b2 & E1 & E2 & H1 & H2); [dlia|lia|dlia|].
  rewrite E1. cbn [mbind exec_bind]. rewrite E2. cbn [mbind exec_bind]. assert (8 + bits mod 8 = bits) as Hbits by dlia. rewrite Hbits in H1, H2. eauto.
Qed.

Lemma read_up_to_u32_spec p c bits : rc_ok c → bits < 32 →
  ∃ c' v, read_up_to_u32 p c bits = Ret (c', v) ∧ consumed c c' bits ∧ next_bits c bits v.
Proof.
  intros Hc Hb. unfold read_up_to_u32. rewrite (proj2 (Nat.leb_le bits 32)), debug_assert_true by lia.
  cbn [mbind exec_bind]. pose proof (Nat.div_mod_eq bits 8) as Hd.
  pose proof (Nat.mod_upper_bound bits 8 ltac:(lia)) as Hm.
  destruct (read_whole_bytes_spec p 32 (bits / 8) c c 0 0 (consumed_refl c Hc) (next_bits_zero c)) as (c1 & v1 & -> & Hc1 & Hv1);
    [lia|]. cbn [mbind exec_bind].
  destruct (read_rest_spec p 32 c1 c v1 (0 + 8 * (bits / 8)) (bits mod 8) Hc1 Hv1) as (c2 & b2 & E1 & E2 & H1 & H2); [lia..|].
  rewrite E1. cbn [mbind exec_bind]. rewrite E2. cbn [mbind exec_bind]. rewrite <- Nat.add_assoc, <- Hd in H1, H2. eauto.
Qed.

Lemma read_up_to_u64_spec p c bits : rc_ok c → bits ≤ 64 →
  ∃ c' v, read_up_to_u64 p c bits = Ret (c', v) ∧ consumed c c' bits ∧ next_bits c bits v.
Proof.
  intros Hc Hb. unfold read_up_to_u64. rewrite (proj2 (Nat.leb_le bits 64)), debug_assert_true by lia.
  cbn [mbind exec_bind]. pose proof (Nat.div_mod_eq bits 8) as Hd.
  pose proof (Nat.mod_upper_bound bits 8 ltac:(lia)) as Hm.
  destruct (read_whole_bytes_spec p 64 (bits / 8) c c 0 0 (consumed_refl c Hc) (next_bits_zero c)) as (c1 & v1 & -> & Hc1 & Hv1);
    [lia|]. cbn [mbind exec_bind]. destruct (Nat.eqb_spec bits 64) as [->|Hne]; cbn [negb].
  - change (0 + 8 * (64 / 8)) with 64 in *. eauto.
  - destruct (read_rest_spec p 64 c1 c v1 (0 + 8 * (bits / 8)) (bits mod 8) Hc1 Hv1) as (c2 & b2 & E1 & E2 & H1 & H2); [lia..|].
    rewrite E1. cbn [mbind exec_bind]. rewrite E2. cbn [mbind exec_bind]. rewrite <- Nat.add_assoc, <- Hd in H1, H2. eauto.
Qed.
