(* ===== verification/EncFieldsSpec.v ===== *)
(** * Correctness of the cursor functions for each width

    Every [write_uN] appends [N] bits or panics for lack of space, every [read_uN]
    reads [N] bits with zero extension, in debug and in release builds; sequences of fields
    are read back as they were written. *)

From S2P Require Import Prelude EncCursor EncFields EncCursorSpec.

(** ** One field *)

Lemma write_fns_spec n f p c v : write_fns !! n = Some f → wc_ok c →
  bits_written c + S n ≤ 8 * length (wc_bytes c) →
  ∃ c', f p c v = Ret c' ∧ appended c c' v (S n).
Proof.
  unfold write_fns. intros Hf Hc Hfit.
  do 64 (destruct n as [|n];
    [injection Hf as <-; (by apply write_up_to_u8_spec; [|lia|]) || (by apply write_up_to_spec; [|lia|])|
     cbn [lookup list_lookup] in Hf]).
  done.
Qed.

(** Narrowing a value that fits changes nothing. *)
Lemma read_narrow c n w v : next_bits c n v → (Z.of_nat n ≤ w)%Z → wrap w v = v.
Proof. intros [Hv _] Hn. apply wrap_small, (is_u_mono (Z.of_nat n)); [done|lia]. Qed.

Lemma read_fns_spec n f p c : read_fns !! n = Some f → rc_ok c →
  ∃ c' v, f p c = Ret (c', v) ∧ consumed c c' (S n) ∧ next_bits c (S n) v.
Proof.
  unfold read_fns. intros Hf Hc.
  assert (H16 : ∃ c' v, read_u16 p c = Ret (c', v) ∧ consumed c c' 16 ∧ next_bits c 16 v).
  { unfold read_u16. destruct (read_up_to_u32_spec p c 16 Hc ltac:(lia)) as (c' & v & -> & Hc' & Hv).
    cbn [mbind exec_bind]. rewrite (read_narrow c 16 16 v) by (done || lia). eauto. }
  assert (H32 : ∃ c' v, read_u32 p c = Ret (c', v) ∧ consumed c c' 32 ∧ next_bits c 32 v).
  { unfold read_u32. destruct (read_up_to_u64_spec p c 32 Hc ltac:(lia)) as (c' & v & -> & Hc' & Hv).
    cbn [mbind exec_bind]. rewrite (read_narrow c 32 32 v) by (done || lia). eauto. }
  do 64 (destruct n as [|n];
    [injection Hf as <-; exact H16 || exact H32 || (by apply read_up_to_u8_spec; [|lia]) ||
       (by apply read_up_to_u16_spec; [|lia]) || (by apply read_up_to_u32_spec; [|lia]) ||
       (by apply read_up_to_u64_spec; [|lia])|
     cbn [lookup list_lookup] in Hf]).
  done.
Qed.

(** ** Sequences of fields *)

Fixpoint write_fields (p : profile) (c : WriteCursor) (fs : list (nat * Z)) : exec WriteCursor :=
  match fs with
  | [] => Ret c
  | (n, v) :: fs' =>
      f ← unwrap (write_fns !! (n - 1));
      c ← f p c v;
      write_fields p c fs'
  end.

Fixpoint read_fields (p : profile) (c : ReadCursor) (ns : list nat) : exec (ReadCursor * list Z) :=
  match ns with
  | [] => Ret (c, [])
  | n :: ns' =>
      f ← unwrap (read_fns !! (n - 1));
      '(c, v) ← f p c;
      '(c, vs) ← read_fields p c ns';
      Ret (c, v :: vs)
  end.

Definition total_bits (fs : list (nat * Z)) : nat := sum_list (fst <$> fs).

Lemma next_bits_unique c n v v' :
  next_bits c n v' → (∀ k, k < n → stream c k = Z.testbit v (Z.of_nat k)) → v' = wrap (Z.of_nat n) v.
Proof.
  intros [Hv' Hb] Hs. apply Z.bits_inj'. intros k Hk. rewrite testbit_wrap by lia.
  case_bool_decide as Hkn.
  - rewrite <- (Z2Nat.id k), Hb, Hs by lia. done.
  - cbn [andb]. apply (testbit_above v' (Z.of_nat n)); [done|lia].
Qed.

Lemma fields_exist n : 1 ≤ n ≤ 64 →
  (∃ f, write_fns !! (n - 1) = Some f) ∧ (∃ g, read_fns !! (n - 1) = Some g).
Proof.
  intros Hn. split; apply lookup_lt_is_Some_2; (replace (length _) with 64 by done); lia.
Qed.

Lemma write_fields_spec p fs : ∀ c, Forall (λ f, 1 ≤ f.1 ≤ 64) fs → wc_ok c →
  bits_written c + total_bits fs ≤ 8 * length (wc_bytes c) →
  ∃ c', write_fields p c fs = Ret c' ∧ wc_ok c' ∧ bits_written c' = bits_written c + total_bits fs ∧
    (∀ i, i < bits_written c → bit_at (wc_bytes c') i = bit_at (wc_bytes c) i) ∧
    ∀ p' r, rc_ok r → (∀ i, i < total_bits fs → stream r i = bit_at (wc_bytes c') (bits_written c + i)) →
      ∃ r', read_fields p' r (fst <$> fs) = Ret (r', (λ f, wrap (Z.of_nat f.1) f.2) <$> fs) ∧
        consumed r r' (total_bits fs).
Proof.
  induction fs as [|[n v] fs IH]; intros c Hfs Hc Hfit; cbn [write_fields].
  - exists c. split_and!; [done|done|cbn; lia|done|]. intros p' r Hr _. exists r. split; [done|by apply consumed_refl].
  - apply Forall_cons in Hfs as [Hn Hfs]. cbn [fst] in Hn.
    assert (Ht : total_bits ((n, v) :: fs) = n + total_bits fs) by done. rewrite Ht in *.
    destruct (fields_exist n Hn) as [[f Hf] [g Hg]]. rewrite Hf. cbn [unwrap mbind exec_bind].
    destruct (write_fns_spec (n - 1) f p c v Hf Hc) as (c1 & -> & Ha); [lia|]. cbn [mbind exec_bind].
    replace (S (n - 1)) with n in Ha by lia. destruct Ha as (Hc1 & Hl1 & Hw1 & Hold1 & Hnew1).
    destruct (IH c1 Hfs Hc1 ltac:(lia)) as (c' & Hwr & Hc' & Hw' & Hold' & Hread).
    exists c'. split_and!; [done|done|lia| |].
    + intros i Hi. rewrite Hold', Hold1 by lia. done.
    + intros p' r Hr Hs. rewrite !fmap_cons. cbn [read_fields fst snd]. rewrite Hg. cbn [unwrap mbind exec_bind].
      destruct (read_fns_spec (n - 1) g p' r Hg Hr) as (r1 & v' & -> & Hr1 & Hv'). cbn [mbind exec_bind].
      replace (S (n - 1)) with n in Hr1, Hv' by lia.
      rewrite (next_bits_unique r n v v' Hv').
      2: { intros k Hk. rewrite Hs, Hold', Hnew1 by lia. done. }
      destruct (Hread p' r1 (proj1 Hr1)) as (r' & Hrd & Hr').
      { intros i Hi. rewrite (proj1 (proj2 Hr1)), Hs by lia. f_equal. lia. }
      rewrite Hrd. cbn [mbind exec_bind]. exists r'. split; [done|]. by apply (consumed_trans r r1).
Qed.

Lemma WriteCursor_new_ok buf : wc_ok (WriteCursor_new buf) ∧ bits_written (WriteCursor_new buf) = 0 ∧
  length (wc_bytes (WriteCursor_new buf)) = length buf.
Proof.
  cbn. rewrite length_fmap. split_and!; [|done|done]. unfold wc_ok, bits_written. cbn [wc_bit_index wc_bytes_written wc_bytes WriteCursor_new].
  split_and!; [lia|lia|apply Forall_fmap, Forall_true; intros; cbn; unfold byte_ok, is_u; lia|].
  intros i _. unfold bit_at. rewrite list_lookup_fmap. destruct (buf !! _); cbn; apply Z.testbit_0_l.
Qed.

(** ** Claims *)

(** C23: a sequence of unsigned fields of any widths from 1 to 64 bits, written one
    after the other into a buffer with enough space and read with the same widths,
    comes back unchanged (each value reduced to its width), whatever the alignment of the
    fields and whatever the builds of writer and reader. *)
Theorem fields_roundtrip (p p' : profile) (buf : list u8) (fs : list (nat * Z)) :
  Forall (λ f, 1 ≤ f.1 ≤ 64) fs → total_bits fs ≤ 8 * length buf →
  ∃ c r, write_fields p (WriteCursor_new buf) fs = Ret c ∧
    read_fields p' (ReadCursor_new (wc_bytes c)) (fst <$> fs) =
      Ret (r, (λ f, wrap (Z.of_nat f.1) f.2) <$> fs).
Proof.
  intros Hfs Hfit. destruct (WriteCursor_new_ok buf) as (Hc & Hw & Hl).
  destruct (write_fields_spec p fs (WriteCursor_new buf) Hfs Hc) as (c & -> & Hc' & _ & _ & Hread); [lia|].
  destruct (Hread p' (ReadCursor_new (wc_bytes c))) as (r & Hr & _).
  - split; cbn; [lia|apply Hc'].
  - intros i _. by rewrite Hw.
  - by exists c, r.
Qed.

(** Reading any number of bits from 1 to 64 never panics, in debug and release
    builds: the result is made of the next bits of the input, least significant
    first, and of zeros past the end. *)
Theorem read_zero_extends n f p c : read_fns !! n = Some f → rc_ok c →
  ∃ c' v, f p c = Ret (c', v) ∧ is_u (Z.of_nat (S n)) v ∧
    (∀ k, k < S n → Z.testbit v (Z.of_nat k) =
       if rc_bit_index c + k <? 8 * length (rc_bytes c)
       then bit_at (rc_bytes c) (rc_bit_index c + k) else false) ∧
    rc_ok c' ∧ ∀ i, stream c' i = stream c (S n + i).
Proof.
  intros Hf Hc. destruct (read_fns_spec n f p c Hf Hc) as (c' & v & -> & (Hc' & Hs & _) & [Hv Hb]).
  exists c', v. split_and!; [done|done| |done|done]. intros k Hk. rewrite Hb by done. unfold stream.
  case_cmp; [done|]. by apply bit_at_end.
Qed.

(** ** The aligned variants *)

Lemma to_le_bytes_length n v : length (to_le_bytes n v) = n.
Proof. revert v. induction n as [|n IH]; intros v; cbn; [done|]. by rewrite IH. Qed.

Lemma to_le_bytes_ok n v : bytes_ok (to_le_bytes n v).
Proof. revert v. induction n as [|n IH]; intros v; cbn; constructor; [by apply is_u_wrap|done]. Qed.

Lemma from_le_bytes_u l : bytes_ok l → is_u (8 * Z.of_nat (length l)) (from_le_bytes l).
Proof.
  induction 1 as [|b l Hb _ IH]; cbn [from_le_bytes length]; [done|].
  unfold byte_ok, is_u in *. replace (8 * Z.of_nat (S (length l)))%Z with (8 + 8 * Z.of_nat (length l))%Z by lia.
  rewrite Z.pow_add_r by lia. change (2 ^ 8)%Z with 256%Z in *.
  revert IH. generalize (2 ^ (8 * Z.of_nat (length l)))%Z. lia.
Qed.

Lemma from_to_le_bytes n v : from_le_bytes (to_le_bytes n v) = wrap (8 * Z.of_nat n) v.
Proof.
  revert v. induction n as [|n IH]; intros v; cbn [to_le_bytes from_le_bytes].
  { unfold wrap. by rewrite Z.mod_1_r. }
  rewrite IH. unfold as_u8, wrap. rewrite Z.shiftr_div_pow2 by lia.
  replace (8 * Z.of_nat (S n))%Z with (8 + 8 * Z.of_nat n)%Z by lia.
  rewrite Z.pow_add_r by lia. change (2 ^ 8)%Z with 256%Z.
  rewrite Z.rem_mul_r by lia. done.
Qed.

Lemma to_le_bytes_lookup n v i : i < n → to_le_bytes n v !! i = Some (as_u8 (Z.shiftr v (Z.of_nat (8 * i)))).
Proof.
  revert v i. induction n as [|n IH]; intros v [|i] Hi; [lia|lia| |].
  - cbn -[Z.shiftr]. by rewrite Z.shiftr_0_r.
  - cbn [to_le_bytes lookup list_lookup]. rewrite (IH _ i) by lia. rewrite Z.shiftr_shiftr by lia.
    do 3 f_equal. lia.
Qed.

(** Bytes placed at an aligned position are the bits of the value. *)
Lemma write_aligned_appended c n v bytes :
  wc_ok c → wc_bit_index c = 0 → bits_written c + 8 * n ≤ 8 * length (wc_bytes c) →
  length bytes = n → bytes_ok bytes →
  (∀ i, i < n → default 0%Z (bytes !! i) = as_u8 (Z.shiftr v (Z.of_nat (8 * i)))) →
  ∃ c', wc_advance_bits (set_remaining c (bytes ++ drop n (drop (wc_bytes_written c) (wc_bytes c)))) (8 * n) = Ret c' ∧
    appended c c' v (8 * n).
Proof.
  intros Hc Hal Hfit Hlen Hok Hv. pose proof Hc as (_ & Hle & Hby & Hz). unfold bits_written in *.
  set (w := wc_bytes_written c) in *. rewrite Hal in *.
  set (new := take w (wc_bytes c) ++ bytes ++ drop n (drop w (wc_bytes c))).
  assert (Htake : length (take w (wc_bytes c)) = w) by (rewrite length_take; lia).
  change (set_remaining c _) with (mkWriteCursor new (wc_bytes_written c) (wc_bit_index c)).
  apply appended_intro; [done|unfold bits_written; lia| |..].
  - unfold new. rewrite !length_app, !length_drop. lia.
  - unfold new. rewrite !Forall_app. split_and!; [by apply Forall_take|done|by do 2 apply Forall_drop].
  - intros i. unfold bits_written. fold w. rewrite Hal, Nat.add_0_r. unfold bit_at at 1. unfold new.
    pose proof (Nat.div_mod_eq i 8) as Hi. pose proof (Nat.mod_upper_bound i 8 ltac:(lia)) as Hm.
    destruct (Nat.leb_spec (w * 8) i) as [Hge|Hlt]; cbn [andb].
    + rewrite lookup_app_r, Htake by lia. rewrite Hz by lia. cbn [orb]. case_cmp.
      * rewrite lookup_app_l by lia. rewrite Hv by lia. rewrite testbit_wrap, bool_decide_true, Z.shiftr_spec by lia.
        cbn [andb]. f_equal. lia.
      * rewrite lookup_app_r, !lookup_drop by lia.
        specialize (Hz i ltac:(lia)). unfold bit_at in Hz. rewrite <- Hz. do 4 f_equal. lia.
    + rewrite lookup_app_l by lia. rewrite lookup_take_lt by lia. by rewrite orb_false_r.
Qed.

Lemma write_aligned_spec n c v : wc_ok c → wc_bit_index c = 0 →
  bits_written c + 8 * n ≤ 8 * length (wc_bytes c) →
  ∃ c', write_aligned n c v = Ret c' ∧ appended c c' v (8 * n).
Proof.
  intros Hc Hal Hfit. unfold write_aligned, wc_is_aligned_to_8_bits. rewrite Hal. cbn [Nat.eqb assert_ mbind exec_bind].
  pose proof Hc as (_ & Hle & _ & _). unfold bits_written in *.
  unfold remaining_bytes. rewrite (proj2 (Nat.leb_le _ _)) by lia. cbn [mbind exec_bind].
  rewrite length_drop, (proj2 (Nat.leb_le _ _)) by lia. cbn [assert_ mbind exec_bind]. rewrite (Nat.mul_comm n 8).
  apply write_aligned_appended; [done|done|unfold bits_written; lia|apply to_le_bytes_length|apply to_le_bytes_ok|].
  intros i Hi. by rewrite to_le_bytes_lookup.
Qed.

Lemma byte_eq a b : is_u 8 a → is_u 8 b → (∀ k, k < 8 → Z.testbit a (Z.of_nat k) = Z.testbit b (Z.of_nat k)) → a = b.
Proof.
  intros Ha Hb Hk. apply Z.bits_inj'. intros k H0. destruct (Z_lt_ge_dec k 8).
  - rewrite <- (Z2Nat.id k) by done. apply Hk. lia.
  - by rewrite (testbit_above a 8), (testbit_above b 8) by (done || lia).
Qed.

(** The bits and the position determine the cursor. *)
Lemma appended_functional c c1 c2 v n : appended c c1 v n → appended c c2 v n → c1 = c2.
Proof.
  intros (A1 & A2 & A3 & A4 & A5) (B1 & B2 & B3 & B4 & B5).
  destruct c1 as [by1 w1 i1], c2 as [by2 w2 i2]. destruct A1 as (Ai & Al & Ao & Az), B1 as (Bi & Bl & Bo & Bz).
  unfold bits_written in *. cbn [wc_bytes wc_bytes_written wc_bit_index] in *.
  assert (w1 = w2 ∧ i1 = i2) as [<- <-] by lia. f_equal.
  assert (Hbits : ∀ i, bit_at by1 i = bit_at by2 i).
  { intros i. set (pos := wc_bytes_written c * 8 + wc_bit_index c) in *.
    destruct (decide (i < pos)); [by rewrite A4, B4|].
    destruct (decide (i < pos + n)); [|by rewrite Az, Bz by lia].
    replace i with (pos + (i - pos)) by lia. rewrite A5, B5 by lia. done. }
  apply list_eq. intros j. destruct (decide (j < length by1)) as [Hj|Hj].
  2: { rewrite !lookup_ge_None_2; [done|lia|lia]. }
  destruct (lookup_lt_is_Some_2 by1 j Hj) as [a Ha]. destruct (lookup_lt_is_Some_2 by2 j ltac:(lia)) as [b Hb].
  rewrite Ha, Hb. f_equal.
  apply byte_eq; [apply (Forall_lookup_1 _ _ _ _ Ao Ha)|apply (Forall_lookup_1 _ _ _ _ Bo Hb)|].
  intros k Hk. specialize (Hbits (8 * j + k)). unfold bit_at in Hbits.
  assert ((8 * j + k) / 8 = j ∧ (8 * j + k) mod 8 = k) as [E1 E2] by dlia. by rewrite E1, E2, Ha, Hb in Hbits.
Qed.

Lemma write_aligned_u8_spec c v : wc_ok c → wc_bit_index c = 0 → is_u 8 v →
  bits_written c + 8 ≤ 8 * length (wc_bytes c) →
  ∃ c', write_aligned_u8 c v = Ret c' ∧ appended c c' v 8.
Proof.
  intros Hc Hal Hv Hfit. unfold write_aligned_u8, wc_is_aligned_to_8_bits. rewrite Hal.
  cbn [Nat.eqb assert_ mbind exec_bind]. pose proof Hc as (_ & Hle & _ & _). unfold bits_written in *.
  unfold remaining_bytes. rewrite (proj2 (Nat.leb_le _ _)) by lia. cbn [mbind exec_bind].
  destruct (drop (wc_bytes_written c) (wc_bytes c)) as [|b rest] eqn:Ed.
  { apply (f_equal length) in Ed. rewrite length_drop in Ed. cbn in Ed. lia. }
  destruct (write_aligned_appended c 1 v [v]) as (c' & Hadv & Ha); [done|done|unfold bits_written; lia|done|by constructor| |].
  - intros [|i] Hi; [|lia]. cbn -[Z.shiftr]. rewrite Z.shiftr_0_r. symmetry. by apply wrap_small.
  - rewrite Ed in Hadv. exists c'. split; [exact Hadv|done].
Qed.

(** On a cursor at a byte boundary, the aligned writing functions and the
    general ones for the same width do the same. *)
Theorem aligned_writes_agree p c v : wc_ok c → wc_bit_index c = 0 →
  (bits_written c + 8 ≤ 8 * length (wc_bytes c) → is_u 8 v → write_aligned_u8 c v = write_u8 p c v) ∧
  (bits_written c + 16 ≤ 8 * length (wc_bytes c) → write_aligned_u16 c v = write_u16 p c v) ∧
  (bits_written c + 32 ≤ 8 * length (wc_bytes c) → write_aligned_u32 c v = write_u32 p c v) ∧
  (bits_written c + 64 ≤ 8 * length (wc_bytes c) → write_aligned_u64 c v = write_u64 p c v).
Proof.
  intros Hc Hal.
  assert (Hgen : ∀ n limit, 8 * n ≤ limit → bits_written c + 8 * n ≤ 8 * length (wc_bytes c) →
    write_aligned n c v = write_up_to limit p c v (8 * n)).
  { intros n limit Hl Hfit. destruct (write_aligned_spec n c v Hc Hal Hfit) as (c1 & -> & H1).
    destruct (write_up_to_spec limit p c v (8 * n) Hc Hl Hfit) as (c2 & -> & H2).
    f_equal. by apply (appended_functional c c1 c2 v (8 * n)). }
  split_and!; intros Hfit.
  - intros Hv. destruct (write_aligned_u8_spec c v Hc Hal Hv Hfit) as (c1 & -> & H1).
    unfold write_u8. destruct (write_up_to_u8_spec p c v 8 Hc ltac:(lia) Hfit) as (c2 & -> & H2).
    f_equal. by apply (appended_functional c c1 c2 v 8).
  - apply (Hgen 2 16); lia.
  - apply (Hgen 4 32); lia.
  - apply (Hgen 8 64); lia.
Qed.

(** ** Lack of space *)

Lemma write_up_to_u8_full p c v bits : wc_ok c → 1 ≤ bits ≤ 8 →
  8 * length (wc_bytes c) < bits_written c + bits → write_up_to_u8 p c v bits = Panic.
Proof.
  intros Hc Hbits Hfull. unfold write_up_to_u8. rewrite (proj2 (Nat.leb_le bits 8)), debug_assert_true by lia.
  cbn [mbind exec_bind]. rewrite (proj2 (Nat.eqb_neq bits 0)), check_length_spec by (done || lia).
  case_cmp; [|done]. cbn [mbind exec_bind]. unfold usize_sub. rewrite (proj2 (Nat.leb_le bits 8)) by lia.
  cbn [mbind exec_bind]. pose proof Hc as (Hb & Hle & _ & _). unfold bits_written in *.
  unfold remaining_bytes. rewrite (proj2 (Nat.leb_le (wc_bytes_written c) _)) by lia. cbn [mbind exec_bind].
  set (rest := drop (wc_bytes_written c) (wc_bytes c)).
  assert (Hrest : length rest = length (wc_bytes c) - wc_bytes_written c) by apply length_drop.
  unfold or_at, index. case_cmp.
  - rewrite lookup_ge_None_2 by lia. done.
  - destruct (rest !! 0) as [b0|]; [|done]. cbn [unwrap mbind exec_bind].
    rewrite lookup_ge_None_2 by (rewrite length_insert; lia). done.
Qed.

Lemma write_up_to_full limit p c v bits : wc_ok c → bits ≤ limit →
  8 * length (wc_bytes c) < bits_written c + bits → write_up_to limit p c v bits = Panic.
Proof.
  intros Hc Hlim Hfull. unfold write_up_to. rewrite (proj2 (Nat.leb_le _ _) Hlim), debug_assert_true.
  cbn [mbind exec_bind]. pose proof (Nat.div_mod_eq bits 8) as Hd.
  pose proof (Nat.mod_upper_bound bits 8 ltac:(lia)) as Hm.
  assert (Hwhole : ∀ n c v, wc_ok c → 8 * length (wc_bytes c) < bits_written c + 8 * n →
    write_whole_bytes p n c v = Panic).
  { clear. intros n. induction n as [|n IH]; intros c v Hc Hf; [destruct Hc as (_ & ? & _); lia|].
    cbn [write_whole_bytes]. destruct (Nat.lt_ge_cases (8 * length (wc_bytes c)) (bits_written c + 8)).
    - by rewrite write_up_to_u8_full by (done || lia).
    - destruct (write_byte_spec p c v 8 Hc ltac:(lia) ltac:(lia)) as (c1 & -> & Hc1 & Hl1 & Hw1 & _).
      cbn [mbind exec_bind]. apply IH; [done|lia]. }
  destruct (Nat.lt_ge_cases (8 * length (wc_bytes c)) (bits_written c + 8 * (bits / 8))).
  - by rewrite Hwhole.
  - destruct (write_whole_bytes_spec p (bits / 8) c v Hc ltac:(lia)) as (c1 & -> & Hc1 & Hl1 & Hw1 & _).
    cbn [mbind exec_bind]. apply write_up_to_u8_full; [done|lia|lia].
Qed.

(** Writing [N] bits either appends the low [N] bits of the value and leaves all
    earlier bits alone, or panics, and it panics exactly when fewer than [N] bits are
    left in the slice. *)
Theorem write_appends_or_panics n f p c v : write_fns !! n = Some f → wc_ok c →
  if bits_written c + S n <=? 8 * length (wc_bytes c)
  then ∃ c', f p c v = Ret c' ∧ appended c c' v (S n)
  else f p c v = Panic.
Proof.
  intros Hf Hc. case_cmp; [by apply (write_fns_spec n)|].
  unfold write_fns in Hf.
  do 64 (destruct n as [|n];
    [injection Hf as <-; (by apply write_up_to_u8_full; [|lia|]) || (by apply write_up_to_full; [|lia|])|
     cbn [lookup list_lookup] in Hf]).
  done.
Qed.

(** The byte-array writer for aligned cursors does not check the alignment, although
    it is documented to panic on an unaligned cursor: it replaces the partly written
    byte, so that bits written before are lost. *)
Theorem write_aligned_bytes_unaligned c b rest : wc_ok c → is_u 8 b → wc_bit_index c ≠ 0 →
  drop (wc_bytes_written c) (wc_bytes c) = rest → 2 ≤ length rest →
  ∃ c', write_aligned_bytes c [b] = Ret c' ∧ wc_bit_index c' = wc_bit_index c ∧
    wc_bytes c' !! wc_bytes_written c = Some b.
Proof.
  intros (Hi & Hle & _ & _) Hb Hal <- Hlen. unfold write_aligned_bytes, remaining_bytes, bits_written in *.
  rewrite length_drop in Hlen. rewrite (proj2 (Nat.leb_le _ _)) by lia. cbn [mbind exec_bind].
  rewrite length_drop. cbn [length]. rewrite (proj2 (Nat.leb_le _ _)) by lia. cbn [assert_ mbind exec_bind].
  unfold wc_advance_bits, check_length, usize_sub, set_remaining. cbn [wc_bytes wc_bytes_written wc_bit_index].
  rewrite !length_app, length_take, length_drop, length_drop. cbn [length].
  rewrite (proj2 (Nat.leb_le (wc_bytes_written c) _)) by lia. cbn [mbind exec_bind].
  rewrite (proj2 (Nat.leb_le _ _)) by dlia. cbn [assert_ mbind exec_bind].
  eexists. split; [done|]. cbn [wc_bytes wc_bit_index]. split; [dlia|].
  rewrite lookup_app_r by (rewrite length_take; lia). rewrite length_take.
  replace (_ - _) with 0 by lia. done.
Qed.

(** ** Witnesses *)

Lemma fields_roundtrip_witness :
  ∃ c r, write_fields Debug (WriteCursor_new [0; 0; 0; 0; 0; 0]%Z) [(3, 5%Z); (32, 0xdeadbeef%Z); (11, 0x7ff%Z)] = Ret c ∧
    read_fields Release (ReadCursor_new (wc_bytes c)) [3; 32; 11] = Ret (r, [5; 0xdeadbeef; 0x7ff]%Z).
Proof.
  apply (fields_roundtrip Debug Release [0; 0; 0; 0; 0; 0]%Z [(3, 5%Z); (32, 0xdeadbeef%Z); (11, 0x7ff%Z)]).
  - repeat constructor; cbn; lia.
  - cbn. lia.
Defined.

Lemma read_zero_extends_witness :
  ∃ c' v, read_u12 Debug (mkReadCursor [0xab]%Z 4) = Ret (c', v) ∧ is_u 12 v.
Proof.
  destruct (read_zero_extends 11 read_u12 Debug (mkReadCursor [0xab]%Z 4)) as (c' & v & Hr & Hv & _);
    [reflexivity|split; cbn; [lia|repeat constructor; unfold byte_ok, is_u; lia]|by exists c', v].
Defined.

Lemma aligned_writes_agree_witness :
  write_aligned_u16 (WriteCursor_new [0; 0]%Z) 0x1234 = write_u16 Debug (WriteCursor_new [0; 0]%Z) 0x1234.
Proof.
  destruct (aligned_writes_agree Debug (WriteCursor_new [0; 0]%Z) 0x1234) as (_ & H16 & _);
    [apply WriteCursor_new_ok|reflexivity|apply H16; cbn; lia].
Defined.

Lemma write_appends_or_panics_witness :
  write_u12 Release (WriteCursor_new [0]%Z) 7 = Panic.
Proof.
  pose proof (write_appends_or_panics 11 write_u12 Release (WriteCursor_new [0]%Z) 7 eq_refl) as H.
  apply H. apply WriteCursor_new_ok.
Defined.

Lemma write_aligned_bytes_unaligned_witness :
  ∃ c', write_aligned_bytes (mkWriteCursor [5; 0]%Z 0 3) [0x40%Z] = Ret c' ∧ wc_bytes c' !! 0 = Some 0x40%Z.
Proof.
  destruct (write_aligned_bytes_unaligned (mkWriteCursor [5; 0]%Z 0 3) 0x40 [5; 0]%Z) as (c' & Hw & _ & Hb);
    [|unfold is_u; lia|discriminate|reflexivity|cbn; lia|by exists c'].
  split_and!; [cbn; lia|cbn; lia|repeat constructor; unfold byte_ok, is_u; lia|].
  intros i Hi. cbn in Hi. unfold bit_at.
  destruct (i / 8) as [|[|q]] eqn:E; cbn [lookup list_lookup default]; [|apply Z.testbit_0_l|].
  - assert (i = 3 ∨ i = 4 ∨ i = 5 ∨ i = 6 ∨ i = 7) as Hc by dlia.
    destruct Hc as [-> | [-> | [-> | [-> | ->]]]]; reflexivity.
  - apply Z.testbit_0_l.
Defined.
