(* ===== verification/EncBits.v ===== *)
(** * Bit arrays of [canadensis_encoding]

    Models [canadensis_encoding/src/bits.rs]: an array of up to [8 * BYTES] bits with
    its length, element access, and its serialization through the cursors. *)

From S2P Require Import Prelude EncCursor EncFields EncCursorSpec EncFieldsSpec.

Section bit_array.
Context (BYTES : nat).

Record BitArray := mkBitArray { ba_bytes : list u8; ba_bit_length : usize }.

Definition BitArray_new (bit_length : usize) : exec BitArray :=
  _ ← assert_ (bit_length <=? BYTES * 8);
  Ret (mkBitArray (replicate BYTES 0%Z) bit_length).
Definition BitArray_default : BitArray := mkBitArray (replicate BYTES 0%Z) 0.
Definition ba_len (a : BitArray) : usize := ba_bit_length a.
Definition ba_is_empty (a : BitArray) : bool := ba_bit_length a =? 0.

Definition split_index (a : BitArray) (bit_index : usize) : exec (usize * nat) :=
  _ ← assert_ (bit_index <? ba_bit_length a);
  Ret (bit_index / 8, bit_index mod 8).

Definition ba_get (a : BitArray) (bit_index : usize) : exec bool :=
  '(byte_index, bit_in_byte) ← split_index a bit_index;
  byte ← index (ba_bytes a) byte_index;
  Ret (Z.land (Z.shiftr byte (Z.of_nat bit_in_byte)) 1 =? 1)%Z.

Definition ba_set (a : BitArray) (bit_index : usize) (value : bool) : exec BitArray :=
  '(byte_index, bit_in_byte) ← split_index a bit_index;
  let mask := shl 8 1 (Z.of_nat bit_in_byte) in
  byte ← index (ba_bytes a) byte_index;
  let byte := if value then Z.lor byte mask else Z.land byte (unot 8 mask) in
  Ret (mkBitArray (<[byte_index := byte]> (ba_bytes a)) (ba_bit_length a)).

Definition ba_fill (a : BitArray) (value : bool) : BitArray :=
  mkBitArray ((λ _, if value then 0xff%Z else 0x00%Z) <$> ba_bytes a) (ba_bit_length a).

(** The loop over the bits, from [i] on. *)
Fixpoint ba_write_bits (p : profile) (a : BitArray) (c : WriteCursor) (i n : nat) : exec WriteCursor :=
  match n with
  | 0 => Ret c
  | S n' =>
      b ← ba_get a i;
      c ← write_bool p c b;
      ba_write_bits p a c (S i) n'
  end.

Definition ba_serialize (p : profile) (a : BitArray) (c : WriteCursor) : exec WriteCursor :=
  if (ba_bit_length a =? BYTES * 8) && wc_is_aligned_to_8_bits c then write_aligned_bytes c (ba_bytes a)
  else ba_write_bits p a c 0 (ba_bit_length a).

(** [fill_with] reads one byte per element of the array. *)
Fixpoint fill_with_read (n : nat) (c : ReadCursor) : exec (ReadCursor * list u8) :=
  match n with
  | 0 => Ret (c, [])
  | S n' =>
      '(c, b) ← read_aligned_u8 c;
      '(c, bs) ← fill_with_read n' c;
      Ret (c, b :: bs)
  end.

Fixpoint ba_read_bits (p : profile) (a : BitArray) (c : ReadCursor) (i n : nat) : exec (BitArray * ReadCursor) :=
  match n with
  | 0 => Ret (a, c)
  | S n' =>
      '(c, b) ← read_bool p c;
      a ← ba_set a i b;
      ba_read_bits p a c (S i) n'
  end.

Definition ba_deserialize_in_place (p : profile) (a : BitArray) (c : ReadCursor)
    : exec (BitArray * ReadCursor) :=
  if (ba_bit_length a mod 8 =? 0) && rc_is_aligned_to_8_bits c then
    '(c, bytes) ← fill_with_read (length (ba_bytes a)) c;
    Ret (mkBitArray bytes (ba_bit_length a), c)
  else ba_read_bits p a c 0 (ba_bit_length a).

Definition ba_deserialize (p : profile) (bit_length : usize) (c : ReadCursor) : exec (BitArray * ReadCursor) :=
  a ← BitArray_new bit_length;
  ba_deserialize_in_place p a c.

(** The bits, as the iterators give them. *)
Fixpoint ba_iter_from (a : BitArray) (i n : nat) : exec (list bool) :=
  match n with
  | 0 => Ret []
  | S n' => b ← ba_get a i; bs ← ba_iter_from a (S i) n'; Ret (b :: bs)
  end.
Definition ba_iter (a : BitArray) : exec (list bool) := ba_iter_from a 0 (ba_len a).

(** [compare]: by length, then by the first bit that differs. *)
Fixpoint compare_bits (l r : list bool) : comparison :=
  match l, r with
  | a :: l', b :: r' =>
      match a, b with true, false => Gt | false, true => Lt | _, _ => compare_bits l' r' end
  | _, _ => Eq
  end.
Definition ba_compare (l r : BitArray) : exec comparison :=
  match ba_len l ?= ba_len r with
  | Eq => lb ← ba_iter l; rb ← ba_iter r; Ret (compare_bits lb rb)
  | c => Ret c
  end.
Definition ba_eq (l r : BitArray) : exec bool :=
  if ba_len l =? ba_len r then
    lb ← ba_iter l; rb ← ba_iter r;
    Ret (forallb (λ x, Bool.eqb x.1 x.2) (zip lb rb))
  else Ret false.

(** ** Invariant and element access *)

Definition ba_ok (a : BitArray) : Prop :=
  length (ba_bytes a) = BYTES ∧ ba_bit_length a ≤ BYTES * 8 ∧ bytes_ok (ba_bytes a).

Lemma land_one_testbit z k : (0 ≤ k)%Z → (Z.land (Z.shiftr z k) 1 =? 1)%Z = Z.testbit z k.
Proof.
  intros Hk. change 1%Z with (Z.ones 1) at 1. rewrite Z.land_ones by done. change (2 ^ 1)%Z with 2%Z.
  rewrite <- Z.bit0_mod, Z.shiftr_spec, Z.add_0_l by done. by destruct (Z.testbit z k).
Qed.

Lemma ba_get_spec a i : ba_ok a → i < ba_bit_length a → ba_get a i = Ret (bit_at (ba_bytes a) i).
Proof.
  intros (Hl & Hle & _) Hi. unfold ba_get, split_index. rewrite (proj2 (Nat.ltb_lt _ _) Hi).
  cbn [assert_ mbind exec_bind]. unfold index, bit_at.
  destruct (lookup_lt_is_Some_2 (ba_bytes a) (i / 8)) as [b Hb]; [apply Nat.Div0.div_lt_upper_bound; lia|].
  rewrite Hb. cbn [unwrap mbind exec_bind default]. by rewrite land_one_testbit by lia.
Qed.

Lemma testbit_one_shl k j : k < 8 → j < 8 → Z.testbit (shl 8 1 (Z.of_nat k)) (Z.of_nat j) = (j =? k).
Proof.
  intros Hk Hj. unfold shl. rewrite testbit_wrap, bool_decide_true, Z.shiftl_spec by lia. cbn [andb].
  case_cmp; [subst; by rewrite Z.sub_diag|].
  destruct (Nat.lt_ge_cases j k); [by apply Z.testbit_neg_r; lia|].
  apply (testbit_above 1 1); [unfold is_u; lia|lia].
Qed.

Lemma ba_set_spec a i v : ba_ok a → i < ba_bit_length a →
  ∃ a', ba_set a i v = Ret a' ∧ ba_ok a' ∧ ba_bit_length a' = ba_bit_length a ∧
    ∀ j, bit_at (ba_bytes a') j = if j =? i then v else bit_at (ba_bytes a) j.
Proof.
  intros (Hl & Hle & Hok) Hi. unfold ba_set, split_index. rewrite (proj2 (Nat.ltb_lt _ _) Hi).
  cbn [assert_ mbind exec_bind]. unfold index.
  assert (Hlt : i / 8 < length (ba_bytes a)) by (apply Nat.Div0.div_lt_upper_bound; lia).
  destruct (lookup_lt_is_Some_2 (ba_bytes a) (i / 8) Hlt) as [b Hb].
  rewrite Hb. cbn [unwrap mbind exec_bind]. set (mask := shl 8 1 _). set (byte := if v then _ else _).
  pose proof (Nat.mod_upper_bound i 8 ltac:(lia)) as Hm.
  assert (Hbok : is_u 8 b) by (apply (Forall_lookup_1 _ _ _ _ Hok Hb)).
  assert (Hbyte : is_u 8 byte).
  { unfold byte. destruct v; [apply is_u_lor; [lia|done|by apply is_u_wrap]|].
    apply is_u_land_r; [lia|]. by apply is_u_wrap. }
  eexists. split; [done|]. split_and!; cbn [ba_bytes ba_bit_length].
  - split_and!; cbn [ba_bytes ba_bit_length]; [by rewrite length_insert|done|by apply Forall_insert].
  - done.
  - intros j. rewrite bit_at_insert by done. pose proof (Nat.mod_upper_bound j 8 ltac:(lia)) as Hj.
    destruct (Nat.eqb_spec (j / 8) (i / 8)) as [Eq|Eq].
    + assert (Hold : bit_at (ba_bytes a) j = Z.testbit b (Z.of_nat (j mod 8))).
      { unfold bit_at. by rewrite Eq, Hb. }
      assert (Hji : (j mod 8 =? i mod 8) = (j =? i)).
      { pose proof (Nat.div_mod_eq i 8). pose proof (Nat.div_mod_eq j 8). repeat case_cmp; done || lia. }
      unfold byte. destruct v.
      * rewrite Z.lor_spec. unfold mask. rewrite testbit_one_shl, Hji, Hold by lia.
        case_cmp; [by rewrite orb_true_r|by rewrite orb_false_r].
      * unfold unot. rewrite Z.land_spec, testbit_wrap, Z.lnot_spec, bool_decide_true by lia. unfold mask.
        rewrite testbit_one_shl, Hji, Hold by lia. case_cmp; cbn; [by rewrite andb_false_r|by rewrite andb_true_r].
    + case_cmp; [subst; lia|done].
Qed.

Lemma fill_with_read_spec n c : rc_bit_index c = 0 →
  ∃ c' bs, fill_with_read n c = Ret (c', bs) ∧ rc_bit_index c' = 0 ∧ rc_bytes c' = drop n (rc_bytes c) ∧
    length bs = n ∧ ∀ i, i < n → bs !! i = Some (default 0%Z (rc_bytes c !! i)).
Proof.
  revert c. induction n as [|n IH]; intros c Hal; cbn [fill_with_read].
  - exists c, []. split_and!; [done|done|done|done|lia].
  - unfold read_aligned_u8, rc_is_aligned_to_8_bits. rewrite Hal. cbn [Nat.eqb assert_ mbind exec_bind].
    destruct (IH (advance_bytes c 1)) as (c' & bs & -> & Hal' & Hby & Hlen & Hbs); [done|].
    cbn [mbind exec_bind].
    assert (Hadv : rc_bytes (advance_bytes c 1) = drop 1 (rc_bytes c)).
    { unfold advance_bytes. cbn [rc_bytes]. by destruct (rc_bytes c). }
    eexists c', _. split; [done|]. rewrite Hadv in *. split_and!; [done| |cbn; lia|].
    + rewrite Hby, drop_drop. done.
    + intros [|i] Hi; [done|]. cbn. rewrite Hbs by lia. by rewrite lookup_drop.
Qed.
(** ** Serialization *)

(** The bytes of an array as one number, least significant byte first. *)
Fixpoint of_bytes (bs : list u8) : Z :=
  match bs with [] => 0 | b :: bs' => Z.lor b (Z.shiftl (of_bytes bs') 8) end.

Lemma testbit_of_bytes bs k : bytes_ok bs → Z.testbit (of_bytes bs) (Z.of_nat k) = bit_at bs k.
Proof.
  intros Hok. revert k. induction Hok as [|b bs Hb _ IH]; intros k; cbn [of_bytes].
  { rewrite Z.testbit_0_l. symmetry. apply bit_at_end. cbn. lia. }
  rewrite Z.lor_spec, Z.shiftl_spec by lia. destruct (Nat.lt_ge_cases k 8) as [Hk|Hk].
  - rewrite (Z.testbit_neg_r _ (_ - 8)), orb_false_r by lia. unfold bit_at.
    by rewrite Nat.div_small, Nat.mod_small by done.
  - rewrite (testbit_above b 8) by (done || lia). cbn [orb].
    replace (Z.of_nat k - 8)%Z with (Z.of_nat (k - 8)) by lia. rewrite IH.
    change bs with (drop 1 (b :: bs)) at 1. rewrite bit_at_drop. f_equal. lia.
Qed.

Lemma write_bool_spec p c b : wc_ok c → bits_written c + 1 ≤ 8 * length (wc_bytes c) →
  ∃ c', write_bool p c b = Ret c' ∧ appended c c' (b2z b) 1.
Proof. intros Hc Hfit. unfold write_bool, write_u1. by apply write_up_to_u8_spec; [|lia|]. Qed.

Lemma ba_write_bits_spec p a n : ∀ c i, ba_ok a → wc_ok c → i + n ≤ ba_bit_length a →
  bits_written c + n ≤ 8 * length (wc_bytes c) →
  ∃ c', ba_write_bits p a c i n = Ret c' ∧
    appended c c' (Z.shiftr (of_bytes (ba_bytes a)) (Z.of_nat i)) n.
Proof.
  induction n as [|n IH]; intros c i Ha Hc Hi Hfit; cbn [ba_write_bits].
  { exists c. split; [done|]. by apply appended_refl. }
  rewrite ba_get_spec by (done || lia). cbn [mbind exec_bind].
  destruct (write_bool_spec p c (bit_at (ba_bytes a) i) Hc) as (c1 & -> & H1); [lia|]. cbn [mbind exec_bind].
  pose proof H1 as (Hc1 & Hl1 & Hw1 & _).
  destruct (IH c1 (S i) Ha Hc1 ltac:(lia) ltac:(lia)) as (c' & -> & H2). exists c'. split; [done|].
  apply (appended_trans c c1 c' _ 1 n).
  - eapply appended_ext; [|exact H1]. intros k Hk. assert (k = 0) as -> by lia.
    rewrite Z.shiftr_spec by lia. rewrite Z.add_0_l, testbit_of_bytes by apply Ha. by destruct (bit_at _ _).
  - rewrite Z.shiftr_shiftr by lia. by replace (Z.of_nat i + Z.of_nat 1)%Z with (Z.of_nat (S i)) by lia.
Qed.

Lemma of_bytes_byte bs i b : bytes_ok bs → bs !! i = Some b → as_u8 (Z.shiftr (of_bytes bs) (Z.of_nat (8 * i))) = b.
Proof.
  intros Hok Hb. apply byte_eq; [by apply is_u_wrap|by apply (Forall_lookup_1 _ _ _ _ Hok Hb)|].
  intros k Hk. rewrite testbit_wrap, bool_decide_true, Z.shiftr_spec by lia. cbn [andb].
  replace (Z.of_nat k + Z.of_nat (8 * i))%Z with (Z.of_nat (8 * i + k)) by lia.
  rewrite testbit_of_bytes by done. unfold bit_at.
  assert ((8 * i + k) / 8 = i ∧ (8 * i + k) mod 8 = k) as [-> ->] by dlia. by rewrite Hb.
Qed.

Lemma ba_serialize_spec p a c : ba_ok a → wc_ok c →
  bits_written c + ba_bit_length a ≤ 8 * length (wc_bytes c) →
  ∃ c', ba_serialize p a c = Ret c' ∧ appended c c' (of_bytes (ba_bytes a)) (ba_bit_length a).
Proof.
  intros Ha Hc Hfit. unfold ba_serialize, wc_is_aligned_to_8_bits.
  destruct (ba_bit_length a =? BYTES * 8) eqn:Hfull; cbn [andb].
  2: { destruct (ba_write_bits_spec p a (ba_bit_length a) c 0) as (c' & ? & Hap); [done|done|lia|done|].
       rewrite Z.shiftr_0_r in Hap. eauto. }
  apply Nat.eqb_eq in Hfull. destruct (wc_bit_index c =? 0) eqn:Hal.
  2: { destruct (ba_write_bits_spec p a (ba_bit_length a) c 0) as (c' & ? & Hap); [done|done|lia|done|].
       rewrite Z.shiftr_0_r in Hap. eauto. }
  apply Nat.eqb_eq in Hal. pose proof Ha as (Hl & _ & Hok). pose proof Hc as (_ & Hle & _ & _).
  unfold write_aligned_bytes, remaining_bytes. unfold bits_written in Hle.
  rewrite (proj2 (Nat.leb_le _ _)) by lia. cbn [mbind exec_bind]. rewrite length_drop, Hl.
  unfold bits_written in Hfit. rewrite (proj2 (Nat.leb_le _ _)) by lia. cbn [assert_ mbind exec_bind].
  destruct (write_aligned_appended c BYTES (of_bytes (ba_bytes a)) (ba_bytes a)) as (c' & Hadv & Hap);
    [done|done|unfold bits_written; lia|done|done| |].
  - intros i Hi. destruct (lookup_lt_is_Some_2 (ba_bytes a) i) as [b Hb]; [lia|].
    rewrite Hb. symmetry. by apply of_bytes_byte.
  - exists c'. split; [done|]. by replace (ba_bit_length a) with (8 * BYTES) by lia.
Qed.

(** ** Deserialization *)

Lemma read_bool_spec p c : rc_ok c → ∃ c', read_bool p c = Ret (c', stream c 0) ∧ consumed c c' 1.
Proof.
  intros Hc. unfold read_bool, read_u1.
  destruct (read_up_to_u8_spec p c 1 Hc ltac:(lia)) as (c' & v & -> & Hc' & Hv). cbn [mbind exec_bind].
  exists c'. split; [|done]. do 2 f_equal. destruct Hv as [Hv Hb]. rewrite <- (Hb 0) by lia.
  unfold is_u in Hv. assert (v = 0 ∨ v = 1)%Z as [-> | ->] by lia; done.
Qed.

Lemma bit_at_zeros n k : bit_at (replicate n 0%Z) k = false.
Proof.
  unfold bit_at. destruct (Nat.lt_ge_cases (k / 8) n) as [H|H].
  - rewrite lookup_replicate_2 by done. apply Z.testbit_0_l.
  - rewrite lookup_ge_None_2 by (by rewrite length_replicate). apply Z.testbit_0_l.
Qed.

Lemma ba_read_bits_spec p n : ∀ a c i, ba_ok a → rc_ok c → i + n ≤ ba_bit_length a →
  ∃ a' c', ba_read_bits p a c i n = Ret (a', c') ∧ ba_ok a' ∧ ba_bit_length a' = ba_bit_length a ∧
    consumed c c' n ∧ (∀ j, j < i ∨ i + n ≤ j → bit_at (ba_bytes a') j = bit_at (ba_bytes a) j) ∧
    ∀ k, k < n → bit_at (ba_bytes a') (i + k) = stream c k.
Proof.
  induction n as [|n IH]; intros a c i Ha Hc Hi; cbn [ba_read_bits].
  { exists a, c. split_and!; [done|done|done|by apply consumed_refl|done|lia]. }
  destruct (read_bool_spec p c Hc) as (c1 & -> & H1). cbn [mbind exec_bind].
  destruct (ba_set_spec a i (stream c 0) Ha) as (a1 & -> & Ha1 & Hlen1 & Hb1); [lia|]. cbn [mbind exec_bind].
  destruct (IH a1 c1 (S i) Ha1 (proj1 H1)) as (a' & c' & -> & Ha' & Hlen' & H2 & Hold & Hnew); [lia|].
  exists a', c'. split_and!; [done|done|lia|by apply (consumed_trans c c1 c' 1 n)| |].
  - intros j Hj. rewrite Hold, Hb1 by lia. case_cmp; [lia|done].
  - intros [|k] Hk.
    + rewrite Nat.add_0_r, Hold, Hb1 by lia. by rewrite Nat.eqb_refl.
    + replace (i + S k) with (S i + k) by lia. rewrite Hnew by lia. by rewrite (proj1 (proj2 H1)).
Qed.

(** The number of bits that deserialization takes from the cursor. *)
Definition deserialized_bits (bit_length : nat) (c : ReadCursor) : nat :=
  if (bit_length mod 8 =? 0) && rc_is_aligned_to_8_bits c then 8 * BYTES else bit_length.

Lemma ba_deserialize_spec p len c : len ≤ BYTES * 8 → rc_ok c →
  ∃ a c', ba_deserialize p len c = Ret (a, c') ∧ ba_ok a ∧ ba_bit_length a = len ∧
    consumed c c' (deserialized_bits len c) ∧ (∀ k, k < len → bit_at (ba_bytes a) k = stream c k) ∧
    ∀ k, deserialized_bits len c ≤ k → bit_at (ba_bytes a) k = false.
Proof.
  intros Hlen Hc. unfold ba_deserialize, BitArray_new, deserialized_bits.
  rewrite (proj2 (Nat.leb_le _ _) Hlen). cbn [assert_ mbind exec_bind].
  assert (Hnew : ba_ok (mkBitArray (replicate BYTES 0%Z) len)).
  { split_and!; cbn; [apply length_replicate|done|]. apply Forall_replicate. unfold byte_ok, is_u. lia. }
  unfold ba_deserialize_in_place. cbn [ba_bit_length ba_bytes]. rewrite length_replicate.
  destruct (len mod 8 =? 0) eqn:Hm, (rc_is_aligned_to_8_bits c) eqn:Hal; cbn [andb].
  2-4: destruct (ba_read_bits_spec p len _ c 0 Hnew Hc) as (a & c' & -> & Ha & Hl & Hr & Hold & Hb);
    [cbn; lia|]; exists a, c'; split_and!; [done|done|done|done|intros k Hk; by rewrite <- Hb|intros k Hk];
    rewrite Hold by lia; apply bit_at_zeros.
  apply Nat.eqb_eq in Hal. destruct (fill_with_read_spec BYTES c Hal) as (c' & bs & -> & Hal' & Hby & Hl & Hbs).
  cbn [mbind exec_bind]. eexists _, c'. split; [done|]. cbn [ba_bytes ba_bit_length].
  assert (Hbit : ∀ k, k < 8 * BYTES → bit_at bs k = stream c k).
  { intros k Hk. unfold stream, bit_at. rewrite Hal, Nat.add_0_l, Hbs; [done|].
    apply Nat.Div0.div_lt_upper_bound. lia. }
  split_and!; [split_and!; cbn [ba_bytes ba_bit_length]; [done|done|]|done| |intros k Hk; apply Hbit; lia|intros k Hk; apply bit_at_end; cbn; lia].
  - apply Forall_lookup_2. intros i b Hb. pose proof (lookup_lt_Some _ _ _ Hb) as Hi.
    rewrite Hbs in Hb by lia. injection Hb as <-. apply byte_at_ok, Hc.
  - split_and!; [split; [lia|rewrite Hby; apply Forall_drop, Hc]| | |].
    + intros i. unfold stream. by rewrite Hal, Hal', Hby, bit_at_drop.
    + rewrite Hal, Hal', Nat.add_0_l, (Nat.mul_comm 8). symmetry. apply Nat.Div0.mod_mul.
    + unfold rc_left. rewrite Hal, Hal', Hby, length_drop. lia.
Qed.

(** ** Comparison *)

Lemma ba_iter_from_spec a n : ∀ i, ba_ok a → i + n ≤ ba_bit_length a →
  ba_iter_from a i n = Ret (bit_at (ba_bytes a) <$> seq i n).
Proof.
  induction n as [|n IH]; intros i Ha Hi; cbn [ba_iter_from seq]; [done|].
  rewrite ba_get_spec by (done || lia). cbn [mbind exec_bind]. rewrite IH by (done || lia). done.
Qed.

Lemma forallb_zip_seq (f g : nat → bool) n : ∀ i,
  forallb (λ x, Bool.eqb x.1 x.2) (zip (f <$> seq i n) (g <$> seq i n)) = true ↔
  ∀ k, k < n → f (i + k) = g (i + k).
Proof.
  induction n as [|n IH]; intros i; cbn [seq fmap list_fmap zip zip_with forallb fst snd].
  { split; [lia|done]. }
  rewrite andb_true_iff, (IH (S i)), eqb_true_iff. split.
  - intros [H0 HS] [|k] Hk; [by rewrite Nat.add_0_r|]. rewrite Nat.add_succ_r. apply HS. lia.
  - intros H. split; [specialize (H 0); rewrite Nat.add_0_r in H; apply H; lia|].
    intros k Hk. specialize (H (S k)). rewrite Nat.add_succ_r in H. apply H. lia.
Qed.

Lemma ba_eq_true a b : ba_ok a → ba_ok b → ba_bit_length a = ba_bit_length b →
  (∀ i, i < ba_bit_length a → bit_at (ba_bytes a) i = bit_at (ba_bytes b) i) → ba_eq a b = Ret true.
Proof.
  intros Ha Hb Hlen Hbits. unfold ba_eq, ba_iter, ba_len. rewrite <- Hlen, Nat.eqb_refl.
  rewrite !ba_iter_from_spec by (done || lia). cbn [mbind exec_bind]. f_equal.
  by apply forallb_zip_seq.
Qed.

(** C38: a bit array that is serialized at any position and deserialized from
    there with its length compares equal to the original. Deserialization from an
    aligned cursor takes all [BYTES] bytes of the array from the cursor when the length is
    a multiple of 8, also when the serialized array has fewer bits: the fields after
    it are then skipped. *)
Theorem bit_array_roundtrip p p' a c r : ba_ok a → wc_ok c →
  bits_written c + ba_bit_length a ≤ 8 * length (wc_bytes c) →
  ∃ c', ba_serialize p a c = Ret c' ∧ bits_written c' = bits_written c + ba_bit_length a ∧
    (rc_ok r → (∀ i, i < ba_bit_length a → stream r i = bit_at (wc_bytes c') (bits_written c + i)) →
     ∃ a' r', ba_deserialize p' (ba_bit_length a) r = Ret (a', r') ∧ ba_eq a a' = Ret true ∧
       ∀ i, stream r' i = stream r (deserialized_bits (ba_bit_length a) r + i)).
Proof.
  intros Ha Hc Hfit. destruct (ba_serialize_spec p a c Ha Hc Hfit) as (c' & -> & _ & _ & Hw & _ & Hnew).
  exists c'. split_and!; [done|done|]. intros Hr Hs. pose proof Ha as (_ & Hle & Hok).
  destruct (ba_deserialize_spec p' (ba_bit_length a) r Hle Hr) as (a' & r' & -> & Ha' & Hl & Hcons & Hb & _).
  exists a', r'. split_and!; [done| |apply Hcons]. apply ba_eq_true; [done|done|done|].
  intros i Hi. by rewrite Hb, Hs, Hnew, testbit_of_bytes.
Qed.

End bit_array.

(** An array of 8 bits in 4 bytes: reading it back takes four bytes instead of one. *)
Lemma bit_array_roundtrip_witness :
  ∃ c', ba_serialize 4 Debug (mkBitArray [0xa5; 0; 0; 0]%Z 8) (WriteCursor_new [0; 0]%Z) = Ret c' ∧
    ∃ a' r', ba_deserialize 4 Debug 8 (ReadCursor_new [0xa5; 2; 3; 4; 5]%Z) = Ret (a', r') ∧
      ba_eq (mkBitArray [0xa5; 0; 0; 0]%Z 8) a' = Ret true ∧ stream r' 0 = stream (ReadCursor_new [5%Z]) 0.
Proof.
  assert (Hb : ∀ l, forallb (λ z, (0 <=? z) && (z <? 256))%Z l = true → bytes_ok l).
  { induction l as [|z l IH]; cbn; intros H; constructor.
    - apply andb_true_iff in H as [H _]. unfold byte_ok, is_u. lia.
    - apply IH. by apply andb_true_iff in H as [_ H]. }
  destruct (bit_array_roundtrip 4 Debug Debug (mkBitArray [0xa5; 0; 0; 0]%Z 8) (WriteCursor_new [0; 0]%Z)
    (ReadCursor_new [0xa5; 2; 3; 4; 5]%Z)) as (c' & Hw & _ & Hr).
  - split_and!; [done|cbn; lia|by apply Hb].
  - apply WriteCursor_new_ok.
  - cbn. lia.
  - exists c'. split; [done|]. vm_compute in Hw. injection Hw as <-.
    destruct Hr as (a' & r' & Hd & He & Hs); [split; [cbn; lia|by apply Hb]| |].
    + intros i Hi. cbn in Hi. do 8 (destruct i as [|i]; [reflexivity|]). lia.
    + exists a', r'. split_and!; [done|done|]. rewrite Hs. reflexivity.
Defined.
