(* ===== verification/SerCobs.v ===== *)
(** * Consistent-overhead byte stuffing

    Models [canadensis_serial/src/cobs.rs]: the encoder [escape_from_iter], the
    streaming decoder [Unescaper] and the worst-case size [escaped_size]. The
    functions compiled for tests only are left out. *)

From S2P Require Import Prelude CoreTypes EncCursor EncCursorSpec.

(** ** Encoding *)

(** [destination.get_mut(i)], and a write through the reference. *)
Definition set_at (destination : list u8) (i : usize) (b : u8) : option (list u8) :=
  match destination !! i with Some _ => Some (<[i := b]> destination) | None => None end.

(** The loop over the source, and the last block. The destination keeps what was
    written before an error. *)
Fixpoint escape_loop (p : profile) (destination : list u8) (dest_current dest_code : usize) (code : u8)
    (source : list u8) : exec (list u8 * result OutOfMemoryError usize) :=
  match source with
  | [] =>
      match set_at destination dest_code code with
      | Some destination => Ret (destination, Ok dest_current)
      | None => Ret (destination, Err mkOutOfMemoryError)
      end
  | byte :: source' =>
      if (byte =? 0)%Z then
        match set_at destination dest_code code with
        | Some destination => escape_loop p destination (dest_current + 1) dest_current 0x1 source'
        | None => Ret (destination, Err mkOutOfMemoryError)
        end
      else
        let block :=
          if (code =? 0xff)%Z then
            destination ← set_at destination dest_code code;
            Some (destination, dest_current + 1, dest_current, 0x1%Z)
          else Some (destination, dest_current, dest_code, code) in
        match block with
        | None => Ret (destination, Err mkOutOfMemoryError)
        | Some (destination, dest_current, dest_code, code) =>
            match set_at destination dest_current byte with
            | None => Ret (destination, Err mkOutOfMemoryError)
            | Some destination =>
                code ← arith p 8 (code + 1);
                escape_loop p destination (dest_current + 1) dest_code code source'
            end
        end
  end.

Definition escape_from_iter (p : profile) (source : list u8) (destination : list u8)
    : exec (list u8 * result OutOfMemoryError usize) :=
  escape_loop p destination 1 0 0x1 source.

Definition escaped_size (raw_size : usize) : usize :=
  if raw_size =? 0 then 1
  else
    let overhead := (raw_size + 253) / 254 in
    raw_size + overhead.

(** ** Decoding *)

Inductive DecodeZeroError : Set := mkDecodeZeroError.

Record Unescaper := mkUnescaper { bytes_to_copy : u8; pending_zero : bool }.

Definition Unescaper_new : Unescaper := mkUnescaper 0 false.

Definition Unescaper_accept (p : profile) (self : Unescaper) (byte : u8)
    : exec (Unescaper * result DecodeZeroError (option u8)) :=
  if (byte =? 0)%Z then Ret (self, Err mkDecodeZeroError)
  else if (bytes_to_copy self =? 0)%Z then
    n ← arith p 8 (byte - 1);
    Ret (mkUnescaper n (byte <? 0xff)%Z, Ok (if pending_zero self then Some 0%Z else None))
  else
    n ← arith p 8 (bytes_to_copy self - 1);
    Ret (mkUnescaper n (pending_zero self), Ok (Some byte)).

(** ** Specification

    The encoding as a sequence of blocks; [run] is the data of the current block. *)

Fixpoint blocks (run source : list u8) : list u8 :=
  match source with
  | [] => Z.of_nat (length run + 1) :: run
  | b :: rest =>
      if (b =? 0)%Z then (Z.of_nat (length run + 1) :: run) ++ blocks [] rest
      else if length run =? 254 then (Z.of_nat (length run + 1) :: run) ++ blocks [b] rest
      else blocks (run ++ [b]) rest
  end.

(** What decoding gives back: a zero after a block that is full is lost. [n] is the
    length of the current block. *)
Fixpoint kept (n : nat) (source : list u8) : list u8 :=
  match source with
  | [] => []
  | b :: rest =>
      if (b =? 0)%Z then (if n =? 254 then [] else [b]) ++ kept 0 rest
      else b :: kept (if n =? 254 then 1 else n + 1) rest
  end.

(** A zero after a run of non-zero bytes whose length is a multiple of 254. *)
Definition zero_after_full_run (source : list u8) : Prop :=
  ∃ a run b, source = a ++ run ++ 0%Z :: b ∧ (a = [] ∨ last a = Some 0%Z) ∧
    Forall (λ x, x ≠ 0%Z) run ∧ 0 < length run ∧ length run mod 254 = 0.

(** Decoding of a sequence of bytes. *)
Fixpoint unescape_all (p : profile) (u : Unescaper) (bytes : list u8)
    : exec (Unescaper * result DecodeZeroError (list u8)) :=
  match bytes with
  | [] => Ret (u, Ok [])
  | b :: rest =>
      '(u, r) ← Unescaper_accept p u b;
      match r with
      | Err e => Ret (u, Err e)
      | Ok out =>
          '(u, r) ← unescape_all p u rest;
          Ret (u, match r with Ok bs => Ok (option_list out ++ bs) | Err e => Err e end)
      end
  end.

(** ** The encoder writes the blocks *)

Lemma set_at_app l1 x l2 b n : n = length l1 → set_at (l1 ++ x :: l2) n b = Some (l1 ++ b :: l2).
Proof.
  intros ->. unfold set_at. rewrite list_lookup_middle by done.
  by rewrite insert_app_r_alt, Nat.sub_diag by done.
Qed.

Lemma set_at_end l b n : length l ≤ n → set_at l n b = None.
Proof. intros Hn. unfold set_at. by rewrite lookup_ge_None_2. Qed.

Lemma arith_u8 p z : (0 ≤ z < 256)%Z → arith p 8 z = Ret z.
Proof. intros Hz. unfold arith. by rewrite (proj2 (is_ub_spec 8 z)). Qed.

Lemma blocks_length run s : length run + length s < length (blocks run s).
Proof.
  revert run. induction s as [|b s IH]; intros run; cbn [blocks]; [cbn; lia|].
  destruct (b =? 0)%Z; [specialize (IH []); rewrite length_app; cbn [length] in *; lia|].
  destruct (length run =? 254); [specialize (IH [b]); rewrite length_app; cbn [length] in *; lia|].
  specialize (IH (run ++ [b])). rewrite length_app in IH. cbn in *. lia.
Qed.

Lemma escape_loop_spec p s : ∀ done x run free, length run ≤ 254 →
  length (blocks run s) ≤ 1 + length run + length free →
  ∃ free', escape_loop p (done ++ x :: run ++ free) (length done + 1 + length run) (length done)
      (Z.of_nat (length run + 1)) s =
    Ret (done ++ blocks run s ++ free', Ok (length done + length (blocks run s))).
Proof.
  induction s as [|b s IH]; intros done x run free Hrun Hfit; cbn [escape_loop blocks] in *.
  { rewrite set_at_app by done. exists free. cbn. f_equal. f_equal. f_equal. lia. }
  pose proof (blocks_length run s) as Hrs.
  destruct (b =? 0)%Z eqn:Hb in Hfit |- *.
  - rewrite set_at_app by done. pose proof (blocks_length [] s) as Hs. rewrite length_app in Hfit. cbn [length] in *.
    destruct free as [|y free]; [cbn in *; lia|].
    destruct (IH (done ++ Z.of_nat (length run + 1) :: run) y [] free) as [free' Hf]; [cbn; lia|cbn in *; lia|].
    exists free'. cbn [app length] in Hf. rewrite length_app, <- app_assoc in Hf. cbn [app length] in Hf.
    replace (length done + S (length run) + 1 + 0) with (length done + 1 + length run + 1) in Hf by lia.
    replace (length done + S (length run)) with (length done + 1 + length run) in Hf by lia.
    change (Z.of_nat (0 + 1)) with 1%Z in Hf. rewrite Hf. rewrite <- !app_assoc. cbn [app length].
    rewrite length_app. do 3 f_equal. lia.
  - destruct (Nat.eqb_spec (length run) 254) as [E|E] in Hfit |- *.
    + rewrite E in *. change (Z.of_nat (254 + 1)) with 255%Z in *. cbn [Z.eqb Pos.eqb]. cbn iota.
      rewrite set_at_app by done. cbn [mbind option_bind].
      pose proof (blocks_length [b] s) as Hs. rewrite length_app in Hfit. cbn [length] in *.
      destruct free as [|y [|z free]]; [cbn in *; lia|cbn in *; lia|].
      replace (done ++ 255%Z :: run ++ y :: z :: free) with ((done ++ 255%Z :: run ++ [y]) ++ z :: free)
        by (cbn; rewrite <- !app_assoc; cbn; by rewrite <- app_assoc).
      rewrite set_at_app by (rewrite !length_app; cbn [length]; rewrite ?length_app; cbn [length]; lia).
      change (1 + 1)%Z with 2%Z. rewrite arith_u8 by lia. cbn [mbind exec_bind].
      destruct (IH (done ++ 255%Z :: run) y [b] free) as [free' Hf]; [cbn; lia|cbn in *; lia|].
      exists free'. rewrite length_app in Hf. cbn [app length] in Hf. rewrite E in Hf.
      replace ((done ++ 255%Z :: run ++ [y]) ++ b :: free) with ((done ++ 255%Z :: run) ++ y :: b :: free)
        by (cbn; rewrite <- !app_assoc; cbn; by rewrite <- app_assoc).
      replace (length done + 255 + 1 + 1) with (length done + 1 + 254 + 1 + 1) in Hf by lia.
      replace (length done + 255) with (length done + 1 + 254) in Hf by lia.
      change (Z.of_nat (1 + 1)) with 2%Z in Hf. rewrite Hf. rewrite <- !app_assoc. cbn [app length].
      rewrite length_app. do 3 f_equal. cbn [length]. lia.
    + rewrite (proj2 (Z.eqb_neq _ _)) by lia. cbn iota.
      pose proof (blocks_length (run ++ [b]) s) as Hs. rewrite length_app in Hs. cbn [length] in Hs.
      destruct free as [|y free]; [cbn in *; lia|].
      replace (done ++ x :: run ++ y :: free) with ((done ++ x :: run) ++ y :: free) by (by rewrite <- app_assoc).
      rewrite set_at_app by (rewrite length_app; cbn; lia). rewrite arith_u8 by lia. cbn [mbind exec_bind].
      destruct (IH done x (run ++ [b]) free) as [free' Hf]; [rewrite length_app; cbn; lia|rewrite length_app; cbn in *; lia|].
      exists free'. rewrite length_app, <- app_assoc in Hf. cbn [app length] in Hf.
      rewrite <- app_assoc. cbn [app].
      replace (length done + 1 + (length run + 1)) with (length done + 1 + length run + 1) in Hf by lia.
      by replace (Z.of_nat (length run + 1) + 1)%Z with (Z.of_nat (length run + 1 + 1)) by lia.
Qed.

(** Without space the encoder stops with an error. *)
Lemma escape_loop_full p s dst cur code_at code : length dst ≤ code_at → length dst ≤ cur →
  escape_loop p dst cur code_at code s = Ret (dst, Err mkOutOfMemoryError).
Proof.
  intros Hcode Hcur. destruct s as [|b s]; cbn [escape_loop].
  { by rewrite set_at_end. }
  rewrite (set_at_end dst code code_at) by done. destruct (b =? 0)%Z; [done|].
  destruct (code =? 255)%Z; [done|]. cbn iota. by rewrite set_at_end.
Qed.

Lemma escape_loop_fails p s : ∀ done x run free, length run ≤ 254 →
  1 + length run + length free < length (blocks run s) →
  ∃ dst, escape_loop p (done ++ x :: run ++ free) (length done + 1 + length run) (length done)
      (Z.of_nat (length run + 1)) s = Ret (dst, Err mkOutOfMemoryError).
Proof.
  induction s as [|b s IH]; intros done x run free Hrun Hfit; cbn [escape_loop blocks] in *; [cbn in *; lia|].
  destruct (b =? 0)%Z eqn:Hb in Hfit |- *.
  - rewrite set_at_app by done. rewrite length_app in Hfit. cbn [length] in Hfit.
    destruct free as [|y free].
    { rewrite app_nil_r. rewrite escape_loop_full by (rewrite length_app; cbn; lia). eauto. }
    destruct (IH (done ++ Z.of_nat (length run + 1) :: run) y [] free) as [dst Hf]; [cbn; lia|cbn in *; lia|].
    exists dst. cbn [app length] in Hf. rewrite length_app, <- app_assoc in Hf. cbn [app length] in Hf.
    replace (length done + S (length run) + 1 + 0) with (length done + 1 + length run + 1) in Hf by lia.
    by replace (length done + S (length run)) with (length done + 1 + length run) in Hf by lia.
  - destruct (Nat.eqb_spec (length run) 254) as [E|E] in Hfit |- *.
    + rewrite E in *. change (Z.of_nat (254 + 1)) with 255%Z in *. cbn [Z.eqb Pos.eqb]. cbn iota.
      rewrite set_at_app by done. cbn [mbind option_bind]. rewrite length_app in Hfit. cbn [length] in Hfit.
      rewrite E in Hfit. destruct free as [|y [|z free]].
      1-2: rewrite set_at_end by (rewrite length_app; cbn [length]; rewrite length_app; cbn [length]; lia); eauto.
      replace (done ++ 255%Z :: run ++ y :: z :: free) with ((done ++ 255%Z :: run ++ [y]) ++ z :: free)
        by (cbn; rewrite <- !app_assoc; cbn; by rewrite <- app_assoc).
      rewrite set_at_app by (rewrite !length_app; cbn [length]; rewrite ?length_app; cbn [length]; lia).
      change (1 + 1)%Z with 2%Z. rewrite arith_u8 by lia. cbn [mbind exec_bind].
      destruct (IH (done ++ 255%Z :: run) y [b] free) as [dst Hf]; [cbn; lia|cbn in *; lia|].
      exists dst. rewrite length_app in Hf. cbn [app length] in Hf. rewrite E in Hf.
      replace ((done ++ 255%Z :: run ++ [y]) ++ b :: free) with ((done ++ 255%Z :: run) ++ y :: b :: free)
        by (cbn; rewrite <- !app_assoc; cbn; by rewrite <- app_assoc).
      replace (length done + 255 + 1 + 1) with (length done + 1 + 254 + 1 + 1) in Hf by lia.
      by replace (length done + 255) with (length done + 1 + 254) in Hf by lia.
    + rewrite (proj2 (Z.eqb_neq _ _)) by lia. cbn iota. destruct free as [|y free].
      { rewrite set_at_end by (rewrite length_app; cbn [length]; rewrite app_nil_r; lia). eauto. }
      replace (done ++ x :: run ++ y :: free) with ((done ++ x :: run) ++ y :: free) by (by rewrite <- app_assoc).
      rewrite set_at_app by (rewrite length_app; cbn; lia). rewrite arith_u8 by lia. cbn [mbind exec_bind].
      destruct (IH done x (run ++ [b]) free) as [dst Hf]; [rewrite length_app; cbn; lia|rewrite length_app; cbn in *; lia|].
      exists dst. rewrite length_app, <- app_assoc in Hf. cbn [app length] in Hf. rewrite <- app_assoc. cbn [app].
      replace (length done + 1 + (length run + 1)) with (length done + 1 + length run + 1) in Hf by lia.
      by replace (Z.of_nat (length run + 1) + 1)%Z with (Z.of_nat (length run + 1 + 1)) by lia.
Qed.

(** ** Size and alphabet of the encoding *)

Lemma blocks_size s : ∀ run, length run ≤ 254 → 0 < length run + length s →
  254 * length (blocks run s) < 254 * (length run + 1 + length s) + length run + length s.
Proof.
  induction s as [|b s IH]; intros run Hrun Hpos; cbn [blocks length] in *; [lia|].
  destruct (b =? 0)%Z; [|destruct (Nat.eqb_spec (length run) 254)].
  - rewrite length_app. cbn [length]. destruct s as [|b' s]; [cbn; lia|].
    specialize (IH [] ltac:(cbn; lia) ltac:(cbn; lia)). cbn [length] in *. lia.
  - rewrite length_app. specialize (IH [b] ltac:(cbn; lia) ltac:(cbn; lia)). cbn [length] in *. lia.
  - specialize (IH (run ++ [b])). rewrite length_app in IH. cbn [length] in IH. lia.
Qed.

Lemma blocks_escaped_size s : length (blocks [] s) ≤ escaped_size (length s).
Proof.
  unfold escaped_size. case_cmp; [destruct s; [cbn; lia|done]|].
  pose proof (blocks_size s [] ltac:(cbn; lia) ltac:(cbn; lia)) as H. cbn [length] in H. dlia.
Qed.

Definition code_ok (b : u8) : Prop := is_u 8 b ∧ b ≠ 0%Z.

Lemma blocks_ok s : ∀ run, length run ≤ 254 → Forall code_ok run → bytes_ok s → Forall code_ok (blocks run s).
Proof.
  induction s as [|b s IH]; intros run Hrun Hok Hs; cbn [blocks].
  { constructor; [split; unfold is_u; lia|done]. }
  apply Forall_cons in Hs as [Hb Hs].
  destruct (Z.eqb_spec b 0); [|destruct (Nat.eqb_spec (length run) 254)].
  - apply Forall_app. split; [constructor; [split; unfold is_u; lia|done]|by apply IH; [cbn; lia|..]].
  - apply Forall_app. split; [constructor; [split; unfold is_u; lia|done]|].
    apply IH; [cbn; lia| |done]. by apply Forall_singleton.
  - apply IH; [rewrite length_app; cbn; lia| |done]. apply Forall_app. split; [done|]. by apply Forall_singleton.
Qed.

(** ** Decoding *)

Lemma unescape_data p run k pz rest u out : Forall code_ok run → (length run + k < 256) →
  unescape_all p (mkUnescaper (Z.of_nat k) pz) rest = Ret (u, Ok out) →
  unescape_all p (mkUnescaper (Z.of_nat (length run + k)) pz) (run ++ rest) = Ret (u, Ok (run ++ out)).
Proof.
  intros Hok Hk Hrest. revert Hk. induction Hok as [|b run [_ Hb] _ IH]; intros Hk; [done|].
  cbn [app unescape_all length]. unfold Unescaper_accept. cbn [bytes_to_copy pending_zero].
  rewrite (proj2 (Z.eqb_neq b 0)), (proj2 (Z.eqb_neq (Z.of_nat _) 0)) by (done || lia).
  cbn [length] in Hk. rewrite arith_u8 by lia. cbn [mbind exec_bind].
  replace (Z.of_nat (S (length run) + k) - 1)%Z with (Z.of_nat (length run + k)) by lia.
  rewrite IH by lia. done.
Qed.

Lemma unescape_block p run pz rest u out : Forall code_ok run → length run ≤ 254 →
  unescape_all p (mkUnescaper 0 (length run <? 254)) rest = Ret (u, Ok out) →
  unescape_all p (mkUnescaper 0 pz) ((Z.of_nat (length run + 1) :: run) ++ rest) =
    Ret (u, Ok ((if pz then [0%Z] else []) ++ run ++ out)).
Proof.
  intros Hok Hlen Hrest. cbn [app unescape_all]. unfold Unescaper_accept. cbn [bytes_to_copy pending_zero].
  rewrite (proj2 (Z.eqb_neq (Z.of_nat _) 0)) by lia. cbn [Z.eqb]. rewrite arith_u8 by lia. cbn [mbind exec_bind].
  replace (Z.of_nat (length run + 1) - 1)%Z with (Z.of_nat (length run + 0)) by lia.
  replace (Z.of_nat (length run + 1) <? 255)%Z with (length run <? 254) by (repeat case_cmp; done || lia).
  rewrite (unescape_data p run 0 _ rest u out) by (done || lia). by destruct pz.
Qed.

Lemma unescape_blocks p s : ∀ run pz, length run ≤ 254 → Forall code_ok run → bytes_ok s →
  ∃ u, unescape_all p (mkUnescaper 0 pz) (blocks run s) =
    Ret (u, Ok ((if pz then [0%Z] else []) ++ run ++ kept (length run) s)).
Proof.
  induction s as [|b s IH]; intros run pz Hlen Hok Hs; cbn [blocks kept].
  { eexists. rewrite <- (app_nil_r (_ :: run)). by apply unescape_block. }
  apply Forall_cons in Hs as [Hb Hs]. destruct (Z.eqb_spec b 0) as [->|Hb0].
  - destruct (IH [] (length run <? 254)) as [u Hu]; [cbn; lia|constructor|done|]. exists u.
    erewrite unescape_block by done. do 5 f_equal. cbn [app length]. by repeat case_cmp; lia || done.
  - destruct (Nat.eqb_spec (length run) 254) as [E|E].
    + destruct (IH [b] (length run <? 254)) as [u Hu]; [cbn; lia|by apply Forall_singleton|done|]. exists u.
      erewrite unescape_block by done. by rewrite E.
    + destruct (IH (run ++ [b]) pz) as [u Hu]; [rewrite length_app; cbn; lia| |done|].
      { apply Forall_app. split; [done|]. by apply Forall_singleton. }
      exists u. rewrite Hu, length_app, <- app_assoc. done.
Qed.

(** ** When decoding gives back the source *)

(** [zero_after_full_run] for the rest of a source, [n] bytes into a block. *)
Definition full_run_from (n : nat) (s : list u8) : Prop :=
  ∃ a run b, s = a ++ run ++ 0%Z :: b ∧ Forall (λ x, x ≠ 0%Z) run ∧
    ((a = [] ∧ 0 < n + length run ∧ (n + length run) mod 254 = 0) ∨
     (last a = Some 0%Z ∧ 0 < length run ∧ length run mod 254 = 0)).

Lemma full_run_from_0 s : full_run_from 0 s ↔ zero_after_full_run s.
Proof.
  split.
  - intros (a & run & b & -> & Hr & [(-> & ? & ?)|(? & ? & ?)]); [by exists [], run, b; auto 6|].
    exists a, run, b. auto 6.
  - intros (a & run & b & -> & [-> | Ha] & Hr & ? & ?); [by exists [], run, b; auto 6|].
    exists a, run, b. auto 6.
Qed.

Lemma kept_length s : ∀ n, length (kept n s) ≤ length s.
Proof.
  induction s as [|b s IH]; intros n; cbn [kept]; [done|].
  destruct (b =? 0)%Z; [destruct (n =? 254); cbn; specialize (IH 0); lia|cbn; specialize (IH (if n =? 254 then 1 else n + 1)); lia].
Qed.

(** The length of the block after one more byte. *)
Lemma block_step n r : n ≤ 254 →
  ((if n =? 254 then 1 else n + 1) + r) mod 254 = (n + S r) mod 254 ∧ (if n =? 254 then 1 else n + 1) ≤ 254.
Proof. intros Hn. case_cmp; dlia. Qed.

Lemma full_run_loses s : ∀ n, n ≤ 254 → full_run_from n s → length (kept n s) < length s.
Proof.
  induction s as [|c s IH]; intros n Hn (a & run & b & Hs & Hr & Hc); cbn [kept].
  { by destruct a, run. }
  destruct (Z.eqb_spec c 0) as [->|Hc0].
  - destruct a as [|c' a]; cbn in Hs.
    + destruct Hr as [|x run Hx Hr]; [|injection Hs as <- _; done].
      destruct Hc as [(_ & Hpos & Hmod)|(? & _)]; [|done]. cbn [length] in *.
      rewrite (proj2 (Nat.eqb_eq n 254)) by dlia. cbn. pose proof (kept_length s 0). lia.
    + injection Hs as <- Hs. assert (Hlt : length (kept 0 s) < length s); [|destruct (n =? 254); cbn; lia].
      apply IH; [lia|]. destruct Hc as [(? & _)|(Hl & Hpos & Hmod)]; [done|].
      exists a, run, b. split_and!; [done|done|]. rewrite last_cons in Hl. destruct (last a) eqn:El; [by right|].
      left. by apply last_None in El.
  - cbn [length]. apply -> Nat.succ_lt_mono. apply IH; [by apply (block_step n 0)|].
    destruct a as [|c' a]; cbn in Hs.
    + destruct Hr as [|x run Hx Hr]; [by injection Hs as -> _|]. injection Hs as <- Hs.
      destruct Hc as [(_ & Hpos & Hmod)|(? & _)]; [|done]. cbn [length] in *. exists [], run, b.
      split_and!; [done|done|]. left. destruct (block_step n (length run) Hn) as [Eb _].
      split_and!; [done|case_cmp; lia|by rewrite Eb].
    + injection Hs as <- Hs. destruct Hc as [(? & _)|(Hl & Hpos & Hmod)]; [done|].
      exists a, run, b. split_and!; [done|done|]. rewrite last_cons in Hl. right.
      destruct (last a); [done|congruence].
Qed.

Lemma kept_or_full_run s : ∀ n, n ≤ 254 → kept n s = s ∨ full_run_from n s.
Proof.
  induction s as [|c s IH]; intros n Hn; cbn [kept]; [by left|].
  destruct (Z.eqb_spec c 0) as [->|Hc0].
  - destruct (Nat.eqb_spec n 254) as [->|Hn'].
    { right. exists [], [], s. split_and!; [done|by constructor|]. left. cbn. split_and!; [done|lia|done]. }
    destruct (IH 0 ltac:(lia)) as [->|(a & run & b & -> & Hr & Hc)]; [by left|]. right.
    exists (0%Z :: a), run, b. split_and!; [done|done|]. right. rewrite last_cons.
    destruct Hc as [(-> & ? & ?)|(-> & ?)]; done.
  - destruct (block_step n 0 Hn) as [_ Hle]. destruct (IH _ Hle) as [->|(a & run & b & -> & Hr & Hc)]; [by left|].
    right. destruct Hc as [(-> & Hpos & Hmod)|(Hl & Hpos & Hmod)].
    + exists [], (c :: run), b. split_and!; [done|by constructor|]. left. cbn [length].
      split_and!; [done|lia|]. by rewrite <- (proj1 (block_step n (length run) Hn)).
    + exists (c :: a), run, b. split_and!; [done|done|]. right. rewrite last_cons, Hl. done.
Qed.

Lemma kept_all s : kept 0 s = s ↔ ¬ zero_after_full_run s.
Proof.
  rewrite <- full_run_from_0. split.
  - intros Hk Hf. apply full_run_loses in Hf; [|lia]. rewrite Hk in Hf. lia.
  - intros Hf. by destruct (kept_or_full_run s 0 ltac:(lia)).
Qed.

(** ** The whole encoding *)

Lemma set_at_length l i b l' : set_at l i b = Some l' → length l' = length l.
Proof. unfold set_at. destruct (l !! i); [|done]. intros [= <-]. apply length_insert. Qed.

Lemma escape_loop_length p s : ∀ dst cur code_at code dst' r,
  escape_loop p dst cur code_at code s = Ret (dst', r) → length dst' = length dst.
Proof.
  induction s as [|b s IH]; intros dst cur code_at code dst' r; cbn [escape_loop].
  { destruct (set_at dst code_at code) eqn:E; intros [= <- <-]; [by eapply set_at_length|done]. }
  destruct (b =? 0)%Z.
  { destruct (set_at dst code_at code) eqn:E; [|by intros [= <- <-]].
    intros H%IH. rewrite H. by eapply set_at_length. }
  assert (Hstep : ∀ d cur code_at code, length d = length dst →
    match set_at d cur b with
    | Some d' => code ← arith p 8 (code + 1); escape_loop p d' (cur + 1) code_at code s
    | None => Ret (d, Err mkOutOfMemoryError)
    end = Ret (dst', r) → length dst' = length dst).
  { clear cur code_at code. intros d cur code_at code Hd. destruct (set_at d cur b) eqn:E; [|by intros [= <- <-]].
    intros (? & _ & H%IH)%exec_bind_Ret. rewrite H, <- Hd. by eapply set_at_length. }
  destruct (code =? 255)%Z; [|by apply Hstep].
  destruct (set_at dst code_at code) eqn:E; [|by intros [= <- <-]]. apply Hstep. by eapply set_at_length.
Qed.

Lemma escape_from_iter_spec p source destination :
  ∃ destination' r, escape_from_iter p source destination = Ret (destination', r) ∧
    if length (blocks [] source) <=? length destination
    then r = Ok (length (blocks [] source)) ∧
      destination' = blocks [] source ++ drop (length (blocks [] source)) destination'  ∧
      length destination' = length destination
    else r = Err mkOutOfMemoryError.
Proof.
  unfold escape_from_iter. destruct destination as [|x free].
  - rewrite escape_loop_full by (cbn; lia). pose proof (blocks_length [] source).
    eexists _, _. split; [done|]. cbn [length] in *. by rewrite (proj2 (Nat.leb_gt _ 0)) by lia.
  - destruct (Nat.leb_spec (length (blocks [] source)) (length (x :: free))) as [Hfit|Hfit]; cbn [length] in Hfit.
    + destruct (escape_loop_spec p source [] x [] free) as [free' Hf]; [cbn; lia|cbn; lia|].
      cbn [app length] in Hf. change (Z.of_nat (0 + 1)) with 1%Z in Hf. change (0 + 1 + 0) with 1 in Hf.
      pose proof (escape_loop_length _ _ _ _ _ _ _ _ Hf) as Hlen.
      rewrite Hf. eexists _, _. split; [done|]. split_and!; [done| |done]. by rewrite drop_app_length.
    + destruct (escape_loop_fails p source [] x [] free) as [dst Hf]; [cbn; lia|cbn; lia|].
      eexists _, _. by split.
Qed.

(** ** Claims *)

(** C33: byte stuffing. Encoding never panics and succeeds whenever the destination has
    the size that [escaped_size] computes; the encoding has no zero byte. Decoding it
    never panics and gives back the source, with one exception: a zero that follows a
    run of non-zero bytes whose length is a multiple of 254 is lost. *)
Theorem cobs_roundtrip_exact p p' source destination :
  bytes_ok source → escaped_size (length source) ≤ length destination →
  ∃ destination' n, escape_from_iter p source destination = Ret (destination', Ok n) ∧
    n ≤ escaped_size (length source) ∧ length destination' = length destination ∧
    Forall (λ b, is_u 8 b ∧ b ≠ 0%Z) (take n destination') ∧
    ∃ u out, unescape_all p' Unescaper_new (take n destination') = Ret (u, Ok out) ∧
      (out = source ↔ ¬ zero_after_full_run source).
Proof.
  intros Hok Hfit. pose proof (blocks_escaped_size source) as Hsize.
  destruct (escape_from_iter_spec p source destination) as (dst & r & -> & Hr).
  rewrite (proj2 (Nat.leb_le _ _)) in Hr by lia. destruct Hr as (-> & Hdst & Hlen).
  exists dst, (length (blocks [] source)). split_and!; [done|done|done|..].
  all: rewrite Hdst, take_app_length.
  - by apply blocks_ok; [cbn; lia|constructor|].
  - destruct (unescape_blocks p' source [] false) as [u Hu]; [cbn; lia|constructor|done|].
    eexists u, _. split; [exact Hu|]. apply kept_all.
Qed.

Lemma cobs_roundtrip_exact_witness :
  ∃ u out, unescape_all Debug Unescaper_new [3; 1; 2; 1]%Z = Ret (u, Ok out) ∧
    (out = [1; 2; 0]%Z ↔ ¬ zero_after_full_run [1; 2; 0]%Z).
Proof.
  destruct (cobs_roundtrip_exact Debug Debug [1; 2; 0]%Z [0; 0; 0; 0; 0; 0]%Z) as (dst & n & Hd & _ & _ & _ & Hu).
  - repeat constructor; unfold byte_ok, is_u; lia.
  - cbn. lia.
  - vm_compute in Hd. injection Hd as <- <-. exact Hu.
Defined.

(** A zero that is lost: 254 ones and a zero. *)
Example lost_zero :
  (λ '(dst, _), unescape_all Debug Unescaper_new dst) <$>
    escape_from_iter Debug (replicate 254 1 ++ [0])%Z (replicate 256 0%Z) =
  Ret (Ret (mkUnescaper 0 true, Ok (replicate 254 1%Z))).
Proof. vm_compute. reflexivity. Qed.
