(* ===== verification/SerHeader.v ===== *)
(** * Headers of the serial transport

    Models [canadensis_serial/src/lib.rs] (identifiers, errors), [header.rs] and
    [header_collector.rs]. The CRC-32C of a sequence of bytes is computed by another
    crate and is a parameter. The in-memory form of a header, which is sent as it is, is
    that of a little-endian processor. *)

From S2P Require Import Prelude CoreTypes Transfer EncCursor EncCursorSpec EncFieldsSpec.

(** ** Identifiers *)

Abbreviation SerialNodeId := u16 (only parsing).
Abbreviation SerialTransferId := u64 (only parsing).
Abbreviation SerHeader I := (Header I SerialNodeId SerialTransferId) (only parsing).
Abbreviation SerTransfer A I := (Transfer A I SerialNodeId SerialTransferId) (only parsing).

Definition MAX_NODE_ID : u16 := 65534.

Definition SerialNodeId_valid (n : SerialNodeId) : Prop := (0 ≤ n ≤ MAX_NODE_ID)%Z.

Definition SerialNodeId_try_from (value : u16) : result InvalidValue SerialNodeId :=
  if (value <=? MAX_NODE_ID)%Z then Ok value else Err mkInvalidValue.

Definition SerialTransferId_increment (t : SerialTransferId) : SerialTransferId := wrapping_add 64 t 1.

Inductive SerialError (E : Type) : Type :=
| SerMemory (e : OutOfMemoryError)
| SerDriver (e : E).
Arguments SerMemory {E} e.
Arguments SerDriver {E} e.

(** ** The header on the wire *)

Record SerialHeader := mkSerialHeader {
  hd_version : u8;
  hd_priority : u8;
  hd_source_node : u16;
  hd_destination_node : u16;
  hd_data_specifier : u16;
  hd_padding : u64;
  hd_transfer_id : u64;
  hd_frame_index_eot : u32;
  hd_header_crc : u32;
}.

Definition VERSION : u8 := 0.
Definition ANONYMOUS_SOURCE : u16 := 0xffff.
Definition BROADCAST_DESTINATION : u16 := 0xffff.
Definition SINGLE_FRAME_INDEX : u32 := 0x80000000.
Definition HEADER_BYTES : usize := 32.

(** [as_bytes()]: the fields in order. *)
Definition header_as_bytes (h : SerialHeader) : list u8 :=
  to_le_bytes 1 (hd_version h) ++ to_le_bytes 1 (hd_priority h) ++
  to_le_bytes 2 (hd_source_node h) ++ to_le_bytes 2 (hd_destination_node h) ++
  to_le_bytes 2 (hd_data_specifier h) ++ to_le_bytes 8 (hd_padding h) ++
  to_le_bytes 8 (hd_transfer_id h) ++ to_le_bytes 4 (hd_frame_index_eot h) ++
  to_le_bytes 4 (hd_header_crc h).

(** The bytes [i] to [i + n] as an integer. *)
Definition field (l : list u8) (i n : nat) : Z := from_le_bytes (take n (drop i l)).

(** [read_from()], which needs exactly the bytes of a header. *)
Definition header_read_from (l : list u8) : option SerialHeader :=
  if length l =? HEADER_BYTES then
    Some (mkSerialHeader (field l 0 1) (field l 1 1) (field l 2 2) (field l 4 2) (field l 6 2)
      (field l 8 8) (field l 16 8) (field l 24 4) (field l 28 4))
  else None.

Definition request_data_specifier (service : ServiceId) : u16 := Z.lor 0x8000 service.
Definition response_data_specifier (service : ServiceId) : u16 := Z.lor 0xc000 service.
Definition data_specifier_is_service (specifier : u16) : bool := negb (Z.land specifier 0x8000 =? 0)%Z.
Definition data_specifier_is_response (specifier : u16) : bool := negb (Z.land specifier 0x4000 =? 0)%Z.

Inductive HeaderParseError : Set :=
| ParseCrc | ParseVersion | ParsePriority | ParseNotSingleFrame | ParseAnonymousService.

Section header.
Context (crc32c : list u8 → u32).

Definition bytes_to_crc (h : SerialHeader) : list u8 := take (HEADER_BYTES - 4) (header_as_bytes h).

Definition update_crc (h : SerialHeader) : SerialHeader :=
  mkSerialHeader (hd_version h) (hd_priority h) (hd_source_node h) (hd_destination_node h)
    (hd_data_specifier h) (hd_padding h) (hd_transfer_id h) (hd_frame_index_eot h)
    (crc32c (bytes_to_crc h)).

Definition check_crc (h : SerialHeader) : bool := (crc32c (bytes_to_crc h) =? hd_header_crc h)%Z.

Definition into_header {I} (self : SerialHeader) (timestamp : I) : result HeaderParseError (SerHeader I) :=
  if negb (check_crc self) then Err ParseCrc
  else if negb (hd_version self =? VERSION)%Z then Err ParseVersion
  else if negb (hd_frame_index_eot self =? SINGLE_FRAME_INDEX)%Z then Err ParseNotSingleFrame
  else
    priority ← map_err (λ _, ParsePriority) (Priority_try_from (hd_priority self));
    let transfer_id := hd_transfer_id self in
    if data_specifier_is_service (hd_data_specifier self) then
      source ← map_err (λ _, ParseAnonymousService) (SerialNodeId_try_from (hd_source_node self));
      destination ← map_err (λ _, ParseAnonymousService) (SerialNodeId_try_from (hd_destination_node self));
      let service := ServiceId_from_truncating (hd_data_specifier self) in
      let service_header := mkServiceHeader timestamp transfer_id priority service source destination in
      Ok (if data_specifier_is_response (hd_data_specifier self)
          then Response service_header else Request service_header)
    else
      Ok (Message (mkMessageHeader timestamp transfer_id priority
        (SubjectId_from_truncating (hd_data_specifier self))
        (ok (SerialNodeId_try_from (hd_source_node self))))).

(** [SerialHeader::from] *)
Definition SerialHeader_from {I} (header : SerHeader I) : SerialHeader :=
  update_crc
    match header with
    | Message h =>
        mkSerialHeader VERSION (Priority_as_u8 (mh_priority h))
          (default ANONYMOUS_SOURCE (mh_source h)) BROADCAST_DESTINATION (mh_subject h) 0
          (mh_transfer_id h) SINGLE_FRAME_INDEX 0
    | Request h =>
        mkSerialHeader VERSION (Priority_as_u8 (sh_priority h)) (sh_source h) (sh_destination h)
          (request_data_specifier (sh_service h)) 0 (sh_transfer_id h) SINGLE_FRAME_INDEX 0
    | Response h =>
        mkSerialHeader VERSION (Priority_as_u8 (sh_priority h)) (sh_source h) (sh_destination h)
          (response_data_specifier (sh_service h)) 0 (sh_transfer_id h) SINGLE_FRAME_INDEX 0
    end.
End header.

(** ** Collecting the bytes of a header *)

Record HeaderCollector := mkHeaderCollector { hc_bytes : list u8; hc_len : u8 }.

Definition HeaderCollector_new : HeaderCollector := mkHeaderCollector (replicate HEADER_BYTES 0%Z) 0.
Definition hc_is_done (c : HeaderCollector) : bool := Z.to_nat (hc_len c) =? HEADER_BYTES.
Definition hc_push (p : profile) (c : HeaderCollector) (byte : u8) : exec HeaderCollector :=
  bytes ← assign (hc_bytes c) (Z.to_nat (hc_len c)) byte;
  len ← arith p 8 (hc_len c + 1);
  Ret (mkHeaderCollector bytes len).
Definition hc_as_header (c : HeaderCollector) : exec SerialHeader := unwrap (header_read_from (hc_bytes c)).

Lemma length_header_as_bytes h : length (header_as_bytes h) = HEADER_BYTES.
Proof. unfold header_as_bytes. by rewrite !length_app, !to_le_bytes_length. Qed.

Lemma header_as_bytes_ok h : bytes_ok (header_as_bytes h).
Proof. unfold header_as_bytes. rewrite !Forall_app. split_and!; apply to_le_bytes_ok. Qed.

(** The fields have the width of their types. *)
Definition SerialHeader_ok (h : SerialHeader) : Prop :=
  is_u 8 (hd_version h) ∧ is_u 8 (hd_priority h) ∧ is_u 16 (hd_source_node h) ∧
  is_u 16 (hd_destination_node h) ∧ is_u 16 (hd_data_specifier h) ∧ is_u 64 (hd_padding h) ∧
  is_u 64 (hd_transfer_id h) ∧ is_u 32 (hd_frame_index_eot h) ∧ is_u 32 (hd_header_crc h).

Lemma field_skip k v l i n : k ≤ i → field (to_le_bytes k v ++ l) i n = field l (i - k) n.
Proof.
  intros Hk. unfold field. rewrite drop_app, to_le_bytes_length.
  by rewrite (drop_ge (to_le_bytes k v)) by (by rewrite to_le_bytes_length).
Qed.

Lemma field_here n v l : is_u (8 * Z.of_nat n) v → field (to_le_bytes n v ++ l) 0 n = v.
Proof.
  intros Hv. unfold field. rewrite drop_0, take_app_length' by (by rewrite to_le_bytes_length).
  by rewrite from_to_le_bytes, wrap_small.
Qed.

Lemma header_read_as_bytes h : SerialHeader_ok h → header_read_from (header_as_bytes h) = Some h.
Proof.
  intros (H1 & H2 & H3 & H4 & H5 & H6 & H7 & H8 & H9). unfold header_read_from.
  rewrite length_header_as_bytes, Nat.eqb_refl. destruct h as [v1 v2 v3 v4 v5 v6 v7 v8 v9].
  unfold header_as_bytes.
  cbn [hd_version hd_priority hd_source_node hd_destination_node hd_data_specifier hd_padding
    hd_transfer_id hd_frame_index_eot hd_header_crc] in *.
  rewrite <- (app_nil_r (to_le_bytes 4 v9)).
  do 2 f_equal; repeat (rewrite field_skip by lia; cbn [Nat.sub]); by apply field_here.
Qed.

(** ** Headers come back *)

Definition SerHeader_valid {I} (h : SerHeader I) : Prop :=
  is_u 64 (transfer_id h) ∧
  match h with
  | Message m => SubjectId_valid (mh_subject m) ∧ ∀ n, mh_source m = Some n → SerialNodeId_valid n
  | Request s | Response s =>
      ServiceId_valid (sh_service s) ∧ SerialNodeId_valid (sh_source s) ∧ SerialNodeId_valid (sh_destination s)
  end.

Section roundtrip.
Context (crc32c : list u8 → u32) (crc32c_u32 : ∀ l, bytes_ok l → is_u 32 (crc32c l)).

Lemma SerialNodeId_try_from_valid n : SerialNodeId_valid n → SerialNodeId_try_from n = Ok n.
Proof. unfold SerialNodeId_valid, SerialNodeId_try_from. intros Hn. by case_cmp; [|lia]. Qed.

Lemma bytes_to_crc_update h : bytes_to_crc (update_crc crc32c h) = bytes_to_crc h.
Proof.
  unfold bytes_to_crc, header_as_bytes, update_crc.
  cbn [hd_version hd_priority hd_source_node hd_destination_node hd_data_specifier hd_padding
    hd_transfer_id hd_frame_index_eot hd_header_crc].
  rewrite !(app_assoc (to_le_bytes 1 _)), !app_assoc.
  rewrite !(take_app_length' _ (to_le_bytes 4 _)) by (by rewrite !length_app, !to_le_bytes_length). done.
Qed.

Lemma check_crc_update h : check_crc crc32c (update_crc crc32c h) = true.
Proof. unfold check_crc. rewrite bytes_to_crc_update. by apply Z.eqb_eq. Qed.

Lemma update_crc_ok h : SerialHeader_ok h → SerialHeader_ok (update_crc crc32c h).
Proof.
  intros (H1 & H2 & H3 & H4 & H5 & H6 & H7 & H8 & _). unfold update_crc. split_and!; try done.
  apply crc32c_u32, Forall_take, header_as_bytes_ok.
Qed.

Lemma service_specifier service : ServiceId_valid service →
  is_u 16 (request_data_specifier service) ∧ is_u 16 (response_data_specifier service) ∧
  data_specifier_is_service (request_data_specifier service) = true ∧
  data_specifier_is_service (response_data_specifier service) = true ∧
  data_specifier_is_response (request_data_specifier service) = false ∧
  data_specifier_is_response (response_data_specifier service) = true ∧
  ServiceId_from_truncating (request_data_specifier service) = service ∧
  ServiceId_from_truncating (response_data_specifier service) = service.
Proof.
  intros Hs. set (check := λ s : Z,
    is_ub 16 (request_data_specifier s) && is_ub 16 (response_data_specifier s) &&
    data_specifier_is_service (request_data_specifier s) &&
    data_specifier_is_service (response_data_specifier s) &&
    negb (data_specifier_is_response (request_data_specifier s)) &&
    data_specifier_is_response (response_data_specifier s) &&
    (ServiceId_from_truncating (request_data_specifier s) =? s)%Z &&
    (ServiceId_from_truncating (response_data_specifier s) =? s)%Z).
  assert (Hall : forallb (λ n, check (Z.of_nat n)) (seq 0 512) = true) by (vm_compute; reflexivity).
  assert (Hc : check service = true).
  { rewrite forallb_forall in Hall. rewrite <- (Z2Nat.id service) by apply Hs. apply Hall, in_seq.
    unfold ServiceId_valid, VALID_SERVICE_IDS_end in Hs. lia. }
  unfold check in Hc. rewrite !andb_true_iff, negb_true_iff, !Z.eqb_eq, !is_ub_spec in Hc. tauto.
Qed.

Lemma subject_specifier subject : SubjectId_valid subject →
  is_u 16 subject ∧ data_specifier_is_service subject = false ∧ SubjectId_from_truncating subject = subject.
Proof.
  intros Hs%SubjectId_valid_u. split_and!.
  - by apply (is_u_mono 13); [|lia].
  - unfold data_specifier_is_service. apply negb_false_iff, Z.eqb_eq, Z.bits_inj'. intros k Hk.
    rewrite Z.land_spec, Z.bits_0. destruct (Z_lt_ge_dec k 13).
    + rewrite (Z.pow2_bits_false 15) by lia. apply andb_false_r.
    + by rewrite (testbit_above subject 13) by (done || lia).
  - by rewrite SubjectId_from_truncating_mod, wrap_small.
Qed.

Lemma SerialHeader_from_ok {I} (h : SerHeader I) : SerHeader_valid h → SerialHeader_ok (SerialHeader_from crc32c h).
Proof.
  intros [Ht Hh]. unfold SerialHeader_from. apply update_crc_ok.
  assert (Hp : is_u 8 (Priority_as_u8 (priority h))) by (eapply is_u_mono; [apply Priority_as_u8_range|lia]).
  assert (Hn : ∀ n, SerialNodeId_valid n → is_u 16 n) by (unfold SerialNodeId_valid, MAX_NODE_ID, is_u; lia).
  assert (H0 : ∀ w, (0 ≤ w)%Z → is_u w 0) by (intros w Hw; split; [lia|apply Z.pow_pos_nonneg; lia]).
  destruct h as [m|s|s]; cbn in Ht, Hp |- *.
  - destruct Hh as [Hs Hsrc]. split_and!; cbn; try done; try (by apply H0).
    + destruct (mh_source m); cbn; [by apply Hn, Hsrc|done].
    + by apply subject_specifier.
  - destruct Hh as (Hs & Hsrc & Hdst). split_and!; cbn; try done; try (by apply H0); try (by apply Hn).
    by apply service_specifier.
  - destruct Hh as (Hs & Hsrc & Hdst). split_and!; cbn; try done; try (by apply H0); try (by apply Hn).
    by apply service_specifier.
Qed.

Lemma into_header_from {I} (h : SerHeader I) (ts : I) : SerHeader_valid h →
  into_header crc32c (SerialHeader_from crc32c h) ts = Ok (set_timestamp ts h).
Proof.
  intros [_ Hh]. unfold into_header, SerialHeader_from. rewrite check_crc_update. cbn [negb].
  destruct h as [m|s|s]; unfold update_crc;
    cbn [hd_version hd_priority hd_source_node hd_destination_node hd_data_specifier hd_padding
      hd_transfer_id hd_frame_index_eot hd_header_crc]; rewrite !Z.eqb_refl; cbn [negb];
    rewrite Priority_roundtrip; cbn [map_err mbind result_bind].
  - destruct Hh as [Hs Hsrc]. destruct (subject_specifier _ Hs) as (_ & -> & ->). cbn [set_timestamp].
    destruct (mh_source m) as [n|]; [|done]. change (default _ (Some n)) with n.
    by rewrite (SerialNodeId_try_from_valid n) by auto.
  - destruct Hh as (Hs & Hsrc & Hdst). rewrite !SerialNodeId_try_from_valid by done.
    destruct (service_specifier _ Hs) as (_ & _ & -> & _ & -> & _ & -> & _). done.
  - destruct Hh as (Hs & Hsrc & Hdst). rewrite !SerialNodeId_try_from_valid by done.
    destruct (service_specifier _ Hs) as (_ & _ & _ & -> & _ & -> & _ & ->). done.
Qed.

(** What a received header contains is within the ranges of its types. *)
Lemma into_header_valid {I} (sh : SerialHeader) (ts : I) h : SerialHeader_ok sh →
  into_header crc32c sh ts = Ok h → SerHeader_valid h ∧ timestamp h = ts.
Proof.
  intros (_ & _ & H3 & H4 & H5 & _ & H7 & _ & _). unfold into_header.
  destruct (negb _); [done|]. destruct (negb _); [done|]. destruct (negb _); [done|].
  destruct (Priority_try_from _) as [prio|]; [|done]. cbn [map_err mbind result_bind].
  assert (Htry : ∀ n m, is_u 16 n → SerialNodeId_try_from n = Ok m → SerialNodeId_valid m).
  { unfold SerialNodeId_try_from, SerialNodeId_valid, is_u. intros n m Hn. case_cmp; [|done]. intros [= <-]. lia. }
  assert (Hserv : ServiceId_valid (ServiceId_from_truncating (hd_data_specifier sh))).
  { apply ServiceId_valid_u. rewrite ServiceId_from_truncating_mod. by apply is_u_wrap. }
  destruct (data_specifier_is_service _).
  - destruct (SerialNodeId_try_from (hd_source_node sh)) as [src|] eqn:Es; [|done]. cbn [map_err mbind result_bind].
    destruct (SerialNodeId_try_from (hd_destination_node sh)) as [dst|] eqn:Ed; [|done]. cbn [map_err mbind result_bind].
    intros [= <-]. destruct (data_specifier_is_response _);
      (split; [|done]; split; [done|]; cbn; split_and!; [done|by apply (Htry _ _ H3)|by apply (Htry _ _ H4)]).
  - intros [= <-]. split; [|done]. split; [done|]. cbn. split.
    + apply SubjectId_valid_u. rewrite SubjectId_from_truncating_mod. by apply is_u_wrap.
    + intros n. destruct (SerialNodeId_try_from (hd_source_node sh)) as [src|] eqn:Es; [|done].
      intros [= <-]. by apply (Htry _ _ H3).
Qed.
End roundtrip.

(** ** Claims *)

(** The header of a serial transfer survives its way over the wire: it is 32 bytes
    long, and parsing these bytes gives the same kind, priority, port, nodes and transfer
    identifier, with the time of reception; anonymous sources stay anonymous. *)
Theorem serial_header_roundtrip {I} (crc32c : list u8 → u32) (h : SerHeader I) (ts : I) :
  (∀ l, bytes_ok l → is_u 32 (crc32c l)) → SerHeader_valid h →
  let bytes := header_as_bytes (SerialHeader_from crc32c h) in
  length bytes = HEADER_BYTES ∧ bytes_ok bytes ∧
  ∃ sh, header_read_from bytes = Some sh ∧ into_header crc32c sh ts = Ok (set_timestamp ts h).
Proof.
  intros Hcrc Hh bytes. split_and!; [apply length_header_as_bytes|apply header_as_bytes_ok|].
  eexists. split; [by apply header_read_as_bytes, SerialHeader_from_ok|by apply into_header_from].
Qed.

(** A checksum for examples. *)
Definition byte_sum (l : list u8) : u32 := wrap 32 (fold_left Z.add l 0%Z).

Lemma serial_header_roundtrip_witness :
  let h := Request (mkServiceHeader 5 (2 ^ 63)%Z High 430%Z 17%Z 65534%Z) in
  ∃ sh, header_read_from (header_as_bytes (SerialHeader_from byte_sum h)) = Some sh ∧
    into_header byte_sum sh 7 = Ok (set_timestamp 7 h).
Proof.
  destruct (serial_header_roundtrip byte_sum (Request (mkServiceHeader 5 (2 ^ 63)%Z High 430%Z 17%Z 65534%Z)) 7)
    as (_ & _ & H); [intros; by apply is_u_wrap| |exact H].
  split; [unfold is_u; cbn; lia|]. split_and!; unfold ServiceId_valid, VALID_SERVICE_IDS_end, SerialNodeId_valid, MAX_NODE_ID; cbn; lia.
Defined.
