(* ===== verification/SerTx.v ===== *)
(** * The serial transmitter

    Models [canadensis_serial/src/tx.rs]: a transfer is one frame: delimiter, header,
    payload and payload CRC with byte stuffing, delimiter; the bytes wait in a queue of
    [C] bytes until the driver takes them. The driver and the CRC are parameters. *)

From S2P Require Import Prelude CoreTypes Transfer EncCursor EncCursorSpec EncFieldsSpec.
From S2P Require Import SerCobs SerHeader.

(** [TransmitDriver] of [driver.rs]. *)
Class ByteTransmitDriver (Drv E : Type) := {
  send_byte : Drv → u8 → exec (Drv * result (nb_error E) unit);
}.

Definition PER_FRAME_ESCAPED_OVERHEAD : usize := HEADER_BYTES + 4.
Definition PER_FRAME_UNESCAPED_OVERHEAD : usize := 1 + 1.
Definition DELIMITER : u8 := 0x0.

Section tx.
Context (crc32c : list u8 → u32) (C : nat).

Definition make_payload_crc (payload : list u8) : u32 := crc32c payload.

(** [TransmitQueue] *)
Record TransmitQueue := mkTransmitQueue { tq_bytes : list u8 }.
Definition TransmitQueue_new : TransmitQueue := mkTransmitQueue [].
Definition tq_push_back (q : TransmitQueue) (item : u8) : result OutOfMemoryError TransmitQueue :=
  if length (tq_bytes q) <? C then Ok (mkTransmitQueue (tq_bytes q ++ [item])) else Err mkOutOfMemoryError.
Definition tq_push_front (q : TransmitQueue) (item : u8) : result OutOfMemoryError TransmitQueue :=
  if length (tq_bytes q) <? C then Ok (mkTransmitQueue (item :: tq_bytes q)) else Err mkOutOfMemoryError.
Definition tq_pop_front (q : TransmitQueue) : TransmitQueue * option u8 :=
  match tq_bytes q with
  | [] => (q, None)
  | b :: rest => (mkTransmitQueue rest, Some b)
  end.
Definition tq_capacity : usize := C.
Definition tq_len (q : TransmitQueue) : usize := length (tq_bytes q).

Fixpoint tq_push_all (q : TransmitQueue) (bytes : list u8) : exec TransmitQueue :=
  match bytes with
  | [] => Ret q
  | byte :: bytes' => q ← expect (tq_push_back q byte); tq_push_all q bytes'
  end.

Context {I Drv E : Type} `{ByteTransmitDriver Drv E}.

(** The escaped part of a frame. *)
Definition data_to_escape (header : SerialHeader) (payload : list u8) (payload_crc : u32) : list u8 :=
  header_as_bytes header ++ payload ++ to_le_bytes 4 payload_crc.

Definition ser_push (p : profile) (alloc : allocator) (self : TransmitQueue) (transfer : SerTransfer (list u8) I)
    : exec (TransmitQueue * result (nb_error (SerialError E)) unit) :=
  let payload := tr_payload transfer in
  let out_of_memory q := Ret (q, Err (Other (SerMemory mkOutOfMemoryError))) in
  let frame_length := length payload + PER_FRAME_ESCAPED_OVERHEAD in
  let escaped_length := escaped_size frame_length in
  let length_on_wire := escaped_length + PER_FRAME_UNESCAPED_OVERHEAD in
  free ← usize_sub tq_capacity (tq_len self);
  if free <? length_on_wire then out_of_memory self
  else
    let header := SerialHeader_from crc32c (tr_header transfer) in
    let payload_crc := make_payload_crc payload in
    match vec_with_capacity (A := u8) alloc escaped_length with
    | None => out_of_memory self
    | Some _ =>
        let escape_buffer := replicate escaped_length 0%Z in
        '(escape_buffer, r) ← escape_from_iter p (data_to_escape header payload payload_crc) escape_buffer;
        escaped_length ← expect r;
        let length_on_wire := escaped_length + PER_FRAME_UNESCAPED_OVERHEAD in
        free ← usize_sub tq_capacity (tq_len self);
        if free <? length_on_wire then out_of_memory self
        else
          self ← expect (tq_push_back self DELIMITER);
          self ← tq_push_all self (take escaped_length escape_buffer);
          self ← expect (tq_push_back self DELIMITER);
          Ret (self, Ok tt)
    end.

(** The loop of [flush] takes one byte per iteration. *)
Fixpoint flush_loop (fuel : nat) (self : TransmitQueue) (driver : Drv)
    : exec (TransmitQueue * Drv * result (nb_error (SerialError E)) unit) :=
  match fuel with
  | 0 => Panic
  | S fuel' =>
      match tq_pop_front self with
      | (self, None) => Ret (self, driver, Ok tt)
      | (self, Some byte) =>
          '(driver, r) ← send_byte driver byte;
          match r with
          | Ok _ => flush_loop fuel' self driver
          | Err e =>
              self ← expect (tq_push_front self byte);
              Ret (self, driver, Err (nb_map SerDriver e))
          end
      end
  end.

Definition ser_flush (self : TransmitQueue) (driver : Drv)
    : exec (TransmitQueue * Drv * result (nb_error (SerialError E)) unit) :=
  flush_loop (S (tq_len self)) self driver.

(** ** The bytes of a transfer on the wire *)

Definition frame_bytes (h : SerHeader I) (payload : list u8) : list u8 :=
  data_to_escape (SerialHeader_from crc32c h) payload (make_payload_crc payload).
Definition serial_wire (h : SerHeader I) (payload : list u8) : list u8 :=
  0%Z :: blocks [] (frame_bytes h payload) ++ [0%Z].

Lemma length_frame_bytes h payload : length (frame_bytes h payload) = length payload + PER_FRAME_ESCAPED_OVERHEAD.
Proof.
  unfold frame_bytes, data_to_escape. rewrite !length_app, length_header_as_bytes, to_le_bytes_length.
  unfold PER_FRAME_ESCAPED_OVERHEAD. lia.
Qed.

Lemma frame_bytes_ok h payload : bytes_ok payload → bytes_ok (frame_bytes h payload).
Proof.
  intros Hp. unfold frame_bytes, data_to_escape. rewrite !Forall_app.
  split_and!; [apply header_as_bytes_ok|done|apply to_le_bytes_ok].
Qed.

Lemma tq_push_back_fits q b : length (tq_bytes q) < C → tq_push_back q b = Ok (mkTransmitQueue (tq_bytes q ++ [b])).
Proof. intros Hq. unfold tq_push_back. by rewrite (proj2 (Nat.ltb_lt _ _) Hq). Qed.

Lemma tq_push_all_spec bytes : ∀ q, length (tq_bytes q) + length bytes ≤ C →
  tq_push_all q bytes = Ret (mkTransmitQueue (tq_bytes q ++ bytes)).
Proof.
  induction bytes as [|b bytes IH]; intros q Hfit; cbn [tq_push_all].
  { rewrite app_nil_r. by destruct q. }
  cbn [length] in Hfit. rewrite tq_push_back_fits by lia.
  cbn [expect mbind exec_bind]. rewrite IH by (cbn [tq_bytes]; rewrite length_app; cbn; lia).
  cbn [tq_bytes]. by rewrite <- app_assoc.
Qed.

Lemma ser_push_spec p alloc q (tr : SerTransfer (list u8) I) :
  tq_len q ≤ C →
  let bytes := serial_wire (tr_header tr) (tr_payload tr) in
  let worst := escaped_size (length (tr_payload tr) + PER_FRAME_ESCAPED_OVERHEAD) in
  ∃ q' r, ser_push p alloc q tr = Ret (q', r) ∧
    match r with
    | Ok _ => q' = mkTransmitQueue (tq_bytes q ++ bytes) ∧ tq_len q' ≤ C
    | Err (Other (SerMemory _)) => q' = q ∧ (C < tq_len q + worst + 2 ∨ alloc worst = None)
    | Err _ => False
    end.
Proof.
  intros Hq bytes worst. unfold ser_push, usize_sub, tq_capacity.
  rewrite (proj2 (Nat.leb_le _ _) Hq). cbn [mbind exec_bind]. fold worst.
  set (frame := data_to_escape _ _ _).
  assert (Hframe : frame = frame_bytes (tr_header tr) (tr_payload tr)) by done.
  assert (Hlen : length frame = length (tr_payload tr) + PER_FRAME_ESCAPED_OVERHEAD)
    by (rewrite Hframe; apply length_frame_bytes).
  unfold PER_FRAME_UNESCAPED_OVERHEAD. destruct (Nat.ltb_spec (C - tq_len q) (worst + (1 + 1))) as [Hfull|Hfit].
  { eexists _, _. split; [done|]. cbn. split; [done|left; lia]. }
  destruct (vec_with_capacity (A := u8) alloc worst) as [v|] eqn:Ev.
  2: { eexists _, _. split; [done|]. cbn. split; [done|right]. unfold vec_with_capacity in Ev.
       destruct (worst =? 0); [done|]. by destruct (alloc worst). }
  pose proof (blocks_escaped_size frame) as Hsize. rewrite Hlen in Hsize. fold worst in Hsize.
  destruct (escape_from_iter_spec p frame (replicate worst 0%Z)) as (dst & r & -> & Hr).
  rewrite length_replicate, (proj2 (Nat.leb_le _ _) Hsize) in Hr. destruct Hr as (-> & Hdst & _).
  cbn [expect mbind exec_bind]. rewrite (proj2 (Nat.ltb_ge _ _)) by lia.
  assert (Htake : take (length (blocks [] frame)) dst = blocks [] frame) by (rewrite Hdst; apply take_app_length).
  rewrite Htake. unfold tq_len in *. rewrite tq_push_back_fits by lia. cbn [expect mbind exec_bind].
  set (enc := blocks [] frame) in *.
  rewrite tq_push_all_spec by (cbn [tq_bytes]; rewrite length_app; cbn [length]; lia). cbn [mbind exec_bind].
  rewrite tq_push_back_fits by (cbn [tq_bytes]; rewrite !length_app; cbn [length]; lia).
  cbn [expect mbind exec_bind]. eexists _, _. split; [done|]. cbn [tq_bytes]. split.
  - unfold bytes, serial_wire. rewrite <- Hframe. by rewrite <- !app_assoc.
  - rewrite !length_app. cbn [length]. lia.
Qed.
End tx.
