(* ===== verification/SerRx.v ===== *)
(** * The serial receiver

    Models [canadensis_serial/src/rx.rs]: a state machine that finds frames in a stream of
    bytes, checks them against the subscriptions and removes duplicates. The
    subscriptions are kept by the dynamic subscription manager. [TryHashMap] is a
    finite map whose insertion can fail; the order in which it is iterated over is not
    specified, and nothing here depends on it.

    [handle_byte] makes at most two requests to the allocator: number 0 for the payload
    and number 1 for a session. *)

From S2P Require Import Prelude CoreTypes Time Transfer Subscriptions EncCursor EncCursorSpec.
From S2P Require Import SerCobs SerHeader SerTx.

(** [ReceiveDriver] of [driver.rs]. *)
Class ByteReceiveDriver (Drv E : Type) := {
  receive_byte : Drv → exec (Drv * result (nb_error E) u8);
}.

Section rx.
Context (crc32c : list u8 → u32).
Context {I D : Type} `{Instant I D}.

Record SerSession := mkSerSession { ss_expiration_time : I; ss_last_transfer_id : SerialTransferId }.

Record SerSubscription := mkSerSubscription {
  su_payload_size_max : usize;
  su_timeout : D;
  su_sessions : gmap Z SerSession;
}.

Definition SerSubscription_new (payload_size_max : usize) (timeout : D) : SerSubscription :=
  mkSerSubscription payload_size_max timeout ∅.

Definition session_expired (now : I) (s : SerSession) : bool :=
  match overflow_safe_compare (ss_expiration_time s) now with Lt => true | _ => false end.

(** The scan over the sessions: the last expired one. *)
Fixpoint last_expired (now : I) (l : list (Z * SerSession)) (found : option Z) : option Z :=
  match l with
  | [] => found
  | (id, session) :: l' => last_expired now l' (if session_expired now session then Some id else found)
  end.

Fixpoint clean_loop (fuel : nat) (now : I) (m : gmap Z SerSession) : exec (gmap Z SerSession) :=
  match fuel with
  | 0 => Panic
  | S fuel' =>
      match last_expired now (map_to_list m) None with
      | Some id => clean_loop fuel' now (delete id m)
      | None => Ret m
      end
  end.

Definition su_clean_expired_sessions (now : I) (s : SerSubscription) : exec SerSubscription :=
  mkSerSubscription (su_payload_size_max s) (su_timeout s) <$> clean_loop (S (size (su_sessions s))) now (su_sessions s).

(** ** The state machine *)

Inductive State :=
| Idle
| BetweenTransfers
| CollectHeader (unescaper : Unescaper) (header : HeaderCollector)
| CollectPayload (unescaper : Unescaper) (header : SerHeader I) (payload : vec u8).

Record SerialReceiver := mkSerialReceiver {
  sr_state : State;
  sr_node_id : option SerialNodeId;
  sr_subscriptions : DynamicSubscriptionManager SerSubscription;
}.

Definition SerialReceiver_new (node_id : SerialNodeId) : SerialReceiver :=
  mkSerialReceiver Idle (Some node_id) manager_default.
Definition SerialReceiver_new_anonymous : SerialReceiver := mkSerialReceiver Idle None manager_default.

Definition set_state (self : SerialReceiver) (s : State) : SerialReceiver :=
  mkSerialReceiver s (sr_node_id self) (sr_subscriptions self).

Definition ser_find_subscription (self : SerialReceiver) (header : SerHeader I) : option SerSubscription :=
  match header with
  | Message h => find_message_subscription (sr_subscriptions self) (mh_subject h)
  | Request h =>
      if bool_decide (sr_node_id self = Some (sh_destination h))
      then find_request_subscription (sr_subscriptions self) (sh_service h) else None
  | Response h =>
      if bool_decide (sr_node_id self = Some (sh_destination h))
      then find_response_subscription (sr_subscriptions self) (sh_service h) else None
  end.

Definition is_interested (self : SerialReceiver) (header : SerHeader I) : option SerSubscription :=
  subscription ← find_subscription (sr_subscriptions self) header;
  match source header with
  | Some source =>
      match su_sessions subscription !! source with
      | Some session =>
          if (ss_last_transfer_id session <? transfer_id header)%Z then Some subscription else None
      | None => Some subscription
      end
  | None => Some subscription
  end.

(** [TryHashMap::insert], whose result the receiver ignores. *)
Definition try_insert (alloc : allocator) (m : gmap Z SerSession) (k : Z) (s : SerSession) : gmap Z SerSession :=
  match alloc (S (size m)) with Some _ => <[k := s]> m | None => m end.

Definition record_transfer (alloc : allocator) (source : SerialNodeId) (s : SerSession)
    (sub : SerSubscription) : SerSubscription :=
  mkSerSubscription (su_payload_size_max sub) (su_timeout sub) (try_insert alloc (su_sessions sub) source s).

Definition complete_transfer (p : profile) (alloc : allocator) (self : SerialReceiver) (header : SerHeader I)
    (payload_and_crc : list u8) : exec (SerialReceiver * option (SerTransfer (list u8) I)) :=
  if 4 <=? length payload_and_crc then
    let n := length payload_and_crc - 4 in
    let crc := from_le_bytes (drop n payload_and_crc) in
    let payload := take n payload_and_crc in
    if negb (crc =? make_payload_crc crc32c payload)%Z then Ret (self, None)
    else
      match ser_find_subscription self header with
      | Some subscription =>
          match source header with
          | Some source_node =>
              expiration_time ← add_instant p (su_timeout subscription) (timestamp header);
              let session := mkSerSession expiration_time (transfer_id header) in
              let subscriptions := update_subscription (record_transfer alloc source_node session)
                (sr_subscriptions self) header in
              Ret (mkSerialReceiver (sr_state self) (sr_node_id self) subscriptions,
                   Some (mkTransfer header payload))
          | None => Ret (self, Some (mkTransfer header payload))
          end
      | None => Ret (self, None)
      end
  else Ret (self, None).

Definition handle_byte (p : profile) (alloc : nat → allocator) (self : SerialReceiver) (byte : u8) (now : I)
    : exec (SerialReceiver * result OutOfMemoryError (option (SerTransfer (list u8) I))) :=
  let stay self s := Ret (set_state self s, Ok None) in
  let state := sr_state self in
  let self := set_state self Idle in
  match state with
  | Idle => stay self (if (byte =? 0)%Z then BetweenTransfers else Idle)
  | BetweenTransfers =>
      if negb (byte =? 0)%Z then
        '(unescaper, r) ← Unescaper_accept p Unescaper_new byte;
        match r with
        | Ok (Some byte) =>
            header ← hc_push p HeaderCollector_new byte;
            stay self (CollectHeader unescaper header)
        | Ok None => stay self (CollectHeader unescaper HeaderCollector_new)
        | Err _ => Panic
        end
      else stay self BetweenTransfers
  | CollectHeader unescaper header =>
      '(unescaper, r) ← Unescaper_accept p unescaper byte;
      match r with
      | Ok (Some byte) =>
          header ← hc_push p header byte;
          if hc_is_done header then
            header ← hc_as_header header;
            match into_header crc32c header now with
            | Ok header =>
                match is_interested self header with
                | Some subscription =>
                    match vec_with_capacity (alloc 0) (su_payload_size_max subscription + 4) with
                    | Some payload => stay self (CollectPayload unescaper header payload)
                    | None => Ret (set_state self Idle, Err mkOutOfMemoryError)
                    end
                | None => stay self Idle
                end
            | Err _ => stay self Idle
            end
          else stay self (CollectHeader unescaper header)
      | Ok None => stay self (CollectHeader unescaper header)
      | Err _ => stay self Idle
      end
  | CollectPayload unescaper header payload =>
      '(unescaper, r) ← Unescaper_accept p unescaper byte;
      match r with
      | Ok (Some byte) =>
          if vec_len payload =? vec_cap payload then
            '(self, transfer) ← complete_transfer p (alloc 1) (set_state self Idle) header (vec_list payload);
            Ret (self, Ok transfer)
          else
            (* [Vec::push] within the capacity *)
            stay self (CollectPayload unescaper header (mkVec (vec_list payload ++ [byte]) (vec_cap payload)))
      | Ok None => stay self (CollectPayload unescaper header payload)
      | Err _ =>
          '(self, transfer) ← complete_transfer p (alloc 1) (set_state self BetweenTransfers) header (vec_list payload);
          Ret (self, Ok transfer)
      end
  end.

(** ** Clean-up *)

(** [for_each_*_subscription_mut] with a closure that may panic. *)
Fixpoint for_each_exec (f : SerSubscription → exec SerSubscription) (l : list (Z * SerSubscription))
    : exec (list (Z * SerSubscription)) :=
  match l with
  | [] => Ret []
  | (port, sub) :: l' => sub ← f sub; l' ← for_each_exec f l'; Ret ((port, sub) :: l')
  end.

Definition clean_subscriptions (now : I) (v : vec (Z * SerSubscription)) : exec (vec (Z * SerSubscription)) :=
  l ← for_each_exec (su_clean_expired_sessions now) (vec_list v); Ret (mkVec l (vec_cap v)).

Definition ser_clean_expired_sessions (self : SerialReceiver) (now : I) : exec SerialReceiver :=
  let subs := sr_subscriptions self in
  message ← clean_subscriptions now (message_subscriptions subs);
  request ← clean_subscriptions now (request_subscriptions subs);
  response ← clean_subscriptions now (response_subscriptions subs);
  Ret (mkSerialReceiver (sr_state self) (sr_node_id self) (mkManager message request response)).

(** ** Subscribing *)

Definition set_subscriptions (self : SerialReceiver) m : SerialReceiver :=
  mkSerialReceiver (sr_state self) (sr_node_id self) m.

Definition ser_subscribe_message (alloc : allocator) (self : SerialReceiver) (subject : SubjectId)
    (payload_size_max : usize) (timeout : D) : SerialReceiver * result OutOfMemoryError unit :=
  let '(m, r) := subscribe_message alloc (sr_subscriptions self) subject
                   (SerSubscription_new payload_size_max timeout) in
  (set_subscriptions self m, r).
Definition ser_subscribe_request (alloc : allocator) (self : SerialReceiver) (service : ServiceId)
    (payload_size_max : usize) (timeout : D)
    : SerialReceiver * result (ServiceSubscribeError OutOfMemoryError) unit :=
  if bool_decide (is_Some (sr_node_id self)) then
    let '(m, r) := subscribe_request alloc (sr_subscriptions self) service
                     (SerSubscription_new payload_size_max timeout) in
    (set_subscriptions self m, map_err TransportError r)
  else (self, Err Anonymous).
Definition ser_subscribe_response (alloc : allocator) (self : SerialReceiver) (service : ServiceId)
    (payload_size_max : usize) (timeout : D)
    : SerialReceiver * result (ServiceSubscribeError OutOfMemoryError) unit :=
  if bool_decide (is_Some (sr_node_id self)) then
    let '(m, r) := subscribe_response alloc (sr_subscriptions self) service
                     (SerSubscription_new payload_size_max timeout) in
    (set_subscriptions self m, map_err TransportError r)
  else (self, Err Anonymous).
Definition ser_unsubscribe_message (self : SerialReceiver) (subject : SubjectId) : SerialReceiver :=
  set_subscriptions self (unsubscribe_message (sr_subscriptions self) subject).1.
Definition ser_unsubscribe_request (self : SerialReceiver) (service : ServiceId) : SerialReceiver :=
  set_subscriptions self (unsubscribe_request (sr_subscriptions self) service).1.
Definition ser_unsubscribe_response (self : SerialReceiver) (service : ServiceId) : SerialReceiver :=
  set_subscriptions self (unsubscribe_response (sr_subscriptions self) service).1.

(** ** Receiving *)

Context {Drv E : Type} `{ByteReceiveDriver Drv E}.

(** The loop over the bytes that the driver has; [alloc n] serves the [n]-th byte. *)
Fixpoint ser_receive_loop (fuel : nat) (p : profile) (alloc : nat → nat → allocator) (self : SerialReceiver)
    (now : I) (driver : Drv)
    : exec (SerialReceiver * Drv * result (SerialError E) (option (SerTransfer (list u8) I))) :=
  match fuel with
  | 0 => Panic
  | S fuel' =>
      '(driver, r) ← receive_byte driver;
      match r with
      | Ok byte =>
          '(self, r) ← handle_byte p (alloc fuel') self byte now;
          match r with
          | Ok (Some transfer) => Ret (self, driver, Ok (Some transfer))
          | Ok None => ser_receive_loop fuel' p alloc self now driver
          | Err e => Ret (self, driver, Err (SerMemory e))
          end
      | Err WouldBlock => Ret (self, driver, Ok None)
      | Err (Other e) => Ret (self, driver, Err (SerDriver e))
      end
  end.

Definition ser_receive (fuel : nat) (p : profile) (alloc : nat → nat → allocator) (self : SerialReceiver)
    (now : I) (driver : Drv)
    : exec (SerialReceiver * Drv * result (SerialError E) (option (SerTransfer (list u8) I))) :=
  self ← ser_clean_expired_sessions self now;
  ser_receive_loop fuel p alloc self now driver.
End rx.
Arguments State : clear implicits.
Arguments SerSession : clear implicits.
Arguments SerSubscription : clear implicits.
Arguments SerialReceiver : clear implicits.
