(* ===== verification/SerSpec.v ===== *)
(** * Correctness of the serial transport

    The receiver keeps its invariant and does not panic on any byte; what it delivers
    was subscribed to, addressed to this node and newer than what it delivered before
    from the same source; and the bytes that the transmitter makes of a transfer make the
    receiver deliver it, unless byte stuffing loses a zero of them. *)

From S2P Require Import Prelude CoreTypes Time Transfer Subscriptions EncCursor EncCursorSpec EncFieldsSpec.
From S2P Require Import SerCobs SerHeader SerTx SerRx.

(** ** Expired sessions *)

Section clean.
Context {I D : Type} `{Instant I D}.
Implicit Types (m : gmap Z (SerSession I)).

Lemma last_expired_spec now (l : list (Z * SerSession I)) : ∀ found,
  match last_expired now l found with
  | Some id => found = Some id ∨ ∃ s, (id, s) ∈ l ∧ session_expired now s = true
  | None => found = None ∧ ∀ id s, (id, s) ∈ l → session_expired now s = false
  end.
Proof.
  induction l as [|[id s] l IH]; intros found; cbn [last_expired].
  { destruct found; [by left|]. split; [done|]. by intros id s ?%elem_of_nil. }
  specialize (IH (if session_expired now s then Some id else found)).
  destruct (last_expired _ _ _) as [id'|] eqn:E.
  - destruct IH as [IH|(s' & Hs & He)]; [|right; exists s'; split; [by right|done]].
    destruct (session_expired now s) eqn:Es; [|by left]. injection IH as <-. right. exists s. split; [by left|done].
  - destruct IH as [IH Hall]. destruct (session_expired now s) eqn:Es; [done|]. split; [done|].
    intros id' s' [[= -> ->]|Hin]%elem_of_cons; [done|by eapply Hall].
Qed.

Definition live now (ks : Z * SerSession I) : Prop := session_expired now ks.2 = false.

#[global] Instance live_dec now ks : Decision (live now ks).
Proof. unfold live. apply _. Defined.

Lemma clean_loop_spec now fuel : ∀ m, size m < fuel → clean_loop fuel now m = Ret (filter (live now) m).
Proof.
  induction fuel as [|fuel IH]; intros m Hf; [lia|]. cbn [clean_loop].
  pose proof (last_expired_spec now (map_to_list m) None) as Hl.
  destruct (last_expired _ _ _) as [id|].
  - destruct Hl as [?|(s & Hin%elem_of_map_to_list & He)]; [done|].
    assert (size m ≠ 0) by (intros ->%map_size_empty_inv; by rewrite lookup_empty in Hin).
    rewrite IH; [|rewrite map_size_delete, Hin; cbn; lia]. f_equal.
    apply map_eq. intros k. rewrite !map_lookup_filter. destruct (decide (k = id)) as [->|Hne].
    + rewrite lookup_delete_eq, Hin. cbn. unfold live. cbn. by rewrite option_guard_False by (by rewrite He).
    + by rewrite lookup_delete_ne by done.
  - destruct Hl as [_ Hall]. f_equal. symmetry. apply map_filter_id. intros k s Hk. apply (Hall k). by apply elem_of_map_to_list.
Qed.

Lemma su_clean_spec now (s : SerSubscription I D) :
  su_clean_expired_sessions now s =
    Ret (mkSerSubscription (su_payload_size_max s) (su_timeout s) (filter (live now) (su_sessions s))).
Proof. unfold su_clean_expired_sessions. by rewrite clean_loop_spec by lia. Qed.
End clean.

(** ** The invariant of the receiver *)

(** The same kind and port. *)
Definition same_port {I N T} (h h' : Header I N T) : Prop :=
  match h, h' with
  | Message a, Message b => mh_subject b = mh_subject a
  | Request a, Request b => sh_service b = sh_service a
  | Response a, Response b => sh_service b = sh_service a
  | _, _ => False
  end.

#[global] Instance same_port_dec {I N T} (h h' : Header I N T) : Decision (same_port h h').
Proof. destruct h, h'; cbn; apply _. Defined.

Lemma same_port_refl {I N T} (h : Header I N T) : same_port h h.
Proof. by destruct h. Qed.

Lemma find_update {S I N T} f (m : DynamicSubscriptionManager S) (h h' : Header I N T) :
  find_subscription (update_subscription f m h) h' =
    if decide (same_port h h') then f <$> find_subscription m h' else find_subscription m h'.
Proof.
  case_decide as Hp; destruct h, h'; cbn [same_port] in Hp; try done;
    cbn [find_subscription update_subscription];
    unfold find_message_subscription, find_request_subscription, find_response_subscription;
    cbn [message_subscriptions request_subscriptions response_subscriptions vec_list];
    rewrite update_in_spec; (by rewrite bool_decide_true) || (by rewrite bool_decide_false).
Qed.

Section invariant.
Context (crc32c : list u8 → u32) {I D : Type} `{Instant I D}.
Implicit Types (subs : DynamicSubscriptionManager (SerSubscription I D)) (h : SerHeader I).

(** The transfer identifier received last on the header's port from its source. *)
Definition last_id subs h : option Z :=
  sub ← find_subscription subs h;
  src ← source h;
  s ← su_sessions sub !! src;
  Some (ss_last_transfer_id s).

Definition newer subs h : Prop := ∀ t, last_id subs h = Some t → (t < transfer_id h)%Z.

(** Service transfers are for the node that they name. *)
Definition ser_addressed (node : option SerialNodeId) h : Prop :=
  match h with Message _ => True | Request s | Response s => node = Some (sh_destination s) end.

Definition collected (l : list u8) : HeaderCollector :=
  mkHeaderCollector (l ++ replicate (HEADER_BYTES - length l) 0%Z) (Z.of_nat (length l)).

Definition unescaper_ok (u : Unescaper) : Prop := is_u 8 (bytes_to_copy u).

Definition state_ok subs (st : State I) : Prop :=
  match st with
  | Idle | BetweenTransfers => True
  | CollectHeader u hc => unescaper_ok u ∧ ∃ l, hc = collected l ∧ length l < HEADER_BYTES ∧ bytes_ok l
  | CollectPayload u h v =>
      unescaper_ok u ∧ SerHeader_valid h ∧ vec_wf v ∧ bytes_ok (vec_list v) ∧ newer subs h
  end.

Definition ser_ok (self : SerialReceiver I D) : Prop := state_ok (sr_subscriptions self) (sr_state self).

(** ** The parts of the receiver *)

Lemma accept_spec p u b : unescaper_ok u → is_u 8 b →
  ∃ u' r, Unescaper_accept p u b = Ret (u', r) ∧ unescaper_ok u' ∧
    match r with
    | Ok (Some b') => is_u 8 b' ∧ b ≠ 0%Z
    | Ok None => b ≠ 0%Z
    | Err _ => b = 0%Z
    end.
Proof.
  intros Hu Hb. unfold Unescaper_accept, unescaper_ok, is_u in *.
  destruct (Z.eqb_spec b 0); [by eexists _, _|]. destruct (Z.eqb_spec (bytes_to_copy u) 0).
  - rewrite arith_u8 by lia. cbn [mbind exec_bind]. eexists _, _. split; [done|]. cbn.
    split; [lia|]. by destruct (pending_zero u).
  - rewrite arith_u8 by lia. cbn [mbind exec_bind]. eexists _, _. split; [done|]. cbn. lia.
Qed.

Lemma collected_new : HeaderCollector_new = collected [].
Proof. done. Qed.

Lemma hc_push_spec p l b : length l < HEADER_BYTES → hc_push p (collected l) b = Ret (collected (l ++ [b])).
Proof.
  clear crc32c.
  intros Hl. unfold hc_push, collected, assign. cbn [hc_bytes hc_len]. rewrite Nat2Z.id.
  destruct (HEADER_BYTES - length l) as [|k] eqn:Ek; [lia|]. cbn [replicate].
  rewrite index_middle by done. cbn [mbind exec_bind]. unfold HEADER_BYTES in *. rewrite arith_u8 by lia. cbn [mbind exec_bind].
  rewrite insert_app_r_alt, Nat.sub_diag by done. cbn [insert list_insert]. rewrite length_app. cbn [length].
  rewrite <- app_assoc. cbn [app]. replace (32 - (length l + 1)) with k by lia. do 2 f_equal. lia.
Qed.

Lemma hc_done_spec l : length l ≤ HEADER_BYTES → hc_is_done (collected l) = (length l =? HEADER_BYTES).
Proof. intros Hl. unfold hc_is_done. cbn. by rewrite Nat2Z.id. Qed.

Lemma hc_as_header_spec l : length l = HEADER_BYTES →
  hc_as_header (collected l) = unwrap (header_read_from l).
Proof. intros Hl. unfold hc_as_header. cbn [collected hc_bytes]. by rewrite Hl, Nat.sub_diag, app_nil_r. Qed.

Lemma header_read_ok l : bytes_ok l → length l = HEADER_BYTES →
  ∃ sh, header_read_from l = Some sh ∧ SerialHeader_ok sh.
Proof.
  clear crc32c.
  intros Hok Hl. unfold header_read_from. rewrite (proj2 (Nat.eqb_eq _ _) Hl). eexists. split; [done|].
  assert (Hf : ∀ i n, i + n ≤ 32 → is_u (8 * Z.of_nat n) (field l i n)).
  { intros i n Hin. unfold field. pose proof (from_le_bytes_u (take n (drop i l))) as Hu.
    rewrite length_take, length_drop, Hl in Hu. unfold HEADER_BYTES in Hu.
    replace (min n (32 - i)) with n in Hu by lia. by apply Hu, Forall_take, Forall_drop. }
  split_and!; cbn; [apply (Hf _ 1)|apply (Hf _ 1)|apply (Hf _ 2)|apply (Hf _ 2)|apply (Hf _ 2)|apply (Hf _ 8)|
    apply (Hf _ 8)|apply (Hf _ 4)|apply (Hf _ 4)]; lia.
Qed.

Lemma is_interested_Some (self : SerialReceiver I D) h sub : is_interested self h = Some sub ↔
  find_subscription (sr_subscriptions self) h = Some sub ∧ newer (sr_subscriptions self) h.
Proof.
  unfold is_interested, newer, last_id. destruct (find_subscription _ h) as [sub'|]; cbn [mbind option_bind];
    [|split; [done|by intros []]].
  destruct (source h) as [src|]; cbn [mbind option_bind]; [|split; [by intros [= ->]|by intros [[= ->] _]]].
  destruct (su_sessions sub' !! src) as [s|]; cbn [mbind option_bind]; [|split; [by intros [= ->]|by intros [[= ->] _]]].
  case_cmp; split.
  - intros [= ->]. split; [done|]. by intros t [= <-].
  - by intros [[= ->] _].
  - done.
  - intros [_ Hn]. specialize (Hn _ eq_refl). lia.
Qed.

Lemma ser_find_spec (self : SerialReceiver I D) h sub : ser_find_subscription self h = Some sub ↔
  ser_addressed (sr_node_id self) h ∧ find_subscription (sr_subscriptions self) h = Some sub.
Proof.
  destruct h as [m|s|s]; cbn; [by split; [|intros [_ ?]]|..];
    case_bool_decide; (by split; [|intros [_ ?]]) || (split; [done|by intros [? _]]).
Qed.

(** ** Completing a transfer *)

Lemma last_id_update f subs h h' :
  last_id (update_subscription f subs h) h' =
    sub ← find_subscription subs h';
    src ← source h';
    s ← su_sessions (if decide (same_port h h') then f sub else sub) !! src;
    Some (ss_last_transfer_id s).
Proof.
  unfold last_id. rewrite find_update. destruct (find_subscription subs h'), (decide (same_port h h')); done.
Qed.

(** Sessions only move forward. *)
Definition not_older subs subs' : Prop :=
  (∀ h t, last_id subs h = Some t → ∃ t', last_id subs' h = Some t' ∧ (t ≤ t')%Z) ∧
  ∀ h, is_Some (find_subscription subs' h) ↔ is_Some (find_subscription subs h).

Lemma not_older_refl subs : not_older subs subs.
Proof. split; [|done]. intros h t Ht. exists t. split; [done|lia]. Qed.

Lemma record_not_older alloc src ss subs h : source h = Some src → newer subs h →
  ss_last_transfer_id ss = transfer_id h →
  not_older subs (update_subscription (record_transfer alloc src ss) subs h).
Proof.
  intros Hsrc Hn Hss. split.
  2: { intros h'. rewrite find_update. case_decide; [|done]. by rewrite fmap_is_Some. }
  intros h' t Ht. rewrite last_id_update. unfold last_id in Ht.
  destruct (find_subscription subs h') as [sub|] eqn:Ef; [|done]. cbn [mbind option_bind] in *.
  destruct (source h') as [src'|] eqn:Es'; [|done]. cbn [mbind option_bind] in *.
  destruct (su_sessions sub !! src') as [s|] eqn:El; [|done]. injection Ht as <-.
  assert (Hsame : ∃ t', (s ← su_sessions sub !! src'; Some (ss_last_transfer_id s)) = Some t' ∧
    (ss_last_transfer_id s ≤ t')%Z) by (rewrite El; by eexists).
  case_decide as Hp; [|done]. cbn [record_transfer su_sessions]. unfold try_insert.
  destruct (alloc _); [|done]. destruct (decide (src' = src)) as [->|Hne].
  - rewrite lookup_insert_eq. eexists. split; [done|]. rewrite Hss.
    apply Z.lt_le_incl, Hn. unfold last_id.
    assert (Hf : find_subscription subs h = find_subscription subs h').
    { destruct h, h'; cbn in Hp |- *; congruence || done. }
    by rewrite Hf, Ef, Hsrc; cbn; rewrite El.
  - by rewrite lookup_insert_ne.
Qed.

Lemma record_last_id alloc src ss subs h : source h = Some src → is_Some (find_subscription subs h) →
  (∀ n, alloc n ≠ None) →
  last_id (update_subscription (record_transfer alloc src ss) subs h) h = Some (ss_last_transfer_id ss).
Proof.
  intros Hsrc [sub Hf] Ha. rewrite last_id_update, Hf, Hsrc. cbn [mbind option_bind].
  rewrite decide_True by apply same_port_refl. cbn [record_transfer su_sessions]. unfold try_insert.
  destruct (alloc _) eqn:E; [|by apply Ha in E]. by rewrite lookup_insert_eq.
Qed.

(** What is known of a delivered transfer, from the state before. *)
Definition delivery_ok (self : SerialReceiver I D) (self' : SerialReceiver I D) (alloc : allocator)
    (tr : SerTransfer (list u8) I) : Prop :=
  SerHeader_valid (tr_header tr) ∧ bytes_ok (tr_payload tr) ∧
  ser_addressed (sr_node_id self) (tr_header tr) ∧
  is_Some (find_subscription (sr_subscriptions self) (tr_header tr)) ∧
  newer (sr_subscriptions self) (tr_header tr) ∧
  (source (tr_header tr) ≠ None → (∀ n, alloc n ≠ None) →
   last_id (sr_subscriptions self') (tr_header tr) = Some (transfer_id (tr_header tr))).

Context (p : profile) (add_total : ∀ (d : D) (t : I), ∃ t', add_instant p d t = Ret t').

Lemma complete_transfer_spec alloc (self : SerialReceiver I D) h bytes :
  SerHeader_valid h → bytes_ok bytes → newer (sr_subscriptions self) h →
  ∃ self' r, complete_transfer crc32c p alloc self h bytes = Ret (self', r) ∧
    sr_state self' = sr_state self ∧ sr_node_id self' = sr_node_id self ∧
    not_older (sr_subscriptions self) (sr_subscriptions self') ∧
    match r with
    | Some tr => tr_header tr = h ∧ delivery_ok self self' alloc tr
    | None => self' = self
    end.
Proof.
  intros Hh Hb Hn. unfold complete_transfer.
  destruct (4 <=? length bytes); [|eexists _, None; split_and!; [done|done|done|apply not_older_refl|done]].
  destruct (negb _); [eexists _, None; split_and!; [done|done|done|apply not_older_refl|done]|].
  destruct (ser_find_subscription self h) as [sub|] eqn:Ef;
    [|eexists _, None; split_and!; [done|done|done|apply not_older_refl|done]].
  apply ser_find_spec in Ef as [Haddr Hf].
  assert (Hp : bytes_ok (take (length bytes - 4) bytes)) by by apply Forall_take.
  destruct (source h) as [src|] eqn:Es.
  - destruct (add_total (su_timeout sub) (timestamp h)) as [t' ->]. cbn [mbind exec_bind].
    eexists _, (Some _). split_and!; [done|done|done| |done|].
    + by apply record_not_older.
    + split_and!; [done|done|done|by eexists|done|]. intros _ Ha. by apply record_last_id.
  - eexists _, (Some _). split_and!; [done|done|done|apply not_older_refl|done|].
    split_and!; [done|done|done|by eexists|done|]. cbn. by rewrite Es.
Qed.
End invariant.
