(* ===== verification/SerLink.v ===== *)
(** * The serial receiver on streams of bytes

    One byte at a time the receiver keeps its invariant and does not panic. Lifted to
    streams: transfers from a source on a port are delivered in increasing order of their
    identifiers, and the bytes that the transmitter makes of a transfer make the receiver
    deliver it. *)

From S2P Require Import Prelude CoreTypes Time Transfer Subscriptions EncCursor EncCursorSpec EncFieldsSpec.
From S2P Require Import SerCobs SerHeader SerTx SerRx SerSpec.

Section link.
Context (crc32c : list u8 → u32) {I D : Type} `{Instant I D}.
Context (p : profile) (add_total : ∀ (d : D) (t : I), ∃ t', add_instant p d t = Ret t').
Implicit Types (self : SerialReceiver I D) (h : SerHeader I) (subs : DynamicSubscriptionManager (SerSubscription I D)).

(** ** One byte *)

(** What one byte does to the receiver. *)
Definition byte_result alloc self self' (r : result OutOfMemoryError (option (SerTransfer (list u8) I))) : Prop :=
  ser_ok self' ∧ sr_node_id self' = sr_node_id self ∧
  not_older (sr_subscriptions self) (sr_subscriptions self') ∧
  match r with
  | Ok (Some tr) => delivery_ok self self' (alloc 1) tr
  | Ok None => sr_subscriptions self' = sr_subscriptions self
  | Err _ => self' = set_state self Idle ∧ ∃ n, alloc 0 n = None
  end.

Definition returns alloc self (m : exec (SerialReceiver I D * result OutOfMemoryError _)) : Prop :=
  ∃ self' r, m = Ret (self', r) ∧ byte_result alloc self self' r.

Lemma returns_stay alloc self s : state_ok (sr_subscriptions self) s →
  returns alloc self (Ret (set_state (set_state self Idle) s, Ok None)).
Proof. intros Hs. eexists _, _. unfold byte_result. split_and!; [done|exact Hs|done|apply not_older_refl|done]. Qed.

Lemma returns_complete alloc self s h bytes : s = Idle ∨ s = BetweenTransfers →
  SerHeader_valid h → bytes_ok bytes → newer (sr_subscriptions self) h →
  returns alloc self
    ('(self', transfer) ← complete_transfer crc32c p (alloc 1) (set_state (set_state self Idle) s) h bytes;
     Ret (self', Ok transfer)).
Proof.
  intros Hs Hh Hb Hn.
  destruct (complete_transfer_spec crc32c p add_total (alloc 1) (set_state (set_state self Idle) s)
    h bytes) as (self' & r & -> & Hst & Hid & Hold & Hr); [done..|]. cbn [mbind exec_bind].
  exists self', (Ok r). unfold byte_result. split_and!; [done| |done|done|].
  - unfold ser_ok. rewrite Hst. by destruct Hs as [-> | ->].
  - destruct r as [tr|]; [by destruct Hr|by rewrite Hr].
Qed.

Lemma handle_header_byte alloc self u l byte now :
  sr_state self = CollectHeader u (collected l) → unescaper_ok u → length l < HEADER_BYTES → bytes_ok l →
  is_u 8 byte → alloc_ok (alloc 0) → returns alloc self (handle_byte crc32c p alloc self byte now).
Proof.
  intros Hst Hu Hl Hlok Hbyte Ha. unfold handle_byte. rewrite Hst.
  destruct (accept_spec p u byte) as (u' & [[b|]|] & -> & Hu' & Hr); [done|done|..]; cbn [mbind exec_bind];
    [|by apply returns_stay; split; [|exists l]|by apply returns_stay].
  rewrite hc_push_spec by done. cbn [mbind exec_bind].
  assert (Hlok' : bytes_ok (l ++ [b])) by (apply Forall_app; split; [done|by apply Forall_singleton, Hr]).
  assert (Hlen : length (l ++ [b]) = S (length l)) by (rewrite length_app; cbn; lia).
  rewrite hc_done_spec by lia. destruct (Nat.eqb_spec (length (l ++ [b])) HEADER_BYTES) as [E|E].
  2: { apply returns_stay. split; [done|]. exists (l ++ [b]). split_and!; [done|lia|done]. }
  rewrite hc_as_header_spec by done. destruct (header_read_ok _ Hlok' E) as (sh & -> & Hsh).
  cbn [unwrap mbind exec_bind]. destruct (into_header _ _ _) as [h|] eqn:Eh; [|by apply returns_stay].
  apply into_header_valid in Eh as [Hh _]; [|done].
  destruct (is_interested _ _) as [sub|] eqn:Ei; [|by apply returns_stay].
  apply is_interested_Some in Ei as [Hf Hn]. unfold vec_with_capacity.
  rewrite (proj2 (Nat.eqb_neq (su_payload_size_max sub + 4) 0)) by lia.
  destruct (alloc 0 _) as [c|] eqn:Ec; cbn [fmap option_fmap option_map].
  - apply returns_stay. split_and!; [done|done| |constructor|done]. unfold vec_wf. cbn. lia.
  - eexists _, _. unfold byte_result. split_and!; [done|done|done|apply not_older_refl|split; [done|by eexists]].
Qed.

Lemma handle_byte_spec alloc self byte now :
  ser_ok self → is_u 8 byte → alloc_ok (alloc 0) →
  returns alloc self (handle_byte crc32c p alloc self byte now).
Proof.
  intros Hok Hbyte Ha. unfold ser_ok in Hok.
  destruct (sr_state self) as [| |u hc|u h v] eqn:Hst; cbn [state_ok] in Hok.
  - unfold handle_byte. rewrite Hst. apply returns_stay. by destruct (byte =? 0)%Z.
  - unfold handle_byte. rewrite Hst. destruct (Z.eqb_spec byte 0) as [->|Hb0]; cbn [negb]; [by apply returns_stay|].
    destruct (accept_spec p Unescaper_new byte) as (u & [[b|]|] & -> & Hu & Hr);
      [by unfold unescaper_ok, is_u|done|..]; cbn [mbind exec_bind]; [| |done].
    + rewrite collected_new, hc_push_spec by (cbn; unfold HEADER_BYTES; lia). apply returns_stay. split; [done|].
      exists [b]. split_and!; [done|cbn; unfold HEADER_BYTES; lia|]. by apply Forall_singleton, Hr.
    + apply returns_stay. split; [done|]. exists []. split_and!; [done|cbn; unfold HEADER_BYTES; lia|constructor].
  - destruct Hok as (Hu & l & -> & Hl & Hlok). by eapply handle_header_byte.
  - unfold handle_byte. rewrite Hst. destruct Hok as (Hu & Hh & Hv & Hvok & Hn).
    destruct (accept_spec p u byte) as (u' & [[b|]|] & -> & Hu' & Hr); [done|done|..]; cbn [mbind exec_bind];
      [|by apply returns_stay|by apply returns_complete; auto].
    unfold vec_len. destruct (Nat.eqb_spec (length (vec_list v)) (vec_cap v)); [by apply returns_complete; auto|].
    apply returns_stay. split_and!; [done|done| | |done].
    + unfold vec_wf in *. cbn. rewrite length_app. cbn. lia.
    + cbn. apply Forall_app. split; [done|]. by apply Forall_singleton, Hr.
Qed.

(** ** Streams of bytes *)

(** A byte, the time at which it arrives and the state of the allocator. *)
Record event := mkEvent { ev_now : I; ev_byte : u8; ev_alloc : nat → allocator }.

(** The receiver after the bytes, and the transfers that it has delivered. *)
Fixpoint feed self (input : list event) : exec (SerialReceiver I D * list (SerTransfer (list u8) I)) :=
  match input with
  | [] => Ret (self, [])
  | e :: rest =>
      '(self, r) ← handle_byte crc32c p (ev_alloc e) self (ev_byte e) (ev_now e);
      '(self, delivered) ← feed self rest;
      Ret (self, match r with Ok (Some tr) => tr :: delivered | _ => delivered end)
  end.

Definition event_ok (e : event) : Prop := is_u 8 (ev_byte e) ∧ alloc_ok (ev_alloc e 0).

Lemma feed_app l1 : ∀ self self' l2 out, feed self l1 = Ret (self', out) →
  feed self (l1 ++ l2) = '(self, out') ← feed self' l2; Ret (self, out ++ out').
Proof.
  induction l1 as [|e l1 IH]; intros self self' l2 out; cbn [feed app].
  { intros [= <- <-]. by destruct (feed _ _) as [[]|]. }
  destruct (handle_byte _ _ _ _ _ _) as [[self1 r]|]; cbn [mbind exec_bind]; [|done].
  destruct (feed self1 l1) as [[self2 out1]|] eqn:E; cbn [mbind exec_bind]; [|done].
  intros [= <- <-]. rewrite (IH _ _ _ _ E). destruct (feed self2 l2) as [[]|]; cbn [mbind exec_bind]; [|done].
  by destruct r as [[]|].
Qed.

Lemma last_id_same subs h h' : same_port h h' → source h = source h' → last_id subs h = last_id subs h'.
Proof.
  intros Hp Hs. unfold last_id. rewrite Hs.
  assert (find_subscription subs h = find_subscription subs h') as ->; [|done].
  destruct h, h'; cbn in Hp |- *; congruence || done.
Qed.

Lemma newer_older subs subs' h : not_older subs subs' → newer subs' h → newer subs h.
Proof. intros [Ho _] Hn t (t' & Ht' & Hle)%Ho. specialize (Hn _ Ht'). lia. Qed.

Lemma feed_spec input : ∀ self, ser_ok self → Forall event_ok input →
  ∃ self' out, feed self input = Ret (self', out) ∧ ser_ok self' ∧
    sr_node_id self' = sr_node_id self ∧ not_older (sr_subscriptions self) (sr_subscriptions self') ∧
    Forall (λ tr, newer (sr_subscriptions self) (tr_header tr)) out ∧
    ((∀ e n, e ∈ input → ev_alloc e 1 n ≠ None) →
     ∀ i j a b, i < j → out !! i = Some a → out !! j = Some b → same_port (tr_header a) (tr_header b) →
       source (tr_header a) ≠ None → source (tr_header a) = source (tr_header b) →
       (transfer_id (tr_header a) < transfer_id (tr_header b))%Z).
Proof.
  induction input as [|e input IH]; intros self Hok Hin.
  { eexists _, []. split_and!; [done|done|done|apply not_older_refl|done|done]. }
  apply Forall_cons in Hin as [[Hb Ha] Hin]. cbn [feed].
  destruct (handle_byte_spec (ev_alloc e) self (ev_byte e) (ev_now e)) as (self1 & r & -> & Hok1 & Hid1 & Hold1 & Hr);
    [done..|]. cbn [mbind exec_bind].
  destruct (IH self1 Hok1 Hin) as (self2 & out & -> & Hok2 & Hid2 & Hold2 & Hnew & Hsort). cbn [mbind exec_bind].
  assert (Hnew' : Forall (λ tr, newer (sr_subscriptions self) (tr_header tr)) out)
    by (eapply Forall_impl; [exact Hnew|]; intros tr; by apply newer_older).
  assert (Hold : not_older (sr_subscriptions self) (sr_subscriptions self2)).
  { split; [|intros h; by rewrite (proj2 Hold2), (proj2 Hold1)].
    intros h t (t1 & Ht1 & Hle1)%(proj1 Hold1). apply (proj1 Hold2) in Ht1 as (t2 & Ht2 & Hle2).
    exists t2. split; [done|lia]. }
  eexists _, _. split; [done|]. split_and!; [done|congruence|done|..].
  - destruct r as [[tr|]|]; [|done..]. constructor; [|done]. apply Hr.
  - intros Hmem. assert (Hsort' := Hsort (λ e' n He, Hmem e' n (proj2 (elem_of_cons _ _ _) (or_intror He)))).
    destruct r as [[tr|]|]; [|exact Hsort'..].
    intros [|i] [|j] a b Hij Hi Hj; [lia| |lia|by apply (Hsort' i j); [lia|..]]. cbn in Hi, Hj. injection Hi as <-.
    intros Hp Hs1 Hs2. destruct Hr as (_ & _ & _ & _ & _ & Hlast).
    apply list_elem_of_lookup_2 in Hj. rewrite Forall_forall in Hnew.
    apply (Hnew _ Hj). rewrite <- (last_id_same _ _ _ Hp Hs2). apply Hlast; [done|].
    intros n. apply Hmem. by left.
Qed.

(** ** A whole frame *)

Lemma set_state_same self st : sr_state self = st → set_state self st = self.
Proof. intros <-. by destruct self. Qed.

Lemma find_set_timestamp {S} (m : DynamicSubscriptionManager S) t h :
  find_subscription m (set_timestamp t h) = find_subscription m h.
Proof. by destruct h. Qed.

Lemma newer_set_timestamp subs t h : newer subs (set_timestamp t h) ↔ newer subs h.
Proof.
  unfold newer. destruct (set_timestamp_fields t h) as (_ & _ & Hs & _ & ->).
  rewrite (last_id_same subs (set_timestamp t h) h); [done| |done]. by destruct h.
Qed.

(** The steps of the decoder on a sequence of bytes that has no error. *)
Lemma unescape_all_cons u b bs u' out : unescape_all p u (b :: bs) = Ret (u', Ok out) →
  ∃ u1 o out', Unescaper_accept p u b = Ret (u1, Ok o) ∧ unescape_all p u1 bs = Ret (u', Ok out') ∧
    out = option_list o ++ out'.
Proof.
  cbn [unescape_all]. destruct (Unescaper_accept p u b) as [[u1 [o|e]]|]; cbn [mbind exec_bind]; [|done..].
  destruct (unescape_all p u1 bs) as [[u2 [out'|e]]|] eqn:E; cbn [mbind exec_bind]; [|done..].
  intros [= -> <-]. by exists u1, o, out'.
Qed.

Lemma feed_payload input : ∀ self u h v u' out, sr_state self = CollectPayload u h v →
  unescape_all p u (ev_byte <$> input) = Ret (u', Ok out) → length (vec_list v) + length out ≤ vec_cap v →
  feed self input = Ret (set_state self (CollectPayload u' h (mkVec (vec_list v ++ out) (vec_cap v))), []).
Proof.
  induction input as [|e input IH]; intros self u h v u' out Hst Hun Hlen.
  { injection Hun as <- <-. cbn [feed]. rewrite app_nil_r. f_equal. f_equal.
    rewrite set_state_same; [done|]. by destruct v. }
  rewrite fmap_cons in Hun. apply unescape_all_cons in Hun as (u1 & o & out' & Hacc & Hun & ->).
  rewrite length_app in Hlen. cbn [feed]. unfold handle_byte. rewrite Hst, Hacc. cbn [mbind exec_bind].
  destruct o as [b|]; cbn in Hlen.
  - unfold vec_len. rewrite (proj2 (Nat.eqb_neq _ _)) by lia. cbn [mbind exec_bind option_list app].
    erewrite IH; [|done|exact Hun|cbn; rewrite length_app; cbn; lia]. cbn. by rewrite <- app_assoc.
  - cbn [mbind exec_bind option_list app]. by erewrite IH; [|done|exact Hun|lia].
Qed.

Context (h : SerHeader I) (sh : SerialHeader) (hb rest : list u8) (sub : SerSubscription I D).
Context (Hhb : length hb = HEADER_BYTES) (Hread : header_read_from hb = Some sh).
Context (Hinto : ∀ t : I, into_header crc32c sh t = Ok (set_timestamp t h)).
Context (Hfit : length rest ≤ su_payload_size_max sub + 4).

Definition wanted self : Prop := find_subscription (sr_subscriptions self) h = Some sub ∧ newer (sr_subscriptions self) h.

Definition memory_for (e : event) : Prop :=
  ∃ c, ev_alloc e 0 (su_payload_size_max sub + 4) = Some c ∧ su_payload_size_max sub + 4 ≤ c.

Lemma feed_header input : ∀ self u l u' out, sr_state self = CollectHeader u (collected l) →
  length l < HEADER_BYTES → wanted self → Forall memory_for input →
  unescape_all p u (ev_byte <$> input) = Ret (u', Ok out) → l ++ out = hb ++ rest →
  ∃ t cap, t ∈ ev_now <$> input ∧
    feed self input = Ret (set_state self (CollectPayload u' (set_timestamp t h) (mkVec rest cap)), []).
Proof.
  induction input as [|e input IH]; intros self u l u' out Hst Hl Hw Hmem Hun Hout.
  { injection Hun as <- <-. apply (f_equal length) in Hout. rewrite !length_app in Hout. cbn in Hout. lia. }
  apply Forall_cons in Hmem as [(c & Hc & Hcap) Hmem].
  rewrite fmap_cons in Hun. rewrite fmap_cons. apply unescape_all_cons in Hun as (u1 & o & out' & Hacc & Hun & ->).
  cbn [feed]. unfold handle_byte. rewrite Hst, Hacc. cbn [mbind exec_bind].
  destruct o as [b|]; cbn in Hout.
  2: { destruct (IH (set_state self (CollectHeader u1 (collected l))) u1 l u' out') as (t & cap & Ht & Hf); [done..|].
       exists t, cap. split; [by right|]. cbn [mbind exec_bind]. unfold set_state in Hf |- *. cbn in Hf |- *.
       by rewrite Hf. }
  rewrite hc_push_spec by done. cbn [mbind exec_bind].
  assert (Hlen : length (l ++ [b]) = S (length l)) by (rewrite length_app; cbn; lia).
  change (b :: out') with ([b] ++ out') in Hout. rewrite app_assoc in Hout.
  rewrite hc_done_spec by lia. destruct (Nat.eqb_spec (length (l ++ [b])) HEADER_BYTES) as [E|E].
  - apply app_inj_1 in Hout as [-> ->]; [|congruence]. rewrite hc_as_header_spec, Hread by done.
    cbn [unwrap mbind exec_bind]. rewrite Hinto.
    assert (Hi : is_interested (set_state self Idle) (set_timestamp (ev_now e) h) = Some sub).
    { apply is_interested_Some. rewrite find_set_timestamp, newer_set_timestamp. apply Hw. }
    rewrite Hi. unfold vec_with_capacity. rewrite (proj2 (Nat.eqb_neq (su_payload_size_max sub + 4) 0)) by lia.
    rewrite Hc. cbn [fmap option_fmap option_map mbind exec_bind].
    exists (ev_now e), c. split; [by left|]. erewrite feed_payload; [|done|exact Hun|cbn; lia]. done.
  - cbn [mbind exec_bind].
    destruct (IH (set_state self (CollectHeader u1 (collected (l ++ [b])))) u1 (l ++ [b]) u' out') as (t & cap & Ht & Hf);
      [done|lia|done..|].
    exists t, cap. split; [by right|]. unfold set_state in Hf |- *. cbn in Hf |- *. by rewrite Hf.
Qed.
End link.
Arguments mkEvent {I}.
Arguments event : clear implicits.

(** ** From any state to a delivery *)

Section deliver.
Context (crc32c : list u8 → u32) {I D : Type} `{Instant I D}.
Context (p : profile) (add_total : ∀ (d : D) (t : I), ∃ t', add_instant p d t = Ret t').
Implicit Types (self : SerialReceiver I D) (h : SerHeader I).

(** The receiver waits for the header [h]; its subscription allows [m] bytes. *)
Definition waits_for self h (m : usize) : Prop :=
  (∃ sub, find_subscription (sr_subscriptions self) h = Some sub ∧ su_payload_size_max sub = m) ∧
  newer (sr_subscriptions self) h.

(** A transfer with header [h'] does not affect the session of [h]. *)
Definition unrelated h' h : Prop := ¬ (same_port h' h ∧ source h' = source h).

Lemma record_waits alloc self h h' src ss m st : source h' = Some src → unrelated h' h → waits_for self h m →
  waits_for (mkSerialReceiver st (sr_node_id self)
    (update_subscription (record_transfer alloc src ss) (sr_subscriptions self) h')) h m.
Proof.
  intros Hsrc Hun [(sub & Hf & Hm) Hn]. split; cbn [sr_subscriptions].
  - rewrite find_update, Hf. case_decide; (eexists; split; [done|]); done.
  - intros t. rewrite last_id_update. unfold newer, last_id in Hn. rewrite Hf in Hn |- *.
    cbn [mbind option_bind] in *. destruct (source h) as [src'|] eqn:Es; [|done]. cbn [mbind option_bind] in *.
    case_decide as Hp; [|apply Hn]. cbn [record_transfer su_sessions]. unfold try_insert.
    destruct (alloc _); [|apply Hn]. rewrite lookup_insert_ne; [apply Hn|].
    intros ->. apply Hun. split; [done|congruence].
Qed.

Lemma complete_waits alloc self h h' bytes self' r m : unrelated h' h → waits_for self h m →
  complete_transfer crc32c p alloc self h' bytes = Ret (self', r) → waits_for self' h m.
Proof.
  intros Hun Hw. unfold complete_transfer. destruct (4 <=? length bytes); [|by intros [= <- <-]].
  destruct (negb _); [by intros [= <- <-]|]. destruct (ser_find_subscription self h'); [|by intros [= <- <-]].
  destruct (source h') eqn:Es; [|by intros [= <- <-]]. intros (t & _ & [= <- <-])%exec_bind_Ret.
  by apply record_waits.
Qed.

Lemma first_zero (e : event I) self h m : ev_byte e = 0%Z → ser_ok self → waits_for self h m →
  (∀ u h' v, sr_state self = CollectPayload u h' v → unrelated h' h) →
  ∃ self' pending, feed crc32c p self [e] = Ret (self', pending) ∧ length pending ≤ 1 ∧
    waits_for self' h m ∧ sr_node_id self' = sr_node_id self ∧
    sr_state self' = match sr_state self with CollectHeader _ _ => Idle | _ => BetweenTransfers end.
Proof.
  intros He Hok Hw Hpend. unfold ser_ok in Hok. cbn [feed]. rewrite He. unfold handle_byte.
  destruct (sr_state self) as [| |u hc|u h' v]; cbn [state_ok] in Hok.
  - eexists _, []. by split_and!; [done|cbn; lia|..].
  - eexists _, []. by split_and!; [done|cbn; lia|..].
  - unfold Unescaper_accept. cbn [Z.eqb mbind exec_bind]. eexists _, []. by split_and!; [done|cbn; lia|..].
  - destruct Hok as (_ & Hh' & _ & Hv & Hn). unfold Unescaper_accept. cbn [Z.eqb mbind exec_bind].
    destruct (complete_transfer_spec crc32c p add_total (ev_alloc e 1) (set_state (set_state self Idle) BetweenTransfers)
      h' (vec_list v)) as (self' & r & Hc & Hst & Hid & _ & _); [done..|].
    rewrite Hc. cbn [mbind exec_bind]. eexists _, _. split_and!; [done|destruct r; cbn; lia| |done|done].
    eapply (complete_waits _ (set_state (set_state self Idle) BetweenTransfers)); [by eapply Hpend|exact Hw|exact Hc].
Qed.

Lemma feed_zeros (input : list (event I)) self : sr_state self = BetweenTransfers →
  Forall (λ e, ev_byte e = 0%Z) input → feed crc32c p self input = Ret (self, []).
Proof.
  intros Hst. induction 1 as [|e input He _ IH]; [done|]. cbn [feed]. unfold handle_byte. rewrite Hst, He.
  cbn [Z.eqb negb mbind exec_bind].
  change (set_state (set_state self Idle) BetweenTransfers) with (set_state self BetweenTransfers).
  rewrite set_state_same by done. by rewrite IH.
Qed.

(** The first byte of a frame finds an empty header. *)
Lemma between_header (e : event I) input self : sr_state self = BetweenTransfers → ev_byte e ≠ 0%Z →
  feed crc32c p self (e :: input) =
    feed crc32c p (set_state self (CollectHeader Unescaper_new (collected []))) (e :: input).
Proof.
  intros Hst He. cbn [feed]. unfold handle_byte. rewrite Hst. cbn [sr_state set_state].
  unfold Unescaper_accept. cbn [bytes_to_copy Unescaper_new pending_zero].
  rewrite (proj2 (Z.eqb_neq _ _)) by done. cbn [negb Z.eqb].
  by destruct (arith p 8 (ev_byte e - 1)).
Qed.

Context (crc32c_u32 : ∀ l, bytes_ok l → is_u 32 (crc32c l)).

(** The bytes of a frame take the receiver from between transfers to the whole payload. *)
Lemma feed_frame (input : list (event I)) self h payload sub :
  sr_state self = BetweenTransfers → SerHeader_valid h → bytes_ok payload →
  find_subscription (sr_subscriptions self) h = Some sub → newer (sr_subscriptions self) h →
  length payload ≤ su_payload_size_max sub →
  ev_byte <$> input = blocks [] (frame_bytes crc32c h payload) →
  Forall (memory_for sub) input → ¬ zero_after_full_run (frame_bytes crc32c h payload) →
  ∃ t cap u, t ∈ ev_now <$> input ∧ feed crc32c p self input =
    Ret (set_state self (CollectPayload u (set_timestamp t h)
      (mkVec (payload ++ to_le_bytes 4 (make_payload_crc crc32c payload)) cap)), []).
Proof.
  intros Hst Hh Hp Hf Hn Hfit Hin Hmem Hz.
  assert (Hok := frame_bytes_ok crc32c h payload Hp).
  destruct (unescape_blocks p (frame_bytes crc32c h payload) [] false) as [u Hu]; [cbn; lia|constructor|done|].
  cbn [app length] in Hu. rewrite (proj2 (kept_all _) Hz), <- Hin in Hu.
  assert (Hcode := blocks_ok _ [] (Nat.le_0_l _) (Forall_nil_2 _) Hok). rewrite <- Hin in Hcode.
  destruct input as [|e input].
  { pose proof (blocks_length [] (frame_bytes crc32c h payload)) as Hl. rewrite <- Hin in Hl. cbn in Hl. lia. }
  rewrite fmap_cons, Forall_cons in Hcode. destruct Hcode as [[_ He] _]. rewrite between_header by done.
  destruct (feed_header crc32c p h (SerialHeader_from crc32c h) (header_as_bytes (SerialHeader_from crc32c h))
    (payload ++ to_le_bytes 4 (make_payload_crc crc32c payload)) sub) with
    (input := e :: input) (self := set_state self (CollectHeader Unescaper_new (collected [])))
    (u := Unescaper_new) (l := @nil u8) (u' := u) (out := frame_bytes crc32c h payload) as (t & cap & Ht & Hfeed).
  - apply length_header_as_bytes.
  - by apply header_read_as_bytes, SerialHeader_from_ok.
  - intros t. by apply into_header_from.
  - rewrite length_app, to_le_bytes_length. lia.
  - done.
  - cbn. unfold HEADER_BYTES. lia.
  - done.
  - done.
  - exact Hu.
  - done.
  - exists t, cap, u. split; [done|]. exact Hfeed.
Qed.

(** The end of the frame. *)
Lemma last_zero (e : event I) self u h v payload m : ev_byte e = 0%Z → is_u 32 (crc32c payload) →
  sr_state self = CollectPayload u h v → waits_for self h m → ser_addressed (sr_node_id self) h →
  vec_list v = payload ++ to_le_bytes 4 (make_payload_crc crc32c payload) →
  ∃ self', feed crc32c p self [e] = Ret (self', [mkTransfer h payload]) ∧ sr_state self' = BetweenTransfers.
Proof.
  intros He Hcrc Hst [(sub & Hf & _) _] Haddr Hv. cbn [feed]. rewrite He. unfold handle_byte. rewrite Hst, Hv.
  unfold Unescaper_accept. cbn [Z.eqb mbind exec_bind]. unfold complete_transfer.
  set (crc := make_payload_crc crc32c payload) in *.
  assert (Hlen : length (payload ++ to_le_bytes 4 crc) = length payload + 4)
    by (by rewrite length_app, to_le_bytes_length).
  rewrite Hlen, (proj2 (Nat.leb_le _ _)) by lia. rewrite Nat.add_sub, take_app_length, drop_app_length, from_to_le_bytes.
  rewrite wrap_small by done. fold crc. rewrite Z.eqb_refl. cbn [negb].
  assert (Hs : ser_find_subscription (set_state (set_state self Idle) BetweenTransfers) h = Some sub)
    by (apply ser_find_spec; by split).
  rewrite Hs. destruct (source h).
  - destruct (add_total (su_timeout sub) (timestamp h)) as [t' ->]. cbn [mbind exec_bind]. by eexists.
  - cbn [mbind exec_bind]. by eexists.
Qed.

(** Any number of delimiters, as many as the state needs. *)
Lemma feed_delimiters (input : list (event I)) self h m :
  ser_ok self → waits_for self h m → (∀ u h' v, sr_state self = CollectPayload u h' v → unrelated h' h) →
  Forall event_ok input → Forall (λ e, ev_byte e = 0%Z) input →
  match sr_state self with CollectHeader _ _ => 2 | _ => 1 end ≤ length input →
  ∃ self' pending, feed crc32c p self input = Ret (self', pending) ∧ length pending ≤ 1 ∧
    waits_for self' h m ∧ sr_node_id self' = sr_node_id self ∧ sr_state self' = BetweenTransfers.
Proof.
  intros Hok Hw Hpend Hev Hz Hlen. destruct input as [|e input]; [by destruct (sr_state self); cbn in Hlen; lia|].
  apply Forall_cons in Hz as [He Hz]. apply Forall_cons in Hev as [Hev0 Hev].
  destruct (first_zero e self h m) as (self1 & pending & Hf & Hp & Hw1 & Hid & Hst); [done..|].
  change (e :: input) with ([e] ++ input). rewrite (feed_app _ _ _ _ _ _ _ Hf).
  assert (Hdone : ∀ self2 l, sr_state self2 = BetweenTransfers → waits_for self2 h m →
    sr_node_id self2 = sr_node_id self → Forall (λ e, ev_byte e = 0%Z) l →
    ∃ self' pending', ('(s, out') ← feed crc32c p self2 l; Ret (s, pending ++ out')) = Ret (self', pending') ∧
      length pending' ≤ 1 ∧ waits_for self' h m ∧ sr_node_id self' = sr_node_id self ∧
      sr_state self' = BetweenTransfers).
  { intros self2 l Hst2 Hw2 Hid2 Hl. rewrite feed_zeros by done. cbn [mbind exec_bind].
    eexists _, _. rewrite app_nil_r. by split_and!. }
  destruct (sr_state self); [by apply Hdone..| |by apply Hdone].
  destruct input as [|e2 input]; [cbn in Hlen; lia|]. apply Forall_cons in Hz as [He2 Hz].
  assert (Hskip : feed crc32c p self1 (e2 :: input) = feed crc32c p (set_state self1 BetweenTransfers) input).
  { cbn [feed]. unfold handle_byte. rewrite Hst, He2. cbn [Z.eqb mbind exec_bind].
    change (set_state (set_state self1 Idle) BetweenTransfers) with (set_state self1 BetweenTransfers).
    by destruct (feed _ _ _ input) as [[]|]. }
  rewrite Hskip. by apply Hdone.
Qed.

Lemma deliver_from_any (input : list (event I)) self h payload m k :
  ser_ok self → SerHeader_valid h → bytes_ok payload → waits_for self h m → ser_addressed (sr_node_id self) h →
  length payload ≤ m → (∀ u h' v, sr_state self = CollectPayload u h' v → unrelated h' h) →
  ev_byte <$> input = replicate k 0%Z ++ serial_wire crc32c h payload →
  match sr_state self with CollectHeader _ _ => 1 | _ => 0 end ≤ k →
  Forall event_ok input → Forall (λ e, ev_alloc e 0 (m + 4) ≠ None) input →
  ¬ zero_after_full_run (frame_bytes crc32c h payload) →
  ∃ t self' pending, t ∈ ev_now <$> input ∧
    feed crc32c p self input = Ret (self', pending ++ [mkTransfer (set_timestamp t h) payload]) ∧
    length pending ≤ 1 ∧ sr_state self' = BetweenTransfers.
Proof.
  intros Hok Hh Hp Hw Haddr Hfit Hpend Hin Hk Hev Hmem Hz.
  unfold serial_wire in Hin. change (0%Z :: ?x) with ([0%Z] ++ x) in Hin. rewrite app_assoc, <- replicate_S_end in Hin.
  apply fmap_app_inv in Hin as (zs & fr & Hzs & Hin & ->). symmetry in Hin.
  apply fmap_app_inv in Hin as (body & z & Hbody & Hin & ->).
  destruct z as [|z [|]]; [done| |done]. injection Hin as Hlast.
  rewrite !Forall_app in Hev, Hmem. destruct Hev as (Hev1 & Hev2 & _), Hmem as (_ & Hmem & _).
  destruct (feed_delimiters zs self h m) as (self1 & pending & Hf1 & Hp1 & Hw1 & Hid1 & Hst1); [done..| | |].
  { apply Forall_forall. intros e He. apply (list_elem_of_fmap_2 ev_byte) in He. rewrite <- Hzs in He.
    by apply elem_of_replicate_inv in He. }
  { apply (f_equal length) in Hzs. rewrite length_fmap, length_replicate in Hzs. rewrite <- Hzs.
    destruct (sr_state self); lia. }
  destruct Hw1 as [(sub & Hf & Hm) Hn].
  destruct (feed_frame body self1 h payload sub) as (t & cap & u & Ht & Hf2); [done..|by rewrite Hm|done| |done|].
  { rewrite Forall_forall in Hmem, Hev2 |- *. intros e He. specialize (Hmem e He). destruct (Hev2 e He) as [_ Ha].
    unfold memory_for. rewrite Hm. destruct (ev_alloc e 0 (m + 4)) as [c|] eqn:Ec; [|done]. exists c. split; [done|by apply Ha]. }
  set (self2 := set_state self1 _) in Hf2.
  destruct (last_zero z self2 u (set_timestamp t h) (mkVec (payload ++ to_le_bytes 4 (make_payload_crc crc32c payload)) cap)
    payload m) as (self3 & Hf3 & Hst3); [done|by apply crc32c_u32|done|..|done|].
  { split; [exists sub; by rewrite find_set_timestamp|]. by apply newer_set_timestamp. }
  { cbn. rewrite Hid1. by destruct h. }
  exists t, self3, pending. split_and!; [rewrite !fmap_app, !elem_of_app; auto| |done|done].
  rewrite (feed_app _ _ _ _ _ _ _ Hf1), (feed_app _ _ _ _ _ _ _ Hf2), Hf3. done.
Qed.
End deliver.
