(* ===== verification/SerClaims.v ===== *)
(** * Properties of the serial transport

    The properties of [SerRx] and [SerTx] that the program relies on: safety of the
    receiver on any input, removal of duplicates, delivery of whole frames from any state,
    the end of [receive], and the transmit queue as a first-in first-out channel. *)

From S2P Require Import Prelude CoreTypes Time Transfer Subscriptions EncCursor EncCursorSpec EncFieldsSpec.
From S2P Require Import SerCobs SerHeader SerTx SerRx SerSpec SerLink.

(** ** Cleaning keeps the invariant *)

Section clean.
Context {I D : Type} `{Instant I D}.
Implicit Types (self : SerialReceiver I D) (subs : DynamicSubscriptionManager (SerSubscription I D)).

Definition cleaned (now : I) (s : SerSubscription I D) : SerSubscription I D :=
  mkSerSubscription (su_payload_size_max s) (su_timeout s) (filter (live now) (su_sessions s)).

Lemma clean_subscriptions_spec now (v : vec (Z * SerSubscription I D)) :
  clean_subscriptions now v = Ret (for_each (cleaned now) v).
Proof.
  unfold clean_subscriptions, for_each. destruct v as [l c]. cbn [vec_list vec_cap].
  assert (for_each_exec (su_clean_expired_sessions now) l = Ret (map (λ e, (e.1, cleaned now e.2)) l)) as ->; [|done].
  induction l as [|[port s] l IH]; [done|]. cbn [for_each_exec map]. rewrite su_clean_spec. cbn [mbind exec_bind].
  by rewrite IH.
Qed.

Definition cleaned_subscriptions now subs :=
  mkManager (for_each (cleaned now) (message_subscriptions subs)) (for_each (cleaned now) (request_subscriptions subs))
    (for_each (cleaned now) (response_subscriptions subs)).

Lemma ser_clean_spec self now : ser_clean_expired_sessions self now =
  Ret (mkSerialReceiver (sr_state self) (sr_node_id self) (cleaned_subscriptions now (sr_subscriptions self))).
Proof. unfold ser_clean_expired_sessions. by rewrite !clean_subscriptions_spec. Qed.

Lemma find_cleaned now subs (h : SerHeader I) :
  find_subscription (cleaned_subscriptions now subs) h = cleaned now <$> find_subscription subs h.
Proof.
  destruct h; cbn [find_subscription]; unfold find_message_subscription, find_request_subscription,
    find_response_subscription; rewrite !find_in_lookup; apply for_each_spec.
Qed.

(** Cleaning can only forget the last identifier of a source. *)
Lemma last_id_cleaned now subs (h : SerHeader I) t :
  last_id (cleaned_subscriptions now subs) h = Some t → last_id subs h = Some t.
Proof.
  unfold last_id. rewrite find_cleaned. destruct (find_subscription subs h) as [sub|]; [|done]. cbn.
  destruct (source h) as [src|]; [|done]. cbn. rewrite map_lookup_filter.
  destruct (su_sessions sub !! src) as [s|]; [|done]. cbn. by case_guard.
Qed.

Lemma cleaned_ok self now : ser_ok self →
  ser_ok (mkSerialReceiver (sr_state self) (sr_node_id self) (cleaned_subscriptions now (sr_subscriptions self))).
Proof.
  unfold ser_ok. cbn [sr_state sr_subscriptions]. destruct (sr_state self); cbn [state_ok]; [done..|].
  intros (? & ? & ? & ? & Hn). split_and!; try done. intros t Ht. by eapply Hn, last_id_cleaned.
Qed.
End clean.

(** ** Byte drivers *)

(** A driver with a finite number of bytes waiting that does not panic. *)
Class ByteReceiveSpec (Drv E : Type) `{ByteReceiveDriver Drv E} := {
  rd_waiting : Drv → list u8;
  receive_byte_spec d :
    ∃ d' r, receive_byte d = Ret (d', r) ∧
      match r with
      | Ok b => rd_waiting d = b :: rd_waiting d'
      | Err _ => rd_waiting d' = rd_waiting d
      end;
}.

(** A driver that keeps what has been sent through it. *)
Class ByteTransmitSpec (Drv E : Type) `{ByteTransmitDriver Drv E} := {
  td_sent : Drv → list u8;
  send_byte_spec d b :
    ∃ d' r, send_byte d b = Ret (d', r) ∧
      match r with
      | Ok _ => td_sent d' = td_sent d ++ [b]
      | Err _ => td_sent d' = td_sent d
      end;
}.

Lemma flush_loop_spec {Drv E} `{ByteTransmitSpec Drv E} C fuel : ∀ q (d : Drv), tq_len q ≤ C → tq_len q < fuel →
  ∃ q' d' r, flush_loop (E := E) C fuel q d = Ret (q', d', r) ∧
    td_sent d' ++ tq_bytes q' = td_sent d ++ tq_bytes q ∧ tq_len q' ≤ tq_len q ∧
    (is_ok r = true → tq_bytes q' = []).
Proof.
  induction fuel as [|fuel IH]; intros q d HC Hf; [lia|]. cbn [flush_loop]. unfold tq_pop_front, tq_len in *.
  destruct (tq_bytes q) as [|b rest] eqn:Eq; cbn [length] in *.
  { eexists _, _, _. rewrite Eq. by split_and!. }
  destruct (send_byte_spec d b) as (d1 & r & -> & Hr). cbn [mbind exec_bind]. destruct r as [[]|e].
  - destruct (IH (mkTransmitQueue rest) d1) as (q' & d' & r' & -> & Hs & Hl & Hok); cbn [tq_bytes] in *; [lia|lia|].
    eexists _, _, _. split_and!; [done| |lia|done]. rewrite Hs, Hr. by rewrite <- app_assoc.
  - unfold tq_push_front. cbn [tq_bytes]. rewrite (proj2 (Nat.ltb_lt _ _)) by lia. cbn [expect mbind exec_bind].
    eexists _, _, _. split_and!; [done|by rewrite Hr|done|done].
Qed.

Section drivers.
Context (crc32c : list u8 → u32) {I D Drv E : Type} `{Instant I D}.

Lemma receive_loop_spec `{ByteReceiveSpec Drv E} p alloc (now : I) :
  (∀ (d : D) (t : I), ∃ t', add_instant p d t = Ret t') → (∀ n, alloc_ok (alloc n 0)) →
  ∀ fuel (self : SerialReceiver I D) d, ser_ok self → bytes_ok (rd_waiting d) → length (rd_waiting d) < fuel →
  ∃ self' d' r, ser_receive_loop crc32c fuel p alloc self now d = Ret (self', d', r) ∧ ser_ok self' ∧
    ∃ input, Forall (λ e, ev_now e = now) input ∧ rd_waiting d = (ev_byte <$> input) ++ rd_waiting d' ∧
      feed crc32c p self input = Ret (self', match r with Ok (Some tr) => [tr] | _ => [] end).
Proof.
  intros Hadd Ha. induction fuel as [|fuel IH]; intros self d Hok Hb Hf; [lia|]. cbn [ser_receive_loop].
  destruct (receive_byte_spec d) as (d1 & r & -> & Hr). cbn [mbind exec_bind].
  destruct r as [b|e].
  2: { destruct e as [|e]; (eexists _, _, _; split_and!; [done|done|];
         exists []; split_and!; [constructor|by rewrite Hr|done]). }
  rewrite Hr in Hb, Hf. apply Forall_cons in Hb as [Hb Hbs]. cbn [length] in Hf.
  destruct (handle_byte_spec crc32c p Hadd (alloc fuel) self b now) as (self1 & r1 & Hh & Hok1 & _ & _ & _); [done..|].
  rewrite Hh. cbn [mbind exec_bind].
  set (ev := mkEvent now b (alloc fuel)).
  assert (Hfeed : ∀ input self' out, feed crc32c p self1 input = Ret (self', out) →
    feed crc32c p self (ev :: input) = Ret (self', match r1 with Ok (Some tr) => tr :: out | _ => out end)).
  { intros input self' out Hi. cbn [feed]. unfold ev. cbn [ev_alloc ev_byte ev_now]. rewrite Hh. cbn [mbind exec_bind].
    by rewrite Hi. }
  destruct r1 as [[tr|]|e].
  - eexists _, _, _. split_and!; [done|done|]. exists [ev]. split_and!; [by constructor|by rewrite Hr|by apply Hfeed].
  - destruct (IH self1 d1) as (self' & d' & r' & -> & Hok' & input & Hnow & Hw & Hi); [done|done|lia|].
    eexists _, _, _. split_and!; [done|done|]. exists (ev :: input).
    split_and!; [by constructor|by rewrite Hr, Hw|by apply Hfeed].
  - eexists _, _, _. split_and!; [done|done|]. exists [ev]. split_and!; [by constructor|by rewrite Hr|by apply Hfeed].
Qed.
End drivers.

(** ** Claims *)

Section claims.
Context (crc32c : list u8 → u32) {I D : Type} `{Instant I D}.
Implicit Types (self : SerialReceiver I D).


(** C34: the serial transport removes duplicates. Over any sequence of bytes (valid frames,
    damaged ones, noise), as long as no session is removed and sessions can be stored, the
    transfers delivered from one source on one port have strictly increasing transfer
    identifiers. *)
Theorem serial_no_duplicates p self input :
  (∀ (d : D) (t : I), ∃ t', add_instant p d t = Ret t') →
  ser_ok self → Forall event_ok input → (∀ e n, e ∈ input → ev_alloc e 1 n ≠ None) →
  ∃ self' out, feed crc32c p self input = Ret (self', out) ∧ ser_ok self' ∧
    ∀ i j a b, i < j → out !! i = Some a → out !! j = Some b → same_port (tr_header a) (tr_header b) →
      source (tr_header a) ≠ None → source (tr_header a) = source (tr_header b) →
      (transfer_id (tr_header a) < transfer_id (tr_header b))%Z.
Proof.
  intros Hadd Hok Hin Hmem.
  destruct (feed_spec crc32c p Hadd input self Hok Hin) as (self' & out & Hf & Hok' & _ & _ & _ & Hs).
  exists self', out. split_and!; [done|done|]. by apply Hs.
Qed.


Context {Drv E : Type}.

(** [receive] of the serial transport ends on every driver with finitely many bytes
    waiting and never panics. It takes bytes in order, as many as it needs, treats them one
    by one after removing expired sessions, and stops at the first transfer. *)
Theorem serial_receive_ends `{ByteReceiveSpec Drv E} p alloc fuel self (now : I) (d : Drv) :
  (∀ (d : D) (t : I), ∃ t', add_instant p d t = Ret t') → (∀ n, alloc_ok (alloc n 0)) →
  ser_ok self → bytes_ok (rd_waiting d) → length (rd_waiting d) < fuel →
  ∃ self0 self' d' r, ser_clean_expired_sessions self now = Ret self0 ∧
    ser_receive crc32c fuel p alloc self now d = Ret (self', d', r) ∧ ser_ok self' ∧
    ∃ input, Forall (λ e, ev_now e = now) input ∧ rd_waiting d = (ev_byte <$> input) ++ rd_waiting d' ∧
      feed crc32c p self0 input = Ret (self', match r with Ok (Some tr) => [tr] | _ => [] end).
Proof.
  intros Hadd Ha Hok Hb Hf. eexists. unfold ser_receive. rewrite ser_clean_spec. cbn [mbind exec_bind].
  destruct (receive_loop_spec crc32c p alloc now Hadd Ha fuel _ d (cleaned_ok self now Hok) Hb Hf)
    as (self' & d' & r & -> & Hok' & Hin).
  exists self', d', r. by split_and!.
Qed.

(** The serial transmit queue. A push puts exactly the bytes of the transfer on the wire
    at the end of the queue or, for lack of space or memory, changes nothing and says so.
    Flushing ends; it hands the bytes to the driver in order, and those that the driver
    refuses stay first in the queue. *)
Theorem serial_transmit_fifo `{ByteTransmitSpec Drv E} C p alloc q (tr : SerTransfer (list u8) I) (d : Drv) :
  tq_len q ≤ C →
  ∃ q1 r1 q2 d2 r2, ser_push crc32c C (E := E) p alloc q tr = Ret (q1, r1) ∧
    match r1 with
    | Ok _ => tq_bytes q1 = tq_bytes q ++ serial_wire crc32c (tr_header tr) (tr_payload tr)
    | Err e => e = Other (SerMemory mkOutOfMemoryError) ∧ q1 = q ∧
        let worst := escaped_size (length (tr_payload tr) + PER_FRAME_ESCAPED_OVERHEAD) in
        (C < tq_len q + worst + 2 ∨ alloc worst = None)
    end ∧
    ser_flush C (E := E) q1 d = Ret (q2, d2, r2) ∧ td_sent d2 ++ tq_bytes q2 = td_sent d ++ tq_bytes q1 ∧
    tq_len q2 ≤ C ∧ (is_ok r2 = true → tq_bytes q2 = []).
Proof.
  intros HC. destruct (ser_push_spec crc32c C (E := E) p alloc q tr HC) as (q1 & r1 & Hp & Hr1).
  assert (HC1 : tq_len q1 ≤ C) by (destruct r1 as [|[|[[]|]]]; [apply Hr1|done|by destruct Hr1 as [-> _]|done]).
  destruct (flush_loop_spec (E := E) C (S (tq_len q1)) q1 d HC1) as (q2 & d2 & r2 & Hf & Hs & Hl & Hok); [lia|].
  exists q1, r1, q2, d2, r2. split_and!; [done| |done|done|lia|done].
  destruct r1 as [|[|[[]|]]]; [by destruct Hr1 as [-> _]|done|by destruct Hr1|done].
Qed.
End claims.

(** ** Witnesses *)

Section witnesses.

Lemma release_adds (d : MicrosecondDuration32) (t : Microseconds32) : ∃ t', add_instant Release d t = Ret t'.
Proof. cbn. unfold D32.add_to_instant. rewrite arith_Release. by eexists. Qed.

Lemma byte_sum_u32 l : bytes_ok l → is_u 32 (byte_sum l).
Proof. intros _. by apply is_u_wrap. Qed.

Definition demo_receiver : SerialReceiver Microseconds32 MicrosecondDuration32 :=
  (ser_subscribe_message Some (SerialReceiver_new 7%Z) 100%Z 8 (mkMicrosecondDuration32 1000%Z)).1.

Definition demo_header : SerHeader Microseconds32 :=
  Message (mkMessageHeader (mkMicroseconds32 0%Z) 5%Z High 100%Z (Some 9%Z)).

Definition demo_events (bytes : list u8) : list (event Microseconds32) :=
  map (λ b, mkEvent (mkMicroseconds32 3%Z) b (λ _, Some)) bytes.

Lemma demo_events_bytes bytes : ev_byte <$> demo_events bytes = bytes.
Proof. unfold demo_events. induction bytes as [|b l IH]; [done|]. cbn. by f_equal. Qed.

Lemma demo_events_ok bytes : bytes_ok bytes → Forall event_ok (demo_events bytes).
Proof. induction 1; constructor; [|done]. split; [done|]. by intros n c [= ->]. Qed.

Lemma demo_header_valid : SerHeader_valid demo_header.
Proof. split; [done|]. split; [done|]. by intros n [= <-]. Qed.


Lemma serial_no_duplicates_witness : ∃ self' out,
  feed byte_sum Release demo_receiver (demo_events (serial_wire byte_sum demo_header [1; 0]%Z)) = Ret (self', out).
Proof.
  destruct (serial_no_duplicates byte_sum Release demo_receiver
    (demo_events (serial_wire byte_sum demo_header [1; 0]%Z)) release_adds) as (self' & out & H & _).
  - exact I.
  - apply demo_events_ok. vm_compute. repeat constructor; discriminate.
  - unfold demo_events. by intros e n (b & -> & _)%list_elem_of_fmap.
  - by exists self', out.
Defined.


(** A driver whose state is the bytes waiting, and one that takes a number of bytes. *)
#[local] Instance list_receive : ByteReceiveDriver (list u8) unit :=
  {| receive_byte d := match d with [] => Ret ([], Err WouldBlock) | b :: d => Ret (d, Ok b) end |}.
#[local] Program Instance list_receive_spec : ByteReceiveSpec (list u8) unit := {| rd_waiting d := d |}.
Next Obligation. intros [|b d]; cbn; eexists _, _; by split. Qed.

#[local] Instance bounded_send : ByteTransmitDriver (nat * list u8) unit :=
  {| send_byte d b := match d with (0, l) => Ret (d, Err WouldBlock) | (S n, l) => Ret ((n, l ++ [b]), Ok tt) end |}.
#[local] Program Instance bounded_send_spec : ByteTransmitSpec (nat * list u8) unit := {| td_sent d := d.2 |}.
Next Obligation. intros [[|n] l] b; cbn; eexists _, _; by split. Qed.

Lemma serial_receive_ends_witness : ∃ self' d' r,
  ser_receive (E := unit) byte_sum 5 Release (λ _ _, Some) demo_receiver (mkMicroseconds32 3%Z) [0; 4; 1]%Z =
    Ret (self', d', r).
Proof.
  destruct (serial_receive_ends (E := unit) byte_sum Release (λ _ _, Some) 5 demo_receiver (mkMicroseconds32 3%Z)
    [0; 4; 1]%Z release_adds) as (self0 & self' & d' & r & _ & H & _).
  - by intros _ n c [= ->].
  - exact I.
  - repeat constructor; unfold byte_ok, is_u; cbn; lia.
  - cbn. lia.
  - by exists self', d', r.
Defined.

Lemma serial_transmit_fifo_witness : ∃ q1 q2 d2 r2,
  ser_push byte_sum 64 (E := unit) Release Some TransmitQueue_new (mkTransfer demo_header [1; 0]%Z) = Ret (q1, Ok tt) ∧
  ser_flush 64 (E := unit) q1 (10, []) = Ret (q2, d2, r2) ∧ td_sent d2 ++ tq_bytes q2 = tq_bytes q1.
Proof.
  destruct (serial_transmit_fifo byte_sum 64 (E := unit) Release Some TransmitQueue_new
    (mkTransfer demo_header [1; 0]%Z) (10, [])) as (q1 & r1 & q2 & d2 & r2 & Hp & Hr & Hf & Hs & _); [cbn; lia|].
  exists q1, q2, d2, r2. split_and!; [|done|done]. rewrite Hp. destruct r1 as [[]|e]; [done|].
  destruct Hr as (_ & _ & [Hr|Hr]); [cbn in Hr; lia|done].
Defined.
End witnesses.
