(* ===== verification/UdpAddress.v ===== *)
(** * Addresses, ports and headers of the UDP transport

    Models [canadensis_udp/src/address.rs], [header.rs] and the identifiers of [lib.rs].
    An IPv4 address is the 32-bit integer that it converts to. The in-memory form of a
    header, which is sent as it is, is that of a little-endian processor. *)

From S2P Require Import Prelude CoreTypes Transfer EncCursor EncCursorSpec EncFieldsSpec SerHeader.

(** ** Identifiers and errors *)

Abbreviation UdpNodeId := u16 (only parsing).
Abbreviation UdpTransferId := u64 (only parsing).
Abbreviation UdpTransfer A I := (Transfer A I UdpNodeId UdpTransferId) (only parsing).
Abbreviation Ipv4Addr := u32 (only parsing).

Definition UdpTransferId_increment (t : UdpTransferId) : UdpTransferId := wrapping_add 64 t 1.

(** [std::io::Error] is a parameter of the socket operations. *)
Inductive UdpError (E : Type) : Type :=
| UdpMemory (e : OutOfMemoryError)
| UdpSocket (e : E).
Arguments UdpMemory {E} e.
Arguments UdpSocket {E} e.

(** ** Addresses *)

Definition PREFIX_MAX : u16 := 0x1ff.
Definition SUBNET_MAX : u8 := 0x7f.
Definition PREFIX_SHIFT : u32 := 23.
Definition SUBNET_SHIFT : u32 := 16.
Definition GENERIC_MULTICAST_BASE : u32 := 0xe0000000.
Definition GENERIC_MULTICAST_MASK : u32 := 0xf0000000.
Definition MULTICAST_BASE : u32 := 0xef000000.
Definition MULTICAST_MASK : u32 := 0xff80e000.

Record MulticastAddress := mkMulticastAddress { ma_subnet : u8; ma_subject : SubjectId }.
Record NodeAddress := mkNodeAddress { na_prefix : u16; na_subnet : u8; na_node : UdpNodeId }.
Inductive Address := AddressNode (a : NodeAddress) | AddressMulticast (a : MulticastAddress).

Definition MulticastAddress_into_ip (address : MulticastAddress) : Ipv4Addr :=
  Z.lor (Z.lor MULTICAST_BASE (shl 32 (ma_subnet address) 16)) (ma_subject address).

Definition NodeAddress_into_ip (address : NodeAddress) : Ipv4Addr :=
  Z.lor (Z.lor (shl 32 (na_prefix address) 23) (shl 32 (na_subnet address) 16)) (na_node address).

Definition Address_into_ip (address : Address) : Ipv4Addr :=
  match address with
  | AddressNode a => NodeAddress_into_ip a
  | AddressMulticast a => MulticastAddress_into_ip a
  end.

Definition NodeAddress_try_from (bits : Ipv4Addr) : result InvalidValue NodeAddress :=
  if negb (Z.land bits GENERIC_MULTICAST_MASK =? GENERIC_MULTICAST_BASE)%Z then
    let node_id_bits := as_u16 bits in
    let subnet := Z.land (as_u8 (Z.shiftr bits SUBNET_SHIFT)) SUBNET_MAX in
    let prefix := Z.land (as_u16 (Z.shiftr bits PREFIX_SHIFT)) PREFIX_MAX in
    Ok (mkNodeAddress prefix subnet node_id_bits)
  else Err mkInvalidValue.

Definition Address_try_from (bits : Ipv4Addr) : result InvalidValue Address :=
  if (Z.land bits GENERIC_MULTICAST_MASK =? GENERIC_MULTICAST_BASE)%Z then
    if (Z.land bits MULTICAST_MASK =? MULTICAST_BASE)%Z then
      let subnet := Z.land (as_u8 (Z.shiftr bits SUBNET_SHIFT)) SUBNET_MAX in
      let subject := SubjectId_from_truncating (as_u16 bits) in
      Ok (AddressMulticast (mkMulticastAddress subnet subject))
    else Err mkInvalidValue
  else a ← NodeAddress_try_from bits; Ok (AddressNode a).

Definition Address_subnet (a : Address) : u8 :=
  match a with AddressNode inner => na_subnet inner | AddressMulticast inner => ma_subnet inner end.
Definition same_subnet (a b : Address) : bool := (Address_subnet a =? Address_subnet b)%Z.

Definition remote_node_address (self : NodeAddress) (node : UdpNodeId) : Ipv4Addr :=
  Address_into_ip (AddressNode (mkNodeAddress (na_prefix self) (na_subnet self) node)).
Definition multicast_address (self : NodeAddress) (subject : SubjectId) : Ipv4Addr :=
  Address_into_ip (AddressMulticast (mkMulticastAddress (na_subnet self) subject)).

(** ** Ports *)

Definition SUBJECT_PORT : u16 := 16383.
Definition SERVICE_BASE_PORT : u16 := 0x4000.
Definition SERVICE_BASE_MASK : u16 := 0xfc00.

Inductive UdpPort := PortMessage | PortRequest (id : ServiceId) | PortResponse (id : ServiceId).

Definition UdpPort_into_u16 (port : UdpPort) : u16 :=
  match port with
  | PortMessage => SUBJECT_PORT
  | PortRequest id => Z.lor SERVICE_BASE_PORT (shl 16 id 1)
  | PortResponse id => Z.lor SERVICE_BASE_PORT (shl 16 id 1 + 1)
  end.

Definition UdpPort_try_from (port : u16) : result InvalidValue UdpPort :=
  if (port =? SUBJECT_PORT)%Z then Ok PortMessage
  else if (Z.land port SERVICE_BASE_MASK =? SERVICE_BASE_PORT)%Z then
    let service := ServiceId_from_truncating (Z.shiftr port 1) in
    Ok (if (Z.land port 1 =? 1)%Z then PortResponse service else PortRequest service)
  else Err mkInvalidValue.

(** ** The header of a frame *)

Record UdpHeader := mkUdpHeader {
  uh_version : u8;
  uh_priority : u8;
  uh_padding0 : u16;
  uh_frame_index_eot : u32;
  uh_transfer_id : u64;
  uh_padding1 : u64;
}.

Definition UDP_SIZE : usize := 24.
Definition UDP_VERSION : u8 := 0.
Definition PADDING0 : u16 := 0.
Definition LAST_FRAME : u32 := 0x80000000.

Definition is_last_frame (h : UdpHeader) : bool := negb (Z.land (uh_frame_index_eot h) LAST_FRAME =? 0)%Z.
Definition frame_index (h : UdpHeader) : u32 := Z.land (uh_frame_index_eot h) (unot 32 LAST_FRAME).

(** [as_bytes()] *)
Definition udp_header_as_bytes (h : UdpHeader) : list u8 :=
  to_le_bytes 1 (uh_version h) ++ to_le_bytes 1 (uh_priority h) ++ to_le_bytes 2 (uh_padding0 h) ++
  to_le_bytes 4 (uh_frame_index_eot h) ++ to_le_bytes 8 (uh_transfer_id h) ++ to_le_bytes 8 (uh_padding1 h).

(** [read_from_prefix()] *)
Definition udp_header_read_from_prefix (l : list u8) : option UdpHeader :=
  if UDP_SIZE <=? length l then
    Some (mkUdpHeader (field l 0 1) (field l 1 1) (field l 2 2) (field l 4 4) (field l 8 8) (field l 16 8))
  else None.

Record ValidatedUdpHeader := mkValidatedUdpHeader {
  vh_priority : Priority;
  vh_frame_index : u32;
  vh_last_frame : bool;
  vh_transfer_id : UdpTransferId;
}.

Definition ValidatedUdpHeader_try_from (header : UdpHeader) : result unit ValidatedUdpHeader :=
  if negb (uh_version header =? UDP_VERSION)%Z then Err tt
  else
    match Priority_try_from (uh_priority header) with
    | Ok priority =>
        Ok (mkValidatedUdpHeader priority (frame_index header) (is_last_frame header) (uh_transfer_id header))
    | Err _ => Err tt
    end.

(** ** Bit fields *)

Lemma land_field b k n : (0 ≤ k)%Z → (0 ≤ n)%Z →
  Z.land b (Z.shiftl (Z.ones k) n) = (((b / 2 ^ n) mod 2 ^ k) * 2 ^ n)%Z.
Proof.
  intros Hk Hn. rewrite <- Z.land_ones, <- Z.shiftr_div_pow2, <- Z.shiftl_mul_pow2 by done.
  rewrite Z.shiftl_land. apply Z.bits_inj'. intros i Hi. rewrite !Z.land_spec, !Z.shiftl_spec by done.
  destruct (Z_lt_ge_dec i n); [by rewrite (Z.testbit_neg_r (Z.ones k)), !andb_false_r by lia|].
  rewrite Z.shiftr_spec by lia. do 2 f_equal. lia.
Qed.

Lemma generic_multicast b : is_u 32 b → (Z.land b GENERIC_MULTICAST_MASK =? GENERIC_MULTICAST_BASE)%Z = (b / 2 ^ 28 =? 14)%Z.
Proof.
  intros Hb. change GENERIC_MULTICAST_MASK with (Z.shiftl (Z.ones 4) 28). rewrite land_field by lia.
  unfold GENERIC_MULTICAST_BASE, is_u in *. repeat case_cmp; done || dlia.
Qed.

Lemma cyphal_multicast b : is_u 32 b →
  (Z.land b MULTICAST_MASK =? MULTICAST_BASE)%Z = ((b / 2 ^ 23 =? 0x1de) && ((b / 2 ^ 13) mod 2 ^ 3 =? 0))%Z.
Proof.
  intros Hb. change MULTICAST_MASK with (Z.lor (Z.shiftl (Z.ones 3) 13) (Z.shiftl (Z.ones 9) 23)).
  rewrite Z.land_lor_distr_r, !land_field by lia. rewrite <- (Z.shiftl_mul_pow2 _ 23) by lia.
  rewrite lor_shiftl_add; [|lia|unfold is_u; dlia].
  unfold MULTICAST_BASE, is_u in *. repeat case_cmp; done || dlia.
Qed.

Lemma subnet_field b : Z.land (as_u8 (Z.shiftr b SUBNET_SHIFT)) SUBNET_MAX = ((b / 2 ^ 16) mod 2 ^ 7)%Z.
Proof.
  change SUBNET_MAX with (Z.ones 7). rewrite Z.land_ones, Z.shiftr_div_pow2 by (unfold SUBNET_SHIFT; lia).
  unfold SUBNET_SHIFT. by apply (wrap_wrap 7 8).
Qed.

Lemma prefix_field b : is_u 32 b → Z.land (as_u16 (Z.shiftr b PREFIX_SHIFT)) PREFIX_MAX = (b / 2 ^ 23)%Z.
Proof.
  intros Hb. change PREFIX_MAX with (Z.ones 9). rewrite Z.land_ones, Z.shiftr_div_pow2 by (unfold PREFIX_SHIFT; lia).
  unfold PREFIX_SHIFT, wrap, is_u in *. dlia.
Qed.

Lemma subject_field b : SubjectId_from_truncating (as_u16 b) = (b mod 2 ^ 13)%Z.
Proof. rewrite SubjectId_from_truncating_mod. by apply (wrap_wrap 13 16). Qed.

(** ** Valid addresses *)

Definition NodeAddress_valid (a : NodeAddress) : Prop :=
  is_u 9 (na_prefix a) ∧ (na_prefix a / 2 ^ 5 ≠ 14)%Z ∧ is_u 7 (na_subnet a) ∧ is_u 16 (na_node a).

Definition Address_valid (a : Address) : Prop :=
  match a with
  | AddressNode a => NodeAddress_valid a
  | AddressMulticast a => is_u 7 (ma_subnet a) ∧ SubjectId_valid (ma_subject a)
  end.

Lemma node_ip_sum a : NodeAddress_valid a →
  NodeAddress_into_ip a = (na_node a + (na_subnet a + na_prefix a * 2 ^ 7) * 2 ^ 16)%Z.
Proof.
  intros (Hp & _ & Hs & Hn). unfold NodeAddress_into_ip, shl.
  rewrite !wrap_small by (rewrite Z.shiftl_mul_pow2 by lia; unfold is_u in *; lia).
  rewrite <- (lor_shiftl_add 7 (na_subnet a)), <- (lor_shiftl_add 16 (na_node a)) by (done || lia).
  rewrite Z.shiftl_lor, Z.shiftl_shiftl by lia. change (7 + 16)%Z with 23%Z.
  rewrite (Z.lor_comm (na_node a)). by rewrite (Z.lor_comm (Z.shiftl (na_subnet a) 16)).
Qed.

Lemma multicast_ip_sum a : is_u 7 (ma_subnet a) → SubjectId_valid (ma_subject a) →
  MulticastAddress_into_ip a = (ma_subject a + (ma_subnet a + 0x1de * 2 ^ 7) * 2 ^ 16)%Z.
Proof.
  intros Hs Hj%SubjectId_valid_u. unfold MulticastAddress_into_ip, shl.
  rewrite !wrap_small by (rewrite Z.shiftl_mul_pow2 by lia; unfold is_u in *; lia).
  rewrite <- (lor_shiftl_add 7 (ma_subnet a)) by (done || lia).
  rewrite <- (lor_shiftl_add 16 (ma_subject a)) by (lia || (eapply is_u_mono; [done|lia])).
  rewrite Z.shiftl_lor, Z.shiftl_shiftl by lia. change (Z.shiftl 0x1de (7 + 16)) with MULTICAST_BASE.
  rewrite (Z.lor_comm (ma_subject a)). by rewrite (Z.lor_comm (Z.shiftl (ma_subnet a) 16)).
Qed.

Lemma Address_try_from_spec b : is_u 32 b →
  Address_try_from b =
    if (b / 2 ^ 28 =? 14)%Z then
      if (b / 2 ^ 23 =? 0x1de)%Z && ((b / 2 ^ 13) mod 2 ^ 3 =? 0)%Z
      then Ok (AddressMulticast (mkMulticastAddress ((b / 2 ^ 16) mod 2 ^ 7) (b mod 2 ^ 13)))
      else Err mkInvalidValue
    else Ok (AddressNode (mkNodeAddress (b / 2 ^ 23) ((b / 2 ^ 16) mod 2 ^ 7) (b mod 2 ^ 16))).
Proof.
  intros Hb. unfold Address_try_from, NodeAddress_try_from.
  rewrite generic_multicast, cyphal_multicast, subnet_field, prefix_field, subject_field by done.
  by destruct (b / 2 ^ 28 =? 14)%Z.
Qed.

(** ** Valid ports *)

Definition UdpPort_valid (p : UdpPort) : Prop :=
  match p with PortMessage => True | PortRequest id | PortResponse id => ServiceId_valid id end.

Lemma port_sum id (r : Z) : ServiceId_valid id → (0 ≤ r ≤ 1)%Z →
  Z.lor SERVICE_BASE_PORT (shl 16 id 1 + r) = (r + (id + 16 * 2 ^ 9) * 2 ^ 1)%Z.
Proof.
  intros Hid%ServiceId_valid_u Hr. unfold shl. rewrite Z.shiftl_mul_pow2 by lia.
  rewrite wrap_small by (unfold is_u in *; lia).
  change SERVICE_BASE_PORT with (Z.shiftl 16 10). rewrite Z.lor_comm, lor_shiftl_add; [lia|lia|unfold is_u in *; lia].
Qed.

Lemma UdpPort_into_sum p : UdpPort_valid p →
  UdpPort_into_u16 p =
    match p with
    | PortMessage => 16383
    | PortRequest id => (id + 16 * 2 ^ 9) * 2 ^ 1
    | PortResponse id => 1 + (id + 16 * 2 ^ 9) * 2 ^ 1
    end%Z.
Proof.
  destruct p as [|id|id]; cbn [UdpPort_valid UdpPort_into_u16]; intros Hid; [done| |].
  - pose proof (port_sum id 0 Hid) as H. rewrite Z.add_0_r, Z.add_0_l in H. apply H. lia.
  - by apply port_sum.
Qed.

Lemma UdpPort_try_from_spec v : is_u 16 v →
  UdpPort_try_from v =
    if (v =? 16383)%Z then Ok PortMessage
    else if (v / 2 ^ 10 =? 16)%Z then
      let service := ((v / 2) mod 2 ^ 9)%Z in
      Ok (if (v mod 2 =? 1)%Z then PortResponse service else PortRequest service)
    else Err mkInvalidValue.
Proof.
  intros Hv. unfold UdpPort_try_from, SUBJECT_PORT. destruct (v =? 16383)%Z; [done|].
  change SERVICE_BASE_MASK with (Z.shiftl (Z.ones 6) 10). rewrite land_field by lia.
  change (Z.land v 1) with (Z.land v (Z.ones 1)). rewrite (Z.land_ones v 1) by lia.
  rewrite ServiceId_from_truncating_mod, Z.shiftr_div_pow2 by lia.
  assert (((v / 2 ^ 10) mod 2 ^ 6 * 2 ^ 10 =? SERVICE_BASE_PORT)%Z = (v / 2 ^ 10 =? 16)%Z) as ->; [|done].
  unfold SERVICE_BASE_PORT, is_u in *. repeat case_cmp; done || dlia.
Qed.

(** ** Headers *)

Lemma udp_header_length h : length (udp_header_as_bytes h) = UDP_SIZE.
Proof. unfold udp_header_as_bytes. by rewrite !length_app, !to_le_bytes_length. Qed.

Lemma udp_header_bytes_ok h : bytes_ok (udp_header_as_bytes h).
Proof. unfold udp_header_as_bytes. rewrite !Forall_app. split_and!; apply to_le_bytes_ok. Qed.

Definition UdpHeader_ok (h : UdpHeader) : Prop :=
  is_u 8 (uh_version h) ∧ is_u 8 (uh_priority h) ∧ is_u 16 (uh_padding0 h) ∧ is_u 32 (uh_frame_index_eot h) ∧
  is_u 64 (uh_transfer_id h) ∧ is_u 64 (uh_padding1 h).

Lemma udp_header_read_as_bytes h rest : UdpHeader_ok h →
  udp_header_read_from_prefix (udp_header_as_bytes h ++ rest) = Some h.
Proof.
  intros (H1 & H2 & H3 & H4 & H5 & H6). unfold udp_header_read_from_prefix.
  rewrite length_app, udp_header_length, (proj2 (Nat.leb_le _ _)) by lia.
  destruct h as [v1 v2 v3 v4 v5 v6]. unfold udp_header_as_bytes.
  cbn [uh_version uh_priority uh_padding0 uh_frame_index_eot uh_transfer_id uh_padding1] in *.
  rewrite <- !app_assoc. do 2 f_equal; repeat (rewrite field_skip by lia; cbn [Nat.sub]); by apply field_here.
Qed.

(** The header that a frame of a transfer has. *)
Definition frame_header (priority : Priority) (index : u32) (last : bool) (transfer_id : u64) : UdpHeader :=
  mkUdpHeader UDP_VERSION (Priority_as_u8 priority) PADDING0 (if last then Z.lor LAST_FRAME index else index)
    transfer_id 0.

Lemma frame_header_ok priority index last tid : is_u 31 index → is_u 64 tid →
  UdpHeader_ok (frame_header priority index last tid).
Proof.
  intros Hi Ht. split_and!; cbn; try done.
  - eapply is_u_mono; [apply Priority_as_u8_range|lia].
  - destruct last; [apply is_u_lor; [lia|done|]|]; by apply (is_u_mono 31).
Qed.

Lemma frame_header_validated priority index last tid : is_u 31 index →
  ValidatedUdpHeader_try_from (frame_header priority index last tid) =
    Ok (mkValidatedUdpHeader priority index last tid).
Proof.
  intros Hi. unfold ValidatedUdpHeader_try_from, frame_header. cbn [uh_version uh_priority uh_transfer_id].
  cbn [negb Z.eqb UDP_VERSION]. rewrite Priority_roundtrip. do 2 f_equal; unfold frame_index, is_last_frame; cbn [uh_frame_index_eot].
  - change (unot 32 LAST_FRAME) with (Z.ones 31). rewrite Z.land_ones by lia.
    destruct last; [|by apply Z.mod_small].
    rewrite Z.lor_comm. change LAST_FRAME with (Z.shiftl 1 31). rewrite lor_shiftl_add by (done || lia).
    unfold is_u in *. dlia.
  - change LAST_FRAME with (Z.shiftl (Z.ones 1) 31). rewrite land_field by lia. unfold is_u in *.
    destruct last; [|dlia].
    rewrite Z.lor_comm. change (Z.shiftl (Z.ones 1) 31) with (Z.shiftl 1 31). rewrite lor_shiftl_add by (done || lia). dlia.
Qed.

(** ** Claims *)

(** Addresses and ports of the UDP transport. The 32-bit addresses that parse are exactly
    those of valid nodes and subjects, each parsed to the one address that converts to it; a
    message is sent to the multicast group of the local subnet and its subject. Likewise for
    the port numbers, each of which stands for messages, one service's requests or one
    service's responses. *)
Theorem udp_endpoints_bijective (b v : Z) (a : Address) (port : UdpPort) :
  is_u 32 b → is_u 16 v →
  (Address_try_from b = Ok a ↔ Address_valid a ∧ Address_into_ip a = b) ∧
  (UdpPort_try_from v = Ok port ↔ UdpPort_valid port ∧ UdpPort_into_u16 port = v) ∧
  ∀ local subject, NodeAddress_valid local → SubjectId_valid subject →
    Address_try_from (multicast_address local subject) =
      Ok (AddressMulticast (mkMulticastAddress (na_subnet local) subject)).
Proof.
  intros Hb Hv.
  assert (Hparse : ∀ b a, is_u 32 b → Address_try_from b = Ok a ↔ Address_valid a ∧ Address_into_ip a = b).
  { clear. intros b a Hb. rewrite Address_try_from_spec by done. split.
    - intros Hp. unfold is_u in Hb. destruct (Z.eqb_spec (b / 2 ^ 28) 14) as [Hg|Hg].
      + destruct (Z.eqb_spec (b / 2 ^ 23) 0x1de) as [H1|]; [|done].
        destruct (Z.eqb_spec ((b / 2 ^ 13) mod 2 ^ 3) 0) as [H2|]; [|done]. injection Hp as <-.
        assert (Ha : Address_valid (AddressMulticast (mkMulticastAddress ((b / 2 ^ 16) mod 2 ^ 7) (b mod 2 ^ 13)))).
        { split; cbn; [|apply SubjectId_valid_u]; by apply Z.mod_pos_bound. }
        split; [done|]. cbn. destruct Ha. rewrite multicast_ip_sum by done. cbn. dlia.
      + injection Hp as <-.
        assert (Ha : NodeAddress_valid (mkNodeAddress (b / 2 ^ 23) ((b / 2 ^ 16) mod 2 ^ 7) (b mod 2 ^ 16))).
        { split_and!; cbn; unfold is_u; dlia. }
        split; [done|]. cbn [Address_into_ip]. rewrite node_ip_sum by done. cbn [na_node na_subnet na_prefix]. dlia.
    - destruct a as [[p s n]|[s j]]; cbn [Address_valid Address_into_ip].
      + intros [Ha <-]. rewrite node_ip_sum by done. destruct Ha as (Hp & Hne & Hs & Hn).
        cbn [na_prefix na_subnet na_node] in *. unfold is_u in *.
        rewrite (proj2 (Z.eqb_neq _ _)) by dlia. do 2 f_equal. f_equal; dlia.
      + intros [[Hs Hj] <-]. rewrite multicast_ip_sum by done. apply SubjectId_valid_u in Hj.
        cbn [ma_subnet ma_subject] in *. unfold is_u in *. rewrite !(proj2 (Z.eqb_eq _ _)) by dlia.
        cbn [andb]. do 2 f_equal. f_equal; dlia. }
  split_and!; [by apply Hparse| |].
  - rewrite UdpPort_try_from_spec by done. unfold is_u in Hv. split.
    + destruct (Z.eqb_spec v 16383) as [->|]; [by intros [= <-]|].
      destruct (Z.eqb_spec (v / 2 ^ 10) 16); [|done].
      assert (Hs : ServiceId_valid ((v / 2) mod 2 ^ 9)) by (apply ServiceId_valid_u; by apply Z.mod_pos_bound).
      intros [= <-]. destruct (Z.eqb_spec (v mod 2) 1); (split; [done|]); rewrite UdpPort_into_sum by done; dlia.
    + intros [Hp <-]. rewrite UdpPort_into_sum by done. destruct port as [|id|id]; [done|..]; cbn in Hp;
        apply ServiceId_valid_u in Hp; unfold is_u in Hp; rewrite (proj2 (Z.eqb_neq _ 16383)) by dlia;
        rewrite (proj2 (Z.eqb_eq _ 16)) by dlia; case_cmp; try dlia; cbn zeta; do 2 f_equal; dlia.
  - intros local subject (_ & _ & Hs & _) Hj. apply Hparse; [|done].
    unfold multicast_address. cbn [Address_into_ip]. rewrite multicast_ip_sum by done.
    apply SubjectId_valid_u in Hj. unfold is_u in *. cbn. lia.
Qed.

Lemma udp_endpoints_bijective_witness :
  (Address_try_from 0xef000fff = Ok (AddressMulticast (mkMulticastAddress 0 0xfff)) ↔
    Address_valid (AddressMulticast (mkMulticastAddress 0 0xfff)) ∧
    Address_into_ip (AddressMulticast (mkMulticastAddress 0 0xfff)) = 0xef000fff)%Z.
Proof.
  refine (proj1 (udp_endpoints_bijective 0xef000fff 0x4003 (AddressMulticast (mkMulticastAddress 0 0xfff)) (PortResponse 1) _ _));
    unfold is_u; lia.
Defined.
