(* ===== verification/UdpTx.v ===== *)
(** * The UDP transmitter

    Models [canadensis_udp/src/tx.rs] and [tx/breakdown.rs]: a transfer becomes datagrams of
    at most [MTU] bytes, each with a header, that go to a socket at once. The socket, the
    clock and the CRC-32C computation are parameters. The last section describes the
    datagrams of a transfer without the iterator. *)

From S2P Require Import Prelude CoreTypes Time Transfer EncCursor EncCursorSpec EncFieldsSpec SerHeader UdpAddress.

Record SocketAddrV4 := mkSocketAddrV4 { sa_ip : Ipv4Addr; sa_port : u16 }.

(** The sender's half of a [UdpSocket]. *)
Class SendSocket (Sock E : Type) := {
  send_to : Sock → list u8 → SocketAddrV4 → Sock * result E unit;
}.

Section tx.
Context (crc32c : list u8 → u32) (MTU : nat).
Context {I D : Type} `{Instant I D}.

Record UdpFrame := mkUdpFrame { uf_remote_address : SocketAddrV4; uf_deadline : I; uf_data : list u8 }.

(** [heapless::Vec<u8, MTU>]: [push] and [extend_from_slice] fail when there is no space. *)
Definition hv_extend (v l : list u8) : option (list u8) :=
  if length v + length l <=? MTU then Some (v ++ l) else None.
Definition hv_push (v : list u8) (b : u8) : option (list u8) := hv_extend v [b].
Definition hv_is_full (v : list u8) : bool := length v =? MTU.

(** ** Breaking a transfer into frames *)

Record Breakdown := mkBreakdown {
  bd_dest_address : SocketAddrV4;
  bd_deadline : I;
  bd_transfer_id : u64;
  bd_priority : Priority;
  bd_payload : list u8;
  bd_frame_index : u32;
  bd_done : bool;
  bd_current_frame : list u8;
}.

Definition Breakdown_new (dest_address : SocketAddrV4) (deadline : I) (transfer_id : u64) (priority : Priority)
    (payload : list u8) : exec Breakdown :=
  current_frame ← unwrap (hv_extend [] (replicate UDP_SIZE 0%Z));
  Ret (mkBreakdown dest_address deadline transfer_id priority payload 0 false current_frame).

(** Returns the frame, and the buffer for the next one. *)
Definition take_frame (self : Breakdown) (header : UdpHeader) (current_frame : list u8)
    : exec (list u8 * UdpFrame) :=
  _ ← assert_ (UDP_SIZE <=? length current_frame);
  let data := udp_header_as_bytes header ++ drop UDP_SIZE current_frame in
  new_frame ← unwrap (hv_extend [] (replicate UDP_SIZE 0%Z));
  Ret (new_frame, mkUdpFrame (bd_dest_address self) (bd_deadline self) data).

(** The loop of [next] takes a byte of the payload per iteration. *)
Fixpoint next_loop (p : profile) (self : Breakdown) (payload current_frame : list u8)
    : exec (Breakdown * option UdpFrame) :=
  let header frame_index_eot :=
    mkUdpHeader UDP_VERSION (Priority_as_u8 (bd_priority self)) PADDING0 frame_index_eot (bd_transfer_id self) 0 in
  let update payload frame_index done current_frame :=
    mkBreakdown (bd_dest_address self) (bd_deadline self) (bd_transfer_id self) (bd_priority self)
      payload frame_index done current_frame in
  match payload with
  | byte :: payload' =>
      current_frame ← unwrap (hv_push current_frame byte);
      if hv_is_full current_frame then
        '(current_frame, frame) ← take_frame self (header (bd_frame_index self)) current_frame;
        frame_index ← arith p 32 (bd_frame_index self + 1);
        Ret (update payload' frame_index false current_frame, Some frame)
      else next_loop p self payload' current_frame
  | [] =>
      '(current_frame, frame) ← take_frame self (header (Z.lor LAST_FRAME (bd_frame_index self))) current_frame;
      Ret (update [] (bd_frame_index self) true current_frame, Some frame)
  end.

Definition Breakdown_next (p : profile) (self : Breakdown) : exec (Breakdown * option UdpFrame) :=
  if bd_done self then Ret (self, None) else next_loop p self (bd_payload self) (bd_current_frame self).

Definition fits_into_one_frame (payload_bytes : usize) : bool := payload_bytes + UDP_SIZE <=? MTU.

(** ** Sending *)

Record UdpTransmitter (Sock : Type) := mkUdpTransmitter { ut_socket : Sock; ut_address : NodeAddress }.
Arguments mkUdpTransmitter {Sock}.
Arguments ut_socket {Sock}.
Arguments ut_address {Sock}.

Context {Sock E C : Type} `{SendSocket Sock E} `{Clock C I}.

(** [bind_socket] to an ephemeral port is done by the caller's parameter [bind]. *)
Definition UdpTransmitter_new (bind : Ipv4Addr → u16 → result E Sock) (address : NodeAddress)
    : exec (result (UdpError E) (UdpTransmitter Sock)) :=
  _ ← assert_ (UDP_SIZE <? MTU);
  Ret (map_err UdpSocket (bind (NodeAddress_into_ip address) 0%Z) ≫= λ socket, Ok (mkUdpTransmitter socket address)).

(** The body of the loop: a frame is sent unless its deadline has passed. *)
Definition send_frame (self : UdpTransmitter Sock) (frame : UdpFrame) (clock : C)
    : UdpTransmitter Sock * C * result E unit :=
  let '(clock, now) := clock_now clock in
  match overflow_safe_compare (uf_deadline frame) now with
  | Gt =>
      let '(socket, r) := send_to (ut_socket self) (uf_data frame) (uf_remote_address frame) in
      (mkUdpTransmitter socket (ut_address self), clock, r)
  | _ => (self, clock, Ok tt)
  end.

(** The loop over the frames; it ends when the iterator is done. *)
Fixpoint send_frames (fuel : nat) (p : profile) (self : UdpTransmitter Sock) (breakdown : Breakdown) (clock : C)
    : exec (UdpTransmitter Sock * C * result (UdpError E) unit) :=
  match fuel with
  | 0 => Panic
  | S fuel' =>
      '(breakdown, frame) ← Breakdown_next p breakdown;
      match frame with
      | None => Ret (self, clock, Ok tt)
      | Some frame =>
          let '(self, clock, r) := send_frame self frame clock in
          match r with
          | Ok _ => send_frames fuel' p self breakdown clock
          | Err e => Ret (self, clock, Err (UdpSocket e))
          end
      end
  end.

(** The bytes that go into the frames: with a CRC unless they fit into one frame. *)
Definition data_to_send (payload : list u8) : list u8 :=
  if fits_into_one_frame (length payload) then payload else payload ++ to_le_bytes 4 (crc32c payload).

Definition udp_push_inner (p : profile) (self : UdpTransmitter Sock) (dest : SocketAddrV4) (deadline : I)
    (transfer_id : UdpTransferId) (priority : Priority) (payload : list u8) (clock : C)
    : exec (UdpTransmitter Sock * C * result (UdpError E) unit) :=
  let data := data_to_send payload in
  breakdown ← Breakdown_new dest deadline transfer_id priority data;
  send_frames (2 + length data) p self breakdown clock.

Definition udp_push (p : profile) (self : UdpTransmitter Sock) (transfer : UdpTransfer (list u8) I) (clock : C)
    : exec (UdpTransmitter Sock * C * result (nb_error (UdpError E)) unit) :=
  '(self, clock, r) ←
    match tr_header transfer with
    | Message header =>
        let multicast_addr := multicast_address (ut_address self) (mh_subject header) in
        let dest_port := UdpPort_into_u16 PortMessage in
        udp_push_inner p self (mkSocketAddrV4 multicast_addr dest_port) (mh_timestamp header)
          (mh_transfer_id header) (mh_priority header) (tr_payload transfer) clock
    | Request header =>
        let dest_addr := remote_node_address (ut_address self) (sh_destination header) in
        let dest_port := UdpPort_into_u16 (PortRequest (sh_service header)) in
        udp_push_inner p self (mkSocketAddrV4 dest_addr dest_port) (sh_timestamp header)
          (sh_transfer_id header) (sh_priority header) (tr_payload transfer) clock
    | Response header =>
        let dest_addr := remote_node_address (ut_address self) (sh_destination header) in
        let dest_port := UdpPort_into_u16 (PortResponse (sh_service header)) in
        udp_push_inner p self (mkSocketAddrV4 dest_addr dest_port) (sh_timestamp header)
          (sh_transfer_id header) (sh_priority header) (tr_payload transfer) clock
    end;
  Ret (self, clock, map_err Other r).

Definition udp_mtu : exec usize := usize_sub MTU UDP_SIZE.

(** ** The datagrams of a transfer *)

(** The data of a frame. *)
Abbreviation room := (MTU - UDP_SIZE).

(** Frames [index] and following for the rest of the data. The frame that is full when the
    data ends is not the last: an empty one follows. *)
Fixpoint datagrams_from (fuel : nat) (tid : u64) (priority : Priority) (index : nat) (data : list u8)
    : list (list u8) :=
  match fuel with
  | 0 => []
  | S fuel' =>
      if length data <? room
      then [udp_header_as_bytes (frame_header priority (Z.of_nat index) true tid) ++ data]
      else (udp_header_as_bytes (frame_header priority (Z.of_nat index) false tid) ++ take room data)
             :: datagrams_from fuel' tid priority (S index) (drop room data)
  end.

Definition datagrams (tid : u64) (priority : Priority) (data : list u8) : list (list u8) :=
  datagrams_from (S (length data)) tid priority 0 data.

(** ** The iterator produces the datagrams *)

Section proofs.
Context (Hmtu : UDP_SIZE < MTU).

Lemma hv_extend_fits v l : length v + length l ≤ MTU → hv_extend v l = Some (v ++ l).
Proof. clear crc32c. intros Hl. unfold hv_extend. by rewrite (proj2 (Nat.leb_le _ _)) by lia. Qed.

Definition fresh : list u8 := replicate UDP_SIZE 0%Z.

Lemma take_frame_spec self h acc :
  take_frame self h (fresh ++ acc) =
    Ret (fresh, mkUdpFrame (bd_dest_address self) (bd_deadline self) (udp_header_as_bytes h ++ acc)).
Proof.
  clear crc32c.
  unfold take_frame, fresh. rewrite length_app, length_replicate, (proj2 (Nat.leb_le _ _)) by lia.
  cbn [assert_ mbind exec_bind]. rewrite hv_extend_fits by (rewrite length_replicate; cbn [length]; lia).
  by rewrite drop_app_length' by (by rewrite length_replicate).
Qed.

Lemma next_loop_spec p self payload : ∀ acc, length acc < room →
  is_u 31 (bd_frame_index self) →
  let frame last data := mkUdpFrame (bd_dest_address self) (bd_deadline self)
    (udp_header_as_bytes (frame_header (bd_priority self) (bd_frame_index self) last (bd_transfer_id self)) ++ data) in
  let update payload frame_index done :=
    mkBreakdown (bd_dest_address self) (bd_deadline self) (bd_transfer_id self) (bd_priority self)
      payload frame_index done fresh in
  next_loop p self payload (fresh ++ acc) =
    if length acc + length payload <? room
    then Ret (update [] (bd_frame_index self) true, Some (frame true (acc ++ payload)))
    else Ret (update (drop (room - length acc) payload) (bd_frame_index self + 1)%Z false,
              Some (frame false (acc ++ take (room - length acc) payload))).
Proof.
  clear crc32c.
  induction payload as [|b payload IH]; intros acc Hacc Hidx frame update; cbn [next_loop length].
  { rewrite Nat.add_0_r, (proj2 (Nat.ltb_lt _ _)) by done. rewrite take_frame_spec. cbn [mbind exec_bind].
    by rewrite app_nil_r. }
  unfold hv_push. rewrite hv_extend_fits by (rewrite length_app; unfold fresh; rewrite length_replicate; cbn [length]; lia).
  cbn [unwrap mbind exec_bind]. rewrite <- app_assoc. unfold hv_is_full.
  assert (Hlen : length (fresh ++ acc ++ [b]) = UDP_SIZE + (length acc + 1))
    by (rewrite !length_app; unfold fresh; by rewrite length_replicate).
  rewrite Hlen. destruct (Nat.eqb_spec (UDP_SIZE + (length acc + 1)) MTU) as [Efull|Efull].
  - rewrite (proj2 (Nat.ltb_ge _ _)) by lia. rewrite take_frame_spec. cbn [mbind exec_bind].
    unfold arith. rewrite (proj2 (is_ub_spec 32 _)) by (unfold is_u in *; lia). cbn [mbind exec_bind].
    replace (room - length acc) with 1 by lia. done.
  - rewrite (IH (acc ++ [b])); [|rewrite length_app; cbn; lia|done].
    rewrite length_app. cbn [length]. replace (length acc + 1 + length payload) with (length acc + S (length payload)) by lia.
    rewrite <- !app_assoc. replace (room - length acc) with (S (room - (length acc + 1))) by lia. by case_cmp.
Qed.

Definition expect_sent (dest : SocketAddrV4) (l : list (list u8)) : list (list u8 * SocketAddrV4) :=
  map (λ d, (d, dest)) l.

Lemma datagrams_from_enough fuel tid prio index data : length data < fuel →
  ∀ k, length data < k → datagrams_from k tid prio index data = datagrams_from fuel tid prio index data.
Proof.
  clear crc32c.
  revert index data. induction fuel as [|fuel IH]; intros index data Hf k Hk; [lia|]. destruct k as [|k]; [lia|].
  cbn [datagrams_from]. case_cmp; [done|]. f_equal. apply IH; rewrite length_drop; lia.
Qed.

Context (send_spec : Sock → list (list u8 * SocketAddrV4)).
Context (send_to_spec : ∀ s d a, let '(s', r) := send_to s d a in
  send_spec s' = send_spec s ++ (if is_ok r then [(d, a)] else [])).

Lemma send_frame_spec self frame clock :
  let '(self', clock', r) := send_frame self frame clock in
  ut_address self' = ut_address self ∧
  ∃ sent : bool, send_spec (ut_socket self') = send_spec (ut_socket self) ++
      (if sent then [(uf_data frame, uf_remote_address frame)] else []) ∧
    ((∀ c, overflow_safe_compare (uf_deadline frame) (clock_now c).2 = Gt) → is_ok r = sent).
Proof.
  unfold send_frame. destruct (clock_now clock) as [clock1 now] eqn:Ec.
  destruct (overflow_safe_compare _ now) eqn:Eo.
  1-2: split; [done|]; exists false; rewrite app_nil_r; split; [done|];
    intros Hc; specialize (Hc clock); rewrite Ec in Hc; cbn in Hc; congruence.
  pose proof (send_to_spec (ut_socket self) (uf_data frame) (uf_remote_address frame)) as Hs.
  destruct (send_to _ _ _) as [sock r]. split; [done|]. by exists (is_ok r).
Qed.

(** All frames are sent in order, except those whose deadline has passed, up to the first
    error of the socket. *)
Lemma send_frames_spec p dest deadline tid prio fuel : ∀ self clock index data,
  S (length data) < fuel → (Z.of_nat (index + length data) < 2 ^ 31)%Z →
  let all := expect_sent dest (datagrams_from (S (length data)) tid prio index data) in
  ∃ self' clock' r l,
    send_frames fuel p self (mkBreakdown dest deadline tid prio data (Z.of_nat index) false fresh) clock =
      Ret (self', clock', r) ∧
    send_spec (ut_socket self') = send_spec (ut_socket self) ++ l ∧ ut_address self' = ut_address self ∧
    l `sublist_of` all ∧
    ((∀ c, overflow_safe_compare deadline (clock_now c).2 = Gt) → is_ok r = true → l = all).
Proof.
  clear crc32c.
  induction fuel as [|fuel IH]; intros self clock index data Hf Hidx all; [lia|].
  cbn [send_frames]. unfold Breakdown_next. cbn [bd_done bd_payload bd_current_frame].
  assert (Hi31 : is_u 31 (Z.of_nat index)) by (unfold is_u; lia).
  pose proof (next_loop_spec p (mkBreakdown dest deadline tid prio data (Z.of_nat index) false fresh) data []) as Hn.
  rewrite app_nil_r in Hn. cbn [length bd_frame_index bd_dest_address bd_deadline bd_transfer_id bd_priority app Nat.add] in Hn.
  rewrite Nat.sub_0_r in Hn. specialize (Hn ltac:(lia) Hi31). rewrite Hn. clear Hn.
  unfold all. cbn [datagrams_from]. clear all.
  case_cmp; cbn [mbind exec_bind].
  all: match goal with |- context [send_frame ?s ?fr ?c] => pose proof (send_frame_spec s fr c) as Hfr;
    destruct (send_frame s fr c) as [[self1 clock1] r1]; cbn [uf_data uf_remote_address uf_deadline] in Hfr;
    destruct Hfr as (Ha1 & sent & Hs1 & Hall1) end.
  all: destruct r1 as [[]|e]; [|exists self1, clock1, (Err (UdpSocket e));
    eexists; split_and!; [done|exact Hs1|done|destruct sent; [apply sublist_skip|]; apply sublist_nil_l|done]].
  - destruct fuel as [|fuel]; [lia|]. cbn [send_frames mbind exec_bind Breakdown_next bd_done].
    exists self1, clock1, (Ok tt). eexists. split_and!; [done|exact Hs1|done|by destruct sent; [|apply sublist_nil_l]|].
    intros Hc _. by rewrite <- (Hall1 Hc).
  - replace (Z.of_nat index + 1)%Z with (Z.of_nat (S index)) by lia.
    assert (Hd : length (drop room data) < length data) by (rewrite length_drop; lia).
    destruct (IH self1 clock1 (S index) (drop room data)) as (self' & clock' & r & l & Hres & Hs & Ha & Hsub & Hall);
      [lia|lia|].
    rewrite (datagrams_from_enough (S (length (drop room data))) tid prio (S index) (drop room data)
      (Nat.lt_succ_diag_r _) (length data) Hd).
    exists self', clock', r. eexists. split_and!; [exact Hres|by rewrite Hs, Hs1, <- app_assoc|congruence| |].
    + destruct sent; [by apply sublist_skip|by apply sublist_cons].
    + intros Hc Hr. rewrite <- (Hall1 Hc). cbn [is_ok app]. by rewrite Hall.
Qed.
End proofs.
End tx.
Arguments UdpFrame : clear implicits.
Arguments UdpTransmitter : clear implicits.
Arguments mkUdpTransmitter {Sock}.
Arguments ut_socket {Sock}.
Arguments ut_address {Sock}.
