(* ===== verification/UdpRx.v ===== *)
(** * The UDP receiver

    Models [canadensis_udp/src/rx.rs], [rx/buildup.rs] and [rx/subscriptions.rs]: one socket
    per subscription, sessions per source node, and reassembly of frames that arrive in
    order. Sockets, session trackers and the CRC-32C computation are parameters. *)

From S2P Require Import Prelude CoreTypes Time Transfer Subscriptions SessionTracker EncCursor EncCursorSpec.
From S2P Require Import SerHeader UdpAddress.

(** [IpAddr] of the standard library. *)
Inductive IpAddr := V4 (ip : Ipv4Addr) | V6 (ip : Z).

(** The receiver's half of a [UdpSocket], with [bind_socket] and joining of a group. *)
Class RecvSocket (Sock E : Type) := {
  (** receives into a buffer of the given size *)
  recv_from : Sock → usize → Sock * result E (list u8 * IpAddr);
  bind_socket : Ipv4Addr → u16 → result E Sock;
  join_multicast_v4 : Sock → Ipv4Addr → Ipv4Addr → Sock * result E unit;
  (** [e.kind() == ErrorKind::WouldBlock], and such an error *)
  is_would_block : E → bool;
  would_block : E;
}.

(** ** Reassembly *)

Record Buildup := mkBuildup {
  bu_bytes : vec u8;
  bu_next_frame_index : u32;
  bu_priority : Priority;
  bu_transfer_id : UdpTransferId;
}.

Inductive BuildupError : Set :=
| BuildupIndex | BuildupPriority | BuildupTransferId | BuildupLength
| BuildupMemory (e : OutOfMemoryError).

Definition Buildup_new (p : profile) (alloc : allocator) (header : ValidatedUdpHeader)
    (bytes_after_header : list u8) (max_length : usize) : exec (result BuildupError Buildup) :=
  if max_length <? length bytes_after_header then Ret (Err BuildupLength)
  else
    match vec_with_capacity alloc max_length with
    | None => Ret (Err (BuildupMemory mkOutOfMemoryError))
    | Some bytes =>
        next ← arith p 32 (vh_frame_index header + 1);
        Ret (Ok (mkBuildup (mkVec (vec_list bytes ++ bytes_after_header) (vec_cap bytes)) next
          (vh_priority header) (vh_transfer_id header)))
    end.

Definition Buildup_push (self : Buildup) (header : ValidatedUdpHeader) (bytes_after_header : list u8)
    : result BuildupError Buildup :=
  if negb (vh_frame_index header =? bu_next_frame_index self)%Z then Err BuildupIndex
  else if negb (vh_transfer_id header =? bu_transfer_id self)%Z then Err BuildupTransferId
  else if negb (bool_decide (vh_priority header = bu_priority self)) then Err BuildupPriority
  else if vec_cap (bu_bytes self) <? vec_len (bu_bytes self) + length bytes_after_header then Err BuildupLength
  else
    Ok (mkBuildup (mkVec (vec_list (bu_bytes self) ++ bytes_after_header) (vec_cap (bu_bytes self)))
      (bu_next_frame_index self) (bu_priority self) (bu_transfer_id self)).

Definition into_payload (self : Buildup) : vec u8 := bu_bytes self.

Record UdpSessionData := mkUdpSessionData { buildup : option Buildup }.
Definition UdpSessionData_default : UdpSessionData := mkUdpSessionData None.

Section rx.
Context (crc32c : list u8 → u32) (MTU : nat).
Context {I D : Type} `{Instant I D} {Sock E : Type} `{RecvSocket Sock E}.

Abbreviation UdpSession := (Session I D UdpTransferId UdpSessionData).
Abbreviation Received := (result (UdpError E) (option (list u8))).

(** The end of a transfer with several frames. The slice that starts at [len - 4]: without
    overflow checks the subtraction wraps around and the slice does not exist. *)
Definition finish_reassembly (p : profile) (payload_and_crc : list u8) : exec (option (list u8)) :=
  if length payload_and_crc <? 4 then match p with Debug => Panic | Release => Ret None end
  else
    let n := length payload_and_crc - 4 in
    let expected_crc := from_le_bytes (drop n payload_and_crc) in
    let payload := take n payload_and_crc in
    let calculated_crc := crc32c payload in
    Ret (if (calculated_crc =? expected_crc)%Z then Some payload else None).

(** [UdpSession::handle_frame] *)
Definition session_handle_frame (p : profile) (alloc : allocator) (self : UdpSession) (header : ValidatedUdpHeader)
    (bytes_after_header : list u8) (max_payload_length : usize) : exec (UdpSession * Received) :=
  let set_buildup b := set_session_data (mkUdpSessionData b) self in
  if (vh_frame_index header =? 0)%Z then
    if vh_last_frame header then
      if length bytes_after_header <=? max_payload_length then
        match vec_with_capacity (A := u8) alloc (length bytes_after_header) with
        | None => Ret (self, Err (UdpMemory mkOutOfMemoryError))
        | Some _ => Ret (self, Ok (Some bytes_after_header))
        end
      else Ret (self, Ok None)
    else
      new ← Buildup_new p alloc header bytes_after_header max_payload_length;
      match new with
      | Ok buildup => Ret (set_buildup (Some buildup), Ok None)
      | Err _ => Ret (self, Ok None)
      end
  else if vh_last_frame header then
    match buildup (session_data self) with
    | Some buildup =>
        let self := set_buildup None in
        match Buildup_push buildup header bytes_after_header with
        | Ok buildup =>
            payload ← finish_reassembly p (vec_list (into_payload buildup));
            Ret (self, Ok payload)
        | Err _ => Ret (self, Ok None)
        end
    | None => Ret (self, Ok None)
    end
  else
    match buildup (session_data self) with
    | Some buildup =>
        match Buildup_push buildup header bytes_after_header with
        | Ok buildup => Ret (set_buildup (Some buildup), Ok None)
        | Err _ => Ret (set_buildup None, Ok None)
        end
    | None => Ret (self, Ok None)
    end.

(** ** Subscriptions *)

Inductive SubscriptionKind :=
| KindMessage (subject : SubjectId)
| KindRequest (service : ServiceId)
| KindResponse (service : ServiceId).

Context {M : Type} `{Tracker M UdpNodeId (Session I D UdpTransferId UdpSessionData)} (sessions_default : M).

Record UdpSubscription := mkUdpSubscription {
  us_socket : Sock;
  us_kind : SubscriptionKind;
  us_payload_size_max : usize;
  us_timeout : D;
  us_sessions : M;
}.

Definition set_sessions (self : UdpSubscription) (m : M) : UdpSubscription :=
  mkUdpSubscription (us_socket self) (us_kind self) (us_payload_size_max self) (us_timeout self) m.

Definition new_message (subject : SubjectId) (payload_size_max : usize) (timeout : D) (local_address : NodeAddress)
    : result E UdpSubscription :=
  let multicast := multicast_address local_address subject in
  socket ← bind_socket multicast (UdpPort_into_u16 PortMessage);
  let '(socket, r) := join_multicast_v4 socket multicast (NodeAddress_into_ip local_address) in
  _ ← r;
  Ok (mkUdpSubscription socket (KindMessage subject) payload_size_max timeout sessions_default).
Definition new_request (service : ServiceId) (payload_size_max : usize) (timeout : D) (local_address : NodeAddress)
    : result E UdpSubscription :=
  socket ← bind_socket (NodeAddress_into_ip local_address) (UdpPort_into_u16 (PortRequest service));
  Ok (mkUdpSubscription socket (KindRequest service) payload_size_max timeout sessions_default).
Definition new_response (service : ServiceId) (payload_size_max : usize) (timeout : D) (local_address : NodeAddress)
    : result E UdpSubscription :=
  socket ← bind_socket (NodeAddress_into_ip local_address) (UdpPort_into_u16 (PortResponse service));
  Ok (mkUdpSubscription socket (KindResponse service) payload_size_max timeout sessions_default).

Abbreviation Handled := (result (UdpError E) (option (UdpTransfer (list u8) I))).

Definition transfer_header (kind : SubscriptionKind) (header : ValidatedUdpHeader) (from : UdpNodeId)
    (local_address : NodeAddress) (now : I) : Header I UdpNodeId UdpTransferId :=
  match kind with
  | KindMessage subject =>
      Message (mkMessageHeader now (vh_transfer_id header) (vh_priority header) subject (Some from))
  | KindRequest service =>
      Request (mkServiceHeader now (vh_transfer_id header) (vh_priority header) service from (na_node local_address))
  | KindResponse service =>
      Response (mkServiceHeader now (vh_transfer_id header) (vh_priority header) service from (na_node local_address))
  end.

Definition handle_sane_frame (p : profile) (alloc : allocator) (self : UdpSubscription) (header : ValidatedUdpHeader)
    (bytes_after_header : list u8) (from : UdpNodeId) (local_address : NodeAddress) (now : I)
    : exec (UdpSubscription * Handled) :=
  let '(sessions, r) := tr_get_mut_or_insert (us_sessions self) from
    (mkSession now (us_timeout self) None UdpSessionData_default) in
  let self := set_sessions self sessions in
  match r with
  | Err e => Ret (self, Err (UdpMemory e))
  | Ok session =>
      let duplicate :=
        match last_transfer_id session with
        | Some last_transfer_id => (vh_transfer_id header <=? last_transfer_id)%Z
        | None => false
        end in
      if duplicate then Ret (self, Ok None)
      else
        let session := set_last_activity now session in
        '(session, result) ← session_handle_frame p alloc session header bytes_after_header (us_payload_size_max self);
        let put session := set_sessions self (tr_update (us_sessions self) from (λ _, session)) in
        match result with
        | Ok (Some reassembled) =>
            Ret (put (set_last_transfer_id (vh_transfer_id header) session),
                 Ok (Some (mkTransfer (transfer_header (us_kind self) header from local_address now) reassembled)))
        | Ok None => Ret (put session, Ok None)
        | Err e => Ret (put session, Err e)
        end
  end.

Definition udp_handle_frame (p : profile) (alloc : allocator) (self : UdpSubscription) (bytes : list u8) (from : IpAddr)
    (local_address : NodeAddress) (now : I) : exec (UdpSubscription * Handled) :=
  match from with
  | V6 _ => Ret (self, Ok None)
  | V4 from_ip =>
      match Address_try_from from_ip with
      | Ok (AddressNode from) =>
          if negb (na_subnet from =? na_subnet local_address)%Z then Ret (self, Ok None)
          else
            match header ← udp_header_read_from_prefix bytes; ok (ValidatedUdpHeader_try_from header) with
            | Some header =>
                handle_sane_frame p alloc self header (drop UDP_SIZE bytes) (na_node from) local_address now
            | None => Ret (self, Ok None)
            end
      | Ok (AddressMulticast _) | Err _ => Ret (self, Ok None)
      end
  end.

Definition set_socket (self : UdpSubscription) (s : Sock) : UdpSubscription :=
  mkUdpSubscription s (us_kind self) (us_payload_size_max self) (us_timeout self) (us_sessions self).

Definition check_for_frames (p : profile) (alloc : allocator) (self : UdpSubscription) (local_address : NodeAddress)
    (now : I) : exec (UdpSubscription * Handled) :=
  let '(socket, r) := recv_from (us_socket self) MTU in
  let self := set_socket self socket in
  match r with
  | Err e => Ret (self, Err (UdpSocket e))
  | Ok (bytes, from) => udp_handle_frame p alloc self bytes from local_address now
  end.

Definition us_clean_expired_sessions (now : I) (self : UdpSubscription) : UdpSubscription :=
  set_sessions self (tr_remove_expired (us_sessions self) (is_expired now)).
End rx.
Arguments UdpSubscription : clear implicits.

(** ** The receiver

    [Subscriptions] of [rx/subscriptions.rs] is a vector per kind with the same operations as
    [DynamicSubscriptionManager], which stands for it. *)

Section receiver.
Context (crc32c : list u8 → u32) (MTU : nat).
Context {I D : Type} `{Instant I D} {Sock E : Type} `{RecvSocket Sock E}.
Context {M : Type} `{Tracker M UdpNodeId (Session I D UdpTransferId UdpSessionData)} (sessions_default : M).

Abbreviation Sub := (UdpSubscription D Sock M).
Abbreviation Handled := (result (UdpError E) (option (UdpTransfer (list u8) I))).

Record UdpReceiver := mkUdpReceiver {
  ur_subscriptions : DynamicSubscriptionManager Sub;
  ur_address : NodeAddress;
}.

Definition UdpReceiver_new (address : NodeAddress) : UdpReceiver := mkUdpReceiver manager_default address.

Definition set_ur_subscriptions (self : UdpReceiver) m : UdpReceiver := mkUdpReceiver m (ur_address self).

Definition udp_clean_expired_sessions (self : UdpReceiver) (now : I) : UdpReceiver :=
  let subs := ur_subscriptions self in
  let clean := for_each (us_clean_expired_sessions now) in
  set_ur_subscriptions self
    (mkManager (clean (message_subscriptions subs)) (clean (request_subscriptions subs))
      (clean (response_subscriptions subs))).

(** One of the three loops of [accept_inner]: the result with which it returns, if any. The
    allocator may answer differently for each subscription. *)
Fixpoint check_all (p : profile) (alloc : nat → allocator) (local_address : NodeAddress) (now : I) (l : list (Z * Sub))
    : exec (list (Z * Sub) * option Handled) :=
  match l with
  | [] => Ret ([], None)
  | (port, subscription) :: l' =>
      '(subscription, r) ← check_for_frames crc32c MTU p (alloc (length l')) subscription local_address now;
      let continue :=
        '(l', r) ← check_all p alloc local_address now l';
        Ret ((port, subscription) :: l', r) in
      match r with
      | Ok (Some transfer) => Ret ((port, subscription) :: l', Some (Ok (Some transfer)))
      | Ok None => continue
      | Err (UdpSocket e) =>
          if is_would_block e then continue else Ret ((port, subscription) :: l', Some (Err (UdpSocket e)))
      | Err e => Ret ((port, subscription) :: l', Some (Err e))
      end
  end.

Definition accept_inner (p : profile) (alloc : nat → nat → allocator) (self : UdpReceiver) (now : I)
    : exec (UdpReceiver * Handled) :=
  let subs := ur_subscriptions self in
  let local := ur_address self in
  let set v l := mkVec l (vec_cap v) in
  '(message, r) ← check_all p (alloc 0) local now (vec_list (message_subscriptions subs));
  let message := set (message_subscriptions subs) message in
  match r with
  | Some r =>
      Ret (set_ur_subscriptions self
        (mkManager message (request_subscriptions subs) (response_subscriptions subs)), r)
  | None =>
      '(request, r) ← check_all p (alloc 1) local now (vec_list (request_subscriptions subs));
      let request := set (request_subscriptions subs) request in
      match r with
      | Some r =>
          Ret (set_ur_subscriptions self (mkManager message request (response_subscriptions subs)), r)
      | None =>
          '(response, r) ← check_all p (alloc 2) local now (vec_list (response_subscriptions subs));
          let response := set (response_subscriptions subs) response in
          let self := set_ur_subscriptions self (mkManager message request response) in
          match r with
          | Some r => Ret (self, r)
          | None => Ret (self, Err (UdpSocket would_block))
          end
      end
  end.

(** The loop of [receive]. *)
Fixpoint udp_receive_loop (fuel : nat) (p : profile) (alloc : nat → nat → nat → allocator) (self : UdpReceiver) (now : I)
    : exec (UdpReceiver * Handled) :=
  match fuel with
  | 0 => Panic
  | S fuel' =>
      '(self, r) ← accept_inner p (alloc fuel') self now;
      match r with
      | Ok (Some transfer) => Ret (self, Ok (Some transfer))
      | Ok None => udp_receive_loop fuel' p alloc self now
      | Err (UdpSocket e) => if is_would_block e then Ret (self, Ok None) else Ret (self, Err (UdpSocket e))
      | Err e => Ret (self, Err e)
      end
  end.

Definition udp_receive (fuel : nat) (p : profile) (alloc : nat → nat → nat → allocator) (self : UdpReceiver) (now : I)
    : exec (UdpReceiver * Handled) :=
  '(self, result) ← udp_receive_loop fuel p alloc self now;
  Ret (udp_clean_expired_sessions self now, result).

(** ** Subscribing *)

Definition udp_subscribe_message (alloc : allocator) (self : UdpReceiver) (subject : SubjectId)
    (payload_size_max : usize) (timeout : D) : UdpReceiver * result (UdpError E) unit :=
  match new_message sessions_default subject payload_size_max timeout (ur_address self) with
  | Err e => (self, Err (UdpSocket e))
  | Ok subscription =>
      let '(m, r) := subscribe_message alloc (ur_subscriptions self) subject subscription in
      (set_ur_subscriptions self m, map_err UdpMemory r)
  end.
Definition udp_subscribe_request (alloc : allocator) (self : UdpReceiver) (service : ServiceId)
    (payload_size_max : usize) (timeout : D) : UdpReceiver * result (ServiceSubscribeError (UdpError E)) unit :=
  match new_request sessions_default service payload_size_max timeout (ur_address self) with
  | Err e => (self, Err (TransportError (UdpSocket e)))
  | Ok subscription =>
      let '(m, r) := subscribe_request alloc (ur_subscriptions self) service subscription in
      (set_ur_subscriptions self m, map_err (λ e, TransportError (UdpMemory e)) r)
  end.
Definition udp_subscribe_response (alloc : allocator) (self : UdpReceiver) (service : ServiceId)
    (payload_size_max : usize) (timeout : D) : UdpReceiver * result (ServiceSubscribeError (UdpError E)) unit :=
  match new_response sessions_default service payload_size_max timeout (ur_address self) with
  | Err e => (self, Err (TransportError (UdpSocket e)))
  | Ok subscription =>
      let '(m, r) := subscribe_response alloc (ur_subscriptions self) service subscription in
      (set_ur_subscriptions self m, map_err (λ e, TransportError (UdpMemory e)) r)
  end.
Definition udp_unsubscribe_message (self : UdpReceiver) (subject : SubjectId) : UdpReceiver :=
  set_ur_subscriptions self (unsubscribe_message (ur_subscriptions self) subject).1.
Definition udp_unsubscribe_request (self : UdpReceiver) (service : ServiceId) : UdpReceiver :=
  set_ur_subscriptions self (unsubscribe_request (ur_subscriptions self) service).1.
Definition udp_unsubscribe_response (self : UdpReceiver) (service : ServiceId) : UdpReceiver :=
  set_ur_subscriptions self (unsubscribe_response (ur_subscriptions self) service).1.
End receiver.
Arguments UdpReceiver : clear implicits.
