(* ===== verification/UdpSpec.v ===== *)
(** * Correctness of the UDP transport

    Reassembly of the frames of a session, the receiver's treatment of any datagram, and the
    link from transmitter to receiver: which transfers arrive, and which cannot. *)

From S2P Require Import Prelude CoreTypes Time Transfer Subscriptions SessionTracker EncCursor EncCursorSpec EncFieldsSpec.
From S2P Require Import SerHeader UdpAddress UdpTx UdpRx.

(** ** Sessions *)

Section session.
Context (crc32c : list u8 → u32) {I D : Type} `{Instant I D} {E : Type}.
Abbreviation UdpSession := (Session I D UdpTransferId UdpSessionData).
Implicit Types (s : UdpSession) (b : Buildup) (h : ValidatedUdpHeader).

(** A buildup never expects another frame than the one with index 1. *)
Definition buildup_ok b : Prop :=
  vec_wf (bu_bytes b) ∧ bytes_ok (vec_list (bu_bytes b)) ∧ bu_next_frame_index b = 1%Z.

Definition usession_ok s : Prop := ∀ b, buildup (session_data s) = Some b → buildup_ok b.

Definition same_session s s' : Prop :=
  last_activity s' = last_activity s ∧ session_timeout s' = session_timeout s ∧
  last_transfer_id s' = last_transfer_id s.

Lemma Buildup_new_spec p alloc h bytes max : vh_frame_index h = 0%Z → alloc_ok alloc → bytes_ok bytes →
  ∃ r, Buildup_new p alloc h bytes max = Ret r ∧
    match r with
    | Ok b => length bytes ≤ max ∧ buildup_ok b ∧ vec_list (bu_bytes b) = bytes ∧
        bu_priority b = vh_priority h ∧ bu_transfer_id b = vh_transfer_id h ∧
        (max = 0 ∧ vec_cap (bu_bytes b) = 0 ∨ alloc max = Some (vec_cap (bu_bytes b)))
    | Err e => e = BuildupLength ∧ max < length bytes ∨ alloc max = None
    end.
Proof.
  intros Hi Ha Hb. unfold Buildup_new. destruct (Nat.ltb_spec max (length bytes)) as [Hl|Hl].
  { eexists. split; [done|]. by left. }
  unfold vec_with_capacity. destruct (Nat.eqb_spec max 0) as [->|Hm].
  - rewrite Hi. destruct bytes; [|cbn in Hl; lia]. eexists. split; [done|]. cbn.
    split_and!; try done. by left.
  - destruct (alloc max) as [c|] eqn:Ec; cbn [fmap option_fmap option_map]; [|eexists; split; [done|by right]].
    rewrite Hi. eexists. split; [done|]. cbn. apply Ha in Ec as Hc. split_and!; try done; [|by right].
    split_and!; [unfold vec_wf; cbn; lia|done|done].
Qed.

Lemma Buildup_push_Ok b h bytes b' : Buildup_push b h bytes = Ok b' ↔
  vh_frame_index h = bu_next_frame_index b ∧ vh_transfer_id h = bu_transfer_id b ∧
  vh_priority h = bu_priority b ∧ length (vec_list (bu_bytes b)) + length bytes ≤ vec_cap (bu_bytes b) ∧
  b' = mkBuildup (mkVec (vec_list (bu_bytes b) ++ bytes) (vec_cap (bu_bytes b))) (bu_next_frame_index b)
         (bu_priority b) (bu_transfer_id b).
Proof.
  unfold Buildup_push, vec_len. destruct (Z.eqb_spec (vh_frame_index h) (bu_next_frame_index b)); cbn [negb];
    [|split; [done|by intros (? & _)]].
  destruct (Z.eqb_spec (vh_transfer_id h) (bu_transfer_id b)); cbn [negb]; [|split; [done|by intros (_ & ? & _)]].
  case_bool_decide; cbn [negb]; [|split; [done|by intros (_ & _ & ? & _)]].
  case_cmp; split; [done|intros (_ & _ & _ & ? & _); lia|by intros [= <-]|by intros (_ & _ & _ & _ & ->)].
Qed.

Lemma buildup_ok_push b h bytes b' : buildup_ok b → bytes_ok bytes → Buildup_push b h bytes = Ok b' →
  vh_frame_index h = 1%Z ∧ buildup_ok b'.
Proof.
  intros (Hwf & Hok & Hi) Hb (Hidx & _ & _ & Hl & ->)%Buildup_push_Ok. split; [congruence|].
  split_and!; [|by apply Forall_app|done]. unfold vec_wf. cbn. rewrite length_app. lia.
Qed.

(** What the end of a reassembly gives. *)
Lemma finish_reassembly_spec p l :
  match finish_reassembly crc32c p l with
  | Ret (Some payload) => ∃ crc, l = payload ++ crc ∧ length crc = 4 ∧ from_le_bytes crc = crc32c payload
  | Ret None => True
  | Panic => p = Debug ∧ length l < 4
  end.
Proof.
  unfold finish_reassembly. case_cmp; [by destruct p|]. cbn zeta. case_cmp; [|done].
  exists (drop (length l - 4) l). split_and!; [by rewrite take_drop|rewrite length_drop; lia|done].
Qed.

(** One frame. *)
Lemma session_handle_frame_spec p alloc s h bytes max : usession_ok s → alloc_ok alloc → bytes_ok bytes →
  match session_handle_frame (E := E) crc32c p alloc s h bytes max with
  | Ret (s', r) =>
      usession_ok s' ∧ same_session s s' ∧
      match r with
      | Ok (Some payload) =>
          bytes_ok payload ∧ vh_last_frame h = true ∧
          (vh_frame_index h = 0%Z ∧ payload = bytes ∧ length bytes ≤ max ∨
           vh_frame_index h = 1%Z ∧ ∃ b crc, buildup (session_data s) = Some b ∧
             vec_list (bu_bytes b) ++ bytes = payload ++ crc ∧ length crc = 4 ∧ from_le_bytes crc = crc32c payload ∧
             bu_transfer_id b = vh_transfer_id h ∧ length payload + 4 ≤ vec_cap (bu_bytes b))
      | Ok None => True
      | Err e => e = UdpMemory mkOutOfMemoryError ∧ ∃ n, alloc n = None
      end
  | Panic => p = Debug ∧ vh_last_frame h = true ∧ vh_frame_index h = 1%Z
  end.
Proof.
  intros Hs Ha Hb. unfold session_handle_frame.
  assert (Hkeep : ∀ d, (∀ b, d = Some b → buildup_ok b) →
    usession_ok (set_session_data (mkUdpSessionData d) s) ∧ same_session s (set_session_data (mkUdpSessionData d) s))
    by (intros d Hd; by split).
  assert (Hself : usession_ok s ∧ same_session s s) by done.
  assert (Hnone : usession_ok (set_session_data (mkUdpSessionData None) s) ∧
    same_session s (set_session_data (mkUdpSessionData None) s)) by (by apply Hkeep).
  destruct (Z.eqb_spec (vh_frame_index h) 0) as [Hi|Hi].
  - destruct (vh_last_frame h) eqn:Hl.
    + case_cmp; [|by split_and!]. unfold vec_with_capacity.
      destruct (length bytes =? 0); [|destruct (alloc (length bytes)) eqn:Ec]; cbn; split_and!; try done; eauto.
    + destruct (Buildup_new_spec p alloc h bytes max Hi Ha Hb) as (r & -> & Hr). cbn [mbind exec_bind].
      destruct r as [b|]; [|by split_and!].
      destruct (Hkeep (Some b)) as [? ?]; [intros ? [= <-]; apply Hr|]. by split_and!.
  - destruct (vh_last_frame h) eqn:Hl.
    + destruct (buildup (session_data s)) as [b|] eqn:Hbu; [|by split_and!].
      destruct (Buildup_push b h bytes) as [b'|] eqn:Hp; [|by split_and!].
      destruct (buildup_ok_push b h bytes b' (Hs b Hbu) Hb Hp) as [Hidx Hok'].
      pose proof (finish_reassembly_spec p (vec_list (into_payload b'))) as Hf.
      destruct (finish_reassembly _ _ _) as [[payload|]|]; cbn [mbind exec_bind]; [|by split_and!|destruct Hf; by split_and!].
      destruct Hf as (crc & Heq & Hlen & Hcrc). split_and!; try apply Hnone; try done.
      * destruct Hok' as (_ & Hbytes & _). unfold into_payload in Heq. rewrite Heq in Hbytes. by apply Forall_app in Hbytes as [? _].
      * right. split; [done|]. apply Buildup_push_Ok in Hp as (_ & Ht & _ & Hle & ->). cbn in Heq.
        exists b, crc. split_and!; try done. rewrite <- length_app, Heq, length_app in Hle. lia.
    + destruct (buildup (session_data s)) as [b|] eqn:Hbu; [|by split_and!].
      destruct (Buildup_push b h bytes) as [b'|] eqn:Hp; [|by split_and!].
      destruct (buildup_ok_push b h bytes b' (Hs b Hbu) Hb Hp) as [_ Hok'].
      destruct (Hkeep (Some b')) as [? ?]; [by intros ? [= <-]|]. by split_and!.
Qed.

(** Frames with an index above 1 never complete a transfer. *)
Lemma late_frame p alloc s h bytes max : usession_ok s → (1 < vh_frame_index h)%Z →
  ∃ s', session_handle_frame (E := E) crc32c p alloc s h bytes max = Ret (s', Ok None) ∧
    usession_ok s' ∧ same_session s s'.
Proof.
  intros Hs Hi. unfold session_handle_frame. rewrite (proj2 (Z.eqb_neq _ _)) by lia.
  destruct (buildup (session_data s)) as [b|] eqn:Hbu; [|by destruct (vh_last_frame h); eexists].
  assert (Hp : ∃ e, Buildup_push b h bytes = Err e).
  { destruct (Buildup_push b h bytes) as [b'|e] eqn:Hp; [|by eexists].
    apply Buildup_push_Ok in Hp as (Hidx & _). destruct (Hs b Hbu) as (_ & _ & Hn). lia. }
  destruct Hp as [e ->]. destruct (vh_last_frame h); (eexists; split; [done|]; by split).
Qed.

(** What two frames of a transfer give: the data without its CRC, if there is space for both. *)
Definition two_frames (data : list u8) (max : usize) : option (list u8) :=
  let n := length data - 4 in
  if length data <=? max then
    if (crc32c (take n data) =? from_le_bytes (drop n data))%Z then Some (take n data) else None
  else None.

Lemma two_frames_spec p alloc alloc' s prio tid d0 d1 max now :
  usession_ok s → (∀ b, buildup (session_data s) = Some b → bu_transfer_id b ≠ tid) → bytes_ok d0 → bytes_ok d1 →
  (∀ n, alloc n = Some n) → 4 ≤ length (d0 ++ d1) →
  ∃ s1 s2, session_handle_frame (E := E) crc32c p alloc s (mkValidatedUdpHeader prio 0 false tid) d0 max = Ret (s1, Ok None) ∧
    usession_ok s1 ∧ same_session s s1 ∧
    session_handle_frame (E := E) crc32c p alloc' (set_last_activity now s1) (mkValidatedUdpHeader prio 1 true tid) d1 max =
      Ret (s2, Ok (two_frames (d0 ++ d1) max)) ∧ usession_ok s2.
Proof.
  intros Hs Hb Hd0 Hd1 Ha Hlen. unfold session_handle_frame at 1. cbn [vh_frame_index vh_last_frame Z.eqb].
  assert (Halloc : alloc_ok alloc) by (intros n c Hc; rewrite Ha in Hc; by injection Hc as ->).
  destruct (Buildup_new_spec p alloc (mkValidatedUdpHeader prio 0 false tid) d0 max eq_refl Halloc Hd0) as (r & -> & Hr).
  cbn [mbind exec_bind]. unfold two_frames. rewrite length_app in *. destruct r as [b|e].
  - destruct Hr as (Hmax & Hok & Hbytes & Hprio & Htid & Hcap).
    assert (Ecap : vec_cap (bu_bytes b) = max) by (destruct Hcap as [[-> ?]|Hc]; [done|rewrite Ha in Hc; congruence]).
    eexists _, (set_last_activity now (set_session_data (mkUdpSessionData None) s)). split; [done|].
    split_and!; [by intros ? [= <-]|done..| |by intros ? [=]].
    unfold session_handle_frame. cbn [vh_frame_index vh_last_frame Z.eqb set_last_activity set_session_data session_data buildup].
    destruct (Buildup_push b (mkValidatedUdpHeader prio 1 true tid) d1) as [b'|e] eqn:Hp.
    + apply Buildup_push_Ok in Hp as (_ & _ & _ & Hle & ->). rewrite Hbytes, Ecap in Hle.
      rewrite (proj2 (Nat.leb_le _ _)) by lia. unfold finish_reassembly, into_payload. cbn [bu_bytes vec_list].
      rewrite Hbytes, length_app, (proj2 (Nat.ltb_ge _ _)) by lia. cbn [mbind exec_bind]. done.
    + rewrite (proj2 (Nat.leb_gt _ _)); [done|]. destruct (decide (length d0 + length d1 ≤ max)) as [Hle|]; [|lia].
      assert (∃ b', Buildup_push b (mkValidatedUdpHeader prio 1 true tid) d1 = Ok b') as [b' Hb']; [|congruence].
      eexists. apply Buildup_push_Ok. rewrite Hbytes, Ecap. cbn. split_and!; [by destruct Hok as (_ & _ & ->)|done..].
  - destruct Hr as [[-> Hmax]|Hno]; [|by rewrite Ha in Hno].
    rewrite (proj2 (Nat.leb_gt _ _)) by lia.
    destruct (buildup (session_data s)) as [b|] eqn:Hbu.
    + eexists s, (set_session_data (mkUdpSessionData None) (set_last_activity now s)).
      split_and!; [done|done|done| |by intros ? [=]].
      unfold session_handle_frame. cbn [vh_frame_index vh_last_frame Z.eqb set_last_activity session_data]. rewrite Hbu.
      destruct (Buildup_push b _ d1) as [b'|] eqn:Hp; [|done].
      apply Buildup_push_Ok in Hp as (_ & Ht & _). by destruct (Hb b).
    + eexists s, (set_last_activity now s). split_and!; [done|done|done| |done].
      unfold session_handle_frame. cbn [vh_frame_index vh_last_frame Z.eqb set_last_activity session_data]. by rewrite Hbu.
Qed.
End session.


(** ** Subscriptions *)

Section subscription.
Context (crc32c : list u8 → u32) {I D : Type} `{Instant I D} {Sock E M : Type}.
Abbreviation UdpSession := (Session I D UdpTransferId UdpSessionData).
Context `{TrackerSpec M UdpNodeId UdpSession}.
Abbreviation Sub := (UdpSubscription D Sock M).
Implicit Types (self : Sub) (s : UdpSession) (h : ValidatedUdpHeader).

(** The session of a node, or the one that would be created for it. *)
Definition session_of self (now : I) (node : UdpNodeId) : UdpSession :=
  default (mkSession now (us_timeout self) None UdpSessionData_default) (tr_get (us_sessions self) node).

Definition duplicate h s : bool :=
  match last_transfer_id s with Some last => (vh_transfer_id h <=? last)%Z | None => false end.

(** The sessions are well-formed; [keys] are the nodes that the tracker can hold. *)
Definition usub_ok (keys : UdpNodeId → Prop) self : Prop :=
  tr_ok (us_sessions self) ∧
  ∀ n, keys n → tr_key (us_sessions self) n ∧ ∀ s, tr_get (us_sessions self) n = Some s → usession_ok s.

Lemma session_of_ok keys self now node : usub_ok keys self → keys node → usession_ok (session_of self now node).
Proof.
  intros [_ Hs] Hn. unfold session_of. destruct (tr_get _ node) as [s|] eqn:E0; [by apply (Hs node Hn)|by intros b [=]].
Qed.

(** The tracker has a session of the node or space for one. *)
Definition room_for self (node : UdpNodeId) : Prop :=
  ∀ s, is_ok (tr_get_mut_or_insert (us_sessions self) node s).2 = true.

Lemma room_for_present keys self node s : usub_ok keys self → keys node →
  tr_get (us_sessions self) node = Some s → room_for self node.
Proof.
  intros [Hm Hself] Hn Hs s0. pose proof (tr_get_or_insert (us_sessions self) node s0 node Hm (proj1 (Hself node Hn))
    (proj1 (Hself node Hn))) as Hlaw.
  destruct (tr_get_mut_or_insert _ node s0) as [m [s'|e]]; [done|]. destruct Hlaw as (_ & _ & Hnone). congruence.
Qed.

(** The tracker after the session of a node is written. *)
Definition stored keys self node s m : Prop :=
  tr_ok m ∧ (∀ n, keys n → tr_key m n) ∧ tr_get m node = Some s ∧
  ∀ n, keys n → n ≠ node → tr_get m n = tr_get (us_sessions self) n.

Lemma stored_ok keys self node s m : usub_ok keys self → usession_ok s → stored keys self node s m →
  usub_ok keys (set_sessions self m).
Proof.
  intros [_ Hself] Hs (Hm & Hk & Hget & Hother). split; [done|]. intros n Hn. split; [by apply Hk|].
  cbn [set_sessions us_sessions]. intros s' Hs'. destruct (decide (n = node)) as [->|Hne]; [by replace s' with s by congruence|].
  rewrite Hother in Hs' by done. by apply (Hself n Hn).
Qed.

Lemma get_or_insert_stored keys self now node : usub_ok keys self → keys node →
  let '(m, r) := tr_get_mut_or_insert (us_sessions self) node (mkSession now (us_timeout self) None UdpSessionData_default) in
  match r with
  | Ok s => s = session_of self now node ∧ stored keys self node s m
  | Err _ => usub_ok keys (set_sessions self m) ∧ tr_get (us_sessions self) node = None ∧
             ∀ n, keys n → tr_get m n = tr_get (us_sessions self) n
  end.
Proof.
  intros [Hm Hself] Hn. set (s0 := mkSession _ _ _ _).
  pose proof (λ n', tr_get_or_insert (us_sessions self) node s0 n' Hm (proj1 (Hself node Hn))) as Hlaw.
  pose proof (λ n' Hn', proj1 (proj2 (tr_key_kept (us_sessions self) node n' Hn')) s0) as Hkeys.
  destruct (tr_get_mut_or_insert _ node s0) as [m r]. destruct r as [s|e].
  - destruct (Hlaw node (proj1 (Hself node Hn))) as (Hok & Hget & Hs & _). split; [exact Hs|].
    split_and!; [done|intros n Hkn; by apply Hkeys, Hself|done|].
    intros n Hkn Hne. by apply (Hlaw n (proj1 (Hself n Hkn))).
  - destruct (Hlaw node (proj1 (Hself node Hn))) as (Hok & _ & Hnone).
    assert (Hall : ∀ n, keys n → tr_get m n = tr_get (us_sessions self) n)
      by (intros n Hkn; by apply (Hlaw n (proj1 (Hself n Hkn)))).
    split_and!; [split; [done|]|done|done]. intros n Hkn. split; [by apply Hkeys, Hself|].
    cbn [set_sessions us_sessions]. intros s Hs. rewrite Hall in Hs by done. by apply (Hself n Hkn).
Qed.

Lemma update_stored keys self node s m s' : keys node → stored keys self node s m →
  stored keys self node s' (tr_update m node (λ _, s')).
Proof.
  intros Hn (Hm & Hk & Hget & Hother).
  destruct (tr_get_update m node (λ _, s') node Hm (Hk _ Hn) (Hk _ Hn)) as (Hok & Heq & _).
  split_and!; [done| |by rewrite Heq, Hget|].
  - intros n Hkn. by apply (tr_key_kept m node n (Hk n Hkn)).
  - intros n Hkn Hne. destruct (tr_get_update m node (λ _, s') n Hm (Hk _ Hn) (Hk _ Hkn)) as (_ & _ & Hn').
    rewrite Hn' by done. by apply Hother.
Qed.

(** The part of [handle_sane_frame] after the session has been found. *)
Definition after_session (kind : SubscriptionKind) (put : UdpSession → Sub) h node local (now : I)
    (x : UdpSession * result (UdpError E) (option (list u8))) : Sub * result (UdpError E) (option (UdpTransfer (list u8) I)) :=
  match x with
  | (s, Ok (Some payload)) =>
      (put (set_last_transfer_id (vh_transfer_id h) s), Ok (Some (mkTransfer (transfer_header kind h node local now) payload)))
  | (s, Ok None) => (put s, Ok None)
  | (s, Err e) => (put s, Err e)
  end.

Lemma handle_sane_frame_eq p alloc keys self h bytes node local now : usub_ok keys self → keys node →
  let s := session_of self now node in
  (∃ m, handle_sane_frame (E := E) crc32c p alloc self h bytes node local now =
      Ret (set_sessions self m, Err (UdpMemory mkOutOfMemoryError)) ∧ ¬ room_for self node ∧
      usub_ok keys (set_sessions self m)) ∨
  ∃ m, stored keys self node s m ∧
    handle_sane_frame (E := E) crc32c p alloc self h bytes node local now =
      if duplicate h s then Ret (set_sessions self m, Ok None)
      else after_session (us_kind self) (λ s', set_sessions self (tr_update m node (λ _, s'))) h node local now <$>
        session_handle_frame crc32c p alloc (set_last_activity now s) h bytes (us_payload_size_max self).
Proof.
  intros Hself Hn s. pose proof (get_or_insert_stored keys self now node Hself Hn) as Hg.
  unfold handle_sane_frame. pose proof (λ H : room_for self node, H (mkSession now (us_timeout self) None UdpSessionData_default)) as Hroom.
  destruct (tr_get_mut_or_insert _ node _) as [m [s1|[]]].
  - destruct Hg as [-> Hst]. right. exists m. split; [done|]. fold s. unfold duplicate.
    destruct (match last_transfer_id s with Some _ => _ | None => _ end); [done|].
    by destruct (session_handle_frame _ _ _ _ _ _ _) as [[s' [[payload|]|e]]|].
  - left. exists m. destruct Hg as (? & _ & _). split_and!; [done|intros Hr; by specialize (Hroom Hr)|done].
Qed.

(** What is known of a delivered transfer and of the state after it. *)
Definition udelivery self self' h node local now (tr : UdpTransfer (list u8) I) : Prop :=
  tr_header tr = transfer_header (us_kind self) h node local now ∧
  bytes_ok (tr_payload tr) ∧ vh_last_frame h = true ∧ (0 ≤ vh_frame_index h ≤ 1)%Z ∧
  (∀ t, last_transfer_id (session_of self now node) = Some t → (t < vh_transfer_id h)%Z) ∧
  ∃ s', tr_get (us_sessions self') node = Some s' ∧ last_transfer_id s' = Some (vh_transfer_id h).

Definition same_config self self' : Prop :=
  us_kind self' = us_kind self ∧ us_payload_size_max self' = us_payload_size_max self ∧
  us_timeout self' = us_timeout self ∧ us_socket self' = us_socket self.

Lemma handle_sane_frame_spec p alloc keys self h bytes node local now :
  usub_ok keys self → keys node → alloc_ok alloc → bytes_ok bytes →
  match handle_sane_frame (E := E) crc32c p alloc self h bytes node local now with
  | Ret (self', r) =>
      usub_ok keys self' ∧ same_config self self' ∧
      match r with
      | Ok (Some tr) => udelivery self self' h node local now tr
      | Ok None => True
      | Err e => e = UdpMemory mkOutOfMemoryError
      end
  | Panic => p = Debug ∧ vh_last_frame h = true ∧ vh_frame_index h = 1%Z
  end.
Proof.
  intros Hself Hn Ha Hb.
  destruct (handle_sane_frame_eq p alloc keys self h bytes node local now Hself Hn) as [(m & -> & _ & Hok)|(m & Hst & ->)].
  { by split_and!. }
  assert (Hs := session_of_ok keys self now node Hself Hn). set (s := session_of self now node) in *.
  destruct (duplicate h s) eqn:Hd; [split_and!; [by eapply stored_ok|done..]|].
  assert (Hs0 : usession_ok (set_last_activity now s)) by done.
  pose proof (session_handle_frame_spec crc32c (E := E) p alloc _ h bytes (us_payload_size_max self) Hs0 Ha Hb) as Hf.
  destruct (session_handle_frame _ _ _ _ _ _ _) as [[s' r]|]; cbn [fmap exec_fmap]; [|done].
  destruct Hf as (Hs' & Hsame & Hr).
  assert (Hput : ∀ s'', usession_ok s'' → usub_ok keys (set_sessions self (tr_update m node (λ _, s''))))
    by (intros s'' Hs''; eapply stored_ok; [done|done|]; by eapply update_stored).
  destruct r as [[payload|]|e]; cbn [after_session].
  - split_and!; [by apply Hput|done..|]. destruct Hr as (Hp & Hl & Hi). split_and!; [done|done|done|lia..| |].
    + intros t Ht. unfold duplicate in Hd. fold s in Ht. rewrite Ht in Hd. by apply Z.leb_gt in Hd.
    + eexists. split; [by apply (update_stored keys self node s m)|done].
  - split_and!; [by apply Hput|done..].
  - split_and!; [by apply Hput|done..|by destruct Hr].
Qed.

(** ** Datagrams *)

(** A datagram: when and from where it arrives, and the state of the allocator. *)
Record udp_event := mkUdpEvent { ue_now : I; ue_from : IpAddr; ue_bytes : list u8; ue_alloc : allocator }.

Fixpoint udp_feed (p : profile) (local : NodeAddress) self (input : list udp_event)
    : exec (Sub * list (UdpTransfer (list u8) I)) :=
  match input with
  | [] => Ret (self, [])
  | e :: rest =>
      '(self, r) ← udp_handle_frame (E := E) crc32c p (ue_alloc e) self (ue_bytes e) (ue_from e) local (ue_now e);
      '(self, delivered) ← udp_feed p local self rest;
      Ret (self, match r with Ok (Some tr) => tr :: delivered | _ => delivered end)
  end.

Lemma handle_datagram p alloc self prio i last tid data ip a local now :
  is_u 31 i → is_u 64 tid → Address_try_from ip = Ok (AddressNode a) → na_subnet a = na_subnet local →
  udp_handle_frame (E := E) crc32c p alloc self (udp_header_as_bytes (frame_header prio i last tid) ++ data) (V4 ip) local now =
    handle_sane_frame crc32c p alloc self (mkValidatedUdpHeader prio i last tid) data (na_node a) local now.
Proof.
  intros Hi Ht Ha Hsub. unfold udp_handle_frame. rewrite Ha, Hsub, Z.eqb_refl. cbn [negb].
  rewrite udp_header_read_as_bytes by (by apply frame_header_ok). cbn [mbind option_bind].
  rewrite frame_header_validated by done. cbn [ok]. by rewrite drop_app_length' by (by rewrite udp_header_length).
Qed.

(** A frame that is not the last one, or comes after the second, delivers nothing. *)
Definition idle_event ip e : Prop :=
  ue_from e = V4 ip ∧ alloc_ok (ue_alloc e) ∧ ∃ prio i last tid data,
    ue_bytes e = udp_header_as_bytes (frame_header prio i last tid) ++ data ∧ is_u 31 i ∧ is_u 64 tid ∧
    bytes_ok data ∧ (last = false ∨ (1 < i)%Z).

Lemma feed_idle p keys ip a local input : ∀ self, usub_ok keys self → keys (na_node a) →
  Address_try_from ip = Ok (AddressNode a) → na_subnet a = na_subnet local → Forall (idle_event ip) input →
  ∃ self', udp_feed p local self input = Ret (self', []).
Proof.
  induction input as [|e input IH]; intros self Hself Hn Ha Hsub Hin; [by eexists|].
  apply Forall_cons in Hin as [(Hfrom & Halloc & prio & i & last & tid & data & Hbytes & Hi & Ht & Hd & Hlate) Hin].
  cbn [udp_feed]. rewrite Hfrom, Hbytes, (handle_datagram _ _ _ _ _ _ _ _ _ a) by done.
  pose proof (handle_sane_frame_spec p (ue_alloc e) keys self (mkValidatedUdpHeader prio i last tid) data
    (na_node a) local (ue_now e) Hself Hn Halloc Hd) as Hspec.
  destruct (handle_sane_frame _ _ _ _ _ _ _ _ _) as [[self1 r]|].
  - destruct Hspec as (Hself1 & _ & Hr). cbn [mbind exec_bind].
    destruct (IH self1 Hself1 Hn Ha Hsub Hin) as (self' & ->). cbn [mbind exec_bind].
    exists self'. destruct r as [[tr|]|]; [|done..]. destruct Hr as (_ & _ & Hl & Hidx & _). cbn in Hl, Hidx.
    destruct Hlate; [congruence|lia].
  - destruct Hspec as (_ & Hl & Hidx). cbn in Hl, Hidx. destruct Hlate; [congruence|lia].
Qed.

(** ** Whole transfers *)

(** One frame of a node that has a session or space for one. *)
Lemma handle_step p alloc keys self h data node local now s' r :
  usub_ok keys self → keys node → room_for self node → duplicate h (session_of self now node) = false → usession_ok s' →
  session_handle_frame (E := E) crc32c p alloc (set_last_activity now (session_of self now node)) h data
    (us_payload_size_max self) = Ret (s', Ok r) →
  ∃ self', handle_sane_frame (E := E) crc32c p alloc self h data node local now =
      Ret (self', Ok ((λ payload, mkTransfer (transfer_header (us_kind self) h node local now) payload) <$> r)) ∧
    usub_ok keys self' ∧ same_config self self' ∧
    (r = None → tr_get (us_sessions self') node = Some s').
Proof.
  intros Hself Hn Hroom Hd Hs' Hf.
  destruct (handle_sane_frame_eq p alloc keys self h data node local now Hself Hn) as [(m & _ & Hno & _)|(m & Hst & ->)];
    [by destruct Hno|].
  rewrite Hd, Hf. cbn [fmap exec_fmap].
  assert (Hput : ∀ s'', usession_ok s'' → usub_ok keys (set_sessions self (tr_update m node (λ _, s''))))
    by (intros s'' Hs''; eapply stored_ok; [done|done|]; by eapply update_stored).
  destruct r as [payload|]; cbn [after_session]; (eexists; split_and!; [done|by apply Hput|done..|]); [done|].
  intros _. by apply (update_stored keys self node (session_of self now node) m s').
Qed.

(** ** The link *)

Context (MTU : nat) (Hmtu : UDP_SIZE < MTU).
Abbreviation room := (MTU - UDP_SIZE).

Definition datagram prio (i : nat) (last : bool) (tid : u64) (data : list u8) : list u8 :=
  udp_header_as_bytes (frame_header prio (Z.of_nat i) last tid) ++ data.

(** The datagrams of data that do not fit into two frames are all idle. *)
Lemma datagrams_late tid prio fuel : ∀ index data, (2 - index) * room ≤ length data →
  Forall (λ d, ∃ i last data', d = datagram prio i last tid data' ∧ i ≤ index + length data ∧
    (bytes_ok data → bytes_ok data') ∧ (last = false ∨ 1 < i))
    (datagrams_from MTU fuel tid prio index data).
Proof.
  clear crc32c. induction fuel as [|fuel IH]; intros index data Hlen; [constructor|]. cbn [datagrams_from]. case_cmp.
  - apply Forall_singleton. exists index, true, data. split_and!; [done|lia|done|right].
    destruct (decide (2 ≤ index)); [done|]. assert (1 * room ≤ (2 - index) * room) by (apply Nat.mul_le_mono_r; lia). lia.
  - constructor.
    + exists index, false, (take room data). split_and!; [done|lia|apply Forall_take|by left].
    + assert (Hd : length (drop room data) = length data - room) by apply length_drop.
      eapply Forall_impl; [apply (IH (S index) (drop room data))|].
      * rewrite Hd. replace (2 - index) with (min 1 (2 - index) + (2 - S index)) in Hlen by lia.
        rewrite Nat.mul_add_distr_r in Hlen. destruct (decide (2 ≤ index)); [replace (2 - S index) with 0 by lia; lia|].
        replace (min 1 (2 - index)) with 1 in Hlen by lia. lia.
      * intros d (j & last & data' & -> & Hj & Hok & Hl). exists j, last, data'. split_and!; [done|lia| |done].
        intros Hb. by apply Hok, Forall_drop.
Qed.

(** A datagram of the node arrives, with an allocator that gives what it is asked for. *)
Definition arrives_from ip e : Prop := ue_from e = V4 ip ∧ ∀ n, ue_alloc e n = Some n.

(** What is needed of the receiver for the transfer [tid] of a node. *)
Definition ready keys self node tid : Prop :=
  usub_ok keys self ∧ keys node ∧ room_for self node ∧
  ∀ s, tr_get (us_sessions self) node = Some s →
    (∀ t, last_transfer_id s = Some t → (t < tid)%Z) ∧
    ∀ b, buildup (session_data s) = Some b → bu_transfer_id b ≠ tid.

Lemma ready_session keys self node tid now : ready keys self node tid →
  usession_ok (session_of self now node) ∧
  (∀ t, last_transfer_id (session_of self now node) = Some t → (t < tid)%Z) ∧
  (∀ b, buildup (session_data (session_of self now node)) = Some b → bu_transfer_id b ≠ tid).
Proof.
  intros (Hself & Hn & _ & Hs). split; [by eapply session_of_ok|]. unfold session_of.
  destruct (tr_get _ node) as [s|] eqn:Es; [by apply Hs|done].
Qed.

Lemma not_duplicate h s tid : vh_transfer_id h = tid → (∀ t, last_transfer_id s = Some t → (t < tid)%Z) →
  duplicate h s = false.
Proof.
  intros Htid Hl. unfold duplicate. destruct (last_transfer_id s) as [t|]; [|done]. apply Z.leb_gt. rewrite Htid. by apply Hl.
Qed.

Definition the_transfer self prio tid node local now payload : UdpTransfer (list u8) I :=
  mkTransfer (transfer_header (us_kind self) (mkValidatedUdpHeader prio 0 true tid) node local now) payload.

Lemma udp_feed_single p keys self local ip a prio tid e data :
  ready keys self (na_node a) tid → Address_try_from ip = Ok (AddressNode a) → na_subnet a = na_subnet local →
  is_u 64 tid → arrives_from ip e → ue_bytes e = datagram prio 0 true tid data →
  ∃ self', udp_feed p local self [e] = Ret (self',
    if length data <=? us_payload_size_max self then [the_transfer self prio tid (na_node a) local (ue_now e) data] else []).
Proof.
  intros Hready Ha Hsub Ht [Hfrom Halloc] Hbytes. cbn [udp_feed]. rewrite Hfrom, Hbytes. unfold datagram.
  change (Z.of_nat 0) with 0%Z. rewrite (handle_datagram _ _ _ _ _ _ _ _ _ a) by done.
  destruct (ready_session keys self (na_node a) tid (ue_now e) Hready) as (Hs & Hlast & _).
  destruct Hready as (Hself & Hn & Hroom & _). set (s := session_of self (ue_now e) (na_node a)) in *.
  set (h := mkValidatedUdpHeader prio 0 true tid).
  assert (Hf : session_handle_frame (E := E) crc32c p (ue_alloc e) (set_last_activity (ue_now e) s) h data
    (us_payload_size_max self) = Ret (set_last_activity (ue_now e) s,
      Ok (if length data <=? us_payload_size_max self then Some data else None))).
  { unfold session_handle_frame. cbn [h vh_frame_index vh_last_frame Z.eqb]. case_cmp; [|done].
    unfold vec_with_capacity. destruct (length data =? 0); [done|]. by rewrite Halloc. }
  destruct (handle_step p (ue_alloc e) keys self h data (na_node a) local (ue_now e) _ _ Hself Hn Hroom
    (not_duplicate h s tid eq_refl Hlast) (Hs : usession_ok (set_last_activity (ue_now e) s)) Hf) as (self' & -> & _).
  cbn [mbind exec_bind]. exists self'. by case_cmp.
Qed.

Lemma udp_feed_two p keys self local ip a prio tid e0 e1 d0 d1 :
  ready keys self (na_node a) tid → Address_try_from ip = Ok (AddressNode a) → na_subnet a = na_subnet local →
  is_u 64 tid → arrives_from ip e0 → arrives_from ip e1 → bytes_ok d0 → bytes_ok d1 → 4 ≤ length (d0 ++ d1) →
  ue_bytes e0 = datagram prio 0 false tid d0 → ue_bytes e1 = datagram prio 1 true tid d1 →
  ∃ self', udp_feed p local self [e0; e1] = Ret (self',
    the_transfer self prio tid (na_node a) local (ue_now e1) <$> option_list (two_frames crc32c (d0 ++ d1) (us_payload_size_max self))).
Proof.
  intros Hready Ha Hsub Ht [Hfrom0 Halloc0] [Hfrom1 Halloc1] Hd0 Hd1 Hlen Hb0 Hb1. cbn [udp_feed].
  rewrite Hfrom0, Hb0, Hfrom1, Hb1. unfold datagram. change (Z.of_nat 0) with 0%Z. change (Z.of_nat 1) with 1%Z.
  rewrite (handle_datagram _ _ _ _ _ _ _ _ _ a) by done.
  destruct (ready_session keys self (na_node a) tid (ue_now e0) Hready) as (Hs & Hlast & Hbu).
  destruct Hready as (Hself & Hn & Hroom & _). set (s := session_of self (ue_now e0) (na_node a)) in *.
  destruct (two_frames_spec crc32c (E := E) p (ue_alloc e0) (ue_alloc e1) (set_last_activity (ue_now e0) s) prio tid d0 d1
    (us_payload_size_max self) (ue_now e1)) as (s1 & s2 & Hf0 & Hs1 & Hsame & Hf1 & Hs2); [done..|].
  destruct (handle_step p (ue_alloc e0) keys self _ d0 (na_node a) local (ue_now e0) _ _ Hself Hn Hroom
    (not_duplicate (mkValidatedUdpHeader prio 0 false tid) s tid eq_refl Hlast) Hs1 Hf0) as (self1 & -> & Hself1 & Hcfg & Hget).
  specialize (Hget eq_refl). cbn [mbind exec_bind fmap option_fmap option_map].
  rewrite (handle_datagram _ _ _ _ _ _ _ _ _ a) by done.
  assert (Hso : session_of self1 (ue_now e1) (na_node a) = s1) by (unfold session_of; by rewrite Hget).
  assert (Hlast1 : ∀ t, last_transfer_id s1 = Some t → (t < tid)%Z)
    by (destruct Hsame as (_ & _ & ->); exact Hlast).
  destruct Hcfg as (Hkind & Hmax & _ & _). rewrite <- Hmax in Hf1. rewrite <- Hso in Hf1, Hlast1.
  destruct (handle_step p (ue_alloc e1) keys self1 _ d1 (na_node a) local (ue_now e1) _ _ Hself1 Hn
    (room_for_present keys self1 _ _ Hself1 Hn Hget) (not_duplicate (mkValidatedUdpHeader prio 1 true tid) _ tid eq_refl Hlast1) Hs2 Hf1) as (self2 & -> & _).
  cbn [mbind exec_bind]. exists self2. rewrite Hmax, Hkind.
  by destruct (two_frames crc32c (d0 ++ d1) (us_payload_size_max self)).
Qed.
End subscription.
