(* ===== verification/UdpClaims.v ===== *)
(** * Properties of the UDP transport

    Sending, the treatment of any datagram by the receiver, the end of [receive], and the
    link from transmitter to receiver. *)

From S2P Require Import Prelude CoreTypes Time Transfer Subscriptions SessionTracker EncCursor EncCursorSpec EncFieldsSpec.
From S2P Require Import SerHeader UdpAddress UdpTx UdpRx UdpSpec.

(** ** Any datagram *)

Section any.
Context (crc32c : list u8 → u32) (MTU : nat) {I D : Type} `{Instant I D} {Sock E : Type} `{RecvSocket Sock E} {M : Type}.
Context `{TrackerSpec M UdpNodeId (Session I D UdpTransferId UdpSessionData)}.
Abbreviation Sub := (UdpSubscription D Sock M).
Implicit Types (self : Sub).

(** The tracker can hold every node. *)
Abbreviation sub_ok := (usub_ok (Sock := Sock) (M := M) (is_u 16)).

Lemma node_u16 ip a : Address_try_from ip = Ok (AddressNode a) → is_u 16 (na_node a).
Proof.
  unfold Address_try_from, NodeAddress_try_from. destruct (Z.land _ _ =? _)%Z.
  - by destruct (Z.land _ _ =? _)%Z.
  - cbn. intros [= <-]. by apply is_u_wrap.
Qed.

Lemma udp_handle_frame_spec p alloc self bytes from local now :
  sub_ok self → alloc_ok alloc → bytes_ok bytes →
  match udp_handle_frame (E := E) crc32c p alloc self bytes from local now with
  | Ret (self', r) =>
      sub_ok self' ∧ same_config self self' ∧
      match r with
      | Ok (Some tr) => ∃ ip a h, from = V4 ip ∧ Address_try_from ip = Ok (AddressNode a) ∧
          na_subnet a = na_subnet local ∧ udelivery self self' h (na_node a) local now tr
      | Ok None => True
      | Err e => e = UdpMemory mkOutOfMemoryError
      end
  | Panic => p = Debug
  end.
Proof.
  intros Hself Ha Hb. unfold udp_handle_frame. destruct from as [ip|]; [|by split_and!].
  destruct (Address_try_from ip) as [[a|]|] eqn:Haddr; [|by split_and!..].
  destruct (Z.eqb_spec (na_subnet a) (na_subnet local)) as [Hsub|]; cbn [negb]; [|by split_and!].
  destruct (udp_header_read_from_prefix bytes ≫= _) as [h|]; [|by split_and!].
  pose proof (handle_sane_frame_spec crc32c (E := E) p alloc (is_u 16) self h (drop UDP_SIZE bytes) (na_node a) local now Hself
    (node_u16 _ _ Haddr) Ha (Forall_drop _ _ _ Hb)) as Hs.
  destruct (handle_sane_frame _ _ _ _ _ _ _ _ _) as [[self' r]|]; [|by destruct Hs].
  destruct Hs as (Hok & Hcfg & Hr). split_and!; [done..|]. destruct r as [[tr|]|]; [|done..]. by exists ip, a, h.
Qed.

(** ** Receiving *)

(** The documented behaviour of [recv_from]. *)
Context (recv_from_ok : ∀ s n, match (recv_from s n).2 with
  | Ok (bytes, _) => bytes_ok bytes ∧ length bytes ≤ n | Err _ => True end).
Context (would_block_ok : is_would_block would_block = true).

Definition subs_ok (l : list (Z * Sub)) : Prop := Forall (λ e, sub_ok e.2) l.

Lemma check_all_spec p alloc local now l : subs_ok l → (∀ n, alloc_ok (alloc n)) →
  match check_all (E := E) crc32c MTU p alloc local now l with
  | Ret (l', r) => subs_ok l' ∧ l'.*1 = l.*1 ∧ r ≠ Some (Ok None) ∧
      ∀ e, r = Some (Err (UdpSocket e)) → is_would_block e = false
  | Panic => p = Debug
  end.
Proof.
  intros Hl Ha. induction Hl as [|[port s] l Hs Hl IH]; cbn [check_all]; [split_and!; [constructor|done..]|].
  assert (Hc : match check_for_frames (E := E) crc32c MTU p (alloc (length l)) s local now with
    | Ret (s', r) => sub_ok s' | Panic => p = Debug end).
  { unfold check_for_frames. pose proof (recv_from_ok (us_socket s) MTU) as Hrecv.
    destruct (recv_from (us_socket s) MTU) as [sock [[bytes from]|e]]; [|exact Hs].
    pose proof (udp_handle_frame_spec p (alloc (length l)) (set_socket s sock) bytes from local now Hs (Ha _) (proj1 Hrecv)) as Hf.
    destruct (udp_handle_frame _ _ _ _ _ _ _ _) as [[s' r]|]; [exact (proj1 Hf)|done]. }
  destruct (check_for_frames _ _ _ _ _ _ _) as [[s' r]|]; cbn [mbind exec_bind]; [|done].
  assert (Hcont : match ('(l', r) ← check_all (E := E) crc32c MTU p alloc local now l; Ret ((port, s') :: l', r)) with
    | Ret (l', r) => subs_ok l' ∧ l'.*1 = port :: l.*1 ∧ r ≠ Some (Ok None) ∧
        ∀ e, r = Some (Err (UdpSocket e)) → is_would_block e = false
    | Panic => p = Debug end).
  { destruct (check_all _ _ _ _ _ _ l) as [[l' r']|]; cbn [mbind exec_bind]; [|done].
    destruct IH as (H1' & H2' & H3' & H4'). split_and!; [by constructor|cbn; by f_equal|done|done]. }
  destruct r as [[tr|]|[e|e]]; [|exact Hcont| |].
  - split_and!; [by constructor|done..].
  - split_and!; [by constructor|done..].
  - destruct (is_would_block e) eqn:He; [exact Hcont|]. split_and!; [by constructor|done..|by intros ? [= <-]].
Qed.

Definition receiver_ok (self : UdpReceiver D Sock M) : Prop :=
  let subs := ur_subscriptions self in
  subs_ok (vec_list (message_subscriptions subs)) ∧ subs_ok (vec_list (request_subscriptions subs)) ∧
  subs_ok (vec_list (response_subscriptions subs)).

(** A pass over the sockets never returns without a transfer or an error. *)
Lemma accept_inner_spec p alloc (self : UdpReceiver D Sock M) now : receiver_ok self → (∀ k n, alloc_ok (alloc k n)) →
  match accept_inner (E := E) crc32c MTU p alloc self now with
  | Ret (self', r) => receiver_ok self' ∧ ur_address self' = ur_address self ∧ r ≠ Ok None
  | Panic => p = Debug
  end.
Proof.
  intros (Hm & Hq & Hr) Ha. unfold accept_inner.
  pose proof (check_all_spec p (alloc 0) (ur_address self) now _ Hm (Ha 0)) as H1'.
  destruct (check_all _ _ _ _ _ _ (vec_list (message_subscriptions _))) as [[l1 r1]|]; cbn [mbind exec_bind]; [|done].
  destruct H1' as (Hl1 & _ & Hr1 & _). destruct r1 as [r1|]; [split_and!; [done..|congruence]|].
  pose proof (check_all_spec p (alloc 1) (ur_address self) now _ Hq (Ha 1)) as H2'.
  destruct (check_all _ _ _ _ _ _ (vec_list (request_subscriptions _))) as [[l2 r2]|]; cbn [mbind exec_bind]; [|done].
  destruct H2' as (Hl2 & _ & Hr2 & _). destruct r2 as [r2|]; [split_and!; [done..|congruence]|].
  pose proof (check_all_spec p (alloc 2) (ur_address self) now _ Hr (Ha 2)) as H3'.
  destruct (check_all _ _ _ _ _ _ (vec_list (response_subscriptions _))) as [[l3 r3]|]; cbn [mbind exec_bind]; [|done].
  destruct H3' as (Hl3 & _ & Hr3 & _). destruct r3 as [r3|]; split_and!; try done. congruence.
Qed.

Lemma clean_sub_ok now self : sub_ok self → sub_ok (us_clean_expired_sessions now self).
Proof.
  intros [Hm Hs]. assert (H0' : is_u 16 0) by done.
  split; [by apply (tr_get_remove_expired _ _ 0%Z Hm (proj1 (Hs _ H0')))|].
  intros n Hn. destruct (Hs n Hn) as [Hk Hok]. cbn [us_clean_expired_sessions set_sessions us_sessions]. split.
  - by apply (tr_key_kept _ n n Hk).
  - intros s Hget. destruct (tr_get_remove_expired (us_sessions self) (is_expired now) n Hm Hk) as [_ Heq].
    rewrite Heq in Hget. destruct (tr_get (us_sessions self) n) as [s'|] eqn:Es; [|done].
    destruct (is_expired now s'); [done|]. injection Hget as <-. by apply Hok.
Qed.

Lemma clean_receiver_ok now (self : UdpReceiver D Sock M) : receiver_ok self → receiver_ok (udp_clean_expired_sessions self now).
Proof.
  assert (Hall : ∀ v : vec (Z * Sub), subs_ok (vec_list v) → subs_ok (vec_list (for_each (us_clean_expired_sessions now) v))).
  { intros v. unfold subs_ok, for_each. cbn [vec_list]. rewrite !Forall_forall.
    intros Hv e (e' & -> & He')%list_elem_of_fmap. by apply clean_sub_ok, Hv. }
  intros (Hm & Hq & Hr). split_and!; by apply Hall.
Qed.
End any.

(** ** Whole transfers *)

Section whole.
Context (crc32c : list u8 → u32) (MTU : nat) {I D : Type} `{Instant I D} {Sock E M : Type}.
Context `{TrackerSpec M UdpNodeId (Session I D UdpTransferId UdpSessionData)}.
Implicit Types (self : UdpSubscription D Sock M).

Lemma datagrams_one tid prio data : length data < MTU - UDP_SIZE →
  datagrams MTU tid prio data = [datagram prio 0 true tid data].
Proof. clear crc32c. intros Hl. unfold datagrams. cbn [datagrams_from]. by rewrite (proj2 (Nat.ltb_lt _ _) Hl). Qed.

Lemma datagrams_two tid prio data : UDP_SIZE < MTU → MTU - UDP_SIZE ≤ length data < 2 * (MTU - UDP_SIZE) →
  datagrams MTU tid prio data =
    [datagram prio 0 false tid (take (MTU - UDP_SIZE) data); datagram prio 1 true tid (drop (MTU - UDP_SIZE) data)].
Proof.
  clear crc32c. intros Hm Hl. unfold datagrams. cbn [datagrams_from]. rewrite (proj2 (Nat.ltb_ge _ _)) by lia.
  destruct (length data) as [|k] eqn:Ek; [lia|]. cbn [datagrams_from].
  by rewrite (proj2 (Nat.ltb_lt _ _)) by (rewrite length_drop; lia).
Qed.

(** The events of the datagrams of data that is too long for two frames are idle. *)
Lemma datagrams_idle ip tid prio data (input : list (udp_event (I := I))) : UDP_SIZE < MTU → is_u 64 tid → bytes_ok data →
  (Z.of_nat (length data) < 2 ^ 31)%Z → 2 * (MTU - UDP_SIZE) ≤ length data →
  ue_bytes <$> input = datagrams MTU tid prio data → Forall (arrives_from ip) input → Forall (idle_event ip) input.
Proof.
  clear crc32c.
  intros Hm Ht Hok Hlen Hlate Hin Hev.
  pose proof (datagrams_late MTU Hm tid prio (S (length data)) 0 data Hlate) as Hall. fold (datagrams MTU tid prio data) in Hall.
  rewrite <- Hin in Hall. rewrite Forall_fmap in Hall. rewrite Forall_forall in *. intros e He.
  destruct (Hev e He) as [Hfrom Halloc]. destruct (Hall e He) as (i & last & data' & Hb & Hi & Hd & Hl).
  split_and!; [done|intros n c Hc; rewrite Halloc in Hc; by injection Hc as ->|].
  exists prio, (Z.of_nat i), last, tid, data'. split_and!; [done|unfold is_u; lia|done|by apply Hd|].
  destruct Hl; [by left|right; lia].
Qed.

(** The events of the datagrams of data that fills two frames. *)
Lemma feed_data_two p self local ip a prio tid data (input : list (udp_event (I := I))) : UDP_SIZE < MTU →
  MTU - UDP_SIZE ≤ length data < 2 * (MTU - UDP_SIZE) → 4 ≤ length data →
  ready (is_u 16) self (na_node a) tid → Address_try_from ip = Ok (AddressNode a) → na_subnet a = na_subnet local →
  is_u 64 tid → bytes_ok data → ue_bytes <$> input = datagrams MTU tid prio data → Forall (arrives_from ip) input →
  ∃ self' now, now ∈ ue_now <$> input ∧ udp_feed (E := E) crc32c p local self input = Ret (self',
    the_transfer self prio tid (na_node a) local now <$> option_list (two_frames crc32c data (us_payload_size_max self))).
Proof.
  intros Hm Hl H4 Hready Ha Hsub Ht Hok Hin Hev. rewrite datagrams_two in Hin by done.
  destruct input as [|e0 [|e1 [|]]]; [done..| |done]. injection Hin as Hb0 Hb1.
  apply Forall_cons in Hev as [Hev0 [Hev1 _]%Forall_cons].
  destruct (udp_feed_two crc32c (E := E) p (is_u 16) self local ip a prio tid e0 e1 (take (MTU - UDP_SIZE) data)
    (drop (MTU - UDP_SIZE) data)) as [self' Hf]; try done; [by apply Forall_take|by apply Forall_drop|by rewrite take_drop|].
  exists self', (ue_now e1). split; [by right; left|]. by rewrite take_drop in Hf.
Qed.
End whole.

(** ** The layout of the datagrams *)

Section layout.
Context (MTU : nat) (Hmtu : UDP_SIZE < MTU).

Lemma datagrams_layout tid prio fuel : ∀ index data, length data < fuel →
  Forall (λ d, UDP_SIZE ≤ length d ≤ MTU) (datagrams_from MTU fuel tid prio index data) ∧
  concat (drop UDP_SIZE <$> datagrams_from MTU fuel tid prio index data) = data.
Proof.
  induction fuel as [|fuel IH]; intros index data Hf; [lia|]. cbn [datagrams_from].
  assert (Hdrop : ∀ h l, drop UDP_SIZE (udp_header_as_bytes h ++ l) = l)
    by (intros; by rewrite drop_app_length' by (by rewrite udp_header_length)).
  case_cmp.
  - split.
    + apply Forall_singleton. rewrite length_app, udp_header_length. lia.
    + cbn [fmap list_fmap concat]. by rewrite Hdrop, app_nil_r.
  - destruct (IH (S index) (drop (MTU - UDP_SIZE) data)) as [Hl Hc]; [rewrite length_drop; lia|]. split.
    + constructor; [|done]. rewrite length_app, udp_header_length, length_take. lia.
    + rewrite fmap_cons. cbn [concat]. rewrite Hdrop, Hc. apply take_drop.
Qed.
End layout.

(** Where the frames of a transfer go. *)
Definition destination_address {I} (local : NodeAddress) (h : Header I UdpNodeId UdpTransferId) : SocketAddrV4 :=
  match h with
  | Message m => mkSocketAddrV4 (multicast_address local (mh_subject m)) (UdpPort_into_u16 PortMessage)
  | Request s => mkSocketAddrV4 (remote_node_address local (sh_destination s)) (UdpPort_into_u16 (PortRequest (sh_service s)))
  | Response s => mkSocketAddrV4 (remote_node_address local (sh_destination s)) (UdpPort_into_u16 (PortResponse (sh_service s)))
  end.

(** The transfers that arrive: those that fit into one frame with a byte to spare, and those
    that fit into two, whose CRC fits into the memory of the subscription as well. *)
Definition arrives (room n max : usize) : bool :=
  if n <? room then n <=? max else (room <? n) && (n + 4 <? 2 * room) && (n + 4 <=? max).

(** ** Claims *)

Section claims.
Context (crc32c : list u8 → u32) (MTU : nat) {I D : Type} `{Instant I D} {Sock E : Type} {M : Type}.
Context `{TrackerSpec M UdpNodeId (Session I D UdpTransferId UdpSessionData)}.

(** C36: the UDP link, exactly. The datagrams that the transmitter makes of a transfer, all
    received in order by a subscription that is ready for it, make the receiver deliver the
    transfer, once and with its payload unchanged, if the payload leaves at least one byte of
    a single frame free, or if it is larger than one frame, ends with its CRC before the end
    of the second, and leaves space for the CRC in the subscription's memory. All other
    transfers never arrive: those that fill one frame exactly, those of three or more frames,
    and those of two frames within four bytes of the subscription's limit. *)
Theorem udp_link_exact p (self : UdpSubscription D Sock M) local ip a prio tid payload (input : list (udp_event (I := I))) :
  28 ≤ MTU → ready (is_u 16) self (na_node a) tid → Address_try_from ip = Ok (AddressNode a) →
  na_subnet a = na_subnet local → is_u 64 tid → bytes_ok payload → (Z.of_nat (length payload + 4) < 2 ^ 31)%Z →
  (∀ l, bytes_ok l → is_u 32 (crc32c l)) →
  (length payload = MTU - UDP_SIZE →
    crc32c (take (length payload - 4) payload) ≠ from_le_bytes (drop (length payload - 4) payload)) →
  ue_bytes <$> input = datagrams MTU tid prio (data_to_send crc32c MTU payload) → Forall (arrives_from ip) input →
  ∃ self' out, udp_feed (E := E) crc32c p local self input = Ret (self', out) ∧
    if arrives (MTU - UDP_SIZE) (length payload) (us_payload_size_max self)
    then ∃ now, now ∈ ue_now <$> input ∧ out = [the_transfer self prio tid (na_node a) local now payload]
    else out = [].
Proof.
  intros Hmtu Hready Ha Hsub Ht Hp Hlen Hcrc Hcoll Hin Hev.
  assert (Hm : UDP_SIZE + 4 ≤ MTU) by (unfold UDP_SIZE; lia).
  unfold arrives, data_to_send, fits_into_one_frame in *.
  destruct (Nat.leb_spec (length payload + UDP_SIZE) MTU) as [Hfit|Hfit].
  - destruct (Nat.ltb_spec (length payload) (MTU - UDP_SIZE)) as [Hone|Hfull].
    + rewrite datagrams_one in Hin by done. destruct input as [|e [|]]; [done| |done]. injection Hin as Hb.
      apply Forall_cons in Hev as [Hev _].
      destruct (udp_feed_single crc32c (E := E) p (is_u 16) self local ip a prio tid e payload Hready Ha Hsub Ht Hev Hb) as [self' ->].
      eexists _, _. split; [done|]. case_cmp; [|done]. exists (ue_now e). split; [by left|done].
    + assert (E0 : length payload = MTU - UDP_SIZE) by lia.
      destruct (feed_data_two crc32c MTU (E := E) p self local ip a prio tid payload input) as (self' & now & _ & ->); try done; [lia..|].
      eexists _, _. split; [done|]. unfold two_frames. rewrite (proj2 (Z.eqb_neq _ _)) by (by apply Hcoll).
      rewrite (proj2 (Nat.ltb_ge (MTU - UDP_SIZE) _)) by lia. cbn [andb]. by case_cmp.
  - set (data := payload ++ to_le_bytes 4 (crc32c payload)) in *.
    assert (Hdata : length data = length payload + 4) by (unfold data; by rewrite length_app, to_le_bytes_length).
    assert (Hok : bytes_ok data) by (apply Forall_app; split; [done|apply to_le_bytes_ok]).
    rewrite (proj2 (Nat.ltb_ge (length payload) _)), (proj2 (Nat.ltb_lt (MTU - UDP_SIZE) _)) by lia. cbn [andb].
    destruct (Nat.ltb_spec (length payload + 4) (2 * (MTU - UDP_SIZE))) as [Htwo|Hmany]; cbn [andb].
    + destruct (feed_data_two crc32c MTU (E := E) p self local ip a prio tid data input) as (self' & now & Hnow & ->); try done; [lia..|].
      eexists _, _. split; [done|]. unfold two_frames. rewrite Hdata, Nat.add_sub. case_cmp; [|done].
      unfold data at 1 2 3. rewrite take_app_length, drop_app_length, from_to_le_bytes, wrap_small by (by apply Hcrc).
      rewrite Z.eqb_refl. by exists now.
    + destruct (feed_idle crc32c (E := E) p (is_u 16) ip a local input self) as [self' ->]; [apply Hready..|done|done| |].
      { apply (datagrams_idle MTU ip tid prio data input); try done; lia. }
      eexists _, _. by split.
Qed.

(** C37: one datagram, whatever it contains and wherever it comes from, never makes the UDP
    receiver panic in a release build, and keeps its sessions well-formed. A transfer that it
    delivers comes from a node of the local subnet, has the port of the subscription, is newer
    than everything delivered from this node before, and becomes the newest. An error is
    reported only for lack of memory. *)
Theorem udp_datagram_safe p alloc (self : UdpSubscription D Sock M) bytes from local (now : I) :
  usub_ok (is_u 16) self → alloc_ok alloc → bytes_ok bytes →
  match udp_handle_frame (E := E) crc32c p alloc self bytes from local now with
  | Ret (self', r) =>
      usub_ok (is_u 16) self' ∧ us_kind self' = us_kind self ∧
      match r with
      | Ok (Some tr) => ∃ ip a h, from = V4 ip ∧ Address_try_from ip = Ok (AddressNode a) ∧
          na_subnet a = na_subnet local ∧
          tr_header tr = transfer_header (us_kind self) h (na_node a) local now ∧ bytes_ok (tr_payload tr) ∧
          (∀ t, last_transfer_id (session_of self now (na_node a)) = Some t → (t < vh_transfer_id h)%Z) ∧
          ∃ s', tr_get (us_sessions self') (na_node a) = Some s' ∧ last_transfer_id s' = Some (vh_transfer_id h)
      | Ok None => True
      | Err e => e = UdpMemory mkOutOfMemoryError
      end
  | Panic => p = Debug
  end.
Proof.
  intros Hself Ha Hb. pose proof (udp_handle_frame_spec crc32c (E := E) p alloc self bytes from local now Hself Ha Hb) as Hs.
  destruct (udp_handle_frame _ _ _ _ _ _ _ _) as [[self' r]|]; [|done].
  destruct Hs as (Hok & (Hkind & _) & Hr). split_and!; [done..|]. destruct r as [[tr|]|]; [|done..].
  destruct Hr as (ip & a & h & ? & ? & ? & Hd & Hpb & _ & _ & Hlast & Hnew). by exists ip, a, h.
Qed.

(** [receive] of the UDP transport makes a single pass over the sockets: a pass never
    ends without a transfer or an error, so that the loop around it never repeats, although
    more datagrams may wait. In a release build it never panics and keeps the sessions of all
    subscriptions well-formed, whatever arrives. *)
Theorem udp_receive_single_pass `{RecvSocket Sock E} alloc fuel (self : UdpReceiver D Sock M) (now : I) :
  (∀ s n, match (recv_from s n).2 with
    | Ok (bytes, _) => bytes_ok bytes ∧ length bytes ≤ n | Err _ => True end) →
  receiver_ok self → (∀ j k n, alloc_ok (alloc j k n)) →
  ∃ self1 r1, accept_inner (E := E) crc32c MTU Release (alloc fuel) self now = Ret (self1, r1) ∧ r1 ≠ Ok None ∧
    udp_receive (E := E) crc32c MTU (S fuel) Release alloc self now =
      Ret (udp_clean_expired_sessions self1 now,
           match r1 with
           | Err (UdpSocket e) => if is_would_block e then Ok None else r1
           | _ => r1
           end) ∧
    receiver_ok (udp_clean_expired_sessions self1 now).
Proof.
  intros Hrecv Hself Ha. pose proof (accept_inner_spec crc32c MTU (E := E) Hrecv Release (alloc fuel) self now Hself (Ha fuel)) as Hs.
  unfold udp_receive. cbn [udp_receive_loop].
  destruct (accept_inner _ _ _ _ _ _) as [[self1 r1]|]; [|done]. destruct Hs as (Hok & _ & Hr).
  exists self1, r1. cbn [mbind exec_bind]. split_and!; [done|done| |by apply clean_receiver_ok].
  destruct r1 as [[tr|]|[e|e]]; [done..|]. by destruct (is_would_block e).
Qed.

(** Sending over UDP never panics and ends. The datagrams go to the multicast group of the
    subject or to the destination node and the service's port, in order; some are left out
    only if the deadline passes or the socket reports an error. Each has a header and at most
    [MTU] bytes, and together they carry the payload, followed by its CRC unless it fits into
    one frame. *)
Theorem udp_push_sends {C} `{SendSocket Sock E} `{Clock C I} p (self : UdpTransmitter Sock)
    (tr : UdpTransfer (list u8) I) (clock : C) (sent : Sock → list (list u8 * SocketAddrV4)) :
  UDP_SIZE < MTU → (Z.of_nat (length (tr_payload tr) + 4) < 2 ^ 31)%Z →
  (∀ s d a, sent (send_to s d a).1 = sent s ++ (if is_ok (send_to s d a).2 then [(d, a)] else [])) →
  let h := tr_header tr in
  let data := data_to_send crc32c MTU (tr_payload tr) in
  let all := datagrams MTU (transfer_id h) (priority h) data in
  Forall (λ d, UDP_SIZE ≤ length d ≤ MTU) all ∧ concat (drop UDP_SIZE <$> all) = data ∧
  ∃ self' clock' r l, udp_push (E := E) crc32c MTU p self tr clock = Ret (self', clock', r) ∧
    sent (ut_socket self') = sent (ut_socket self) ++ l ∧
    l `sublist_of` expect_sent (destination_address (ut_address self) h) all ∧
    ((∀ c, overflow_safe_compare (timestamp h) (clock_now c).2 = Gt) → is_ok r = true →
      l = expect_sent (destination_address (ut_address self) h) all).
Proof.
  intros Hmtu Hlen Hsent h data all. split; [by apply datagrams_layout; [|lia]|]. split; [by apply datagrams_layout; [|lia]|].
  assert (Hdata : (Z.of_nat (length data) < 2 ^ 31)%Z).
  { unfold data, data_to_send. destruct (fits_into_one_frame _ _); [lia|]. rewrite length_app, to_le_bytes_length. lia. }
  assert (Hsent' : ∀ s d a, let '(s', r) := send_to s d a in sent s' = sent s ++ (if is_ok r then [(d, a)] else []))
    by (intros s d a; specialize (Hsent s d a); by destruct (send_to s d a)).
  assert (Hinner : ∀ dest deadline tid prio, ∃ self' clock' r l,
    udp_push_inner (E := E) crc32c MTU p self dest deadline tid prio (tr_payload tr) clock = Ret (self', clock', r) ∧
    sent (ut_socket self') = sent (ut_socket self) ++ l ∧ l `sublist_of` expect_sent dest (datagrams MTU tid prio data) ∧
    ((∀ c, overflow_safe_compare deadline (clock_now c).2 = Gt) → is_ok r = true →
      l = expect_sent dest (datagrams MTU tid prio data))).
  { intros dest deadline tid prio. unfold udp_push_inner, Breakdown_new. fold data.
    rewrite (hv_extend_fits MTU Hmtu) by (rewrite length_replicate; cbn [length]; lia). cbn [unwrap mbind exec_bind app].
    destruct (send_frames_spec MTU Hmtu sent Hsent' p dest deadline tid prio (2 + length data) self clock 0 data)
      as (self' & clock' & r & l & Heq & Hs & _ & Hsub & Hall); [lia|done|].
    exists self', clock', r, l. split_and!; [exact Heq|done..]. }
  assert (Hfinish : ∀ dest (m : exec (UdpTransmitter Sock * C * result (UdpError E) unit)),
    (∃ self' clock' r l, m = Ret (self', clock', r) ∧
      sent (ut_socket self') = sent (ut_socket self) ++ l ∧ l `sublist_of` expect_sent dest all ∧
      ((∀ c, overflow_safe_compare (timestamp h) (clock_now c).2 = Gt) → is_ok r = true → l = expect_sent dest all)) →
    ∃ self' clock' (r : result (nb_error (UdpError E)) unit) l,
      ('(self, clock, r) ← m; Ret (self, clock, map_err Other r)) = Ret (self', clock', r) ∧
      sent (ut_socket self') = sent (ut_socket self) ++ l ∧ l `sublist_of` expect_sent dest all ∧
      ((∀ c, overflow_safe_compare (timestamp h) (clock_now c).2 = Gt) → is_ok r = true → l = expect_sent dest all)).
  { intros dest m (self' & clock' & r & l & -> & Hs & Hsub & Hall). cbn [mbind exec_bind].
    exists self', clock', (map_err Other r), l. split_and!; [done..|]. intros Hc Hr. apply Hall; [done|by destruct r]. }
  unfold udp_push. fold h. destruct h as [m|s|s]; apply Hfinish, Hinner.
Qed.
End claims.

(** ** Witnesses *)

Section witnesses.

(** A socket for examples: the datagrams that wait, and those that were sent. *)
Record demo_socket := mkDemoSocket { ds_waiting : list (list u8 * IpAddr); ds_sent : list (list u8 * SocketAddrV4) }.

#[local] Instance demo_recv : RecvSocket demo_socket unit := {|
  recv_from s n :=
    match ds_waiting s with
    | [] => (s, Err tt)
    | (bytes, from) :: rest => (mkDemoSocket rest (ds_sent s), Ok (map as_u8 (take n bytes), from))
    end;
  bind_socket _ _ := Ok (mkDemoSocket [] []);
  join_multicast_v4 s _ _ := (s, Ok tt);
  is_would_block _ := true;
  would_block := tt;
|}.

#[local] Instance demo_send : SendSocket demo_socket unit := {|
  send_to s d a := (mkDemoSocket (ds_waiting s) (ds_sent s ++ [(d, a)]), Ok tt);
|}.

#[local] Instance demo_clock : Clock unit Microseconds32 := {| clock_now c := (c, mkMicroseconds32 1%Z) |}.

Abbreviation demo_map := (gmap Z (Session Microseconds32 MicrosecondDuration32 UdpTransferId UdpSessionData)).

Definition demo_sub : UdpSubscription MicrosecondDuration32 demo_socket demo_map :=
  mkUdpSubscription (mkDemoSocket [] []) (KindMessage 100%Z) 16 (mkMicrosecondDuration32 1000%Z) ∅.

Definition demo_local : NodeAddress := mkNodeAddress 0x181 0x28 9.
Definition demo_node : NodeAddress := mkNodeAddress 0x181 0x28 7.

Lemma demo_sub_ok : usub_ok (is_u 16) demo_sub.
Proof. split; [done|]. intros n _. split; [done|]. by intros s Hs. Qed.

Lemma demo_ready : ready (is_u 16) demo_sub (na_node demo_node) 5.
Proof. split_and!; [apply demo_sub_ok|done|by intros s|by intros s Hs]. Qed.

Definition demo_events (l : list (list u8)) : list (udp_event (I := Microseconds32)) :=
  map (λ d, mkUdpEvent (mkMicroseconds32 3%Z) (V4 0xc0a80007) d Some) l.

Lemma demo_crc l : bytes_ok l → is_u 32 (byte_sum l).
Proof. intros _. by apply is_u_wrap. Qed.

(** Nine bytes in frames of eight. *)
Lemma udp_link_exact_witness : ∃ self' now,
  udp_feed (E := unit) byte_sum Release demo_local demo_sub
    (demo_events (datagrams 32 5 High (data_to_send byte_sum 32 [1; 2; 3; 4; 5; 6; 7; 8; 9]%Z))) =
  Ret (self', [the_transfer demo_sub High 5 7 demo_local now [1; 2; 3; 4; 5; 6; 7; 8; 9]%Z]).
Proof.
  destruct (udp_link_exact (E := unit) byte_sum 32 Release demo_sub demo_local 0xc0a80007 demo_node High 5
    [1; 2; 3; 4; 5; 6; 7; 8; 9]%Z (demo_events (datagrams 32 5 High (data_to_send byte_sum 32 [1; 2; 3; 4; 5; 6; 7; 8; 9]%Z))))
    as (self' & out & Hf & Hout).
  - lia.
  - apply demo_ready.
  - vm_compute. reflexivity.
  - done.
  - unfold is_u. lia.
  - repeat constructor; unfold byte_ok, is_u; lia.
  - cbn. lia.
  - apply demo_crc.
  - cbn. lia.
  - vm_compute. reflexivity.
  - unfold demo_events. apply Forall_forall. by intros e (d & -> & _)%list_elem_of_fmap.
  - change (arrives _ _ _) with true in Hout. destruct Hout as (now & _ & ->). by exists self', now.
Defined.

Lemma udp_datagram_safe_witness : ∃ self' r,
  udp_handle_frame (E := unit) byte_sum Release Some demo_sub [1; 2; 3]%Z (V4 0xc0a80007) demo_local (mkMicroseconds32 3%Z) =
    Ret (self', r) ∧ usub_ok (is_u 16) self'.
Proof.
  pose proof (udp_datagram_safe (E := unit) byte_sum Release Some demo_sub [1; 2; 3]%Z (V4 0xc0a80007) demo_local
    (mkMicroseconds32 3%Z) demo_sub_ok) as Hs.
  destruct (udp_handle_frame _ _ _ _ _ _ _ _) as [[self' r]|].
  - exists self', r. split; [done|]. apply Hs; [by intros n c [= ->]|]. repeat constructor; unfold byte_ok, is_u; lia.
  - exfalso. discriminate Hs; [by intros n c [= ->]|]. repeat constructor; unfold byte_ok, is_u; lia.
Defined.

Definition demo_udp_receiver : UdpReceiver MicrosecondDuration32 demo_socket demo_map :=
  (udp_subscribe_message (E := unit) ∅ Some (UdpReceiver_new demo_local) 100%Z 16 (mkMicrosecondDuration32 1000%Z)).1.

Lemma udp_receive_single_pass_witness : ∃ self' r,
  udp_receive (E := unit) byte_sum 32 1 Release (λ _ _ _, Some) demo_udp_receiver (mkMicroseconds32 3%Z) = Ret (self', r).
Proof.
  destruct (udp_receive_single_pass (E := unit) byte_sum 32 (λ _ _ _, Some) 0 demo_udp_receiver (mkMicroseconds32 3%Z))
    as (self1 & r1 & _ & _ & -> & _).
  - intros s n. destruct s as [[|[bytes from] w] l]; cbn; [done|]. split; [|rewrite length_map, length_take; lia].
    apply Forall_forall. intros b (x & -> & _)%list_elem_of_fmap. by apply is_u_wrap.
  - split_and!; [|constructor..]. constructor; [|constructor]. exact demo_sub_ok.
  - by intros _ _ _ n c [= ->].
  - by eexists _, _.
Defined.

Lemma udp_push_sends_witness : ∃ self' clock' r l,
  udp_push (E := unit) byte_sum 32 Release (mkUdpTransmitter (mkDemoSocket [] []) demo_local)
    (mkTransfer (Message (mkMessageHeader (mkMicroseconds32 9%Z) 5%Z High 100%Z None)) [1; 2; 3]%Z) tt = Ret (self', clock', r) ∧
  ds_sent (ut_socket self') = l.
Proof.
  destruct (udp_push_sends (E := unit) byte_sum 32 Release (mkUdpTransmitter (mkDemoSocket [] []) demo_local)
    (mkTransfer (Message (mkMessageHeader (mkMicroseconds32 9%Z) 5%Z High 100%Z None)) [1; 2; 3]%Z) tt ds_sent)
    as (_ & _ & self' & clock' & r & l & Hp & Hs & _).
  - unfold UDP_SIZE. lia.
  - cbn. lia.
  - done.
  - exists self', clock', r, l. by split.
Defined.

(** Without overflow checks two empty frames are dropped; with them they make the receiver panic. *)
Example udp_debug_panic :
  let input := demo_events [datagram High 0 false 5 []; datagram High 1 true 5 []] in
  udp_feed (E := unit) byte_sum Debug demo_local demo_sub input = Panic ∧
  snd <$> udp_feed (E := unit) byte_sum Release demo_local demo_sub input = Ret [].
Proof. split; vm_compute; reflexivity. Qed.
End witnesses.
