(* ===== verification/BitLengths.v ===== *)
(** * Bit length sets (canadensis_bit_length_set/src/lib.rs, operator.rs)

    The set of lengths, in bits, that a data type may have, kept as an expression over small
    sets ([Operator]) whose minimum, maximum and remainders are computed without writing out
    the set. [BTreeSet<u64>] is the list of its elements in ascending order; the crates
    itertools and num-integer are parameters ([Combinatorics], with what their documentation
    promises in [CombinatoricsSpec]). [BitLengthsSpec] has the meaning of an expression and
    the proofs. *)

From S2P Require Import Prelude.

(** ** [BTreeSet<u64>] *)

Abbreviation BTreeSet := (list u64) (only parsing).

Fixpoint set_insert (x : u64) (s : BTreeSet) : BTreeSet :=
  match s with
  | [] => [x]
  | y :: s' =>
      match Z.compare x y with
      | Lt => x :: s
      | Eq => s
      | Gt => y :: set_insert x s'
      end
  end.

(** [Iterator::collect] into a set. *)
Definition collect (l : list u64) : BTreeSet := foldr set_insert [] l.

(** [SetMinMax::min] and [SetMinMax::max]: the first and the last element. *)
Definition set_min (s : BTreeSet) : option u64 := head s.
Definition set_max (s : BTreeSet) : option u64 := last s.

(** The order of [BTreeSet], lexicographic on the elements. *)
Fixpoint set_cmp (s t : BTreeSet) : comparison :=
  match s, t with
  | [], [] => Eq
  | [], _ :: _ => Lt
  | _ :: _, [] => Gt
  | x :: s', y :: t' =>
      match Z.compare x y with Eq => set_cmp s' t' | c => c end
  end.

(** [Iterator::min] and [Iterator::max] on numbers. *)
Fixpoint iter_min (l : list u64) : option u64 :=
  match l with
  | [] => None
  | x :: l' => Some (match iter_min l' with Some y => Z.min x y | None => x end)
  end.
Fixpoint iter_max (l : list u64) : option u64 :=
  match l with
  | [] => None
  | x :: l' => Some (match iter_max l' with Some y => Z.max x y | None => x end)
  end.

(** [a.iter().zip(b.iter()).all(f)]. *)
Definition zip_all {A B} (f : A → B → bool) : list A → list B → bool :=
  fix go l k :=
    match l, k with
    | x :: l', y :: k' => f x y && go l' k'
    | _, _ => true
    end.

(** ** Code outside the repository *)

(** itertools' [multi_cartesian_product] and [combinations_with_replacement], as the lists
    that they iterate over, and num-integer's [lcm]. *)
Class Combinatorics := {
  multi_cartesian_product : list (list u64) → list (list u64);
  combinations_with_replacement : list u64 → usize → list (list u64);
  lcm : u64 → u64 → exec u64
}.

Class CombinatoricsSpec `{Combinatorics} := {
  product_elements ls l : ls ≠ [] →
    l ∈ multi_cartesian_product ls ↔ Forall2 (λ x s, x ∈ s) l ls;
  combination_elements s k l :
    l ∈ combinations_with_replacement s k → length l = k ∧ Forall (.∈ s) l;
  combination_complete s k l : length l = k → Forall (.∈ s) l →
    ∃ l', l' ∈ combinations_with_replacement s k ∧ l' ≡ₚ l;
  lcm_fits a b : is_u 64 (Z.lcm a b) → lcm a b = Ret (Z.lcm a b)
}.

(** ** Operators *)

Inductive Operator :=
| Leaf (values : BTreeSet)
| Padding (child : Operator) (alignment : u32)
| Concatenate (children : list Operator)
| Repeat (child : Operator) (count : u64)
| RangeRepeat (child : Operator) (count_end : u64)
| Union (children : list Operator).

Section operators.
(** [usize_bits] is the width of [usize] on the host. *)
Context `{Combinatorics} (p : profile) (usize_bits : Z).

(** [Iterator::sum] on [u64]. *)
Fixpoint sum (l : list u64) (acc : u64) : exec u64 :=
  match l with
  | [] => Ret acc
  | x :: l' => acc' ← arith p 64 (acc + x)%Z; sum l' acc'
  end.

(** [a / b] and [a % b]. *)
Definition div_u64 (a b : u64) : exec u64 :=
  if (b =? 0)%Z then Panic else Ret (a / b)%Z.
Definition rem_u64 (a b : u64) : exec u64 :=
  if (b =? 0)%Z then Panic else Ret (a mod b)%Z.

(** [n.try_into().expect(..)] from [u64] to [usize]. *)
Definition to_usize (n : u64) : exec usize :=
  if is_ub usize_bits n then Ret (Z.to_nat n) else Panic.

(** Rounds the value up to a multiple of [alignment]. *)
Definition align_up (value alignment : u64) : exec u64 :=
  a ← arith p 64 (alignment - 1)%Z;
  s ← arith p 64 (value + a)%Z;
  q ← div_u64 s alignment;
  arith p 64 (q * alignment)%Z.

Fixpoint op_min (op : Operator) : exec u64 :=
  match op with
  | Leaf values => unwrap (set_min values)
  | Padding child alignment => m ← op_min child; align_up m alignment
  | Concatenate children => ms ← mapM op_min children; sum ms 0
  | Repeat child count => m ← op_min child; arith p 64 (m * count)%Z
  | RangeRepeat _ _ => Ret 0%Z
  | Union children => ms ← mapM op_min children; unwrap (iter_min ms)
  end.

Fixpoint op_max (op : Operator) : exec u64 :=
  match op with
  | Leaf values => unwrap (set_max values)
  | Padding child alignment => m ← op_max child; align_up m alignment
  | Concatenate children => ms ← mapM op_max children; sum ms 0
  | Repeat child count => m ← op_max child; arith p 64 (m * count)%Z
  | RangeRepeat child count_end => m ← op_max child; arith p 64 (m * count_end)%Z
  | Union children => ms ← mapM op_max children; unwrap (iter_max ms)
  end.

(** The sum of the values, modulo the divisor. *)
Definition sum_mod (divisor : u64) (values : list u64) : exec u64 :=
  s ← sum values 0; rem_u64 s divisor.

(** [min(count, divisor + count % divisor)], with the assertion that follows it. *)
Definition equivalent_count (count divisor : u64) : exec u64 :=
  r ← rem_u64 count divisor;
  s ← arith p 64 (divisor + r)%Z;
  let e := Z.min count s in
  debug_assert p (count mod divisor =? e mod divisor)%Z;;
  Ret e.

Fixpoint modulo (op : Operator) (divisor : u64) : exec BTreeSet :=
  match op with
  | Leaf values => collect <$> mapM (λ length, rem_u64 length divisor) values
  | Padding child alignment =>
      max ← op_max op;
      l ← lcm alignment divisor;
      ms ← modulo child divisor;
      collect <$> mapM (λ value,
        debug_assert p (value <=? max)%Z;;
        debug_assert p (value <? l)%Z;;
        a ← align_up value alignment;
        rem_u64 a divisor) ms
  | Concatenate children =>
      child_mods ← mapM (λ child, modulo child divisor) children;
      collect <$> mapM (sum_mod divisor) (multi_cartesian_product child_mods)
  | Repeat child count =>
      e ← equivalent_count count divisor;
      ms ← modulo child divisor;
      k ← to_usize e;
      collect <$> mapM (sum_mod divisor) (combinations_with_replacement ms k)
  | RangeRepeat child count_end =>
      single ← modulo child divisor;
      e ← equivalent_count count_end divisor;
      sums ← mapM (λ k,
        k ← to_usize k;
        mapM (sum_mod divisor) (combinations_with_replacement single k)) (seqZ 0 (e + 1));
      Ret (collect (concat sums))
  | Union children =>
      sets ← mapM (λ child, modulo child divisor) children;
      Ret (collect (concat sets))
  end.

Fixpoint expand (op : Operator) : exec BTreeSet :=
  match op with
  | Leaf values => Ret values
  | Padding child alignment =>
      s ← expand child;
      collect <$> mapM (λ length, align_up length alignment) s
  | Concatenate children =>
      child_values ← mapM expand children;
      collect <$> mapM (λ sizes, sum sizes 0) (multi_cartesian_product child_values)
  | Repeat child count =>
      s ← expand child;
      k ← to_usize count;
      collect <$> mapM (λ sizes, sum sizes 0) (combinations_with_replacement s k)
  | RangeRepeat child count_end =>
      ch ← expand child;
      sums ← mapM (λ k,
        k ← to_usize k;
        mapM (λ sizes, sum sizes 0) (combinations_with_replacement ch k))
        (seqZ 0 (count_end + 1));
      Ret (collect (concat sums))
  | Union children =>
      sets ← mapM expand children;
      Ret (collect (concat sets))
  end.

(** Checks minimum, maximum and the remainders for 1 to 64 against the expanded set; the
    error is a failed assertion. *)
Definition validate_numerically (op : Operator) : exec unit :=
  expanded ← expand op;
  assert_ (negb (bool_decide (expanded = [])));;
  x ← unwrap (set_min expanded);
  m ← op_min op;
  assert_ (x =? m)%Z;;
  y ← unwrap (set_max expanded);
  m' ← op_max op;
  assert_ (y =? m')%Z;;
  _ ← mapM (λ i,
    mod_expanded ← modulo op i;
    expected ← mapM (λ value, rem_u64 value i) expanded;
    assert_ (bool_decide (mod_expanded = collect expected))) (seqZ 1 64);
  Ret tt.

Fixpoint structural_equal (self other : Operator) : bool :=
  match self, other with
  | Leaf self_values, Leaf other_values => bool_decide (self_values = other_values)
  | Padding self_child self_alignment, Padding other_child other_alignment =>
      (self_alignment =? other_alignment)%Z && structural_equal self_child other_child
  | Concatenate self_children, Concatenate other_children =>
      (length self_children =? length other_children) &&
      zip_all structural_equal self_children other_children
  | Repeat self_child self_count, Repeat other_child other_count =>
      (self_count =? other_count)%Z && structural_equal self_child other_child
  | RangeRepeat self_child self_count, RangeRepeat other_child other_count =>
      (self_count =? other_count)%Z && structural_equal self_child other_child
  | Union self_children, Union other_children =>
      (length self_children =? length other_children) &&
      zip_all structural_equal self_children other_children
  | _, _ => false
  end.
End operators.

(** ** Bit length sets *)

Record BitLengthSet := mkBitLengthSet { operator : Operator }.

Definition bls_single (length : u64) : BitLengthSet := mkBitLengthSet (Leaf (set_insert length [])).

Definition from_length_set (values : BTreeSet) : option BitLengthSet :=
  match values with [] => None | _ => Some (mkBitLengthSet (Leaf values)) end.

Definition from_lengths (values : list u64) : option BitLengthSet :=
  match collect values with
  | [] => None
  | value_set => Some (mkBitLengthSet (Leaf value_set))
  end.

(** The macro [bit_length!], for a list of one or more lengths. *)
Definition bit_length (l : list u64) : exec BitLengthSet :=
  match l with [x] => Ret (bls_single x) | _ => unwrap (from_lengths l) end.

Definition bls_default : BitLengthSet := bls_single 0.

Definition pad_to_alignment (self : BitLengthSet) (alignment : u32) : BitLengthSet :=
  mkBitLengthSet (Padding (operator self) alignment).

Definition repeat (self : BitLengthSet) (count : u64) : BitLengthSet :=
  mkBitLengthSet (Repeat (operator self) count).

Definition repeat_range (self : BitLengthSet) (count_end : u64) : BitLengthSet :=
  mkBitLengthSet (RangeRepeat (operator self) count_end).

Definition bls_extend (self : BitLengthSet) (others : list BitLengthSet) : BitLengthSet :=
  mkBitLengthSet (Concatenate (operator self :: (operator <$> others))).

Definition concatenate (self : BitLengthSet) (others : list BitLengthSet) : BitLengthSet :=
  bls_extend self others.

Definition unite (self : BitLengthSet) (others : list BitLengthSet) : BitLengthSet :=
  mkBitLengthSet (Union (operator self :: (operator <$> others))).

Section bit_length_sets.
Context `{Combinatorics} (p : profile) (usize_bits : Z).

Definition min_value (self : BitLengthSet) : exec u64 := op_min p (operator self).
Definition max_value (self : BitLengthSet) : exec u64 := op_max p (operator self).

Definition is_fixed_size (self : BitLengthSet) : exec bool :=
  a ← min_value self; b ← max_value self; Ret (a =? b)%Z.

(** [self % rhs]. *)
Definition bls_rem (self : BitLengthSet) (rhs : u64) : exec BitLengthSet :=
  result ← modulo p usize_bits (operator self) rhs;
  debug_assert p (negb (bool_decide (result = [])));;
  Ret (mkBitLengthSet (Leaf result)).

Definition is_aligned (self : BitLengthSet) (bit_length : u64) : exec bool :=
  remainder ← bls_rem self bit_length;
  fixed ← is_fixed_size remainder;
  if fixed : bool then m ← min_value remainder; Ret (m =? 0)%Z else Ret false.

Definition is_byte_aligned (self : BitLengthSet) : exec bool := is_aligned self 8.

Definition bls_expand (self : BitLengthSet) : exec BTreeSet := expand p usize_bits (operator self).

Definition bls_validate_numerically (self : BitLengthSet) : exec unit :=
  validate_numerically p usize_bits (operator self).

Definition bls_structural_equal (self other : BitLengthSet) : bool :=
  structural_equal (operator self) (operator other).

Definition bls_eq (self other : BitLengthSet) : exec bool :=
  if bls_structural_equal self other then Ret true else
  a ← bls_expand self; b ← bls_expand other; Ret (bool_decide (a = b)).

Definition bls_cmp (self other : BitLengthSet) : exec comparison :=
  a ← bls_expand self; b ← bls_expand other; Ret (set_cmp a b).

Definition bls_partial_cmp (self other : BitLengthSet) : exec (option comparison) :=
  c ← bls_cmp self other; Ret (Some c).
End bit_length_sets.
