(* ===== verification/BitLengthsSpec.v ===== *)
(** * Bit length sets: the meaning of an expression, and that the computations agree with it

    [lengths op n]: a value described by [op] may be [n] bits long. Minimum, maximum and
    expansion are exact for every expression whose lengths fit 64 bits; remainders are exact
    when every alignment of a padding divides the divisor or the other way round, which the
    code does not ask for ([modulo_wrong_alignment]). *)

From Stdlib Require Import Sorted.
From S2P Require Import Prelude BitLengths.

Open Scope Z_scope.

(** ** Sorted sets *)

Lemma elem_of_set_insert x y s : x ∈ set_insert y s ↔ x = y ∨ x ∈ s.
Proof.
  induction s as [|z s IH]; cbn; [set_solver|].
  destruct (Z.compare_spec y z); subst; set_solver.
Qed.

Lemma set_insert_sorted y s : StronglySorted Z.lt s → StronglySorted Z.lt (set_insert y s).
Proof.
  induction 1 as [|z s Hs IH Hz]; cbn; [repeat constructor|].
  destruct (Z.compare_spec y z); subst; constructor; try done.
  - by constructor.
  - constructor; [done|]. eapply Forall_impl; [done|]. cbn. lia.
  - apply Forall_forall. intros x. rewrite elem_of_set_insert. rewrite Forall_forall in Hz.
    intros [->|?]; [lia|auto].
Qed.

Lemma elem_of_collect x l : x ∈ collect l ↔ x ∈ l.
Proof.
  induction l as [|y l IH]; [done|]. cbn. rewrite elem_of_set_insert, IH. set_solver.
Qed.

Lemma collect_sorted l : StronglySorted Z.lt (collect l).
Proof. induction l; cbn; [constructor|by apply set_insert_sorted]. Qed.

Lemma sorted_ext (s t : BTreeSet) :
  StronglySorted Z.lt s → StronglySorted Z.lt t → (∀ x, x ∈ s ↔ x ∈ t) → s = t.
Proof.
  intros Hs. revert t. induction Hs as [|x s Hs IH Hx]; intros t Ht He.
  { destruct t as [|y t]; [done|]. specialize (He y). set_solver. }
  destruct Ht as [|y t Ht Hy]; [specialize (He x); set_solver|].
  rewrite Forall_forall in Hx, Hy.
  assert (x = y) as <-.
  { assert (x ∈ y :: t) as [|Hxt]%elem_of_cons by (apply He; set_solver); [done|].
    assert (y ∈ x :: s) as [|Hys]%elem_of_cons by (apply He; set_solver); [done|].
    specialize (Hx _ Hys). specialize (Hy _ Hxt). lia. }
  f_equal. apply IH; [done|]. intros z. specialize (He z). rewrite !elem_of_cons in He.
  split; intros Hz.
  - destruct (proj1 He) as [->|]; auto. specialize (Hx _ Hz). lia.
  - destruct (proj2 He) as [->|]; auto. specialize (Hy _ Hz). lia.
Qed.

(** The set [s] holds the numbers with the property [P]. *)
Definition is_set (s : BTreeSet) (P : Z → Prop) : Prop :=
  StronglySorted Z.lt s ∧ ∀ n, n ∈ s ↔ P n.

(** The best element of a set in an order: [least] and [greatest]. *)
Definition best (R : Z → Z → Prop) (P : Z → Prop) (m : Z) : Prop := P m ∧ ∀ n, P n → R m n.
Definition least := best Z.le.
Definition greatest := best Z.ge.

Lemma is_set_collect l (P : Z → Prop) : (∀ n, n ∈ l ↔ P n) → is_set (collect l) P.
Proof. intros H. split; [apply collect_sorted|]. intros n. by rewrite elem_of_collect. Qed.

Lemma is_set_unique s t P : is_set s P → is_set t P → s = t.
Proof. intros [? Hs] [? Ht]. apply sorted_ext; [done..|]. intros x. by rewrite Hs, Ht. Qed.

Lemma set_min_least s P : is_set s P → s ≠ [] → ∃ m, set_min s = Some m ∧ least P m.
Proof.
  intros [Hs He] Hn. destruct Hs as [|m s Hs Hm]; [done|]. exists m. split; [done|].
  split; [apply He; set_solver|]. intros n [->|Hin]%He%elem_of_cons; [lia|].
  rewrite Forall_forall in Hm. specialize (Hm _ Hin). lia.
Qed.

Lemma set_max_greatest s P : is_set s P → s ≠ [] → ∃ m, set_max s = Some m ∧ greatest P m.
Proof.
  intros [Hs He] Hn. destruct (exists_last Hn) as (l & m & ->). exists m.
  split; [apply last_snoc|]. split; [apply He; set_solver|].
  intros n [Hin|Hin]%He%elem_of_app; [|apply list_elem_of_singleton in Hin; lia].
  enough (n < m) by lia. clear He Hn. induction l as [|x l IH]; [set_solver|].
  apply StronglySorted_inv in Hs as [Hs Hx]. rewrite Forall_forall in Hx.
  apply elem_of_cons in Hin as [->|]; [|auto]. apply Hx. set_solver.
Qed.

Lemma set_cmp_spec s t :
  (set_cmp s t = Eq ↔ s = t) ∧ set_cmp t s = CompOpp (set_cmp s t).
Proof.
  revert t. induction s as [|x s IH]; intros [|y t]; cbn; try done.
  rewrite (Z.compare_antisym x y). destruct (IH t) as [IH1 IH2].
  destruct (Z.compare_spec x y); subst; cbn; [|split; [split; [done|intros [=]; lia]|done]..].
  rewrite IH1. split; [naive_solver|done].
Qed.

Lemma set_cmp_trans s t u : set_cmp s t = Lt → set_cmp t u = Lt → set_cmp s u = Lt.
Proof.
  revert t u. induction s as [|x s IH]; intros [|y t] [|z u]; cbn; try done.
  destruct (Z.compare_spec x y), (Z.compare_spec y z), (Z.compare_spec x z); subst;
    try done; try lia. apply IH.
Qed.

(** ** Arithmetic *)

Fixpoint zsum (l : list Z) : Z := match l with [] => 0 | x :: k => x + zsum k end.

Lemma zsum_app l k : zsum (l ++ k) = zsum l + zsum k.
Proof. induction l as [|x l IH]; cbn; [done|]. rewrite IH. lia. Qed.

Lemma zsum_nonneg l : Forall (Z.le 0) l → 0 ≤ zsum l.
Proof. induction 1; cbn; lia. Qed.

Lemma zsum_perm l k : l ≡ₚ k → zsum l = zsum k.
Proof. induction 1; cbn; lia. Qed.

Lemma zsum_replicate n x : zsum (replicate n x) = Z.of_nat n * x.
Proof. induction n as [|n IH]; cbn; [lia|]. rewrite IH. lia. Qed.

Lemma zsum_le l k : Forall2 Z.le l k → zsum l ≤ zsum k.
Proof. induction 1; cbn; lia. Qed.

Lemma zsum_mod d l k : Forall2 (λ r n, r mod d = n mod d) l k →
  zsum l mod d = zsum k mod d.
Proof.
  induction 1 as [|r n l k Hr _ IH]; cbn; [done|].
  by rewrite (Zplus_mod r), (Zplus_mod n), Hr, IH.
Qed.

Lemma sum_spec p l acc : 0 ≤ acc → Forall (Z.le 0) l → acc + zsum l < 2 ^ 64 →
  sum p l acc = Ret (acc + zsum l).
Proof.
  intros Ha Hl. revert acc Ha. induction Hl as [|x l Hx Hl IH]; intros acc Ha; cbn.
  - intros _. f_equal. lia.
  - intros Hb. pose proof (zsum_nonneg l Hl). rewrite arith_ok by (unfold is_u; lia). cbn.
    rewrite IH by lia. f_equal. lia.
Qed.

Lemma sum_fits p l : Forall (Z.le 0) l → zsum l < 2 ^ 64 → sum p l 0 = Ret (zsum l).
Proof. intros. rewrite sum_spec by (done || lia). f_equal. Qed.

Lemma sum_mod_fits p d l : d ≠ 0 → Forall (Z.le 0) l → zsum l < 2 ^ 64 →
  sum_mod p d l = Ret (zsum l mod d).
Proof.
  intros. unfold sum_mod. rewrite sum_fits by done. cbn. unfold rem_u64.
  by rewrite (proj2 (Z.eqb_neq d 0)).
Qed.

(** [n] is the least multiple of [a] from [m] on. *)
Definition rounds_up (m a n : Z) : Prop := (a | n) ∧ m ≤ n < m + a.

Definition round_up (m a : Z) : Z := (m + (a - 1)) / a * a.

Lemma round_up_iff m a n : 0 < a → rounds_up m a n ↔ n = round_up m a.
Proof.
  intros Ha. unfold rounds_up, round_up. split.
  - intros [[q ->] Hn]. f_equal. apply (Z.div_unique _ _ _ (m + (a - 1) - q * a)); lia.
  - intros ->. split; [apply Z.divide_factor_r|].
    pose proof (Z.div_mod (m + (a - 1)) a). pose proof (Z.mod_pos_bound (m + (a - 1)) a). lia.
Qed.

Lemma round_up_rounds m a : 0 < a → rounds_up m a (round_up m a).
Proof. intros. by apply round_up_iff. Qed.

Lemma round_up_mono m n a : 0 < a → m ≤ n → round_up m a ≤ round_up n a.
Proof.
  intros Ha Hm. unfold round_up. apply Z.mul_le_mono_nonneg_r; [lia|].
  apply Z.div_le_mono; lia.
Qed.

Lemma align_up_fits p m a : 0 ≤ m → 0 < a → m + (a - 1) < 2 ^ 64 →
  align_up p m a = Ret (round_up m a).
Proof.
  intros Hm Ha Hf. unfold align_up, div_u64.
  pose proof (round_up_rounds m a Ha) as [_ Hr]. unfold round_up in *.
  rewrite arith_ok by (unfold is_u; lia). cbn. rewrite arith_ok by (unfold is_u; lia). cbn.
  rewrite (proj2 (Z.eqb_neq a 0)) by lia. cbn. rewrite arith_ok by (unfold is_u; lia). done.
Qed.

(** Padding commutes with remainders when one of alignment and divisor divides the other. *)
Lemma round_up_mod m a d : 0 < a → 0 < d → (a | d) ∨ (d | a) →
  round_up (m mod d) a mod d = round_up m a mod d.
Proof.
  intros Ha Hd [Hc|Hc].
  - destruct Hc as [k ->]. assert (Hk : 0 < k) by nia.
    pose proof (Z.div_mod m (k * a)) as Hm. set (q := m / (k * a)) in *. set (r := m mod (k * a)) in *.
    assert (round_up m a = round_up r a + q * (k * a)) as ->.
    { unfold round_up. replace (m + (a - 1)) with (r + (a - 1) + q * k * a) by lia.
      rewrite Z.div_add by lia. lia. }
    by rewrite Z.mod_add by lia.
  - assert (∀ m, round_up m a mod d = 0) as Hz.
    { intros m'. apply Z.mod_divide; [lia|]. etrans; [done|]. apply Z.divide_factor_r. }
    by rewrite !Hz.
Qed.

(** ** Reducing a sum modulo the divisor

    A list of at least [d] numbers has a non-empty block whose sum is a multiple of [d]:
    dropping blocks leaves less than [d] numbers with the same remainder. *)

Lemma repeated {A} `{EqDecision A} (l : list A) :
  ~ NoDup l → ∃ i j x, (i < j)%nat ∧ l !! i = Some x ∧ l !! j = Some x.
Proof.
  induction l as [|x l IH]; intros Hd; [destruct Hd; constructor|].
  destruct (decide (x ∈ l)) as [[j Hj]%list_elem_of_lookup|Hx].
  - exists 0%nat, (S j), x. split; [lia|done].
  - destruct IH as (i & j & y & Hij & Hi & Hj); [by intros ?; destruct Hd; constructor|].
    exists (S i), (S j), y. split; [lia|done].
Qed.

Lemma residues_repeat d (l : list Z) : 0 < d → (Z.to_nat d < length l)%nat →
  Forall (λ x, 0 ≤ x < d) l → ∃ i j x, (i < j)%nat ∧ l !! i = Some x ∧ l !! j = Some x.
Proof.
  intros Hd Hl Hr. apply repeated. intros Hn.
  assert (l ⊆+ seqZ 0 d) as Hs%submseteq_length.
  { apply NoDup_submseteq; [done|]. intros x Hx. rewrite Forall_forall in Hr.
    apply elem_of_seqZ. specialize (Hr _ Hx). lia. }
  rewrite length_seqZ in Hs. lia.
Qed.

Lemma zsum_take_drop i j l : (i ≤ j)%nat →
  zsum (take i l ++ drop j l) = zsum l - (zsum (take j l) - zsum (take i l)).
Proof.
  intros _. rewrite zsum_app. rewrite <- (take_drop j l) at 3. rewrite zsum_app. lia.
Qed.

Lemma drop_blocks d l : 0 < d → ∃ k, sublist k l ∧ Z.of_nat (length k) < d ∧
  zsum k mod d = zsum l mod d.
Proof.
  intros Hd. remember (length l) as n eqn:Hn. revert l Hn.
  induction n as [n IH] using lt_wf_ind. intros l ->.
  destruct (decide (Z.of_nat (length l) < d)); [by exists l|].
  set (prefixes := (λ i, zsum (take i l) mod d) <$> seq 0 (S (length l))).
  destruct (residues_repeat d prefixes) as (i & j & x & Hij & Hi & Hj); [done| | |].
  { unfold prefixes. rewrite length_fmap, length_seq. lia. }
  { apply Forall_fmap, Forall_true. intros ?. apply Z.mod_pos_bound, Hd. }
  unfold prefixes in Hi, Hj. rewrite list_lookup_fmap_Some in Hi, Hj.
  destruct Hi as (? & -> & Hi), Hj as (? & He & Hj).
  apply lookup_seq in Hi as [-> ?], Hj as [-> ?]. cbn in He.
  destruct (IH (length (take i l ++ drop j l))) with (l := take i l ++ drop j l)
    as (k & Hs & Hk & Hm); [|done|].
  { rewrite length_app, length_take, length_drop. lia. }
  exists k. split; [|split; [done|]].
  - etrans; [done|]. rewrite <- (take_drop i l) at 3. apply sublist_app; [done|].
    replace j with (i + (j - i))%nat by lia. rewrite <- drop_drop. apply sublist_drop.
  - rewrite Hm, zsum_take_drop, Zminus_mod, (Zminus_mod (zsum (take j l))), He by lia.
    rewrite Z.sub_diag, Z.mod_0_l, Z.sub_0_r, Z.mod_mod by lia. done.
Qed.

Lemma sublist_Forall {A} (P : A → Prop) k l : sublist k l → Forall P l → Forall P k.
Proof. intros Hs. rewrite !Forall_forall. intros H x Hx. apply H. by eapply elem_of_sublist. Qed.

(** The values that [n] numbers with the property [P] can have as their sum, modulo [d]. *)
Definition sums_mod (P : Z → Prop) (d : Z) (n : nat) (r : Z) : Prop :=
  ∃ l, length l = n ∧ Forall P l ∧ r = zsum l mod d.

Lemma zsum_shift x l : zsum ((λ y, y - x) <$> l) = zsum l - Z.of_nat (length l) * x.
Proof. induction l as [|y l IH]; cbn -[Z.of_nat]; [lia|]. rewrite IH. lia. Qed.

(** Summands can be dropped until less than [d] are left. *)
Lemma drop_summands P d n m r : 0 < d → d ≤ Z.of_nat m → sums_mod P d n r →
  ∃ n', (n' ≤ m)%nat ∧ sums_mod P d n' r.
Proof.
  intros Hd Hm (l & <- & Hl & ->). destruct (drop_blocks d l) as (k & Hs & Hk & He); [done|].
  exists (length k). split; [lia|]. exists k. rewrite He. split; [done|].
  split; [by eapply sublist_Forall|done].
Qed.

(** From [d - 1] on, only the remainder of the number of summands matters. *)
Lemma sums_mod_count P d n m r : 0 < d → (∃ x, P x) → d - 1 ≤ Z.of_nat m →
  Z.of_nat n mod d = Z.of_nat m mod d → sums_mod P d n r → sums_mod P d m r.
Proof.
  intros Hd [x Hx] Hm Hnm (l & Hn & Hl & ->).
  destruct (drop_blocks d ((λ y, y - x) <$> l)) as (k & Hs & Hk & He); [done|].
  exists (((λ y, y + x) <$> k) ++ replicate (m - length k) x). split; [|split].
  - rewrite length_app, length_fmap, length_replicate. lia.
  - apply Forall_app. split; [|by apply Forall_replicate].
    apply Forall_fmap. eapply sublist_Forall; [done|]. apply Forall_fmap.
    eapply Forall_impl; [done|]. intros y Hy. cbn. by replace (y - x + x) with y by lia.
  - rewrite zsum_shift, Hn in He. rewrite zsum_app, zsum_replicate.
    replace ((λ y, y + x) <$> k) with ((λ y, y - - x) <$> k)
      by (apply list_fmap_ext; intros; lia).
    rewrite zsum_shift.
    replace (zsum k - Z.of_nat (length k) * - x + Z.of_nat (m - length k) * x)
      with (zsum k + Z.of_nat m * x) by (rewrite Nat2Z.inj_sub by lia; lia).
    rewrite Zplus_mod, He, <- Zplus_mod.
    replace (zsum l - Z.of_nat n * x + Z.of_nat m * x) with (zsum l + (Z.of_nat m - Z.of_nat n) * x) by lia.
    assert (d | Z.of_nat m - Z.of_nat n) as [q Hq].
    { apply Z.mod_divide; [lia|]. by rewrite Zminus_mod, Hnm, Z.sub_diag, Z.mod_0_l by lia. }
    rewrite Hq. replace (q * d * x) with (q * x * d) by lia. by rewrite Z.mod_add by lia.
Qed.

(** ** The meaning of operators *)

Inductive lengths : Operator → Z → Prop :=
| lengths_leaf values n : n ∈ values → lengths (Leaf values) n
| lengths_padding child alignment m n :
    lengths child m → rounds_up m alignment n → lengths (Padding child alignment) n
| lengths_concatenate children ms :
    Forall2 lengths children ms → lengths (Concatenate children) (zsum ms)
| lengths_repeat child count ms :
    Z.of_nat (length ms) = count → Forall (lengths child) ms →
    lengths (Repeat child count) (zsum ms)
| lengths_range_repeat child count_end ms :
    Z.of_nat (length ms) ≤ count_end → Forall (lengths child) ms →
    lengths (RangeRepeat child count_end) (zsum ms)
| lengths_union children child n :
    child ∈ children → lengths child n → lengths (Union children) n.

(** What the constructors of the crate establish: sets are sorted and not empty, alignments
    positive, sums and unions have at least one child. *)
Inductive operator_ok : Operator → Prop :=
| ok_leaf values : values ≠ [] → StronglySorted Z.lt values → Forall (is_u 64) values →
    operator_ok (Leaf values)
| ok_padding child alignment : operator_ok child → 0 < alignment < 2 ^ 32 →
    operator_ok (Padding child alignment)
| ok_concatenate children : children ≠ [] → Forall operator_ok children →
    operator_ok (Concatenate children)
| ok_repeat child count : operator_ok child → is_u 64 count → operator_ok (Repeat child count)
| ok_range_repeat child count_end : operator_ok child → is_u 64 count_end →
    operator_ok (RangeRepeat child count_end)
| ok_union children : children ≠ [] → Forall operator_ok children → operator_ok (Union children).

(** The numbers that the computations go through fit their types: the lengths of all parts
    are less than 2^64, also with the bits that padding adds, and counts fit [usize]. *)
Inductive fits (usize_bits : Z) : Operator → Prop :=
| fits_leaf values : fits usize_bits (Leaf values)
| fits_padding child alignment : fits usize_bits child →
    (∀ m, lengths child m → m + (alignment - 1) < 2 ^ 64) →
    fits usize_bits (Padding child alignment)
| fits_concatenate children : Forall (fits usize_bits) children →
    (∀ n, lengths (Concatenate children) n → n < 2 ^ 64) →
    fits usize_bits (Concatenate children)
| fits_repeat child count : fits usize_bits child → count < 2 ^ usize_bits →
    (∀ n, lengths (Repeat child count) n → n < 2 ^ 64) →
    fits usize_bits (Repeat child count)
| fits_range_repeat child count_end : fits usize_bits child → count_end < 2 ^ usize_bits →
    (∀ n, lengths (RangeRepeat child count_end) n → n < 2 ^ 64) →
    fits usize_bits (RangeRepeat child count_end)
| fits_union children : Forall (fits usize_bits) children → fits usize_bits (Union children).

(** The alignments of all paddings divide the divisor, or the other way round. *)
Inductive compatible (d : Z) : Operator → Prop :=
| compatible_leaf values : compatible d (Leaf values)
| compatible_padding child alignment : compatible d child →
    (alignment | d) ∨ (d | alignment) → compatible d (Padding child alignment)
| compatible_concatenate children : Forall (compatible d) children →
    compatible d (Concatenate children)
| compatible_repeat child count : compatible d child → compatible d (Repeat child count)
| compatible_range_repeat child count_end : compatible d child →
    compatible d (RangeRepeat child count_end)
| compatible_union children : Forall (compatible d) children → compatible d (Union children).

(** Induction with a hypothesis for every child of a list. *)
Lemma Operator_rect' (P : Operator → Prop)
  (Hleaf : ∀ values, P (Leaf values))
  (Hpad : ∀ child alignment, P child → P (Padding child alignment))
  (Hcat : ∀ children, Forall P children → P (Concatenate children))
  (Hrep : ∀ child count, P child → P (Repeat child count))
  (Hrange : ∀ child count_end, P child → P (RangeRepeat child count_end))
  (Hunion : ∀ children, Forall P children → P (Union children)) op : P op.
Proof.
  revert op. fix go 1. intros [values|child a|children|child c|child c|children];
    [apply Hleaf|apply Hpad, go| |apply Hrep, go|apply Hrange, go|].
  - apply Hcat. induction children as [|c cs IH]; constructor; [apply go|apply IH].
  - apply Hunion. induction children as [|c cs IH]; constructor; [apply go|apply IH].
Qed.

Lemma lengths_nonneg op n : operator_ok op → lengths op n → 0 ≤ n.
Proof.
  revert n. induction op using Operator_rect'; intros n Hok Hn; inv Hok; inv Hn.
  - rewrite Forall_forall in *. match goal with H : ∀ x, _ → is_u 64 x |- _ => by apply H end.
  - match goal with H : rounds_up _ _ _ |- _ => destruct H as [_ ?] end.
    enough (0 ≤ m) by lia. auto.
  - apply zsum_nonneg. apply Forall_forall. intros x Hx.
    match goal with H : Forall2 _ _ _ |- _ =>
      apply list_elem_of_lookup in Hx as [i Hi]; destruct (Forall2_lookup_r _ _ _ _ _ H Hi) as (c & Hc & Hl) end.
    apply list_elem_of_lookup_2 in Hc. rewrite Forall_forall in *. eauto.
  - apply zsum_nonneg. eapply Forall_impl; [done|]. auto.
  - apply zsum_nonneg. eapply Forall_impl; [done|]. auto.
  - rewrite Forall_forall in *. eauto.
Qed.

(** Turns every [Forall] over a list into a statement about its elements. *)
Ltac each := rewrite ?Forall_forall in *.

Lemma Forall_lengths_nonneg c l : operator_ok c → Forall (lengths c) l → Forall (Z.le 0) l.
Proof. intros Hc Hl. eapply Forall_impl; [done|]. intros n. by apply lengths_nonneg. Qed.

Lemma Forall2_lengths_nonneg cs l :
  Forall operator_ok cs → Forall2 lengths cs l → Forall (Z.le 0) l.
Proof.
  intros Hcs Hl. induction Hl; constructor; inv Hcs; [by eapply lengths_nonneg|auto].
Qed.

Section spec.
Context `{CombinatoricsSpec} (p : profile) (usize_bits : Z).

(** The three ways in which the code goes through lists of lengths, each for a function [f]
    that computes [g] of the sum of the list. *)
Lemma combination_sums (g : Z → Z) f s (P : Z → Prop) k : is_set s P →
  (∀ l, length l = k → Forall P l → f l = Ret (g (zsum l))) →
  ∃ xs, mapM f (combinations_with_replacement s k) = Ret xs ∧
    ∀ n, n ∈ xs ↔ ∃ l, length l = k ∧ Forall P l ∧ n = g (zsum l).
Proof.
  intros [_ Hs] Hf.
  assert (HP : ∀ l, Forall (.∈ s) l ↔ Forall P l) by (intros l; each; set_solver).
  eexists. split.
  { apply (mapM_Ret f (λ l, g (zsum l))). intros l [Hk Hl]%combination_elements.
    apply Hf; [done|by apply HP]. }
  intros n. rewrite list_elem_of_fmap. split.
  - intros (l & -> & [Hk Hl]%combination_elements). exists l. by rewrite <- HP.
  - intros (l & Hk & Hl & ->). rewrite <- HP in Hl.
    destruct (combination_complete s k l Hk Hl) as (l' & Hl' & Hp). exists l'.
    by rewrite (zsum_perm _ _ Hp).
Qed.

Lemma range_sums (g : Z → Z) f s (P : Z → Prop) e : is_set s P → 0 ≤ e < 2 ^ usize_bits →
  (∀ l, Z.of_nat (length l) ≤ e → Forall P l → f l = Ret (g (zsum l))) →
  ∃ xss, mapM (λ k, k ← to_usize usize_bits k;
      mapM f (combinations_with_replacement s k)) (seqZ 0 (e + 1)) = Ret xss ∧
    ∀ n, n ∈ concat xss ↔ ∃ l, Z.of_nat (length l) ≤ e ∧ Forall P l ∧ n = g (zsum l).
Proof.
  intros Hs He Hf.
  destruct (mapM_Ret_Forall2 (λ k, k ← to_usize usize_bits k;
      mapM f (combinations_with_replacement s k))
    (λ k xs, ∀ n, n ∈ xs ↔ ∃ l, length l = Z.to_nat k ∧ Forall P l ∧ n = g (zsum l))
    (seqZ 0 (e + 1))) as (xss & -> & HF).
  { apply Forall_forall. intros k Hk%elem_of_seqZ. unfold to_usize.
    rewrite (proj2 (is_ub_spec _ _)) by (unfold is_u; lia). cbn.
    apply combination_sums; [done|]. intros l Hl. apply Hf. lia. }
  exists xss. split; [done|]. intros n. rewrite list_elem_of_In, in_concat. split.
  - intros (xs & Hxs & Hn). apply list_elem_of_In in Hxs, Hn.
    apply list_elem_of_lookup in Hxs as [i Hi].
    destruct (Forall2_lookup_r _ _ _ _ _ HF Hi) as (k & Hk & Hx).
    apply lookup_seqZ in Hk as [-> Hk]. apply Hx in Hn as (l & Hl & ?). exists l.
    split; [lia|done].
  - intros (l & Hl & HPl & ->).
    assert (seqZ 0 (e + 1) !! length l = Some (Z.of_nat (length l))) as Hk
      by (apply lookup_seqZ; lia).
    destruct (Forall2_lookup_l _ _ _ _ _ HF Hk) as (xs & Hi & Hx). exists xs.
    rewrite <- !list_elem_of_In. split; [by eapply list_elem_of_lookup_2|].
    apply Hx. exists l. split; [lia|done].
Qed.

Lemma product_sums (g : Z → Z) f (Q : Operator → Z → Prop) cs ss :
  cs ≠ [] → Forall2 (λ c s, is_set s (Q c)) cs ss →
  (∀ l, Forall2 Q cs l → f l = Ret (g (zsum l))) →
  ∃ xs, mapM f (multi_cartesian_product ss) = Ret xs ∧
    ∀ n, n ∈ xs ↔ ∃ l, Forall2 Q cs l ∧ n = g (zsum l).
Proof.
  intros Hcs Hss Hf.
  assert (HQ : ∀ l, l ∈ multi_cartesian_product ss ↔ Forall2 Q cs l).
  { intros l. rewrite product_elements by (intros ->; inv Hss; done). clear Hcs Hf.
    revert l. induction Hss as [|c s cs ss [_ Hs] _ IH]; intros l.
    { split; intros Hl; inv Hl; constructor. }
    split; intros Hl; inv Hl; constructor; first [by apply Hs|by apply IH]. }
  eexists. split.
  { apply (mapM_Ret f (λ l, g (zsum l))). intros l Hl%HQ. by apply Hf. }
  intros n. rewrite list_elem_of_fmap. setoid_rewrite HQ. naive_solver.
Qed.

Lemma union_sets (Q : Operator → Z → Prop) cs ss : Forall2 (λ c s, is_set s (Q c)) cs ss →
  ∀ n, n ∈ concat ss ↔ ∃ c, c ∈ cs ∧ Q c n.
Proof.
  induction 1 as [|c s cs ss [_ Hs] _ IH]; intros n; cbn; [set_solver|].
  rewrite elem_of_app, Hs, IH. set_solver.
Qed.

(** *** Expansion *)

Lemma children_expand cs : Forall (λ op, operator_ok op → fits usize_bits op →
    ∃ s, expand p usize_bits op = Ret s ∧ is_set s (lengths op)) cs →
  Forall operator_ok cs → Forall (fits usize_bits) cs →
  ∃ ss, mapM (expand p usize_bits) cs = Ret ss ∧ Forall2 (λ c s, is_set s (lengths c)) cs ss.
Proof. intros. apply mapM_Ret_Forall2. each. auto. Qed.

Lemma expand_spec op : operator_ok op → fits usize_bits op →
  ∃ s, expand p usize_bits op = Ret s ∧ is_set s (lengths op).
Proof.
  induction op as [values|c a IH|cs IH|c k IH|c k IH|cs IH] using Operator_rect';
    intros Hok Hf; inv Hok; inv Hf; cbn.
  - eexists. split; [done|]. split; [done|]. intros n. split; [by constructor|by inversion 1].
  - destruct IH as (s & -> & [_ Hs]); [done..|]. cbn.
    rewrite (mapM_Ret _ (λ m, round_up m a)); [eexists; split; [done|]|].
    + apply is_set_collect. intros n. rewrite list_elem_of_fmap. split.
      * intros (m & -> & Hm%Hs). eapply lengths_padding; [done|apply round_up_rounds; lia].
      * inversion 1 as [|? ? m ? Hm Hr| | | |]; subst. exists m.
        split; [apply round_up_iff; [lia|done]|by apply Hs].
    + intros m Hm%Hs. apply align_up_fits; [by apply (lengths_nonneg c)|lia|auto].
  - destruct (children_expand cs) as (ss & Hss & HF); [done..|]. rewrite Hss. cbn.
    destruct (product_sums id (λ l, sum p l 0) lengths cs ss) as (xs & -> & Hxs); [done..| |].
    { intros l Hl. apply sum_fits; [by apply (Forall2_lengths_nonneg cs)|].
      match goal with H : ∀ n, _ → n < _ |- _ => apply H end. by constructor. }
    eexists. split; [done|]. apply is_set_collect. intros n. rewrite Hxs. split.
    + intros (l & Hl & ->). by constructor.
    + inversion 1; subst. eauto.
  - destruct IH as (s & -> & Hs); [done..|]. unfold is_u in *. cbn. unfold to_usize.
    rewrite (proj2 (is_ub_spec _ _)) by (unfold is_u; lia). cbn.
    destruct (combination_sums id (λ l, sum p l 0) s (lengths c) (Z.to_nat k))
      as (xs & -> & Hxs); [done| |].
    { intros l Hl HP. apply sum_fits; [by apply (Forall_lengths_nonneg c)|].
      match goal with H : ∀ n, _ → n < _ |- _ => apply H end. constructor; [lia|done]. }
    eexists. split; [done|]. apply is_set_collect. intros n. rewrite Hxs. split.
    + intros (l & Hl & HP & ->). constructor; [lia|done].
    + inversion 1; subst. eexists. split; [|done]. lia.
  - destruct IH as (s & -> & Hs); [done..|]. unfold is_u in *. cbn.
    destruct (range_sums id (λ l, sum p l 0) s (lengths c) k) as (xss & Hxs & Hn); [done|lia| |].
    { intros l Hl HP. apply sum_fits; [by apply (Forall_lengths_nonneg c)|].
      match goal with H : ∀ n, _ → n < _ |- _ => apply H end. by constructor. }
    cbn in Hxs. rewrite Hxs. eexists. split; [done|]. apply is_set_collect. intros n. rewrite Hn. split.
    + intros (l & Hl & HP & ->). by constructor.
    + inversion 1; subst. eauto.
  - destruct (children_expand cs) as (ss & Hss & HF); [done..|]. rewrite Hss.
    eexists. split; [done|]. apply is_set_collect. intros n. rewrite (union_sets _ _ _ HF). split.
    + intros (c & Hc & Hn). by econstructor.
    + inversion 1; subst. eauto.
Qed.

(** *** Minimum and maximum *)

Section best.
Context (R : Z → Z → Prop).
Hypothesis R_refl : ∀ a, R a a.
Hypothesis R_add : ∀ a b c d, R a b → R c d → R (a + c) (b + d).
Hypothesis R_round : ∀ a b k, 0 < k → R a b → R (round_up a k) (round_up b k).

Lemma zsum_R l k : Forall2 R l k → R (zsum l) (zsum k).
Proof. induction 1; cbn; auto. Qed.

Lemma best_padding c a m : 0 < a →
  best R (lengths c) m → best R (lengths (Padding c a)) (round_up m a).
Proof.
  intros Ha [Hm Hb]. split; [eapply lengths_padding; [done|by apply round_up_rounds]|].
  inversion 1 as [|? ? m' ? Hm' Hr| | | |]; subst. apply round_up_iff in Hr as ->; auto.
Qed.

Lemma best_concatenate cs ms : Forall2 (λ c m, best R (lengths c) m) cs ms →
  best R (lengths (Concatenate cs)) (zsum ms).
Proof.
  intros HF. split.
  - constructor. eapply Forall2_impl; [done|]. by intros c m [? _].
  - inversion 1 as [| |? ns Hns| | |]; subst. apply zsum_R. clear -HF Hns R_refl R_add.
    revert ns Hns. induction HF as [|c m cs ms [_ Hm] _ IH]; intros ns Hns; inv Hns; auto.
Qed.

Lemma best_replicate c k ns : Forall (R k) ns → best R (lengths c) k →
  R (zsum (replicate (length ns) k)) (zsum ns).
Proof. intros Hns _. apply zsum_R. induction Hns; by constructor. Qed.

Lemma best_repeat c m k : 0 ≤ k →
  best R (lengths c) m → best R (lengths (Repeat c k)) (m * k).
Proof.
  intros Hk Hm. replace (m * k) with (zsum (replicate (Z.to_nat k) m))
    by (rewrite zsum_replicate, Z2Nat.id by done; lia). split.
  - constructor; [rewrite length_replicate; lia|]. by apply Forall_replicate, Hm.
  - inversion 1 as [| | |? ? ns Hns HF| |]; subst. rewrite Nat2Z.id.
    apply (best_replicate c); [|done]. eapply Forall_impl; [done|]. apply Hm.
Qed.

Lemma best_union cs ms m : Forall2 (λ c m, best R (lengths c) m) cs ms →
  m ∈ ms → (∀ n, n ∈ ms → R m n) → (∀ a b c, R a b → R b c → R a c) →
  best R (lengths (Union cs)) m.
Proof.
  intros HF Hm Hb Htr. split.
  - apply list_elem_of_lookup in Hm as [i Hi].
    destruct (Forall2_lookup_r _ _ _ _ _ HF Hi) as (c & Hc & [Hl _]).
    apply list_elem_of_lookup_2 in Hc. by econstructor.
  - intros n. inversion 1 as [| | | | |? c ? Hc Hn]; subst. apply list_elem_of_lookup in Hc as [i Hi].
    destruct (Forall2_lookup_l _ _ _ _ _ HF Hi) as (m' & Hm' & [_ Hl]).
    apply list_elem_of_lookup_2 in Hm'. eauto.
Qed.
End best.

Lemma iter_min_spec ms : ms ≠ [] → ∃ m, iter_min ms = Some m ∧ m ∈ ms ∧ ∀ n, n ∈ ms → m ≤ n.
Proof.
  induction ms as [|x ms IH]; [done|]. intros _. cbn. destruct ms as [|y ms].
  { exists x. set_solver. }
  destruct IH as (m & -> & Hm & Hl); [done|]. eexists. split; [done|].
  setoid_rewrite elem_of_cons at 1. split; [destruct (Z.min_spec x m) as [[_ ->]|[_ ->]]; auto|].
  intros n [->|Hn]%elem_of_cons; [lia|]. specialize (Hl _ Hn). lia.
Qed.

Lemma iter_max_spec ms : ms ≠ [] → ∃ m, iter_max ms = Some m ∧ m ∈ ms ∧ ∀ n, n ∈ ms → m >= n.
Proof.
  induction ms as [|x ms IH]; [done|]. intros _. cbn. destruct ms as [|y ms].
  { exists x. split; [done|]. split; [set_solver|]. intros n Hn. assert (n = x) by set_solver. lia. }
  destruct IH as (m & -> & Hm & Hl); [done|]. eexists. split; [done|].
  setoid_rewrite elem_of_cons at 1. split; [destruct (Z.max_spec x m) as [[_ ->]|[_ ->]]; auto|].
  intros n [->|Hn]%elem_of_cons; [lia|]. specialize (Hl _ Hn). lia.
Qed.

Lemma sums_fit (R : Z → Z → Prop) cs ms : Forall operator_ok cs →
  Forall2 (λ c m, best R (lengths c) m) cs ms → zsum ms < 2 ^ 64 →
  sum p ms 0 = Ret (zsum ms).
Proof.
  intros Hcs HF Hb. apply sum_fits; [|done]. clear Hb.
  induction HF as [|c m cs ms [Hm _]]; inv Hcs; constructor; auto. by apply (lengths_nonneg c).
Qed.

(** Discharges the bound of a value that is a length of an operator. *)
Ltac bounded :=
  match goal with
  | Hf : ∀ n, lengths ?op n → n < _, Hb : best _ (lengths ?op) ?m |- _ =>
      pose proof (Hf _ (proj1 Hb))
  end.

Lemma op_min_spec op : operator_ok op → fits usize_bits op →
  ∃ m, op_min p op = Ret m ∧ least (lengths op) m.
Proof.
  assert (Hadd : ∀ a b c d, a ≤ b → c ≤ d → a + c ≤ b + d) by lia.
  induction op as [values|c a IH|cs IH|c k IH|c k IH|cs IH] using Operator_rect';
    intros Hok Hf; inv Hok; inv Hf; cbn.
  - destruct (set_min_least values (lengths (Leaf values))) as (m & -> & Hm); [|done|by exists m].
    split; [done|]. intros n. split; [by constructor|by inversion 1].
  - destruct IH as (m & -> & Hm); [done..|]. cbn. exists (round_up m a).
    split; [|apply best_padding; [auto using round_up_mono|lia|done]].
    apply align_up_fits; [|lia|]; destruct Hm; [by apply (lengths_nonneg c)|auto].
  - destruct (mapM_Ret_Forall2 (op_min p) (λ c m, least (lengths c) m) cs) as (ms & -> & HF);
      [each; auto|]. cbn.
    assert (Hb : best Z.le (lengths (Concatenate cs)) (zsum ms)) by by apply best_concatenate.
    bounded. exists (zsum ms). split; [by eapply sums_fit|done].
  - destruct IH as (m & -> & Hm); [done..|]. unfold is_u in *. cbn.
    assert (Hb : best Z.le (lengths (Repeat c k)) (m * k)) by (apply best_repeat; [..|lia|]; done).
    bounded. destruct Hm as [Hm _]. apply lengths_nonneg in Hm; [|done].
    exists (m * k). split; [|done]. apply arith_ok. unfold is_u. nia.
  - exists 0. unfold is_u in *. split; [done|]. split.
    + change 0 with (zsum []). constructor; [cbn; lia|constructor].
    + intros n Hn. apply (lengths_nonneg (RangeRepeat c k)); [by constructor|done].
  - destruct (mapM_Ret_Forall2 (op_min p) (λ c m, least (lengths c) m) cs) as (ms & -> & HF);
      [each; auto|]. cbn.
    destruct (iter_min_spec ms) as (m & -> & Hm & Hl); [by intros ->; inv HF|].
    exists m. split; [done|]. apply (best_union _ Z.le_refl cs ms); [done..|lia].
Qed.

Lemma op_max_spec op : operator_ok op → fits usize_bits op →
  ∃ m, op_max p op = Ret m ∧ greatest (lengths op) m.
Proof.
  assert (Hadd : ∀ a b c d, a >= b → c >= d → a + c >= b + d) by lia.
  assert (Hrefl : ∀ a, a >= a) by lia.
  induction op as [values|c a IH|cs IH|c k IH|c k IH|cs IH] using Operator_rect';
    intros Hok Hf; inv Hok; inv Hf; cbn.
  - destruct (set_max_greatest values (lengths (Leaf values))) as (m & -> & Hm); [|done|by exists m].
    split; [done|]. intros n. split; [by constructor|by inversion 1].
  - destruct IH as (m & -> & Hm); [done..|]. cbn. exists (round_up m a).
    split; [|apply best_padding; [|lia|done]].
    + apply align_up_fits; [|lia|]; destruct Hm; [by apply (lengths_nonneg c)|auto].
    + intros x y k Hk Hxy. apply Z.le_ge, round_up_mono; lia.
  - destruct (mapM_Ret_Forall2 (op_max p) (λ c m, greatest (lengths c) m) cs) as (ms & -> & HF);
      [each; auto|]. cbn.
    assert (Hb : best Z.ge (lengths (Concatenate cs)) (zsum ms)) by by apply best_concatenate.
    bounded. exists (zsum ms). split; [by eapply sums_fit|done].
  - destruct IH as (m & -> & Hm); [done..|]. unfold is_u in *. cbn.
    assert (Hb : best Z.ge (lengths (Repeat c k)) (m * k)) by (apply best_repeat; [..|lia|]; done).
    bounded. destruct Hm as [Hm _]. apply lengths_nonneg in Hm; [|done].
    exists (m * k). split; [|done]. apply arith_ok. unfold is_u. nia.
  - destruct IH as (m & -> & Hm); [done..|]. unfold is_u in *. cbn.
    assert (Hn : 0 ≤ m) by (destruct Hm; by apply (lengths_nonneg c)).
    assert (Hb : best Z.ge (lengths (RangeRepeat c k)) (m * k)).
    { split.
      - replace (m * k) with (zsum (replicate (Z.to_nat k) m))
          by (rewrite zsum_replicate, Z2Nat.id by lia; lia).
        constructor; [rewrite length_replicate; lia|]. by apply Forall_replicate, Hm.
      - inversion 1 as [| | | |? ? ns Hns HF|]; subst.
        pose proof (best_replicate Z.ge Hrefl Hadd c m ns) as Hr. rewrite zsum_replicate in Hr.
        specialize (Hr ltac:(eapply Forall_impl; [done|apply Hm]) Hm). nia. }
    bounded. exists (m * k). split; [|done]. apply arith_ok. unfold is_u. nia.
  - destruct (mapM_Ret_Forall2 (op_max p) (λ c m, greatest (lengths c) m) cs) as (ms & -> & HF);
      [each; auto|]. cbn.
    destruct (iter_max_spec ms) as (m & -> & Hm & Hl); [by intros ->; inv HF|].
    exists m. split; [done|]. apply (best_union _ Hrefl cs ms); [done..|lia].
Qed.

Lemma lengths_inhabited op : operator_ok op → fits usize_bits op → ∃ n, lengths op n.
Proof. intros Hok Hf. destruct (op_min_spec op) as (m & _ & [? _]); eauto. Qed.

(** *** Remainders *)

Context (d : Z) (d_range : 0 < d < 2 ^ 32).

Definition residues (op : Operator) (r : Z) : Prop := ∃ n, lengths op n ∧ r = n mod d.

(** [ns] are lengths with the remainders [rs]. *)
Definition lifts (rs ns : list Z) : Prop := Forall2 (λ r n, 0 ≤ n ∧ r = n mod d) rs ns.

Lemma lifts_sum rs ns : lifts rs ns →
  Forall (Z.le 0) rs ∧ zsum rs ≤ zsum ns ∧ zsum rs mod d = zsum ns mod d ∧
  length rs = length ns.
Proof.
  intros Hl. split; [|split; [|split]].
  - induction Hl as [|r n rs ns [_ ->]]; constructor; [|done]. pose proof (Z.mod_pos_bound n d). lia.
  - apply zsum_le. eapply Forall2_impl; [done|]. intros r n [Hn ->]. apply Z.mod_le; lia.
  - apply zsum_mod. eapply Forall2_impl; [done|]. intros r n [_ ->]. apply Z.mod_mod. lia.
  - by eapply Forall2_length.
Qed.

Lemma lift_list c rs : operator_ok c → Forall (residues c) rs →
  ∃ ns, Forall (lengths c) ns ∧ lifts rs ns.
Proof.
  intros Hc. induction 1 as [|r rs (n & Hn & ->) _ (ns & Hns & Hl)]; [by exists []; repeat constructor|].
  exists (n :: ns). split; [by constructor|]. constructor; [|done].
  split; [by apply (lengths_nonneg c)|done].
Qed.

Lemma lift_children cs rs : Forall operator_ok cs → Forall2 residues cs rs →
  ∃ ns, Forall2 lengths cs ns ∧ lifts rs ns.
Proof.
  intros Hcs. induction 1 as [|c r cs rs (n & Hn & ->) _ IH]; [by exists []; repeat constructor|].
  inv Hcs. destruct IH as (ns & Hns & Hl); [done|].
  exists (n :: ns). split; [by constructor|]. constructor; [|done].
  split; [by apply (lengths_nonneg c)|done].
Qed.

(** The remainders of sums of [n] lengths. *)
Lemma residue_sums c n r : operator_ok c →
  sums_mod (residues c) d n r ↔ sums_mod (lengths c) d n r.
Proof.
  intros Hc. split.
  - intros (rs & <- & Hrs & ->). destruct (lift_list c rs Hc Hrs) as (ns & Hns & Hl).
    destruct (lifts_sum rs ns Hl) as (_ & _ & -> & ->). by exists ns.
  - intros (ns & <- & Hns & ->). exists ((λ n, n mod d) <$> ns). rewrite length_fmap.
    split; [done|]. split.
    + apply Forall_fmap. eapply Forall_impl; [done|]. intros m Hm. by exists m.
    + symmetry. apply zsum_mod, Forall2_fmap_l, Forall_Forall2_diag, Forall_true.
      intros m. apply Z.mod_mod. lia.
Qed.

Lemma equivalent_count_spec k : is_u 64 k →
  ∃ e, equivalent_count p k d = Ret e ∧ 0 ≤ e ≤ k ∧ (e = k ∨ d ≤ e ∧ e mod d = k mod d).
Proof.
  intros Hk. pose proof (Z.mod_pos_bound k d). unfold equivalent_count, rem_u64.
  rewrite (proj2 (Z.eqb_neq d 0)) by lia. cbn. rewrite arith_ok by (unfold is_u; lia). cbn.
  assert (He : Z.min k (d + k mod d) = k ∨ Z.min k (d + k mod d) = d + k mod d ∧
    (d + k mod d) mod d = k mod d).
  { destruct (Z.min_spec k (d + k mod d)) as [[_ ->]|[_ ->]]; [by left|right]. split; [done|].
    replace (d + k mod d) with (k mod d + 1 * d) by lia.
    by rewrite Z.mod_add, Z.mod_mod by lia. }
  pose proof (Z.le_min_l k (d + k mod d)).
  exists (Z.min k (d + k mod d)). rewrite (proj2 (Z.eqb_eq _ _)).
  - split; [by destruct p|]. unfold is_u in Hk. split; [lia|].
    destruct He as [->|[-> ->]]; [by left|right; split; [lia|done]].
  - by destruct He as [->|[-> ->]].
Qed.

(** Sums of [e] lengths have the remainders that sums of [k] lengths have. *)
Lemma equivalent_sums c e k r : operator_ok c → fits usize_bits c →
  0 ≤ e ≤ k → e = k ∨ d ≤ e ∧ e mod d = k mod d →
  sums_mod (residues c) d (Z.to_nat e) r ↔ sums_mod (lengths c) d (Z.to_nat k) r.
Proof.
  intros Hc Hf He Hek. rewrite residue_sums by done. destruct Hek as [->|[Hd Hm]]; [done|].
  pose proof (lengths_inhabited c Hc Hf).
  split; apply sums_mod_count; rewrite ?Z2Nat.id; done || lia.
Qed.

(** A shorter list of lengths is part of a list of [k]. *)
Lemma extended_sum c ns k : operator_ok c → fits usize_bits c → Forall (lengths c) ns →
  (length ns ≤ k)%nat →
  ∃ ms, length ms = k ∧ Forall (lengths c) ms ∧ zsum ns ≤ zsum ms.
Proof.
  intros Hc Hf Hns Hk. destruct (lengths_inhabited c Hc Hf) as [x Hx].
  exists (ns ++ replicate (k - length ns) x). rewrite length_app, length_replicate.
  split; [lia|]. split; [apply Forall_app; split; [done|by apply Forall_replicate]|].
  rewrite zsum_app, zsum_replicate. apply lengths_nonneg in Hx; [|done].
  pose proof (Z.mul_nonneg_nonneg (Z.of_nat (k - length ns)) x). lia.
Qed.

Lemma children_modulo cs : Forall (λ op, operator_ok op → fits usize_bits op →
    compatible d op →
    ∃ s, modulo p usize_bits op d = Ret s ∧ is_set s (residues op)) cs →
  Forall operator_ok cs → Forall (fits usize_bits) cs → Forall (compatible d) cs →
  ∃ ss, mapM (λ c, modulo p usize_bits c d) cs = Ret ss ∧
    Forall2 (λ c s, is_set s (residues c)) cs ss.
Proof. intros. apply mapM_Ret_Forall2. each. auto. Qed.

(** A list of remainders of [e] lengths adds up without an overflow when sums of [k] of the
    lengths fit 64 bits. *)
Lemma residues_sum_mod c rs k : operator_ok c → fits usize_bits c →
  (∀ ms, length ms = k → Forall (lengths c) ms → zsum ms < 2 ^ 64) →
  (length rs ≤ k)%nat → Forall (residues c) rs → sum_mod p d rs = Ret (zsum rs mod d).
Proof.
  intros Hc Hf Hb Hk Hrs. destruct (lift_list c rs Hc Hrs) as (ns & Hns & Hl).
  destruct (lifts_sum rs ns Hl) as (Hnn & Hle & _ & Hlen).
  destruct (extended_sum c ns k Hc Hf Hns) as (ms & Hms & Hml & Hms'); [lia|].
  specialize (Hb ms Hms Hml). apply sum_mod_fits; [lia|done|lia].
Qed.

Lemma modulo_padding c a s : operator_ok c → 0 < a < 2 ^ 32 → (a | d) ∨ (d | a) →
  fits usize_bits (Padding c a) → is_set s (residues c) →
  modulo p usize_bits c d = Ret s →
  ∃ s', modulo p usize_bits (Padding c a) d = Ret s' ∧ is_set s' (residues (Padding c a)).
Proof.
  intros Hc Ha Hd Hf [_ Hs] Hm. change (modulo p usize_bits (Padding c a) d) with
    (max ← op_max p (Padding c a); l ← lcm a d; ms ← modulo p usize_bits c d;
      collect <$> mapM (λ value, debug_assert p (value <=? max);; debug_assert p (value <? l);;
        a' ← align_up p value a; rem_u64 a' d) ms).
  destruct (op_max_spec (Padding c a)) as (m & -> & [_ Hmax]); [by constructor|done|].
  assert (Hl : d ≤ Z.lcm a d < 2 ^ 64).
  { pose proof (Z.divide_lcm_r a d). pose proof (Z.lcm_nonneg a d).
    assert (Z.lcm a d ≠ 0) by (rewrite Z.lcm_eq_0; lia).
    split; [apply Z.divide_pos_le; [lia|done]|].
    enough (Z.lcm a d ≤ a * d) by nia.
    apply Z.divide_pos_le; [nia|]. apply Z.lcm_least; [apply Z.divide_factor_l|apply Z.divide_factor_r]. }
  rewrite lcm_fits by (unfold is_u; lia). cbn [mbind exec_bind]. rewrite Hm. cbn.
  inv Hf. rewrite (mapM_Ret _ (λ r, round_up r a mod d)); [eexists; split; [done|]|].
  - apply is_set_collect. intros n. rewrite list_elem_of_fmap. split.
    + intros (r & -> & (x & Hx & ->)%Hs). exists (round_up x a).
      split; [eapply lengths_padding; [done|apply round_up_rounds; lia]|].
      apply round_up_mod; [lia..|done].
    + intros (y & Hy & ->). inversion Hy as [|? ? x ? Hx Hr| | | |]; subst.
      apply round_up_iff in Hr as ->; [|lia]. exists (x mod d).
      split; [symmetry; apply round_up_mod; [lia..|done]|]. apply Hs. by exists x.
  - intros r (x & Hx & ->)%Hs. pose proof (lengths_nonneg c x Hc Hx) as Hx0.
    assert (x mod d ≤ x) by (apply Z.mod_le; lia). pose proof (Z.mod_pos_bound x d).
    assert (x ≤ m).
    { destruct (round_up_rounds x a) as [Hdv Hr]; [lia|].
      assert (m >= round_up x a) by (apply Hmax; by eapply lengths_padding). lia. }
    rewrite (debug_assert_Ret p (_ <=? _)), debug_assert_Ret by lia. cbn.
    match goal with H : ∀ m, _ → m + _ < _ |- _ => specialize (H _ Hx) end.
    rewrite align_up_fits by lia. cbn. unfold rem_u64. by rewrite (proj2 (Z.eqb_neq d 0)) by lia.
Qed.

Lemma modulo_leaf values : Forall (is_u 64) values →
  ∃ s, modulo p usize_bits (Leaf values) d = Ret s ∧ is_set s (residues (Leaf values)).
Proof.
  intros Hv. cbn. rewrite (mapM_Ret _ (λ n, n mod d)); [eexists; split; [done|]|].
  - apply is_set_collect. intros n. rewrite list_elem_of_fmap. split.
    + intros (m & -> & Hm). exists m. by split; [constructor|].
    + intros (m & Hm & ->). inv Hm. eauto.
  - intros m _. unfold rem_u64. by rewrite (proj2 (Z.eqb_neq d 0)) by lia.
Qed.

Lemma modulo_concatenate cs ss : cs ≠ [] → Forall operator_ok cs →
  (∀ n, lengths (Concatenate cs) n → n < 2 ^ 64) →
  Forall2 (λ c s, is_set s (residues c)) cs ss →
  ∃ xs, mapM (sum_mod p d) (multi_cartesian_product ss) = Ret xs ∧
    is_set (collect xs) (residues (Concatenate cs)).
Proof.
  intros Hcs Hok Hb HF.
  destruct (product_sums (λ n, n mod d) (sum_mod p d) residues cs ss) as (xs & Hxs & Hn); [done..| |].
  { intros rs Hrs. destruct (lift_children cs rs Hok Hrs) as (ns & Hns & Hl).
    destruct (lifts_sum rs ns Hl) as (Hnn & Hle & _ & _).
    assert (zsum ns < 2 ^ 64) by (apply Hb; by constructor).
    apply sum_mod_fits; [lia|done|lia]. }
  exists xs. split; [done|]. apply is_set_collect. intros n. rewrite Hn. split.
  - intros (rs & Hrs & ->). destruct (lift_children cs rs Hok Hrs) as (ns & Hns & Hl).
    destruct (lifts_sum rs ns Hl) as (_ & _ & -> & _). exists (zsum ns). by split; [constructor|].
  - intros (m & Hm & ->). inversion Hm as [| |? ns Hns| | |]; subst.
    exists ((λ n, n mod d) <$> ns). split.
    + apply Forall2_fmap_r. eapply Forall2_impl; [done|]. intros c m Hc. by exists m.
    + symmetry. apply zsum_mod, Forall2_fmap_l, Forall_Forall2_diag, Forall_true.
      intros m. apply Z.mod_mod. lia.
Qed.

Lemma modulo_repeat c k s : operator_ok c → is_u 64 k → fits usize_bits (Repeat c k) →
  is_set s (residues c) → modulo p usize_bits c d = Ret s →
  ∃ s', modulo p usize_bits (Repeat c k) d = Ret s' ∧ is_set s' (residues (Repeat c k)).
Proof.
  intros Hc Hk Hf Hs Hm. inversion Hf as [| | |? ? Hfc Hku Hb| |]; subst. cbn.
  destruct (equivalent_count_spec k Hk) as (e & -> & He & Hek). cbn. rewrite Hm. cbn.
  unfold is_u in Hk. unfold to_usize. rewrite (proj2 (is_ub_spec _ _)) by (unfold is_u; lia). cbn.
  destruct (combination_sums (λ n, n mod d) (sum_mod p d) s (residues c) (Z.to_nat e))
    as (xs & -> & Hn); [done| |].
  { intros rs Hl Hrs. apply (residues_sum_mod c rs (Z.to_nat k)); [done..| |lia|done].
    intros ms Hms Hml. apply Hb. constructor; [lia|done]. }
  eexists. split; [done|]. apply is_set_collect. intros n. rewrite Hn.
  change (sums_mod (residues c) d (Z.to_nat e) n ↔ residues (Repeat c k) n).
  rewrite (equivalent_sums c e k) by done. split.
  - intros (ns & Hl & Hns & ->). exists (zsum ns). split; [constructor; [lia|done]|done].
  - intros (m & Hm' & ->). inv Hm'. eexists. split; [|done]. lia.
Qed.

Lemma modulo_range_repeat c k s : operator_ok c → is_u 64 k → fits usize_bits (RangeRepeat c k) →
  is_set s (residues c) → modulo p usize_bits c d = Ret s →
  ∃ s', modulo p usize_bits (RangeRepeat c k) d = Ret s' ∧
    is_set s' (residues (RangeRepeat c k)).
Proof.
  intros Hc Hk Hf Hs Hm. inversion Hf as [| | | |? ? Hfc Hku Hb|]; subst. cbn. rewrite Hm. cbn.
  destruct (equivalent_count_spec k Hk) as (e & -> & He & Hek). cbn. unfold is_u in Hk.
  destruct (range_sums (λ n, n mod d) (sum_mod p d) s (residues c) e) as (xss & Hx & Hn);
    [done|lia| |].
  { intros rs Hl Hrs. apply (residues_sum_mod c rs (length rs)); [done..| |lia|done].
    intros ms Hms Hml. apply Hb. constructor; [lia|done]. }
  cbn in Hx. rewrite Hx. eexists. split; [done|]. apply is_set_collect. intros n. rewrite Hn. split.
  - intros (rs & Hl & Hrs & ->).
    destruct (proj1 (residue_sums c (length rs) (zsum rs mod d) Hc)) as (ns & Hnl & Hns & ->);
      [by exists rs|].
    exists (zsum ns). split; [constructor; [lia|done]|done].
  - intros (m & Hm' & ->). inversion Hm' as [| | | |? ? ns Hns HF|]; subst.
    destruct (decide (Z.of_nat (length ns) ≤ e)) as [Hle|Hgt].
    { destruct (proj2 (residue_sums c (length ns) (zsum ns mod d) Hc)) as (rs & Hrl & Hrs & Hr);
        [by exists ns|]. exists rs. split; [lia|done]. }
    assert (Hsum : sums_mod (lengths c) d (length ns) (zsum ns mod d)) by by exists ns.
    apply (drop_summands _ _ _ (Z.to_nat e)) in Hsum; [|lia|lia].
    destruct Hsum as (n & Hne & Hsum). apply residue_sums in Hsum as (rs & Hrl & Hrs & Hr); [|done].
    exists rs. split; [lia|done].
Qed.

Lemma modulo_spec op : operator_ok op → fits usize_bits op → compatible d op →
  ∃ s, modulo p usize_bits op d = Ret s ∧ is_set s (residues op).
Proof.
  induction op as [values|c a IH|cs IH|c k IH|c k IH|cs IH] using Operator_rect';
    intros Hok Hf Hc; inv Hok; inv Hc.
  - by apply modulo_leaf.
  - destruct IH as (s & Hm & Hs); [done|by inv Hf|done|]. by eapply modulo_padding.
  - inv Hf. destruct (children_modulo cs) as (ss & Hss & HF); [done..|]. cbn. rewrite Hss. cbn.
    destruct (modulo_concatenate cs ss) as (xs & -> & Hxs); [done..|]. eauto.
  - destruct IH as (s & Hm & Hs); [done|by inv Hf|done|]. by eapply modulo_repeat.
  - destruct IH as (s & Hm & Hs); [done|by inv Hf|done|]. by eapply modulo_range_repeat.
  - inv Hf. destruct (children_modulo cs) as (ss & Hss & HF); [done..|]. cbn. rewrite Hss. cbn.
    eexists. split; [done|]. apply is_set_collect. intros n. rewrite (union_sets _ _ _ HF).
    split.
    + intros (c & Hc & m & Hm & ->). exists m. split; [by econstructor|done].
    + intros (m & Hm & ->). inv Hm. eexists. split; [done|]. by eexists.
Qed.
End spec.
