(* ===== verification/BitLengthsClaims.v ===== *)
(** * Bit length sets: what the type [BitLengthSet] promises

    Every set built with the crate's functions is well formed; its bounds, its expansion and
    its order are exact; remainders and alignment are exact for compatible alignments. *)

From Stdlib Require Import Sorted.
From S2P Require Import Prelude BitLengths BitLengthsSpec.

Open Scope Z_scope.

(** The numbers a bit length set stands for. *)
Definition bls_lengths (b : BitLengthSet) : Z → Prop := lengths (operator b).
Definition bls_ok (b : BitLengthSet) : Prop := operator_ok (operator b).
Definition bls_fits (usize_bits : Z) (b : BitLengthSet) : Prop := fits usize_bits (operator b).

Lemma structural_equal_eq a b : structural_equal a b = true ↔ a = b.
Proof.
  assert (Hlist : ∀ l k, Forall (λ a, ∀ b, structural_equal a b = true ↔ a = b) l →
    ((length l =? length k)%nat && zip_all structural_equal l k = true ↔ l = k)).
  { induction l as [|x l IH]; intros [|y k] Hl; cbn; [done..|]. inv Hl.
    match goal with H : ∀ b, _ ↔ x = b |- _ => rewrite andb_assoc, (andb_comm _ (structural_equal x y)) end.
    rewrite <- andb_assoc, andb_true_iff, IH by done. naive_solver. }
  revert b. induction a as [values|c a IH|cs IH|c k IH|c k IH|cs IH] using Operator_rect';
    intros [values'|c' a'|cs'|c' k'|c' k'|cs']; cbn [structural_equal]; try (split; intros; discriminate);
    rewrite ?(Hlist cs cs' IH), ?andb_true_iff, ?Z.eqb_eq, ?bool_decide_eq_true, ?IH;
    naive_solver.
Qed.


(** ** Construction *)

Lemma leaf_ok values : values ≠ [] → Forall (is_u 64) values →
  StronglySorted Z.lt values → bls_ok (mkBitLengthSet (Leaf values)).
Proof. intros. by constructor. Qed.

Lemma collect_ok l : Forall (is_u 64) l → Forall (is_u 64) (collect l).
Proof. rewrite !Forall_forall. intros H x Hx. apply H. by apply elem_of_collect. Qed.

Lemma children_ok b l : bls_ok b → Forall bls_ok l → Forall operator_ok (operator b :: (operator <$> l)).
Proof. intros. constructor; [done|]. by apply Forall_fmap. Qed.

Lemma lengths_operators l ms : Forall2 lengths (operator <$> l) ms ↔ Forall2 bls_lengths l ms.
Proof. apply Forall2_fmap_l. Qed.

Lemma children_lengths b l n :
  (∃ c, c ∈ operator b :: (operator <$> l) ∧ lengths c n) ↔ ∃ c, c ∈ b :: l ∧ bls_lengths c n.
Proof.
  split.
  - intros (c & [->|(x & -> & Hx)%list_elem_of_fmap]%elem_of_cons & Hc); [exists b|exists x]; set_solver.
  - intros (x & Hx & Hn). exists (operator x). split; [|done].
    apply (list_elem_of_fmap_2 operator) in Hx. done.
Qed.


(** ** Exactness *)

Section claims.
Context `{CombinatoricsSpec} (p : profile) (usize_bits : Z).

(** A sorted set whose first and last elements are equal has one element. *)
Lemma least_greatest_single P s m M : is_set s P → least P m → greatest P M →
  (m =? M) = true ↔ ∃ x, s = [x].
Proof.
  intros [Hs He] [Hm Hl] [HM Hg]. rewrite Z.eqb_eq. split.
  - intros <-. exists m. apply sorted_ext; [done|repeat constructor|].
    intros x. rewrite He, list_elem_of_singleton. split; [|by intros ->].
    intros Hx. specialize (Hl _ Hx). specialize (Hg _ Hx). lia.
  - intros [x ->]. apply He, list_elem_of_singleton in Hm, HM. congruence.
Qed.

(** Minimum, maximum and expansion, which the code computes from the expression without
    the set or with it, are the least, the greatest and all the lengths that the expression
    stands for, and [is_fixed_size] is true exactly for one length; nothing overflows or
    panics when the lengths of the parts fit 64 bits. *)
Theorem bls_bounds_exact b : bls_ok b → bls_fits usize_bits b →
  ∃ m M s, min_value p b = Ret m ∧ max_value p b = Ret M ∧ bls_expand p usize_bits b = Ret s ∧
    least (bls_lengths b) m ∧ greatest (bls_lengths b) M ∧ is_set s (bls_lengths b) ∧
    ∃ f, is_fixed_size p b = Ret f ∧ (f = true ↔ ∃ x, s = [x]).
Proof.
  intros Hok Hf. unfold min_value, max_value, bls_expand, is_fixed_size.
  destruct (op_min_spec p usize_bits _ Hok Hf) as (m & Hm & Hl).
  destruct (op_max_spec p usize_bits _ Hok Hf) as (M & HM & Hg).
  destruct (expand_spec p usize_bits _ Hok Hf) as (s & Hs & Hset).
  exists m, M, s. split_and!; [done..|]. unfold min_value, max_value. rewrite Hm, HM. cbn.
  eexists. split; [done|]. by eapply least_greatest_single.
Qed.

Lemma leaf_bounds s P : is_set s P → s ≠ [] → Forall (is_u 64) s →
  bls_ok (mkBitLengthSet (Leaf s)) ∧ bls_fits usize_bits (mkBitLengthSet (Leaf s)) ∧
  is_set s (bls_lengths (mkBitLengthSet (Leaf s))).
Proof.
  intros [Hs He] Hn Hu. split; [by apply leaf_ok|]. split; [constructor|]. split; [done|].
  intros n. split; [by constructor|by inversion 1].
Qed.

Lemma residues_set b d s : bls_ok b → bls_fits usize_bits b → 0 < d < 2 ^ 32 →
  is_set s (residues d (operator b)) → s ≠ [] ∧ Forall (is_u 64) s.
Proof.
  intros Hok Hf Hd [_ Hs]. split.
  - destruct (lengths_inhabited p usize_bits _ Hok Hf) as [n Hn]. intros ->.
    apply (not_elem_of_nil (n mod d)), Hs. by exists n.
  - apply Forall_forall. intros x (n & _ & ->)%Hs. pose proof (Z.mod_pos_bound n d).
    unfold is_u. lia.
Qed.

Lemma bls_rem_spec b d : bls_ok b → bls_fits usize_bits b → 0 < d < 2 ^ 32 → compatible d (operator b) →
  ∃ s, bls_rem p usize_bits b d = Ret (mkBitLengthSet (Leaf s)) ∧
    is_set s (λ r, ∃ n, bls_lengths b n ∧ r = n mod d) ∧ s ≠ [] ∧ Forall (is_u 64) s.
Proof.
  intros Hok Hf Hd Hc.
  destruct (modulo_spec p usize_bits d Hd _ Hok Hf Hc) as (s & Hs & Hset).
  destruct (residues_set b d s Hok Hf Hd Hset) as [Hn Hu]. exists s. split_and!; [|exact Hset|done|done].
  unfold bls_rem. rewrite Hs. cbn. rewrite debug_assert_Ret; [done|]. by rewrite bool_decide_false.
Qed.

(** The only remainder is zero. *)
Lemma is_aligned_spec b d : bls_ok b → bls_fits usize_bits b → 0 < d < 2 ^ 32 → compatible d (operator b) →
  ∃ f, is_aligned p usize_bits b d = Ret f ∧ (f = true ↔ ∀ n, bls_lengths b n → (d | n)).
Proof.
  intros Hok Hf Hd Hc. destruct (bls_rem_spec b d Hok Hf Hd Hc) as (s & Hrem & Hset & Hn & Hu).
  unfold is_aligned. rewrite Hrem. cbn [mbind exec_bind].
  destruct (leaf_bounds s _ Hset Hn Hu) as (Hok' & Hf' & Hset').
  destruct (bls_bounds_exact _ Hok' Hf') as (m & M & s' & Hm & HM & _ & Hl & Hg & _ & f & Hfix & Hff).
  assert (Hone : f = true ↔ m = M).
  { revert Hfix. unfold is_fixed_size. rewrite Hm, HM. cbn. intros [= <-]. apply Z.eqb_eq. }
  assert (Hall : (∀ n, bls_lengths b n → (d | n)) ↔ m = M ∧ m = 0).
  { destruct Hset as [_ Hset], Hset' as [_ Hset'], Hl as [Hlm Hl], Hg as [HgM Hg]. split.
    - intros Hdiv. assert (Hz : ∀ x, x ∈ s → x = 0).
      { intros x (n & Hn' & ->)%Hset. apply Z.mod_divide; [lia|]. by apply Hdiv. }
      split; [transitivity 0; [|symmetry]|]; by apply Hz, Hset'.
    - intros [<- ->] n Hn'. apply Z.mod_divide; [lia|].
      assert (Hr : bls_lengths (mkBitLengthSet (Leaf s)) (n mod d)) by (apply Hset', Hset; by exists n).
      specialize (Hl _ Hr). specialize (Hg _ Hr). lia. }
  rewrite Hfix. cbn [mbind exec_bind]. destruct f.
  - rewrite Hm. cbn. eexists. split; [done|]. rewrite Hall, Z.eqb_eq. naive_solver.
  - eexists. split; [done|]. rewrite Hall. split; [done|]. intros [? _]. by apply Hone.
Qed.

(** C39: [b % d] is exactly the set of the remainders of the lengths, although the code only
    looks at remainders and caps the number of repetitions that it combines, and
    [is_aligned] is true exactly when every length is a multiple of [d] - when the
    alignments of the paddings in [b] divide [d] or are multiples of it. *)
Theorem bls_remainders_exact b d : bls_ok b → bls_fits usize_bits b → 0 < d < 2 ^ 32 →
  compatible d (operator b) →
  ∃ s, bls_rem p usize_bits b d = Ret (mkBitLengthSet (Leaf s)) ∧
    is_set s (λ r, ∃ n, bls_lengths b n ∧ r = n mod d) ∧
    ∃ f, is_aligned p usize_bits b d = Ret f ∧ (f = true ↔ ∀ n, bls_lengths b n → (d | n)).
Proof.
  intros Hok Hf Hd Hc. destruct (bls_rem_spec b d Hok Hf Hd Hc) as (s & Hrem & Hset & _).
  exists s. split_and!; [done|exact Hset|by apply is_aligned_spec].
Qed.

(** [validate_numerically] passes when all alignments are compatible with 1 to 64. *)
Lemma validate_passes b : bls_ok b → bls_fits usize_bits b →
  (∀ i, 1 ≤ i ≤ 64 → compatible i (operator b)) →
  bls_validate_numerically p usize_bits b = Ret tt.
Proof.
  intros Hok Hf Hc. unfold bls_validate_numerically, validate_numerically.
  destruct (expand_spec p usize_bits _ Hok Hf) as (s & -> & Hset). cbn [mbind exec_bind].
  destruct (op_min_spec p usize_bits _ Hok Hf) as (m & -> & Hl).
  destruct (op_max_spec p usize_bits _ Hok Hf) as (M & -> & Hg).
  assert (Hn : s ≠ []) by (intros ->; destruct Hl as [Hl _]; apply Hset in Hl; set_solver).
  rewrite bool_decide_false by done.
  destruct (set_min_least s _ Hset Hn) as (x & -> & Hx).
  destruct (set_max_greatest s _ Hset Hn) as (y & -> & Hy). cbn.
  assert (x = m) as -> by (destruct Hx as [? Hx], Hl as [? Hl]; apply Z.le_antisymm; auto).
  assert (y = M) as ->.
  { destruct Hy as [Hy1 Hy], Hg as [Hg1 Hg]. specialize (Hy _ Hg1). specialize (Hg _ Hy1). lia. }
  rewrite !Z.eqb_refl. cbn. rewrite (mapM_Ret _ (λ _, tt)); [done|].
  intros i Hi%elem_of_seqZ.
  destruct (modulo_spec p usize_bits i ltac:(lia) _ Hok Hf) as (r & -> & Hr); [apply Hc; lia|]. cbn.
  rewrite (mapM_Ret _ (λ n, n mod i)).
  - cbn. rewrite bool_decide_true; [done|]. eapply is_set_unique; [done|].
    apply is_set_collect. intros n. rewrite list_elem_of_fmap. destruct Hset as [_ Hset].
    unfold residues. setoid_rewrite <- Hset. naive_solver.
  - intros n _. unfold rem_u64. by rewrite (proj2 (Z.eqb_neq i 0)) by lia.
Qed.

(** [==] is true exactly for sets of the same lengths, also when it stops at equal
    structures, and [cmp] is a total order on the sets of lengths that agrees with it. *)
Theorem bls_order_total a b c : bls_ok a → bls_ok b → bls_ok c →
  bls_fits usize_bits a → bls_fits usize_bits b → bls_fits usize_bits c →
  ∃ o, bls_cmp p usize_bits a b = Ret o ∧
    bls_partial_cmp p usize_bits a b = Ret (Some o) ∧
    bls_eq p usize_bits a b = Ret (bool_decide (o = Eq)) ∧
    (o = Eq ↔ ∀ n, bls_lengths a n ↔ bls_lengths b n) ∧
    bls_cmp p usize_bits b a = Ret (CompOpp o) ∧
    (o = Lt → bls_cmp p usize_bits b c = Ret Lt → bls_cmp p usize_bits a c = Ret Lt).
Proof.
  intros Ha Hb Hc Hfa Hfb Hfc.
  destruct (expand_spec p usize_bits _ Ha Hfa) as (s & Hs & Hsa).
  destruct (expand_spec p usize_bits _ Hb Hfb) as (t & Ht & Htb).
  destruct (expand_spec p usize_bits _ Hc Hfc) as (u & Hu & _).
  destruct (set_cmp_spec s t) as [Heq Hanti].
  assert (Hst : s = t ↔ ∀ n, bls_lengths a n ↔ bls_lengths b n).
  { destruct Hsa as [Hs1 Hs2], Htb as [Ht1 Ht2]. split.
    - intros -> n. unfold bls_lengths. by rewrite <- Hs2, <- Ht2.
    - intros He. apply sorted_ext; [done..|]. intros n. rewrite Hs2, Ht2. apply He. }
  exists (set_cmp s t). unfold bls_partial_cmp, bls_eq, bls_cmp, bls_expand.
  rewrite Hs, Ht, Hu. cbn. split_and!; [done..| | | |].
  - destruct (bls_structural_equal a b) eqn:Hab.
    + apply structural_equal_eq in Hab. rewrite Hab in Hs. rewrite bool_decide_true; [done|].
      apply Heq. congruence.
    + f_equal. by apply bool_decide_ext.
  - by rewrite Heq.
  - by rewrite Hanti.
  - intros Hlt [= Hlt']. f_equal. by eapply set_cmp_trans.
Qed.
End claims.

(** ** A concrete instance, and examples *)

Module BlsExample.
Fixpoint choose (k : nat) (s : list Z) : list (list Z) :=
  match k with
  | O => [[]]
  | S k' =>
      (fix go s := match s with
                   | [] => []
                   | x :: s' => ((x ::.) <$> choose k' (x :: s')) ++ go s'
                   end) s
  end.

#[local] Instance crates : Combinatorics := {
  multi_cartesian_product ls := foldr (λ s ls, x ← s; (x ::.) <$> ls) [[]] ls;
  combinations_with_replacement s k := choose k s;
  lcm a b := if is_ub 64 (Z.lcm a b) then Ret (Z.lcm a b) else Panic
}.

Lemma choose_elements k s l : l ∈ choose k s → length l = k ∧ Forall (.∈ s) l.
Proof.
  revert s l. induction k as [|k IH]; intros s l.
  { intros ->%list_elem_of_singleton. done. }
  induction s as [|x s IHs]; cbn; [by intros ?%not_elem_of_nil|].
  intros [(l' & -> & [<- Hl]%IH)%list_elem_of_fmap|[Hk Hl]%IHs]%elem_of_app.
  - split; [done|]. constructor; [set_solver|done].
  - split; [done|]. eapply Forall_impl; [done|]. set_solver.
Qed.

Lemma choose_complete k s l : length l = k → Forall (.∈ s) l → ∃ l', l' ∈ choose k s ∧ l' ≡ₚ l.
Proof.
  revert s l. induction k as [|k IH]; intros s l Hk Hl.
  { destruct l; [|done]. exists []. split; [|done]. cbn. set_solver. }
  induction s as [|x s IHs].
  { destruct l as [|y l]; [done|]. inv Hl. set_solver. }
  destruct (decide (x ∈ l)) as [[l' Hl']%elem_of_Permutation|Hx].
  - rewrite Hl' in Hk, Hl. inv Hl. injection Hk as Hk.
    destruct (IH (x :: s) l') as (l'' & Hl'' & Hp); [done..|].
    exists (x :: l''). split; [cbn; set_solver|]. by rewrite Hp, Hl'.
  - destruct IHs as (l' & Hin & Hp).
    { apply Forall_forall. intros y Hy. rewrite Forall_forall in Hl.
      specialize (Hl _ Hy). set_solver. }
    exists l'. split; [|done]. cbn. apply elem_of_app. by right.
Qed.

#[local] Instance crates_spec : CombinatoricsSpec.
Proof.
  split.
  - intros ls l _. cbn. revert l. induction ls as [|s ls IH]; intros l; cbn.
    + rewrite list_elem_of_singleton. split; [intros ->; constructor|by inversion 1].
    + rewrite list_elem_of_bind. split.
      * intros (x & (l' & -> & Hl')%list_elem_of_fmap & Hx). constructor; [done|by apply IH].
      * inversion 1 as [|x ? l' ? Hx Hl']; subst. exists x. split; [|done].
        apply list_elem_of_fmap. exists l'. split; [done|by apply IH].
  - intros s k l. apply choose_elements.
  - intros s k l. apply choose_complete.
  - intros a b Hab. cbn. by rewrite (proj2 (is_ub_spec _ _) Hab).
Qed.

(** [uint16[<=3] foo; int2 bar] with a length byte, padded to whole bytes. *)
Definition array : BitLengthSet := repeat_range (bls_single 16) 3.
Definition foo : BitLengthSet :=
  pad_to_alignment (concatenate (bls_single 8) [array; bls_single 2]) 8.
Definition foo' : BitLengthSet := mkBitLengthSet (Leaf [16; 32; 48; 64]).

Lemma single_ok x : is_u 64 x → bls_ok (bls_single x).
Proof. intros. constructor; [done|repeat constructor|by apply list.Forall_singleton]. Qed.

Lemma array_sum ms : Forall (lengths (Leaf [16])) ms → zsum ms = 16 * Z.of_nat (length ms).
Proof.
  induction 1 as [|m ms Hm _ IH]; [done|]. inversion Hm; subst. assert (m = 16) as -> by set_solver.
  cbn [zsum length]. lia.
Qed.

Lemma array_bound n : lengths (operator array) n → n ≤ 48.
Proof. inversion 1 as [| | | |? ? ms Hms HF|]; subst. rewrite (array_sum ms HF). lia. Qed.

Lemma body_bound n :
  lengths (Concatenate [Leaf [8]; operator array; Leaf [2]]) n → n ≤ 58.
Proof.
  inversion 1 as [| |? ms Hms| | |]; subst.
  inversion Hms as [|? m1 ? ? H1 Hms1]; subst. inversion Hms1 as [|? m2 ? ? H2 Hms2]; subst.
  inversion Hms2 as [|? m3 ? ? H3 Hms3]; subst. inversion Hms3; subst.
  apply array_bound in H2. inversion H1; subst. inversion H3; subst.
  assert (m1 = 8) by set_solver. assert (m3 = 2) by set_solver. cbn. lia.
Qed.

Lemma array_ok : bls_ok array.
Proof. constructor; [by apply single_ok|done]. Qed.

Lemma foo_ok : bls_ok foo.
Proof.
  constructor; [|lia]. constructor; [done|].
  apply (children_ok (bls_single 8) [array; bls_single 2]); [by apply single_ok|].
  apply Forall_cons; split; [apply array_ok|]. by apply list.Forall_singleton, single_ok.
Qed.

Lemma array_fits : bls_fits 64 array.
Proof. constructor; [constructor|done|]. intros n Hn%array_bound. lia. Qed.

Lemma foo_fits : bls_fits 64 foo.
Proof.
  constructor.
  - constructor.
    + repeat first [apply Forall_nil_2|apply Forall_cons_2]; [constructor|apply array_fits|constructor].
    + intros n Hn%body_bound. lia.
  - intros n Hn%body_bound. lia.
Qed.

Lemma foo'_ok : bls_ok foo'.
Proof.
  constructor; [done|repeat constructor; lia|].
  repeat first [apply Forall_nil_2|apply Forall_cons_2]; done.
Qed.

Lemma foo_compatible d : (8 | d) ∨ (d | 8) → compatible d (operator foo).
Proof. intros Hd. constructor; [|done]. repeat constructor. Qed.

(** Remainders go wrong when the alignment of a padding and the divisor have nothing to do
    with each other: 9 bits padded to 16 are no multiple of 3. *)
Example modulo_wrong_alignment :
  bls_expand Debug 64 (pad_to_alignment (bls_single 9) 8) = Ret [16] ∧
  is_aligned Debug 64 (pad_to_alignment (bls_single 9) 8) 3 = Ret true.
Proof. by vm_compute. Qed.
End BlsExample.

Import BlsExample.
#[local] Existing Instance crates.
#[local] Existing Instance crates_spec.


Lemma bls_bounds_exact_witness :
  min_value Debug foo = Ret 16 ∧ bls_expand Debug 64 foo = Ret [16; 32; 48; 64] ∧
  ∃ m, min_value Debug foo = Ret m ∧ least (bls_lengths foo) m.
Proof.
  split; [vm_compute; reflexivity|]. split; [vm_compute; reflexivity|].
  destruct (bls_bounds_exact Debug 64 foo foo_ok foo_fits) as (m & _ & _ & Hm & _ & _ & Hl & _).
  exists m. split; [exact Hm|exact Hl].
Defined.

Lemma bls_remainders_exact_witness :
  ∃ s, bls_rem Release 64 foo 24 = Ret (mkBitLengthSet (Leaf s)) ∧
    is_set s (λ r, ∃ n, bls_lengths foo n ∧ r = n mod 24).
Proof.
  destruct (bls_remainders_exact Release 64 foo 24 foo_ok foo_fits) as (s & Hs & Hset & _);
    [lia|apply foo_compatible; left; by exists 3|].
  exists s. split; [exact Hs|exact Hset].
Defined.

Lemma bls_order_total_witness :
  bls_eq Debug 64 foo foo' = Ret true ∧
  ∃ o, bls_cmp Debug 64 foo foo' = Ret o ∧ bls_cmp Debug 64 foo' foo = Ret (CompOpp o).
Proof.
  split; [vm_compute; reflexivity|].
  destruct (bls_order_total Debug 64 foo foo' array foo_ok foo'_ok array_ok foo_fits)
    as (o & Ho & _ & _ & _ & Ho' & _); [constructor|apply array_fits|].
  exists o. split; [exact Ho|exact Ho'].
Defined.

(** ** Checking that lengths fit

    An upper bound of the lengths of an expression, and a test with it that all the numbers
    that computations on a bit length set go through fit their types. *)

Fixpoint op_bound (op : Operator) : Z :=
  match op with
  | Leaf values => foldr Z.max 0 values
  | Padding child alignment => op_bound child + (alignment - 1)
  | Concatenate children => foldr (λ c n, op_bound c + n) 0 children
  | Repeat child count | RangeRepeat child count => op_bound child * count
  | Union children => foldr (λ c n, Z.max (op_bound c) n) 0 children
  end.

Fixpoint op_fits (usize_bits : Z) (op : Operator) : bool :=
  (op_bound op <? 2 ^ 64) &&
  match op with
  | Leaf _ => true
  | Padding child _ => op_fits usize_bits child
  | Concatenate children | Union children => forallb (op_fits usize_bits) children
  | Repeat child count | RangeRepeat child count => op_fits usize_bits child && (count <? 2 ^ usize_bits)
  end.

Lemma zsum_bound l b : 0 ≤ b → Forall (λ n, n ≤ b) l → zsum l ≤ b * Z.of_nat (length l).
Proof. intros Hb. induction 1 as [|n l Hn _ IH]; cbn [zsum foldr length]; [lia|]. cbn in IH. lia. Qed.

Lemma op_bound_spec op : operator_ok op → 0 ≤ op_bound op ∧ ∀ n, lengths op n → n ≤ op_bound op.
Proof.
  induction op as [values|c a IH|cs IH|c k IH|c k IH|cs IH] using Operator_rect'; intros Hok; inv Hok; cbn [op_bound].
  - split; [clear; induction values; cbn; lia|]. intros n Hn. inv Hn as [? ? Hin| | | | |].
    clear -Hin. induction values as [|x values IH]; [set_solver|]. cbn. set_unfold. destruct Hin as [->|Hin]; [lia|]. specialize (IH Hin). lia.
  - destruct IH as [H0 Hb]; [done|]. split; [lia|]. intros n Hn. inv Hn as [|? ? m ? Hm [_ Hr]| | | |]. specialize (Hb _ Hm). lia.
  - match goal with H : Forall operator_ok cs |- _ => rename H into Hall end. clear -IH Hall. split.
    + induction IH as [|c cs Hc _ IHcs]; cbn [foldr]; [lia|]. inv Hall. destruct Hc; [done|]. specialize (IHcs ltac:(done)). lia.
    + intros n Hn. inv Hn as [| |? ms Hms| | |]. revert ms Hms. induction IH as [|c cs Hc _ IHcs]; intros ms Hms; inv Hms; cbn [foldr zsum]; [lia|].
      inv Hall. destruct Hc as [_ Hc]; [done|].
      match goal with H : lengths c _, H' : Forall2 lengths cs _ |- _ => specialize (Hc _ H); specialize (IHcs ltac:(done) _ H') end. lia.
  - destruct IH as [H0 Hb]; [done|]. unfold is_u in *. split; [nia|]. intros n Hn. inv Hn as [| | |? ? ms Hl Hms| |].
    apply zsum_bound; [done|]. eapply Forall_impl; [exact Hms|]. auto.
  - destruct IH as [H0 Hb]; [done|]. unfold is_u in *. split; [nia|]. intros n Hn. inv Hn as [| | | |? ? ms Hl Hms|].
    transitivity (op_bound c * Z.of_nat (length ms)); [|nia]. apply zsum_bound; [done|]. eapply Forall_impl; [exact Hms|]. auto.
  - match goal with H : Forall operator_ok cs |- _ => rename H into Hall end. clear -IH Hall. split.
    + induction IH as [|c cs Hc _ IHcs]; cbn [foldr]; [lia|]. inv Hall. specialize (IHcs ltac:(done)). lia.
    + intros n Hn. inv Hn as [| | | | |? c ? Hin Hc']. induction IH as [|c1 cs Hc _ IHcs]; [set_solver|]. inv Hall. cbn [foldr].
      apply elem_of_cons in Hin as [->|Hin]; [destruct Hc as [_ Hc]; [done|]; specialize (Hc _ Hc'); lia|].
      specialize (IHcs ltac:(done) Hin). lia.
Qed.

Lemma op_fits_spec usize_bits op : operator_ok op → op_fits usize_bits op = true → fits usize_bits op.
Proof.
  intros Hok Hf. assert (Hb : ∀ op, operator_ok op → op_fits usize_bits op = true → ∀ n, lengths op n → n < 2 ^ 64).
  { intros o Ho Hof n Hn. pose proof (proj2 (op_bound_spec o Ho) n Hn).
    assert (op_bound o < 2 ^ 64) by (destruct o; cbn [op_fits] in Hof; apply andb_prop in Hof as [Hof%Z.ltb_lt _]; exact Hof). lia. }
  induction op as [values|c a IH|cs IH|c k IH|c k IH|cs IH] using Operator_rect';
    pose proof (Hb _ Hok Hf) as Hlt; cbn [op_fits] in Hf; apply andb_prop in Hf as [Hb' Hf].
  - constructor.
  - inv Hok. constructor; [by apply IH|]. intros m Hm. apply Z.ltb_lt in Hb'. cbn [op_bound] in Hb'.
    pose proof (proj2 (op_bound_spec c ltac:(done)) m Hm). lia.
  - inv Hok. constructor; [|exact Hlt]. apply Forall_forall. intros c Hc. rewrite Forall_forall in IH.
    apply IH; [done|by apply (proj1 (Forall_forall _ _) ltac:(eassumption))|].
    eapply forallb_forall; [exact Hf|]. by apply list_elem_of_In.
  - apply andb_prop in Hf as [Hf Hk%Z.ltb_lt]. inv Hok. constructor; [by apply IH|done|exact Hlt].
  - apply andb_prop in Hf as [Hf Hk%Z.ltb_lt]. inv Hok. constructor; [by apply IH|done|exact Hlt].
  - inv Hok. constructor. apply Forall_forall. intros c Hc. rewrite Forall_forall in IH.
    apply IH; [done|by apply (proj1 (Forall_forall _ _) ltac:(eassumption))|].
    eapply forallb_forall; [exact Hf|]. by apply list_elem_of_In.
Qed.

Lemma bls_fits_check usize_bits b : bls_ok b → op_fits usize_bits (operator b) = true → bls_fits usize_bits b.
Proof. apply op_fits_spec. Qed.
