(* ===== verification/Node.v ===== *)
(** * The traits of the node layer

    Models [canadensis/src/lib.rs]: tokens, errors, the trait [Node] with its operations, the
    trait [TransferHandler] for incoming transfers, and chains of handlers. A handler is
    polymorphic in the node that calls it; here it is an instance for each type of node. *)

From S2P Require Import Prelude CoreTypes Time Transfer Transport EncFields.

(** A token from a request that is needed to send a response. *)
Record ResponseToken (N T : Type) := mkResponseToken {
  rt_service : ServiceId;
  rt_client : N;
  rt_transfer : T;
  rt_priority : Priority;
}.
Arguments mkResponseToken {N T}.
Arguments rt_service {N T}.
Arguments rt_client {N T}.
Arguments rt_transfer {N T}.
Arguments rt_priority {N T}.

(** Tokens that a node hands out when it starts to publish or to send requests. They are not
    [Clone]: the operations that end the activity consume them. *)
Record PublishToken := mkPublishToken { subject_id : SubjectId }.
Record ServiceToken := mkServiceToken { service_id : ServiceId }.

Inductive StartSendError (E : Type) :=
| StartMemory (e : OutOfMemoryError)
| StartTransport (e : E)
| Duplicate.
Arguments StartMemory {E} e.
Arguments StartTransport {E} e.
Arguments Duplicate {E}.

(** [MessageTransfer] and [ServiceTransfer] of [canadensis_core/src/transfer.rs]. *)
Record MessageTransfer (A I N T : Type) := mkMessageTransfer {
  mt_header : MessageHeader I N T;
  mt_payload : A;
}.
Arguments mkMessageTransfer {A I N T}.
Arguments mt_header {A I N T}.
Arguments mt_payload {A I N T}.
Record ServiceTransfer (A I N T : Type) := mkServiceTransfer {
  st_header : ServiceHeader I N T;
  st_payload : A;
}.
Arguments mkServiceTransfer {A I N T}.
Arguments st_header {A I N T}.
Arguments st_payload {A I N T}.

(** ** Handlers *)

(** The handler and the node are taken by mutable reference; the boolean says that the
    transfer was handled and should not be sent on to other handlers. *)
Class TransferHandler (H Nd I N T : Type) := {
  handle_message : memory → H → Nd → MessageTransfer (list u8) I N T → exec (H * Nd * bool);
  handle_request : memory → H → Nd → ResponseToken N T → ServiceTransfer (list u8) I N T →
    exec (H * Nd * bool);
  handle_response : memory → H → Nd → ServiceTransfer (list u8) I N T → exec (H * Nd * bool);
}.

(** The default implementations of the three methods. *)
Definition default_handle_message {H Nd I N T} (mem : memory) (self : H) (node : Nd)
    (transfer : MessageTransfer (list u8) I N T) : exec (H * Nd * bool) := Ret (self, node, false).
Definition default_handle_request {H Nd I N T} (mem : memory) (self : H) (node : Nd)
    (token : ResponseToken N T) (transfer : ServiceTransfer (list u8) I N T)
    : exec (H * Nd * bool) := Ret (self, node, false).
Definition default_handle_response {H Nd I N T} (mem : memory) (self : H) (node : Nd)
    (transfer : ServiceTransfer (list u8) I N T) : exec (H * Nd * bool) := Ret (self, node, false).

(** Combines two handlers: what the first does not handle goes to the second. *)
Record TransferHandlerChain (H0 H1 : Type) := mkTransferHandlerChain { handler0 : H0; handler1 : H1 }.
Arguments mkTransferHandlerChain {H0 H1}.
Arguments handler0 {H0 H1}.
Arguments handler1 {H0 H1}.

Section chain.
Context {H0 H1 Nd I N T : Type} `{!TransferHandler H0 Nd I N T, !TransferHandler H1 Nd I N T}.

Definition chain (self : H0) (next : H1) : TransferHandlerChain H0 H1 :=
  mkTransferHandlerChain self next.

Definition into_inner (self : TransferHandlerChain H0 H1) : H0 * H1 := (handler0 self, handler1 self).

(** The three methods of a chain have the same shape. *)
Definition chain_handle (self : TransferHandlerChain H0 H1) (node : Nd)
    (first : H0 → Nd → exec (H0 * Nd * bool)) (second : H1 → Nd → exec (H1 * Nd * bool))
    : exec (TransferHandlerChain H0 H1 * Nd * bool) :=
  '(h0, node, handled) ← first (handler0 self) node;
  if handled : bool then Ret (mkTransferHandlerChain h0 (handler1 self), node, true)
  else
    '(h1, node, handled) ← second (handler1 self) node;
    Ret (mkTransferHandlerChain h0 h1, node, handled).

Definition chain_handle_message (mem : memory) (self : TransferHandlerChain H0 H1) (node : Nd)
    (transfer : MessageTransfer (list u8) I N T) : exec (TransferHandlerChain H0 H1 * Nd * bool) :=
  chain_handle self node
    (λ h node, handle_message (first_part mem) h node transfer)
    (λ h node, handle_message (second_part mem) h node transfer).
Definition chain_handle_request (mem : memory) (self : TransferHandlerChain H0 H1) (node : Nd)
    (token : ResponseToken N T) (transfer : ServiceTransfer (list u8) I N T)
    : exec (TransferHandlerChain H0 H1 * Nd * bool) :=
  chain_handle self node
    (λ h node, handle_request (first_part mem) h node token transfer)
    (λ h node, handle_request (second_part mem) h node token transfer).
Definition chain_handle_response (mem : memory) (self : TransferHandlerChain H0 H1) (node : Nd)
    (transfer : ServiceTransfer (list u8) I N T) : exec (TransferHandlerChain H0 H1 * Nd * bool) :=
  chain_handle self node
    (λ h node, handle_response (first_part mem) h node transfer)
    (λ h node, handle_response (second_part mem) h node transfer).

#[global] Instance chain_handler : TransferHandler (TransferHandlerChain H0 H1) Nd I N T := {
  handle_message := chain_handle_message;
  handle_request := chain_handle_request;
  handle_response := chain_handle_response;
}.
End chain.

(** ** Nodes *)

(** The trait [Node]; the functions that give access to its parts are left out. A node that
    wraps another lets the inner node call the handler, with itself as the argument: [Tgt] is
    the node that handlers get to see. *)
Class Node (Nd Tgt I D N T ETx ERx : Type) := {
  node_receive : ∀ {H : Type} `{!TransferHandler H Tgt I N T}, memory → Nd → H →
    exec (Nd * H * result ERx unit);
  node_start_publishing : Nd → SubjectId → D → Priority →
    exec (Nd * result (StartSendError ETx) PublishToken);
  node_stop_publishing : Nd → PublishToken → exec Nd;
  node_publish : ∀ {M : Type} `{Serialize M}, memory → Nd → PublishToken → M →
    exec (Nd * result (nb_error ETx) unit);
  node_start_sending_requests : memory → Nd → ServiceId → D → usize → Priority →
    exec (Nd * result (StartSendError ERx) ServiceToken);
  node_stop_sending_requests : Nd → ServiceToken → exec Nd;
  node_send_request : ∀ {M : Type} `{Serialize M}, memory → Nd → ServiceToken → M → N →
    exec (Nd * result (nb_error ETx) T);
  node_subscribe_message : memory → Nd → SubjectId → usize → D → exec (Nd * result ERx unit);
  node_subscribe_request : memory → Nd → ServiceId → usize → D → exec (Nd * result ERx unit);
  node_send_response : ∀ {M : Type} `{Serialize M}, memory → Nd → ResponseToken N T → D → M →
    exec (Nd * result (nb_error ETx) unit);
  node_flush : Nd → exec (Nd * result (nb_error ETx) unit);
  node_id : Nd → N;
}.
