(* ===== verification/NodeSend.v ===== *)
(** * Publishers and requesters

    Models [canadensis/src/serialize.rs], [publisher.rs], [requester.rs] and [anonymous.rs]:
    what assembles outgoing transfers and numbers them. The maps [heapless::FnvIndexMap] are
    [KeyMap]s; a type that can be sent is an instance of [Serialize]. *)

From S2P Require Import Prelude CoreTypes Time Transfer Transport SessionTracker EncCursor EncFields.

(** ** Serialization *)

(** Payloads above this size (in bytes) use a dynamically allocated buffer. *)
Definition STACK_THRESHOLD : usize := 64.

(** Serializes a payload and passes the bytes to [operation], which acts on a state; an error
    leaves the state as it is. *)
Definition do_serialize {M} `{Serialize M} {S R E : Type} (p : profile) (alloc : allocator)
    (oom : OutOfMemoryError → E) (state : S) (payload : M)
    (operation : list u8 → exec (S * result (nb_error E) R)) : exec (S * result (nb_error E) R) :=
  let payload_bytes := (size_bits payload + 7) / 8 in
  if STACK_THRESHOLD <? payload_bytes then
    match vec_with_capacity (A := u8) alloc payload_bytes with
    | None => Ret (state, Err (Other (oom mkOutOfMemoryError)))
    | Some _ =>
        bytes ← serialize_to_bytes p payload (replicate payload_bytes 0%Z);
        operation bytes
    end
  else
    let bytes := take payload_bytes (replicate STACK_THRESHOLD 0%Z) in
    bytes ← serialize_to_bytes p payload bytes;
    operation bytes.

(** ** Publishers *)

Record Publisher (D N T : Type) := mkPublisher {
  pub_next_transfer_id : T;
  pub_timeout : D;
  pub_priority : Priority;
  pub_source : N;
}.
Arguments mkPublisher {D N T}.
Arguments pub_next_transfer_id {D N T}.
Arguments pub_timeout {D N T}.
Arguments pub_priority {D N T}.
Arguments pub_source {D N T}.

Section publisher.
Context {I D N T Tx C Drv E : Type}.
Context `{Instant I D, Clock C I, Transport N T, !Transmitter Tx C I N T Drv E} (p : profile).

Definition Publisher_new (node_id : N) (timeout : D) (priority : Priority) : Publisher D N T :=
  mkPublisher transfer_id_default timeout priority node_id.

(** The states that sending takes by mutable reference. *)
Abbreviation Sending := (Tx * C * Drv)%type.

Definition pub_send_payload (mem : memory) (self : Publisher D N T) (subject : SubjectId)
    (payload : list u8) (deadline : I) (transmitter : Tx) (clock : C) (driver : Drv)
    : exec (Publisher D N T * Sending * result (nb_error E) unit) :=
  let transfer := mkTransfer
    (Message (mkMessageHeader deadline (pub_next_transfer_id self) (pub_priority self) subject
      (Some (pub_source self)))) payload in
  let self := mkPublisher (transfer_id_increment (pub_next_transfer_id self)) (pub_timeout self)
    (pub_priority self) (pub_source self) in
  '(transmitter, clock, driver, r) ← transmit_push mem transmitter transfer clock driver;
  Ret (self, (transmitter, clock, driver), r).

Definition pub_publish {M} `{Serialize M} (mem : memory) (self : Publisher D N T) (clock : C)
    (subject : SubjectId) (payload : M) (transmitter : Tx) (driver : Drv)
    : exec (Publisher D N T * Sending * result (nb_error E) unit) :=
  let '(clock, now) := clock_now clock in
  deadline ← add_instant p (pub_timeout self) now;
  do_serialize p (buffer_memory mem) (transmit_oom (Tx := Tx)) (self, (transmitter, clock, driver)) payload (λ payload_bytes,
    pub_send_payload (first_part mem) self subject payload_bytes deadline transmitter clock driver).
End publisher.

(** ** Anonymous publishers *)

Inductive AnonymousPublishError (E : Type) :=
| AnonymousLength
| AnonymousTransport (e : E).
Arguments AnonymousLength {E}.
Arguments AnonymousTransport {E} e.

Record AnonymousPublisher (D T : Type) := mkAnonymousPublisher {
  anon_priority : Priority;
  anon_subject : SubjectId;
  anon_next_transfer_id : T;
  anon_timeout : D;
}.
Arguments mkAnonymousPublisher {D T}.
Arguments anon_priority {D T}.
Arguments anon_subject {D T}.
Arguments anon_next_transfer_id {D T}.
Arguments anon_timeout {D T}.

Section anonymous.
Context {I D N T Tx C Drv E : Type}.
Context `{Instant I D, Clock C I, Transport N T, !Transmitter Tx C I N T Drv E} (p : profile).

Definition AnonymousPublisher_new (subject : SubjectId) (priority : Priority) (timeout : D)
    : AnonymousPublisher D T :=
  mkAnonymousPublisher priority subject transfer_id_default timeout.

Definition anon_send_payload (mem : memory) (self : AnonymousPublisher D T) (payload : list u8)
    (deadline : I) (transmitter : Tx) (clock : C) (driver : Drv)
    : exec (AnonymousPublisher D T * (Tx * C * Drv) * result (nb_error E) unit) :=
  let transfer := mkTransfer
    (Message (mkMessageHeader deadline (anon_next_transfer_id self) (anon_priority self)
      (anon_subject self) None)) payload in
  let self := mkAnonymousPublisher (anon_priority self) (anon_subject self)
    (transfer_id_increment (anon_next_transfer_id self)) (anon_timeout self) in
  '(transmitter, clock, driver, r) ← transmit_push mem transmitter transfer clock driver;
  Ret (self, (transmitter, clock, driver), r).

Definition anon_send {M} `{Serialize M} (mem : memory) (self : AnonymousPublisher D T) (payload : M)
    (clock : C) (transmitter : Tx) (driver : Drv)
    : exec (AnonymousPublisher D T * (Tx * C * Drv) *
            result (nb_error (AnonymousPublishError E)) unit) :=
  let payload_size_bytes := (size_bits payload + 7) / 8 in
  mtu ← transmit_mtu transmitter;
  if mtu <? payload_size_bytes
  then Ret (self, (transmitter, clock, driver), Err (Other AnonymousLength))
  else
    let '(clock, now) := clock_now clock in
    deadline ← add_instant p (anon_timeout self) now;
    '(state, r) ← do_serialize p (buffer_memory mem) (transmit_oom (Tx := Tx)) (self, (transmitter, clock, driver)) payload
      (λ payload_bytes,
        anon_send_payload (first_part mem) self payload_bytes deadline transmitter clock driver);
    Ret (state, map_err (nb_map AnonymousTransport) r).
End anonymous.

(** ** Requesters *)

(** [TransferIdTracker]. *)
Class TransferIdTracker (R N T : Type) := {
  tracker_default : R;
  next_transfer_id : R → N → R * result OutOfMemoryError T;
}.

(** [TransferIdFixedMap], over a map of a fixed capacity. *)
Record TransferIdFixedMap (M : Type) := mkTransferIdFixedMap { fm_ids : M }.
Arguments mkTransferIdFixedMap {M}.
Arguments fm_ids {M}.

Section fixed_map.
Context {M N T : Type} `{Transport N T} `{!KeyMap M N T} (empty : M).

Definition fixed_map_default : TransferIdFixedMap M := mkTransferIdFixedMap empty.

Definition fixed_map_next_transfer_id (self : TransferIdFixedMap M) (destination : N)
    : TransferIdFixedMap M * result OutOfMemoryError T :=
  match km_get (fm_ids self) destination with
  | Some current =>
      (mkTransferIdFixedMap (km_alter (fm_ids self) destination transfer_id_increment), Ok current)
  | None =>
      let current := transfer_id_default in
      let next := transfer_id_increment current in
      match km_insert (fm_ids self) destination next with
      | Some ids => (mkTransferIdFixedMap ids, Ok current)
      | None => (self, Err mkOutOfMemoryError)
      end
  end.

Definition fixed_map_tracker : TransferIdTracker (TransferIdFixedMap M) N T := {|
  tracker_default := fixed_map_default;
  next_transfer_id := fixed_map_next_transfer_id;
|}.
End fixed_map.

Record Requester (D N R : Type) := mkRequester {
  req_this_node : N;
  req_priority : Priority;
  req_timeout : D;
  req_transfer_ids : R;
}.
Arguments mkRequester {D N R}.
Arguments req_this_node {D N R}.
Arguments req_priority {D N R}.
Arguments req_timeout {D N R}.
Arguments req_transfer_ids {D N R}.

Section requester.
Context {I D N T Tx C Drv E R : Type}.
Context `{Instant I D, Clock C I, Transport N T, !Transmitter Tx C I N T Drv E}.
Context `{!TransferIdTracker R N T} (p : profile).

Definition Requester_new (this_node : N) (timeout : D) (priority : Priority) : Requester D N R :=
  mkRequester this_node priority timeout tracker_default.

Definition req_send_payload (mem : memory) (self : Requester D N R) (payload : list u8)
    (service : ServiceId) (destination : N) (deadline : I) (transmitter : Tx) (clock : C) (driver : Drv)
    : exec (Requester D N R * (Tx * C * Drv) * result (nb_error E) T) :=
  let '(ids, r) := next_transfer_id (req_transfer_ids self) destination in
  let self := mkRequester (req_this_node self) (req_priority self) (req_timeout self) ids in
  match r with
  | Err oom => Ret (self, (transmitter, clock, driver), Err (Other (transmit_oom (Tx := Tx) oom)))
  | Ok transfer_id =>
      let transfer := mkTransfer
        (Request (mkServiceHeader deadline transfer_id (req_priority self) service
          (req_this_node self) destination)) payload in
      '(transmitter, clock, driver, r) ← transmit_push mem transmitter transfer clock driver;
      Ret (self, (transmitter, clock, driver),
        match r with Ok _ => Ok transfer_id | Err e => Err e end)
  end.

Definition req_send {M} `{Serialize M} (mem : memory) (self : Requester D N R) (clock : C)
    (service : ServiceId) (payload : M) (destination : N) (transmitter : Tx) (driver : Drv)
    : exec (Requester D N R * (Tx * C * Drv) * result (nb_error E) T) :=
  let '(clock, now) := clock_now clock in
  deadline ← add_instant p (req_timeout self) now;
  do_serialize p (buffer_memory mem) (transmit_oom (Tx := Tx)) (self, (transmitter, clock, driver)) payload (λ payload_bytes,
    req_send_payload (first_part mem) self payload_bytes service destination deadline
      transmitter clock driver).
End requester.
