(* ===== verification/NodeCore.v ===== *)
(** * The core node

    Models [canadensis/src/node/core.rs]: a node keeps a clock, a transmitter, a receiver and
    their driver, a publisher per subject and a requester per service, and hands received
    transfers to a handler. It is an instance of [Node]. *)

From S2P Require Import Prelude CoreTypes Time Transfer Transport SessionTracker EncCursor EncFields Node NodeSend.

Record CoreNode (C Tx Rx Drv N PM RM : Type) := mkCoreNode {
  cn_clock : C;
  cn_transmitter : Tx;
  cn_receiver : Rx;
  cn_driver : Drv;
  cn_node_id : N;
  cn_publishers : PM;
  cn_requesters : RM;
}.
Arguments mkCoreNode {C Tx Rx Drv N PM RM}.
Arguments cn_clock {C Tx Rx Drv N PM RM}.
Arguments cn_transmitter {C Tx Rx Drv N PM RM}.
Arguments cn_receiver {C Tx Rx Drv N PM RM}.
Arguments cn_driver {C Tx Rx Drv N PM RM}.
Arguments cn_node_id {C Tx Rx Drv N PM RM}.
Arguments cn_publishers {C Tx Rx Drv N PM RM}.
Arguments cn_requesters {C Tx Rx Drv N PM RM}.

Section core.
Context {I D N T C Tx Rx Drv ETx ERx R PM RM : Type}.
Context `{Instant I D, Clock C I, Transport N T}.
Context `{!Transmitter Tx C I N T Drv ETx, !Receiver Rx I D N T Drv ERx, !TransferIdTracker R N T}.
Context `{!KeyMap PM SubjectId (Publisher D N T), !KeyMap RM ServiceId (Requester D N R)}.
Context (p : profile) (publishers_empty : PM) (requesters_empty : RM).

Abbreviation Core := (CoreNode C Tx Rx Drv N PM RM).

Definition CoreNode_new (clock : C) (node_id : N) (transmitter : Tx) (receiver : Rx) (driver : Drv) : Core :=
  mkCoreNode clock transmitter receiver driver node_id publishers_empty requesters_empty.

(** Writes through references to parts of the node. *)
Definition set_publishers (self : Core) (m : PM) : Core :=
  mkCoreNode (cn_clock self) (cn_transmitter self) (cn_receiver self) (cn_driver self)
    (cn_node_id self) m (cn_requesters self).
Definition set_requesters (self : Core) (m : RM) : Core :=
  mkCoreNode (cn_clock self) (cn_transmitter self) (cn_receiver self) (cn_driver self)
    (cn_node_id self) (cn_publishers self) m.
Definition set_clock (self : Core) (clock : C) : Core :=
  mkCoreNode clock (cn_transmitter self) (cn_receiver self) (cn_driver self)
    (cn_node_id self) (cn_publishers self) (cn_requesters self).
Definition set_sending (self : Core) (state : Tx * C * Drv) : Core :=
  let '(transmitter, clock, driver) := state in
  mkCoreNode clock transmitter (cn_receiver self) driver
    (cn_node_id self) (cn_publishers self) (cn_requesters self).
Definition set_receiving (self : Core) (receiver : Rx) (driver : Drv) : Core :=
  mkCoreNode (cn_clock self) (cn_transmitter self) receiver driver
    (cn_node_id self) (cn_publishers self) (cn_requesters self).

(** ** Receiving *)

Definition response_token (h : ServiceHeader I N T) : ResponseToken N T :=
  mkResponseToken (sh_service h) (sh_source h) (sh_transfer_id h) (sh_priority h).

Definition handle_incoming_transfer {H} `{!TransferHandler H Core I N T} (mem : memory) (self : Core)
    (transfer : Transfer (list u8) I N T) (handler : H) : exec (Core * H) :=
  match tr_header transfer with
  | Message message_header =>
      let message_transfer := mkMessageTransfer message_header (tr_payload transfer) in
      '(handler, self, _) ← handle_message mem handler self message_transfer;
      Ret (self, handler)
  | Request service_header =>
      let token := response_token service_header in
      let service_transfer := mkServiceTransfer service_header (tr_payload transfer) in
      '(handler, self, _) ← handle_request mem handler self token service_transfer;
      Ret (self, handler)
  | Response service_header =>
      let service_transfer := mkServiceTransfer service_header (tr_payload transfer) in
      '(handler, self, _) ← handle_response mem handler self service_transfer;
      Ret (self, handler)
  end.

Definition core_receive {H} `{!TransferHandler H Core I N T} (mem : memory) (self : Core) (handler : H)
    : exec (Core * H * result ERx unit) :=
  let '(clock, now) := clock_now (cn_clock self) in
  '(receiver, driver, r) ← receiver_receive (first_part mem) (cn_receiver self) now (cn_driver self);
  let self := set_receiving (set_clock self clock) receiver driver in
  match r with
  | Err e => Ret (self, handler, Err e)
  | Ok None => Ret (self, handler, Ok tt)
  | Ok (Some transfer) =>
      '(self, handler) ← handle_incoming_transfer (second_part mem) self transfer handler;
      Ret (self, handler, Ok tt)
  end.

(** ** Publishing *)

Definition core_start_publishing (self : Core) (subject : SubjectId) (timeout : D) (priority : Priority)
    : exec (Core * result (StartSendError ETx) PublishToken) :=
  let token := mkPublishToken subject in
  match km_get (cn_publishers self) subject with
  | Some _ => Ret (self, Err Duplicate)
  | None =>
      match km_insert (cn_publishers self) subject (Publisher_new (cn_node_id self) timeout priority) with
      | Some publishers => Ret (set_publishers self publishers, Ok token)
      | None => Ret (self, Err (StartMemory mkOutOfMemoryError))
      end
  end.

Definition core_stop_publishing (self : Core) (token : PublishToken) : exec Core :=
  Ret (set_publishers self (km_remove (cn_publishers self) (subject_id token))).

Definition core_publish {M} `{Serialize M} (mem : memory) (self : Core) (token : PublishToken) (payload : M)
    : exec (Core * result (nb_error ETx) unit) :=
  publisher ← unwrap (km_get (cn_publishers self) (subject_id token));
  '(publisher, state, r) ← pub_publish p mem publisher (cn_clock self) (subject_id token) payload
    (cn_transmitter self) (cn_driver self);
  Ret (set_sending (set_publishers self
         (km_alter (cn_publishers self) (subject_id token) (λ _, publisher))) state, r).

(** ** Requests and responses *)

Definition core_start_sending_requests (mem : memory) (self : Core) (service : ServiceId)
    (receive_timeout : D) (response_payload_size_max : usize) (priority : Priority)
    : exec (Core * result (StartSendError ERx) ServiceToken) :=
  let token := mkServiceToken service in
  match km_get (cn_requesters self) service with
  | Some _ => Ret (self, Err Duplicate)
  | None =>
      match km_insert (cn_requesters self) service
              (Requester_new (cn_node_id self) receive_timeout priority) with
      | None => Ret (self, Err (StartMemory mkOutOfMemoryError))
      | Some requesters =>
          let self := set_requesters self requesters in
          '(receiver, driver, r) ← receiver_subscribe_response mem (cn_receiver self) service
            response_payload_size_max receive_timeout (cn_driver self);
          let self := set_receiving self receiver driver in
          match r with
          | Ok _ => Ret (self, Ok token)
          | Err e =>
              let self := set_requesters self (km_remove (cn_requesters self) service) in
              match e with
              | TransportError e => Ret (self, Err (StartTransport e))
              | Anonymous => Panic
              end
          end
      end
  end.

Definition core_stop_sending_requests (self : Core) (token : ServiceToken) : exec Core :=
  Ret (set_requesters self (km_remove (cn_requesters self) (service_id token))).

Definition core_send_request {M} `{Serialize M} (mem : memory) (self : Core) (token : ServiceToken)
    (payload : M) (destination : N) : exec (Core * result (nb_error ETx) T) :=
  requester ← unwrap (km_get (cn_requesters self) (service_id token));
  '(requester, state, r) ← req_send p mem requester (cn_clock self) (service_id token) payload
    destination (cn_transmitter self) (cn_driver self);
  Ret (set_sending (set_requesters self
         (km_alter (cn_requesters self) (service_id token) (λ _, requester))) state, r).

Definition core_subscribe_message (mem : memory) (self : Core) (subject : SubjectId)
    (payload_size_max : usize) (timeout : D) : exec (Core * result ERx unit) :=
  '(receiver, driver, r) ← receiver_subscribe_message mem (cn_receiver self) subject
    payload_size_max timeout (cn_driver self);
  Ret (set_receiving self receiver driver, r).

Definition core_subscribe_request (mem : memory) (self : Core) (service : ServiceId)
    (payload_size_max : usize) (timeout : D) : exec (Core * result ERx unit) :=
  '(receiver, driver, status) ← receiver_subscribe_request mem (cn_receiver self) service
    payload_size_max timeout (cn_driver self);
  let self := set_receiving self receiver driver in
  match status with
  | Ok _ => Ret (self, Ok tt)
  | Err (TransportError e) => Ret (self, Err e)
  | Err Anonymous => Panic
  end.

Definition send_response_payload (mem : memory) (self : Core) (token : ResponseToken N T) (deadline : I)
    (payload : list u8) : exec (Core * result (nb_error ETx) unit) :=
  let transfer_out := mkTransfer
    (Response (mkServiceHeader deadline (rt_transfer token) (rt_priority token) (rt_service token)
      (cn_node_id self) (rt_client token))) payload in
  '(transmitter, clock, driver, r) ← transmit_push mem (cn_transmitter self) transfer_out
    (cn_clock self) (cn_driver self);
  Ret (set_sending self (transmitter, clock, driver), r).

Definition core_send_response {M} `{Serialize M} (mem : memory) (self : Core) (token : ResponseToken N T)
    (timeout : D) (payload : M) : exec (Core * result (nb_error ETx) unit) :=
  let '(clock, now) := clock_now (cn_clock self) in
  let self := set_clock self clock in
  deadline ← add_instant p timeout now;
  do_serialize p (buffer_memory mem) (transmit_oom (Tx := Tx)) self payload (λ payload,
    send_response_payload (first_part mem) self token deadline payload).

Definition core_flush (self : Core) : exec (Core * result (nb_error ETx) unit) :=
  '(transmitter, clock, driver, r) ← transmit_flush (cn_transmitter self) (cn_clock self) (cn_driver self);
  Ret (set_sending self (transmitter, clock, driver), r).

#[global] Instance core_node : Node Core Core I D N T ETx ERx := {
  node_receive := @core_receive;
  node_start_publishing := core_start_publishing;
  node_stop_publishing := core_stop_publishing;
  node_publish := @core_publish;
  node_start_sending_requests := core_start_sending_requests;
  node_stop_sending_requests := core_stop_sending_requests;
  node_send_request := @core_send_request;
  node_subscribe_message := core_subscribe_message;
  node_subscribe_request := core_subscribe_request;
  node_send_response := @core_send_response;
  node_flush := core_flush;
  node_id := cn_node_id;
}.
End core.
