(* ===== verification/DataTypes.v ===== *)
(** * The messages that a node sends by itself

    Models the types [Heartbeat] and [port.List] of
    [canadensis_data_types/src/generated.rs], with the types that they contain, and how they
    are serialized. *)

From S2P Require Import Prelude CoreTypes EncCursor EncFields EncBits.

(** ** [uavcan.node.Heartbeat.1.0] *)

Record Health := mkHealth { health_value : u8 }.
Record Mode := mkMode { mode_value : u8 }.
Definition NOMINAL : u8 := 0%Z.
Definition OPERATIONAL : u8 := 0%Z.

#[global] Instance health_type : DataType Health := { EXTENT_BYTES := None }.
#[global] Instance health_serialize : Serialize Health := {
  size_bits _ := 8;
  serialize p v c := write_u2 p c (health_value v);
}.
#[global] Instance mode_type : DataType Mode := { EXTENT_BYTES := None }.
#[global] Instance mode_serialize : Serialize Mode := {
  size_bits _ := 8;
  serialize p v c := write_u3 p c (mode_value v);
}.

Record Heartbeat := mkHeartbeat {
  uptime : u32;
  health : Health;
  mode : Mode;
  vendor_specific_status_code : u8;
}.

Definition heartbeat_SUBJECT : SubjectId := SubjectId_from_truncating 7509.

#[global] Instance heartbeat_type : DataType Heartbeat := { EXTENT_BYTES := Some 12%Z }.
#[global] Instance heartbeat_serialize : Serialize Heartbeat := {
  size_bits _ := 56;
  serialize p v c :=
    c ← write_aligned_u32 c (uptime v);
    c ← write_composite p c (health v);
    c ← write_composite p c (mode v);
    write_aligned_u8 c (vendor_specific_status_code v);
}.

(** ** [uavcan.node.port.List.0.1] *)

Record SubjectID := mkSubjectID { subject_value : u16 }.

#[global] Instance subject_id_type : DataType SubjectID := { EXTENT_BYTES := None }.
#[global] Instance subject_id_serialize : Serialize SubjectID := {
  size_bits _ := 16;
  serialize p v c := write_u13 p c (subject_value v);
}.

(** The list in [SparseList] is a [heapless::Vec] of at most [SPARSE_CAPACITY] elements. *)
Definition SPARSE_CAPACITY : usize := 255.
Definition SUBJECTS : usize := 8 * 1024.
Inductive SubjectIDList :=
| Mask (mask : BitArray)
| SparseList (list : list SubjectID)
| Total.

Fixpoint write_composites {A} `{Serialize A} (p : profile) (c : WriteCursor) (l : list A) : exec WriteCursor :=
  match l with
  | [] => Ret c
  | value :: l' => c ← write_composite p c value; write_composites p c l'
  end.

#[global] Instance subject_id_list_type : DataType SubjectIDList := { EXTENT_BYTES := Some 4097%Z }.
#[global] Instance subject_id_list_serialize : Serialize SubjectIDList := {
  size_bits v := 8 + match v with
    | Mask inner => ba_len inner * 1
    | SparseList inner => 8 + length inner * 16
    | Total => 0
    end;
  serialize p v c :=
    match v with
    | Mask inner =>
        c ← write_aligned_u8 c 0%Z;
        ba_serialize 1024 p inner c
    | SparseList inner =>
        c ← write_aligned_u8 c 1%Z;
        c ← write_aligned_u8 c (as_u8 (Z.of_nat (length inner)));
        write_composites p c inner
    | Total =>
        (* the composite is [uavcan.primitive.Empty.1.0], which has no bytes *)
        c ← write_aligned_u8 c 2%Z;
        c ← wc_align_to_8_bits c;
        c ← write_aligned_bytes c [];
        wc_align_to_8_bits c
    end;
}.

Record ServiceIDList := mkServiceIDList { service_mask : BitArray }.

#[global] Instance service_id_list_type : DataType ServiceIDList := { EXTENT_BYTES := Some 128%Z }.
#[global] Instance service_id_list_serialize : Serialize ServiceIDList := {
  size_bits _ := 512;
  serialize p v c := ba_serialize 64 p (service_mask v) c;
}.

Record PortList := mkPortList {
  pl_publishers : SubjectIDList;
  pl_subscribers : SubjectIDList;
  pl_clients : ServiceIDList;
  pl_servers : ServiceIDList;
}.

Definition list_SUBJECT : SubjectId := SubjectId_from_truncating 7510.
Definition get_info_SERVICE : ServiceId := ServiceId_from_truncating 430.

#[global] Instance port_list_type : DataType PortList := { EXTENT_BYTES := None }.
#[global] Instance port_list_serialize : Serialize PortList := {
  size_bits v := 32 + size_bits (pl_publishers v) + 32 + size_bits (pl_subscribers v) + 32 + 512 + 32 + 512 + 0;
  serialize p v c :=
    c ← write_composite p c (pl_publishers v);
    c ← write_composite p c (pl_subscribers v);
    c ← write_composite p c (pl_clients v);
    write_composite p c (pl_servers v);
}.
