(* ===== verification/NodeBasic.v ===== *)
(** * Minimal and basic nodes

    Models [canadensis/src/node/minimal.rs] and [node/basic.rs]: a minimal node sends a
    heartbeat every second; a basic node also answers [GetInfo] requests and keeps and sends
    the list of the ports in use. Both wrap any node; a basic node is itself a [Node]. *)

From S2P Require Import Prelude CoreTypes Time Transfer Transport EncCursor EncFields EncBits DataTypes Node.

(** ** Minimal nodes *)

Record MinimalNode (Nd : Type) := mkMinimalNode {
  mn_node : Nd;
  mn_heartbeat : Heartbeat;
  mn_heartbeat_token : PublishToken;
}.
Arguments mkMinimalNode {Nd}.
Arguments mn_node {Nd}.
Arguments mn_heartbeat {Nd}.
Arguments mn_heartbeat_token {Nd}.

Section minimal.
Context {Nd Tgt I D N T ETx ERx : Type} `{Instant I D} `{!Node Nd Tgt I D N T ETx ERx}.

Definition MinimalNode_new (node : Nd) : exec (result (StartSendError ETx) (MinimalNode Nd)) :=
  let heartbeat := mkHeartbeat 0 (mkHealth NOMINAL) (mkMode OPERATIONAL) 0 in
  heartbeat_timeout ← unwrap (dur_from_millis 500%Z);
  '(node, r) ← node_start_publishing node heartbeat_SUBJECT heartbeat_timeout Nominal;
  match r with
  | Err e => Ret (Err e)
  | Ok heartbeat_token => Ret (Ok (mkMinimalNode node heartbeat heartbeat_token))
  end.

Definition set_heartbeat (self : MinimalNode Nd) (heartbeat : Heartbeat) : MinimalNode Nd :=
  mkMinimalNode (mn_node self) heartbeat (mn_heartbeat_token self).
Definition set_node (self : MinimalNode Nd) (node : Nd) : MinimalNode Nd :=
  mkMinimalNode node (mn_heartbeat self) (mn_heartbeat_token self).

(** [u32::saturating_add]. *)
Definition saturating_add (a b : u32) : u32 := Z.min (a + b) (2 ^ 32 - 1).

Definition send_heartbeat (mem : memory) (self : MinimalNode Nd)
    : exec (MinimalNode Nd * result (nb_error ETx) unit) :=
  let h := mn_heartbeat self in
  let self := set_heartbeat self
    (mkHeartbeat (saturating_add (uptime h) 1) (health h) (mode h) (vendor_specific_status_code h)) in
  '(node, r) ← node_publish mem (mn_node self) (mn_heartbeat_token self) (mn_heartbeat self);
  Ret (set_node self node, r).

Definition minimal_run_per_second_tasks (mem : memory) (self : MinimalNode Nd)
    : exec (MinimalNode Nd * result (nb_error ETx) unit) := send_heartbeat mem self.

Definition minimal_set_mode (self : MinimalNode Nd) (m : Mode) : MinimalNode Nd :=
  let h := mn_heartbeat self in
  set_heartbeat self (mkHeartbeat (uptime h) (health h) m (vendor_specific_status_code h)).
Definition minimal_set_health (self : MinimalNode Nd) (x : Health) : MinimalNode Nd :=
  let h := mn_heartbeat self in
  set_heartbeat self (mkHeartbeat (uptime h) x (mode h) (vendor_specific_status_code h)).
Definition minimal_set_status_code (self : MinimalNode Nd) (status : u8) : MinimalNode Nd :=
  let h := mn_heartbeat self in
  set_heartbeat self (mkHeartbeat (uptime h) (health h) (mode h) status).
End minimal.

(** ** The lists of ports *)

(** Identifiers index the bits of a mask. *)
Definition bit_index (id : Z) : usize := Z.to_nat id.

(** [heapless::Vec::push] of the sparse list. *)
Definition sparse_push (sparse : list SubjectID) (x : SubjectID) : option (list SubjectID) :=
  if length sparse <? SPARSE_CAPACITY then Some (sparse ++ [x]) else None.

(** Sets the bits of all subjects of a list. *)
Fixpoint set_all (mask : BitArray) (sparse : list SubjectID) : exec BitArray :=
  match sparse with
  | [] => Ret mask
  | port :: sparse' => mask ← ba_set mask (bit_index (subject_value port)) true; set_all mask sparse'
  end.

Definition insert_into_list (subject_list : SubjectIDList) (subject : SubjectId) : exec SubjectIDList :=
  match subject_list with
  | Mask mask => Mask <$> ba_set mask (bit_index subject) true
  | SparseList sparse =>
      if existsb (λ in_list, subject_value in_list =? subject)%Z sparse then Ret subject_list
      else
        match sparse_push sparse (mkSubjectID subject) with
        | Some sparse => Ret (SparseList sparse)
        | None =>
            mask ← BitArray_new 1024 SUBJECTS;
            mask ← set_all mask sparse;
            mask ← ba_set mask (bit_index subject) true;
            Ret (Mask mask)
        end
  | Total => Ret Total
  end.

(** [heapless::Vec::swap_remove]: the last element takes the place of the one removed. *)
Definition sparse_swap_remove (sparse : list SubjectID) (position : usize) : list SubjectID :=
  match last sparse with
  | Some x => take (length sparse - 1) (<[position := x]> sparse)
  | None => sparse
  end.

Definition remove_from_list (subject_list : SubjectIDList) (subject : SubjectId) : exec SubjectIDList :=
  match subject_list with
  | Mask mask => Mask <$> ba_set mask (bit_index subject) false
  | SparseList sparse =>
      match list_find (λ id_in_list, subject_value id_in_list = subject) sparse with
      | Some (position, _) => Ret (SparseList (sparse_swap_remove sparse position))
      | None => Ret subject_list
      end
  | Total =>
      mask ← BitArray_new 1024 SUBJECTS;
      let mask := ba_fill mask true in
      mask ← ba_set mask (bit_index subject) false;
      Ret (Mask mask)
  end.

(** ** Basic nodes *)

Inductive NodeError (ETx ERx : Type) :=
| NodeTransmitter (e : ETx)
| NodeReceiver (e : ERx).
Arguments NodeTransmitter {ETx ERx} e.
Arguments NodeReceiver {ETx ERx} e.

Record BasicNode (Nd Info : Type) := mkBasicNode {
  bn_node : MinimalNode Nd;
  bn_port_list_token : PublishToken;
  bn_port_list : PortList;
  bn_node_info : Info;
  bn_seconds_since_port_list_published : u8;
}.
Arguments mkBasicNode {Nd Info}.
Arguments bn_node {Nd Info}.
Arguments bn_port_list_token {Nd Info}.
Arguments bn_port_list {Nd Info}.
Arguments bn_node_info {Nd Info}.
Arguments bn_seconds_since_port_list_published {Nd Info}.

(** Responds to node information requests with the provided response. *)
Record NodeInfoHandler (Info : Type) := mkNodeInfoHandler { response : Info }.
Arguments mkNodeInfoHandler {Info}.
Arguments response {Info}.

Section basic.
Context {Nd Tgt I D N T ETx ERx : Type} `{Instant I D} `{!Node Nd Tgt I D N T ETx ERx, !Node Tgt Tgt I D N T ETx ERx}.
(** [GetInfoResponse], a generated type of which only its serialization matters. *)
Context {Info : Type} `{!DataType Info, !Serialize Info} (p : profile).

Definition info_handle_request (mem : memory) (self : NodeInfoHandler Info) (node : Tgt)
    (token : ResponseToken N T) (transfer : ServiceTransfer (list u8) I N T)
    : exec (NodeInfoHandler Info * Tgt * bool) :=
  if (sh_service (st_header transfer) =? get_info_SERVICE)%Z then
    timeout ← milliseconds 1000%Z;
    '(node, _) ← node_send_response mem node token timeout (response self);
    Ret (self, node, true)
  else Ret (self, node, false).

#[global] Instance node_info_handler : TransferHandler (NodeInfoHandler Info) Tgt I N T := {
  handle_message := default_handle_message;
  handle_request := info_handle_request;
  handle_response := default_handle_response;
}.

Abbreviation Basic := (BasicNode Nd Info).

(** The node that is wrapped: [self.node.node()] and writes through [node_mut()]. *)
Definition inner_node (self : Basic) : Nd := mn_node (bn_node self).
Definition set_minimal (self : Basic) (node : MinimalNode Nd) : Basic :=
  mkBasicNode node (bn_port_list_token self) (bn_port_list self) (bn_node_info self)
    (bn_seconds_since_port_list_published self).
Definition set_inner (self : Basic) (node : Nd) : Basic := set_minimal self (set_node (bn_node self) node).
Definition set_port_list (self : Basic) (port_list : PortList) : Basic :=
  mkBasicNode (bn_node self) (bn_port_list_token self) port_list (bn_node_info self)
    (bn_seconds_since_port_list_published self).
Definition set_seconds (self : Basic) (seconds : u8) : Basic :=
  mkBasicNode (bn_node self) (bn_port_list_token self) (bn_port_list self) (bn_node_info self) seconds.

Definition set_publishers_list (l : PortList) (x : SubjectIDList) : PortList :=
  mkPortList x (pl_subscribers l) (pl_clients l) (pl_servers l).
Definition set_subscribers_list (l : PortList) (x : SubjectIDList) : PortList :=
  mkPortList (pl_publishers l) x (pl_clients l) (pl_servers l).
Definition set_clients_mask (l : PortList) (x : BitArray) : PortList :=
  mkPortList (pl_publishers l) (pl_subscribers l) (mkServiceIDList x) (pl_servers l).
Definition set_servers_mask (l : PortList) (x : BitArray) : PortList :=
  mkPortList (pl_publishers l) (pl_subscribers l) (pl_clients l) (mkServiceIDList x).

Definition BasicNode_new (mem : memory) (node : Nd) (node_info : Info)
    : exec (result (NodeError (StartSendError ETx) ERx) Basic) :=
  timeout ← milliseconds 1000%Z;
  '(node, r) ← node_subscribe_request mem node get_info_SERVICE 0 timeout;
  match r with
  | Err e => Ret (Err (NodeReceiver e))
  | Ok _ =>
      timeout ← milliseconds 1000%Z;
      '(node, r) ← node_start_publishing node list_SUBJECT timeout Optional;
      match r with
      | Err e => Ret (Err (NodeTransmitter e))
      | Ok port_list_token =>
          r ← MinimalNode_new node;
          match r with
          | Err e => Ret (Err (NodeTransmitter e))
          | Ok minimal =>
              published_topics ← unwrap (sparse_push [] (mkSubjectID heartbeat_SUBJECT));
              published_topics ← unwrap (sparse_push published_topics (mkSubjectID list_SUBJECT));
              clients ← BitArray_new 64 512;
              servers ← BitArray_new 64 512;
              servers ← ba_set servers (bit_index get_info_SERVICE) true;
              let port_list := mkPortList (SparseList published_topics) (SparseList [])
                (mkServiceIDList clients) (mkServiceIDList servers) in
              Ret (Ok (mkBasicNode minimal port_list_token port_list node_info 0))
          end
      end
  end.

Definition publish_port_list (mem : memory) (self : Basic) : exec (Basic * result (nb_error ETx) unit) :=
  '(node, r) ← node_publish mem (inner_node self) (bn_port_list_token self) (bn_port_list self);
  Ret (set_inner self node, r).

Definition run_per_second_tasks (mem : memory) (self : Basic) : exec (Basic * result (nb_error ETx) unit) :=
  '(minimal, r) ← minimal_run_per_second_tasks (first_part mem) (bn_node self);
  let self := set_minimal self minimal in
  match r with
  | Err e => Ret (self, Err e)
  | Ok _ =>
      if (bn_seconds_since_port_list_published self =? 10)%Z then
        let self := set_seconds self 1 in
        publish_port_list (second_part mem) self
      else
        seconds ← arith p 8 (bn_seconds_since_port_list_published self + 1)%Z;
        Ret (set_seconds self seconds, Ok tt)
  end.

Definition basic_set_mode (self : Basic) (m : Mode) : Basic := set_minimal self (minimal_set_mode (bn_node self) m).
Definition basic_set_health (self : Basic) (x : Health) : Basic :=
  set_minimal self (minimal_set_health (bn_node self) x).
Definition basic_set_status_code (self : Basic) (status : u8) : Basic :=
  set_minimal self (minimal_set_status_code (bn_node self) status).

(** *** The implementation of [Node] *)

Definition basic_receive {H} `{!TransferHandler H Tgt I N T} (mem : memory) (self : Basic) (handler : H)
    : exec (Basic * H * result ERx unit) :=
  let chained_handler := chain (mkNodeInfoHandler (bn_node_info self)) handler in
  '(node, chained_handler, r) ← node_receive mem (inner_node self) chained_handler;
  Ret (set_inner self node, handler1 chained_handler, r).

Definition basic_start_publishing (self : Basic) (subject : SubjectId) (timeout : D) (priority : Priority)
    : exec (Basic * result (StartSendError ETx) PublishToken) :=
  '(node, r) ← node_start_publishing (inner_node self) subject timeout priority;
  let self := set_inner self node in
  match r with
  | Err e => Ret (self, Err e)
  | Ok token =>
      publishers ← insert_into_list (pl_publishers (bn_port_list self)) subject;
      Ret (set_port_list self (set_publishers_list (bn_port_list self) publishers), Ok token)
  end.

Definition basic_stop_publishing (self : Basic) (token : PublishToken) : exec Basic :=
  let subject := subject_id token in
  node ← node_stop_publishing (inner_node self) token;
  let self := set_inner self node in
  publishers ← remove_from_list (pl_publishers (bn_port_list self)) subject;
  Ret (set_port_list self (set_publishers_list (bn_port_list self) publishers)).

Definition basic_publish {M} `{Serialize M} (mem : memory) (self : Basic) (token : PublishToken) (payload : M)
    : exec (Basic * result (nb_error ETx) unit) :=
  '(node, r) ← node_publish mem (inner_node self) token payload;
  Ret (set_inner self node, r).

Definition basic_start_sending_requests (mem : memory) (self : Basic) (service : ServiceId)
    (receive_timeout : D) (response_payload_size_max : usize) (priority : Priority)
    : exec (Basic * result (StartSendError ERx) ServiceToken) :=
  '(node, r) ← node_start_sending_requests mem (inner_node self) service receive_timeout
    response_payload_size_max priority;
  let self := set_inner self node in
  match r with
  | Err e => Ret (self, Err e)
  | Ok token =>
      mask ← ba_set (service_mask (pl_clients (bn_port_list self))) (bit_index service) true;
      Ret (set_port_list self (set_clients_mask (bn_port_list self) mask), Ok token)
  end.

Definition basic_stop_sending_requests (self : Basic) (token : ServiceToken) : exec Basic :=
  let service_id := service_id token in
  node ← node_stop_sending_requests (inner_node self) token;
  let self := set_inner self node in
  mask ← ba_set (service_mask (pl_clients (bn_port_list self))) (bit_index service_id) false;
  Ret (set_port_list self (set_clients_mask (bn_port_list self) mask)).

Definition basic_send_request {M} `{Serialize M} (mem : memory) (self : Basic) (token : ServiceToken)
    (payload : M) (destination : N) : exec (Basic * result (nb_error ETx) T) :=
  '(node, r) ← node_send_request mem (inner_node self) token payload destination;
  Ret (set_inner self node, r).

Definition basic_subscribe_message (mem : memory) (self : Basic) (subject : SubjectId)
    (payload_size_max : usize) (timeout : D) : exec (Basic * result ERx unit) :=
  '(node, r) ← node_subscribe_message mem (inner_node self) subject payload_size_max timeout;
  let self := set_inner self node in
  match r with
  | Err e => Ret (self, Err e)
  | Ok _ =>
      subscribers ← insert_into_list (pl_subscribers (bn_port_list self)) subject;
      Ret (set_port_list self (set_subscribers_list (bn_port_list self) subscribers), Ok tt)
  end.

Definition basic_subscribe_request (mem : memory) (self : Basic) (service : ServiceId)
    (payload_size_max : usize) (timeout : D) : exec (Basic * result ERx unit) :=
  '(node, r) ← node_subscribe_request mem (inner_node self) service payload_size_max timeout;
  let self := set_inner self node in
  match r with
  | Err e => Ret (self, Err e)
  | Ok _ =>
      mask ← ba_set (service_mask (pl_servers (bn_port_list self))) (bit_index service) true;
      Ret (set_port_list self (set_servers_mask (bn_port_list self) mask), Ok tt)
  end.

Definition basic_send_response {M} `{Serialize M} (mem : memory) (self : Basic) (token : ResponseToken N T)
    (timeout : D) (payload : M) : exec (Basic * result (nb_error ETx) unit) :=
  '(node, r) ← node_send_response mem (inner_node self) token timeout payload;
  Ret (set_inner self node, r).

Definition basic_flush (self : Basic) : exec (Basic * result (nb_error ETx) unit) :=
  '(node, r) ← node_flush (inner_node self);
  Ret (set_inner self node, r).

#[global] Instance basic_node : Node Basic Tgt I D N T ETx ERx := {
  node_receive := @basic_receive;
  node_start_publishing := basic_start_publishing;
  node_stop_publishing := basic_stop_publishing;
  node_publish := @basic_publish;
  node_start_sending_requests := basic_start_sending_requests;
  node_stop_sending_requests := basic_stop_sending_requests;
  node_send_request := @basic_send_request;
  node_subscribe_message := basic_subscribe_message;
  node_subscribe_request := basic_subscribe_request;
  node_send_response := @basic_send_response;
  node_flush := basic_flush;
  node_id self := node_id (inner_node self);
}.
End basic.
