(* ===== verification/NodeSpec.v ===== *)
(** * What a node promises

    [NodeSpec]: every operation of a node returns and keeps its invariant, and the sets of the
    subjects it publishes on and of the services it sends requests to change exactly as the
    results say. [NodeSpecCore] shows it for the core node over any transport that keeps
    [LinkSpec]; [NodeSpecBasic] for the basic node over any node that keeps it. *)

From S2P Require Import Prelude CoreTypes Time Transfer Transport EncCursor EncFields Node.

(** A type whose values can be sent: serialization into a buffer of the size that [size_bits]
    gives returns and fills it with bytes. *)
Class SerializeSpec (M : Type) `{Serialize M} := {
  serializable : M → Prop;
  serialize_fits p (v : M) : serializable v →
    let n := (size_bits v + 7) / 8 in
    ∃ bytes, serialize_to_bytes p v (replicate n 0%Z) = Ret bytes ∧ length bytes = n ∧ bytes_ok bytes;
}.

(** The abstract state of a node. [node_ready]: one call of [receive] can go through the
    input that waits; [reserved] are the subjects on which the node itself publishes. *)
Class Ports (Nd : Type) := {
  node_ok : Nd → Prop;
  node_ready : Nd → Prop;
  publishing : Nd → SubjectId → Prop;
  requesting : Nd → ServiceId → Prop;
  reserved : SubjectId → Prop;
}.

Definition same_publishers {Nd Nd'} `{Ports Nd, Ports Nd'} (a : Nd) (b : Nd') : Prop :=
  ∀ s, publishing a s ↔ publishing b s.
Definition same_requesters {Nd Nd'} `{Ports Nd, Ports Nd'} (a : Nd) (b : Nd') : Prop :=
  ∀ s, requesting a s ↔ requesting b s.
(** [b] is consistent and has the ports of [a]. *)
Definition same_ports {Nd} `{Ports Nd} (a b : Nd) : Prop :=
  node_ok b ∧ same_publishers b a ∧ same_requesters b a.

Section keeps.
Context {Nd : Type} `{Ports Nd}.

#[global] Instance same_publishers_equiv : Equivalence (@same_publishers Nd Nd _ _).
Proof. split; [by intros a s|by intros a b Hab s|intros a b c Hab Hbc s; etrans; [apply Hab|apply Hbc]]. Qed.
#[global] Instance same_requesters_equiv : Equivalence (@same_requesters Nd Nd _ _).
Proof. split; [by intros a s|by intros a b Hab s|intros a b c Hab Hbc s; etrans; [apply Hab|apply Hbc]]. Qed.

Lemma same_ports_refl (a : Nd) : node_ok a → same_ports a a.
Proof. intros Ha. split_and!; done. Qed.

Lemma same_ports_trans (a b c : Nd) : same_ports a b → same_ports b c → same_ports a c.
Proof.
  intros (_ & Hp & Hr) (Hc & Hp' & Hr'). split_and!; [done|by etrans|by etrans].
Qed.
End keeps.

(** A handler that never panics and leaves the ports of the node alone, in the states
    [handler_ok]. Service transfers are addressed to the node, as a token for the response is
    valid only there. *)
Class HandlerSpec (H Nd I N T : Type) `{Ports Nd, !TransferHandler H Nd I N T, TransportSpec N T} := {
  handler_ok : H → Prop;
  handle_message_keeps mem h (nd : Nd) (m : MessageTransfer (list u8) I N T) :
    memory_ok mem → handler_ok h → node_ok nd → header_ok (Message (mt_header m)) → bytes_ok (mt_payload m) →
    ∃ h' nd' b, handle_message mem h nd m = Ret (h', nd', b) ∧ handler_ok h' ∧ same_ports nd nd';
  handle_request_keeps mem h (nd : Nd) (s : ServiceTransfer (list u8) I N T) :
    memory_ok mem → handler_ok h → node_ok nd → header_ok (Request (st_header s)) → bytes_ok (st_payload s) →
    let hd := st_header s in
    let token := mkResponseToken (sh_service hd) (sh_source hd) (sh_transfer_id hd) (sh_priority hd) in
    ∃ h' nd' b, handle_request mem h nd token s = Ret (h', nd', b) ∧ handler_ok h' ∧ same_ports nd nd';
  handle_response_keeps mem h (nd : Nd) (s : ServiceTransfer (list u8) I N T) :
    memory_ok mem → handler_ok h → node_ok nd → header_ok (Response (st_header s)) → bytes_ok (st_payload s) →
    ∃ h' nd' b, handle_response mem h nd s = Ret (h', nd', b) ∧ handler_ok h' ∧ same_ports nd nd';
}.

(** Two handlers in a chain. *)
Section chain.
Context {H0 H1 Nd I N T : Type} `{Ports Nd, TransportSpec N T}.
Context `{!TransferHandler H0 Nd I N T, !TransferHandler H1 Nd I N T}.
Context `{!HandlerSpec H0 Nd I N T, !HandlerSpec H1 Nd I N T}.

Lemma chain_handle_keeps (h : TransferHandlerChain H0 H1) (nd : Nd) first second :
  node_ok nd →
  (∃ h0' nd' b, first (handler0 h) nd = Ret (h0', nd', b) ∧ handler_ok (H := H0) h0' ∧ same_ports nd nd') →
  (∀ nd, node_ok nd →
    ∃ h1' nd' b, second (handler1 h) nd = Ret (h1', nd', b) ∧ handler_ok (H := H1) h1' ∧ same_ports nd nd') →
  handler_ok (H := H1) (handler1 h) →
  ∃ h' nd' b, chain_handle h nd first second = Ret (h', nd', b) ∧
    (handler_ok (H := H0) (handler0 h') ∧ handler_ok (H := H1) (handler1 h')) ∧ same_ports nd nd'.
Proof.
  intros Hnd (h0 & nd1 & b & Hf & Hh0 & Hs1) Hsec Hh1. unfold chain_handle. rewrite Hf. cbn.
  destruct b; [by eexists _, _, _|].
  destruct (Hsec nd1) as (h1 & nd2 & b & -> & Hh1' & Hs2); [apply Hs1|]. cbn.
  eexists _, _, _. split; [done|]. split; [done|]. by eapply same_ports_trans.
Qed.

#[global] Program Instance chain_handler_spec : HandlerSpec (TransferHandlerChain H0 H1) Nd I N T := {
  handler_ok h := handler_ok (H := H0) (handler0 h) ∧ handler_ok (H := H1) (handler1 h);
}.
Next Obligation.
  intros mem h nd m Hmem [Hh0 Hh1] Hnd Hh Hb. apply chain_handle_keeps; [done|apply handle_message_keeps|intros; apply handle_message_keeps|]; by eauto.
Qed.
Next Obligation.
  intros mem h nd m Hmem [Hh0 Hh1] Hnd Hh Hb. apply chain_handle_keeps; [done|apply handle_request_keeps|intros; apply handle_request_keeps|]; by eauto.
Qed.
Next Obligation.
  intros mem h nd m Hmem [Hh0 Hh1] Hnd Hh Hb. apply chain_handle_keeps; [done|apply handle_response_keeps|intros; apply handle_response_keeps|]; by eauto.
Qed.
End chain.

Definition token_ok {N T} `{TransportSpec N T} (t : ResponseToken N T) : Prop :=
  ServiceId_valid (rt_service t) ∧ node_id_valid (rt_client t) ∧ transfer_id_valid (rt_transfer t).

Class NodeSpec (Nd Tgt I D N T ETx ERx : Type)
    `{Ports Nd, Ports Tgt, TransportSpec N T, !Node Nd Tgt I D N T ETx ERx} := {
  receive_keeps {H} `{!TransferHandler H Tgt I N T, !HandlerSpec H Tgt I N T} mem (nd : Nd) (h : H) :
    memory_ok mem → node_ok nd → node_ready nd → handler_ok h →
    ∃ nd' h' r, node_receive mem nd h = Ret (nd', h', r) ∧ handler_ok h' ∧ same_ports nd nd';
  start_publishing_law (nd : Nd) subject (timeout : D) priority :
    node_ok nd → SubjectId_valid subject →
    ∃ nd' r, node_start_publishing nd subject timeout priority = Ret (nd', r) ∧ node_ok nd' ∧
      same_requesters nd' nd ∧
      match r with
      | Ok token => subject_id token = subject ∧ ~ publishing nd subject ∧
          ∀ s, publishing nd' s ↔ s = subject ∨ publishing nd s
      | Err e => same_publishers nd' nd ∧ (e = Duplicate ↔ publishing nd subject)
      end;
  stop_publishing_law (nd : Nd) token :
    node_ok nd → SubjectId_valid (subject_id token) → ~ reserved (Nd := Nd) (subject_id token) →
    ∃ nd', node_stop_publishing nd token = Ret nd' ∧ node_ok nd' ∧ same_requesters nd' nd ∧
      ∀ s, publishing nd' s ↔ s ≠ subject_id token ∧ publishing nd s;
  publish_law {M} `{SerializeSpec M} mem (nd : Nd) token (payload : M) :
    memory_ok mem → node_ok nd → publishing nd (subject_id token) → serializable payload →
    ∃ nd' r, node_publish mem nd token payload = Ret (nd', r) ∧ same_ports nd nd';
  start_sending_requests_law mem (nd : Nd) service (timeout : D) size priority :
    memory_ok mem → node_ok nd → ServiceId_valid service →
    ∃ nd' r, node_start_sending_requests mem nd service timeout size priority = Ret (nd', r) ∧
      node_ok nd' ∧ same_publishers nd' nd ∧
      match r with
      | Ok token => service_id token = service ∧ ~ requesting nd service ∧
          ∀ s, requesting nd' s ↔ s = service ∨ requesting nd s
      | Err e => same_requesters nd' nd ∧ (e = Duplicate ↔ requesting nd service)
      end;
  stop_sending_requests_law (nd : Nd) token :
    node_ok nd → ServiceId_valid (service_id token) →
    ∃ nd', node_stop_sending_requests nd token = Ret nd' ∧ node_ok nd' ∧ same_publishers nd' nd ∧
      ∀ s, requesting nd' s ↔ s ≠ service_id token ∧ requesting nd s;
  send_request_law {M} `{SerializeSpec M} mem (nd : Nd) token (payload : M) (destination : N) :
    memory_ok mem → node_ok nd → requesting nd (service_id token) → serializable payload →
    node_id_valid destination →
    ∃ nd' r, node_send_request mem nd token payload destination = Ret (nd', r) ∧ same_ports nd nd';
  subscribe_message_law mem (nd : Nd) subject size (timeout : D) :
    memory_ok mem → node_ok nd → SubjectId_valid subject →
    ∃ nd' r, node_subscribe_message mem nd subject size timeout = Ret (nd', r) ∧ same_ports nd nd';
  subscribe_request_law mem (nd : Nd) service size (timeout : D) :
    memory_ok mem → node_ok nd → ServiceId_valid service →
    ∃ nd' r, node_subscribe_request mem nd service size timeout = Ret (nd', r) ∧ same_ports nd nd';
  send_response_law {M} `{SerializeSpec M} mem (nd : Nd) (token : ResponseToken N T) (timeout : D) (payload : M) :
    memory_ok mem → node_ok nd → token_ok token → serializable payload →
    ∃ nd' r, node_send_response mem nd token timeout payload = Ret (nd', r) ∧ same_ports nd nd';
  flush_law (nd : Nd) : node_ok nd →
    ∃ nd' r, node_flush nd = Ret (nd', r) ∧ same_ports nd nd';
  ports_valid (nd : Nd) : node_ok nd →
    (∀ s, publishing nd s → SubjectId_valid s) ∧ (∀ s, requesting nd s → ServiceId_valid s) ∧
    (∀ s, reserved (Nd := Nd) s → publishing nd s);
}.
