(* ===== verification/NodeSpecCore.v ===== *)
(** * The core node keeps [NodeSpec]

    Over any transport that keeps [LinkSpec], with maps and a tracker of transfer identifiers
    that keep their laws. *)

From S2P Require Import Prelude CoreTypes Time Transfer Transport SessionTracker EncCursor EncFields.
From S2P Require Import Node NodeSend NodeCore NodeSpec.

(** ** Trackers of transfer identifiers *)

Class TransferIdTrackerSpec (R N T : Type) `{TransportSpec N T, !TransferIdTracker R N T} := {
  ids_ok : R → Prop;
  default_ids_ok : ids_ok tracker_default;
  next_id_ok r n : ids_ok r → ids_ok (next_transfer_id r n).1 ∧
    ∀ t, (next_transfer_id r n).2 = Ok t → transfer_id_valid t;
}.

(** [k] increments of the first identifier. *)
Definition nth_transfer_id {N T} `{Transport N T} (k : nat) : T :=
  Nat.iter k transfer_id_increment transfer_id_default.

Section fixed_map.
Context {M N T : Type} `{TransportSpec N T} `{!KeyMap M N T, !KeyMapSpec M N T} (empty : M).
Hypothesis empty_spec : ∀ n, km_get empty n = None.

Abbreviation Ids := (TransferIdFixedMap M).

#[local] Instance fixed_map_instance : TransferIdTracker Ids N T := fixed_map_tracker empty.

(** The identifiers issued for a sequence of destinations. *)
Fixpoint issue (self : Ids) (destinations : list N) : list (result OutOfMemoryError T) :=
  match destinations with
  | [] => []
  | n :: l => let '(self, r) := fixed_map_next_transfer_id self n in r :: issue self l
  end.

Lemma fixed_map_step `{EqDecision N} self n : ∃ self' r, fixed_map_next_transfer_id self n = (self', r) ∧
  match r with
  | Ok t => t = default transfer_id_default (km_get (fm_ids self) n) ∧
      ∀ n', km_get (fm_ids self') n' =
        if decide (n' = n) then Some (transfer_id_increment t) else km_get (fm_ids self) n'
  | Err _ => self' = self ∧ km_get (fm_ids self) n = None
  end.
Proof.
  unfold fixed_map_next_transfer_id. destruct (km_get (fm_ids self) n) as [t|] eqn:Hn.
  - eexists _, _. split; [done|]. split; [done|]. intros n'. cbn. by rewrite km_alter_lookup, Hn.
  - destruct (km_insert _ _ _) as [m|] eqn:Hm; [|by eexists _, _].
    eexists _, _. split; [done|]. split; [done|]. intros n'. by apply km_insert_lookup.
Qed.

Definition fixed_map_ok (self : Ids) : Prop := ∀ n t, km_get (fm_ids self) n = Some t → transfer_id_valid t.

#[global] Program Instance fixed_map_spec `{EqDecision N} : TransferIdTrackerSpec Ids N T := {
  ids_ok := fixed_map_ok;
}.
Next Obligation. intros ? n t. cbn. by rewrite empty_spec. Qed.
Next Obligation.
  intros ? r n Hr. cbn. destruct (fixed_map_step r n) as (r' & x & -> & Hx). cbn.
  destruct x as [t|].
  - destruct Hx as [Ht Hget].
    assert (Hv : transfer_id_valid t).
    { subst t. destruct (km_get (fm_ids r) n) as [t|] eqn:Hn; cbn; [by eapply Hr|apply transfer_id_default_valid]. }
    split; [|by intros ? [= <-]]. intros n' t'. rewrite Hget. case_decide; [|by apply Hr].
    intros [= <-]. by apply transfer_id_increment_valid.
  - destruct Hx as [-> _]. done.
Qed.
End fixed_map.

(** ** Serialization *)

Lemma do_serialize_spec {M} `{SerializeSpec M} {S R E : Type} p alloc (oom : OutOfMemoryError → E) (st : S)
    (v : M) (op : list u8 → exec (S * result (nb_error E) R)) : serializable v →
  ((∃ n, alloc n = None) ∧ do_serialize p alloc oom st v op = Ret (st, Err (Other (oom mkOutOfMemoryError)))) ∨
  ∃ bytes, serialize_to_bytes p v (replicate ((size_bits v + 7) / 8) 0%Z) = Ret bytes ∧
    length bytes = (size_bits v + 7) / 8 ∧ bytes_ok bytes ∧ do_serialize p alloc oom st v op = op bytes.
Proof.
  intros Hv. destruct (serialize_fits p v Hv) as (bytes & Hs & Hl & Hb). unfold do_serialize.
  destruct (Nat.ltb_spec STACK_THRESHOLD ((size_bits v + 7) / 8)) as [Hlt|Hle].
  - destruct (vec_with_capacity _ _) eqn:Ha.
    + right. exists bytes. rewrite Hs. done.
    + left. split; [|done]. unfold vec_with_capacity in Ha. case_match; [done|].
      destruct (alloc _) eqn:Hn; [done|by eexists].
  - right. exists bytes. rewrite take_replicate, Nat.min_l by done. rewrite Hs. done.
Qed.

(** ** The core node *)

Section core.
Context {I D N T C Tx Rx Drv ETx ERx R PM RM : Type}.
Context `{Instant I D, Clock C I, TransportSpec N T}.
Context `{!Transmitter Tx C I N T Drv ETx, !Receiver Rx I D N T Drv ERx}.
Context `{!TransferIdTracker R N T, !TransferIdTrackerSpec R N T}.
Context `{!LinkSpec Tx Rx C I D N T Drv ETx ERx}.
Context `{!KeyMap PM SubjectId (Publisher D N T), !KeyMapSpec PM SubjectId (Publisher D N T)}.
Context `{!KeyMap RM ServiceId (Requester D N R), !KeyMapSpec RM ServiceId (Requester D N R)}.
Context (p : profile).
(** The deadline of a transfer can be computed (in a debug build the clock must not wrap
    around within the timeout). *)
Hypothesis add_total : ∀ (d : D) (t : I), ∃ t', add_instant p d t = Ret t'.

Abbreviation Core := (CoreNode C Tx Rx Drv N PM RM).

Definition core_link (self : Core) : Prop :=
  link_ok (cn_node_id self) (cn_transmitter self) (cn_receiver self) (cn_driver self).
Definition publisher_ok (id : N) (pub : Publisher D N T) : Prop :=
  pub_source pub = id ∧ transfer_id_valid (pub_next_transfer_id pub).
Definition requester_ok (id : N) (req : Requester D N R) : Prop :=
  req_this_node req = id ∧ ids_ok (req_transfer_ids req).
Definition core_publishers_ok (self : Core) : Prop :=
  ∀ s pub, km_get (cn_publishers self) s = Some pub → SubjectId_valid s ∧ publisher_ok (cn_node_id self) pub.
Definition core_requesters_ok (self : Core) : Prop :=
  ∀ s req, km_get (cn_requesters self) s = Some req → ServiceId_valid s ∧ requester_ok (cn_node_id self) req.

#[global] Instance core_ports : Ports Core := {
  node_ok self := core_link self ∧ node_id_valid (cn_node_id self) ∧
    core_publishers_ok self ∧ core_requesters_ok self;
  node_ready self := link_ready (cn_receiver self) (cn_driver self);
  publishing self s := is_Some (km_get (cn_publishers self) s);
  requesting self s := is_Some (km_get (cn_requesters self) s);
  reserved _ := False;
}.

(** A node that differs in clock, transmitter, receiver and driver only. *)
Definition same_maps (a b : Core) : Prop :=
  cn_node_id b = cn_node_id a ∧ cn_publishers b = cn_publishers a ∧ cn_requesters b = cn_requesters a.

Lemma same_maps_ports a b : node_ok a → same_maps a b → core_link b → same_ports a b.
Proof.
  intros (_ & Hid & Hp & Hr) (Hi & Hpm & Hrm) Hl. split_and!.
  - split_and!; [done|by rewrite Hi| |]; unfold core_publishers_ok, core_requesters_ok; rewrite Hi, ?Hpm, ?Hrm; done.
  - intros s. cbn. by rewrite Hpm.
  - intros s. cbn. by rewrite Hrm.
Qed.

(** Writing back a publisher or a requester that was taken from its map. *)
Lemma alter_publisher_ports (a : Core) s pub : node_ok a → publisher_ok (cn_node_id a) pub →
  same_ports a (set_publishers a (km_alter (cn_publishers a) s (λ _, pub))).
Proof.
  intros (Hl & Hid & Hp & Hr) Hpub. split_and!; [split_and!; [done|done| |done]| |done].
  - intros s' pub'. cbn. rewrite km_alter_lookup. case_decide as Hs; [subst s'|by apply Hp].
    destruct (km_get (cn_publishers a) s) eqn:Hg; [|done]. intros [= <-]. split; [by eapply Hp|done].
  - intros s'. cbn. rewrite km_alter_lookup. case_decide as Hs; [subst s'|done].
    by destruct (km_get (cn_publishers a) s).
Qed.

Lemma alter_requester_ports (a : Core) s req : node_ok a → requester_ok (cn_node_id a) req →
  same_ports a (set_requesters a (km_alter (cn_requesters a) s (λ _, req))).
Proof.
  intros (Hl & Hid & Hp & Hr) Hreq. split_and!; [split_and!; [done|done|done|]|done|].
  - intros s' req'. cbn. rewrite km_alter_lookup. case_decide as Hs; [subst s'|by apply Hr].
    destruct (km_get (cn_requesters a) s) eqn:Hg; [|done]. intros [= <-]. split; [by eapply Hr|done].
  - intros s'. cbn. rewrite km_alter_lookup. case_decide as Hs; [subst s'|done].
    by destruct (km_get (cn_requesters a) s).
Qed.

(** ** Sending *)

Lemma pub_publish_ok {M} `{SerializeSpec M} mem id pub rx tx c d subject (v : M) :
  memory_ok mem → node_id_valid id → link_ok id tx rx d → publisher_ok id pub →
  SubjectId_valid subject → serializable v →
  ∃ pub' tx' c' d' r, pub_publish p mem pub c subject v tx d = Ret (pub', (tx', c', d'), r) ∧
    publisher_ok id pub' ∧ link_ok id tx' rx d'.
Proof.
  intros Hmem Hid Hl [Hsrc Htid] Hs Hv. unfold pub_publish.
  destruct (clock_now c) as [c1 now]. destruct (add_total (pub_timeout pub) now) as [deadline ->]. cbn.
  destruct (do_serialize_spec p (buffer_memory mem) (transmit_oom (Tx := Tx)) (pub, (tx, c1, d)) v
    (λ bytes, pub_send_payload (first_part mem) pub subject bytes deadline tx c1 d) Hv)
    as [[_ ->]|(bytes & _ & _ & Hb & ->)]; [by eexists _, _, _, _, _|].
  unfold pub_send_payload.
  destruct (push_ok (first_part mem) id tx rx d c1 (mkTransfer (Message (mkMessageHeader deadline
    (pub_next_transfer_id pub) (pub_priority pub) subject (Some (pub_source pub)))) bytes))
    as (tx' & c' & d' & r & -> & Hl'); [by apply first_part_ok|done| |done|].
  { split_and!; [done|done|]. intros n [= <-]. cbn. by rewrite Hsrc. }
  eexists _, _, _, _, _. split; [done|]. split; [|done]. split; [done|].
  by apply transfer_id_increment_valid.
Qed.

Lemma req_send_ok {M} `{SerializeSpec M} mem id req rx tx c d service (v : M) destination :
  memory_ok mem → node_id_valid id → link_ok id tx rx d → requester_ok id req →
  ServiceId_valid service → node_id_valid destination → serializable v →
  ∃ req' tx' c' d' r, req_send p mem req c service v destination tx d = Ret (req', (tx', c', d'), r) ∧
    requester_ok id req' ∧ link_ok id tx' rx d'.
Proof.
  intros Hmem Hid Hl [Hsrc Hids] Hs Hd Hv. unfold req_send.
  destruct (clock_now c) as [c1 now]. destruct (add_total (req_timeout req) now) as [deadline ->]. cbn.
  destruct (do_serialize_spec p (buffer_memory mem) (transmit_oom (Tx := Tx)) (req, (tx, c1, d)) v
    (λ bytes, req_send_payload (first_part mem) req bytes service destination deadline tx c1 d) Hv)
    as [[_ ->]|(bytes & _ & _ & Hb & ->)]; [by eexists _, _, _, _, _|].
  unfold req_send_payload. destruct (next_id_ok (req_transfer_ids req) destination Hids) as [Hids' Htid].
  destruct (next_transfer_id (req_transfer_ids req) destination) as [ids [tid|oom]]; cbn; [|by eexists _, _, _, _, _].
  destruct (push_ok (first_part mem) id tx rx d c1 (mkTransfer (Request (mkServiceHeader deadline
    tid (req_priority req) service (req_this_node req) destination)) bytes))
    as (tx' & c' & d' & r & -> & Hl'); [by apply first_part_ok|done| |done|].
  { split_and!; [done|by apply Htid|cbn; by rewrite Hsrc|done]. }
  by eexists _, _, _, _, _.
Qed.

Lemma core_publish_ok {M} `{SerializeSpec M} mem (nd : Core) token (payload : M) :
  memory_ok mem → node_ok nd → publishing nd (subject_id token) → serializable payload →
  ∃ nd' r, core_publish p mem nd token payload = Ret (nd', r) ∧ same_ports nd nd'.
Proof.
  intros Hmem Hok [pub Hpub] Hv. destruct (proj1 (proj2 (proj2 Hok)) _ _ Hpub) as [Hs Hpok].
  unfold core_publish. rewrite Hpub. cbn.
  destruct (pub_publish_ok mem (cn_node_id nd) pub (cn_receiver nd) (cn_transmitter nd) (cn_clock nd)
    (cn_driver nd) (subject_id token) payload) as (pub' & tx' & c' & d' & r & -> & Hpok' & Hl');
    [done|apply Hok|apply Hok|done..|]. cbn.
  eexists _, _. split; [done|]. eapply same_ports_trans; [by apply (alter_publisher_ports nd)|].
  apply same_maps_ports; [by apply alter_publisher_ports|done|done].
Qed.

Lemma core_send_request_ok {M} `{SerializeSpec M} mem (nd : Core) token (payload : M) destination :
  memory_ok mem → node_ok nd → requesting nd (service_id token) → serializable payload →
  node_id_valid destination →
  ∃ nd' r, core_send_request p mem nd token payload destination = Ret (nd', r) ∧ same_ports nd nd'.
Proof.
  intros Hmem Hok [req Hreq] Hv Hd. destruct (proj2 (proj2 (proj2 Hok)) _ _ Hreq) as [Hs Hrok].
  unfold core_send_request. rewrite Hreq. cbn.
  destruct (req_send_ok mem (cn_node_id nd) req (cn_receiver nd) (cn_transmitter nd) (cn_clock nd)
    (cn_driver nd) (service_id token) payload destination) as (req' & tx' & c' & d' & r & -> & Hrok' & Hl');
    [done|apply Hok|apply Hok|done..|]. cbn.
  eexists _, _. split; [done|]. eapply same_ports_trans; [by apply (alter_requester_ports nd)|].
  apply same_maps_ports; [by apply alter_requester_ports|done|done].
Qed.

Lemma core_send_response_ok {M} `{SerializeSpec M} mem (nd : Core) (token : ResponseToken N T) (timeout : D)
    (payload : M) : memory_ok mem → node_ok nd → token_ok token → serializable payload →
  ∃ nd' r, core_send_response p mem nd token timeout payload = Ret (nd', r) ∧ same_ports nd nd'.
Proof.
  intros Hmem Hok (Hs & Hc & Ht) Hv. unfold core_send_response.
  destruct (clock_now (cn_clock nd)) as [c1 now]. destruct (add_total timeout now) as [deadline ->]. cbn.
  destruct (do_serialize_spec p (buffer_memory mem) (transmit_oom (Tx := Tx)) (set_clock nd c1) payload
    (λ bytes, send_response_payload (first_part mem) (set_clock nd c1) token deadline bytes) Hv)
    as [[_ ->]|(bytes & _ & _ & Hb & ->)].
  { eexists _, _. split; [done|]. apply same_maps_ports; [done|done|apply Hok]. }
  unfold send_response_payload. cbn.
  destruct (push_ok (first_part mem) (cn_node_id nd) (cn_transmitter nd) (cn_receiver nd) (cn_driver nd) c1
    (mkTransfer (Response (mkServiceHeader deadline (rt_transfer token) (rt_priority token)
      (rt_service token) (cn_node_id nd) (rt_client token))) bytes))
    as (tx' & c' & d' & r & -> & Hl'); [by apply first_part_ok|apply Hok| |done|].
  { split_and!; [done|done|apply Hok|done]. }
  eexists _, _. split; [done|]. by apply same_maps_ports.
Qed.

(** ** Receiving *)

Lemma core_receive_ok {Hd} `{!TransferHandler Hd Core I N T, !HandlerSpec Hd Core I N T} mem (nd : Core) (h : Hd) :
  memory_ok mem → node_ok nd → node_ready nd → handler_ok h →
  ∃ nd' h' r, core_receive mem nd h = Ret (nd', h', r) ∧ handler_ok h' ∧ same_ports nd nd'.
Proof.
  intros Hmem Hok Hready Hh. unfold core_receive. destruct (clock_now (cn_clock nd)) as [c1 now].
  destruct (receive_ok (first_part mem) (cn_node_id nd) (cn_transmitter nd) (cn_receiver nd) (cn_driver nd) now)
    as (rx' & d' & r & -> & Hl & Hr); [by apply first_part_ok|apply Hok|done|]. cbn.
  set (nd1 := set_receiving (set_clock nd c1) rx' d').
  assert (Hsame : same_ports nd nd1) by by apply same_maps_ports.
  destruct r as [[tr|]|e]; [|by eexists _, _, _..].
  destruct Hr as (Hhd & Hfor & Hb). unfold handle_incoming_transfer. pose proof (proj1 Hsame) as Hok1.
  destruct (tr_header tr) as [m|s|s].
  - destruct (handle_message_keeps (second_part mem) h nd1 (mkMessageTransfer m (tr_payload tr)))
      as (h' & nd' & b & -> & Hh' & Hs); [by apply second_part_ok|done..|].
    eexists _, _, _. split; [done|]. split; [done|]. by apply (same_ports_trans _ nd1).
  - destruct (handle_request_keeps (second_part mem) h nd1 (mkServiceTransfer s (tr_payload tr)))
      as (h' & nd' & b & Heq & Hh' & Hs); [by apply second_part_ok|done..|]. unfold response_token.
    cbn [st_header] in Heq. rewrite Heq. eexists _, _, _. split; [done|]. split; [done|].
    by apply (same_ports_trans _ nd1).
  - destruct (handle_response_keeps (second_part mem) h nd1 (mkServiceTransfer s (tr_payload tr)))
      as (h' & nd' & b & -> & Hh' & Hs); [by apply second_part_ok|done..|].
    eexists _, _, _. split; [done|]. split; [done|]. by apply (same_ports_trans _ nd1).
Qed.

(** ** Starting and stopping *)

Lemma core_start_publishing_ok (nd : Core) subject (timeout : D) priority :
  node_ok nd → SubjectId_valid subject →
  ∃ nd' r, core_start_publishing (ETx := ETx) nd subject timeout priority = Ret (nd', r) ∧ node_ok nd' ∧
    same_requesters nd' nd ∧
    match r with
    | Ok token => subject_id token = subject ∧ ~ publishing nd subject ∧
        ∀ s, publishing nd' s ↔ s = subject ∨ publishing nd s
    | Err e => same_publishers nd' nd ∧ (e = Duplicate ↔ publishing nd subject)
    end.
Proof.
  intros Hok Hs. unfold core_start_publishing.
  destruct (km_get (cn_publishers nd) subject) as [pub|] eqn:Hg.
  { eexists nd, _. split_and!; [done..|]. cbn. rewrite Hg. split; [by eexists|done]. }
  assert (Hno : ~ publishing nd subject) by (cbn; rewrite Hg; by intros []).
  destruct (km_insert _ _ _) as [pm|] eqn:Hm; eexists _, _; (split; [done|]).
  - destruct Hok as (Hl & Hid & Hp & Hr). split; [split_and!; [done|done| |done]|split_and!; [done..|]].
    + intros s pub. cbn. rewrite (km_insert_lookup _ _ _ _ _ Hm). case_decide; [|by apply Hp].
      intros [= <-]. subst s. split; [done|]. split; [done|apply transfer_id_default_valid].
    + intros s. cbn. rewrite (km_insert_lookup _ _ _ _ _ Hm). case_decide; naive_solver.
  - split_and!; [done..|]. by split.
Qed.

Lemma core_start_sending_requests_ok mem (nd : Core) service (timeout : D) size priority :
  memory_ok mem → node_ok nd → ServiceId_valid service →
  ∃ nd' r, core_start_sending_requests mem nd service timeout size priority = Ret (nd', r) ∧
    node_ok nd' ∧ same_publishers nd' nd ∧
    match r with
    | Ok token => service_id token = service ∧ ~ requesting nd service ∧
        ∀ s, requesting nd' s ↔ s = service ∨ requesting nd s
    | Err e => same_requesters nd' nd ∧ (e = Duplicate ↔ requesting nd service)
    end.
Proof.
  intros Hmem Hok Hs. unfold core_start_sending_requests.
  destruct (km_get (cn_requesters nd) service) as [req|] eqn:Hg.
  { eexists nd, _. split_and!; [done..|]. cbn. rewrite Hg. split; [by eexists|done]. }
  assert (Hno : ~ requesting nd service) by (cbn; rewrite Hg; by intros []).
  destruct (km_insert _ _ _) as [rm|] eqn:Hm.
  2: { eexists _, _. split; [done|]. split_and!; [done..|]. by split. }
  destruct (subscribe_response_ok mem (cn_node_id nd) (cn_transmitter nd) (cn_receiver nd) (cn_driver nd)
    service size timeout Hmem (proj1 Hok) Hs) as (rx' & d' & r & Heq & Hl & Hanon). cbn. rewrite Heq. cbn.
  destruct Hok as (_ & Hid & Hp & Hr).
  destruct r as [u|[|e]]; [|by destruct Hanon|]; (eexists _, _; split; [done|]).
  - split; [split_and!; [done|done|done|]|split_and!; [done..|]].
    + intros s req. cbn. rewrite (km_insert_lookup _ _ _ _ _ Hm). case_decide; [|by apply Hr].
      intros [= <-]. subst s. split; [done|]. split; [done|apply default_ids_ok].
    + intros s. cbn. rewrite (km_insert_lookup _ _ _ _ _ Hm). case_decide; naive_solver.
  - assert (Hback : ∀ s, km_get (km_remove rm service) s = km_get (cn_requesters nd) s).
    { intros s. rewrite km_remove_lookup, (km_insert_lookup _ _ _ _ _ Hm). by case_decide; subst. }
    split; [split_and!; [done|done|done|]|split_and!; [done| |by split]].
    + intros s req. cbn. rewrite Hback. apply Hr.
    + intros s. cbn. by rewrite Hback.
Qed.

Lemma core_subscribe_request_ok mem (nd : Core) service size (timeout : D) :
  memory_ok mem → node_ok nd → ServiceId_valid service →
  ∃ nd' r, core_subscribe_request mem nd service size timeout = Ret (nd', r) ∧ same_ports nd nd'.
Proof.
  intros Hmem Hok Hs. unfold core_subscribe_request.
  destruct (subscribe_request_ok mem (cn_node_id nd) (cn_transmitter nd) (cn_receiver nd) (cn_driver nd)
    service size timeout Hmem (proj1 Hok) Hs) as (rx' & d' & r & -> & Hl & Hanon). cbn.
  destruct r as [u|[|e]]; [|by destruct Hanon|]; (eexists _, _; split; [done|]); by apply same_maps_ports.
Qed.

#[global] Instance core_node_spec :
  NodeSpec (Core) (Core) I D N T ETx ERx (Node0 := core_node p).
Proof.
  split.
  - intros. by apply core_receive_ok.
  - apply core_start_publishing_ok.
  - intros nd token (Hl & Hid & Hp & Hr) _ _. eexists. split; [done|]. split; [split_and!; [done|done| |done]|split; [done|]].
    + intros s pub. cbn. rewrite km_remove_lookup. case_decide; [done|]. apply Hp.
    + intros s. cbn. rewrite km_remove_lookup. case_decide; naive_solver.
  - intros. by apply core_publish_ok.
  - apply core_start_sending_requests_ok.
  - intros nd token (Hl & Hid & Hp & Hr) _. eexists. split; [done|]. split; [split_and!; [done|done|done|]|split; [done|]].
    + intros s req. cbn. rewrite km_remove_lookup. case_decide; [done|]. apply Hr.
    + intros s. cbn. rewrite km_remove_lookup. case_decide; naive_solver.
  - intros. by apply core_send_request_ok.
  - intros mem nd subject size timeout Hmem Hok Hs. cbn. unfold core_subscribe_message.
    destruct (subscribe_message_ok mem (cn_node_id nd) (cn_transmitter nd) (cn_receiver nd) (cn_driver nd)
      subject size timeout Hmem (proj1 Hok) Hs) as (rx' & d' & r & -> & Hl). cbn.
    eexists _, _. split; [done|]. by apply same_maps_ports.
  - apply core_subscribe_request_ok.
  - intros. by apply core_send_response_ok.
  - intros nd Hok. cbn. unfold core_flush.
    destruct (flush_ok (cn_node_id nd) (cn_transmitter nd) (cn_receiver nd) (cn_driver nd) (cn_clock nd) (proj1 Hok))
      as (tx' & c' & d' & r & -> & Hl). cbn. eexists _, _. split; [done|]. by apply same_maps_ports.
  - intros nd (_ & _ & Hp & Hr). split_and!; [intros s [pub Hs]; by eapply Hp|intros s [req Hs]; by eapply Hr|done].
Qed.
End core.
