(* ===== verification/DataTypesSpec.v ===== *)
(** * The messages of a node can be serialized

    Heartbeats and port lists fit the buffers that their [size_bits] ask for, so a node can
    always send them; and the layout of a heartbeat. *)

From S2P Require Import Prelude CoreTypes EncCursor EncFields EncCursorSpec EncFieldsSpec EncBits DataTypes NodeSpec.

(** [c'] is [c] with at most [n] more bits. *)
Definition grown (c c' : WriteCursor) (n : nat) : Prop :=
  wc_ok c' ∧ length (wc_bytes c') = length (wc_bytes c) ∧
  bits_written c ≤ bits_written c' ≤ bits_written c + n.

Lemma appended_grown c c' v n : appended c c' v n → grown c c' n.
Proof. intros (H1 & H2 & H3 & _). split_and!; [done|done|lia|lia]. Qed.

Lemma grown_trans c c1 c2 n m k : grown c c1 n → grown c1 c2 m → n + m ≤ k → grown c c2 k.
Proof. intros (_ & L1 & B1) (H2 & L2 & B2) Hk. split_and!; [done|lia|lia|lia]. Qed.

(** Serialization from an aligned cursor writes no more than [size_bits]. *)
Class SerializeFits (M : Type) `{Serialize M} := {
  fits : M → Prop;
  serialize_grown p v c : fits v → wc_ok c → wc_bit_index c = 0 →
    bits_written c + size_bits v ≤ 8 * length (wc_bytes c) →
    ∃ c', serialize p v c = Ret c' ∧ grown c c' (size_bits v);
}.

#[global] Program Instance serialize_fits_spec {M} `{SerializeFits M} : SerializeSpec M := {
  serializable := fits;
}.
Next Obligation.
  intros M ??? p v Hv n. destruct (WriteCursor_new_ok (replicate n 0%Z)) as (Hc & Hw & Hl).
  rewrite length_replicate in Hl.
  destruct (serialize_grown p v (WriteCursor_new (replicate n 0%Z)) Hv Hc) as (c' & Hs & Hok & Hlen & _).
  { done. }
  { rewrite Hw, Hl. unfold n. dlia. }
  unfold serialize_to_bytes. rewrite Hs. cbn. eexists. split; [done|]. split; [by rewrite Hlen, Hl|apply Hok].
Qed.

Lemma aligned_bits c : wc_bit_index c = 0 → bits_written c = 8 * wc_bytes_written c.
Proof. unfold bits_written. lia. Qed.

(** Whole bytes keep a cursor aligned. *)
Lemma appended_aligned c c' v n : wc_bit_index c = 0 → appended c c' v (8 * n) → wc_bit_index c' = 0.
Proof. intros H0 ((Hlt & _) & _ & Hw & _). unfold bits_written in *. lia. Qed.

(** Padding up to the next byte. *)
Lemma align_spec c : wc_ok c →
  ∃ c', wc_align_to_8_bits c = Ret c' ∧ wc_ok c' ∧ wc_bytes c' = wc_bytes c ∧ wc_bit_index c' = 0 ∧
    bits_written c' = 8 * ((bits_written c + 7) / 8).
Proof.
  intros Hc. pose proof Hc as (Hb & Hle & Hby & Hz). unfold wc_align_to_8_bits.
  destruct (Nat.eqb_spec (wc_bit_index c) 0) as [H0|H0]; cbn [negb].
  { exists c. split_and!; [done..|]. rewrite aligned_bits by done. dlia. }
  unfold usize_sub. rewrite (proj2 (Nat.leb_le _ _)) by lia. cbn [mbind exec_bind]. unfold wc_skip_bits.
  unfold bits_written in *.
  rewrite check_length_spec by done. unfold bits_written. rewrite (proj2 (Nat.ltb_lt _ _)) by lia. cbn [mbind exec_bind].
  destruct (wc_advance_spec c (8 - wc_bit_index c) Hc) as (c' & Hadv & Hs & Hi & Hw);
    [unfold bits_written; lia|]. unfold bits_written in *.
  exists c'. split_and!; [done| |done|lia|dlia]. split_and!; [done|rewrite Hs; unfold bits_written; lia|by rewrite Hs|].
  unfold bits_written. intros i Hi'. rewrite Hs. apply Hz. lia.
Qed.

(** The bits that a composite value takes at most: a delimiter header if it has one, and its
    own bits up to a whole byte. *)
Definition composite_bits {M} `{Serialize M} (v : M) : nat :=
  (if is_delimited (T := M) then 32 else 0) + 8 * ((size_bits v + 7) / 8).

Lemma write_composite_grown {M} `{SerializeFits M} p (v : M) c :
  fits v → (Z.of_nat (size_bits v) < 2 ^ 32)%Z → wc_ok c → wc_bit_index c = 0 →
  bits_written c + composite_bits v ≤ 8 * length (wc_bytes c) →
  ∃ c', write_composite p c v = Ret c' ∧ grown c c' (composite_bits v) ∧ wc_bit_index c' = 0.
Proof.
  intros Hv Hsmall Hc Hal Hfit. unfold write_composite, composite_bits in *.
  destruct (align_spec c Hc) as (c1 & -> & Hc1 & Hby1 & Hi1 & Hw1). cbn [mbind exec_bind].
  assert (E1 : bits_written c1 = bits_written c) by (rewrite Hw1, (aligned_bits c) by done; dlia).
  assert (Hhead : ∃ c2, (if is_delimited (T := M) then
      _ ← assert_ (is_ub 32 (Z.of_nat ((size_bits v + 7) / 8)));
      write_u32 p c1 (Z.of_nat ((size_bits v + 7) / 8)) else Ret c1) = Ret c2 ∧
      wc_ok c2 ∧ length (wc_bytes c2) = length (wc_bytes c) ∧
      bits_written c2 = bits_written c + (if is_delimited (T := M) then 32 else 0)).
  { destruct is_delimited; [|exists c1; split_and!; [done|done|by rewrite Hby1|lia]].
    rewrite (proj2 (is_ub_spec _ _)) by (unfold is_u; dlia). cbn [assert_ mbind exec_bind].
    destruct (write_up_to_spec 32 p c1 (Z.of_nat ((size_bits v + 7) / 8)) 32 Hc1) as (c2 & Hw & Hc2 & Hl2 & Hb2 & _);
      [done|rewrite Hby1; lia|].
    exists c2. split_and!; [done|done|by rewrite Hl2, Hby1|lia]. }
  destruct Hhead as (c2 & -> & Hc2 & Hl2 & Hb2). cbn [mbind exec_bind].
  assert (H2 : wc_bit_index c2 = 0).
  { pose proof (aligned_bits c Hal). destruct Hc2 as (Hlt & _). unfold bits_written in *. destruct is_delimited; lia. }
  destruct (serialize_grown p v c2 Hv Hc2 H2) as (c3 & -> & Hc3 & Hl3 & Hb3); [rewrite Hl2; dlia|]. cbn [mbind exec_bind].
  destruct (align_spec c3 Hc3) as (c4 & -> & Hc4 & Hby4 & Hi4 & Hw4). exists c4.
  pose proof (aligned_bits c2 H2). split_and!; [done| |done]. split_and!; [done|rewrite Hby4; lia|dlia|dlia].
Qed.

(** *** Heartbeats *)

#[global] Program Instance health_fits : SerializeFits Health := { fits _ := True }.
Next Obligation.
  intros p v c _ Hc _ Hfit. destruct (write_up_to_u8_spec p c (health_value v) 2 Hc) as (c' & Hw & Ha%appended_grown);
    [lia|cbn in Hfit; lia|]. exists c'. split; [done|]. destruct Ha as (? & ? & ?). split_and!; [done|done|lia|cbn; lia].
Qed.
#[global] Program Instance mode_fits : SerializeFits Mode := { fits _ := True }.
Next Obligation.
  intros p v c _ Hc _ Hfit. destruct (write_up_to_u8_spec p c (mode_value v) 3 Hc) as (c' & Hw & Ha%appended_grown);
    [lia|cbn in Hfit; lia|]. exists c'. split; [done|]. destruct Ha as (? & ? & ?). split_and!; [done|done|lia|cbn; lia].
Qed.

#[global] Program Instance heartbeat_fits : SerializeFits Heartbeat := {
  fits h := is_u 8 (vendor_specific_status_code h);
}.
Next Obligation.
  intros p v c Hv Hc H0 Hfit. cbn [size_bits heartbeat_serialize] in *. unfold serialize, heartbeat_serialize.
  destruct (write_aligned_spec 4 c (uptime v) Hc H0 ltac:(lia)) as (c1 & E1 & A1).
  unfold write_aligned_u32. rewrite E1. cbn [mbind exec_bind].
  pose proof (appended_aligned _ _ _ 4 H0 A1) as I1. apply appended_grown in A1 as (Hc1 & L1 & B1).
  destruct (write_composite_grown p (health v) c1) as (c2 & -> & (Hc2 & L2 & B2) & I2); [done|cbn; lia|done|done|cbn; lia|].
  cbn [mbind exec_bind].
  destruct (write_composite_grown p (mode v) c2) as (c3 & -> & (Hc3 & L3 & B3) & I3); [done|cbn; lia|done|done|cbn in *; lia|].
  cbn [mbind exec_bind].
  destruct (write_aligned_u8_spec c3 (vendor_specific_status_code v) Hc3 I3 Hv) as (c4 & -> & A4); [cbn in *; lia|].
  apply appended_grown in A4 as (Hc4 & L4 & B4). exists c4. split; [done|]. cbn in *. split_and!; [done|lia|lia|lia].
Qed.

(** *** Port lists *)

(** Lists as the program builds them: masks have a bit for each identifier, sparse lists have
    no more elements than they have room for. *)
Definition list_ok (l : SubjectIDList) : Prop :=
  match l with
  | Mask mask => ba_ok 1024 mask ∧ ba_bit_length mask = SUBJECTS
  | SparseList l => length l ≤ SPARSE_CAPACITY ∧ NoDup (subject_value <$> l) ∧
      Forall (λ x, SubjectId_valid (subject_value x)) l
  | Total => True
  end.
Definition SERVICES : usize := 512.
Definition services_ok (l : ServiceIDList) : Prop :=
  ba_ok 64 (service_mask l) ∧ ba_bit_length (service_mask l) = SERVICES.
Definition port_list_ok (l : PortList) : Prop :=
  list_ok (pl_publishers l) ∧ list_ok (pl_subscribers l) ∧ services_ok (pl_clients l) ∧ services_ok (pl_servers l).

#[global] Program Instance subject_id_fits : SerializeFits SubjectID := { fits _ := True }.
Next Obligation.
  intros p v c _ Hc _ Hfit. destruct (write_up_to_spec 16 p c (subject_value v) 13 Hc) as (c' & Hw & Ha%appended_grown);
    [lia|cbn in Hfit; lia|]. exists c'. split; [done|]. destruct Ha as (? & ? & ?). split_and!; [done|done|lia|cbn; lia].
Qed.

Lemma write_composites_grown p (l : list SubjectID) : ∀ c,
  wc_ok c → wc_bit_index c = 0 → bits_written c + length l * 16 ≤ 8 * length (wc_bytes c) →
  ∃ c', write_composites p c l = Ret c' ∧ grown c c' (length l * 16).
Proof.
  induction l as [|x l IH]; intros c Hc H0 Hfit; cbn [write_composites length] in *.
  { exists c. split; [done|]. split_and!; [done|done|lia|lia]. }
  destruct (write_composite_grown p x c) as (c1 & -> & G1 & I1); [done|cbn; lia|done|done|cbn; lia|].
  pose proof G1 as (Hc1 & L1 & B1). cbn [composite_bits is_delimited EXTENT_BYTES subject_id_type size_bits subject_id_serialize] in B1.
  cbn [mbind exec_bind]. destruct (IH c1 Hc1 I1) as (c2 & -> & G2); [cbn in B1; lia|].
  exists c2. split; [done|]. eapply grown_trans; [exact G1|exact G2|cbn; lia].
Qed.

#[global] Program Instance subject_id_list_fits : SerializeFits SubjectIDList := { fits := list_ok }.
Next Obligation.
  intros p v c Hv Hc H0 Hfit. cbn [size_bits subject_id_list_serialize] in *. cbn [serialize subject_id_list_serialize].
  destruct v as [m|l|].
  - destruct Hv as [Hm Hlen]. destruct (write_aligned_u8_spec c 0 Hc H0) as (c1 & -> & A1%appended_grown);
      [unfold is_u; lia|lia|]. pose proof A1 as (Hc1 & L1 & B1). cbn [mbind exec_bind]. unfold ba_len in *.
    destruct (ba_serialize_spec 1024 p m c1 Hm Hc1) as (c2 & -> & A2%appended_grown); [lia|].
    exists c2. split; [done|]. eapply grown_trans; [exact A1|exact A2|lia].
  - destruct Hv as [Hle _]. destruct (write_aligned_u8_spec c 1 Hc H0) as (c1 & -> & A1); [unfold is_u; lia|lia|].
    pose proof (appended_aligned _ _ _ 1 H0 A1) as I1. apply appended_grown in A1. pose proof A1 as (Hc1 & L1 & B1).
    cbn [mbind exec_bind].
    destruct (write_aligned_u8_spec c1 (as_u8 (Z.of_nat (length l))) Hc1 I1) as (c2 & -> & A2); [by apply is_u_wrap|lia|].
    pose proof (appended_aligned _ _ _ 1 I1 A2) as I2. apply appended_grown in A2. pose proof A2 as (Hc2 & L2 & B2).
    cbn [mbind exec_bind]. destruct (write_composites_grown p l c2 Hc2 I2) as (c3 & -> & A3); [lia|].
    exists c3. split; [done|]. eapply grown_trans; [exact A1| |reflexivity].
    eapply grown_trans; [exact A2|exact A3|lia].
  - destruct (write_aligned_u8_spec c 2 Hc H0) as (c1 & -> & A1); [unfold is_u; lia|lia|].
    pose proof (appended_aligned _ _ _ 1 H0 A1) as I1. apply appended_grown in A1. pose proof A1 as (Hc1 & L1 & B1).
    cbn [mbind exec_bind]. unfold wc_align_to_8_bits. rewrite I1. cbn [Nat.eqb negb mbind exec_bind].
    unfold write_aligned_bytes, remaining_bytes. pose proof Hc1 as (_ & Hle & _). unfold bits_written in Hle.
    rewrite (proj2 (Nat.leb_le _ _)) by lia. cbn [mbind exec_bind length Nat.leb assert_ app drop].
    destruct (write_aligned_appended c1 0 0%Z []) as (c2 & Hadv & A2);
      [done|done|unfold bits_written; lia|done|constructor|lia|]. change (8 * 0) with 0 in *.
    cbn [app] in Hadv. rewrite Hadv. cbn [mbind exec_bind].
    rewrite (appended_aligned _ _ _ 0 I1 A2). apply appended_grown in A2.
    exists c2. split; [done|]. eapply grown_trans; [exact A1|exact A2|lia].
Qed.

#[global] Program Instance service_id_list_fits : SerializeFits ServiceIDList := { fits := services_ok }.
Next Obligation.
  intros p v c [Hm Hlen] Hc H0 Hfit. cbn [size_bits service_id_list_serialize] in *. cbn [serialize service_id_list_serialize].
  unfold SERVICES in Hlen. destruct (ba_serialize_spec 64 p (service_mask v) c Hm Hc) as (c1 & -> & A1%appended_grown); [lia|].
  exists c1. split; [done|]. by rewrite Hlen in A1.
Qed.

(** A list of subjects takes a whole number of bytes. *)
Lemma subject_list_bits l : list_ok l → ∃ n, size_bits l = 8 * n ∧ n ≤ 1025.
Proof.
  destruct l as [m|l|]; cbn [list_ok size_bits subject_id_list_serialize]; unfold ba_len, SUBJECTS, SPARSE_CAPACITY.
  - intros [_ ->]. exists 1025. lia.
  - intros [Hl _]. exists (2 + 2 * length l). lia.
  - intros _. exists 1. lia.
Qed.

Lemma subject_list_composite l : list_ok l → composite_bits l = 32 + size_bits l.
Proof. intros (n & E & _)%subject_list_bits. unfold composite_bits. change is_delimited with true. rewrite E. dlia. Qed.
Lemma port_list_bits (v : PortList) :
  size_bits v = 32 + size_bits (pl_publishers v) + 32 + size_bits (pl_subscribers v) + 32 + 512 + 32 + 512.
Proof. change (size_bits v) with (32 + size_bits (pl_publishers v) + 32 + size_bits (pl_subscribers v) + 32 + 512 + 32 + 512 + 0). lia. Qed.
Lemma service_list_composite (l : ServiceIDList) : composite_bits l = 32 + 512.
Proof. done. Qed.

#[global] Program Instance port_list_fits : SerializeFits PortList := { fits := port_list_ok }.
Next Obligation.
  intros p v c (Hp & Hs & Hcl & Hsv) Hc H0 Hfit.
  destruct (subject_list_bits _ Hp) as (np & Enp & Bnp), (subject_list_bits _ Hs) as (ns & Ens & Bns).
  pose proof (subject_list_composite _ Hp) as Cp. pose proof (subject_list_composite _ Hs) as Cs.
  pose proof (service_list_composite (pl_clients v)) as Cc. pose proof (service_list_composite (pl_servers v)) as Csv.
  rewrite port_list_bits in *. cbn [serialize port_list_serialize].
  destruct (write_composite_grown p (pl_publishers v) c) as (c1 & -> & (Hc1 & L1 & B1) & I1); [done|lia|done|done|lia|].
  cbn [mbind exec_bind].
  destruct (write_composite_grown p (pl_subscribers v) c1) as (c2 & -> & (Hc2 & L2 & B2) & I2); [done|lia|done|done|lia|].
  cbn [mbind exec_bind].
  destruct (write_composite_grown p (pl_clients v) c2) as (c3 & -> & (Hc3 & L3 & B3) & I3); [done|cbn; lia|done|done|lia|].
  cbn [mbind exec_bind].
  destruct (write_composite_grown p (pl_servers v) c3) as (c4 & -> & (Hc4 & L4 & B4) & I4); [done|cbn; lia|done|done|lia|].
  exists c4. split; [done|]. split_and!; [done|lia|lia|lia].
Qed.
