(* ===== verification/NodeSpecBasic.v ===== *)
(** * The basic node keeps [NodeSpec]

    Over any node that keeps it. Its port list is exact: it names the subjects and services on
    which the wrapped node publishes and sends requests, and no others. *)

From S2P Require Import Prelude CoreTypes Time Transfer Transport EncCursor EncFields EncCursorSpec EncBits DataTypes Node.
From S2P Require Import NodeBasic NodeSpec DataTypesSpec.

(** ** The lists of ports of a basic node

    [insert_into_list] and [remove_from_list] of [NodeBasic] compute the set with one
    subject more or less, whatever the representation of the list. *)

(** The subjects in a list, and the services in a mask. *)
Definition listed (l : SubjectIDList) (s : SubjectId) : Prop :=
  match l with
  | Mask mask => bit_at (ba_bytes mask) (bit_index s) = true
  | SparseList l => s ∈ subject_value <$> l
  | Total => True
  end.
Definition service_listed (l : ServiceIDList) (s : ServiceId) : Prop :=
  bit_at (ba_bytes (service_mask l)) (bit_index s) = true.

Lemma subject_index s : SubjectId_valid s → bit_index s < SUBJECTS ∧ s = Z.of_nat (bit_index s).
Proof. unfold SubjectId_valid, VALID_SUBJECT_IDS_end, SUBJECTS, bit_index. lia. Qed.
Lemma service_index s : ServiceId_valid s → bit_index s < SERVICES ∧ s = Z.of_nat (bit_index s).
Proof. unfold ServiceId_valid, VALID_SERVICE_IDS_end, SERVICES, bit_index. lia. Qed.

(** Setting one bit of a mask that has a bit for [n] identifiers. *)
Lemma mask_set_spec BYTES mask s n v : ba_ok BYTES mask → ba_bit_length mask = n → (0 ≤ s)%Z → bit_index s < n →
  ∃ mask', ba_set mask (bit_index s) v = Ret mask' ∧ ba_ok BYTES mask' ∧ ba_bit_length mask' = n ∧
    ∀ x, (0 ≤ x)%Z → bit_at (ba_bytes mask') (bit_index x) =
      if (x =? s)%Z then v else bit_at (ba_bytes mask) (bit_index x).
Proof.
  intros Hok Hlen Hs0 Hs. destruct (ba_set_spec BYTES mask (bit_index s) v Hok) as (mask' & Hset & Hok' & Hl & Hb); [lia|].
  exists mask'. split_and!; [done|done|congruence|]. intros x Hx. rewrite Hb. unfold bit_index in *.
  repeat case_cmp; [done|lia|congruence|done].
Qed.

Lemma subject_mask_set mask s v : list_ok (Mask mask) → SubjectId_valid s →
  ∃ mask', ba_set mask (bit_index s) v = Ret mask' ∧ list_ok (Mask mask') ∧
    ∀ x, SubjectId_valid x → (listed (Mask mask') x ↔ if (x =? s)%Z then v = true else listed (Mask mask) x).
Proof.
  intros [Hok Hlen] Hs. destruct (mask_set_spec 1024 mask s SUBJECTS v Hok Hlen) as (mask' & Hset & Hok' & Hl & Hb);
    [apply Hs|by apply subject_index|].
  exists mask'. split_and!; [done|done|]. intros x Hx. cbn. rewrite Hb by apply Hx. by case_match.
Qed.

Lemma service_mask_set l s v : services_ok l → ServiceId_valid s →
  ∃ mask', ba_set (service_mask l) (bit_index s) v = Ret mask' ∧ services_ok (mkServiceIDList mask') ∧
    ∀ x, ServiceId_valid x →
      (service_listed (mkServiceIDList mask') x ↔ if (x =? s)%Z then v = true else service_listed l x).
Proof.
  intros [Hok Hlen] Hs. destruct (mask_set_spec 64 (service_mask l) s SERVICES v Hok Hlen) as (mask' & Hset & Hok' & Hl & Hb);
    [apply Hs|by apply service_index|].
  exists mask'. split_and!; [done|done|]. intros x Hx. unfold service_listed. cbn. rewrite Hb by apply Hx. by case_match.
Qed.

(** A new mask, and one with all bits set. *)
Lemma empty_mask_ok BYTES n : n ≤ BYTES * 8 → ∃ mask, BitArray_new BYTES n = Ret mask ∧ ba_ok BYTES mask ∧
  ba_bit_length mask = n ∧ ∀ i, bit_at (ba_bytes mask) i = false.
Proof.
  intros Hn. unfold BitArray_new. rewrite (proj2 (Nat.leb_le _ _) Hn). cbn [assert_ mbind exec_bind].
  eexists. split; [done|]. split_and!; [split_and!|..]; cbn; [apply length_replicate|done| |done|].
  - apply Forall_replicate. unfold byte_ok, is_u. lia.
  - intros i. unfold bit_at. destruct (replicate BYTES 0%Z !! (i / 8)) eqn:E; cbn; [|apply Z.testbit_0_l].
    apply lookup_replicate in E as [-> _]. apply Z.testbit_0_l.
Qed.

Lemma full_mask_bits mask i : i < 8 * length (ba_bytes mask) → bit_at (ba_bytes (ba_fill mask true)) i = true.
Proof.
  intros Hi. unfold bit_at, ba_fill. cbn [ba_bytes]. rewrite list_lookup_fmap.
  destruct (lookup_lt_is_Some_2 (ba_bytes mask) (i / 8)) as [b ->]; [apply Nat.Div0.div_lt_upper_bound; lia|].
  cbn. pose proof (Nat.mod_upper_bound i 8 ltac:(lia)) as Hm. change 255%Z with (Z.ones 8).
  apply Z.ones_spec_low. lia.
Qed.

(** Sets the bits of the subjects of a list. *)
Lemma set_all_spec sparse : ∀ mask, list_ok (Mask mask) → Forall (λ x, SubjectId_valid (subject_value x)) sparse →
  ∃ mask', set_all mask sparse = Ret mask' ∧ list_ok (Mask mask') ∧
    ∀ x, SubjectId_valid x → (listed (Mask mask') x ↔ listed (Mask mask) x ∨ x ∈ subject_value <$> sparse).
Proof.
  induction sparse as [|y sparse IH]; intros mask Hm Hall; cbn [set_all].
  { exists mask. split_and!; [done|done|]. intros x _. cbn. set_solver. }
  apply Forall_cons in Hall as [Hy Hall].
  destruct (subject_mask_set mask (subject_value y) true Hm Hy) as (m1 & -> & Hm1 & Hb1). cbn [mbind exec_bind].
  destruct (IH m1 Hm1 Hall) as (m2 & -> & Hm2 & Hb2). exists m2. split_and!; [done|done|].
  intros x Hx. rewrite Hb2, Hb1 by done. rewrite fmap_cons, elem_of_cons.
  destruct (Z.eqb_spec x (subject_value y)); naive_solver.
Qed.

Lemma existsb_listed l s : existsb (λ in_list, subject_value in_list =? s)%Z l = true ↔ s ∈ subject_value <$> l.
Proof.
  rewrite existsb_exists, list_elem_of_fmap. split.
  - intros (x & Hx & Hs%Z.eqb_eq). exists x. split; [done|]. by apply list_elem_of_In.
  - intros (x & -> & Hx). exists x. split; [by apply list_elem_of_In|apply Z.eqb_refl].
Qed.

Lemma insert_into_list_spec l s : list_ok l → SubjectId_valid s →
  ∃ l', insert_into_list l s = Ret l' ∧ list_ok l' ∧
    ∀ x, SubjectId_valid x → (listed l' x ↔ x = s ∨ listed l x).
Proof.
  intros Hl Hs. destruct l as [mask|sparse|]; cbn [insert_into_list].
  - destruct (subject_mask_set mask s true Hl Hs) as (m1 & -> & Hm1 & Hb1). exists (Mask m1).
    split_and!; [done|done|]. intros x Hx. rewrite Hb1 by done. destruct (Z.eqb_spec x s); naive_solver.
  - destruct Hl as (Hlen & Hnd & Hall). destruct (existsb _ _) eqn:Ex.
    + apply existsb_listed in Ex. exists (SparseList sparse). split_and!; [done|done..|]. intros x _. cbn. set_solver.
    + assert (Hni : s ∉ subject_value <$> sparse) by (intros Hin%existsb_listed; congruence).
      unfold sparse_push. destruct (Nat.ltb_spec (length sparse) SPARSE_CAPACITY) as [Hlt|Hge].
      * eexists. split; [done|]. split.
        -- split_and!; [rewrite length_app; cbn; lia| |apply Forall_app; split; [done|by apply Forall_singleton]].
           rewrite fmap_app. apply NoDup_app. split_and!; [done| |apply NoDup_singleton].
           intros x Hx Hx'%list_elem_of_singleton. cbn in Hx'. by subst.
        -- intros x _. cbn. rewrite fmap_app, elem_of_app. cbn. rewrite list_elem_of_singleton. naive_solver.
      * destruct (empty_mask_ok 1024 SUBJECTS) as (m0 & -> & Hok0 & Hl0 & Hb0); [unfold SUBJECTS; lia|].
        cbn [mbind exec_bind]. destruct (set_all_spec sparse m0 (conj Hok0 Hl0) Hall) as (m1 & -> & Hm1 & Hb1).
        cbn [mbind exec_bind]. destruct (subject_mask_set m1 s true Hm1 Hs) as (m2 & -> & Hm2 & Hb2).
        exists (Mask m2). split_and!; [done|done|]. intros x Hx. rewrite Hb2 by done.
        destruct (Z.eqb_spec x s) as [|Hne]; [naive_solver|]. rewrite Hb1 by done. cbn. rewrite Hb0. naive_solver.
  - exists Total. split_and!; [done|done|]. intros x _. cbn. naive_solver.
Qed.

(** [swap_remove] takes out the element at the position. *)
Lemma sparse_swap_remove_perm sparse i x : sparse !! i = Some x → x :: sparse_swap_remove sparse i ≡ₚ sparse.
Proof.
  intros Hi. apply list_elem_of_split_length in Hi as (l1 & l2 & -> & ->). unfold sparse_swap_remove.
  destruct l2 as [|y l2 _] using rev_ind.
  - rewrite last_snoc, length_app, list_insert_id by (by apply list_lookup_middle). cbn.
    replace (length l1 + 1 - 1) with (length l1) by lia. rewrite take_app_length. solve_Permutation.
  - rewrite app_comm_cons, app_assoc, last_snoc, length_app. cbn [length].
    replace (length (l1 ++ x :: l2) + 1 - 1) with (length (l1 ++ x :: l2)) by lia.
    rewrite <- app_assoc, insert_app_r_alt by lia. rewrite Nat.sub_diag. cbn.
    replace (length (l1 ++ x :: l2)) with (length (l1 ++ y :: l2)) by (rewrite !length_app; done).
    rewrite app_comm_cons, app_assoc, take_app_length. solve_Permutation.
Qed.

Lemma remove_from_list_spec l s : list_ok l → SubjectId_valid s →
  ∃ l', remove_from_list l s = Ret l' ∧ list_ok l' ∧
    ∀ x, SubjectId_valid x → (listed l' x ↔ x ≠ s ∧ listed l x).
Proof.
  intros Hl Hs. destruct l as [mask|sparse|]; cbn [remove_from_list].
  - destruct (subject_mask_set mask s false Hl Hs) as (m1 & -> & Hm1 & Hb1). exists (Mask m1).
    split_and!; [done|done|]. intros x Hx. rewrite Hb1 by done. destruct (Z.eqb_spec x s); naive_solver.
  - destruct Hl as (Hlen & Hnd & Hall). destruct (list_find _ sparse) as [[i y]|] eqn:Ef.
    + apply list_find_Some in Ef as (Hi & Hy & _). pose proof (sparse_swap_remove_perm sparse i y Hi) as Hp.
      eexists. split; [done|]. set (rest := sparse_swap_remove sparse i) in *. clearbody rest.
      rewrite <- Hp in Hnd, Hall. apply Permutation_length in Hp as Hpl. cbn in Hpl.
      rewrite fmap_cons in Hnd. apply NoDup_cons in Hnd as [Hni Hnd]. apply Forall_cons in Hall as [_ Hall].
      split; [split_and!; [lia|done|done]|]. intros x _. cbn [listed].
      rewrite <- Hp, fmap_cons, elem_of_cons. subst s.
      split; [|naive_solver]. intros Hx. split; [by intros ->|by right].
    + exists (SparseList sparse). split_and!; [done|done..|]. intros x _. cbn [listed].
      apply list_find_None in Ef. split; [|naive_solver]. intros Hx. split; [|done]. intros ->.
      apply list_elem_of_fmap in Hx as (y & -> & Hy). by eapply Forall_forall in Ef.
  - destruct (empty_mask_ok 1024 SUBJECTS) as (m0 & -> & Hok0 & Hl0 & _); [unfold SUBJECTS; lia|]. cbn [mbind exec_bind].
    assert (Hfull : list_ok (Mask (ba_fill m0 true))).
    { destruct Hok0 as (H1 & H2 & H3). split; [|done]. split_and!; cbn; [by rewrite length_fmap|done|].
      apply Forall_fmap, Forall_true. intros ?. cbn. unfold byte_ok, is_u. lia. }
    destruct (subject_mask_set _ s false Hfull Hs) as (m1 & -> & Hm1 & Hb1). exists (Mask m1).
    split_and!; [done|done|]. intros x Hx. rewrite Hb1 by done.
    assert (listed (Mask (ba_fill m0 true)) x).
    { cbn. apply full_mask_bits. destruct (subject_index x Hx) as [Hlt _]. destruct Hok0 as (-> & _).
      unfold SUBJECTS in Hlt. lia. }
    destruct (Z.eqb_spec x s); naive_solver.
Qed.

Section basic.
Context {Nd Tgt I D N T ETx ERx : Type} `{Instant I D}.
Context `{NodeSpec Nd Tgt I D N T ETx ERx, !Node Tgt Tgt I D N T ETx ERx, !NodeSpec Tgt Tgt I D N T ETx ERx}.
Context {Info : Type} `{!DataType Info, !Serialize Info, !SerializeSpec Info} (p : profile).
(** Durations of up to a second can be represented. *)
Hypothesis millis_total : ∀ ms, (0 ≤ ms ≤ 1000)%Z → ∃ d : D, dur_from_millis ms = Some d.

Abbreviation Basic := (BasicNode Nd Info).

(** ** Node information *)

#[global] Program Instance info_handler_spec : HandlerSpec (NodeInfoHandler Info) Tgt I N T
    (TransferHandler0 := node_info_handler) := {
  handler_ok h := serializable (response h);
}.
Next Obligation. intros mem h nd m _ Hh Hnd _ _. eexists _, _, _. split; [done|]. split; [done|]. by apply same_ports_refl. Qed.
Next Obligation.
  intros mem h nd s Hmem Hh Hnd (Hsv & Ht & Hsrc & Hdst) Hb. cbn -[milliseconds]. unfold info_handle_request.
  case_cmp; [|by eexists _, _, _; split_and!; [done|done|apply same_ports_refl]].
  unfold milliseconds. destruct (millis_total 1000) as [d ->]; [done|]. cbn [unwrap mbind exec_bind].
  match goal with |- context [node_send_response mem nd ?t d ?x] =>
    destruct (send_response_law mem nd t d x Hmem Hnd) as (nd' & r & -> & Hs); [done|done|] end.
  by eexists _, _, _.
Qed.
Next Obligation. intros mem h nd m _ Hh Hnd _ _. eexists _, _, _. split; [done|]. split; [done|]. by apply same_ports_refl. Qed.

(** ** The invariant *)

(** The port list is that of the wrapped node. *)
Definition port_list_exact (l : PortList) (node : Nd) : Prop :=
  (∀ s, SubjectId_valid s → (listed (pl_publishers l) s ↔ publishing node s)) ∧
  (∀ s, ServiceId_valid s → (service_listed (pl_clients l) s ↔ requesting node s)).

Definition minimal_ok (self : MinimalNode Nd) : Prop :=
  node_ok (mn_node self) ∧ subject_id (mn_heartbeat_token self) = heartbeat_SUBJECT ∧
  publishing (mn_node self) heartbeat_SUBJECT ∧ is_u 8 (vendor_specific_status_code (mn_heartbeat self)).

Definition basic_ok (self : Basic) : Prop :=
  minimal_ok (bn_node self) ∧ subject_id (bn_port_list_token self) = list_SUBJECT ∧
  publishing (inner_node self) list_SUBJECT ∧ port_list_ok (bn_port_list self) ∧
  port_list_exact (bn_port_list self) (inner_node self) ∧
  (0 ≤ bn_seconds_since_port_list_published self ≤ 10)%Z ∧ serializable (bn_node_info self).

#[global] Instance basic_ports : Ports Basic := {
  node_ok := basic_ok;
  node_ready self := node_ready (inner_node self);
  publishing self := publishing (inner_node self);
  requesting self := requesting (inner_node self);
  reserved s := s = heartbeat_SUBJECT ∨ s = list_SUBJECT ∨ reserved (Nd := Nd) s;
}.

Lemma heartbeat_SUBJECT_valid : SubjectId_valid heartbeat_SUBJECT.
Proof. by vm_compute. Qed.
Lemma list_SUBJECT_valid : SubjectId_valid list_SUBJECT.
Proof. by vm_compute. Qed.
Lemma get_info_SERVICE_valid : ServiceId_valid get_info_SERVICE.
Proof. by vm_compute. Qed.

Lemma port_list_exact_same l a b : same_ports a b → port_list_exact l a → port_list_exact l b.
Proof.
  intros (_ & Hp & Hr) [Hpub Hreq]. split; intros s Hs; [by rewrite Hpub, (Hp s)|by rewrite Hreq, (Hr s)].
Qed.

(** Whatever a wrapped node does that keeps its ports. *)
Lemma set_inner_ports self nd' : node_ok self → same_ports (inner_node self) nd' → same_ports self (set_inner self nd').
Proof.
  intros ((Hok & Ht & Hhb & Hst) & Hlt & Hlp & Hpl & Hex & Hsec & Hinfo) Hs. pose proof Hs as (Hok' & Hp & Hr).
  split; [|done]. pose proof (port_list_exact_same _ _ _ Hs Hex) as Hex'.
  split; [by split_and!; cbn; [|..|apply Hp|]|]. split; [done|]. split; [by apply Hp|]. by split.
Qed.

(** What stays when the wrapped node and the port list change together. *)
Lemma set_ports_ok self nd' l : node_ok self → node_ok nd' → publishing nd' heartbeat_SUBJECT →
  publishing nd' list_SUBJECT → port_list_ok l → port_list_exact l nd' →
  node_ok (set_port_list (set_inner self nd') l).
Proof.
  intros ((Hok & Ht & Hhb & Hst) & Hlt & Hlp & Hpl & Hex & Hsec & Hinfo) Hok' Hhb' Hlp' Hl Hex'.
  split; [done|]. split; [done|]. split; [done|]. by split.
Qed.

Lemma set_ports_same self nd' : node_ok self → node_ok nd' → same_publishers nd' (inner_node self) →
  same_requesters nd' (inner_node self) → same_ports self (set_inner self nd').
Proof. intros Hok Hok' Hp Hr. by apply set_inner_ports. Qed.

(** ** Publishers *)

Lemma basic_start_publishing_ok self subject (timeout : D) priority :
  node_ok self → SubjectId_valid subject →
  ∃ nd' r, basic_start_publishing (ETx := ETx) self subject timeout priority = Ret (nd', r) ∧ node_ok nd' ∧
    same_requesters nd' self ∧
    match r with
    | Ok token => subject_id token = subject ∧ ~ publishing self subject ∧
        ∀ s, publishing nd' s ↔ s = subject ∨ publishing self s
    | Err e => same_publishers nd' self ∧ (e = Duplicate ↔ publishing self subject)
    end.
Proof.
  intros Hok Hs. pose proof Hok as ((Hin & _ & Hhb & _) & _ & Hlp & (Hpub & Hrest) & (Hexp & Hexr) & _).
  unfold basic_start_publishing.
  destruct (start_publishing_law (inner_node self) subject timeout priority) as (nd & r & -> & Hok' & Hreq & Hr); [done..|].
  cbn [mbind exec_bind]. destruct r as [token|e].
  2: { destruct Hr as [Hp Hd]. destruct (set_ports_same self nd) as (? & ? & ?); [done..|]. by eexists _, _. }
  destruct Hr as (Ht & Hnew & Hp).
  destruct (insert_into_list_spec (pl_publishers (bn_port_list self)) subject) as (l & Hl & Hlok & Hlist); [done..|].
  change (pl_publishers (bn_port_list (set_inner self nd))) with (pl_publishers (bn_port_list self)). rewrite Hl.
  cbn [mbind exec_bind]. eexists _, _. split; [done|]. split; [|by split; [|by split_and!]].
  apply set_ports_ok; [done|done|apply Hp; by right|apply Hp; by right|by split|]. split; intros s Hsv; cbn.
  - by rewrite Hlist, Hp, Hexp.
  - by rewrite Hexr, (Hreq s).
Qed.

Lemma basic_stop_publishing_ok self token :
  node_ok self → SubjectId_valid (subject_id token) → ~ reserved (Nd := Basic) (subject_id token) →
  ∃ nd', basic_stop_publishing self token = Ret nd' ∧ node_ok nd' ∧ same_requesters nd' self ∧
    ∀ s, publishing nd' s ↔ s ≠ subject_id token ∧ publishing self s.
Proof.
  intros Hok Hs Hres. pose proof Hok as ((Hin & _ & Hhb & _) & _ & Hlp & (Hpub & Hrest) & (Hexp & Hexr) & _).
  unfold basic_stop_publishing.
  destruct (stop_publishing_law (inner_node self) token) as (nd & -> & Hok' & Hreq & Hp);
    [done|done|intros Hr; apply Hres; by right; right|].
  cbn [mbind exec_bind].
  destruct (remove_from_list_spec (pl_publishers (bn_port_list self)) (subject_id token)) as (l & Hl & Hlok & Hlist); [done..|].
  change (pl_publishers (bn_port_list (set_inner self nd))) with (pl_publishers (bn_port_list self)). rewrite Hl.
  cbn [mbind exec_bind]. eexists. split; [done|]. split; [|done].
  apply set_ports_ok; [done|done|apply Hp; split; [|done]|apply Hp; split; [|done]|by split|].
  - intros E. apply Hres. by left.
  - intros E. apply Hres. by right; left.
  - split; intros s Hsv; cbn; [by rewrite Hlist, Hp, Hexp|by rewrite Hexr, (Hreq s)].
Qed.

(** ** Requests *)

Lemma basic_start_sending_requests_ok mem self service (timeout : D) size priority :
  memory_ok mem → node_ok self → ServiceId_valid service →
  ∃ nd' r, basic_start_sending_requests (ERx := ERx) mem self service timeout size priority = Ret (nd', r) ∧
    node_ok nd' ∧ same_publishers nd' self ∧
    match r with
    | Ok token => service_id token = service ∧ ~ requesting self service ∧
        ∀ s, requesting nd' s ↔ s = service ∨ requesting self s
    | Err e => same_requesters nd' self ∧ (e = Duplicate ↔ requesting self service)
    end.
Proof.
  intros Hmem Hok Hs. pose proof Hok as ((Hin & _ & Hhb & _) & _ & Hlp & (Hpub & Hsub & Hcl & Hsv) & (Hexp & Hexr) & _).
  unfold basic_start_sending_requests.
  destruct (start_sending_requests_law mem (inner_node self) service timeout size priority)
    as (nd & r & -> & Hok' & Hp & Hr); [done..|].
  cbn [mbind exec_bind]. destruct r as [token|e].
  2: { destruct Hr as [Hreq Hd]. destruct (set_ports_same self nd) as (? & ? & ?); [done..|]. by eexists _, _. }
  destruct Hr as (Ht & Hnew & Hreq).
  destruct (service_mask_set (pl_clients (bn_port_list self)) service true Hcl Hs) as (m & Hm & Hmok & Hmask).
  change (pl_clients (bn_port_list (set_inner self nd))) with (pl_clients (bn_port_list self)). rewrite Hm.
  cbn [mbind exec_bind]. eexists _, _. split; [done|]. split; [|by split; [|by split_and!]].
  apply set_ports_ok; [done|done|by apply Hp|by apply Hp|by split|]. split; intros s Hv; cbn.
  - by rewrite Hexp, (Hp s).
  - rewrite Hmask, Hreq by done. destruct (Z.eqb_spec s service); [naive_solver|]. rewrite Hexr by done. naive_solver.
Qed.

Lemma basic_stop_sending_requests_ok self token :
  node_ok self → ServiceId_valid (service_id token) →
  ∃ nd', basic_stop_sending_requests self token = Ret nd' ∧ node_ok nd' ∧ same_publishers nd' self ∧
    ∀ s, requesting nd' s ↔ s ≠ service_id token ∧ requesting self s.
Proof.
  intros Hok Hs. pose proof Hok as ((Hin & _ & Hhb & _) & _ & Hlp & (Hpub & Hsub & Hcl & Hsv) & (Hexp & Hexr) & _).
  unfold basic_stop_sending_requests.
  destruct (stop_sending_requests_law (inner_node self) token) as (nd & -> & Hok' & Hp & Hreq); [done..|].
  cbn [mbind exec_bind].
  destruct (service_mask_set (pl_clients (bn_port_list self)) (service_id token) false Hcl Hs) as (m & Hm & Hmok & Hmask).
  change (pl_clients (bn_port_list (set_inner self nd))) with (pl_clients (bn_port_list self)). rewrite Hm.
  cbn [mbind exec_bind]. eexists. split; [done|]. split; [|done].
  apply set_ports_ok; [done|done|by apply Hp|by apply Hp|by split|]. split; intros s Hv; cbn.
  - by rewrite Hexp, (Hp s).
  - rewrite Hmask, Hreq by done. destruct (Z.eqb_spec s (service_id token)); [naive_solver|]. rewrite Hexr by done. naive_solver.
Qed.

(** ** Subscriptions *)

(** The other two lists: a port is listed from the first successful subscription on. *)
Lemma basic_subscribe_message_ok mem self subject size (timeout : D) :
  memory_ok mem → node_ok self → SubjectId_valid subject →
  ∃ nd' r, basic_subscribe_message (ERx := ERx) mem self subject size timeout = Ret (nd', r) ∧ same_ports self nd' ∧
    (∀ s, SubjectId_valid s → (listed (pl_subscribers (bn_port_list nd')) s ↔
       listed (pl_subscribers (bn_port_list self)) s ∨ s = subject ∧ r = Ok tt)).
Proof.
  intros Hmem Hok Hs. pose proof Hok as ((Hin & _ & Hhb & _) & _ & Hlp & (Hpub & Hsub & Hrest) & (Hexp & Hexr) & _).
  unfold basic_subscribe_message.
  destruct (subscribe_message_law mem (inner_node self) subject size timeout) as (nd & r & -> & Hsame); [done..|].
  cbn [mbind exec_bind]. destruct r as [[]|e].
  2: { eexists _, _. split; [done|]. split; [by apply set_inner_ports|]. intros s _. cbn. naive_solver. }
  destruct (insert_into_list_spec (pl_subscribers (bn_port_list self)) subject) as (l & Hl & Hlok & Hlist); [done..|].
  change (pl_subscribers (bn_port_list (set_inner self nd))) with (pl_subscribers (bn_port_list self)). rewrite Hl.
  cbn [mbind exec_bind]. eexists _, _. split; [done|]. pose proof Hsame as (Hok' & Hp & Hr).
  split; [split; [|done]|intros s Hv; cbn; rewrite Hlist by done; naive_solver].
  apply set_ports_ok; [done|done|by apply Hp|by apply Hp|by split|]. by apply (port_list_exact_same _ _ _ Hsame).
Qed.

Lemma basic_subscribe_request_ok mem self service size (timeout : D) :
  memory_ok mem → node_ok self → ServiceId_valid service →
  ∃ nd' r, basic_subscribe_request (ERx := ERx) mem self service size timeout = Ret (nd', r) ∧ same_ports self nd' ∧
    (∀ s, ServiceId_valid s → (service_listed (pl_servers (bn_port_list nd')) s ↔
       service_listed (pl_servers (bn_port_list self)) s ∨ s = service ∧ r = Ok tt)).
Proof.
  intros Hmem Hok Hs. pose proof Hok as ((Hin & _ & Hhb & _) & _ & Hlp & (Hpub & Hsub & Hcl & Hsv) & (Hexp & Hexr) & _).
  unfold basic_subscribe_request.
  destruct (subscribe_request_law mem (inner_node self) service size timeout) as (nd & r & -> & Hsame); [done..|].
  cbn [mbind exec_bind]. destruct r as [[]|e].
  2: { eexists _, _. split; [done|]. split; [by apply set_inner_ports|]. intros s _. cbn. naive_solver. }
  destruct (service_mask_set (pl_servers (bn_port_list self)) service true Hsv Hs) as (m & Hm & Hmok & Hmask).
  change (pl_servers (bn_port_list (set_inner self nd))) with (pl_servers (bn_port_list self)). rewrite Hm.
  cbn [mbind exec_bind]. eexists _, _. split; [done|]. pose proof Hsame as (Hok' & Hp & Hr).
  split; [split; [|done]|].
  - apply set_ports_ok; [done|done|by apply Hp|by apply Hp|by split|]. by apply (port_list_exact_same _ _ _ Hsame).
  - intros s Hv. cbn. rewrite Hmask by done. destruct (Z.eqb_spec s service); naive_solver.
Qed.

#[global] Instance basic_node_spec : NodeSpec Basic Tgt I D N T ETx ERx (Node0 := basic_node).
Proof.
  split.
  - intros Hd ? ? mem nd h Hmem Hok Hready Hh. cbn. unfold basic_receive. pose proof Hok as ((Hin & _) & _ & _ & _ & _ & _ & Hinfo).
    destruct (receive_keeps mem (inner_node nd) (chain (mkNodeInfoHandler (bn_node_info nd)) h))
      as (nd' & h' & r & -> & [_ Hh'] & Hsame); [done..|]. cbn.
    eexists _, _, _. split; [done|]. split; [done|]. by apply set_inner_ports.
  - apply basic_start_publishing_ok.
  - apply basic_stop_publishing_ok.
  - intros M ? ? ? mem nd token payload Hmem Hok Hp Hv. cbn. unfold basic_publish.
    destruct (publish_law mem (inner_node nd) token payload) as (nd' & r & -> & Hsame); [done|apply Hok|done|done|]. cbn.
    eexists _, _. split; [done|]. by apply set_inner_ports.
  - apply basic_start_sending_requests_ok.
  - apply basic_stop_sending_requests_ok.
  - intros M ? ? ? mem nd token payload destination Hmem Hok Hr Hv Hd. cbn. unfold basic_send_request.
    destruct (send_request_law mem (inner_node nd) token payload destination) as (nd' & r & -> & Hsame); [done|apply Hok|done..|].
    cbn. eexists _, _. split; [done|]. by apply set_inner_ports.
  - intros mem nd subject size timeout Hmem Hok Hs.
    destruct (basic_subscribe_message_ok mem nd subject size timeout Hmem Hok Hs) as (nd' & r & ? & ? & _). by eexists _, _.
  - intros mem nd service size timeout Hmem Hok Hs.
    destruct (basic_subscribe_request_ok mem nd service size timeout Hmem Hok Hs) as (nd' & r & ? & ? & _). by eexists _, _.
  - intros M ? ? ? mem nd token timeout payload Hmem Hok Ht Hv. cbn. unfold basic_send_response.
    destruct (send_response_law mem (inner_node nd) token timeout payload) as (nd' & r & -> & Hsame); [done|apply Hok|done..|].
    cbn. eexists _, _. split; [done|]. by apply set_inner_ports.
  - intros nd Hok. cbn. unfold basic_flush. destruct (flush_law (inner_node nd)) as (nd' & r & -> & Hsame); [apply Hok|].
    cbn. eexists _, _. split; [done|]. by apply set_inner_ports.
  - intros nd Hok. pose proof Hok as ((Hin & _ & Hhb & _) & _ & Hlp & _).
    destruct (ports_valid (inner_node nd) Hin) as (Hp & Hr & Hres). split_and!; [done|done|].
    intros s [-> |[-> |Hs]]; [done|done|by apply Hres].
Qed.

(** ** Construction *)

Lemma MinimalNode_new_ok (node : Nd) : node_ok node →
  ∃ r, MinimalNode_new (ETx := ETx) node = Ret r ∧
    match r with
    | Ok m => minimal_ok m ∧ same_requesters (mn_node m) node ∧ ~ publishing node heartbeat_SUBJECT ∧
        uptime (mn_heartbeat m) = 0%Z ∧ ∀ s, publishing (mn_node m) s ↔ s = heartbeat_SUBJECT ∨ publishing node s
    | Err e => e = Duplicate ↔ publishing node heartbeat_SUBJECT
    end.
Proof.
  intros Hok. unfold MinimalNode_new. destruct (millis_total 500) as [d ->]; [done|]. cbn [unwrap mbind exec_bind].
  destruct (start_publishing_law node heartbeat_SUBJECT d Nominal Hok heartbeat_SUBJECT_valid)
    as (nd & r & -> & Hok' & Hreq & Hr). cbn [mbind exec_bind]. destruct r as [token|e]; [|eexists; split; [done|apply Hr]].
  destruct Hr as (Ht & Hnew & Hp). eexists. split; [done|]. split; [|by split_and!].
  split_and!; cbn; [done|done|apply Hp; by left|]. unfold is_u. lia.
Qed.

Lemma new_port_list : ∃ clients servers,
  BitArray_new 64 512 = Ret clients ∧
  (servers ← BitArray_new 64 512; ba_set servers (bit_index get_info_SERVICE) true) = Ret servers ∧
  services_ok (mkServiceIDList clients) ∧ services_ok (mkServiceIDList servers) ∧
  (∀ s, ~ service_listed (mkServiceIDList clients) s) ∧
  ∀ s, ServiceId_valid s → (service_listed (mkServiceIDList servers) s ↔ s = get_info_SERVICE).
Proof.
  destruct (empty_mask_ok 64 512) as (m & -> & Hm & Hl & Hb); [lia|]. cbn [mbind exec_bind].
  destruct (service_mask_set (mkServiceIDList m) get_info_SERVICE true) as (m' & Hset & Hm' & Hb');
    [by split|by vm_compute|]. exists m, m'. split; [done|]. split; [done|]. split; [done|]. split; [done|]. split.
  - intros s. unfold service_listed. cbn. by rewrite Hb.
  - intros s Hs. rewrite Hb' by done. unfold service_listed. cbn. rewrite Hb.
    destruct (Z.eqb_spec s get_info_SERVICE); naive_solver.
Qed.

Lemma BasicNode_new_ok mem (node : Nd) (info : Info) : memory_ok mem → node_ok node → serializable info →
  (∀ s, ~ publishing node s) → (∀ s, ~ requesting node s) →
  ∃ r, BasicNode_new (ETx := ETx) (ERx := ERx) mem node info = Ret r ∧
    match r with
    | Ok b => node_ok b ∧ (∀ s, publishing b s ↔ s = heartbeat_SUBJECT ∨ s = list_SUBJECT) ∧
        (∀ s, ~ requesting b s) ∧ (∀ s, ~ listed (pl_subscribers (bn_port_list b)) s) ∧
        (∀ s, ServiceId_valid s → (service_listed (pl_servers (bn_port_list b)) s ↔ s = get_info_SERVICE)) ∧
        uptime (mn_heartbeat (bn_node b)) = 0%Z ∧ bn_seconds_since_port_list_published b = 0%Z
    | Err e => e ≠ NodeTransmitter Duplicate
    end.
Proof.
  intros Hmem Hok Hinfo Hnp Hnr. unfold BasicNode_new, milliseconds.
  destruct (millis_total 1000) as [d ->]; [done|]. cbn [unwrap mbind exec_bind].
  destruct (subscribe_request_law mem node get_info_SERVICE 0 d Hmem Hok get_info_SERVICE_valid)
    as (nd1 & r & -> & Hok1 & Hp1 & Hr1). cbn [mbind exec_bind]. destruct r as [[]|e]; [|by eexists].
  destruct (start_publishing_law nd1 list_SUBJECT d Optional Hok1 list_SUBJECT_valid)
    as (nd2 & r & -> & Hok2 & Hr2 & Hp2). cbn [mbind exec_bind]. destruct r as [token|e].
  2: { eexists. split; [done|]. intros [= ->]. by apply (Hnp list_SUBJECT), Hp1, Hp2. }
  destruct Hp2 as (Ht & _ & Hp2). destruct (MinimalNode_new_ok nd2 Hok2) as (r & -> & Hr). cbn [mbind exec_bind].
  destruct r as [m|e].
  2: { eexists. split; [done|]. intros [= E].
    apply Hr, Hp2 in E as [E|E]; [by vm_compute in E|by apply (Hnp heartbeat_SUBJECT), Hp1]. }
  destruct Hr as (Hm & Hr3 & _ & Hup & Hp3).
  destruct new_port_list as (clients & servers & Hc & Hsv & Hcok & Hsok & Hcl & Hsl).
  rewrite Hc in *. cbn [mbind exec_bind] in Hsv.
  change (sparse_push [] (mkSubjectID heartbeat_SUBJECT)) with (Some [mkSubjectID heartbeat_SUBJECT]).
  cbn [unwrap mbind exec_bind].
  change (sparse_push [mkSubjectID heartbeat_SUBJECT] (mkSubjectID list_SUBJECT)) with
    (Some [mkSubjectID heartbeat_SUBJECT; mkSubjectID list_SUBJECT]). cbn [unwrap mbind exec_bind].
  rewrite Hsv. cbn [mbind exec_bind].
  assert (Hpub : ∀ s, publishing (mn_node m) s ↔ s = heartbeat_SUBJECT ∨ s = list_SUBJECT).
  { intros s. rewrite Hp3, Hp2, (Hp1 s). specialize (Hnp s). naive_solver. }
  assert (Hreq : ∀ s, ~ requesting (mn_node m) s) by (intros s Hs; by apply (Hnr s), Hr1, Hr2, Hr3).
  eexists. split; [done|]. split; [|by split; [|split; [|split; [intros s Hs%not_elem_of_nil|]]]].
  split; [done|]. split; [done|]. split; [by apply Hpub; right|]. split.
  { split; [|split; [|done]]; cbn; (split; [unfold SPARSE_CAPACITY; lia|]).
    - split.
      + apply NoDup_cons. split; [|apply NoDup_singleton].
        intros E%list_elem_of_singleton. vm_compute in E. done.
      + apply Forall_cons. split; [apply heartbeat_SUBJECT_valid|]. apply Forall_singleton, list_SUBJECT_valid.
    - split; constructor. }
  split; [|done]. split; intros s Hs; cbn.
  - rewrite Hpub, !elem_of_cons, elem_of_nil. naive_solver.
  - split; [by intros ?%Hcl|by intros ?%Hreq].
Qed.

(** ** Every second *)

Definition next_heartbeat (h : Heartbeat) : Heartbeat :=
  mkHeartbeat (saturating_add (uptime h) 1) (health h) (mode h) (vendor_specific_status_code h).

Lemma set_heartbeat_ports self h : node_ok self → is_u 8 (vendor_specific_status_code h) →
  same_ports self (set_minimal self (set_heartbeat (bn_node self) h)).
Proof. intros ((Hok & Ht & Hhb & Hst) & Hrest) Hh. split; [|done]. by split. Qed.

Lemma set_seconds_ports self n : node_ok self → (0 ≤ n ≤ 10)%Z → same_ports self (set_seconds self n).
Proof.
  intros (Hm & Hlt & Hlp & Hpl & Hex & Hsec & Hinfo) Hn. split; [|done].
  split; [done|]. split; [done|]. split; [done|]. split; [done|]. split; [done|]. by split.
Qed.

Lemma basic_publish_ok {M} `{SerializeSpec M} mem self token (payload : M) : memory_ok mem → node_ok self →
  publishing (inner_node self) (subject_id token) → serializable payload →
  ∃ nd r, node_publish mem (inner_node self) token payload = Ret (nd, r) ∧ same_ports self (set_inner self nd).
Proof.
  intros Hmem Hok Hp Hv. destruct (publish_law mem (inner_node self) token payload Hmem (proj1 (proj1 Hok)) Hp Hv)
    as (nd & r & Heq & Hs). exists nd, r. split; [done|]. by apply set_inner_ports.
Qed.

(** One second: the next heartbeat goes out; when this succeeds, the port list follows in the
    seconds in which it is due. *)
Lemma run_per_second_tasks_ok mem self : memory_ok mem → node_ok self →
  ∃ self' r nd r1, run_per_second_tasks p mem self = Ret (self', r) ∧ same_ports self self' ∧
    bn_port_list self' = bn_port_list self ∧
    mn_heartbeat (bn_node self') = next_heartbeat (mn_heartbeat (bn_node self)) ∧
    node_publish (first_part mem) (inner_node self) (mn_heartbeat_token (bn_node self))
      (next_heartbeat (mn_heartbeat (bn_node self))) = Ret (nd, r1) ∧
    match r1 with
    | Err e => r = Err e ∧ inner_node self' = nd ∧
        bn_seconds_since_port_list_published self' = bn_seconds_since_port_list_published self
    | Ok _ =>
        if (bn_seconds_since_port_list_published self =? 10)%Z then
          node_publish (second_part mem) nd (bn_port_list_token self) (bn_port_list self) = Ret (inner_node self', r) ∧
          bn_seconds_since_port_list_published self' = 1%Z
        else r = Ok tt ∧ inner_node self' = nd ∧
          bn_seconds_since_port_list_published self' = (bn_seconds_since_port_list_published self + 1)%Z
    end.
Proof.
  intros Hmem Hok. unfold run_per_second_tasks, minimal_run_per_second_tasks, send_heartbeat.
  set (h := next_heartbeat (mn_heartbeat (bn_node self))). set (self1 := set_minimal self (set_heartbeat (bn_node self) h)).
  pose proof Hok as ((Hin & Htok & Hhb & Hst) & Hltok & Hlp & Hpl & _ & Hsec & _).
  pose proof (set_heartbeat_ports self h Hok Hst) as Hs1. fold self1 in Hs1.
  destruct (basic_publish_ok (first_part mem) self1 (mn_heartbeat_token (bn_node self)) h) as (nd & r1 & Hpub1 & Hs2);
    [by apply first_part_ok|apply Hs1|by rewrite Htok|done|].
  change (mn_node (set_heartbeat (bn_node self) _)) with (inner_node self1).
  change (mn_heartbeat_token (set_heartbeat (bn_node self) _)) with (mn_heartbeat_token (bn_node self)).
  change (mn_heartbeat (set_heartbeat (bn_node self) _)) with h. rewrite Hpub1. cbn [mbind exec_bind].
  change (set_minimal self (set_node (set_heartbeat (bn_node self) _) nd)) with (set_inner self1 nd).
  pose proof (same_ports_trans _ _ _ Hs1 Hs2) as Hs3. set (self2 := set_inner self1 nd) in *.
  destruct r1 as [[]|e]; [|by eexists self2, _, nd, _]. cbn [bn_seconds_since_port_list_published self2 set_inner set_minimal self1].
  destruct (Z.eqb_spec (bn_seconds_since_port_list_published self) 10) as [E|E].
  - pose proof (set_seconds_ports self2 1 (proj1 Hs3) ltac:(lia)) as Hs4. unfold publish_port_list.
    destruct (basic_publish_ok (second_part mem) (set_seconds self2 1) (bn_port_list_token self) (bn_port_list self))
      as (nd' & r & Hpub' & Hs5); [by apply second_part_ok|apply Hs4| |done|].
    { rewrite Hltok. by destruct (proj1 Hs4) as (_ & _ & Hx & _). }
    change (bn_port_list_token (set_seconds self2 1)) with (bn_port_list_token self).
    change (bn_port_list (set_seconds self2 1)) with (bn_port_list self). rewrite Hpub'. cbn [mbind exec_bind].
    eexists _, _, nd, _. split; [done|]. split; [by eapply same_ports_trans; [exact Hs3|eapply same_ports_trans; [exact Hs4|]]|done].
  - rewrite arith_ok by (unfold is_u; lia). cbn [mbind exec_bind]. eexists _, _, nd, _. split; [done|].
    split; [eapply same_ports_trans; [exact Hs3|]; by apply set_seconds_ports; [apply Hs3|lia]|done].
Qed.

(** *** The schedule *)

(** The node as time goes by, one memory for each second. *)
Fixpoint run_seconds (mems : list memory) (self : Basic) : exec (Basic * list (result (nb_error ETx) unit)) :=
  match mems with
  | [] => Ret (self, [])
  | mem :: mems =>
      '(self, r) ← run_per_second_tasks p mem self;
      '(self, rs) ← run_seconds mems self;
      Ret (self, r :: rs)
  end.

(** The port list is due after each ten heartbeats. *)
Definition port_list_due (sent : nat) : bool := negb (sent =? 0) && (sent mod 10 =? 0).

(** The heartbeat [i] seconds after [h]. *)
Definition heartbeat_after (h : Heartbeat) (i : nat) : Heartbeat :=
  mkHeartbeat (Z.min (uptime h + Z.of_nat i) (2 ^ 32 - 1)) (health h) (mode h) (vendor_specific_status_code h).

(** The schedule: what the wrapped node is asked to publish after [i] seconds, of which [sent]
    sent their heartbeat without an error. *)
Fixpoint schedule (h : Heartbeat) (l : PortList) (mems : list memory) (i sent : nat) (nd : Nd)
    : exec (Nd * list (result (nb_error ETx) unit)) :=
  match mems with
  | [] => Ret (nd, [])
  | mem :: mems =>
      '(nd, r1) ← node_publish (first_part mem) nd (mkPublishToken heartbeat_SUBJECT) (heartbeat_after h (S i));
      '(nd, r) ←
        (if is_ok r1 && port_list_due sent then
           node_publish (second_part mem) nd (mkPublishToken list_SUBJECT) l
         else Ret (nd, r1));
      '(nd, rs) ← schedule h l mems (S i) (if is_ok r1 then S sent else sent) nd;
      Ret (nd, r :: rs)
  end.

(** The counter after [sent] successful heartbeats. *)
Definition seconds_after (sent : nat) : u8 := if sent =? 0 then 0%Z else Z.of_nat ((sent - 1) mod 10 + 1).

Lemma next_heartbeat_after h i : next_heartbeat (heartbeat_after h i) = heartbeat_after h (S i).
Proof. unfold next_heartbeat, heartbeat_after, saturating_add. cbn [uptime health mode vendor_specific_status_code]. f_equal. lia. Qed.

Lemma seconds_after_due sent : (seconds_after sent =? 10)%Z = port_list_due sent.
Proof.
  unfold seconds_after, port_list_due. destruct (Nat.eqb_spec sent 0); cbn [negb andb]; [done|].
  apply eq_true_iff_eq. rewrite Z.eqb_eq, Nat.eqb_eq. dlia.
Qed.

Lemma seconds_after_S sent :
  seconds_after (S sent) = if port_list_due sent then 1%Z else (seconds_after sent + 1)%Z.
Proof.
  unfold seconds_after, port_list_due. cbn [Nat.eqb]. replace (S sent - 1) with sent by lia.
  destruct (Nat.eqb_spec sent 0) as [->|Hs]; cbn [negb andb]; [done|].
  destruct (Nat.eqb_spec (sent mod 10) 0); dlia.
Qed.

Lemma token_eta t s : subject_id t = s → t = mkPublishToken s.
Proof. destruct t. by intros <-. Qed.

Lemma run_seconds_schedule h mems : ∀ self i sent, Forall memory_ok mems → node_ok self →
  mn_heartbeat (bn_node self) = heartbeat_after h i →
  bn_seconds_since_port_list_published self = seconds_after sent →
  ∃ self' rs, run_seconds mems self = Ret (self', rs) ∧ same_ports self self' ∧
    bn_port_list self' = bn_port_list self ∧
    schedule h (bn_port_list self) mems i sent (inner_node self) = Ret (inner_node self', rs) ∧
    mn_heartbeat (bn_node self') = heartbeat_after h (i + length mems).
Proof.
  induction mems as [|mem mems IH]; intros self i sent Hmems Hok Hh Hsec; cbn [run_seconds schedule].
  { eexists self, []. rewrite Nat.add_0_r. split; [done|]. split; [by apply same_ports_refl|done]. }
  apply Forall_cons in Hmems as [Hmem Hmems].
  destruct (run_per_second_tasks_ok mem self Hmem Hok) as (self1 & r & nd & r1 & -> & Hs1 & Hl & Hh1 & Hpub & Hr).
  cbn [mbind exec_bind]. pose proof Hok as ((_ & Htok%token_eta & _) & Hltok%token_eta & _).
  rewrite Hh, next_heartbeat_after in Hh1, Hpub. rewrite Htok in Hpub. rewrite Hpub.
  cbn [mbind exec_bind]. rewrite Hsec, seconds_after_due in Hr. rewrite Hltok in Hr.
  assert (Hstep : (if is_ok r1 && port_list_due sent then
      node_publish (second_part mem) nd (mkPublishToken list_SUBJECT) (bn_port_list self)
      else Ret (nd, r1)) = Ret (inner_node self1, r) ∧
    bn_seconds_since_port_list_published self1 = seconds_after (if is_ok r1 then S sent else sent)).
  { destruct r1 as [[]|e]; cbn [is_ok andb]; [rewrite seconds_after_S; destruct (port_list_due sent)|];
      [|by destruct Hr as (-> & -> & ->)..]. by destruct Hr as [-> ->]. }
  destruct Hstep as [-> Hsec1]. cbn [mbind exec_bind].
  destruct (IH self1 (S i) (if is_ok r1 then S sent else sent) Hmems (proj1 Hs1) Hh1 Hsec1)
    as (self2 & rs & -> & Hs2 & Hl2 & Hsch & Hh2). cbn [mbind exec_bind]. rewrite <- Hl, Hsch. cbn [mbind exec_bind].
  eexists self2, _. cbn [length]. split; [done|]. split; [by eapply same_ports_trans|].
  split; [done|]. split; [done|]. by rewrite Nat.add_succ_r.
Qed.
End basic.
