(* ===== verification/NodeRun.v ===== *)
(** * Runs of an application on a node

    An application calls the operations of a node in any order, with the tokens that it was
    given and has not given back: the type system of the program enforces this, as tokens
    cannot be made or copied by the application. [reachable] are the states of such runs. *)

From S2P Require Import Prelude CoreTypes Time Transfer Transport SessionTracker EncCursor EncFields.
From S2P Require Import Node NodeSend NodeCore NodeSpec NodeSpecCore.

Section run.
Context {Nd Tgt I D N T ETx ERx : Type} `{NodeSpec Nd Tgt I D N T ETx ERx}.
(** The type of the messages, requests and responses, and the handler. *)
Context {M : Type} `{SerializeSpec M} {Hd : Type} `{!TransferHandler Hd Tgt I N T, !HandlerSpec Hd Tgt I N T}.

Inductive NodeOp :=
| OpReceive (mem : memory)
| OpStartPublishing (subject : SubjectId) (timeout : D) (priority : Priority)
| OpStopPublishing (token : PublishToken)
| OpPublish (mem : memory) (token : PublishToken) (payload : M)
| OpStartRequests (mem : memory) (service : ServiceId) (timeout : D) (size : usize) (priority : Priority)
| OpStopRequests (token : ServiceToken)
| OpSendRequest (mem : memory) (token : ServiceToken) (payload : M) (destination : N)
| OpSubscribeMessage (mem : memory) (subject : SubjectId) (size : usize) (timeout : D)
| OpSubscribeRequest (mem : memory) (service : ServiceId) (size : usize) (timeout : D)
| OpSendResponse (mem : memory) (token : ResponseToken N T) (timeout : D) (payload : M)
| OpFlush
(** what the program does with the node beyond the trait, such as its tasks of every second *)
| OpOther (f : Nd → exec Nd).

Record Application := mkApplication {
  app_node : Nd;
  app_handler : Hd;
  app_publish_tokens : list PublishToken;
  app_service_tokens : list ServiceToken;
}.

Definition set_app_node (a : Application) (nd : Nd) : Application :=
  mkApplication nd (app_handler a) (app_publish_tokens a) (app_service_tokens a).

Definition without_subject (s : SubjectId) (l : list PublishToken) : list PublishToken :=
  List.filter (λ t, negb (subject_id t =? s)%Z) l.
Definition without_service (s : ServiceId) (l : list ServiceToken) : list ServiceToken :=
  List.filter (λ t, negb (service_id t =? s)%Z) l.

Definition perform (op : NodeOp) (a : Application) : exec Application :=
  let nd := app_node a in
  match op with
  | OpReceive mem =>
      '(nd, h, _) ← node_receive mem nd (app_handler a);
      Ret (mkApplication nd h (app_publish_tokens a) (app_service_tokens a))
  | OpStartPublishing subject timeout priority =>
      '(nd, r) ← node_start_publishing nd subject timeout priority;
      Ret (mkApplication nd (app_handler a)
        (match r with Ok token => token :: app_publish_tokens a | Err _ => app_publish_tokens a end)
        (app_service_tokens a))
  | OpStopPublishing token =>
      nd ← node_stop_publishing nd token;
      Ret (mkApplication nd (app_handler a) (without_subject (subject_id token) (app_publish_tokens a))
        (app_service_tokens a))
  | OpPublish mem token payload => '(nd, _) ← node_publish mem nd token payload; Ret (set_app_node a nd)
  | OpStartRequests mem service timeout size priority =>
      '(nd, r) ← node_start_sending_requests mem nd service timeout size priority;
      Ret (mkApplication nd (app_handler a) (app_publish_tokens a)
        (match r with Ok token => token :: app_service_tokens a | Err _ => app_service_tokens a end))
  | OpStopRequests token =>
      nd ← node_stop_sending_requests nd token;
      Ret (mkApplication nd (app_handler a) (app_publish_tokens a)
        (without_service (service_id token) (app_service_tokens a)))
  | OpSendRequest mem token payload destination =>
      '(nd, _) ← node_send_request mem nd token payload destination; Ret (set_app_node a nd)
  | OpSubscribeMessage mem subject size timeout =>
      '(nd, _) ← node_subscribe_message mem nd subject size timeout; Ret (set_app_node a nd)
  | OpSubscribeRequest mem service size timeout =>
      '(nd, _) ← node_subscribe_request mem nd service size timeout; Ret (set_app_node a nd)
  | OpSendResponse mem token timeout payload =>
      '(nd, _) ← node_send_response mem nd token timeout payload; Ret (set_app_node a nd)
  | OpFlush => '(nd, _) ← node_flush nd; Ret (set_app_node a nd)
  | OpOther f => nd ← f nd; Ret (set_app_node a nd)
  end.

(** Code that returns a consistent node with the same ports. *)
Definition keeps_ports (f : Nd → exec Nd) : Prop := ∀ nd, node_ok nd → ∃ nd', f nd = Ret nd' ∧ same_ports nd nd'.

(** What an application can do in a state: the tokens are its own, identifiers are in the
    ranges of their types. *)
Definition op_ok (op : NodeOp) (a : Application) : Prop :=
  match op with
  | OpReceive mem => memory_ok mem ∧ node_ready (app_node a)
  | OpStartPublishing subject _ _ => SubjectId_valid subject
  | OpStopPublishing token => token ∈ app_publish_tokens a
  | OpPublish mem token payload =>
      memory_ok mem ∧ token ∈ app_publish_tokens a ∧ serializable payload
  | OpStartRequests mem service _ _ _ => memory_ok mem ∧ ServiceId_valid service
  | OpStopRequests token => token ∈ app_service_tokens a
  | OpSendRequest mem token payload destination =>
      memory_ok mem ∧ token ∈ app_service_tokens a ∧ serializable payload ∧ node_id_valid destination
  | OpSubscribeMessage mem subject _ _ => memory_ok mem ∧ SubjectId_valid subject
  | OpSubscribeRequest mem service _ _ => memory_ok mem ∧ ServiceId_valid service
  | OpSendResponse mem token _ payload => memory_ok mem ∧ token_ok token ∧ serializable payload
  | OpFlush => True
  | OpOther f => keeps_ports f
  end.

Inductive reachable (a : Application) : Application → Prop :=
| reachable_refl : reachable a a
| reachable_step b op c : reachable a b → op_ok op b → perform op b = Ret c → reachable a c.

(** Every token stands for a publisher or requester of its own. *)
Definition tokens_ok (a : Application) : Prop :=
  node_ok (app_node a) ∧ handler_ok (app_handler a) ∧
  (∀ s, s ∈ subject_id <$> app_publish_tokens a ↔ publishing (app_node a) s ∧ ~ reserved (Nd := Nd) s) ∧
  (∀ s, s ∈ service_id <$> app_service_tokens a ↔ requesting (app_node a) s).

Lemma token_subject t (l : list PublishToken) : t ∈ l → subject_id t ∈ subject_id <$> l.
Proof. apply list_elem_of_fmap_2. Qed.
Lemma token_service t (l : list ServiceToken) : t ∈ l → service_id t ∈ service_id <$> l.
Proof. apply list_elem_of_fmap_2. Qed.

Lemma without_subject_spec s l x :
  x ∈ subject_id <$> without_subject s l ↔ x ≠ s ∧ x ∈ subject_id <$> l.
Proof.
  induction l as [|t l IH]; cbn; [set_solver|].
  destruct (Z.eqb_spec (subject_id t) s); cbn; rewrite ?elem_of_cons, ?IH; naive_solver.
Qed.
Lemma without_service_spec s l x :
  x ∈ service_id <$> without_service s l ↔ x ≠ s ∧ x ∈ service_id <$> l.
Proof.
  induction l as [|t l IH]; cbn; [set_solver|].
  destruct (Z.eqb_spec (service_id t) s); cbn; rewrite ?elem_of_cons, ?IH; naive_solver.
Qed.

Lemma tokens_same_ports a nd : tokens_ok a → same_ports (app_node a) nd → tokens_ok (set_app_node a nd).
Proof.
  intros (_ & Hh & Hp & Hs) (Hok & Hp' & Hs'). split_and!; [done|done|intros s; cbn; by rewrite Hp, (Hp' s)|
    intros s; cbn; by rewrite Hs, (Hs' s)].
Qed.

Lemma perform_ok op a : tokens_ok a → op_ok op a → ∃ b, perform op a = Ret b ∧ tokens_ok b.
Proof.
  intros Ha Hop. destruct (Ha) as (Hok & Hh & Hp & Hs).
  assert (Hport : ∀ nd, same_ports (app_node a) nd → tokens_ok (set_app_node a nd))
    by (intros nd; by apply tokens_same_ports).
  destruct op as [mem|s t pr|tok|mem tok v|mem s t n pr|tok|mem tok v n|mem s n t|mem s n t|mem tok t v| |f];
    cbn in Hop; cbn.
  - destruct Hop as [Hm Hr].
    destruct (receive_keeps mem (app_node a) (app_handler a)) as (nd & h & r & -> & Hh' & Hsame); [done..|].
    eexists. split; [done|]. destruct (Hport nd Hsame) as (? & _ & ? & ?). by split_and!.
  - destruct (start_publishing_law (app_node a) s t pr) as (nd & r & -> & Hok' & Hreq & Hr); [done..|].
    eexists. split; [done|]. split_and!; [done|done| |intros x; cbn; by rewrite Hs, (Hreq x)].
    intros x. destruct r as [tok|e]; cbn.
    + destruct Hr as (<- & Hnew & Hpub). rewrite elem_of_cons, Hpub, Hp.
      assert (~ reserved (Nd := Nd) (subject_id tok)) by (intros Hres; by apply Hnew, (ports_valid (app_node a))).
      naive_solver.
    + destruct Hr as [Hpub _]. by rewrite Hp, (Hpub x).
  - apply token_subject, Hp in Hop as [Hop Hres].
    destruct (stop_publishing_law (app_node a) tok) as (nd & -> & Hok' & Hreq & Hpub);
      [done|by apply (ports_valid (app_node a))|done|].
    eexists. split; [done|]. split_and!; [done|done| |intros x; cbn; by rewrite Hs, (Hreq x)].
    intros x. cbn. rewrite without_subject_spec, Hpub, Hp. naive_solver.
  - destruct Hop as (Hm & [Ht _]%token_subject%Hp & Hv).
    destruct (publish_law mem (app_node a) tok v) as (nd & r & -> & Hsame); [done..|].
    eexists. split; [done|]. by apply Hport.
  - destruct Hop as [Hm Hv].
    destruct (start_sending_requests_law mem (app_node a) s t n pr) as (nd & r & -> & Hok' & Hpub & Hr); [done..|].
    eexists. split; [done|]. split_and!; [done|done|intros x; cbn; by rewrite Hp, (Hpub x)|].
    intros x. destruct r as [tok|e]; cbn.
    + destruct Hr as (<- & _ & Hreq). by rewrite elem_of_cons, Hreq, Hs.
    + destruct Hr as [Hreq _]. by rewrite Hs, (Hreq x).
  - apply token_service, Hs in Hop.
    destruct (stop_sending_requests_law (app_node a) tok) as (nd & -> & Hok' & Hpub & Hreq);
      [done|by apply (ports_valid (app_node a))|].
    eexists. split; [done|]. split_and!; [done|done|intros x; cbn; by rewrite Hp, (Hpub x)|].
    intros x. cbn. by rewrite without_service_spec, Hreq, Hs.
  - destruct Hop as (Hm & Ht%token_service%Hs & Hv & Hn).
    destruct (send_request_law mem (app_node a) tok v n) as (nd & r & -> & Hsame); [done..|].
    eexists. split; [done|]. by apply Hport.
  - destruct Hop as [Hm Hv].
    destruct (subscribe_message_law mem (app_node a) s n t) as (nd & r & -> & Hsame); [done..|].
    eexists. split; [done|]. by apply Hport.
  - destruct Hop as [Hm Hv].
    destruct (subscribe_request_law mem (app_node a) s n t) as (nd & r & -> & Hsame); [done..|].
    eexists. split; [done|]. by apply Hport.
  - destruct Hop as (Hm & Ht & Hv).
    destruct (send_response_law mem (app_node a) tok t v) as (nd & r & -> & Hsame); [done..|].
    eexists. split; [done|]. by apply Hport.
  - destruct (flush_law (app_node a) Hok) as (nd & r & -> & Hsame).
    eexists. split; [done|]. by apply Hport.
  - destruct (Hop (app_node a) Hok) as (nd & -> & Hsame). eexists. split; [done|]. by apply Hport.
Qed.

Lemma reachable_ok a b : tokens_ok a → reachable a b → tokens_ok b.
Proof.
  intros Ha. induction 1 as [|b op c Hb IH Hop Hc]; [done|].
  destruct (perform_ok op b IH Hop) as (c' & Hc' & Hok). congruence.
Qed.
End run.

(** ** What a node sends

    A recorder around any driver keeps the transfers that are given to the transmitter. With
    it, the transfers that the core node sends are exact: headers, numbers and payloads. *)

Record Recorder (Tr Drv : Type) := mkRecorder { rec_driver : Drv; rec_sent : list Tr }.
Arguments mkRecorder {Tr Drv}.
Arguments rec_driver {Tr Drv}.
Arguments rec_sent {Tr Drv}.

Section recorder.
Context {Tx Rx C I D N T Drv ETx ERx : Type}.
Context `{TransportSpec N T, !Transmitter Tx C I N T Drv ETx, !Receiver Rx I D N T Drv ERx}.
Context `{!LinkSpec Tx Rx C I D N T Drv ETx ERx}.

Abbreviation Rec := (Recorder (Transfer (list u8) I N T) Drv).

#[global] Instance rec_transmitter : Transmitter Tx C I N T Rec ETx := {
  transmit_push mem tx tr c d :=
    '(tx, c, drv, r) ← transmit_push mem tx tr c (rec_driver d);
    Ret (tx, c, mkRecorder drv (rec_sent d ++ [tr]), r);
  transmit_flush tx c d :=
    '(tx, c, drv, r) ← transmit_flush tx c (rec_driver d);
    Ret (tx, c, mkRecorder drv (rec_sent d), r);
  transmit_mtu := transmit_mtu;
  transmit_oom := transmit_oom (Tx := Tx);
}.

(** Receiving through the inner driver. *)
Definition rec_with {A} (d : Rec) (f : Drv → exec (Rx * Drv * A)) : exec (Rx * Rec * A) :=
  '(rx, drv, r) ← f (rec_driver d); Ret (rx, mkRecorder drv (rec_sent d), r).
Definition rec_unit (d : Rec) (f : Drv → exec (Rx * Drv)) : exec (Rx * Rec) :=
  '(rx, drv) ← f (rec_driver d); Ret (rx, mkRecorder drv (rec_sent d)).

#[global] Instance rec_receiver : Receiver Rx I D N T Rec ERx := {
  receiver_receive mem rx now d := rec_with d (receiver_receive mem rx now);
  receiver_subscribe_message mem rx s n t d := rec_with d (receiver_subscribe_message mem rx s n t);
  receiver_unsubscribe_message rx s d := rec_unit d (receiver_unsubscribe_message rx s);
  receiver_subscribe_request mem rx s n t d := rec_with d (receiver_subscribe_request mem rx s n t);
  receiver_unsubscribe_request rx s d := rec_unit d (receiver_unsubscribe_request rx s);
  receiver_subscribe_response mem rx s n t d := rec_with d (receiver_subscribe_response mem rx s n t);
  receiver_unsubscribe_response rx s d := rec_unit d (receiver_unsubscribe_response rx s);
}.

#[global] Program Instance rec_link : LinkSpec Tx Rx C I D N T Rec ETx ERx := {
  link_ok id tx rx d := link_ok id tx rx (rec_driver d);
  link_ready rx d := link_ready rx (rec_driver d);
}.
Next Obligation.
  intros mem id tx rx d c tr Hm Hl Hh Hb. cbn.
  destruct (push_ok mem id tx rx (rec_driver d) c tr) as (tx' & c' & d' & r & -> & Hl'); [done..|]. by eexists _, _, _, _.
Qed.
Next Obligation.
  intros id tx rx d c Hl. cbn.
  destruct (flush_ok id tx rx (rec_driver d) c) as (tx' & c' & d' & r & -> & Hl'); [done..|]. by eexists _, _, _, _.
Qed.
Next Obligation.
  intros mem id tx rx d now Hm Hl Hr. cbn. unfold rec_with.
  destruct (receive_ok mem id tx rx (rec_driver d) now) as (rx' & d' & r & -> & Hl' & Hp); [done..|]. by eexists _, _, _.
Qed.
Next Obligation.
  intros mem id tx rx d s n t Hm Hl Hs. cbn. unfold rec_with.
  destruct (subscribe_message_ok mem id tx rx (rec_driver d) s n t) as (rx' & d' & r & -> & Hl'); [done..|]. by eexists _, _, _.
Qed.
Next Obligation.
  intros mem id tx rx d s n t Hm Hl Hs. cbn. unfold rec_with.
  destruct (subscribe_request_ok mem id tx rx (rec_driver d) s n t) as (rx' & d' & r & -> & Hl'); [done..|]. by eexists _, _, _.
Qed.
Next Obligation.
  intros mem id tx rx d s n t Hm Hl Hs. cbn. unfold rec_with.
  destruct (subscribe_response_ok mem id tx rx (rec_driver d) s n t) as (rx' & d' & r & -> & Hl'); [done..|]. by eexists _, _, _.
Qed.
End recorder.

(** ** Sending through the core node *)

Section sends.
Context {I D N T C Tx Rx Drv ETx ERx R PM RM : Type}.
Context `{Instant I D, Clock C I, TransportSpec N T}.
Context `{!Transmitter Tx C I N T Drv ETx, !Receiver Rx I D N T Drv ERx}.
Context `{!TransferIdTracker R N T, !TransferIdTrackerSpec R N T}.
Context `{!LinkSpec Tx Rx C I D N T Drv ETx ERx}.
Context `{!KeyMap PM SubjectId (Publisher D N T), !KeyMapSpec PM SubjectId (Publisher D N T)}.
Context `{!KeyMap RM ServiceId (Requester D N R), !KeyMapSpec RM ServiceId (Requester D N R)}.
Context (p : profile).
Hypothesis add_total : ∀ (d : D) (t : I), ∃ t', add_instant p d t = Ret t'.

Abbreviation Core := (CoreNode C Tx Rx (Recorder (Transfer (list u8) I N T) Drv) N PM RM).

Definition sent (nd : Core) : list (Transfer (list u8) I N T) := rec_sent (cn_driver nd).

(** The buffer for the payload can be allocated. *)
Definition buffers_available (mem : memory) : Prop := ∀ n, buffer_memory mem n ≠ None.

Definition encoded {M} `{Serialize M} (v : M) (bytes : list u8) : Prop :=
  serialize_to_bytes p v (replicate ((size_bits v + 7) / 8) 0%Z) = Ret bytes.

Lemma do_serialize_available {M} `{SerializeSpec M} {S' R' E'} mem (oom : OutOfMemoryError → E') (st : S')
    (v : M) (op : list u8 → exec (S' * result (nb_error E') R')) : serializable v → buffers_available mem →
  ∃ bytes, encoded v bytes ∧ bytes_ok bytes ∧ do_serialize p (buffer_memory mem) oom st v op = op bytes.
Proof.
  intros Hv Hb. destruct (do_serialize_spec p (buffer_memory mem) oom st v op Hv) as [[[n Hn] _]|(bytes & ? & _ & ? & ?)];
    [by apply Hb in Hn|by exists bytes].
Qed.

Definition next_publisher (pub : Publisher D N T) : Publisher D N T :=
  mkPublisher (transfer_id_increment (pub_next_transfer_id pub)) (pub_timeout pub) (pub_priority pub) (pub_source pub).

Lemma core_publish_sends {M} `{SerializeSpec M} mem (nd : Core) s pub (v : M) :
  memory_ok mem → buffers_available mem → node_ok nd → km_get (cn_publishers nd) s = Some pub → serializable v →
  ∃ nd' r bytes deadline, core_publish p mem nd (mkPublishToken s) v = Ret (nd', r) ∧ node_ok nd' ∧
    add_instant p (pub_timeout pub) (clock_now (cn_clock nd)).2 = Ret deadline ∧ encoded v bytes ∧
    sent nd' = sent nd ++ [mkTransfer (Message (mkMessageHeader deadline (pub_next_transfer_id pub)
      (pub_priority pub) s (Some (cn_node_id nd)))) bytes] ∧
    cn_node_id nd' = cn_node_id nd ∧ km_get (cn_publishers nd') s = Some (next_publisher pub).
Proof.
  intros Hmem Hbuf Hok Hpub Hv. pose proof Hok as (Hl & Hid & Hp & _).
  destruct (Hp _ _ Hpub) as [Hs [Hsrc Htid]]. unfold core_publish, pub_publish. cbn [subject_id].
  rewrite Hpub. cbn [unwrap mbind exec_bind]. destruct (clock_now (cn_clock nd)) as [c1 now] eqn:Hclock. cbn [snd].
  destruct (add_total (pub_timeout pub) now) as [deadline Hd]. rewrite Hd. cbn [mbind exec_bind].
  match goal with |- context [do_serialize p _ ?oom ?st v ?op] =>
    destruct (do_serialize_available mem oom st v op Hv Hbuf) as (bytes & Henc & Hb & ->) end.
  unfold pub_send_payload. set (tr := mkTransfer _ _).
  destruct (push_ok (first_part mem) (cn_node_id nd) (cn_transmitter nd) (cn_receiver nd) (rec_driver (cn_driver nd)) c1 tr)
    as (tx' & c' & d' & r & Hpush & Hl'); [by apply first_part_ok|apply Hl| |done|].
  { split_and!; [done|done|]. intros n [= <-]. cbn. by rewrite Hsrc. }
  cbn [transmit_push rec_transmitter]. rewrite Hpush. cbn [mbind exec_bind].
  eexists _, _, bytes, deadline. split; [done|]. split; [|split; [done|split; [done|split; [|split; [done|]]]]].
  - eapply (same_maps_ports (set_publishers nd (km_alter (cn_publishers nd) s (λ _, next_publisher pub)))); [|done|done].
    apply alter_publisher_ports; [done|]. split; [done|]. by apply transfer_id_increment_valid.
  - unfold sent, tr. cbn. by rewrite Hsrc.
  - cbn. by rewrite km_alter_lookup, decide_True, Hpub by done.
Qed.

(** A sequence of messages on one subject. *)
Fixpoint publish_all {M} `{Serialize M} (nd : Core) (s : SubjectId) (l : list (memory * M)) : exec Core :=
  match l with
  | [] => Ret nd
  | (mem, v) :: l =>
      '(nd, _) ← core_publish p mem nd (mkPublishToken s) v;
      publish_all nd s l
  end.

Definition numbered {M} `{Serialize M} (s : SubjectId) (priority : Priority) (id : N) (k : nat)
    (x : memory * M) (tr : Transfer (list u8) I N T) : Prop :=
  encoded x.2 (tr_payload tr) ∧
  ∃ deadline, tr_header tr = Message (mkMessageHeader deadline (nth_transfer_id k) priority s (Some id)).

Lemma publish_all_numbered {M} `{SerializeSpec M} s (l : list (memory * M)) : ∀ (nd : Core) pub k,
  Forall (λ x, memory_ok x.1 ∧ buffers_available x.1 ∧ serializable x.2) l →
  node_ok nd → km_get (cn_publishers nd) s = Some pub → pub_next_transfer_id pub = nth_transfer_id k →
  ∃ nd' trs, publish_all nd s l = Ret nd' ∧ node_ok nd' ∧ sent nd' = sent nd ++ trs ∧
    length trs = length l ∧
    ∀ i x tr, l !! i = Some x → trs !! i = Some tr → numbered s (pub_priority pub) (cn_node_id nd) (k + i) x tr.
Proof.
  induction l as [|[mem v] l IH]; intros nd pub k Hl Hok Hpub Hk; cbn [publish_all].
  { exists nd, []. rewrite app_nil_r. by split_and!. }
  apply Forall_cons in Hl as [(Hmem & Hbuf & Hv) Hl].
  destruct (core_publish_sends mem nd s pub v Hmem Hbuf Hok Hpub Hv)
    as (nd1 & r & bytes & deadline & -> & Hok1 & Hd & Henc & Hsent & Hid & Hpub1). cbn [mbind exec_bind].
  destruct (IH nd1 (next_publisher pub) (S k) Hl Hok1 Hpub1) as (nd2 & trs & -> & Hok2 & Hsent2 & Hlen & Hnum).
  { cbn. by rewrite Hk. }
  exists nd2, (mkTransfer (Message (mkMessageHeader deadline (pub_next_transfer_id pub) (pub_priority pub) s
    (Some (cn_node_id nd)))) bytes :: trs). split; [done|]. split; [done|]. split.
  { by rewrite Hsent2, Hsent, <- app_assoc. }
  split; [cbn; congruence|]. intros [|i] x tr; cbn.
  - intros [= <-] [= <-]. split; [done|]. exists deadline. by rewrite Nat.add_0_r, <- Hk.
  - intros Hx Htr. rewrite Nat.add_succ_r. rewrite <- Hid. by apply (Hnum i).
Qed.

Lemma core_send_response_sends {M} `{SerializeSpec M} mem (nd : Core) (h : ServiceHeader I N T) (timeout : D) (v : M) :
  memory_ok mem → buffers_available mem → node_ok nd → header_ok (Request h) → serializable v →
  ∃ nd' r bytes deadline, core_send_response p mem nd (response_token h) timeout v = Ret (nd', r) ∧
    add_instant p timeout (clock_now (cn_clock nd)).2 = Ret deadline ∧ encoded v bytes ∧
    sent nd' = sent nd ++ [mkTransfer (Response (mkServiceHeader deadline (sh_transfer_id h) (sh_priority h)
      (sh_service h) (cn_node_id nd) (sh_source h))) bytes].
Proof.
  intros Hmem Hbuf Hok (Hs & Ht & Hsrc & Hdst) Hv. pose proof Hok as (Hl & Hid & _). unfold core_send_response.
  destruct (clock_now (cn_clock nd)) as [c1 now]. destruct (add_total timeout now) as [deadline Hd]. cbn [snd].
  rewrite Hd. cbn [mbind exec_bind].
  match goal with |- context [do_serialize p _ ?oom ?st v ?op] =>
    destruct (do_serialize_available mem oom st v op Hv Hbuf) as (bytes & Henc & Hb & ->) end.
  unfold send_response_payload, response_token. cbn [rt_service rt_client rt_transfer rt_priority]. set (tr := mkTransfer _ _).
  destruct (push_ok (first_part mem) (cn_node_id nd) (cn_transmitter nd) (cn_receiver nd) (rec_driver (cn_driver nd)) c1 tr)
    as (tx' & c' & d' & r & Hpush & Hl'); [by apply first_part_ok|apply Hl| |done|].
  { by split_and!. }
  cbn [transmit_push rec_transmitter cn_transmitter cn_driver set_clock cn_clock]. rewrite Hpush. cbn [mbind exec_bind].
  by eexists _, _, bytes, deadline.
Qed.
End sends.
