(* ===== verification/TransportCan.v ===== *)
(** * Cyphal/CAN as a transport of a node

    The transmitter and the receiver of [canadensis_can] implement [Transmitter] and
    [Receiver], and keep [LinkSpec] over a driver that queues outgoing frames and delivers
    well-formed ones ([CanLinkDriver]), such as [QueueOnlyDriver]. *)

From S2P Require Import Prelude CoreTypes Time Transfer Transport Subscriptions CanTypes CanFraming CanIds.
From S2P Require Import CanRx CanRxSafety CanQueue CanQueueSpec CanTx CanLink.

(** [impl Transport for CanTransport]. *)
#[local] Instance can_transport : Transport CanNodeId CanTransferId := {
  transfer_id_default := CanTransferId_default;
  transfer_id_increment := CanTransferId_increment;
}.

#[local] Program Instance can_transport_spec : TransportSpec CanNodeId CanTransferId := {
  node_id_valid := CanNodeId_valid;
  transfer_id_valid := CanTransferId_valid;
}.
Next Obligation. by vm_compute. Qed.
Next Obligation.
  intros t Ht. cbn in *. unfold CanTransferId_increment, CanTransferId_valid in *.
  unfold VALID_TRANSFER_IDS_end in *. case_cmp; lia.
Qed.

Section can.
Context {I D C Drv E : Type} `{Instant I D, Clock C I, TransmitDriver Drv I E, ReceiveDriver Drv I E}.
Context (fuel : nat).

Definition can_push (mem : memory) (self : CanTransmitter) (transfer : Transfer (list u8) I CanNodeId CanTransferId)
    (clock : C) (driver : Drv) : exec (CanTransmitter * C * Drv * result (nb_error (CanError E)) unit) :=
  let '(clock, now) := clock_now clock in
  '(self, driver, r) ← push self transfer now driver;
  Ret (self, clock, driver, r).

Definition can_flush (self : CanTransmitter) (clock : C) (driver : Drv)
    : exec (CanTransmitter * C * Drv * result (nb_error (CanError E)) unit) :=
  let '(clock, now) := clock_now clock in
  '(driver, r) ← tx_flush driver now;
  Ret (self, clock, driver, r).

#[local] Instance can_transmitter : Transmitter CanTransmitter C I CanNodeId CanTransferId Drv (CanError E) := {
  transmit_push := can_push;
  transmit_flush := can_flush;
  transmit_mtu self := Ret (mtu self);
  transmit_oom := CanMemory;
}.

#[local] Instance can_receiver : Receiver (CanReceiver I D) I D CanNodeId CanTransferId Drv (CanError E) := {
  receiver_receive mem self now driver :=
    match receive fuel (λ n k, mem n k 0) self now driver with Some r => r | None => Panic end;
  receiver_subscribe_message mem := rx_subscribe_message (mem 0 0 0);
  receiver_unsubscribe_message self s := rx_unsubscribe_message self (PortId_from_subject s);
  receiver_subscribe_request mem := rx_subscribe_request (mem 0 0 0);
  receiver_unsubscribe_request self s := rx_unsubscribe_request self (PortId_from_service s);
  receiver_subscribe_response mem := rx_subscribe_response (mem 0 0 0);
  receiver_unsubscribe_response self s := rx_unsubscribe_response self (PortId_from_service s);
}.
End can.

(** What a node on a CAN bus relies on, beyond the queue of outgoing frames: [in_ok] says that
    the frames that wait to be received are well formed, [in_pending] counts them. *)
Class CanLinkDriver (Drv I E : Type) `{TransmitDriver Drv I E, !QueueingDriver Drv I E, !ReceiveDriver Drv I E} := {
  in_ok : Drv → Prop;
  in_pending : Drv → nat;
  in_receive d now : in_ok d → qd_inv d →
    in_ok (drv_receive d now).1 ∧ qd_inv (drv_receive d now).1 ∧
    ∀ f, (drv_receive d now).2 = Ok f → frame_ok f ∧ in_pending (drv_receive d now).1 < in_pending d;
  in_filters d id subs : in_ok d → qd_inv d →
    in_ok (drv_apply_filters d id subs) ∧ qd_inv (drv_apply_filters d id subs);
  in_reserve d n d' r : td_try_reserve d n = Ret (d', r) → in_ok d → in_ok d';
  in_transmit d f now d' r : td_transmit d f now = Ret (d', r) → in_ok d → in_ok d';
  in_flush d now : in_ok d → qd_inv d → ∃ d' r, td_flush d now = Ret (d', r) ∧ in_ok d' ∧ qd_inv d';
}.

Section spec.
Context {I D C Drv E : Type} `{Instant I D, Clock C I, CanLinkDriver Drv I E} (fuel : nat).

(** A push goes through the driver only by reserving and transmitting. *)
Lemma push_frame_keeps ts id data (d : Drv) now d' r :
  push_frame ts id data d now = Ret (d', r) → in_ok d → in_ok d'.
Proof. unfold push_frame. intros Hp Hd. unbind. case_match. unbind. simplify_eq. by eapply in_transmit. Qed.

Lemma push_payload_keeps ts id now bytes : ∀ (d : Drv) bd crc n d' r,
  push_payload ts id now d bd crc n bytes = Ret (d', r) → in_ok d → in_ok d'.
Proof.
  induction bytes as [|b bytes IH]; intros d bd crc n d' r; cbn [push_payload].
  { intros [= <- _]. done. }
  intros Hp Hd. unbind. case_match. case_match; [|by eapply IH]. unbind. case_match.
  match goal with H : push_frame _ _ _ _ _ = _ |- _ => rename H into Hf end.
  case_match; simplify_eq; [|unbind; simplify_eq; by eapply push_frame_keeps].
  eapply IH; [done|]. by eapply push_frame_keeps.
Qed.

Lemma push_crc_keeps ts id now bytes : ∀ (d : Drv) bd d' r,
  push_crc ts id now d bd bytes = Ret (d', r) → in_ok d → in_ok d'.
Proof.
  induction bytes as [|b bytes IH]; intros d bd d' r; cbn [push_crc].
  { intros [= <- _]. done. }
  intros Hp Hd. unbind. case_match. case_match; [|by eapply IH]. unbind. case_match.
  match goal with H : push_frame _ _ _ _ _ = _ |- _ => rename H into Hf end.
  case_match; simplify_eq; [|unbind; simplify_eq; by eapply push_frame_keeps].
  eapply IH; [done|]. by eapply push_frame_keeps.
Qed.

Lemma push_inner_keeps (tx : CanTransmitter) tr now (d : Drv) d' r :
  push_inner tx tr now d = Ret (d', r) → in_ok d → in_ok d'.
Proof.
  unfold push_inner. intros Hp Hd. unbind. case_match. unbind.
  match goal with H : td_try_reserve _ _ = Ret (?d0, _) |- _ =>
    assert (Hd0 : in_ok d0) by by eapply in_reserve end.
  case_match; [|unbind; by simplify_eq]. unbind. case_match. unbind.
  match goal with H : push_payload _ _ _ _ _ _ _ _ = _ |- _ => eapply push_payload_keeps in H; [|done] end.
  case_match; [|unbind; by simplify_eq]. case_match. case_match. unbind. case_match.
  match goal with H : (if _ then push_crc _ _ _ _ _ _ else _) = Ret (?d1, _) |- _ => assert (Hd1 : in_ok d1) end.
  { destruct (negb _); [|by simplify_eq]. by eapply (push_crc_keeps _ _ _ _ d1). }
  case_match; [|unbind; by simplify_eq]. unbind. case_match. unbind. simplify_eq. eapply push_frame_keeps; [eassumption|done].
Qed.

Lemma push_keeps (tx : CanTransmitter) tr now (d : Drv) tx' d' r :
  push tx tr now d = Ret (tx', d', r) → in_ok d → in_ok d'.
Proof.
  unfold push. intros Hp Hd. unbind. case_match. unbind.
  assert (d' = d0) as -> by (case_match; by simplify_eq). by eapply push_inner_keeps.
Qed.

Lemma push_returns (tx : CanTransmitter) m (tr : CanTransfer (list u8) I) now (d : Drv) :
  tx_mtu tx = as_bytes m → header_valid (tr_header tr) → qd_inv d →
  ∃ tx' d' r, push tx tr now d = Ret (tx', d', r) ∧ qd_inv d' ∧ tx_mtu tx' = tx_mtu tx.
Proof.
  intros Hm Hh Hq. destruct (push_inner_spec tx m tr now d Hm Hh Hq) as (st & i & d' & r & _ & _ & Hp & Hq' & _).
  unfold push. rewrite Hp. cbn. by destruct r; eexists _, _, _.
Qed.

(** The state of a transmitter, a receiver and their driver between two calls. *)
Definition can_link_ok (id : CanNodeId) (tx : CanTransmitter) (rx : CanReceiver I D) (d : Drv) : Prop :=
  (∃ m, tx_mtu tx = as_bytes m) ∧ rx_ok rx ∧ rx_id rx = Some id ∧ qd_inv d ∧ in_ok d.

Lemma receive_loop_ok n alloc id (rx : CanReceiver I D) now : ∀ d : Drv,
  rx_ok rx → rx_id rx = Some id → (∀ n k, alloc_ok (alloc n k)) → qd_inv d → in_ok d → in_pending d < n →
  ∃ rx' d' r, receive_loop n alloc rx d now = Some (Ret (rx', d', r)) ∧
    rx_ok rx' ∧ rx_id rx' = Some id ∧ qd_inv d' ∧ in_ok d' ∧
    match r with
    | Ok (Some tr) => header_valid (tr_header tr) ∧ for_node id (tr_header tr) ∧ bytes_ok (tr_payload tr)
    | _ => True
    end.
Proof.
  revert rx. induction n as [|n IH]; intros rx d Hrx Hid Ha Hq Hd Hn; [lia|]. cbn [receive_loop].
  destruct (in_receive d now Hd Hq) as (Hd1 & Hq1 & Hf).
  destruct (drv_receive d now) as [d1 r]. cbn [fst snd] in *.
  destruct r as [f|[|e]]; [|by eexists rx, d1, _|by eexists rx, d1, _].
  destruct (Hf f eq_refl) as [Hok Hlt].
  destruct (accept_frame_spec (alloc n) rx f Hrx (Ha n) Hok) as (rx' & r & -> & Hrx' & Hid' & _ & _ & Hr).
  destruct r as [[tr|]|e]; [|apply IH; try done; [by rewrite Hid'|lia]|by eexists rx', d1, _; rewrite Hid'].
  eexists rx', d1, _. rewrite Hid'. split_and!; [done..|].
  destruct Hr as (h & tail & ts & i & sub & Hs & -> & Haddr & Hb & _).
  destruct (frame_sanity_check_spec f Hok) as (r & Hr & Hv). rewrite Hs in Hr. injection Hr as <-.
  destruct Hv as [Hv _]. split_and!; [by destruct h|destruct h; cbn in *; [done|congruence..]|done].
Qed.

Lemma apply_filters_ok id (rx : CanReceiver I D) (d : Drv) : rx_ok rx → rx_id rx = Some id → qd_inv d → in_ok d →
  ∃ d', apply_frame_filters rx d = Ret d' ∧ qd_inv d' ∧ in_ok d'.
Proof.
  intros Hrx Hid Hq Hd. destruct (filter_subscriptions_total rx Hrx) as (subs & Hs & _).
  unfold apply_frame_filters. rewrite Hs. cbn. eexists. split; [done|].
  by destruct (in_filters d (rx_id rx) subs Hd Hq).
Qed.

Lemma subscribe_service_ok kind alloc id tx (rx : CanReceiver I D) (d : Drv) service size timeout :
  kind ≠ KMessage → alloc_ok alloc → can_link_ok id tx rx d → ServiceId_valid service →
  ∃ rx' d' r, rx_subscribe_service kind alloc rx service size timeout d = Ret (rx', d', r) ∧
    can_link_ok id tx rx' d' ∧ r ≠ Err Anonymous.
Proof.
  intros Hk Ha (Hm & Hrx & Hid & Hq & Hd) Hv. unfold rx_subscribe_service. rewrite Hid.
  destruct (rx_subscribe_spec alloc rx kind (PortId_from_service service) size timeout Hrx Ha)
    as (rx' & r & -> & Hrx' & Hid' & _); [by destruct kind|]. cbn.
  rewrite Hid in Hid'. destruct r; [|by eexists _, _, _].
  destruct (apply_filters_ok id rx' d Hrx' Hid' Hq Hd) as (d' & -> & Hq' & Hd'). by eexists _, _, _.
Qed.

#[local] Existing Instance can_transport.
#[local] Existing Instance can_transport_spec.
#[local] Existing Instance can_transmitter.
#[local] Existing Instance can_receiver.

#[local] Program Instance can_link :
    @LinkSpec CanTransmitter (CanReceiver I D) C I D CanNodeId CanTransferId Drv (CanError E) (CanError E)
      can_transport can_transport_spec can_transmitter (can_receiver fuel) := {
  link_ok := can_link_ok;
  link_ready _ d := in_pending d < fuel;
}.
Next Obligation.
  intros mem id tx rx d c tr _ ([m Hm] & Hrx & Hid & Hq & Hd) Hh Hb. cbn. unfold can_push.
  destruct (clock_now c) as [c1 now].
  destruct (push_returns tx m tr now d Hm Hh Hq) as (tx' & d' & r & Hp & Hq' & Hm').
  rewrite Hp. cbn. eexists _, _, _, _. split; [done|]. apply push_keeps in Hp; [|done].
  split_and!; [exists m; congruence|done..].
Qed.
Next Obligation.
  intros id tx rx d c (Hm & Hrx & Hid & Hq & Hd). cbn. unfold can_flush, tx_flush.
  destruct (clock_now c) as [c1 now]. destruct (in_flush d now Hd Hq) as (d' & r & -> & Hd' & Hq').
  cbn. by eexists _, _, _, _.
Qed.
Next Obligation.
  intros mem id tx rx d now Hmem (Hm & Hrx & Hid & Hq & Hd) Hn. cbn. unfold receive.
  destruct (receive_loop_ok fuel (λ n k, mem n k 0) id (clean_expired_sessions rx now) now d)
    as (rx' & d' & r & -> & Hrx' & Hid' & Hq' & Hd' & Hr); [by apply clean_expired_ok|done|intros ??; apply Hmem|done..|].
  by eexists _, _, _.
Qed.
Next Obligation.
  intros mem id tx rx d subject size timeout Hmem (Hm & Hrx & Hid & Hq & Hd) Hv. cbn. unfold rx_subscribe_message.
  destruct (rx_subscribe_spec (mem 0 0 0) rx KMessage (PortId_from_subject subject) size timeout Hrx (Hmem 0 0 0))
    as (rx' & r & -> & Hrx' & Hid' & _); [done|]. cbn.
  rewrite Hid in Hid'. destruct r; [|by eexists _, _, _].
  destruct (apply_filters_ok id rx' d Hrx' Hid' Hq Hd) as (d' & -> & Hq' & Hd'). by eexists _, _, _.
Qed.
Next Obligation.
  intros mem id tx rx d service size timeout Hmem Hl Hv. by apply (subscribe_service_ok KRequest).
Qed.
Next Obligation.
  intros mem id tx rx d service size timeout Hmem Hl Hv. by apply (subscribe_service_ok KResponse).
Qed.
End spec.

(** The queue-only driver keeps what a node relies on: its receive queue holds the frames that
    were given to [push_rx_frame]. *)
Section queue_only.
Context {I : Type} `{Inhabited I} (TC : nat) (alloc : nat → allocator).
#[local] Program Instance queue_only_link :
    @CanLinkDriver (QueueOnlyDriver I) I Empty_set (queue_only_transmit TC) (queue_only_queueing TC)
      (queue_only_receive alloc) := {
  in_ok d := Forall frame_ok (qod_rx_queue d);
  in_pending d := length (qod_rx_queue d);
}.
Next Obligation.
  intros d now Hd Hq. cbn in *. unfold qod_receive. destruct (qod_rx_queue d) as [|f l] eqn:Hl; cbn.
  - by rewrite Hl.
  - apply Forall_cons in Hd as [Hf Hl']. split_and!; [done..|]. intros g [= <-]. split; [done|lia].
Qed.
Next Obligation. done. Qed.
Next Obligation. intros d n d' r. cbn. unfold qod_try_reserve. intros Hr Hd. unbind. case_match. by simplify_eq. Qed.
Next Obligation. intros d f now d' r. cbn. unfold qod_transmit. intros Hr Hd. unbind. case_match. by simplify_eq. Qed.
Next Obligation. intros d now Hd Hq. by eexists d, _. Qed.
End queue_only.
