(* ===== verification/NodeClaims.v ===== *)
(** * Properties of nodes

    Applications on any node that keeps [NodeSpec], the basic node, and the transfers that a
    core node sends; the examples run on Cyphal/CAN with a queue-only driver. *)

From S2P Require Import Prelude CoreTypes Time Transfer Transport SessionTracker EncCursor EncFields EncBits.
From S2P Require Import CanTypes CanFraming CanIds CanRx CanRxSafety CanQueue CanQueueSpec CanTx CanLink.
From S2P Require Import Node NodeSend NodeCore DataTypes NodeBasic NodeSpec NodeSpecCore DataTypesSpec NodeSpecBasic.
From S2P Require Import NodeSpecBasic NodeRun TransportCan.

(** ** Applications *)

Section application.
Context {Nd Tgt I D N T ETx ERx : Type} `{NodeSpec Nd Tgt I D N T ETx ERx}.
Context {M : Type} `{SerializeSpec M} {Hd : Type} `{!TransferHandler Hd Tgt I N T, !HandlerSpec Hd Tgt I N T}.

End application.

(** ** The basic node *)

Section basic.
Context {Nd Tgt I D N T ETx ERx : Type} `{Instant I D}.
Context `{NodeSpec Nd Tgt I D N T ETx ERx, !Node Tgt Tgt I D N T ETx ERx, !NodeSpec Tgt Tgt I D N T ETx ERx}.
Context {Info : Type} `{!DataType Info, !Serialize Info, !SerializeSpec Info} (p : profile).
Context {M : Type} `{SerializeSpec M} {Hd : Type} `{!TransferHandler Hd Tgt I N T, !HandlerSpec Hd Tgt I N T}.
(** Durations of up to a second can be represented. *)
Hypothesis millis_total : ∀ ms, (0 ≤ ms ≤ 1000)%Z → ∃ d : D, dur_from_millis ms = Some d.

Abbreviation Basic := (BasicNode Nd Info).
Abbreviation Basic_node := (basic_node (Tgt := Tgt) (ETx := ETx) (ERx := ERx) (Nd := Nd) (Info := Info)).


(** C28: the tasks of every second, run as the documentation asks, make a new basic node publish
    exactly the schedule: in second [n] the heartbeat with an uptime of [n] (which saturates),
    and after every tenth heartbeat that was sent the port list, also when the transport
    reports errors in between. They never panic, and the counters never overflow. *)
Theorem heartbeats_follow_schedule (mems : list memory) (self : Basic) :
  Forall memory_ok mems → node_ok self →
  uptime (mn_heartbeat (bn_node self)) = 0%Z → bn_seconds_since_port_list_published self = 0%Z →
  let h := mn_heartbeat (bn_node self) in
  ∃ self' rs, run_seconds (Tgt := Tgt) (ETx := ETx) (ERx := ERx) p mems self = Ret (self', rs) ∧ node_ok self' ∧
    schedule (Tgt := Tgt) (ETx := ETx) (ERx := ERx) h (bn_port_list self) mems 0 0 (inner_node self) =
      Ret (inner_node self', rs) ∧
    uptime (mn_heartbeat (bn_node self')) = Z.min (Z.of_nat (length mems)) (2 ^ 32 - 1).
Proof.
  intros Hmems Hok Hup Hsec h.
  destruct (run_seconds_schedule p h mems self 0 0 Hmems Hok) as (self' & rs & Hrun & Hs & _ & Hsch & Hh').
  { unfold heartbeat_after, h. rewrite Hup. by destruct (mn_heartbeat (bn_node self)); cbn in *; subst. }
  { done. }
  exists self', rs. split_and!; [done|apply Hs|done|]. rewrite Hh'. unfold heartbeat_after, h. cbn [uptime]. rewrite Hup. lia.
Qed.
End basic.

(** ** Numbering *)

Section numbering.
Context {I D N T C Tx Rx Drv ETx ERx R PM RM : Type}.
Context `{Instant I D, Clock C I, TransportSpec N T}.
Context `{!Transmitter Tx C I N T Drv ETx, !Receiver Rx I D N T Drv ERx}.
Context `{!TransferIdTracker R N T, !TransferIdTrackerSpec R N T}.
Context `{!LinkSpec Tx Rx C I D N T Drv ETx ERx}.
Context `{!KeyMap PM SubjectId (Publisher D N T), !KeyMapSpec PM SubjectId (Publisher D N T)}.
Context `{!KeyMap RM ServiceId (Requester D N R), !KeyMapSpec RM ServiceId (Requester D N R)}.
Context (p : profile) {M : Type} `{SerializeSpec M}.

Abbreviation Core := (CoreNode C Tx Rx (Recorder (Transfer (list u8) I N T) Drv) N PM RM).

(** Once a core node starts to publish on a subject, the transfers that it hands to the
    transmitter for a sequence of messages are exactly these messages, in order, encoded, with
    the node as their source, the priority that was asked for, and transfer identifiers that
    count up from the first one: also when the transmitter fails to send some of them. *)
Theorem messages_numbered (nd nd1 : Core) subject (timeout : D) priority token (l : list (memory * M)) :
  (∀ (d : D) (t : I), ∃ t', add_instant p d t = Ret t') →
  node_ok nd → SubjectId_valid subject →
  core_start_publishing (ETx := ETx) nd subject timeout priority = Ret (nd1, Ok token) →
  Forall (λ x, memory_ok x.1 ∧ buffers_available x.1 ∧ serializable x.2) l →
  ∃ nd2 trs, publish_all (ETx := ETx) p nd1 subject l = Ret nd2 ∧ sent nd2 = sent nd ++ trs ∧ length trs = length l ∧
    ∀ k x tr, l !! k = Some x → trs !! k = Some tr → numbered p subject priority (cn_node_id nd) k x tr.
Proof.
  intros Hadd Hok Hs Hstart Hl.
  destruct (core_start_publishing_ok (ETx := ETx) nd subject timeout priority Hok Hs) as (nd' & r & Heq & Hok1 & _).
  rewrite Hstart in Heq. injection Heq as <- <-.
  unfold core_start_publishing in Hstart. destruct (km_get (cn_publishers nd) subject); [done|].
  destruct (km_insert _ _ _) as [m|] eqn:Hm; [|done]. injection Hstart as <- <-.
  destruct (publish_all_numbered p Hadd subject l (set_publishers nd m) (Publisher_new (cn_node_id nd) timeout priority) 0 Hl Hok1)
    as (nd2 & trs & Hpub & _ & Hsent & Hlen & Hnum); [|done|by exists nd2, trs].
  cbn. by rewrite (km_insert_lookup _ _ _ _ _ Hm), decide_True.
Qed.

(** The response that a node sends with the token of a request repeats the request's
    service, transfer identifier and priority and goes from the node to the node that sent the
    request; it carries the encoded response and the deadline that was asked for. *)
Theorem response_matches_request mem (nd : Core) (h : ServiceHeader I N T) (timeout : D) (v : M) :
  (∀ (d : D) (t : I), ∃ t', add_instant p d t = Ret t') →
  memory_ok mem → buffers_available mem → node_ok nd → header_ok (Request h) → serializable v →
  ∃ nd' r bytes deadline, core_send_response (ETx := ETx) p mem nd (response_token h) timeout v = Ret (nd', r) ∧
    add_instant p timeout (clock_now (cn_clock nd)).2 = Ret deadline ∧ encoded p v bytes ∧
    sent nd' = sent nd ++ [mkTransfer (Response (mkServiceHeader deadline (sh_transfer_id h) (sh_priority h)
      (sh_service h) (cn_node_id nd) (sh_source h))) bytes].
Proof. intros Hadd. by apply core_send_response_sends. Qed.
End numbering.

Section tracker.
Context {M N T : Type} `{Transport N T, !TransportSpec N T, EqDecision N} `{!KeyMap M N T, !KeyMapSpec M N T}.

(** The requests to [n] that got an identifier. *)
Definition issued_to (n : N) (l : list (N * result OutOfMemoryError T)) : nat :=
  length (filter (λ x, x.1 = n ∧ is_ok x.2 = true) l).

(** The map after [k n] requests to each [n]. *)
Definition counts (self : TransferIdFixedMap M) (k : N → nat) : Prop :=
  ∀ n, km_get (fm_ids self) n = if k n =? 0 then None else Some (nth_transfer_id (k n)).

Lemma issue_counts dests : ∀ (self : TransferIdFixedMap M) (k : N → nat) i n x, counts self k →
  dests !! i = Some n → issue self dests !! i = Some x →
  let c := k n + issued_to n (take i (zip dests (issue self dests))) in
  match x with Ok t => t = nth_transfer_id c | Err _ => c = 0 end.
Proof.
  induction dests as [|d dests IH]; intros self k i n x Hk Hn Hx; [done|]. cbn [issue] in *.
  destruct (fixed_map_step self d) as (self' & y & E & Hy). rewrite E in *.
  destruct i as [|i]; cbn in Hn, Hx.
  - injection Hn as ->. injection Hx as ->. unfold issued_to. cbn. rewrite Nat.add_0_r. destruct x as [t|e].
    + destruct Hy as [-> _]. rewrite Hk. by destruct (Nat.eqb_spec (k n) 0) as [->|].
    + destruct Hy as [_ Hy]. rewrite Hk in Hy. by destruct (Nat.eqb_spec (k n) 0).
  - cbn [zip zip_with take]. unfold issued_to. rewrite filter_cons. cbn [fst snd]. destruct y as [t|e].
    + destruct Hy as [Ht Hget]. set (k' := λ m, if decide (m = d) then S (k m) else k m).
      assert (Hk' : counts self' k').
      { intros m. rewrite Hget. unfold k'. destruct (decide (m = d)) as [->|]; [|apply Hk]. cbn. f_equal.
        rewrite Ht, Hk. by destruct (Nat.eqb_spec (k d) 0) as [->|]. }
      specialize (IH self' k' i n x Hk' Hn Hx). unfold k' in IH. unfold issued_to in IH.
      destruct (decide (n = d)) as [->|Hne]; [|rewrite decide_False by naive_solver; exact IH].
      rewrite decide_True by done. cbn [length]. by rewrite Nat.add_succ_r.
    + destruct Hy as [-> _]. rewrite decide_False by naive_solver. apply (IH self k i n x Hk Hn Hx).
Qed.

(** Requests are numbered for each destination separately: the identifier of a request is
    the number of the earlier requests to the same node that got one, whatever is sent to
    other nodes in between; a request gets none only if its destination has none yet and the
    map of a fixed size has no room for it. *)
Theorem requests_numbered_per_destination (empty : M) (dests : list N) i n x :
  (∀ n, km_get empty n = None) → dests !! i = Some n →
  issue (fixed_map_default empty) dests !! i = Some x →
  let earlier := take i (zip dests (issue (fixed_map_default empty) dests)) in
  match x with
  | Ok t => t = nth_transfer_id (issued_to n earlier)
  | Err _ => issued_to n earlier = 0
  end.
Proof.
  intros Hempty Hn Hx. apply (issue_counts dests (fixed_map_default empty) (λ _, 0) i n x); [|done|done].
  intros m. apply Hempty.
Qed.
End tracker.

(** ** Witnesses *)

(** A basic node with the identifier 42 on a classic CAN bus, with a queue-only driver. *)
Module NodeExample.
Abbreviation Instant32 := Microseconds32.
Abbreviation Duration32 := MicrosecondDuration32.

(** A clock that counts the calls. *)
#[export] Instance call_clock : Clock Z Instant32 := {| clock_now c := ((c + 1)%Z, mkMicroseconds32 (wrap 32 c)) |}.

Abbreviation inner_driver := (QueueOnlyDriver Instant32).
Abbreviation driver := (Recorder (Transfer (list u8) Instant32 CanNodeId CanTransferId) inner_driver).
Abbreviation receiver := (CanReceiver Instant32 Duration32).
Abbreviation error := (CanError Empty_set).
Abbreviation ids := (TransferIdFixedMap (gmap Z CanTransferId)).
Abbreviation publishers := (gmap Z (Publisher Duration32 CanNodeId CanTransferId)).
Abbreviation requesters := (gmap Z (Requester Duration32 CanNodeId ids)).

#[export] Existing Instance QueueExample.inh.
#[export] Existing Instance can_transport.
#[export] Existing Instance can_transport_spec.

Definition alloc : nat → allocator := λ _, Some.

#[export] Instance drv_transmit : TransmitDriver inner_driver Instant32 Empty_set := queue_only_transmit 64.
#[export] Instance drv_queueing : QueueingDriver inner_driver Instant32 Empty_set := queue_only_queueing 64.
#[export] Instance drv_receive : ReceiveDriver inner_driver Instant32 Empty_set := queue_only_receive alloc.
#[export] Instance drv_link : CanLinkDriver inner_driver Instant32 Empty_set := queue_only_link 64 alloc.

#[export] Instance inner_transmitter : Transmitter CanTransmitter Z Instant32 CanNodeId CanTransferId inner_driver error :=
  can_transmitter.
#[export] Instance inner_receiver : Receiver receiver Instant32 Duration32 CanNodeId CanTransferId inner_driver error :=
  can_receiver 5.
#[export] Instance inner_link : LinkSpec CanTransmitter receiver Z Instant32 Duration32 CanNodeId CanTransferId inner_driver error error :=
  can_link 5.
#[export] Instance tracker : TransferIdTracker ids CanNodeId CanTransferId := fixed_map_tracker ∅.
#[export] Instance tracker_spec : TransferIdTrackerSpec ids CanNodeId CanTransferId := fixed_map_spec ∅ lookup_empty.

Abbreviation core := (CoreNode Z CanTransmitter receiver driver CanNodeId publishers requesters).

Lemma add_total (d : Duration32) (t : Instant32) : ∃ t', add_instant Release d t = Ret t'.
Proof. eexists. cbn. unfold D32.add_to_instant. by rewrite arith_Release. Qed.

Lemma millis_total ms : (0 ≤ ms ≤ 1000)%Z → ∃ d : Duration32, dur_from_millis ms = Some d.
Proof.
  intros Hms. cbn. unfold D32.from_millis, checked_mul. case_cmp; [by eexists|lia].
Qed.

#[export] Instance core_instance : Node core core Instant32 Duration32 CanNodeId CanTransferId error error := core_node Release.
#[export] Instance core_instance_spec : NodeSpec core core Instant32 Duration32 CanNodeId CanTransferId error error :=
  core_node_spec Release add_total.

Definition node : core :=
  CoreNode_new ∅ ∅ 0%Z 42%Z (CanTransmitter_new Can8) (CanReceiver_new 42%Z Can8)
    (mkRecorder (QueueOnlyDriver_new 64) []).
Definition mem : memory := λ _ _ _, Some.

Lemma mem_valid : memory_ok mem.
Proof. intros i j k. apply (RxExample.alloc_valid 0). Qed.

Lemma node_valid : node_ok node.
Proof.
  split; [|split; [by vm_compute|split; intros s x Hs; by destruct (lookup_empty_Some (M := gmap Z) s x Hs)]].
  split; [by exists Can8|]. split; [apply RxExample.new_ok|]. split; [done|].
  split; [apply (ArrayQueue_new_inv 64)|constructor].
Qed.

(** A handler that ignores everything, and node information of no bytes. *)
#[export] Instance ignore {Nd} : TransferHandler unit Nd Instant32 CanNodeId CanTransferId := {
  handle_message := default_handle_message;
  handle_request := default_handle_request;
  handle_response := default_handle_response;
}.
#[export] Program Instance ignore_spec {Nd} `{Ports Nd} : HandlerSpec unit Nd Instant32 CanNodeId CanTransferId := {
  handler_ok _ := True;
}.
Next Obligation. intros. eexists _, _, _. split; [done|]. split; [done|]. by apply same_ports_refl. Qed.
Next Obligation. intros. eexists _, _, _. split; [done|]. split; [done|]. by apply same_ports_refl. Qed.
Next Obligation. intros. eexists _, _, _. split; [done|]. split; [done|]. by apply same_ports_refl. Qed.

(** The node information stands for any type that can be sent. *)
Definition info : Heartbeat := mkHeartbeat 7 (mkHealth 0) (mkMode 0) 0.
Abbreviation basic := (BasicNode core Heartbeat).

Lemma info_valid : serializable info.
Proof. cbn. unfold is_u. lia. Qed.

#[export] Instance basic_instance : Node basic core Instant32 Duration32 CanNodeId CanTransferId error error := basic_node.
#[export] Instance basic_instance_spec : NodeSpec basic core Instant32 Duration32 CanNodeId CanTransferId error error :=
  basic_node_spec millis_total.

Definition new_basic : option basic :=
  match BasicNode_new (ETx := error) (ERx := error) mem node info with Ret (Ok b) => Some b | _ => None end.
End NodeExample.

Section witnesses.
Import NodeExample.

Lemma new_basic_some : is_Some new_basic.
Proof. vm_compute. by eexists. Qed.
Lemma new_basic_result b : new_basic = Some b →
  BasicNode_new (ETx := error) (ERx := error) mem node info = Ret (Ok b).
Proof. unfold new_basic. intros Hb. repeat case_match; by simplify_eq. Qed.
Definition start_core : Application (Nd := core) (Hd := unit) := mkApplication node tt [] [].


Lemma node_has_no_ports : (∀ s, ~ publishing node s) ∧ ∀ s, ~ requesting node s.
Proof. split; intros s [x Hx]; by destruct (lookup_empty_Some (M := gmap Z) s x Hx). Qed.

Abbreviation basic_perform := (perform (Nd := basic) (Tgt := core) (I := Instant32) (N := CanNodeId)
  (T := CanTransferId) (ERx := error) (ETx := error) (M := Heartbeat)).


(** Twelve seconds: twelve heartbeats, and the port list in the eleventh. *)
Lemma heartbeats_follow_schedule_witness :
  ∃ b b' rs, new_basic = Some b ∧
    run_seconds (Tgt := core) (ETx := error) (ERx := error) Release (replicate 12 mem) b = Ret (b', rs) ∧
    map (λ tr, match tr_header tr with Message m => mh_subject m | _ => 0%Z end) (sent (inner_node b')) =
      replicate 11 heartbeat_SUBJECT ++ [list_SUBJECT; heartbeat_SUBJECT].
Proof.
  destruct new_basic as [b|] eqn:Hb; [|by destruct (new_basic_some); congruence].
  pose proof (new_basic_result b Hb) as Hnew.
  destruct (BasicNode_new_ok (Nd := core) (Tgt := core) (I := Instant32) (N := CanNodeId) (T := CanTransferId)
    (ETx := error) (ERx := error) millis_total mem node info mem_valid node_valid info_valid
    (proj1 node_has_no_ports) (proj2 node_has_no_ports)) as (r & Hr & Hok).
  rewrite Hnew in Hr. injection Hr as <-. destruct Hok as (Hok & _ & _ & _ & _ & Hup & Hsec).
  destruct (heartbeats_follow_schedule (Nd := core) (Tgt := core) (I := Instant32) (N := CanNodeId) (T := CanTransferId)
    (ETx := error) (ERx := error) Release (replicate 12 mem) b) as (b' & rs & Hrun & _).
  - apply Forall_replicate, mem_valid.
  - exact Hok.
  - exact Hup.
  - exact Hsec.
  - exists b, b', rs. split; [done|]. split; [exact Hrun|].
    vm_compute in Hb. injection Hb as <-. vm_compute in Hrun. injection Hrun as <- _. vm_compute. reflexivity.
Defined.

Lemma mem_available : buffers_available mem.
Proof. done. Qed.

(** Three messages on subject 100. *)
Lemma messages_numbered_witness :
  ∃ nd1 nd2 trs, core_start_publishing (ETx := error) node 100 (mkMicrosecondDuration32 1000%Z) High =
      Ret (nd1, Ok (mkPublishToken 100)) ∧
    publish_all (ETx := error) Release nd1 100 (replicate 3 (mem, info)) = Ret nd2 ∧ sent nd2 = trs ∧
    map (λ tr, match tr_header tr with Message m => mh_transfer_id m | _ => (-1)%Z end) trs = [0; 1; 2]%Z.
Proof.
  destruct (core_start_publishing (ETx := error) node 100 (mkMicrosecondDuration32 1000%Z) High) as [[nd1 r]|] eqn:Hstart;
    [|discriminate Hstart].
  assert (r = Ok (mkPublishToken 100)) as -> by (vm_compute in Hstart; congruence).
  destruct (messages_numbered (ERx := error) (ETx := error) Release node nd1 100 (mkMicrosecondDuration32 1000%Z) High (mkPublishToken 100)
    (replicate 3 (mem, info))) as (nd2 & trs & Hall & Hsent & Hlen & Hnum).
  - exact add_total.
  - exact node_valid.
  - by vm_compute.
  - exact Hstart.
  - apply Forall_replicate. split; [exact mem_valid|]. split; [exact mem_available|exact info_valid].
  - exists nd1, nd2, trs. split; [done|]. split; [exact Hall|]. split; [exact Hsent|].
    destruct trs as [|t0 [|t1 [|t2 [|]]]]; [discriminate Hlen..| |discriminate Hlen].
    destruct (Hnum 0 (mem, info) t0 eq_refl eq_refl) as [_ [d0 H0]].
    destruct (Hnum 1 (mem, info) t1 eq_refl eq_refl) as [_ [d1 H1]].
    destruct (Hnum 2 (mem, info) t2 eq_refl eq_refl) as [_ [d2 H2]].
    cbn [map]. rewrite H0, H1, H2. reflexivity.
Defined.

(** The answer to a request from node 7. *)
Lemma response_matches_request_witness :
  ∃ nd' r tr, core_send_response (ETx := error) Release mem node
      (response_token (mkServiceHeader (mkMicroseconds32 0) 5%Z High 430%Z 7%Z 42%Z)) (mkMicrosecondDuration32 1000%Z) info = Ret (nd', r) ∧
    sent nd' = [tr] ∧
    match tr_header tr with Response h => sh_destination h = 7%Z ∧ sh_transfer_id h = 5%Z | _ => False end.
Proof.
  destruct (response_matches_request (ERx := error) (ETx := error) Release mem node
    (mkServiceHeader (mkMicroseconds32 0) 5%Z High 430%Z 7%Z 42%Z) (mkMicrosecondDuration32 1000%Z) info)
    as (nd' & r & bytes & deadline & Hsend & _ & _ & Hsent).
  - exact add_total.
  - exact mem_valid.
  - exact mem_available.
  - exact node_valid.
  - by vm_compute.
  - exact info_valid.
  - exists nd', r, (mkTransfer (Response (mkServiceHeader deadline 5%Z High 430%Z 42%Z 7%Z)) bytes).
    split; [exact Hsend|]. split; [exact Hsent|]. by split.
Defined.

(** Two requests to node 7 with one to node 9 in between. *)
Lemma requests_numbered_per_destination_witness :
  ∃ t, issue (fixed_map_default (∅ : gmap Z CanTransferId)) [7; 9; 7]%Z !! 2 = Some (Ok t) ∧
    t = nth_transfer_id (N := CanNodeId) 1.
Proof.
  exists 1%Z. split; [by vm_compute|].
  pose proof (requests_numbered_per_destination (∅ : gmap Z CanTransferId) [7; 9; 7]%Z 2 7%Z (Ok 1%Z)
    lookup_empty eq_refl ltac:(by vm_compute)) as H. vm_compute in H. vm_compute. exact H.
Defined.
End witnesses.
