(* ===== verification/RegisterTypes.v ===== *)
(** * The data types of the register service

    The types of [uavcan.primitive], [uavcan.register] and [uavcan.time] in
    [canadensis_data_types/src/generated.rs] that register requests and responses are made of,
    with their serialization and deserialization as they were generated. Floating-point
    numbers are their bit patterns. The in-memory form of a type that is copied as a whole
    is that of a little-endian processor. *)

From S2P Require Import Prelude CoreTypes EncCursor EncFields EncBits.

(** ** Arrays *)

(** Signed integers; [as] casts from an unsigned integer of [w] bits. *)
Abbreviation i8 := Z (only parsing).
Abbreviation i16 := Z (only parsing).
Abbreviation i32 := Z (only parsing).
Abbreviation i64 := Z (only parsing).
Definition as_signed (w z : Z) : Z := if (z <? 2 ^ (w - 1))%Z then z else (z - 2 ^ w)%Z.

Definition read_signed (w : Z) (read : ReadCursor → exec (ReadCursor * Z)) (c : ReadCursor)
    : exec (ReadCursor * Z) :=
  '(c, x) ← read c; Ret (c, as_signed w x).

(** [for value in elements.iter()]. *)
Fixpoint write_elements {A} (write : WriteCursor → A → exec WriteCursor) (c : WriteCursor) (l : list A)
    : exec WriteCursor :=
  match l with
  | [] => Ret c
  | value :: l' => c ← write c value; write_elements write c l'
  end.

(** [heapless::Vec::push] returns an error when the vector is full; it is ignored here. *)
Definition push_ignoring {A} (capacity : nat) (elements : list A) (x : A) : list A :=
  if length elements <? capacity then elements ++ [x] else elements.

Fixpoint read_elements {A} (capacity : nat) (read : ReadCursor → exec (ReadCursor * A)) (n : nat)
    (c : ReadCursor) (elements : list A) : exec (ReadCursor * list A) :=
  match n with
  | 0 => Ret (c, elements)
  | S n' => '(c, x) ← read c; read_elements capacity read n' c (push_ignoring capacity elements x)
  end.

(** A struct whose only field is such an array. *)
Definition read_array {A V} (mk : list A → V) (capacity : nat) (read : ReadCursor → exec (ReadCursor * A))
    (length : Z) (c : ReadCursor) : exec (ReadCursor * result DeserializeError V) :=
  if (length <=? Z.of_nat capacity)%Z then
    '(c, elements) ← read_elements capacity read (Z.to_nat length) c [];
    Ret (c, Ok (mk elements))
  else Ret (c, Err ArrayLength).

(** [?] after a step of deserialization. *)
Definition try_read {A B} (m : exec (ReadCursor * result DeserializeError A))
    (k : A → ReadCursor → exec (ReadCursor * result DeserializeError B))
    : exec (ReadCursor * result DeserializeError B) :=
  '(c, r) ← m;
  match r with Ok a => k a c | Err e => Ret (c, Err e) end.

(** The generated code does not write the length of the array, but reads it. *)
Record Bit := mkBit { bit_value : BitArray }.

#[global] Instance bit_type : DataType Bit := { EXTENT_BYTES := None }.
#[global] Instance bit_serialize : Serialize Bit := {
  size_bits v := 16 + ba_len (bit_value v) * 1 + 0;
  serialize p v c := ba_serialize 256 p (bit_value v) c;
}.
#[global] Instance bit_deserialize : Deserialize Bit := {
  deserialize p c :=
    '(c, length) ← read_u16 p c;
    '(value, c) ← ba_deserialize 256 p (Z.to_nat length) c;
    Ret (c, Ok (mkBit value));
}.

Record Integer16 := mkInteger16 { integer16_value : list i16 }.

#[global] Instance integer16_type : DataType Integer16 := { EXTENT_BYTES := None }.
#[global] Instance integer16_serialize : Serialize Integer16 := {
  size_bits v := 8 + length (integer16_value v) * 16 + 0;
  serialize p v c :=
    c ← write_aligned_u8 c (as_u8 (Z.of_nat (length (integer16_value v))));
    write_elements (λ c x, write_u16 p c (as_u16 x)) c (integer16_value v);
}.
#[global] Instance integer16_deserialize : Deserialize Integer16 := {
  deserialize p c :=
    '(c, length) ← read_u8 p c;
    read_array mkInteger16 128 (read_signed 16 (read_u16 p)) length c;
}.

Record Integer32 := mkInteger32 { integer32_value : list i32 }.

#[global] Instance integer32_type : DataType Integer32 := { EXTENT_BYTES := None }.
#[global] Instance integer32_serialize : Serialize Integer32 := {
  size_bits v := 8 + length (integer32_value v) * 32 + 0;
  serialize p v c :=
    c ← write_aligned_u8 c (as_u8 (Z.of_nat (length (integer32_value v))));
    write_elements (λ c x, write_u32 p c (as_u32 x)) c (integer32_value v);
}.
#[global] Instance integer32_deserialize : Deserialize Integer32 := {
  deserialize p c :=
    '(c, length) ← read_u8 p c;
    read_array mkInteger32 64 (read_signed 32 (read_u32 p)) length c;
}.

Record Integer64 := mkInteger64 { integer64_value : list i64 }.

#[global] Instance integer64_type : DataType Integer64 := { EXTENT_BYTES := None }.
#[global] Instance integer64_serialize : Serialize Integer64 := {
  size_bits v := 8 + length (integer64_value v) * 64 + 0;
  serialize p v c :=
    c ← write_aligned_u8 c (as_u8 (Z.of_nat (length (integer64_value v))));
    write_elements (λ c x, write_u64 p c (as_u64 x)) c (integer64_value v);
}.
#[global] Instance integer64_deserialize : Deserialize Integer64 := {
  deserialize p c :=
    '(c, length) ← read_u8 p c;
    read_array mkInteger64 32 (read_signed 64 (read_u64 p)) length c;
}.

Record Integer8 := mkInteger8 { integer8_value : list i8 }.

#[global] Instance integer8_type : DataType Integer8 := { EXTENT_BYTES := None }.
#[global] Instance integer8_serialize : Serialize Integer8 := {
  size_bits v := 16 + length (integer8_value v) * 8 + 0;
  serialize p v c :=
    c ← write_aligned_u16 c (as_u16 (Z.of_nat (length (integer8_value v))));
    write_elements (λ c x, write_u8 p c (as_u8 x)) c (integer8_value v);
}.
#[global] Instance integer8_deserialize : Deserialize Integer8 := {
  deserialize p c :=
    '(c, length) ← read_u16 p c;
    read_array mkInteger8 256 (read_signed 8 (read_u8 p)) length c;
}.

Record Natural16 := mkNatural16 { natural16_value : list u16 }.

#[global] Instance natural16_type : DataType Natural16 := { EXTENT_BYTES := None }.
#[global] Instance natural16_serialize : Serialize Natural16 := {
  size_bits v := 8 + length (natural16_value v) * 16 + 0;
  serialize p v c :=
    c ← write_aligned_u8 c (as_u8 (Z.of_nat (length (natural16_value v))));
    write_elements (λ c x, write_u16 p c x) c (natural16_value v);
}.
#[global] Instance natural16_deserialize : Deserialize Natural16 := {
  deserialize p c :=
    '(c, length) ← read_u8 p c;
    read_array mkNatural16 128 (read_u16 p) length c;
}.

Record Natural32 := mkNatural32 { natural32_value : list u32 }.

#[global] Instance natural32_type : DataType Natural32 := { EXTENT_BYTES := None }.
#[global] Instance natural32_serialize : Serialize Natural32 := {
  size_bits v := 8 + length (natural32_value v) * 32 + 0;
  serialize p v c :=
    c ← write_aligned_u8 c (as_u8 (Z.of_nat (length (natural32_value v))));
    write_elements (λ c x, write_u32 p c x) c (natural32_value v);
}.
#[global] Instance natural32_deserialize : Deserialize Natural32 := {
  deserialize p c :=
    '(c, length) ← read_u8 p c;
    read_array mkNatural32 64 (read_u32 p) length c;
}.

Record Natural64 := mkNatural64 { natural64_value : list u64 }.

#[global] Instance natural64_type : DataType Natural64 := { EXTENT_BYTES := None }.
#[global] Instance natural64_serialize : Serialize Natural64 := {
  size_bits v := 8 + length (natural64_value v) * 64 + 0;
  serialize p v c :=
    c ← write_aligned_u8 c (as_u8 (Z.of_nat (length (natural64_value v))));
    write_elements (λ c x, write_u64 p c x) c (natural64_value v);
}.
#[global] Instance natural64_deserialize : Deserialize Natural64 := {
  deserialize p c :=
    '(c, length) ← read_u8 p c;
    read_array mkNatural64 32 (read_u64 p) length c;
}.

Record Natural8 := mkNatural8 { natural8_value : list u8 }.

#[global] Instance natural8_type : DataType Natural8 := { EXTENT_BYTES := None }.
#[global] Instance natural8_serialize : Serialize Natural8 := {
  size_bits v := 16 + length (natural8_value v) * 8 + 0;
  serialize p v c :=
    c ← write_aligned_u16 c (as_u16 (Z.of_nat (length (natural8_value v))));
    write_bytes p c (natural8_value v);
}.
#[global] Instance natural8_deserialize : Deserialize Natural8 := {
  deserialize p c :=
    '(c, length) ← read_u16 p c;
    read_array mkNatural8 256 (read_u8 p) length c;
}.

Record Real16 := mkReal16 { real16_value : list u16 }.

#[global] Instance real16_type : DataType Real16 := { EXTENT_BYTES := None }.
#[global] Instance real16_serialize : Serialize Real16 := {
  size_bits v := 8 + length (real16_value v) * 16 + 0;
  serialize p v c :=
    c ← write_aligned_u8 c (as_u8 (Z.of_nat (length (real16_value v))));
    write_elements (λ c x, write_f16 p c x) c (real16_value v);
}.
#[global] Instance real16_deserialize : Deserialize Real16 := {
  deserialize p c :=
    '(c, length) ← read_u8 p c;
    read_array mkReal16 128 (read_f16 p) length c;
}.

Record Real32 := mkReal32 { real32_value : list u32 }.

#[global] Instance real32_type : DataType Real32 := { EXTENT_BYTES := None }.
#[global] Instance real32_serialize : Serialize Real32 := {
  size_bits v := 8 + length (real32_value v) * 32 + 0;
  serialize p v c :=
    c ← write_aligned_u8 c (as_u8 (Z.of_nat (length (real32_value v))));
    write_elements (λ c x, write_f32 p c x) c (real32_value v);
}.
#[global] Instance real32_deserialize : Deserialize Real32 := {
  deserialize p c :=
    '(c, length) ← read_u8 p c;
    read_array mkReal32 64 (read_f32 p) length c;
}.

Record Real64 := mkReal64 { real64_value : list u64 }.

#[global] Instance real64_type : DataType Real64 := { EXTENT_BYTES := None }.
#[global] Instance real64_serialize : Serialize Real64 := {
  size_bits v := 8 + length (real64_value v) * 64 + 0;
  serialize p v c :=
    c ← write_aligned_u8 c (as_u8 (Z.of_nat (length (real64_value v))));
    write_elements (λ c x, write_f64 p c x) c (real64_value v);
}.
#[global] Instance real64_deserialize : Deserialize Real64 := {
  deserialize p c :=
    '(c, length) ← read_u8 p c;
    read_array mkReal64 32 (read_f64 p) length c;
}.

(** ** Empty, strings and bytes *)

Record Empty := mkEmpty {}.

#[global] Instance empty_type : DataType Empty := { EXTENT_BYTES := None }.
#[global] Instance empty_serialize : Serialize Empty := {
  size_bits _ := 0;
  serialize p v c := write_aligned_bytes c [];
}.
#[global] Instance empty_deserialize : Deserialize Empty := {
  deserialize p c := '(c, _) ← deserialize_zero_copy 0 c; Ret (c, Ok mkEmpty);
}.

Record String_1_0 := mkString_1_0 { string_value : list u8 }.

#[global] Instance string_type : DataType String_1_0 := { EXTENT_BYTES := None }.
#[global] Instance string_serialize : Serialize String_1_0 := {
  size_bits v := 16 + length (string_value v) * 8 + 0;
  serialize p v c :=
    c ← write_aligned_u16 c (as_u16 (Z.of_nat (length (string_value v))));
    write_bytes p c (string_value v);
}.
#[global] Instance string_deserialize : Deserialize String_1_0 := {
  deserialize p c :=
    '(c, length) ← read_u16 p c;
    read_array mkString_1_0 256 (read_u8 p) length c;
}.

Record Unstructured_1_0 := mkUnstructured_1_0 { unstructured_value : list u8 }.

#[global] Instance unstructured_type : DataType Unstructured_1_0 := { EXTENT_BYTES := None }.
#[global] Instance unstructured_serialize : Serialize Unstructured_1_0 := {
  size_bits v := 16 + length (unstructured_value v) * 8 + 0;
  serialize p v c :=
    c ← write_aligned_u16 c (as_u16 (Z.of_nat (length (unstructured_value v))));
    write_bytes p c (unstructured_value v);
}.
#[global] Instance unstructured_deserialize : Deserialize Unstructured_1_0 := {
  deserialize p c :=
    '(c, length) ← read_u16 p c;
    read_array mkUnstructured_1_0 256 (read_u8 p) length c;
}.

(** ** [uavcan.register.Value.1.0] *)

Inductive Value :=
| ValueEmpty (inner : Empty)
| ValueString (inner : String_1_0)
| ValueUnstructured (inner : Unstructured_1_0)
| ValueBit (inner : Bit)
| ValueInteger64 (inner : Integer64)
| ValueInteger32 (inner : Integer32)
| ValueInteger16 (inner : Integer16)
| ValueInteger8 (inner : Integer8)
| ValueNatural64 (inner : Natural64)
| ValueNatural32 (inner : Natural32)
| ValueNatural16 (inner : Natural16)
| ValueNatural8 (inner : Natural8)
| ValueReal64 (inner : Real64)
| ValueReal32 (inner : Real32)
| ValueReal16 (inner : Real16).

#[global] Instance value_type : DataType Value := { EXTENT_BYTES := None }.
#[global] Instance value_serialize : Serialize Value := {
  size_bits v := 8 + match v with
    | ValueEmpty inner => 0
    | ValueString inner => size_bits inner
    | ValueUnstructured inner => size_bits inner
    | ValueBit inner => size_bits inner
    | ValueInteger64 inner => size_bits inner
    | ValueInteger32 inner => size_bits inner
    | ValueInteger16 inner => size_bits inner
    | ValueInteger8 inner => size_bits inner
    | ValueNatural64 inner => size_bits inner
    | ValueNatural32 inner => size_bits inner
    | ValueNatural16 inner => size_bits inner
    | ValueNatural8 inner => size_bits inner
    | ValueReal64 inner => size_bits inner
    | ValueReal32 inner => size_bits inner
    | ValueReal16 inner => size_bits inner
    end;
  serialize p v c :=
    match v with
    | ValueEmpty inner => c ← write_aligned_u8 c 0%Z; write_composite p c inner
    | ValueString inner => c ← write_aligned_u8 c 1%Z; write_composite p c inner
    | ValueUnstructured inner => c ← write_aligned_u8 c 2%Z; write_composite p c inner
    | ValueBit inner => c ← write_aligned_u8 c 3%Z; write_composite p c inner
    | ValueInteger64 inner => c ← write_aligned_u8 c 4%Z; write_composite p c inner
    | ValueInteger32 inner => c ← write_aligned_u8 c 5%Z; write_composite p c inner
    | ValueInteger16 inner => c ← write_aligned_u8 c 6%Z; write_composite p c inner
    | ValueInteger8 inner => c ← write_aligned_u8 c 7%Z; write_composite p c inner
    | ValueNatural64 inner => c ← write_aligned_u8 c 8%Z; write_composite p c inner
    | ValueNatural32 inner => c ← write_aligned_u8 c 9%Z; write_composite p c inner
    | ValueNatural16 inner => c ← write_aligned_u8 c 10%Z; write_composite p c inner
    | ValueNatural8 inner => c ← write_aligned_u8 c 11%Z; write_composite p c inner
    | ValueReal64 inner => c ← write_aligned_u8 c 12%Z; write_composite p c inner
    | ValueReal32 inner => c ← write_aligned_u8 c 13%Z; write_composite p c inner
    | ValueReal16 inner => c ← write_aligned_u8 c 14%Z; write_composite p c inner
    end;
}.

(** One arm of the match on the tag. *)
Definition read_variant {A} `{Deserialize A} (p : profile) (variant : A → Value) (c : ReadCursor)
    : exec (ReadCursor * result DeserializeError Value) :=
  try_read (read_composite p c) (λ inner c, Ret (c, Ok (variant inner))).

(** The match on the tag. *)
Definition read_value (p : profile) (tag : u8) (c : ReadCursor)
    : exec (ReadCursor * result DeserializeError Value) :=
  if (tag =? 0)%Z then read_variant p ValueEmpty c
  else if (tag =? 1)%Z then read_variant p ValueString c
  else if (tag =? 2)%Z then read_variant p ValueUnstructured c
  else if (tag =? 3)%Z then read_variant p ValueBit c
  else if (tag =? 4)%Z then read_variant p ValueInteger64 c
  else if (tag =? 5)%Z then read_variant p ValueInteger32 c
  else if (tag =? 6)%Z then read_variant p ValueInteger16 c
  else if (tag =? 7)%Z then read_variant p ValueInteger8 c
  else if (tag =? 8)%Z then read_variant p ValueNatural64 c
  else if (tag =? 9)%Z then read_variant p ValueNatural32 c
  else if (tag =? 10)%Z then read_variant p ValueNatural16 c
  else if (tag =? 11)%Z then read_variant p ValueNatural8 c
  else if (tag =? 12)%Z then read_variant p ValueReal64 c
  else if (tag =? 13)%Z then read_variant p ValueReal32 c
  else if (tag =? 14)%Z then read_variant p ValueReal16 c
  else Ret (c, Err UnionTag).

#[global] Instance value_deserialize : Deserialize Value := {
  deserialize p c := '(c, tag) ← read_aligned_u8 c; read_value p tag c;
}.

(** ** Names and timestamps *)

Record Name := mkName { name_name : list u8 }.

#[global] Instance name_type : DataType Name := { EXTENT_BYTES := None }.
#[global] Instance name_serialize : Serialize Name := {
  size_bits v := 8 + length (name_name v) * 8 + 0;
  serialize p v c :=
    c ← write_aligned_u8 c (as_u8 (Z.of_nat (length (name_name v))));
    write_bytes p c (name_name v);
}.
#[global] Instance name_deserialize : Deserialize Name := {
  deserialize p c :=
    '(c, length) ← read_u8 p c;
    read_array mkName 255 (read_u8 p) length c;
}.

Record SynchronizedTimestamp := mkSynchronizedTimestamp { microsecond : u64 }.
Definition UNKNOWN : u64 := 0.

#[global] Instance timestamp_type : DataType SynchronizedTimestamp := { EXTENT_BYTES := None }.
#[global] Instance timestamp_serialize : Serialize SynchronizedTimestamp := {
  size_bits _ := 56;
  serialize p v c := write_u56 p c (microsecond v);
}.
#[global] Instance timestamp_deserialize : Deserialize SynchronizedTimestamp := {
  deserialize p c := '(c, x) ← read_u56 p c; Ret (c, Ok (mkSynchronizedTimestamp x));
}.

(** ** Requests and responses *)

Definition access_SERVICE : ServiceId := ServiceId_from_truncating 384.
Definition list_SERVICE : ServiceId := ServiceId_from_truncating 385.

Record AccessRequest := mkAccessRequest { aq_name : Name; aq_value : Value }.

#[global] Instance access_request_type : DataType AccessRequest := { EXTENT_BYTES := None }.
#[global] Instance access_request_serialize : Serialize AccessRequest := {
  size_bits v := size_bits (aq_name v) + size_bits (aq_value v) + 0;
  serialize p v c := c ← write_composite p c (aq_name v); write_composite p c (aq_value v);
}.
#[global] Instance access_request_deserialize : Deserialize AccessRequest := {
  deserialize p c :=
    try_read (read_composite p c) (λ name c,
    try_read (read_composite p c) (λ value c,
    Ret (c, Ok (mkAccessRequest name value))));
}.

Record AccessResponse := mkAccessResponse {
  ar_timestamp : SynchronizedTimestamp;
  ar_mutable : bool;
  ar_persistent : bool;
  ar_value : Value;
}.

#[global] Instance access_response_type : DataType AccessResponse := { EXTENT_BYTES := None }.
#[global] Instance access_response_serialize : Serialize AccessResponse := {
  size_bits v := 56 + 1 + 1 + 6 + size_bits (ar_value v) + 0;
  serialize p v c :=
    c ← write_composite p c (ar_timestamp v);
    c ← write_bool p c (ar_mutable v);
    c ← write_bool p c (ar_persistent v);
    c ← wc_skip_6 c;
    write_composite p c (ar_value v);
}.
#[global] Instance access_response_deserialize : Deserialize AccessResponse := {
  deserialize p c :=
    try_read (read_composite p c) (λ timestamp c,
    '(c, mutable) ← read_bool p c;
    '(c, persistent) ← read_bool p c;
    let c := rc_skip_6 c in
    try_read (read_composite p c) (λ value c,
    Ret (c, Ok (mkAccessResponse timestamp mutable persistent value))));
}.

Record ListRequest := mkListRequest { lq_index : u16 }.

#[global] Instance list_request_type : DataType ListRequest := { EXTENT_BYTES := None }.
#[global] Instance list_request_serialize : Serialize ListRequest := {
  size_bits _ := 16;
  serialize p v c := write_aligned_bytes c (to_le_bytes 2 (lq_index v));
}.
#[global] Instance list_request_deserialize : Deserialize ListRequest := {
  deserialize p c :=
    '(c, bytes) ← deserialize_zero_copy 2 c;
    Ret (c, Ok (mkListRequest (from_le_bytes bytes)));
}.

Record ListResponse := mkListResponse { lr_name : Name }.

#[global] Instance list_response_type : DataType ListResponse := { EXTENT_BYTES := None }.
#[global] Instance list_response_serialize : Serialize ListResponse := {
  size_bits v := size_bits (lr_name v) + 0;
  serialize p v c := write_composite p c (lr_name v);
}.
#[global] Instance list_response_deserialize : Deserialize ListResponse := {
  deserialize p c :=
    try_read (read_composite p c) (λ name c, Ret (c, Ok (mkListResponse name)));
}.
