(* ===== verification/Codec.v ===== *)
(** * Serialization that can be read back

    [coded]: what one function writes, another reads back, with the same number of bits, in
    any builds. The relation composes along the steps of a serializer and the steps of the
    deserializer, so the round trip of a type follows from those of its fields. [Codec] is
    the class of types whose values come back. *)

From S2P Require Import Prelude EncCursor EncFields EncCursorSpec EncFieldsSpec EncBits.
From S2P Require Import NodeSpec DataTypesSpec RegisterTypes.

(** [c'] is [c] with [n] more bits. *)
Definition written (c c' : WriteCursor) (n : nat) : Prop :=
  wc_ok c' ∧ length (wc_bytes c') = length (wc_bytes c) ∧ bits_written c' = bits_written c + n ∧
  ∀ i, i < bits_written c → bit_at (wc_bytes c') i = bit_at (wc_bytes c) i.

(** [r] is at the [n] bits that were written from [c] on, at the same position in a byte. *)
Definition facing (r : ReadCursor) (c c' : WriteCursor) (n : nat) : Prop :=
  rc_ok r ∧ rc_bit_index r = wc_bit_index c ∧
  ∀ i, i < n → stream r i = bit_at (wc_bytes c') (bits_written c + i).

Definition coded {A} (k : nat) (wr : profile → WriteCursor → exec WriteCursor)
    (rd : profile → ReadCursor → exec (ReadCursor * A)) (n : nat) (a : A) : Prop :=
  ∀ p c, wc_ok c → wc_bit_index c = k → bits_written c + n ≤ 8 * length (wc_bytes c) →
  ∃ c', wr p c = Ret c' ∧ written c c' n ∧
    ∀ p' r, facing r c c' n → ∃ r', rd p' r = Ret (r', a) ∧ consumed r r' n.

Lemma appended_written c c' v n : appended c c' v n → written c c' n.
Proof. intros (H1 & H2 & H3 & H4 & _). by split_and!. Qed.

Lemma written_grown c c' n m : written c c' n → n ≤ m → grown c c' m.
Proof. intros (H1 & H2 & H3 & _) Hm. split_and!; [done|done|lia|lia]. Qed.

Lemma written_index c c' n : wc_ok c → written c c' n → wc_bit_index c' = (wc_bit_index c + n) mod 8.
Proof.
  intros (Hi & _) ((Hi' & _) & _ & Hw & _). unfold bits_written in *.
  apply (Nat.mod_unique _ _ (wc_bytes_written c' - wc_bytes_written c)); lia.
Qed.

Lemma written_trans c c1 c2 n m : written c c1 n → written c1 c2 m → written c c2 (n + m).
Proof.
  intros (_ & L1 & B1 & O1) (H2 & L2 & B2 & O2). split_and!; [done|lia|lia|].
  intros i Hi. rewrite O2, O1 by lia. done.
Qed.

(** The first part of what a cursor faces, and the rest. *)
Lemma facing_first r c c1 c2 n m : written c c1 n → written c1 c2 m → facing r c c2 (n + m) → facing r c c1 n.
Proof.
  intros (_ & _ & B1 & _) (_ & _ & _ & O2) (Hr & Hi & Hs). split_and!; [done|done|].
  intros i Hin. rewrite Hs, O2 by lia. done.
Qed.
Lemma facing_rest r r1 c c1 c2 n m : wc_ok c → written c c1 n → facing r c c2 (n + m) → consumed r r1 n →
  facing r1 c1 c2 m.
Proof.
  intros Hc Hw (Hr & Hi & Hs) (Hr1 & S1 & I1 & _). pose proof Hw as (_ & _ & B1 & _). split_and!; [done| |].
  - by rewrite I1, Hi, (written_index _ _ _ Hc Hw).
  - intros i Him. rewrite S1, Hs, B1 by lia. f_equal. lia.
Qed.

Section combinators.
Context {A B : Type}.
Implicit Types wr : profile → WriteCursor → exec WriteCursor.

Lemma coded_bits n m k wr (rd : profile → ReadCursor → exec (ReadCursor * A)) a :
  coded k wr rd n a → n = m → coded k wr rd m a.
Proof. by intros ? <-. Qed.

Lemma coded_ret k (a : A) : coded k (λ _ c, Ret c) (λ _ r, Ret (r, a)) 0 a.
Proof.
  intros p c Hc _ _. exists c. split_and!; [done|split_and!; [done|done|lia|done]|].
  intros p' r (Hr & _). exists r. split; [done|by apply consumed_refl].
Qed.

(** Two steps; the second may depend on what was read in the first. *)
Lemma coded_bind k wr1 wr2 (rd1 : profile → ReadCursor → exec (ReadCursor * A))
    (rd2 : profile → A → ReadCursor → exec (ReadCursor * B)) n m a b :
  coded k wr1 rd1 n a → coded ((k + n) mod 8) wr2 (λ p, rd2 p a) m b →
  coded k (λ p c, c ← wr1 p c; wr2 p c) (λ p r, '(r, x) ← rd1 p r; rd2 p x r) (n + m) b.
Proof.
  intros H1 H2 p c Hc Hk Hfit. destruct (H1 p c Hc Hk) as (c1 & -> & W1 & R1); [lia|]. cbn [mbind exec_bind].
  pose proof (written_index _ _ _ Hc W1) as I1. rewrite Hk in I1. pose proof W1 as (Hc1 & L1 & B1 & _).
  destruct (H2 p c1 Hc1 I1) as (c2 & -> & W2 & R2); [lia|]. exists c2.
  split_and!; [done|exact (written_trans _ _ _ _ _ W1 W2)|]. intros p' r Hr.
  destruct (R1 p' r) as (r1 & -> & C1); [exact (facing_first _ _ _ _ _ _ W1 W2 Hr)|]. cbn [mbind exec_bind].
  destruct (R2 p' r1) as (r2 & -> & C2); [exact (facing_rest _ _ _ _ _ _ _ Hc W1 Hr C1)|].
  exists r2. split; [done|exact (consumed_trans _ _ _ _ _ C1 C2)].
Qed.

(** A step after [?]. *)
Lemma coded_try k wr1 wr2 (rd1 : profile → ReadCursor → exec (ReadCursor * result DeserializeError A))
    (rd2 : profile → A → ReadCursor → exec (ReadCursor * result DeserializeError B)) n m a b :
  coded k wr1 rd1 n (Ok a) → coded ((k + n) mod 8) wr2 (λ p, rd2 p a) m b →
  coded k (λ p c, c ← wr1 p c; wr2 p c) (λ p r, try_read (rd1 p r) (rd2 p)) (n + m) b.
Proof.
  intros H1 H2 p c Hc Hk Hfit. destruct (H1 p c Hc Hk) as (c1 & -> & W1 & R1); [lia|]. cbn [mbind exec_bind].
  pose proof (written_index _ _ _ Hc W1) as I1. rewrite Hk in I1. pose proof W1 as (Hc1 & L1 & B1 & _).
  destruct (H2 p c1 Hc1 I1) as (c2 & -> & W2 & R2); [lia|]. exists c2.
  split_and!; [done|exact (written_trans _ _ _ _ _ W1 W2)|]. intros p' r Hr. unfold try_read.
  destruct (R1 p' r) as (r1 & -> & C1); [exact (facing_first _ _ _ _ _ _ W1 W2 Hr)|]. cbn [mbind exec_bind].
  destruct (R2 p' r1) as (r2 & -> & C2); [exact (facing_rest _ _ _ _ _ _ _ Hc W1 Hr C1)|].
  exists r2. split; [done|exact (consumed_trans _ _ _ _ _ C1 C2)].
Qed.

(** A last step that computes with what was read. *)
Lemma coded_finish k wr (rd : profile → ReadCursor → exec (ReadCursor * A)) (f : A → B) n a :
  coded k wr rd n a → coded k wr (λ p r, '(r, x) ← rd p r; Ret (r, f x)) n (f a).
Proof.
  intros H p c Hc Hk Hfit. destruct (H p c Hc Hk Hfit) as (c1 & E & W & R). exists c1. split_and!; [done|done|].
  intros p' r Hr. destruct (R p' r Hr) as (r1 & -> & C). by exists r1.
Qed.
Lemma coded_try_finish k wr (rd : profile → ReadCursor → exec (ReadCursor * result DeserializeError A)) (f : A → B) n a :
  coded k wr rd n (Ok a) → coded k wr (λ p r, try_read (rd p r) (λ x r, Ret (r, Ok (f x)))) n (Ok (f a)).
Proof.
  intros H p c Hc Hk Hfit. destruct (H p c Hc Hk Hfit) as (c1 & E & W & R). exists c1. split_and!; [done|done|].
  intros p' r Hr. unfold try_read. destruct (R p' r Hr) as (r1 & -> & C). by exists r1.
Qed.
End combinators.

(** ** Single fields *)

(** Any function that appends the bits of [v], with any that reads as many. *)
Lemma coded_value n k v (wr : profile → WriteCursor → exec WriteCursor) (rd : profile → ReadCursor → exec (ReadCursor * Z)) :
  (∀ p c, wc_ok c → wc_bit_index c = k → bits_written c + n ≤ 8 * length (wc_bytes c) →
    ∃ c', wr p c = Ret c' ∧ appended c c' v n) →
  (∀ p r, rc_ok r → rc_bit_index r = k → ∃ r' x, rd p r = Ret (r', x) ∧ consumed r r' n ∧ next_bits r n x) →
  coded k wr rd n (wrap (Z.of_nat n) v).
Proof.
  intros Hw Hr p c Hc Hk Hfit. destruct (Hw p c Hc Hk Hfit) as (c' & E & A). exists c'.
  split_and!; [done|by eapply appended_written|]. intros p' r (Hok & Hi & Hs).
  destruct (Hr p' r Hok) as (r' & x & -> & C & N); [congruence|]. exists r'. split; [|done].
  rewrite (next_bits_unique r n v x N); [done|]. intros i Hin. rewrite Hs by done. by apply A.
Qed.

Lemma coded_small n k v wr (rd : profile → ReadCursor → exec (ReadCursor * Z)) :
  is_u (Z.of_nat n) v → coded k wr rd n (wrap (Z.of_nat n) v) → coded k wr rd n v.
Proof. intros Hv. by rewrite wrap_small. Qed.

Lemma coded_field n k f g v : write_fns !! n = Some f → read_fns !! n = Some g →
  coded k (λ p c, f p c v) g (S n) (wrap (Z.of_nat (S n)) v).
Proof.
  intros Hf Hg. apply coded_value; intros; [by apply (write_fns_spec n)|].
  by apply (read_fns_spec n).
Qed.

(** Aligned writes, read by the general functions. *)
Lemma coded_aligned_u8 n : (0 ≤ n < 256)%Z → coded 0 (λ p c, write_aligned_u8 c (as_u8 n)) (λ p r, read_u8 p r) 8 n.
Proof.
  intros Hn. rewrite (wrap_small 8 n) by done. apply coded_small; [done|]. apply coded_value.
  - intros p c Hc H0 Hfit. by apply write_aligned_u8_spec.
  - intros p r Hr _. by apply (read_fns_spec 7).
Qed.
Lemma coded_aligned_u16 n : (0 ≤ n < 65536)%Z → coded 0 (λ p c, write_aligned_u16 c (as_u16 n)) (λ p r, read_u16 p r) 16 n.
Proof.
  intros Hn. rewrite (wrap_small 16 n) by done. apply coded_small; [done|]. apply coded_value.
  - intros p c Hc H0 Hfit. by apply (write_aligned_spec 2).
  - intros p r Hr _. by apply (read_fns_spec 15).
Qed.

(** An aligned read takes the next byte. *)
Lemma read_aligned_u8_spec r : rc_ok r → rc_bit_index r = 0 →
  ∃ r' x, read_aligned_u8 r = Ret (r', x) ∧ consumed r r' 8 ∧ next_bits r 8 x.
Proof.
  intros Hr Hi. unfold read_aligned_u8, rc_is_aligned_to_8_bits. rewrite Hi. cbn [Nat.eqb assert_ mbind exec_bind].
  eexists _, _. split; [done|]. split.
  - replace (advance_bytes r 1) with (rc_advance_bits r 8); [by apply rc_advance_spec|].
    unfold rc_advance_bits. rewrite Hi. cbn [Nat.add Nat.modulo Nat.div]. by destruct r; cbn in *; subst.
  - split; [apply byte_at_ok, Hr|]. intros k Hk. unfold read_current, stream, bit_at. rewrite Hi.
    by rewrite Nat.add_0_l, Nat.div_small, Nat.mod_small.
Qed.

Lemma coded_tag n : (0 ≤ n < 256)%Z → coded 0 (λ p c, write_aligned_u8 c n) (λ p r, read_aligned_u8 r) 8 n.
Proof.
  intros Hn. apply coded_small; [done|]. apply coded_value.
  - intros p c Hc H0 Hfit. by apply write_aligned_u8_spec.
  - intros p r Hr H0. by apply read_aligned_u8_spec.
Qed.

Lemma coded_bool k b : coded k (λ p c, write_bool p c b) (λ p r, read_bool p r) 1 b.
Proof.
  pose proof (coded_finish k _ _ (λ v, v =? 1)%Z _ _ (coded_field 0 k _ _ (b2z b) eq_refl eq_refl)) as H.
  by destruct b.
Qed.

(** Bits that are skipped on both sides. *)
Lemma wc_skip_spec c n : wc_ok c → bits_written c + n ≤ 8 * length (wc_bytes c) →
  ∃ c', wc_skip_bits c n = Ret c' ∧ written c c' n.
Proof.
  intros Hc Hfit. pose proof Hc as (Hb & Hle & Hby & Hz). unfold wc_skip_bits.
  rewrite check_length_spec by done. rewrite (proj2 (Nat.ltb_lt _ _)) by lia. cbn [mbind exec_bind].
  destruct (wc_advance_spec c n Hc Hfit) as (c' & -> & Hs & Hi & Hw). exists c'. split; [done|].
  split_and!; [split_and!; [done|rewrite Hs; lia|by rewrite Hs|intros i Hi'; rewrite Hs; apply Hz; lia]|by rewrite Hs|done|by rewrite Hs].
Qed.

Lemma coded_skip {A} k n m wr (rd : profile → ReadCursor → exec (ReadCursor * A)) a :
  coded ((k + n) mod 8) wr rd m a →
  coded k (λ p c, c ← wc_skip_bits c n; wr p c) (λ p r, rd p (rc_advance_bits r n)) (n + m) a.
Proof.
  intros H p c Hc Hk Hfit. destruct (wc_skip_spec c n Hc) as (c1 & -> & W1); [lia|]. cbn [mbind exec_bind].
  pose proof (written_index _ _ _ Hc W1) as I1. rewrite Hk in I1. pose proof W1 as (Hc1 & L1 & B1 & _).
  destruct (H p c1 Hc1 I1) as (c2 & -> & W2 & R2); [lia|]. exists c2. split_and!; [done|exact (written_trans _ _ _ _ _ W1 W2)|].
  intros p' r Hr. assert (C1 : consumed r (rc_advance_bits r n) n) by apply rc_advance_spec, Hr.
  destruct (R2 p' (rc_advance_bits r n)) as (r2 & -> & C2); [exact (facing_rest _ _ _ _ _ _ _ Hc W1 Hr C1)|].
  exists r2. split; [done|exact (consumed_trans _ _ _ _ _ C1 C2)].
Qed.

(** ** Arrays *)

Lemma coded_elements {A} cap n (wr : profile → WriteCursor → A → exec WriteCursor)
    (rd : profile → ReadCursor → exec (ReadCursor * A)) l : ∀ k acc,
  Forall (λ x, ∀ k, coded k (λ p c, wr p c x) rd n x) l → length acc + length l ≤ cap →
  coded k (λ p c, write_elements (wr p) c l) (λ p r, read_elements cap (rd p) (length l) r acc)
    (length l * n) (acc ++ l).
Proof.
  induction l as [|x l IH]; intros k acc Hall Hcap; cbn [write_elements read_elements length].
  { rewrite app_nil_r. apply coded_ret. }
  apply Forall_cons in Hall as [Hx Hall]. cbn [length] in Hcap.
  apply (coded_bits (n + length l * n)); [|lia].
  refine (coded_bind k (λ p c, wr p c x) (λ p c, write_elements (wr p) c l) rd
    (λ p y r, read_elements cap (rd p) (length l) r (push_ignoring cap acc y)) _ _ x _ (Hx k) _).
  unfold push_ignoring. rewrite (proj2 (Nat.ltb_lt _ _)) by lia.
  rewrite (cons_middle x acc l), app_assoc. apply IH; [done|rewrite length_app; cbn; lia].
Qed.

Section arrays.
Context {A V : Type} (mk : list A → V) (cap n : nat) (wr : profile → WriteCursor → A → exec WriteCursor).
Context (rd : profile → ReadCursor → exec (ReadCursor * A)) (l : list A).
Hypothesis elements_coded : Forall (λ x, ∀ k, coded k (λ p c, wr p c x) rd n x) l.
Hypothesis elements_fit : length l ≤ cap.

Lemma coded_array_elements : coded 0 (λ p c, write_elements (wr p) c l)
  (λ p r, read_array mk cap (rd p) (Z.of_nat (length l)) r) (length l * n) (Ok (mk l)).
Proof.
  unfold read_array. rewrite (proj2 (Z.leb_le _ _)), Nat2Z.id by lia.
  apply (coded_finish 0 _ (λ p r, read_elements cap (rd p) (length l) r []) (λ elements, Ok (mk elements)) _ l).
  by apply (coded_elements cap n wr rd l 0 []).
Qed.

Lemma coded_array8 : cap < 256 →
  coded 0 (λ p c, c ← write_aligned_u8 c (as_u8 (Z.of_nat (length l))); write_elements (wr p) c l)
    (λ p r, '(r, n) ← read_u8 p r; read_array mk cap (rd p) n r) (8 + length l * n) (Ok (mk l)).
Proof.
  intros Hcap. refine (coded_bind 0 _ _ _ (λ p n r, read_array mk cap (rd p) n r) 8 _ _ _ (coded_aligned_u8 _ _) _); [lia|].
  apply coded_array_elements.
Qed.

Lemma coded_array16 : (Z.of_nat cap < 65536)%Z →
  coded 0 (λ p c, c ← write_aligned_u16 c (as_u16 (Z.of_nat (length l))); write_elements (wr p) c l)
    (λ p r, '(r, n) ← read_u16 p r; read_array mk cap (rd p) n r) (16 + length l * n) (Ok (mk l)).
Proof.
  intros Hcap. refine (coded_bind 0 _ _ _ (λ p n r, read_array mk cap (rd p) n r) 16 _ _ _ (coded_aligned_u16 _ _) _); [lia|].
  apply coded_array_elements.
Qed.
End arrays.

Lemma write_bytes_elements p l : ∀ c, write_bytes p c l = write_elements (write_u8 p) c l.
Proof.
  induction l as [|b l IH]; intros c; [done|]. cbn [write_bytes write_elements].
  destruct (write_u8 p c b); [apply IH|done].
Qed.

(** Elements of the widths of the integers. *)
Definition is_i (w z : Z) : Prop := (- 2 ^ (w - 1) ≤ z < 2 ^ (w - 1))%Z.

Lemma as_signed_wrap w z : (0 < w)%Z → is_i w z → as_signed w (wrap w z) = z.
Proof.
  intros Hw Hz. unfold is_i in Hz. assert (Hp : (2 ^ w = 2 * 2 ^ (w - 1))%Z).
  { rewrite <- Z.pow_succ_r by lia. f_equal. lia. }
  unfold as_signed, wrap. rewrite Hp. revert Hz. generalize (2 ^ (w - 1))%Z. intros h Hz.
  destruct (Z_lt_ge_dec z 0) as [Hneg|Hpos].
  - replace (z mod (2 * h))%Z with (z + 2 * h)%Z; [|apply (Z.mod_unique _ _ (-1)); lia].
    case_cmp; lia.
  - rewrite Z.mod_small by lia. case_cmp; lia.
Qed.

Lemma coded_unsigned n f g x : write_fns !! n = Some f → read_fns !! n = Some g → is_u (Z.of_nat (S n)) x →
  ∀ k, coded k (λ p c, f p c x) g (S n) x.
Proof. intros Hf Hg Hx k. apply coded_small; [done|]. by apply (coded_field n). Qed.

Lemma coded_signed n f g x : write_fns !! n = Some f → read_fns !! n = Some g → is_i (Z.of_nat (S n)) x →
  ∀ k, coded k (λ p c, f p c (wrap (Z.of_nat (S n)) x)) (λ p r, read_signed (Z.of_nat (S n)) (g p) r) (S n) x.
Proof.
  intros Hf Hg Hx k.
  pose proof (coded_finish k _ g (as_signed (Z.of_nat (S n))) _ _ (coded_field n k f g (wrap (Z.of_nat (S n)) x) Hf Hg)) as H.
  rewrite wrap_wrap, as_signed_wrap in H by (done || lia). exact H.
Qed.

(** ** Types *)

Class Codec (M : Type) `{Serialize M, !Deserialize M} := {
  encodable : M → Prop;
  codec v : encodable v → coded 0 (λ p c, serialize p v c) deserialize (size_bits v) (Ok v);
}.

Lemma wc_aligned c : wc_bit_index c = 0 → wc_align_to_8_bits c = Ret c.
Proof. intros H. unfold wc_align_to_8_bits. by rewrite H. Qed.
Lemma rc_aligned r : rc_bit_index r = 0 → rc_align_to_8_bits r = Ret r.
Proof. intros H. unfold rc_align_to_8_bits. by rewrite H. Qed.

(** A composite value takes whole bytes. *)
Definition whole_bytes (n : nat) : nat := 8 * ((n + 7) / 8).

Lemma coded_composite {M} `{Codec M} (v : M) : is_delimited (T := M) = false → encodable v →
  coded 0 (λ p c, write_composite p c v) (λ p r, read_composite p r) (whole_bytes (size_bits v)) (Ok v).
Proof.
  intros Hd Hv p c Hc Hal Hfit. unfold write_composite, read_composite. rewrite Hd. unfold whole_bytes in *.
  rewrite (wc_aligned c Hal). cbn [mbind exec_bind].
  destruct (codec v Hv p c Hc Hal) as (c1 & -> & W1 & R1); [dlia|]. cbn [mbind exec_bind].
  pose proof W1 as (Hc1 & L1 & B1 & O1). destruct (align_spec c1 Hc1) as (c2 & -> & Hc2 & Hby & I2 & B2).
  pose proof (aligned_bits c Hal) as E. assert (W2 : written c c2 (8 * ((size_bits v + 7) / 8))).
  { split_and!; [done|by rewrite Hby|rewrite B2; dlia|by rewrite Hby]. }
  exists c2. split_and!; [done|done|]. intros p' r (Hr & Ir & Sr).
  rewrite (rc_aligned r) by congruence. cbn [mbind exec_bind].
  destruct (R1 p' r) as (r1 & -> & C1); [split_and!; [done|done|intros i Hi; rewrite Sr, Hby by dlia; done]|].
  cbn [mbind exec_bind]. unfold rc_align_to_8_bits. pose proof C1 as (_ & _ & Ir1 & _). rewrite Ir, Hal, Nat.add_0_l in Ir1.
  rewrite Ir1. destruct (Nat.eqb_spec (size_bits v mod 8) 0) as [Hz|Hz]; cbn [negb mbind exec_bind].
  - exists r1. split; [done|]. replace (8 * _) with (size_bits v) by dlia. done.
  - unfold usize_sub. rewrite (proj2 (Nat.leb_le _ _)) by dlia. cbn [mbind exec_bind].
    eexists. split; [done|]. replace (8 * _) with (size_bits v + (8 - size_bits v mod 8)) by dlia.
    eapply consumed_trans; [exact C1|]. apply rc_advance_spec, C1.
Qed.

Lemma codec_serializes {M} `{Codec M} p (v : M) c : encodable v → wc_ok c → wc_bit_index c = 0 →
  bits_written c + size_bits v ≤ 8 * length (wc_bytes c) →
  ∃ c', serialize p v c = Ret c' ∧ grown c c' (size_bits v).
Proof.
  intros Hv Hc Hal Hfit. destruct (codec v Hv p c Hc Hal Hfit) as (c' & E & W & _). exists c'.
  split; [done|by eapply written_grown].
Qed.

(** A value that is serialized into a buffer of its size comes back from the bytes, and from
    the bytes with any padding. *)
Lemma codec_roundtrip {M} `{Codec M} p p' (v : M) : encodable v →
  let n := (size_bits v + 7) / 8 in
  ∃ bytes, serialize_to_bytes p v (replicate n 0%Z) = Ret bytes ∧ length bytes = n ∧ bytes_ok bytes ∧
    ∀ padding, bytes_ok padding → deserialize_from_bytes p' (bytes ++ padding) = Ret (Ok v).
Proof.
  intros Hv n. destruct (WriteCursor_new_ok (replicate n 0%Z)) as (Hc & Hw & Hl).
  rewrite length_replicate in Hl.
  destruct (codec v Hv p (WriteCursor_new (replicate n 0%Z)) Hc eq_refl) as (c' & Hs & W & R); [rewrite Hw, Hl; unfold n; dlia|].
  pose proof W as (Hc' & L & B & _). unfold serialize_to_bytes. rewrite Hs. cbn [mbind exec_bind]. eexists.
  split_and!; [done|congruence|apply Hc'|]. intros padding Hpad. unfold deserialize_from_bytes.
  destruct (R p' (ReadCursor_new (wc_bytes c' ++ padding))) as (r' & -> & _); [|done].
  split_and!; [split; cbn; [lia|apply Forall_app; split; [apply Hc'|done]]|done|].
  intros i Hi. rewrite Hw. unfold stream, ReadCursor_new, bit_at. cbn [rc_bytes rc_bit_index].
  rewrite !Nat.add_0_l, lookup_app_l; [done|]. apply Nat.Div0.div_lt_upper_bound. rewrite L, Hl. unfold n. dlia.
Qed.
