(* ===== verification/RegisterTypesSpec.v ===== *)
(** * Register messages come back

    Every type of [RegisterTypes] but the arrays of bits can be read back; registers with any
    value can be sent. *)

From S2P Require Import Prelude CoreTypes EncCursor EncFields EncCursorSpec EncFieldsSpec EncBits.
From S2P Require Import NodeSpec DataTypesSpec RegisterTypes Codec.

(** ** Arrays *)

(** An array with at most [cap] elements of the type. *)
Definition array_ok {A} (element_ok : A → Prop) (cap : nat) (l : list A) : Prop :=
  length l ≤ cap ∧ Forall element_ok l.

Lemma coded_ext {A} k wr wr' (rd : profile → ReadCursor → exec (ReadCursor * A)) n a :
  (∀ p c, wr p c = wr' p c) → coded k wr rd n a → coded k wr' rd n a.
Proof. intros E H p c. rewrite <- E. apply H. Qed.

Lemma coded_byte_elements l : bytes_ok l → Forall (λ x, ∀ k, coded k (λ p c, write_u8 p c x) read_u8 8 x) l.
Proof. intros Hl. eapply Forall_impl; [exact Hl|]. intros x Hx. by apply (coded_unsigned 7). Qed.

Lemma coded_bytes16 {V} (mk : list u8 → V) cap l : (Z.of_nat cap < 65536)%Z → array_ok byte_ok cap l →
  coded 0 (λ p c, c ← write_aligned_u16 c (as_u16 (Z.of_nat (length l))); write_bytes p c l)
    (λ p r, '(r, n) ← read_u16 p r; read_array mk cap (read_u8 p) n r) (16 + length l * 8) (Ok (mk l)).
Proof.
  intros Hcap [Hlen Hl].
  eapply coded_ext; [|apply (coded_array16 mk cap 8 write_u8); [by apply coded_byte_elements|done|done]].
  intros p c. cbv beta. destruct (write_aligned_u16 c _); [|done]. symmetry. apply write_bytes_elements.
Qed.
Lemma coded_bytes8 {V} (mk : list u8 → V) cap l : cap < 256 → array_ok byte_ok cap l →
  coded 0 (λ p c, c ← write_aligned_u8 c (as_u8 (Z.of_nat (length l))); write_bytes p c l)
    (λ p r, '(r, n) ← read_u8 p r; read_array mk cap (read_u8 p) n r) (8 + length l * 8) (Ok (mk l)).
Proof.
  intros Hcap [Hlen Hl].
  eapply coded_ext; [|apply (coded_array8 mk cap 8 write_u8); [by apply coded_byte_elements|done|done]].
  intros p c. cbv beta. destruct (write_aligned_u8 c _); [|done]. symmetry. apply write_bytes_elements.
Qed.

(** Solves the obligation of a type that is one array: [law] is the lemma for the length field,
    [element] the one for the elements. *)
Ltac codec_array law element :=
  intros [l] [Hlen Hl]; eapply coded_bits;
    [apply law; [|exact Hlen|cbn; lia]; eapply Forall_impl; [exact Hl|]; intros x Hx; by apply element|];
  cbn; lia.
Ltac codec_bytes law :=
  intros [l] Hl; eapply coded_bits; [apply law; [cbn; lia|exact Hl]|]; cbn; lia.

#[global] Program Instance integer16_codec : Codec Integer16 := { encodable v := array_ok (is_i 16) 128 (integer16_value v) }.
Next Obligation. codec_array (coded_array8 mkInteger16 128 16 (λ p c x, write_u16 p c (as_u16 x)) (λ p, read_signed 16 (read_u16 p))) (coded_signed 15 write_u16 read_u16). Qed.
#[global] Program Instance integer32_codec : Codec Integer32 := { encodable v := array_ok (is_i 32) 64 (integer32_value v) }.
Next Obligation. codec_array (coded_array8 mkInteger32 64 32 (λ p c x, write_u32 p c (as_u32 x)) (λ p, read_signed 32 (read_u32 p))) (coded_signed 31 write_u32 read_u32). Qed.
#[global] Program Instance integer64_codec : Codec Integer64 := { encodable v := array_ok (is_i 64) 32 (integer64_value v) }.
Next Obligation. codec_array (coded_array8 mkInteger64 32 64 (λ p c x, write_u64 p c (as_u64 x)) (λ p, read_signed 64 (read_u64 p))) (coded_signed 63 write_u64 read_u64). Qed.
#[global] Program Instance integer8_codec : Codec Integer8 := { encodable v := array_ok (is_i 8) 256 (integer8_value v) }.
Next Obligation. codec_array (coded_array16 mkInteger8 256 8 (λ p c x, write_u8 p c (as_u8 x)) (λ p, read_signed 8 (read_u8 p))) (coded_signed 7 write_u8 read_u8). Qed.
#[global] Program Instance natural16_codec : Codec Natural16 := { encodable v := array_ok (is_u 16) 128 (natural16_value v) }.
Next Obligation. codec_array (coded_array8 mkNatural16 128 16 write_u16 read_u16) (coded_unsigned 15 write_u16 read_u16). Qed.
#[global] Program Instance natural32_codec : Codec Natural32 := { encodable v := array_ok (is_u 32) 64 (natural32_value v) }.
Next Obligation. codec_array (coded_array8 mkNatural32 64 32 write_u32 read_u32) (coded_unsigned 31 write_u32 read_u32). Qed.
#[global] Program Instance natural64_codec : Codec Natural64 := { encodable v := array_ok (is_u 64) 32 (natural64_value v) }.
Next Obligation. codec_array (coded_array8 mkNatural64 32 64 write_u64 read_u64) (coded_unsigned 63 write_u64 read_u64). Qed.
#[global] Program Instance natural8_codec : Codec Natural8 := { encodable v := array_ok byte_ok 256 (natural8_value v) }.
Next Obligation. codec_bytes (coded_bytes16 mkNatural8 256). Qed.
#[global] Program Instance real16_codec : Codec Real16 := { encodable v := array_ok (is_u 16) 128 (real16_value v) }.
Next Obligation. codec_array (coded_array8 mkReal16 128 16 write_u16 read_u16) (coded_unsigned 15 write_u16 read_u16). Qed.
#[global] Program Instance real32_codec : Codec Real32 := { encodable v := array_ok (is_u 32) 64 (real32_value v) }.
Next Obligation. codec_array (coded_array8 mkReal32 64 32 write_u32 read_u32) (coded_unsigned 31 write_u32 read_u32). Qed.
#[global] Program Instance real64_codec : Codec Real64 := { encodable v := array_ok (is_u 64) 32 (real64_value v) }.
Next Obligation. codec_array (coded_array8 mkReal64 32 64 write_u64 read_u64) (coded_unsigned 63 write_u64 read_u64). Qed.
#[global] Program Instance string_codec : Codec String_1_0 := { encodable v := array_ok byte_ok 256 (string_value v) }.
Next Obligation. codec_bytes (coded_bytes16 mkString_1_0 256). Qed.
#[global] Program Instance unstructured_codec : Codec Unstructured_1_0 := { encodable v := array_ok byte_ok 256 (unstructured_value v) }.
Next Obligation. codec_bytes (coded_bytes16 mkUnstructured_1_0 256). Qed.
#[global] Program Instance name_codec : Codec Name := { encodable v := array_ok byte_ok 255 (name_name v) }.
Next Obligation. codec_bytes (coded_bytes8 mkName 255). Qed.

(** ** Values that are copied as a whole *)

Lemma write_aligned_bytes_spec c bytes : wc_ok c → wc_bit_index c = 0 → bytes_ok bytes →
  bits_written c + 8 * length bytes ≤ 8 * length (wc_bytes c) →
  ∃ c', write_aligned_bytes c bytes = Ret c' ∧ appended c c' (of_bytes bytes) (8 * length bytes).
Proof.
  intros Hc Hal Hok Hfit. pose proof Hc as (_ & Hle & _). unfold bits_written in Hle, Hfit.
  unfold write_aligned_bytes, remaining_bytes. rewrite (proj2 (Nat.leb_le _ _)) by lia. cbn [mbind exec_bind].
  rewrite length_drop, (proj2 (Nat.leb_le _ _)) by lia. cbn [assert_ mbind exec_bind].
  apply write_aligned_appended; [done|done|unfold bits_written; lia|done|done|].
  intros i Hi. destruct (lookup_lt_is_Some_2 bytes i Hi) as [b Hb].
  rewrite Hb. symmetry. by apply of_bytes_byte.
Qed.

Lemma zero_copy_spec n r : rc_ok r → rc_bit_index r = 0 →
  ∃ r' l, deserialize_zero_copy n r = Ret (r', l) ∧ consumed r r' (8 * n) ∧ length l = n ∧ bytes_ok l ∧
    ∀ i, i < n → l !! i = Some (default 0%Z (rc_bytes r !! i)).
Proof.
  intros Hr Hi. unfold deserialize_zero_copy, as_bytes_slice. rewrite Hi. cbn [Nat.eqb unwrap mbind exec_bind].
  set (k := min n (length (rc_bytes r))). eexists _, _.
  assert (Hl : length (take k (rc_bytes r) ++ drop k (replicate n 0%Z)) = n).
  { rewrite length_app, length_take, length_drop, length_replicate. lia. }
  split_and!; [done| |exact Hl| |].
  - replace (advance_bytes r k) with (rc_advance_bits r (8 * n)); [by apply rc_advance_spec|].
    unfold rc_advance_bits, advance_bytes. cbn [rc_bytes rc_bit_index]. rewrite Hi.
    rewrite !Nat.add_0_l. replace (8 * n / 8) with n by dlia. replace ((8 * n) mod 8) with 0 by dlia.
    by replace (k `min` length (rc_bytes r)) with k by lia.
  - apply Forall_app. split; [apply Forall_take, Hr|]. apply Forall_drop, Forall_replicate. unfold byte_ok, is_u. lia.
  - intros i Hin. destruct (Nat.lt_ge_cases i k) as [Hik|Hik].
    + rewrite lookup_app_l by (rewrite length_take; lia). rewrite lookup_take_lt by done.
      destruct (lookup_lt_is_Some_2 (rc_bytes r) i) as [b Hb]; [lia|]. by rewrite Hb.
    + rewrite lookup_app_r by (rewrite length_take; lia). rewrite length_take, lookup_drop.
      rewrite lookup_replicate_2 by lia. rewrite lookup_ge_None_2; [done|lia].
Qed.

Lemma coded_zero_copy l : bytes_ok l →
  coded 0 (λ p c, write_aligned_bytes c l) (λ p r, deserialize_zero_copy (length l) r) (8 * length l) l.
Proof.
  intros Hl p c Hc H0 Hfit. destruct (write_aligned_bytes_spec c l Hc H0 Hl Hfit) as (c' & E & Ha).
  exists c'. split_and!; [done|by eapply appended_written|]. intros _ r (Hr & Ir & Sr). rewrite H0 in Ir.
  destruct (zero_copy_spec (length l) r Hr Ir) as (r' & l' & -> & C & Hlen & Hok & Hb). exists r'. split; [|done].
  do 2 f_equal. apply list_eq_same_length with (length l); [done|done|]. intros i x y Hi Hx Hy.
  rewrite Hb in Hx by done. injection Hx as <-.
  apply byte_eq; [apply byte_at_ok, Hr|by apply (Forall_lookup_1 _ _ _ _ Hl Hy)|]. intros k Hk.
  destruct Ha as (_ & _ & _ & _ & Hnew). specialize (Sr (8 * i + k) ltac:(lia)). rewrite Hnew in Sr by lia.
  rewrite testbit_of_bytes in Sr by done. unfold stream, bit_at in Sr. rewrite Ir, Nat.add_0_l in Sr.
  assert ((8 * i + k) / 8 = i ∧ (8 * i + k) mod 8 = k) as [E1 E2] by dlia. by rewrite E1, E2, Hy in Sr.
Qed.

#[global] Program Instance empty_codec : Codec Empty := { encodable _ := True }.
Next Obligation.
  intros [] _. apply (coded_finish 0 (λ p c, write_aligned_bytes c []) (λ p r, deserialize_zero_copy 0 r)
    (λ _, Ok mkEmpty) _ []). by apply coded_zero_copy.
Qed.

(** ** Values *)

(** A value that takes a known number of whole bytes as a composite. *)
Lemma coded_composite_bits {M} `{Codec M} (v : M) n : is_delimited (T := M) = false → encodable v →
  size_bits v = 8 * n →
  coded 0 (λ p c, write_composite p c v) (λ p r, read_composite p r) (8 * n) (Ok v).
Proof.
  intros Hd Hv Hn. eapply coded_bits; [by apply coded_composite|]. unfold whole_bytes. rewrite Hn. dlia.
Qed.

(** A tag and the composite that it announces. *)
Lemma coded_variant {M} `{Codec M} (variant : M → Value) tag (v : M) n : (0 ≤ tag < 256)%Z →
  is_delimited (T := M) = false → encodable v → size_bits v = 8 * n →
  (∀ p r, read_value p tag r = read_variant p variant r) →
  coded 0 (λ p c, c ← write_aligned_u8 c tag; write_composite p c v)
    (λ p r, '(r, tag) ← read_aligned_u8 r; read_value p tag r) (8 + 8 * n) (Ok (variant v)).
Proof.
  intros Htag Hd Hv Hn Hread. refine (coded_bind 0 _ _ _ (λ p tag r, read_value p tag r) 8 _ _ _ (coded_tag tag Htag) _).
  intros p c. setoid_rewrite Hread.
  revert p c. apply (coded_try_finish 0 _ (λ p r, read_composite p r) variant). by apply coded_composite_bits.
Qed.

(** The numbers of bytes that the inner values take. *)
Definition inner_bytes (v : Value) : nat :=
  match v with
  | ValueEmpty _ => 0
  | ValueString x => 2 + length (string_value x)
  | ValueUnstructured x => 2 + length (unstructured_value x)
  | ValueBit x => (ba_len (bit_value x) + 7) / 8
  | ValueInteger64 x => 1 + 8 * length (integer64_value x)
  | ValueInteger32 x => 1 + 4 * length (integer32_value x)
  | ValueInteger16 x => 1 + 2 * length (integer16_value x)
  | ValueInteger8 x => 2 + length (integer8_value x)
  | ValueNatural64 x => 1 + 8 * length (natural64_value x)
  | ValueNatural32 x => 1 + 4 * length (natural32_value x)
  | ValueNatural16 x => 1 + 2 * length (natural16_value x)
  | ValueNatural8 x => 2 + length (natural8_value x)
  | ValueReal64 x => 1 + 8 * length (real64_value x)
  | ValueReal32 x => 1 + 4 * length (real32_value x)
  | ValueReal16 x => 1 + 2 * length (real16_value x)
  end.

(** Values within the limits of their types; arrays of bits come back wrong. *)
Definition value_ok (v : Value) : Prop :=
  match v with
  | ValueEmpty x => encodable x
  | ValueString x => encodable x
  | ValueUnstructured x => encodable x
  | ValueBit x => ba_ok 256 (bit_value x)
  | ValueInteger64 x => encodable x
  | ValueInteger32 x => encodable x
  | ValueInteger16 x => encodable x
  | ValueInteger8 x => encodable x
  | ValueNatural64 x => encodable x
  | ValueNatural32 x => encodable x
  | ValueNatural16 x => encodable x
  | ValueNatural8 x => encodable x
  | ValueReal64 x => encodable x
  | ValueReal32 x => encodable x
  | ValueReal16 x => encodable x
  end.
Definition is_bit (v : Value) : Prop := match v with ValueBit _ => True | _ => False end.

Lemma value_size v : ~ is_bit v → size_bits v = 8 + 8 * inner_bytes v.
Proof.
  destruct v; intros Hb; try (by destruct Hb);
    cbn -[Nat.mul Nat.add]; try lia.
Qed.

#[global] Program Instance value_codec : Codec Value := { encodable v := value_ok v ∧ ~ is_bit v }.
Next Obligation.
  intros v [Hv Hb]. rewrite (value_size v Hb).
  destruct v; try (by destruct Hb);
    (eapply coded_variant; [lia|done|exact Hv|cbn; lia|done]).
Qed.

(** ** Requests and responses *)

#[global] Program Instance timestamp_codec : Codec SynchronizedTimestamp := {
  encodable v := is_u 56 (microsecond v);
}.
Next Obligation.
  intros [t] Ht. apply (coded_finish 0 _ (λ p r, read_u56 p r) (λ x, Ok (mkSynchronizedTimestamp x))).
  by apply (coded_unsigned 55).
Qed.

Lemma coded_name (v : Name) : encodable v →
  coded 0 (λ p c, write_composite p c v) (λ p r, read_composite p r) (size_bits v) (Ok v).
Proof.
  intros Hv. assert (E : size_bits v = 8 * (1 + length (name_name v))) by (cbn -[Nat.mul Nat.add]; lia).
  rewrite E. by apply coded_composite_bits.
Qed.
Lemma coded_register_value (v : Value) : encodable v →
  coded 0 (λ p c, write_composite p c v) (λ p r, read_composite p r) (size_bits v) (Ok v).
Proof.
  intros Hv. pose proof (value_size v (proj2 Hv)) as E. rewrite E.
  replace (8 + 8 * inner_bytes v) with (8 * (1 + inner_bytes v)) in * by lia. by apply coded_composite_bits.
Qed.

#[global] Program Instance access_request_codec : Codec AccessRequest := {
  encodable v := encodable (aq_name v) ∧ encodable (aq_value v);
}.
Next Obligation.
  intros [name v] [Hn Hv]. cbn [aq_name aq_value] in *.
  assert (E : size_bits name = 8 * (1 + length (name_name name))) by (cbn -[Nat.mul Nat.add]; lia).
  eapply coded_bits.
  - refine (coded_try 0 (λ p c, write_composite p c name) (λ p c, write_composite p c v) (λ p r, read_composite p r)
      (λ p name r, try_read (read_composite p r) (λ v r, Ret (r, Ok (mkAccessRequest name v)))) _ _ name _ _ _).
    + by apply coded_name.
    + replace ((0 + size_bits name) mod 8) with 0 by (rewrite E; dlia).
      apply (coded_try_finish 0 _ (λ p r, read_composite p r) (mkAccessRequest name)). by apply coded_register_value.
  - change (size_bits name + size_bits v = size_bits name + size_bits v + 0). lia.
Qed.

(** What an access response writes before the value. *)
Lemma coded_response_head {A} t m q wr (rd : profile → SynchronizedTimestamp → bool → bool → ReadCursor →
    exec (ReadCursor * result DeserializeError A)) n a : encodable t →
  coded 0 wr (λ p, rd p t m q) n a →
  coded 0 (λ p c, c ← write_composite p c t; c ← write_bool p c m; c ← write_bool p c q; c ← wc_skip_6 c; wr p c)
    (λ p r, try_read (read_composite p r) (λ t r, '(r, m) ← read_bool p r; '(r, q) ← read_bool p r;
       let r := rc_skip_6 r in rd p t m q r)) (64 + n) a.
Proof.
  intros Ht H. apply (coded_bits (56 + (1 + (1 + (6 + n))))); [|lia].
  refine (coded_try 0 _ (λ p c, c ← write_bool p c m; c ← write_bool p c q; c ← wc_skip_6 c; wr p c) _
    (λ p t r, '(r, m) ← read_bool p r; '(r, q) ← read_bool p r; let r := rc_skip_6 r in rd p t m q r) _ _ t _ _ _).
  { by apply (coded_composite_bits t 7). }
  refine (coded_bind _ _ (λ p c, c ← write_bool p c q; c ← wc_skip_6 c; wr p c) _
    (λ p m r, '(r, q) ← read_bool p r; let r := rc_skip_6 r in rd p t m q r) _ _ m _ (coded_bool _ m) _).
  refine (coded_bind _ _ (λ p c, c ← wc_skip_6 c; wr p c) _
    (λ p q r, let r := rc_skip_6 r in rd p t m q r) _ _ q _ (coded_bool _ q) _).
  exact (coded_skip 2 6 n wr (λ p, rd p t m q) a H).
Qed.

#[global] Program Instance access_response_codec : Codec AccessResponse := {
  encodable v := encodable (ar_timestamp v) ∧ encodable (ar_value v);
}.
Next Obligation.
  intros [t m q v] [Ht Hv]. cbn [ar_timestamp ar_value] in *.
  change (size_bits (mkAccessResponse t m q v)) with (64 + size_bits v + 0). rewrite Nat.add_0_r.
  apply (coded_response_head t m q (λ p c, write_composite p c v)
    (λ p t m q r, try_read (read_composite p r) (λ v r, Ret (r, Ok (mkAccessResponse t m q v))))); [done|].
  apply (coded_try_finish 0 _ (λ p r, read_composite p r) (mkAccessResponse t m q)). by apply coded_register_value.
Qed.

#[global] Program Instance list_request_codec : Codec ListRequest := { encodable v := is_u 16 (lq_index v) }.
Next Obligation.
  intros [i] Hi. pose proof (coded_zero_copy (to_le_bytes 2 i) (to_le_bytes_ok 2 i)) as H.
  apply (coded_finish 0 _ (λ p r, deserialize_zero_copy 2 r) (λ bytes, Ok (E := DeserializeError) (mkListRequest (from_le_bytes bytes)))) in H.
  rewrite from_to_le_bytes in H. change (8 * Z.of_nat 2)%Z with 16%Z in H. rewrite wrap_small in H by done. exact H.
Qed.

#[global] Program Instance list_response_codec : Codec ListResponse := { encodable v := encodable (lr_name v) }.
Next Obligation.
  intros [name] Hn. eapply coded_bits.
  - apply (coded_try_finish 0 _ (λ p r, read_composite p r) mkListResponse). by apply coded_name.
  - change (size_bits name = size_bits name + 0). lia.
Qed.

(** ** Sending *)

(** Registers of bits can be sent, too: the missing length leaves space for the padding. *)
Lemma bit_written p (b : Bit) c : ba_ok 256 (bit_value b) → wc_ok c → wc_bit_index c = 0 →
  bits_written c + 8 * ((ba_len (bit_value b) + 7) / 8) ≤ 8 * length (wc_bytes c) →
  ∃ c', write_composite p c b = Ret c' ∧ written c c' (8 * ((ba_len (bit_value b) + 7) / 8)).
Proof.
  intros Hb Hc H0 Hfit. unfold write_composite. rewrite (wc_aligned c H0). cbn [is_delimited EXTENT_BYTES bit_type mbind exec_bind].
  unfold ba_len in *. destruct (ba_serialize_spec 256 p (bit_value b) c Hb Hc) as (c1 & E & W%appended_written); [dlia|].
  cbn [serialize bit_serialize]. rewrite E. cbn [mbind exec_bind].
  pose proof W as (Hc1 & L1 & B1 & O1). destruct (align_spec c1 Hc1) as (c2 & -> & Hc2 & Hby & I2 & B2).
  exists c2. split; [done|]. pose proof (aligned_bits c H0) as E0. split_and!; [done|by rewrite Hby| |by rewrite Hby].
  rewrite B2. dlia.
Qed.

Lemma register_value_written p (v : Value) c : value_ok v → wc_ok c → wc_bit_index c = 0 →
  bits_written c + size_bits v ≤ 8 * length (wc_bytes c) →
  ∃ c', write_composite p c v = Ret c' ∧ written c c' (8 + 8 * inner_bytes v).
Proof.
  intros Hv Hc H0 Hfit. assert (is_bit v ∨ ~ is_bit v) as [Hb|Hb] by (destruct v; cbn; tauto).
  2: { rewrite <- (value_size v Hb). destruct (coded_register_value v (conj Hv Hb) p c Hc H0 Hfit) as (c' & E & W & _).
       by exists c'. }
  destruct v as [| | |b| | | | | | | | | | |]; try done. cbn [value_ok inner_bytes] in *.
  change (size_bits (ValueBit b)) with (8 + (16 + ba_len (bit_value b) * 1 + 0)) in Hfit.
  unfold write_composite. rewrite (wc_aligned c H0). cbn [is_delimited EXTENT_BYTES value_type mbind exec_bind].
  destruct (coded_tag 3 ltac:(lia) p c Hc H0) as (c1 & E1 & W1 & _); [lia|]. cbn [serialize value_serialize].
  rewrite E1. cbn [mbind exec_bind]. pose proof W1 as (Hc1 & L1 & B1 & _).
  pose proof (written_index _ _ _ Hc W1) as I1. rewrite H0 in I1.
  destruct (bit_written p b c1 Hv Hc1 I1) as (c2 & -> & W2); [dlia|]. cbn [mbind exec_bind].
  pose proof (written_index _ _ _ Hc1 W2) as I2. rewrite I1 in I2.
  rewrite wc_aligned by (rewrite I2; dlia). exists c2. split; [done|exact (written_trans _ _ _ _ _ W1 W2)].
Qed.

#[global] Program Instance access_response_fits : SerializeFits AccessResponse := {
  fits v := is_u 56 (microsecond (ar_timestamp v)) ∧ value_ok (ar_value v);
}.
Next Obligation.
  intros p [t m q v] c [Ht Hv] Hc H0 Hfit. cbn [ar_timestamp ar_value] in *.
  change (size_bits (mkAccessResponse t m q v)) with (64 + size_bits v + 0) in *. rewrite Nat.add_0_r in *.
  destruct (coded_response_head t m q (λ _ c, Ret c) (λ _ _ _ _ r, Ret (r, Ok tt)) 0 (Ok tt) Ht (coded_ret 0 _) p c Hc H0)
    as (c1 & E & W1 & _); [lia|].
  assert (E1 : serialize p (mkAccessResponse t m q v) c = write_composite p c1 v).
  { cbn [serialize access_response_serialize ar_timestamp ar_mutable ar_persistent ar_value].
    unbind. cbn [mbind exec_bind] in *. by repeat match goal with H : ?x = Ret _ |- context [?x] => rewrite H; cbn [mbind exec_bind] end. }
  rewrite E1. pose proof W1 as (Hc1 & L1 & B1 & _). pose proof (written_index _ _ _ Hc W1) as I1. rewrite H0 in I1.
  destruct (register_value_written p v c1 Hv Hc1 I1) as (c2 & -> & W2); [lia|].
  exists c2. split; [done|]. eapply written_grown; [exact (written_trans _ _ _ _ _ W1 W2)|].
  assert (8 + 8 * inner_bytes v ≤ size_bits v); [|lia].
  assert (is_bit v ∨ ~ is_bit v) as [Hb|Hb] by (destruct v; cbn; tauto); [|by rewrite value_size].
  destruct v as [| | |b| | | | | | | | | | |]; try done.
  change (8 + 8 * ((ba_len (bit_value b) + 7) / 8) ≤ 8 + (16 + ba_len (bit_value b) * 1 + 0)). dlia.
Qed.

#[global] Program Instance list_response_fits : SerializeFits ListResponse := { fits := encodable }.
Next Obligation. intros. by apply codec_serializes. Qed.
