(* ===== verification/Register.v ===== *)
(** * Registers and the register service

    Models [canadensis/src/register.rs]: the traits [Register] and [RegisterBlock], and the
    handler that answers access and list requests; and the blocks that
    [canadensis_derive_register_block] derives for structs of registers. A string slice is the
    list of its bytes. *)

From S2P Require Import Prelude CoreTypes Time Transfer Transport EncCursor EncFields Node RegisterTypes.

(** ** UTF-8: [str::from_utf8] *)

Definition between (lo b hi : Z) : bool := ((lo <=? b) && (b <=? hi))%Z.
Definition is_continuation (b : u8) : bool := between 0x80 b 0xbf.

Fixpoint utf8_valid (l : list u8) : bool :=
  match l with
  | [] => true
  | b0 :: l1 =>
      if (b0 <? 0x80)%Z then utf8_valid l1 else
      match l1 with
      | [] => false
      | b1 :: l2 =>
          if between 0xc2 b0 0xdf then is_continuation b1 && utf8_valid l2 else
          match l2 with
          | [] => false
          | b2 :: l3 =>
              if between 0xe0 b0 0xef then
                (if (b0 =? 0xe0)%Z then between 0xa0 b1 0xbf
                 else if (b0 =? 0xed)%Z then between 0x80 b1 0x9f else is_continuation b1) &&
                is_continuation b2 && utf8_valid l3
              else
              match l3 with
              | [] => false
              | b3 :: l4 =>
                  between 0xf0 b0 0xf4 &&
                  (if (b0 =? 0xf0)%Z then between 0x90 b1 0xbf
                   else if (b0 =? 0xf4)%Z then between 0x80 b1 0x8f else is_continuation b1) &&
                  is_continuation b2 && is_continuation b3 && utf8_valid l4
              end
          end
      end
  end.

Definition from_utf8 (l : list u8) : option (list u8) := if utf8_valid l then Some l else None.

(** [heapless::Vec::from_slice]. *)
Definition vec_from_slice {A} (capacity : nat) (l : list A) : option (list A) :=
  if length l <=? capacity then Some l else None.

(** ** Traits *)

Record Access := mkAccess { mutable : bool; persistent : bool }.
Inductive WriteError : Set := WriteErrorType.

Class Register (R : Type) := {
  reg_name : R → list u8;
  reg_access : R → Access;
  reg_read : R → exec Value;
  reg_write : R → Value → exec (R * result WriteError unit);
}.

(** [&mut dyn Register] into a block [B]: the register, and the block with another register in
    its place. A shared reference is one that is not written through. *)
Record RegisterRef (B : Type) := mkRegisterRef {
  ref_type : Type;
  ref_register : Register ref_type;
  ref_get : ref_type;
  ref_put : ref_type → B;
}.
Arguments mkRegisterRef {B}.
Arguments ref_type {B}.
Arguments ref_register {B}.
Arguments ref_get {B}.
Arguments ref_put {B}.
#[global] Existing Instance ref_register.

Class RegisterBlock (B : Type) := {
  register_by_index : B → usize → option (RegisterRef B);
  register_by_index_mut : B → usize → option (RegisterRef B);
  register_by_name_mut : B → list u8 → option (RegisterRef B);
}.

(** ** The handler *)

Record RegisterHandler (B : Type) := mkRegisterHandler { block : B }.
Arguments mkRegisterHandler {B}.
Arguments block {B}.

Definition is_empty (v : Value) : bool := match v with ValueEmpty _ => true | _ => false end.

Definition register_handle_access {R} `{Register R} (register : R) (request : AccessRequest)
    : exec (R * AccessResponse) :=
  let access := reg_access register in
  register ←
    (if mutable access && negb (is_empty (aq_value request)) then
       '(register, _) ← reg_write register (aq_value request); Ret register
     else Ret register);
  value ← reg_read register;
  Ret (register, mkAccessResponse (mkSynchronizedTimestamp 0) (mutable access) (persistent access) value).

(** The response for a register that does not exist, or an invalid name. *)
Definition no_register : AccessResponse :=
  mkAccessResponse (mkSynchronizedTimestamp 0) false false (ValueEmpty mkEmpty).

Section handler.
Context {B : Type} `{!RegisterBlock B}.

Definition RegisterHandler_new (block : B) : RegisterHandler B := mkRegisterHandler block.

Definition handle_access_request (self : RegisterHandler B) (request : AccessRequest)
    : exec (RegisterHandler B * AccessResponse) :=
  match from_utf8 (name_name (aq_name request)) with
  | Some register_name =>
      match register_by_name_mut (block self) register_name with
      | Some register =>
          '(r, response) ← register_handle_access (ref_get register) request;
          Ret (mkRegisterHandler (ref_put register r), response)
      | None => Ret (self, no_register)
      end
  | None => Ret (self, no_register)
  end.

Definition handle_list_request (self : RegisterHandler B) (request : ListRequest) : exec ListResponse :=
  match register_by_index (block self) (Z.to_nat (lq_index request)) with
  | Some register =>
      let name := reg_name (ref_get register) in
      let name := if length name <=? 256 then name else take 256 name in
      name ← unwrap (vec_from_slice 255 name);
      Ret (mkListResponse (mkName name))
  | None => Ret (mkListResponse (mkName []))
  end.

Context {Nd I D N T ETx ERx : Type} `{Instant I D} `{!Node Nd Nd I D N T ETx ERx} (p : profile).

Definition subscribe_requests (mem : memory) (node : Nd) : exec (Nd * result ERx unit) :=
  timeout ← milliseconds 1000%Z;
  '(node, r) ← node_subscribe_request (first_part mem) node access_SERVICE 515 timeout;
  match r with
  | Err e => Ret (node, Err e)
  | Ok _ =>
      timeout ← milliseconds 0%Z;
      node_subscribe_request (second_part mem) node list_SERVICE 2 timeout
  end.

Definition register_handle_request (mem : memory) (self : RegisterHandler B) (node : Nd)
    (token : ResponseToken N T) (transfer : ServiceTransfer (list u8) I N T)
    : exec (RegisterHandler B * Nd * bool) :=
  let service := sh_service (st_header transfer) in
  if (service =? access_SERVICE)%Z then
    r ← deserialize_from_bytes p (st_payload transfer);
    match r with
    | Ok request =>
        '(self, response) ← handle_access_request self request;
        timeout ← milliseconds 1000%Z;
        '(node, _) ← node_send_response mem node token timeout response;
        Ret (self, node, true)
    | Err _ => Ret (self, node, false)
    end
  else if (service =? list_SERVICE)%Z then
    r ← deserialize_from_bytes p (st_payload transfer);
    match r with
    | Ok request =>
        response ← handle_list_request self request;
        timeout ← milliseconds 1000%Z;
        '(node, _) ← node_send_response mem node token timeout response;
        Ret (self, node, true)
    | Err _ => Ret (self, node, false)
    end
  else Ret (self, node, false).

#[global] Instance register_handler : TransferHandler (RegisterHandler B) Nd I N T := {
  handle_message := default_handle_message;
  handle_request := register_handle_request;
  handle_response := default_handle_response;
}.
End handler.

(** ** Derived blocks *)

(** [#[derive(RegisterBlock)]] on a struct with the fields [(r, (r', ...))]: the matches on the
    index and on the name have an arm for each field, in order. *)
Definition lift_ref {B B'} (f : B → B') (r : RegisterRef B) : RegisterRef B' :=
  mkRegisterRef (ref_type r) (ref_register r) (ref_get r) (λ x, f (ref_put r x)).

Section derived.
Context {R B : Type} `{!Register R, !RegisterBlock B}.

Definition field_ref (self : R * B) : RegisterRef (R * B) :=
  mkRegisterRef R _ (fst self) (λ r, (r, snd self)).

Definition fields_by_index (self : R * B) (index : usize) : option (RegisterRef (R * B)) :=
  match index with
  | 0 => Some (field_ref self)
  | S i => lift_ref (pair (fst self)) <$> register_by_index (snd self) i
  end.
Definition fields_by_index_mut (self : R * B) (index : usize) : option (RegisterRef (R * B)) :=
  match index with
  | 0 => Some (field_ref self)
  | S i => lift_ref (pair (fst self)) <$> register_by_index_mut (snd self) i
  end.
Definition fields_by_name_mut (self : R * B) (name : list u8) : option (RegisterRef (R * B)) :=
  if bool_decide (name = reg_name (fst self)) then Some (field_ref self)
  else lift_ref (pair (fst self)) <$> register_by_name_mut (snd self) name.

#[global] Instance fields_block : RegisterBlock (R * B) := {
  register_by_index := fields_by_index;
  register_by_index_mut := fields_by_index_mut;
  register_by_name_mut := fields_by_name_mut;
}.
End derived.

#[global] Instance no_fields_block : RegisterBlock unit := {
  register_by_index _ _ := None;
  register_by_index_mut _ _ := None;
  register_by_name_mut _ _ := None;
}.
