(* ===== verification/RegisterBasic.v ===== *)
(** * Basic register types

    Models [canadensis/src/register/basic.rs]: registers that hold a value, with or without a
    validator, registers for fixed strings, and the types that can be held. The macros of the
    source define the same functions for eleven integer and floating-point types; here these
    are the instances of one type, by the name of the Rust type. *)

From S2P Require Import Prelude EncFields EncBits RegisterTypes Register.

(** ** Types *)

Class RegisterType (T : Type) := {
  rt_read : T → exec Value;
  rt_write : T → Value → exec (T * result WriteError unit);
}.

(** The first argument of the macros. *)
Inductive primitive : Set :=
| prim_u8 | prim_u16 | prim_u32 | prim_u64 | prim_i8 | prim_i16 | prim_i32 | prim_i64
| prim_f16 | prim_f32 | prim_f64.

(** The second argument of the macros: the variant of [Value], the pattern [Value::$variant],
    and the capacity of the vector in it. *)
Definition variant (k : primitive) (l : list Z) : Value :=
  match k with
  | prim_u8 => ValueNatural8 (mkNatural8 l) | prim_u16 => ValueNatural16 (mkNatural16 l)
  | prim_u32 => ValueNatural32 (mkNatural32 l) | prim_u64 => ValueNatural64 (mkNatural64 l)
  | prim_i8 => ValueInteger8 (mkInteger8 l) | prim_i16 => ValueInteger16 (mkInteger16 l)
  | prim_i32 => ValueInteger32 (mkInteger32 l) | prim_i64 => ValueInteger64 (mkInteger64 l)
  | prim_f16 => ValueReal16 (mkReal16 l) | prim_f32 => ValueReal32 (mkReal32 l)
  | prim_f64 => ValueReal64 (mkReal64 l)
  end.
Definition values_of (k : primitive) (v : Value) : option (list Z) :=
  match k, v with
  | prim_u8, ValueNatural8 x => Some (natural8_value x)
  | prim_u16, ValueNatural16 x => Some (natural16_value x)
  | prim_u32, ValueNatural32 x => Some (natural32_value x)
  | prim_u64, ValueNatural64 x => Some (natural64_value x)
  | prim_i8, ValueInteger8 x => Some (integer8_value x)
  | prim_i16, ValueInteger16 x => Some (integer16_value x)
  | prim_i32, ValueInteger32 x => Some (integer32_value x)
  | prim_i64, ValueInteger64 x => Some (integer64_value x)
  | prim_f16, ValueReal16 x => Some (real16_value x)
  | prim_f32, ValueReal32 x => Some (real32_value x)
  | prim_f64, ValueReal64 x => Some (real64_value x)
  | _, _ => None
  end.
Definition capacity (k : primitive) : nat :=
  match k with
  | prim_u8 | prim_i8 => 256
  | prim_u16 | prim_i16 | prim_f16 => 128
  | prim_u32 | prim_i32 | prim_f32 => 64
  | prim_u64 | prim_i64 | prim_f64 => 32
  end.

(** [register_primitive!]. *)
Record prim (k : primitive) := mkPrim { prim_value : Z }.
Arguments mkPrim {k}.
Arguments prim_value {k}.

Definition prim_read {k} (self : prim k) : exec Value :=
  value ← unwrap (vec_from_slice (capacity k) [prim_value self]);
  Ret (variant k value).
Definition prim_write {k} (self : prim k) (value : Value) : exec (prim k * result WriteError unit) :=
  match values_of k value with
  | Some values =>
      if length values =? 1 then x ← index values 0; Ret (mkPrim x, Ok tt)
      else Ret (self, Err WriteErrorType)
  | None => Ret (self, Err WriteErrorType)
  end.
#[global] Instance prim_register_type k : RegisterType (prim k) := {
  rt_read := prim_read;
  rt_write := prim_write;
}.

(** [register_primitive_array!]: arrays of [n] elements. *)
Record prim_array (k : primitive) (n : nat) := mkPrimArray { pa_elements : list Z }.
Arguments mkPrimArray {k n}.
Arguments pa_elements {k n}.

Definition prim_array_read {k n} (self : prim_array k n) : exec Value :=
  value_vec ←
    (if n <=? capacity k then unwrap (vec_from_slice (capacity k) (pa_elements self))
     else unwrap (vec_from_slice (capacity k) (take (capacity k) (pa_elements self))));
  Ret (variant k value_vec).
Definition prim_array_write {k n} (self : prim_array k n) (value : Value)
    : exec (prim_array k n * result WriteError unit) :=
  match values_of k value with
  | Some values =>
      if length values =? n then
        _ ← assert_ (length (pa_elements self) =? length values);
        Ret (mkPrimArray values, Ok tt)
      else Ret (self, Err WriteErrorType)
  | None => Ret (self, Err WriteErrorType)
  end.
#[global] Instance prim_array_register_type k n : RegisterType (prim_array k n) := {
  rt_read := prim_array_read;
  rt_write := prim_array_write;
}.

(** *** Strings and bytes *)

Inductive LengthError : Set := mkLengthError.

Record RegisterString := mkRegisterString { rs_bytes : list u8 }.
Definition RegisterString_default : RegisterString := mkRegisterString [].
Definition string_read (self : RegisterString) : exec Value :=
  Ret (ValueString (mkString_1_0 (rs_bytes self))).
Definition string_write (self : RegisterString) (value : Value)
    : exec (RegisterString * result WriteError unit) :=
  match value with
  | ValueString bytes => Ret (mkRegisterString (string_value bytes), Ok tt)
  | _ => Ret (self, Err WriteErrorType)
  end.
#[global] Instance string_register_type : RegisterType RegisterString := {
  rt_read := string_read;
  rt_write := string_write;
}.
Definition RegisterString_try_from (value : list u8) : result LengthError RegisterString :=
  match vec_from_slice 256 value with
  | Some byte_vec => Ok (mkRegisterString byte_vec)
  | None => Err mkLengthError
  end.
Definition RegisterString_try_from_str (value : list u8) : result LengthError RegisterString :=
  RegisterString_try_from value.

Record Unstructured := mkUnstructured { un_bytes : list u8 }.
Definition Unstructured_default : Unstructured := mkUnstructured [].
Definition unstructured_read (self : Unstructured) : exec Value :=
  Ret (ValueUnstructured (mkUnstructured_1_0 (un_bytes self))).
Definition unstructured_write (self : Unstructured) (value : Value)
    : exec (Unstructured * result WriteError unit) :=
  match value with
  | ValueUnstructured bytes => Ret (mkUnstructured (unstructured_value bytes), Ok tt)
  | _ => Ret (self, Err WriteErrorType)
  end.
#[global] Instance unstructured_register_type : RegisterType Unstructured := {
  rt_read := unstructured_read;
  rt_write := unstructured_write;
}.
Definition Unstructured_try_from (value : list u8) : result LengthError Unstructured :=
  match vec_from_slice 256 value with
  | Some byte_vec => Ok (mkUnstructured byte_vec)
  | None => Err mkLengthError
  end.

(** *** Booleans *)

Definition bool_read (self : bool) : exec Value :=
  value ← BitArray_new 256 1;
  value ← ba_set value 0 self;
  Ret (ValueBit (mkBit value)).
Definition bool_write (self : bool) (value : Value) : exec (bool * result WriteError unit) :=
  match value with
  | ValueBit bit =>
      if ba_len (bit_value bit) =? 1 then b ← ba_get (bit_value bit) 0; Ret (b, Ok tt)
      else Ret (self, Err WriteErrorType)
  | _ => Ret (self, Err WriteErrorType)
  end.
#[global] Instance bool_register_type : RegisterType bool := {
  rt_read := bool_read;
  rt_write := bool_write;
}.

Record bool_array (n : nat) := mkBoolArray { ba_elements : list bool }.
Arguments mkBoolArray {n}.
Arguments ba_elements {n}.

(** The loops over an array with its indexes. *)
Fixpoint set_bits (value : BitArray) (i : usize) (l : list bool) : exec BitArray :=
  match l with
  | [] => Ret value
  | val :: l' => value ← ba_set value i val; set_bits value (S i) l'
  end.
Fixpoint assign_all (self : list bool) (i : usize) (l : list bool) : exec (list bool) :=
  match l with
  | [] => Ret self
  | val :: l' => self ← assign self i val; assign_all self (S i) l'
  end.

Definition bool_array_read {n} (self : bool_array n) : exec Value :=
  value ← BitArray_new 256 n;
  value ← set_bits value 0 (ba_elements self);
  Ret (ValueBit (mkBit value)).
Definition bool_array_write {n} (self : bool_array n) (value : Value)
    : exec (bool_array n * result WriteError unit) :=
  match value with
  | ValueBit bit =>
      if ba_len (bit_value bit) =? n then
        values ← ba_iter (bit_value bit);
        elements ← assign_all (ba_elements self) 0 values;
        Ret (mkBoolArray elements, Ok tt)
      else Ret (self, Err WriteErrorType)
  | _ => Ret (self, Err WriteErrorType)
  end.
#[global] Instance bool_array_register_type n : RegisterType (bool_array n) := {
  rt_read := bool_array_read;
  rt_write := bool_array_write;
}.

(** ** Registers *)

Record SimpleRegister (T : Type) := mkSimpleRegister {
  sr_name : list u8;
  sr_access : Access;
  sr_value : T;
}.
Arguments mkSimpleRegister {T}.
Arguments sr_name {T}.
Arguments sr_access {T}.
Arguments sr_value {T}.

Section simple.
Context {T : Type}.

Definition SimpleRegister_with_value (name : list u8) (mutable persistent : bool) (value : T)
    : SimpleRegister T :=
  mkSimpleRegister name (mkAccess mutable persistent) value.
Definition SimpleRegister_new (default : T) (name : list u8) (mutable persistent : bool) : SimpleRegister T :=
  SimpleRegister_with_value name mutable persistent default.
Definition sr_set_value (self : SimpleRegister T) (value : T) : SimpleRegister T :=
  mkSimpleRegister (sr_name self) (sr_access self) value.

Context `{!RegisterType T}.

Definition simple_write (self : SimpleRegister T) (value : Value)
    : exec (SimpleRegister T * result WriteError unit) :=
  '(new_value, r) ← rt_write (sr_value self) value;
  Ret (sr_set_value self new_value, r).
#[global] Instance simple_register : Register (SimpleRegister T) := {
  reg_name := sr_name;
  reg_access := sr_access;
  reg_read self := rt_read (sr_value self);
  reg_write := simple_write;
}.
End simple.

(** A validator may change its own state. *)
Class Validator (V T : Type) := { accept : V → T → exec (V * bool) }.

(** [impl Validator<T> for F where F: FnMut(&T) -> bool]. *)
#[global] Instance function_validator (T : Type) : Validator (T → bool) T := { accept f value := Ret (f, f value) }.

Record ValidatedRegister (T V : Type) := mkValidatedRegister {
  vr_name : list u8;
  vr_access : Access;
  vr_value : T;
  vr_validator : V;
}.
Arguments mkValidatedRegister {T V}.
Arguments vr_name {T V}.
Arguments vr_access {T V}.
Arguments vr_value {T V}.
Arguments vr_validator {T V}.

Section validated.
Context {T V : Type}.

Definition ValidatedRegister_with_value (name : list u8) (mutable persistent : bool) (value : T) (validator : V)
    : ValidatedRegister T V :=
  mkValidatedRegister name (mkAccess mutable persistent) value validator.
Definition ValidatedRegister_new (default : T) (name : list u8) (mutable persistent : bool) (validator : V)
    : ValidatedRegister T V :=
  ValidatedRegister_with_value name mutable persistent default validator.
Definition vr_set_value (self : ValidatedRegister T V) (value : T) : ValidatedRegister T V :=
  mkValidatedRegister (vr_name self) (vr_access self) value (vr_validator self).
Definition vr_set_validator (self : ValidatedRegister T V) (validator : V) : ValidatedRegister T V :=
  mkValidatedRegister (vr_name self) (vr_access self) (vr_value self) validator.

Context `{!RegisterType T, !Validator V T}.

Definition validated_write (self : ValidatedRegister T V) (value : Value)
    : exec (ValidatedRegister T V * result WriteError unit) :=
  '(new_value, r) ← rt_write (vr_value self) value;
  match r with
  | Err e => Ret (self, Err e)
  | Ok _ =>
      '(validator, accepted) ← accept (vr_validator self) new_value;
      let self := vr_set_validator self validator in
      if accepted : bool then Ret (vr_set_value self new_value, Ok tt) else Ret (self, Err WriteErrorType)
  end.
#[global] Instance validated_register : Register (ValidatedRegister T V) := {
  reg_name := vr_name;
  reg_access := vr_access;
  reg_read self := rt_read (vr_value self);
  reg_write := validated_write;
}.
End validated.

(** A register that cannot be written: writing panics. *)
Record FixedStringRegister := mkFixedStringRegister { fs_name : list u8; fs_value : list u8 }.

Definition FixedStringRegister_new (name value : list u8) : option FixedStringRegister :=
  if negb (length name =? 0) && (length name <=? 256) && (length value <=? 256)
  then Some (mkFixedStringRegister name value) else None.

#[global] Instance fixed_string_register : Register FixedStringRegister := {
  reg_name := fs_name;
  reg_access _ := mkAccess false true;
  reg_read self :=
    value ← unwrap (vec_from_slice 256 (fs_value self));
    Ret (ValueString (mkString_1_0 value));
  reg_write _ _ := Panic;
}.
