(* ===== verification/RegisterSpec.v ===== *)
(** * What registers promise

    [RegisterSpec] is what the documentation of [Register] asks of an implementation,
    [RegisterBlockSpec] what that of [RegisterBlock] does: a block is a table of registers, in
    which a request changes at most the value of the register with its name. Values are
    compared by their contents: two arrays of bits are the same if their bits are. *)

From S2P Require Import Prelude CoreTypes EncFields EncCursorSpec EncBits NodeSpec DataTypesSpec.
From S2P Require Import RegisterTypes Codec RegisterTypesSpec Register RegisterBasic.

(** ** Values up to the unused bits of bit arrays *)

Definition same_bits (a b : BitArray) : Prop :=
  ba_len a = ba_len b ∧ ∀ i, i < ba_len a → bit_at (ba_bytes a) i = bit_at (ba_bytes b) i.

#[global] Instance value_equiv : Equiv Value := λ v w,
  match v, w with
  | ValueBit a, ValueBit b => same_bits (bit_value a) (bit_value b)
  | _, _ => v = w
  end.

#[global] Instance value_equivalence : Equivalence (≡@{Value}).
Proof.
  split.
  - intros []; by try split.
  - intros v w H. destruct v, w; try discriminate H; try (by symmetry).
    destruct H as [Hl Hb]. split; [done|]. intros i Hi. symmetry. apply Hb. unfold ba_len in *. lia.
  - intros v w x H1 H2. destruct v, w; try discriminate H1; destruct x; try discriminate H2; try (by etrans).
    destruct H1 as [L1 B1], H2 as [L2 B2]. split; [congruence|]. intros i Hi. rewrite B1, B2; [done| |done].
    unfold ba_len in *. lia.
Qed.

#[global] Instance is_empty_proper : Proper ((≡) ==> (=)) is_empty.
Proof. intros v w H. destruct v, w; try discriminate H; done. Qed.

(** ** Specifications *)

Class RegisterTypeSpec (T : Type) `{RegisterType T} := {
  type_ok : T → Prop;
  type_value : T → Value;
  type_read_law t : type_ok t →
    rt_read t = Ret (type_value t) ∧ value_ok (type_value t) ∧ is_empty (type_value t) = false;
  type_write_law t v : type_ok t → value_ok v →
    ∃ t' r, rt_write t v = Ret (t', r) ∧ type_ok t' ∧
      match r with Ok _ => type_value t' ≡ v | Err _ => t' = t end;
}.

(** String slices. *)
Definition str_ok (l : list u8) : Prop := bytes_ok l ∧ utf8_valid l = true.

Class RegisterSpec (R : Type) `{Register R} := {
  reg_ok : R → Prop;
  reg_value : R → Value;
  read_law r : reg_ok r →
    reg_read r = Ret (reg_value r) ∧ value_ok (reg_value r) ∧ is_empty (reg_value r) = false ∧
    str_ok (reg_name r);
  write_law r v : reg_ok r → mutable (reg_access r) = true → value_ok v →
    ∃ r' res, reg_write r v = Ret (r', res) ∧ reg_ok r' ∧ reg_name r' = reg_name r ∧ reg_access r' = reg_access r ∧
      match res with Ok _ => reg_value r' ≡ v | Err _ => reg_value r' = reg_value r end;
}.

(** What other nodes see of a register. *)
Record View := mkView { view_name : list u8; view_access : Access; view_value : Value }.
Definition view_of {R} `{RegisterSpec R} (r : R) : View := mkView (reg_name r) (reg_access r) (reg_value r).

Class RegisterBlockSpec (B : Type) `{RegisterBlock B} := {
  block_ok : B → Prop;
  block_views : B → list View;
  by_index_law b i : block_ok b →
    match register_by_index b i with
    | Some ref => ∃ spec : RegisterSpec (ref_type ref),
        reg_ok (ref_get ref) ∧ block_views b !! i = Some (view_of (ref_get ref))
    | None => block_views b !! i = None
    end;
  by_index_mut_law b i : block_ok b →
    match register_by_index_mut b i with
    | Some ref => ∃ spec : RegisterSpec (ref_type ref),
        reg_ok (ref_get ref) ∧ block_views b !! i = Some (view_of (ref_get ref)) ∧
        ∀ r', reg_ok r' → block_ok (ref_put ref r') ∧ block_views (ref_put ref r') = <[i := view_of r']> (block_views b)
    | None => block_views b !! i = None
    end;
  by_name_mut_law b n : block_ok b →
    match register_by_name_mut b n with
    | Some ref => ∃ (spec : RegisterSpec (ref_type ref)) i,
        reg_ok (ref_get ref) ∧ list_find (λ v, view_name v = n) (block_views b) = Some (i, view_of (ref_get ref)) ∧
        ∀ r', reg_ok r' → block_ok (ref_put ref r') ∧ block_views (ref_put ref r') = <[i := view_of r']> (block_views b)
    | None => list_find (λ v, view_name v = n) (block_views b) = None
    end;
}.

(** ** Derived blocks *)

#[global] Program Instance no_fields_spec : RegisterBlockSpec unit := {
  block_ok _ := True;
  block_views _ := [];
}.
Next Obligation. done. Qed.
Next Obligation. done. Qed.
Next Obligation. done. Qed.

Section derived.
Context {R B : Type} `{RegisterSpec R, RegisterBlockSpec B}.

Lemma list_find_cons_ne {A} (P : A → Prop) `{∀ x, Decision (P x)} x l : ~ P x →
  list_find P (x :: l) = prod_map S id <$> list_find P l.
Proof. intros HP. cbn. by rewrite decide_False. Qed.

#[global] Program Instance fields_spec : RegisterBlockSpec (R * B) := {
  block_ok b := reg_ok (fst b) ∧ block_ok (snd b);
  block_views b := view_of (fst b) :: block_views (snd b);
}.
Next Obligation.
  intros [r b] [|i] [Hr Hb]; cbn in *; [by exists _|].
  pose proof (by_index_law b i Hb) as Hl. destruct (register_by_index b i) as [ref|]; [|done].
  destruct Hl as (spec & Hok & Hv). by exists spec.
Qed.
Next Obligation.
  intros [r b] [|i] [Hr Hb]; cbn in *; [by exists _|].
  pose proof (by_index_mut_law b i Hb) as Hl. destruct (register_by_index_mut b i) as [ref|]; [|done].
  destruct Hl as (spec & Hok & Hv & Hput). exists spec. split_and!; [done|done|]. intros r' Hr'. cbn.
  destruct (Hput r' Hr') as [Hb' Hv']. by rewrite Hv'.
Qed.
Next Obligation.
  intros [r b] n [Hr Hb]. cbn [register_by_name_mut fields_block]. unfold fields_by_name_mut. cbn [fst snd] in *.
  case_bool_decide as Hn.
  { exists _, 0. split_and!; [done| |done]. cbn. by rewrite decide_True. }
  assert (Hne : ~ view_name (view_of r) = n) by (cbn; congruence). rewrite (list_find_cons_ne (λ v, view_name v = n) _ _ Hne).
  pose proof (by_name_mut_law b n Hb) as Hl. destruct (register_by_name_mut b n) as [ref|]; cbn [fmap option_fmap option_map].
  2: { by rewrite Hl. }
  destruct Hl as (spec & i & Hok & Hf & Hput). exists spec, (S i). rewrite Hf. split_and!; [done|done|].
  intros r' Hr'. destruct (Hput r' Hr') as [Hb' Hv']. cbn. by rewrite Hv'.
Qed.
End derived.

(** ** Requests on a table *)

(** The answer [a] to the access request [q] on the table [t], after which the table is [t']:
    the register with the name has its old value or, if it can be written and a value was
    given, that value, and the answer says which. *)
Definition answered (t : list View) (q : AccessRequest) (t' : list View) (a : AccessResponse) : Prop :=
  match list_find (λ v, view_name v = name_name (aq_name q)) t with
  | Some (i, v) => ∃ x,
      (x = view_value v ∨ mutable (view_access v) = true ∧ is_empty (aq_value q) = false ∧ x ≡ aq_value q) ∧
      t' = <[i := mkView (view_name v) (view_access v) x]> t ∧
      a = mkAccessResponse (mkSynchronizedTimestamp UNKNOWN) (mutable (view_access v)) (persistent (view_access v)) x
  | None => t' = t ∧ a = no_register
  end.

Lemma register_handle_access_spec {R} `{RegisterSpec R} (r : R) (q : AccessRequest) : reg_ok r → value_ok (aq_value q) →
  ∃ r' x, register_handle_access r q =
      Ret (r', mkAccessResponse (mkSynchronizedTimestamp UNKNOWN) (mutable (reg_access r)) (persistent (reg_access r)) x) ∧
    reg_ok r' ∧ view_of r' = mkView (reg_name r) (reg_access r) x ∧ value_ok x ∧
    (x = reg_value r ∨ mutable (reg_access r) = true ∧ is_empty (aq_value q) = false ∧ x ≡ aq_value q).
Proof.
  intros Hr Hq. unfold register_handle_access. destruct (mutable (reg_access r)) eqn:Hm, (is_empty (aq_value q)) eqn:He;
    cbn [andb negb mbind exec_bind].
  2: { destruct (write_law r (aq_value q) Hr Hm Hq) as (r' & res & -> & Hr' & Hn & Ha & Hres). cbn [mbind exec_bind].
       destruct (read_law r' Hr') as (-> & Hv & _). cbn [mbind exec_bind]. exists r', (reg_value r').
       split_and!; [by rewrite <- Hm, <- Ha|done|unfold view_of; by rewrite Hn, Ha|done|].
       destruct res; [by right|by left]. }
  all: destruct (read_law r Hr) as (-> & Hv & _); cbn [mbind exec_bind]; exists r, (reg_value r);
    split_and!; [by rewrite ?Hm|done|done|done|by left].
Qed.

Section handler.
Context {B : Type} `{RegisterBlockSpec B}.

Lemma by_name_utf8 (b : B) n ref : block_ok b → register_by_name_mut b n = Some ref → utf8_valid n = true.
Proof.
  intros Hb Hf. pose proof (by_name_mut_law b n Hb) as Hl. rewrite Hf in Hl.
  destruct Hl as (spec & i & Hok & (_ & Hn & _)%list_find_Some & _). cbn in Hn. subst n. by apply read_law.
Qed.

(** An access request is answered as on the table of the block. *)
Lemma handle_access_request_spec (h : RegisterHandler B) (q : AccessRequest) : block_ok (block h) → value_ok (aq_value q) →
  ∃ h' a, handle_access_request h q = Ret (h', a) ∧ block_ok (block h') ∧
    answered (block_views (block h)) q (block_views (block h')) a ∧ fits a.
Proof.
  intros Hb Hq. unfold handle_access_request, from_utf8, answered. set (n := name_name (aq_name q)).
  pose proof (by_name_mut_law (block h) n Hb) as Hl. destruct (register_by_name_mut (block h) n) as [ref|] eqn:Hf.
  - rewrite (by_name_utf8 _ _ _ Hb Hf). rewrite Hf. destruct Hl as (spec & i & Hok & Hfind & Hput).
    destruct (register_handle_access_spec (ref_get ref) q Hok Hq) as (r' & x & -> & Hr' & Hview & Hx & Hcase).
    cbn [mbind exec_bind]. destruct (Hput r' Hr') as [Hb' Hv']. eexists _, _. cbn [block].
    split_and!; [done|done| |by split]. rewrite Hfind. exists x. cbn [block]. rewrite Hv', Hview. by split_and!.
  - exists h, no_register. rewrite Hl. split_and!; [by destruct (utf8_valid n); rewrite ?Hf|done|done|done|by split].
Qed.

Lemma view_name_ok (b : B) i v : block_ok b → block_views b !! i = Some v → bytes_ok (view_name v).
Proof.
  intros Hb Hv. pose proof (by_index_law b i Hb) as Hl. destruct (register_by_index b i) as [ref|]; [|congruence].
  destruct Hl as (spec & Hok & Hv'). rewrite Hv in Hv'. injection Hv' as ->. cbn. apply (read_law _ Hok).
Qed.

(** A list request is answered with the name of the register, which panics for names of more
    than 255 bytes. *)
Lemma handle_list_request_spec (h : RegisterHandler B) (q : ListRequest) : block_ok (block h) →
  handle_list_request h q =
    match block_views (block h) !! Z.to_nat (lq_index q) with
    | Some v => if length (view_name v) <=? 255 then Ret (mkListResponse (mkName (view_name v))) else Panic
    | None => Ret (mkListResponse (mkName []))
    end.
Proof.
  intros Hb. unfold handle_list_request. pose proof (by_index_law (block h) (Z.to_nat (lq_index q)) Hb) as Hl.
  destruct (register_by_index (block h) _) as [ref|]; [|by rewrite Hl].
  destruct Hl as (spec & Hok & ->). cbn [view_of view_name]. unfold vec_from_slice.
  destruct (Nat.leb_spec (length (reg_name (ref_get ref))) 256) as [Hle|Hgt].
  - by case_cmp.
  - rewrite length_take, Nat.min_l by lia. rewrite (proj2 (Nat.leb_gt (length _) 255)) by lia. done.
Qed.
End handler.

(** ** The basic registers keep their promises

    Every type of [RegisterBasic] that can be held in a register keeps [RegisterTypeSpec], and
    the registers keep [RegisterSpec]; a validated register only ever holds values that its
    validator accepts. *)

(** *** Integers and floating-point numbers *)

Definition prim_ok (k : primitive) : Z → Prop :=
  match k with
  | prim_u8 => is_u 8 | prim_u16 | prim_f16 => is_u 16 | prim_u32 | prim_f32 => is_u 32
  | prim_u64 | prim_f64 => is_u 64
  | prim_i8 => is_i 8 | prim_i16 => is_i 16 | prim_i32 => is_i 32 | prim_i64 => is_i 64
  end.

Lemma variant_ok k l : value_ok (variant k l) ↔ array_ok (prim_ok k) (capacity k) l.
Proof. by destruct k. Qed.
Lemma variant_not_empty k l : is_empty (variant k l) = false.
Proof. by destruct k. Qed.
Lemma values_of_Some k v l : values_of k v = Some l → v = variant k l.
Proof. destruct k, v as [[]|[]|[]|[]|[]|[]|[]|[]|[]|[]|[]|[]|[]|[]|[]]; intros H; simplify_eq/=; done. Qed.
Lemma capacity_pos k : 0 < capacity k.
Proof. destruct k; cbn; lia. Qed.

Lemma vec_from_slice_fits {A} cap (l : list A) : length l ≤ cap → vec_from_slice cap l = Some l.
Proof. intros Hl. unfold vec_from_slice. by rewrite (proj2 (Nat.leb_le _ _)). Qed.

#[global] Program Instance prim_spec k : RegisterTypeSpec (prim k) := {
  type_ok x := prim_ok k (prim_value x);
  type_value x := variant k [prim_value x];
}.
Next Obligation.
  intros k [x] Hx. cbn [rt_read prim_register_type prim_value] in *. unfold prim_read. pose proof (capacity_pos k).
  rewrite vec_from_slice_fits by (cbn; lia). split_and!; [done| |apply variant_not_empty].
  apply variant_ok. split; [cbn; lia|by constructor].
Qed.
Next Obligation.
  intros k x v Hx Hv. cbn [rt_write prim_register_type]. unfold prim_write.
  destruct (values_of k v) as [values|] eqn:Hval; [|by eexists _, _].
  apply values_of_Some in Hval as ->. apply variant_ok in Hv as [_ Hv].
  destruct values as [|y [|z l]]; cbn [length Nat.eqb]; [by eexists _, _| |by eexists _, _].
  eexists (mkPrim y), (Ok tt). split_and!; [done|exact (proj1 (Forall_singleton _ _) Hv)|done].
Qed.

#[global] Program Instance prim_array_spec k n : RegisterTypeSpec (prim_array k n) := {
  type_ok x := length (pa_elements x) = n ∧ Forall (prim_ok k) (pa_elements x);
  type_value x := variant k (take (capacity k) (pa_elements x));
}.
Next Obligation.
  intros k n [x] [Hlen Hx]. cbn [rt_read prim_array_register_type pa_elements] in *. unfold prim_array_read.
  cbn [pa_elements]. split_and!; [|apply variant_ok; split; [rewrite length_take; lia|by apply Forall_take]|apply variant_not_empty].
  case_cmp; [rewrite take_ge by lia|]; rewrite vec_from_slice_fits by (rewrite ?length_take; lia); done.
Qed.
Next Obligation.
  intros k n [x] v [Hlen Hx] Hv. cbn [rt_write prim_array_register_type pa_elements] in *. unfold prim_array_write.
  destruct (values_of k v) as [values|] eqn:Hval; [|by eexists _, _].
  apply values_of_Some in Hval as ->. apply variant_ok in Hv as [Hcap Hv]. cbn [pa_elements].
  destruct (Nat.eqb_spec (length values) n) as [Heq|]; [|by eexists _, _].
  rewrite (proj2 (Nat.eqb_eq _ _)) by congruence. cbn [assert_ mbind exec_bind].
  eexists _, _. split_and!; [done|done|done|]. cbn [pa_elements]. by rewrite take_ge.
Qed.

(** An array that is longer than the vector in a value can be read, without its end, but
    never be written. *)
Lemma long_array_unwritable k n (x : prim_array k n) v : capacity k < n → value_ok v →
  rt_write x v = Ret (x, Err WriteErrorType).
Proof.
  intros Hn Hv. cbn [rt_write prim_array_register_type]. unfold prim_array_write.
  destruct (values_of k v) as [values|] eqn:Hval; [|done]. apply values_of_Some in Hval as ->.
  apply variant_ok in Hv as [Hcap _]. case_cmp; [lia|done].
Qed.

(** *** Strings and bytes *)

#[global] Program Instance string_spec : RegisterTypeSpec RegisterString := {
  type_ok x := array_ok byte_ok 256 (rs_bytes x);
  type_value x := ValueString (mkString_1_0 (rs_bytes x));
}.
Next Obligation. done. Qed.
Next Obligation.
  intros x [|[l]| | | | | | | | | | | | |] Hx Hv; by eexists _, _.
Qed.

#[global] Program Instance unstructured_spec : RegisterTypeSpec Unstructured := {
  type_ok x := array_ok byte_ok 256 (un_bytes x);
  type_value x := ValueUnstructured (mkUnstructured_1_0 (un_bytes x));
}.
Next Obligation. done. Qed.
Next Obligation.
  intros x [| |[l]| | | | | | | | | | | |] Hx Hv; by eexists _, _.
Qed.

Lemma RegisterString_try_from_spec l : bytes_ok l →
  match RegisterString_try_from l with
  | Ok s => type_ok s ∧ rs_bytes s = l
  | Err _ => 256 < length l
  end.
Proof.
  intros Hl. unfold RegisterString_try_from, vec_from_slice.
  destruct (Nat.leb_spec (length l) 256); [|done]. by split.
Qed.

(** *** Booleans *)

Lemma set_bits_spec l : ∀ a i, ba_ok 256 a → i + length l ≤ ba_len a →
  ∃ a', set_bits a i l = Ret a' ∧ ba_ok 256 a' ∧ ba_len a' = ba_len a ∧
    (∀ j, j < i → bit_at (ba_bytes a') j = bit_at (ba_bytes a) j) ∧
    ∀ j b, l !! j = Some b → bit_at (ba_bytes a') (i + j) = b.
Proof.
  induction l as [|b l IH]; intros a i Ha Hi; cbn [set_bits].
  { exists a. split_and!; [done|done|done|done|]. intros j b Hj. by rewrite lookup_nil in Hj. }
  cbn [length] in Hi. unfold ba_len in *.
  destruct (ba_set_spec 256 a i b Ha) as (a1 & -> & Ha1 & Hl1 & Hb1); [lia|]. cbn [mbind exec_bind].
  destruct (IH a1 (S i) Ha1) as (a' & -> & Ha' & Hl' & Hold & Hnew); [lia|].
  exists a'. split_and!; [done|done|congruence| |].
  - intros j Hj. rewrite Hold, Hb1 by lia. case_cmp; [lia|done].
  - intros [|j] x Hj; cbn in Hj.
    + injection Hj as ->. rewrite Nat.add_0_r, Hold, Hb1 by lia. by rewrite Nat.eqb_refl.
    + rewrite Nat.add_succ_r. by apply Hnew.
Qed.

Lemma assign_all_spec (l : list bool) : ∀ self i, i + length l ≤ length self →
  assign_all self i l = Ret (take i self ++ l ++ drop (i + length l) self).
Proof.
  induction l as [|b l IH]; intros self i Hi; cbn [assign_all length app] in *.
  { by rewrite Nat.add_0_r, take_drop. }
  unfold assign, index. destruct (lookup_lt_is_Some_2 self i) as [x Hx]; [lia|]. rewrite Hx. cbn [unwrap mbind exec_bind].
  rewrite IH by (rewrite length_insert; lia).
  rewrite (take_S_r _ i b) by (apply list_lookup_insert_eq; lia).
  rewrite take_insert_ge, drop_insert_lt by lia. by rewrite <- app_assoc, Nat.add_succ_r.
Qed.

(** The bits of a value as an array. *)
Lemma ba_iter_bits a : ba_ok 256 a → ba_iter a = Ret (bit_at (ba_bytes a) <$> seq 0 (ba_len a)).
Proof. intros Ha. unfold ba_iter. by apply (ba_iter_from_spec 256). Qed.

Definition bool_value (b : bool) : Value :=
  ValueBit (mkBit (mkBitArray (b2z b :: replicate 255 0%Z) 1)).

#[global] Program Instance bool_spec : RegisterTypeSpec bool := {
  type_ok _ := True;
  type_value := bool_value;
}.
Next Obligation.
  intros b _. split_and!; [by destruct b| |done]. cbn [bool_value value_ok]. split_and!; [done|cbn; lia|].
  constructor; [destruct b; split; cbn; lia|]. apply Forall_replicate. unfold byte_ok, is_u. lia.
Qed.
Next Obligation.
  intros b v _ Hv. cbn [rt_write bool_register_type]. unfold bool_write.
  destruct v as [| | |[a]| | | | | | | | | | |]; try (by eexists _, _).
  cbn [bit_value value_ok] in *. unfold ba_len. destruct (Nat.eqb_spec (ba_bit_length a) 1) as [Hl|]; [|by eexists _, _].
  rewrite (ba_get_spec 256) by (done || lia). cbn [mbind exec_bind]. eexists _, _. split_and!; [done|done|].
  split; [cbn; unfold ba_len; done|]. intros i Hi. cbn in Hi. assert (i = 0) as -> by lia.
  cbn [bit_value ba_bytes]. unfold bit_at at 1. cbn. by destruct (bit_at (ba_bytes a) 0).
Qed.

(** Arrays of at most as many bits as a value can have. *)
Definition bool_array_value {n} (x : bool_array n) : Value :=
  match bool_array_read x with Ret v => v | Panic => ValueEmpty mkEmpty end.

Lemma bool_array_read_spec {n} (x : bool_array n) : length (ba_elements x) = n → n ≤ 256 * 8 →
  ∃ a, bool_array_read x = Ret (ValueBit (mkBit a)) ∧ ba_ok 256 a ∧ ba_len a = n ∧
    ∀ i b, ba_elements x !! i = Some b → bit_at (ba_bytes a) i = b.
Proof.
  intros Hlen Hn. unfold bool_array_read, BitArray_new. rewrite (proj2 (Nat.leb_le _ _) Hn). cbn [assert_ mbind exec_bind].
  destruct (set_bits_spec (ba_elements x) (mkBitArray (replicate 256 0%Z) n) 0) as (a & -> & Ha & Hl & _ & Hb).
  { split_and!; [done|done|]. apply Forall_replicate. unfold byte_ok, is_u. lia. }
  { cbn. lia. }
  cbn [mbind exec_bind]. by exists a.
Qed.

#[global] Program Instance bool_array_spec n : RegisterTypeSpec (bool_array n) := {
  type_ok x := length (ba_elements x) = n ∧ n ≤ 256 * 8;
  type_value := bool_array_value;
}.
Next Obligation.
  intros n x [Hlen Hn]. destruct (bool_array_read_spec x Hlen Hn) as (a & E & Ha & _ & _).
  unfold bool_array_value. cbn [rt_read bool_array_register_type]. by rewrite E.
Qed.
Next Obligation.
  intros n x v [Hlen Hn] Hv. cbn [rt_write bool_array_register_type]. unfold bool_array_write.
  destruct v as [| | |[a]| | | | | | | | | | |]; try (by eexists _, _). cbn [bit_value value_ok] in *.
  destruct (Nat.eqb_spec (ba_len a) n) as [Hl|]; [|by eexists _, _].
  rewrite ba_iter_bits by done. cbn [mbind exec_bind].
  rewrite assign_all_spec by (rewrite length_fmap, length_seq; lia). rewrite take_0, app_nil_l.
  rewrite drop_ge, app_nil_r by (rewrite length_fmap, length_seq; lia). cbn [mbind exec_bind].
  assert (Hlen' : length (ba_elements (n := n) (mkBoolArray (bit_at (ba_bytes a) <$> seq 0 (ba_len a)))) = n).
  { cbn. by rewrite length_fmap, length_seq. }
  eexists _, _. split_and!; [done|done|done|].
  destruct (bool_array_read_spec _ Hlen' Hn) as (a' & E & _ & Hl' & Hb). unfold bool_array_value. rewrite E.
  split; [cbn; congruence|]. cbn [bit_value]. intros i Hi. apply Hb. cbn [ba_elements].
  rewrite list_lookup_fmap, lookup_seq_lt by lia. done.
Qed.

(** *** Registers *)

Section simple.
Context {T : Type} `{RegisterTypeSpec T}.

#[global] Program Instance simple_spec : RegisterSpec (SimpleRegister T) := {
  reg_ok r := type_ok (sr_value r) ∧ str_ok (sr_name r);
  reg_value r := type_value (sr_value r);
}.
Next Obligation. intros r [Hv Hn]. destruct (type_read_law _ Hv) as (? & ? & ?). by split_and!. Qed.
Next Obligation.
  intros r v [Hr Hn] _ Hv. cbn [reg_write simple_register]. unfold simple_write.
  destruct (type_write_law _ v Hr Hv) as (t' & res & -> & Ht' & Hres). cbn [mbind exec_bind].
  eexists _, _. split_and!; [done|done|done|done|done|]. cbn [sr_value sr_set_value]. destruct res; [done|by rewrite Hres].
Qed.
End simple.

(** A validator that returns and whose opinion on a value lasts until it accepts another. *)
Class ValidatorSpec (V T : Type) `{!Validator V T} := {
  valid : V → T → Prop;
  accept_law v t : ∃ v' b, accept v t = Ret (v', b) ∧
    if b : bool then valid v' t else ∀ t', valid v t' → valid v' t';
}.

#[global] Program Instance function_validator_spec T : ValidatorSpec (T → bool) T := { valid f t := f t = true }.
Next Obligation. intros T f t. exists f, (f t). split; [done|]. by destruct (f t). Qed.

Section validated.
Context {T V : Type} `{RegisterTypeSpec T, !Validator V T, !ValidatorSpec V T}.

#[global] Program Instance validated_spec : RegisterSpec (ValidatedRegister T V) := {
  reg_ok r := type_ok (vr_value r) ∧ valid (vr_validator r) (vr_value r) ∧ str_ok (vr_name r);
  reg_value r := type_value (vr_value r);
}.
Next Obligation. intros r (Hv & _ & Hn). destruct (type_read_law _ Hv) as (? & ? & ?). by split_and!. Qed.
Next Obligation.
  intros r v (Hr & Hok & Hn) _ Hv. cbn [reg_write validated_register]. unfold validated_write.
  destruct (type_write_law _ v Hr Hv) as (t' & res & -> & Ht' & Hres). cbn [mbind exec_bind].
  destruct res; [|by eexists _, _].
  destruct (accept_law (vr_validator r) t') as (v' & b & -> & Hb). cbn [mbind exec_bind].
  destruct b; eexists _, _; (split_and!; [done|done| |done|done|done|done]); [done|by apply Hb].
Qed.
End validated.

#[global] Program Instance fixed_string_spec : RegisterSpec FixedStringRegister := {
  reg_ok r := array_ok byte_ok 256 (fs_value r) ∧ str_ok (fs_name r);
  reg_value r := ValueString (mkString_1_0 (fs_value r));
}.
Next Obligation.
  intros r [[Hlen Hv] Hn]. cbn [reg_read fixed_string_register]. by rewrite vec_from_slice_fits.
Qed.
Next Obligation. intros r v _ Hm. discriminate Hm. Qed.

Lemma FixedStringRegister_new_ok name value r : bytes_ok value → str_ok name →
  FixedStringRegister_new name value = Some r → reg_ok r ∧ reg_name r = name ∧ reg_value r = ValueString (mkString_1_0 value).
Proof.
  intros Hv Hn. unfold FixedStringRegister_new. case_match eqn:Hc; [|done]. intros [= <-].
  apply andb_true_iff in Hc as [_ Hc]. apply Nat.leb_le in Hc. by split_and!.
Qed.
