(* ===== verification/RegisterRequests.v ===== *)
(** * Register requests from the network

    What the deserialization of an access request does with any bytes: it returns a request
    within the limits of its types, or an error; the exception is an array of bits that is
    declared to be longer than the array it is read into, which panics. *)

From S2P Require Import Prelude CoreTypes EncCursor EncFields EncCursorSpec EncFieldsSpec EncBits.
From S2P Require Import NodeSpec DataTypesSpec RegisterTypes Codec RegisterTypesSpec.

(** Deserialization from an aligned cursor returns; what it makes satisfies [P]. *)
Definition reads_safely {A} (rd : profile → ReadCursor → exec (ReadCursor * result DeserializeError A)) (P : A → Prop) : Prop :=
  ∀ p r, rc_ok r → rc_bit_index r = 0 →
  ∃ r' res, rd p r = Ret (r', res) ∧ rc_ok r' ∧ match res with Ok v => P v | Err _ => True end.

Lemma reads_safely_impl {A} rd (P Q : A → Prop) : (∀ v, P v → Q v) → reads_safely rd P → reads_safely rd Q.
Proof.
  intros HPQ H p r Hr H0. destruct (H p r Hr H0) as (r' & res & -> & Hr' & Hres). exists r', res.
  split_and!; [done|done|]. destruct res; auto.
Qed.

(** Elements that are read one after the other. *)
Lemma read_elements_spec {A} (cap w : nat) (rd : ReadCursor → exec (ReadCursor * A)) (P : A → Prop) n :
  (∀ r, rc_ok r → ∃ r' x, rd r = Ret (r', x) ∧ consumed r r' w ∧ P x) →
  ∀ r acc, rc_ok r → length acc + n ≤ cap →
  ∃ r' l, read_elements cap rd n r acc = Ret (r', acc ++ l) ∧ consumed r r' (n * w) ∧ length l = n ∧ Forall P l.
Proof.
  intros Hrd. induction n as [|n IH]; intros r acc Hr Hcap; cbn [read_elements].
  { exists r, []. rewrite app_nil_r. split_and!; [done|by apply consumed_refl|done|done]. }
  destruct (Hrd r Hr) as (r1 & x & -> & C1 & Hx). cbn [mbind exec_bind]. unfold push_ignoring.
  rewrite (proj2 (Nat.ltb_lt _ _)) by lia.
  destruct (IH r1 (acc ++ [x]) (proj1 C1)) as (r2 & l & -> & C2 & Hl & HP); [rewrite length_app; cbn; lia|].
  exists r2, (x :: l). rewrite <- app_assoc. split_and!; [done| |cbn; lia|by constructor].
  exact (consumed_trans _ _ _ _ _ C1 C2).
Qed.

Section arrays.
Context {A V : Type} (mk : list A → V) (cap w : nat) (rd : profile → ReadCursor → exec (ReadCursor * A)) (P : A → Prop).
Hypothesis element_reads : ∀ p r, rc_ok r → ∃ r' x, rd p r = Ret (r', x) ∧ consumed r r' w ∧ P x.

Lemma read_array_spec p r len : rc_ok r → (0 ≤ len)%Z →
  ∃ r' res, read_array mk cap (rd p) len r = Ret (r', res) ∧ rc_ok r' ∧
    match res with
    | Ok v => ∃ l, v = mk l ∧ array_ok P cap l ∧ Z.of_nat (length l) = len ∧ consumed r r' (length l * w)
    | Err _ => (Z.of_nat cap < len)%Z
    end.
Proof.
  intros Hr Hlen. unfold read_array. destruct (Z.leb_spec len (Z.of_nat cap)) as [Hle|]; [|by exists r, (Err ArrayLength)].
  destruct (read_elements_spec cap w (rd p) P (Z.to_nat len) (element_reads p) r [] Hr) as (r' & l & -> & C & Hl & HP); [cbn; lia|].
  cbn [mbind exec_bind app]. eexists _, _. split_and!; [done|apply C|]. exists l. rewrite Hl.
  split_and!; [done|split; [lia|done]|lia|done].
Qed.

Lemma array8_safe : reads_safely (λ p r, '(r, n) ← read_u8 p r; read_array mk cap (rd p) n r)
  (λ v, ∃ l, v = mk l ∧ array_ok P cap l).
Proof.
  intros p r Hr _. destruct (read_fns_spec 7 read_u8 p r eq_refl Hr) as (r1 & n & -> & C1 & [Hn _]). cbn [mbind exec_bind].
  destruct (read_array_spec p r1 n (proj1 C1)) as (r2 & res & -> & Hr2 & Hres); [apply Hn|].
  eexists _, _. split_and!; [done|done|]. destruct res; [|done]. destruct Hres as (l & ? & ? & _). by exists l.
Qed.
Lemma array16_safe : reads_safely (λ p r, '(r, n) ← read_u16 p r; read_array mk cap (rd p) n r)
  (λ v, ∃ l, v = mk l ∧ array_ok P cap l).
Proof.
  intros p r Hr _. destruct (read_fns_spec 15 read_u16 p r eq_refl Hr) as (r1 & n & -> & C1 & [Hn _]). cbn [mbind exec_bind].
  destruct (read_array_spec p r1 n (proj1 C1)) as (r2 & res & -> & Hr2 & Hres); [apply Hn|].
  eexists _, _. split_and!; [done|done|]. destruct res; [|done]. destruct Hres as (l & ? & ? & _). by exists l.
Qed.
End arrays.

Lemma unsigned_reads n g : read_fns !! n = Some g →
  ∀ p r, rc_ok r → ∃ r' x, g p r = Ret (r', x) ∧ consumed r r' (S n) ∧ is_u (Z.of_nat (S n)) x.
Proof.
  intros Hg p r Hr. destruct (read_fns_spec n g p r Hg Hr) as (r' & x & -> & C & [Hx _]). by exists r', x.
Qed.

Lemma is_i_as_signed w x : (0 < w)%Z → is_u w x → is_i w (as_signed w x).
Proof.
  intros Hw Hx. unfold is_u, is_i, as_signed in *. assert (Hp : (2 ^ w = 2 * 2 ^ (w - 1))%Z).
  { rewrite <- Z.pow_succ_r by lia. f_equal. lia. }
  rewrite Hp in *. case_cmp; lia.
Qed.

Lemma signed_reads n g : read_fns !! n = Some g → ∀ p r, rc_ok r →
  ∃ r' x, read_signed (Z.of_nat (S n)) (g p) r = Ret (r', x) ∧ consumed r r' (S n) ∧ is_i (Z.of_nat (S n)) x.
Proof.
  intros Hg p r Hr. unfold read_signed. destruct (unsigned_reads n g Hg p r Hr) as (r' & x & -> & C & Hx).
  cbn [mbind exec_bind]. eexists _, _. split_and!; [done|done|]. by apply is_i_as_signed; [lia|].
Qed.

(** A composite without a delimiter header. *)
Lemma read_composite_returns {M} `{Deserialize M} p r r' (res : result DeserializeError M) :
  is_delimited (T := M) = false → rc_bit_index r = 0 → deserialize p r = Ret (r', res) → rc_ok r' →
  ∃ r2, read_composite p r = Ret (r2, res) ∧ rc_ok r2.
Proof.
  intros Hd Hi Hdes Hr'. unfold read_composite. rewrite Hd, (rc_aligned r Hi). cbn [mbind exec_bind].
  rewrite Hdes. cbn [mbind exec_bind]. unfold rc_align_to_8_bits.
  destruct (rc_bit_index r' =? 0) eqn:E; cbn [negb mbind exec_bind]; [by exists r'|].
  unfold usize_sub. rewrite (proj2 (Nat.leb_le _ _)) by (destruct Hr'; lia). cbn [mbind exec_bind].
  eexists. split; [done|]. apply rc_advance_spec, Hr'.
Qed.
Lemma read_composite_panics {M} `{Deserialize M} p r : is_delimited (T := M) = false → rc_bit_index r = 0 →
  deserialize (T := M) p r = Panic → read_composite (T := M) p r = Panic.
Proof. intros Hd Hi Hdes. unfold read_composite. rewrite Hd, (rc_aligned r Hi). cbn [mbind exec_bind]. by rewrite Hdes. Qed.

Lemma composite_safe {M} `{Deserialize M} (P : M → Prop) : is_delimited (T := M) = false →
  reads_safely deserialize P → reads_safely read_composite P.
Proof.
  intros Hd Hsafe p r Hr Hi. destruct (Hsafe p r Hr Hi) as (r1 & res & E & Hr1 & Hres).
  destruct (read_composite_returns p r r1 res Hd Hi E Hr1) as (r2 & -> & Hr2). by exists r2, res.
Qed.

Lemma variant_safe {M} `{Deserialize M} (variant : M → Value) p r : is_delimited (T := M) = false →
  reads_safely deserialize (λ v, value_ok (variant v)) → rc_ok r → rc_bit_index r = 0 →
  ∃ r' res, read_variant p variant r = Ret (r', res) ∧ rc_ok r' ∧ match res with Ok v => value_ok v | Err _ => True end.
Proof.
  intros Hd Hsafe Hr Hi. unfold read_variant, try_read.
  destruct (composite_safe _ Hd Hsafe p r Hr Hi) as (r' & res & -> & Hr' & Hres). cbn [mbind exec_bind].
  destruct res; by eexists _, _.
Qed.

(** The number at the front of an aligned cursor. *)
Definition byte_at (bytes : list u8) (i : nat) : Z := default 0%Z (bytes !! i).

Lemma of_bytes_le l : bytes_ok l → of_bytes l = from_le_bytes l.
Proof.
  induction 1 as [|b l Hb _ IH]; [done|]. cbn [of_bytes from_le_bytes]. rewrite IH, lor_shiftl_add by (done || lia).
  change (2 ^ 8)%Z with 256%Z. lia.
Qed.

(** Whole bytes read from an aligned cursor, with zeros past the end. *)
Lemma next_bytes r n v : rc_ok r → rc_bit_index r = 0 → next_bits r (8 * n) v →
  v = from_le_bytes (byte_at (rc_bytes r) <$> seq 0 n).
Proof.
  intros Hr Hi N. set (l := byte_at (rc_bytes r) <$> seq 0 n).
  assert (Hl : bytes_ok l) by (apply Forall_fmap, Forall_forall; intros i _; apply byte_at_ok, Hr).
  assert (Hlen : length l = n) by (unfold l; by rewrite length_fmap, length_seq).
  rewrite (next_bits_unique r (8 * n) (of_bytes l) v N).
  - rewrite of_bytes_le by done. apply wrap_small. pose proof (from_le_bytes_u l Hl) as Hu. rewrite Hlen in Hu.
    by replace (Z.of_nat (8 * n)) with (8 * Z.of_nat n)%Z by lia.
  - intros k Hk. rewrite testbit_of_bytes by done. unfold stream, bit_at. rewrite Hi, Nat.add_0_l.
    unfold l. rewrite list_lookup_fmap, lookup_seq_lt; [done|]. apply Nat.Div0.div_lt_upper_bound. lia.
Qed.

Lemma read_u16_bytes p r : rc_ok r → rc_bit_index r = 0 →
  ∃ r', read_u16 p r = Ret (r', (byte_at (rc_bytes r) 0 + 256 * byte_at (rc_bytes r) 1)%Z) ∧ consumed r r' 16.
Proof.
  intros Hr Hi. destruct (read_fns_spec 15 read_u16 p r eq_refl Hr) as (r' & n & -> & C & N). exists r'. split; [|done].
  rewrite (next_bytes r 2 n Hr Hi N). do 2 f_equal. cbn. lia.
Qed.

Lemma byte_at_drop k l i : byte_at (drop k l) i = byte_at l (k + i).
Proof. unfold byte_at. by rewrite lookup_drop. Qed.

(** Whole bytes that were read from an aligned cursor. *)
Lemma consumed_bytes r r' k i : rc_ok r → rc_bit_index r = 0 → consumed r r' (8 * k) →
  rc_bit_index r' = 0 ∧ byte_at (rc_bytes r') i = byte_at (rc_bytes r) (k + i).
Proof.
  intros Hr Hi (Hr' & Hs & Hi' & _). assert (H0 : rc_bit_index r' = 0) by (rewrite Hi', Hi; dlia). split; [done|].
  apply byte_eq; [apply byte_at_ok, Hr'|apply byte_at_ok, Hr|]. intros j Hj.
  specialize (Hs (8 * i + j)). unfold stream, bit_at in Hs. rewrite Hi, H0, !Nat.add_0_l in Hs.
  assert ((8 * i + j) / 8 = i ∧ (8 * i + j) mod 8 = j ∧ (8 * k + (8 * i + j)) / 8 = k + i ∧ (8 * k + (8 * i + j)) mod 8 = j)
    as (E1 & E2 & E3 & E4) by dlia. by rewrite E1, E2, E3, E4 in Hs.
Qed.

(** *** Values *)

(** The bytes of a value that is an array of more bits than there is space for. *)
Definition long_bits (bytes : list u8) : bool :=
  ((byte_at bytes 0 =? 3) && (2048 <? byte_at bytes 1 + 256 * byte_at bytes 2))%Z.

Lemma bit_reads p r : rc_ok r → rc_bit_index r = 0 →
  if (2048 <? byte_at (rc_bytes r) 0 + 256 * byte_at (rc_bytes r) 1)%Z then deserialize (T := Bit) p r = Panic
  else ∃ r' b, deserialize p r = Ret (r', Ok b) ∧ rc_ok r' ∧ ba_ok 256 (bit_value b).
Proof.
  intros Hr Hi. destruct (read_u16_bytes p r Hr Hi) as (r1 & E & C1). cbn [deserialize bit_deserialize]. rewrite E.
  cbn [mbind exec_bind]. set (len := (byte_at (rc_bytes r) 0 + 256 * byte_at (rc_bytes r) 1)%Z).
  destruct (Z.ltb_spec 2048 len) as [Hlong|Hshort].
  - unfold ba_deserialize, BitArray_new. rewrite (proj2 (Nat.leb_gt _ _)) by lia. done.
  - destruct (ba_deserialize_spec 256 p (Z.to_nat len) r1) as (a & r2 & -> & Ha & _ & C2 & _); [lia|apply C1|].
    cbn [mbind exec_bind]. eexists _, _. split_and!; [done|apply C2|done].
Qed.

(** Solves [reads_safely] for a type that is one array. *)
Ltac array_reads law mk cap w rd P element :=
  eapply reads_safely_impl; [|apply (law _ _ mk cap w rd P); exact element];
  intros v (l & -> & Hl); exact Hl.

(** The next arm of the match on the tag. *)
Ltac next_variant tac := case_cmp; [apply variant_safe; [done| |done|done]; tac|].

Lemma tag_reads p tag r : rc_ok r → rc_bit_index r = 0 → tag ≠ 3%Z →
  ∃ r' res, read_value p tag r = Ret (r', res) ∧ rc_ok r' ∧ match res with Ok v => value_ok v | Err _ => True end.
Proof.
  intros Hr Hi Htag. unfold read_value.
  assert (Hbytes : ∀ (V : Type) (mk : list u8 → V) cap, reads_safely (λ p r, '(r, n) ← read_u16 p r; read_array mk cap (read_u8 p) n r)
    (λ v, ∃ l, v = mk l ∧ array_ok byte_ok cap l)).
  { intros V mk cap. apply (array16_safe mk cap 8 read_u8 byte_ok). apply (unsigned_reads 7 read_u8 eq_refl). }
  case_cmp; [apply variant_safe; [done| |done|done]|].
  { intros p' r' Hr' Hi'. cbn [deserialize empty_deserialize].
    destruct (zero_copy_spec 0 r' Hr' Hi') as (r2 & l & -> & C & _). cbn [mbind exec_bind]. eexists _, _. by split_and!; [|apply C|]. }
  next_variant ltac:(eapply reads_safely_impl; [|apply Hbytes]; intros v (l & -> & Hl); exact Hl).
  next_variant ltac:(eapply reads_safely_impl; [|apply Hbytes]; intros v (l & -> & Hl); exact Hl).
  case_cmp; [done|].
  next_variant ltac:(array_reads @array8_safe mkInteger64 32 64 (λ p, read_signed 64 (read_u64 p)) (is_i 64) (signed_reads 63 read_u64 eq_refl)).
  next_variant ltac:(array_reads @array8_safe mkInteger32 64 32 (λ p, read_signed 32 (read_u32 p)) (is_i 32) (signed_reads 31 read_u32 eq_refl)).
  next_variant ltac:(array_reads @array8_safe mkInteger16 128 16 (λ p, read_signed 16 (read_u16 p)) (is_i 16) (signed_reads 15 read_u16 eq_refl)).
  next_variant ltac:(array_reads @array16_safe mkInteger8 256 8 (λ p, read_signed 8 (read_u8 p)) (is_i 8) (signed_reads 7 read_u8 eq_refl)).
  next_variant ltac:(array_reads @array8_safe mkNatural64 32 64 read_u64 (is_u 64) (unsigned_reads 63 read_u64 eq_refl)).
  next_variant ltac:(array_reads @array8_safe mkNatural32 64 32 read_u32 (is_u 32) (unsigned_reads 31 read_u32 eq_refl)).
  next_variant ltac:(array_reads @array8_safe mkNatural16 128 16 read_u16 (is_u 16) (unsigned_reads 15 read_u16 eq_refl)).
  next_variant ltac:(eapply reads_safely_impl; [|apply Hbytes]; intros v (l & -> & Hl); exact Hl).
  next_variant ltac:(array_reads @array8_safe mkReal64 32 64 read_u64 (is_u 64) (unsigned_reads 63 read_u64 eq_refl)).
  next_variant ltac:(array_reads @array8_safe mkReal32 64 32 read_u32 (is_u 32) (unsigned_reads 31 read_u32 eq_refl)).
  next_variant ltac:(array_reads @array8_safe mkReal16 128 16 read_u16 (is_u 16) (unsigned_reads 15 read_u16 eq_refl)).
  by exists r, (Err UnionTag).
Qed.

Lemma read_tag r : rc_ok r → rc_bit_index r = 0 →
  ∃ r', read_aligned_u8 r = Ret (r', byte_at (rc_bytes r) 0) ∧ rc_ok r' ∧ rc_bit_index r' = 0 ∧
    ∀ i, byte_at (rc_bytes r') i = byte_at (rc_bytes r) (S i).
Proof.
  intros Hr Hi. destruct (read_aligned_u8_spec r Hr Hi) as (r' & x & E & C & _).
  unfold read_aligned_u8, rc_is_aligned_to_8_bits in E. rewrite Hi in E. cbn [Nat.eqb assert_ mbind exec_bind] in E.
  injection E as <- <-. exists (advance_bytes r 1). split_and!; [|apply C|by apply (consumed_bytes r _ 1 0)|].
  - unfold read_aligned_u8, rc_is_aligned_to_8_bits. by rewrite Hi.
  - intros i. by apply (consumed_bytes r _ 1 i).
Qed.

Lemma value_reads p r : rc_ok r → rc_bit_index r = 0 →
  if long_bits (rc_bytes r) then read_composite (T := Value) p r = Panic
  else ∃ r' res, read_composite (T := Value) p r = Ret (r', res) ∧ rc_ok r' ∧
    match res with Ok v => value_ok v | Err _ => True end.
Proof.
  intros Hr Hi. destruct (read_tag r Hr Hi) as (r1 & E & Hr1 & Hi1 & Hb1). unfold long_bits.
  assert (Hval : deserialize (T := Value) p r = read_value p (byte_at (rc_bytes r) 0) r1).
  { cbn [deserialize value_deserialize]. by rewrite E. }
  assert (Hret : ∀ r2 res, read_value p (byte_at (rc_bytes r) 0) r1 = Ret (r2, res) → rc_ok r2 →
    match res with Ok v => value_ok v | Err _ => True end →
    ∃ r' res, read_composite (T := Value) p r = Ret (r', res) ∧ rc_ok r' ∧ match res with Ok v => value_ok v | Err _ => True end).
  { intros r2 res Hread Hr2 Hres. rewrite <- Hval in Hread.
    destruct (read_composite_returns p r r2 res) as (r3 & -> & Hr3); [done..|]. by exists r3, res. }
  destruct (Z.eqb_spec (byte_at (rc_bytes r) 0) 3) as [Htag|Htag]; cbn [andb].
  2: { destruct (tag_reads p _ r1 Hr1 Hi1 Htag) as (r2 & res & Hread & Hr2 & Hres). by eapply Hret. }
  pose proof (bit_reads p r1 Hr1 Hi1) as Hbit. rewrite !Hb1 in Hbit. rewrite Htag in Hval, Hret.
  change (read_value p 3 r1) with (read_variant p ValueBit r1) in *. unfold read_variant, try_read in *. case_match.
  - apply read_composite_panics; [done|done|]. rewrite Hval. by rewrite (read_composite_panics (M := Bit)).
  - destruct Hbit as (r2 & b & Hdes & Hr2 & Hb).
    destruct (read_composite_returns p r1 r2 (Ok b)) as (r3 & E3 & Hr3); [done..|]. rewrite E3 in Hret.
    by eapply Hret.
Qed.

(** ** Requests *)

(** A request to write an array of bits that is too long. *)
Definition declares_long_bits (payload : list u8) : bool :=
  long_bits (drop (1 + Z.to_nat (byte_at payload 0)) payload).

Lemma name_reads p r : rc_ok r → rc_bit_index r = 0 →
  let n := 1 + Z.to_nat (byte_at (rc_bytes r) 0) in
  ∃ r' name, read_composite (T := Name) p r = Ret (r', Ok name) ∧ rc_ok r' ∧ rc_bit_index r' = 0 ∧
    array_ok byte_ok 255 (name_name name) ∧ ∀ i, byte_at (rc_bytes r') i = byte_at (rc_bytes r) (n + i).
Proof.
  intros Hr Hi n. destruct (read_fns_spec 7 read_u8 p r eq_refl Hr) as (r1 & x & E & C1 & N).
  assert (Hx : x = byte_at (rc_bytes r) 0).
  { rewrite (next_bytes r 1 x Hr Hi N). cbn. lia. }
  destruct N as [Hu _]. destruct (read_array_spec mkName 255 8 read_u8 byte_ok (unsigned_reads 7 read_u8 eq_refl) p r1 x (proj1 C1))
    as (r2 & res & E2 & Hr2 & Hres); [apply Hu|]. unfold is_u in Hu.
  destruct res as [name|]; [|lia]. destruct Hres as (l & -> & Hl & Hlen & C2).
  assert (Hdes : deserialize (T := Name) p r = Ret (r2, Ok (mkName l))).
  { cbn [deserialize name_deserialize]. rewrite E. exact E2. }
  pose proof (consumed_trans _ _ _ _ _ C1 C2) as C. replace (8 + length l * 8) with (8 * n) in C by lia.
  unfold read_composite. change (is_delimited (T := Name)) with false. rewrite (rc_aligned r Hi). cbn [mbind exec_bind].
  rewrite Hdes. cbn [mbind exec_bind]. destruct (consumed_bytes r r2 n 0 Hr Hi C) as [Hi2 _]. rewrite (rc_aligned r2 Hi2).
  cbn [mbind exec_bind]. eexists _, _. split_and!; [done|done|done|done|]. intros i. by apply consumed_bytes.
Qed.

Lemma long_bits_ext a b : (∀ i, byte_at a i = byte_at b i) → long_bits a = long_bits b.
Proof. intros H. unfold long_bits. by rewrite !H. Qed.

Lemma access_request_reads p payload : bytes_ok payload →
  if declares_long_bits payload then deserialize_from_bytes (T := AccessRequest) p payload = Panic
  else ∃ res, deserialize_from_bytes p payload = Ret res ∧
    match res with
    | Ok q => array_ok byte_ok 255 (name_name (aq_name q)) ∧ value_ok (aq_value q)
    | Err _ => True
    end.
Proof.
  intros Hpay. unfold deserialize_from_bytes, declares_long_bits. cbn [deserialize access_request_deserialize].
  assert (Hr : rc_ok (ReadCursor_new payload)) by (split; [cbn; lia|done]).
  destruct (name_reads p (ReadCursor_new payload) Hr eq_refl) as (r1 & name & E & Hr1 & Hi1 & Hname & Hb).
  unfold try_read. rewrite E. cbn [mbind exec_bind]. pose proof (value_reads p r1 Hr1 Hi1) as Hv.
  rewrite (long_bits_ext (rc_bytes r1) (drop (1 + Z.to_nat (byte_at payload 0)) payload)) in Hv
    by (intros i; rewrite byte_at_drop; apply Hb).
  case_match; [by rewrite Hv|]. destruct Hv as (r2 & res & -> & _ & Hres). cbn [mbind exec_bind].
  destruct res as [v|e]; [by exists (Ok (mkAccessRequest name v))|by exists (Err e)].
Qed.

Lemma list_request_reads p payload : bytes_ok payload →
  deserialize_from_bytes p payload = Ret (Ok (mkListRequest (byte_at payload 0 + 256 * byte_at payload 1))).
Proof.
  intros Hpay. unfold deserialize_from_bytes. cbn [deserialize list_request_deserialize].
  assert (Hr : rc_ok (ReadCursor_new payload)) by (split; [cbn; lia|done]).
  destruct (zero_copy_spec 2 (ReadCursor_new payload) Hr eq_refl) as (r' & l & -> & _ & Hl & _ & Hb). cbn [mbind exec_bind].
  destruct l as [|a [|b [|]]]; try done. pose proof (Hb 0 ltac:(lia)) as H0. pose proof (Hb 1 ltac:(lia)) as H1.
  cbn in H0, H1. injection H0 as ->. injection H1 as ->. unfold byte_at. do 3 f_equal. cbn. lia.
Qed.
