(* ===== verification/RegisterClaims.v ===== *)
(** * Properties of the register service

    Access and list requests, from the bytes of a request to the transfer with the response,
    on any block of registers that keeps [RegisterBlockSpec]; what requests can make the
    handler panic; and the messages that come back. *)

From S2P Require Import Prelude CoreTypes Time Transfer Transport SessionTracker EncCursor EncFields EncCursorSpec EncBits.
From S2P Require Import CanTypes CanRx CanRxSafety CanQueue CanQueueSpec CanTx CanLink.
From S2P Require Import Node NodeSend NodeCore DataTypes NodeBasic NodeSpec NodeSpecCore DataTypesSpec NodeRun TransportCan NodeClaims.
From S2P Require Import RegisterTypes Codec RegisterTypesSpec Register RegisterBasic RegisterSpec RegisterRequests.

(** The bytes of a value, with any padding after them, are read as the value. *)
Definition comes_back {M} `{Serialize M, !Deserialize M} (p p' : profile) (v : M) : Prop :=
  ∃ bytes, encoded p v bytes ∧ length bytes = (size_bits v + 7) / 8 ∧
    ∀ padding, bytes_ok padding → deserialize_from_bytes p' (bytes ++ padding) = Ret (Ok v).

Lemma codec_comes_back {M} `{Codec M} p p' (v : M) : encodable v → comes_back p p' v.
Proof. intros Hv. destruct (codec_roundtrip p p' v Hv) as (bytes & E & Hl & _ & Hr). by exists bytes. Qed.

(** C30: every message of the register service that carries no array of bits and respects the
    limits of its type (strings and arrays no longer than their capacity, integers in the
    ranges of their types) is serialized into exactly the number of bytes that its [size_bits]
    asks for, and is read back unchanged from these bytes and any padding after them,
    whatever the builds of the two nodes. *)
Theorem register_messages_come_back p p' :
  (∀ v : Value, value_ok v → ~ is_bit v → comes_back p p' v) ∧
  (∀ q : AccessRequest, encodable q → comes_back p p' q) ∧
  (∀ a : AccessResponse, encodable a → comes_back p p' a) ∧
  (∀ q : ListRequest, is_u 16 (lq_index q) → comes_back p p' q) ∧
  (∀ a : ListResponse, array_ok byte_ok 255 (name_name (lr_name a)) → comes_back p p' a).
Proof. split_and!; intros v; intros; by apply codec_comes_back. Qed.

Section panics.
Context {B : Type} `{RegisterBlockSpec B}.

(** The requests that make the handler panic. *)
Definition request_panics (t : list View) (service : ServiceId) (payload : list u8) : bool :=
  if (service =? access_SERVICE)%Z then declares_long_bits payload
  else if (service =? list_SERVICE)%Z then
    match t !! Z.to_nat (byte_at payload 0 + 256 * byte_at payload 1) with
    | Some v => 255 <? length (view_name v)
    | None => false
    end
  else false.

Context {Nd I D N T ETx ERx : Type} `{Instant I D, Ports Nd, TransportSpec N T}.
Context `{!Node Nd Nd I D N T ETx ERx, !NodeSpec Nd Nd I D N T ETx ERx}.

(** C31: on any node, any service request, with a payload of any bytes, is handled without a
    panic and without changing what the node publishes or requests, and leaves the block of
    registers consistent, with two exceptions, both of which do panic: an access request whose
    value is an array of more than 2048 bits (which any node on the network can send), and a
    list request for a register with a name of more than 255 bytes (the documentation of
    registers allows 256). *)
Theorem register_requests_panic_exactly (p : profile) mem (h : RegisterHandler B) (nd : Nd)
    (s : ServiceTransfer (list u8) I N T) :
  (∃ d : D, dur_from_millis 1000%Z = Some d) → memory_ok mem → node_ok nd → header_ok (Request (st_header s)) →
  bytes_ok (st_payload s) → block_ok (block h) →
  let r := register_handle_request (ETx := ETx) (ERx := ERx) p mem h nd (response_token (st_header s)) s in
  if request_panics (block_views (block h)) (sh_service (st_header s)) (st_payload s) then r = Panic
  else ∃ h' nd' b, r = Ret (h', nd', b) ∧ block_ok (block h') ∧ same_ports nd nd'.
Proof.
  intros [d Hd] Hmem Hnd (Hsv & Ht & Hsrc & _) Hpay Hb r. unfold r, register_handle_request, request_panics.
  unfold milliseconds. rewrite Hd. clear r. case_cmp; [|case_cmp].
  - pose proof (access_request_reads p (st_payload s) Hpay) as Hread. destruct (declares_long_bits _); [by rewrite Hread|].
    destruct Hread as (res & -> & Hres). cbn [mbind exec_bind unwrap].
    destruct res as [q|]; [|eexists _, _, _; split_and!; [done|done|by apply same_ports_refl]]. destruct Hres as [_ Hv].
    destruct (handle_access_request_spec h q Hb Hv) as (h' & a & -> & Hb' & _ & Hfits). cbn [mbind exec_bind].
    destruct (send_response_law (Tgt := Nd) (I := I) (ETx := ETx) (ERx := ERx) mem nd (response_token (st_header s)) d a Hmem Hnd) as (nd' & res & -> & Hp); [done|done|].
    by eexists _, _, _.
  - rewrite (list_request_reads p (st_payload s) Hpay). cbn [mbind exec_bind unwrap]. rewrite handle_list_request_spec by done.
    cbn [lq_index]. destruct (block_views (block h) !! _) as [v|] eqn:Hview.
    + rewrite Nat.ltb_antisym. destruct (Nat.leb_spec (length (view_name v)) 255) as [Hle|]; [|done]. cbn [negb mbind exec_bind].
      destruct (send_response_law (Tgt := Nd) (I := I) (ETx := ETx) (ERx := ERx) mem nd (response_token (st_header s)) d (mkListResponse (mkName (view_name v))) Hmem Hnd)
        as (nd' & res & -> & Hp); [done| |by eexists _, _, _].
      split; [done|]. exact (view_name_ok (block h) _ v Hb Hview).
    + cbn [mbind exec_bind].
      destruct (send_response_law (Tgt := Nd) (I := I) (ETx := ETx) (ERx := ERx) mem nd (response_token (st_header s)) d (mkListResponse (mkName [])) Hmem Hnd)
        as (nd' & res & -> & Hp); [done|by split; [cbn; lia|constructor]|by eexists _, _, _].
  - eexists _, _, _. split_and!; [done|done|by apply same_ports_refl].
Qed.
End panics.

Section listing.
Context {B : Type} `{RegisterBlockSpec B}.

(** A node that asks for the names at the indexes 0, 1, 2 and so on gets the names of all
    registers of the block, in order, and then an empty name, if the names have at most 255
    bytes; the registers do not change. *)
Theorem register_names_listed (h : RegisterHandler B) :
  let t := block_views (block h) in
  block_ok (block h) → (Z.of_nat (length t) < 2 ^ 16)%Z → Forall (λ v, length (view_name v) ≤ 255) t →
  mapM (λ i, handle_list_request h (mkListRequest (Z.of_nat i))) (seq 0 (S (length t))) =
    Ret (((λ v, mkListResponse (mkName (view_name v))) <$> t) ++ [mkListResponse (mkName [])]) ∧
  ∀ i, i ∈ seq 0 (S (length t)) → encodable (mkListRequest (Z.of_nat i)).
Proof.
  intros t Hb Hlen Hnames. split.
  2: { intros i Hi%elem_of_seq. cbn. unfold is_u. lia. }
  set (name i := match t !! i with Some v => view_name v | None => [] end).
  rewrite (mapM_Ret _ (λ i, mkListResponse (mkName (name i)))).
  - f_equal. rewrite seq_S, fmap_app. f_equal; [|by unfold name; cbn; rewrite lookup_ge_None_2].
    apply list_eq. intros i. rewrite !list_lookup_fmap. destruct (decide (i < length t)) as [Hi|Hi].
    + rewrite lookup_seq_lt by done. destruct (lookup_lt_is_Some_2 t i Hi) as [v Hv]. unfold name. cbn. by rewrite Hv.
    + rewrite lookup_seq_ge, lookup_ge_None_2 by lia. done.
  - intros i _. rewrite handle_list_request_spec by done. cbn [lq_index]. rewrite Nat2Z.id. fold t. unfold name.
    destruct (t !! i) as [v|] eqn:Hv; [|done]. rewrite (proj2 (Nat.leb_le _ _)); [done|].
    by apply (Forall_lookup_1 _ _ _ _ Hnames Hv).
Qed.
End listing.

Section wire.
Context {B : Type} `{RegisterBlockSpec B}.
Context {I D N T C Tx Rx Drv ETx ERx R PM RM : Type}.
Context `{Instant I D, Clock C I, TransportSpec N T}.
Context `{!Transmitter Tx C I N T Drv ETx, !Receiver Rx I D N T Drv ERx}.
Context `{!TransferIdTracker R N T, !TransferIdTrackerSpec R N T}.
Context `{!LinkSpec Tx Rx C I D N T Drv ETx ERx}.
Context `{!KeyMap PM SubjectId (Publisher D N T), !KeyMapSpec PM SubjectId (Publisher D N T)}.
Context `{!KeyMap RM ServiceId (Requester D N R), !KeyMapSpec RM ServiceId (Requester D N R)}.
Context (p : profile).

Abbreviation Core := (CoreNode C Tx Rx (Recorder (Transfer (list u8) I N T) Drv) N PM RM).
#[local] Instance wire_node : Node Core Core I D N T ETx ERx := core_node p.

End wire.

(** ** Examples *)

Module RegisterExample.
Export NodeExample.
(** A register "a" of type [u16] that accepts values below 100, and a fixed string "b". *)
Abbreviation Block := (ValidatedRegister (prim prim_u16) (prim prim_u16 → bool) * (FixedStringRegister * unit))%type.
Definition small (x : prim prim_u16) : bool := (prim_value x <? 100)%Z.
Definition registers : Block :=
  (ValidatedRegister_with_value [0x61]%Z true true (mkPrim 5) small, (mkFixedStringRegister [0x62]%Z [0x68; 0x69]%Z, tt)).
Definition handler : RegisterHandler Block := RegisterHandler_new registers.

Lemma registers_valid : block_ok registers.
Proof.
  assert (Hstr : ∀ l, forallb (is_ub 8) l && utf8_valid l = true → str_ok l).
  { intros l [Hl Hu]%andb_true_iff. split; [by apply bytes_valid|done]. }
  split; [|split; [|done]].
  - split; [by apply is_ub_spec|]. split; [done|by apply Hstr].
  - split; [split; [cbn; lia|by apply bytes_valid]|by apply Hstr].
Qed.

(** The request that writes [x] to "a". *)
Definition write_a (x : Z) : AccessRequest := mkAccessRequest (mkName [0x61]%Z) (ValueNatural16 (mkNatural16 [x])).
Lemma write_a_encodable x : is_ub 16 x = true → encodable (write_a x).
Proof.
  intros Hx%is_ub_spec. split; [split; [cbn; lia|by apply bytes_valid]|].
  split; [split; [cbn; lia|by constructor]|by intros []].
Qed.

Definition header (service : ServiceId) : ServiceHeader Instant32 CanNodeId CanTransferId :=
  mkServiceHeader (mkMicroseconds32 0) 5%Z High service 7%Z 42%Z.
End RegisterExample.

Section examples.
Import RegisterExample.

(** The register "a" is read with the value 5 on the wire. *)
Lemma register_messages_come_back_witness :
  comes_back Release Debug (ValueNatural16 (mkNatural16 [5%Z])) ∧ comes_back Release Debug (write_a 7) ∧
  comes_back Release Debug (mkAccessResponse (mkSynchronizedTimestamp 0) true true (ValueNatural16 (mkNatural16 [5%Z]))) ∧
  comes_back Release Debug (mkListRequest 300) ∧ comes_back Release Debug (mkListResponse (mkName [0x61]%Z)).
Proof.
  assert (Hv : value_ok (ValueNatural16 (mkNatural16 [5%Z])) ∧ ~ is_bit (ValueNatural16 (mkNatural16 [5%Z]))).
  { apply (write_a_encodable 5 eq_refl). }
  destruct (register_messages_come_back Release Debug) as (H1 & H2 & H3 & H4 & H5).
  split; [exact (H1 _ (proj1 Hv) (proj2 Hv))|]. split; [exact (H2 _ (write_a_encodable 7 eq_refl))|].
  split; [apply H3; split; [by apply is_ub_spec|exact Hv]|].
  split; [apply H4; by apply is_ub_spec|apply H5]. split; [cbn; lia|by apply bytes_valid].
Defined.

Lemma response_header_ok service : ServiceId_valid service → header_ok (Request (header service)).
Proof. intros Hs. split_and!; [done|by vm_compute..]. Qed.

(** An access request for "a" with an array of 2305 bits, and one for a name without a register. *)
Lemma register_requests_panic_exactly_witness :
  let request payload := register_handle_request (ETx := error) (ERx := error) Debug mem handler node
    (response_token (header access_SERVICE)) (mkServiceTransfer (header access_SERVICE) payload) in
  request [1; 0x61; 3; 1; 9]%Z = Panic ∧ ∃ h' nd' b, request [1; 0x63; 0]%Z = Ret (h', nd', b).
Proof.
  assert (Hs : ServiceId_valid access_SERVICE) by by vm_compute.
  split.
  - pose proof (register_requests_panic_exactly (ETx := error) (ERx := error) Debug mem handler node
      (mkServiceTransfer (header access_SERVICE) [1; 0x61; 3; 1; 9]%Z) (millis_total 1000 ltac:(lia)) mem_valid node_valid
      (response_header_ok _ Hs) (bytes_valid [1; 0x61; 3; 1; 9]%Z eq_refl) registers_valid) as H. exact H.
  - pose proof (register_requests_panic_exactly (ETx := error) (ERx := error) Debug mem handler node
      (mkServiceTransfer (header access_SERVICE) [1; 0x63; 0]%Z) (millis_total 1000 ltac:(lia)) mem_valid node_valid
      (response_header_ok _ Hs) (bytes_valid [1; 0x63; 0]%Z eq_refl) registers_valid) as H. cbv zeta in H.
    assert (E : request_panics (block_views (block handler)) access_SERVICE [1; 0x63; 0]%Z = false) by by vm_compute.
    cbn [st_header st_payload sh_service header] in H. rewrite E in H.
    destruct H as (h' & nd' & b & H & _). by exists h', nd', b.
Defined.

(** The names "a" and "b". *)
Lemma register_names_listed_witness :
  mapM (λ i, handle_list_request handler (mkListRequest (Z.of_nat i))) [0; 1; 2] =
    Ret [mkListResponse (mkName [0x61]%Z); mkListResponse (mkName [0x62]%Z); mkListResponse (mkName [])].
Proof.
  apply (register_names_listed handler registers_valid); [by vm_compute|].
  by repeat constructor.
Defined.


(** ** Arrays of bits on the wire *)

(** A Boolean register with the value true is read by other nodes as false, and one with the
    value false as an array without bits. *)
Lemma boolean_register_misread :
  (l ← serialize_to_bytes Debug (bool_value true) [0; 0; 0; 0]%Z; deserialize_from_bytes Debug l) =
    Ret (Ok (bool_value false)) ∧
  (l ← serialize_to_bytes Debug (bool_value false) [0; 0; 0; 0]%Z; deserialize_from_bytes Debug l) =
    Ret (Ok (ValueBit (mkBit (BitArray_default 256)))).
Proof. by vm_compute. Qed.

(** Sixteen bits that are all set make the node that reads them panic. *)
Lemma boolean_array_crashes_reader :
  (v ← bool_array_read (mkBoolArray (n := 16) (replicate 16 true));
   l ← serialize_to_bytes Debug v (replicate 5 0%Z);
   deserialize_from_bytes (T := Value) Debug l) = Panic.
Proof. by vm_compute. Qed.

(** A register with a name of 256 bytes can be made, but makes the handler panic. *)
Lemma long_name_crashes_handler :
  ∃ r, FixedStringRegister_new (replicate 256 0x61%Z) [] = Some r ∧
    handle_list_request (RegisterHandler_new (r, tt)) (mkListRequest 0) = Panic.
Proof. eexists. split; [by vm_compute|by vm_compute]. Qed.
End examples.
