(* ===== verification/PnpClient.v ===== *)
(** * The plug-and-play client

    Models [canadensis_pnp_client/src/lib.rs]: a client without a node identifier publishes
    anonymous allocation messages and looks for an answer with its unique identifier; and the
    allocation message of [uavcan.pnp] in [canadensis_data_types/src/generated.rs]. The CRC-64
    of a sequence of bytes is computed by another crate and is a parameter. *)

From S2P Require Import Prelude CoreTypes Time Transfer Transport EncCursor EncFields NodeSend RegisterTypes.

(** ** Allocation messages *)

(** [uavcan.node.ID.1.0], which is copied as a whole. *)
Record ID := mkID { id_value : u16 }.

#[global] Instance id_type : DataType ID := { EXTENT_BYTES := None }.
#[global] Instance id_serialize : Serialize ID := {
  size_bits _ := 16;
  serialize p v c := write_aligned_bytes c (to_le_bytes 2 (id_value v));
}.
#[global] Instance id_deserialize : Deserialize ID := {
  deserialize p c :=
    '(c, bytes) ← deserialize_zero_copy 2 c;
    Ret (c, Ok (mkID (from_le_bytes bytes)));
}.

(** [uavcan.pnp.NodeIDAllocationData.1.0]. *)
Record NodeIDAllocationData := mkNodeIDAllocationData {
  unique_id_hash : u64;
  allocated_node_id : list ID;
}.

Definition allocation_SUBJECT : SubjectId := SubjectId_from_truncating 8166.

(** The loop over the elements of an array of composites. *)
Fixpoint read_composites {A} `{Deserialize A} (p : profile) (capacity n : nat) (c : ReadCursor) (elements : list A)
    : exec (ReadCursor * result DeserializeError (list A)) :=
  match n with
  | 0 => Ret (c, Ok elements)
  | S n' => try_read (read_composite p c) (λ x c, read_composites p capacity n' c (push_ignoring capacity elements x))
  end.

#[global] Instance allocation_type : DataType NodeIDAllocationData := { EXTENT_BYTES := None }.
#[global] Instance allocation_serialize : Serialize NodeIDAllocationData := {
  size_bits v := 48 + 8 + length (allocated_node_id v) * 16 + 0;
  serialize p v c :=
    c ← write_u48 p c (unique_id_hash v);
    c ← write_aligned_u8 c (as_u8 (Z.of_nat (length (allocated_node_id v))));
    write_elements (write_composite p) c (allocated_node_id v);
}.
#[global] Instance allocation_deserialize : Deserialize NodeIDAllocationData := {
  deserialize p c :=
    '(c, hash) ← read_u48 p c;
    '(c, length) ← read_u8 p c;
    if (length <=? 1)%Z then
      try_read (read_composites p 1 (Z.to_nat length) c []) (λ elements c,
      Ret (c, Ok (mkNodeIDAllocationData hash elements)))
    else Ret (c, Err ArrayLength);
}.

(** The trait [AllocationMessage], for transports with node identifiers [N]. *)
Class AllocationMessage (M N : Type) := {
  message_SUBJECT : SubjectId;
  with_unique_id : list u8 → M;
  matches_unique_id : M → list u8 → bool;
  message_node_id : M → option N;
}.

Section allocation.
(** The CRC-64/WE of a sequence of bytes, and [T::NodeId::try_from]. *)
Context (crc64we : list u8 → u64) {N : Type} (node_id_try_from : u16 → option N).

Definition crc_64we_48_bits (id : list u8) : u64 :=
  let value := crc64we id in
  Z.land value 0x0000ffffffffffff.

Definition allocation_with_unique_id (id : list u8) : NodeIDAllocationData :=
  let id_hash := crc_64we_48_bits id in
  mkNodeIDAllocationData id_hash [].

Definition allocation_matches_unique_id (self : NodeIDAllocationData) (id : list u8) : bool :=
  let id_hash := crc_64we_48_bits id in
  (unique_id_hash self =? id_hash)%Z.

Definition allocation_node_id (self : NodeIDAllocationData) : option N :=
  id ← head (allocated_node_id self);
  node_id_try_from (id_value id).

#[global] Instance allocation_message : AllocationMessage NodeIDAllocationData N := {
  message_SUBJECT := allocation_SUBJECT;
  with_unique_id := allocation_with_unique_id;
  matches_unique_id := allocation_matches_unique_id;
  message_node_id := allocation_node_id;
}.
End allocation.

(** ** The client *)

Record PnpClient (D T Tx Rx : Type) := mkPnpClient {
  pnp_unique_id : list u8;
  pnp_publisher : AnonymousPublisher D T;
  pnp_transmitter : Tx;
  pnp_receiver : Rx;
}.
Arguments mkPnpClient {D T Tx Rx}.
Arguments pnp_unique_id {D T Tx Rx}.
Arguments pnp_publisher {D T Tx Rx}.
Arguments pnp_transmitter {D T Tx Rx}.
Arguments pnp_receiver {D T Tx Rx}.

Section client.
Context {I D N T Tx Rx C Drv ETx ERx M : Type}.
Context `{Instant I D, Clock C I, Transport N T, !Transmitter Tx C I N T Drv ETx, !Receiver Rx I D N T Drv ERx}.
Context `{!AllocationMessage M N, !DataType M, !Serialize M, !Deserialize M} (p : profile).

Abbreviation Client := (PnpClient D T Tx Rx).

Definition PnpClient_new (mem : memory) (transmitter : Tx) (receiver : Rx) (unique_id : list u8) (driver : Drv)
    : exec (Drv * result ERx Client) :=
  timeout ← milliseconds 1000%Z;
  '(receiver, driver, r) ← receiver_subscribe_message mem receiver (message_SUBJECT (M := M) (N := N)) 9 timeout driver;
  match r with
  | Err e => Ret (driver, Err e)
  | Ok _ =>
      timeout ← milliseconds 1000%Z;
      Ret (driver, Ok (mkPnpClient unique_id
        (AnonymousPublisher_new (N := N) (message_SUBJECT (M := M) (N := N)) Nominal timeout) transmitter receiver))
  end.

Definition pnp_send_request (mem : memory) (self : Client) (clock : C) (driver : Drv) : exec (Client * C * Drv) :=
  let message : M := with_unique_id (pnp_unique_id self) in
  '(publisher, (transmitter, clock, driver), status) ←
    anon_send p mem (pnp_publisher self) message clock (pnp_transmitter self) driver;
  match status with
  | Ok _ => Ret (mkPnpClient (pnp_unique_id self) publisher transmitter (pnp_receiver self), clock, driver)
  | Err _ => Panic
  end.

Definition set_pnp_receiver (self : Client) (receiver : Rx) : Client :=
  mkPnpClient (pnp_unique_id self) (pnp_publisher self) (pnp_transmitter self) receiver.

Definition pnp_receive (mem : memory) (self : Client) (now : I) (driver : Drv)
    : exec (Client * Drv * result ERx (option N)) :=
  '(receiver, driver, r) ← receiver_receive mem (pnp_receiver self) now driver;
  let self := set_pnp_receiver self receiver in
  match r with
  | Err e => Ret (self, driver, Err e)
  | Ok None => Ret (self, driver, Ok None)
  | Ok (Some transfer_in) =>
      r ← deserialize_from_bytes (T := M) p (tr_payload transfer_in);
      match r with
      | Ok message =>
          if matches_unique_id message (pnp_unique_id self) then
            match message_node_id message with
            | Some node_id => Ret (self, driver, Ok (Some node_id))
            | None => Ret (self, driver, Ok None)
            end
          else Ret (self, driver, Ok None)
      | Err _ => Ret (self, driver, Ok None)
      end
  end.
End client.
