(* ===== verification/PnpClaims.v ===== *)
(** * Properties of the plug-and-play client

    What the client sends, and which answers give it a node identifier. *)

From S2P Require Import Prelude CoreTypes Time Transfer Transport EncCursor EncFields EncCursorSpec EncFieldsSpec EncBits.
From S2P Require Import NodeSend NodeSpec DataTypesSpec NodeRun RegisterTypes Codec RegisterTypesSpec RegisterRequests PnpClient.
From S2P Require Import CanTypes CanTx CanQueue TransportCan NodeClaims.

(** ** Allocation messages *)

#[global] Program Instance id_codec : Codec ID := { encodable v := is_u 16 (id_value v) }.
Next Obligation.
  intros [i] Hi. pose proof (coded_zero_copy (to_le_bytes 2 i) (to_le_bytes_ok 2 i)) as H.
  apply (coded_finish 0 _ (λ p r, deserialize_zero_copy 2 r) (λ bytes, Ok (E := DeserializeError) (mkID (from_le_bytes bytes)))) in H.
  rewrite from_to_le_bytes in H. change (8 * Z.of_nat 2)%Z with 16%Z in H. rewrite wrap_small in H by done. exact H.
Qed.

#[global] Program Instance allocation_codec : Codec NodeIDAllocationData := {
  encodable v := is_u 48 (unique_id_hash v) ∧ length (allocated_node_id v) ≤ 1 ∧ Forall encodable (allocated_node_id v);
}.
Next Obligation.
  intros [hash ids] (Hh & Hlen & Hids). cbn [unique_id_hash allocated_node_id] in *.
  apply (coded_bits (48 + (8 + length ids * 16))); [|cbn -[Nat.mul Nat.add]; lia].
  refine (coded_bind 0 (λ p c, write_u48 p c hash)
    (λ p c, c ← write_aligned_u8 c (as_u8 (Z.of_nat (length ids))); write_elements (write_composite p) c ids) read_u48
    (λ p hash c, '(c, length) ← read_u8 p c;
      if (length <=? 1)%Z then
        try_read (read_composites p 1 (Z.to_nat length) c []) (λ elements c, Ret (c, Ok (mkNodeIDAllocationData hash elements)))
      else Ret (c, Err ArrayLength)) _ _ hash _ _ _).
  { by apply (coded_unsigned 47 write_u48 read_u48). }
  refine (coded_bind 0 _ (λ p c, write_elements (write_composite p) c ids) _ (λ p length c,
      if (length <=? 1)%Z then
        try_read (read_composites p 1 (Z.to_nat length) c []) (λ elements c, Ret (c, Ok (mkNodeIDAllocationData hash elements)))
      else Ret (c, Err ArrayLength)) 8 _ _ _ (coded_aligned_u8 _ _) _); [lia|].
  rewrite (proj2 (Z.leb_le _ _)), Nat2Z.id by lia.
  apply (coded_try_finish 0 _ (λ p c, read_composites p 1 (length ids) c []) (mkNodeIDAllocationData hash)).
  destruct ids as [|x [|]]; [apply coded_ret| |cbn in Hlen; lia]. apply Forall_cons in Hids as [Hids _].
  apply (coded_bits (16 + 0)); [|done].
  exact (coded_try 0 (λ p c, write_composite p c x) (λ p c, Ret c) (λ p c, read_composite p c)
    (λ p x c, Ret (c, Ok [x])) 16 0 x (Ok [x]) (coded_composite_bits x 2 eq_refl Hids eq_refl) (coded_ret 0 _)).
Qed.

#[global] Program Instance allocation_fits : SerializeFits NodeIDAllocationData := { fits := encodable }.
Next Obligation. intros. by apply codec_serializes. Qed.

(** What any bytes are read as. *)
Definition allocation_of (payload : list u8) : result DeserializeError NodeIDAllocationData :=
  let count := byte_at payload 6 in
  if (1 <? count)%Z then Err ArrayLength
  else Ok (mkNodeIDAllocationData (from_le_bytes (byte_at payload <$> seq 0 6))
         (if (count =? 1)%Z then [mkID (byte_at payload 7 + 256 * byte_at payload 8)] else [])).

Lemma allocation_reads p payload : bytes_ok payload →
  deserialize_from_bytes p payload = Ret (allocation_of payload).
Proof.
  intros Hpay. unfold deserialize_from_bytes, allocation_of. cbn [deserialize allocation_deserialize].
  assert (Hr : rc_ok (ReadCursor_new payload)) by (split; [cbn; lia|done]). set (r := ReadCursor_new payload) in *.
  destruct (read_fns_spec 47 read_u48 p r eq_refl Hr) as (r1 & hash & -> & C1 & N1). cbn [mbind exec_bind].
  rewrite (next_bytes r 6 hash Hr eq_refl N1). destruct (consumed_bytes r r1 6 0 Hr eq_refl C1) as [I1 _].
  destruct (read_fns_spec 7 read_u8 p r1 eq_refl (proj1 C1)) as (r2 & count & -> & C2 & N2). cbn [mbind exec_bind].
  assert (Hcount : count = byte_at payload 6).
  { rewrite (next_bytes r1 1 count (proj1 C1) I1 N2). cbn [fmap list_fmap seq from_le_bytes].
    rewrite (proj2 (consumed_bytes r r1 6 0 Hr eq_refl C1)). cbn. lia. }
  pose proof (consumed_trans _ _ _ _ _ C1 C2 : consumed r r2 (8 * 7)) as C.
  destruct (consumed_bytes r r2 7 0 Hr eq_refl C) as [I2 _]. rewrite <- Hcount. destruct N2 as [Hu _].
  rewrite Z.leb_antisym. destruct (Z.ltb_spec 1 count) as [|Hle]; cbn [negb mbind exec_bind]; [done|]. unfold is_u in Hu.
  assert (count = 0 ∨ count = 1)%Z as [-> | ->] by lia; [done|].
  change (Z.to_nat 1) with 1. cbn [read_composites]. unfold try_read.
  destruct (zero_copy_spec 2 r2 (proj1 C2) I2) as (r3 & l & E & C3 & Hl & _ & Hb).
  destruct (read_composite_returns (M := ID) p r2 r3 (Ok (mkID (from_le_bytes l)))) as (r4 & -> & _); [done|done| |apply C3|].
  { cbn [deserialize id_deserialize]. by rewrite E. }
  cbn [mbind exec_bind]. destruct l as [|a [|b [|]]]; try done. pose proof (Hb 0 ltac:(lia)) as H0. pose proof (Hb 1 ltac:(lia)) as H1.
  cbn in H0, H1. injection H0 as ->. injection H1 as ->.
  change (default 0%Z (rc_bytes r2 !! 0)) with (byte_at (rc_bytes r2) 0).
  change (default 0%Z (rc_bytes r2 !! 1)) with (byte_at (rc_bytes r2) 1).
  rewrite (proj2 (consumed_bytes r r2 7 0 Hr eq_refl C)), (proj2 (consumed_bytes r r2 7 1 Hr eq_refl C)).
  cbn [rc_bytes ReadCursor_new r from_le_bytes Nat.add]. change (1 =? 1)%Z with true. unfold push_ignoring. cbn [length Nat.ltb Nat.leb app].
  do 5 f_equal. lia.
Qed.

(** ** The client *)

Section client.
Context {I D N T Tx Rx C Drv ETx ERx : Type}.
Context `{Instant I D, Clock C I, Transport N T, !Transmitter Tx C I N T Drv ETx, !Receiver Rx I D N T Drv ERx}.
Context (crc64we : list u8 → u64) (node_id_try_from : u16 → option N) (p : profile).
#[local] Existing Instance allocation_message.

Abbreviation Client := (PnpClient D T Tx Rx).
Abbreviation receive := (pnp_receive (ERx := ERx) (M := NodeIDAllocationData) (AllocationMessage0 := allocation_message crc64we node_id_try_from) p).
Abbreviation send_request := (pnp_send_request (ETx := ETx) (M := NodeIDAllocationData) (AllocationMessage0 := allocation_message crc64we node_id_try_from) p).

(** The identifier that an answer gives to the node with the unique identifier [id]. *)
Definition allocated (id payload : list u8) : option N :=
  if (from_le_bytes (byte_at payload <$> seq 0 6) =? crc64we id mod 2 ^ 48)%Z && (byte_at payload 6 =? 1)%Z
  then node_id_try_from (byte_at payload 7 + 256 * byte_at payload 8)%Z else None.

Lemma hash_mod id : crc_64we_48_bits crc64we id = (crc64we id mod 2 ^ 48)%Z.
Proof. unfold crc_64we_48_bits. change 0x0000ffffffffffff%Z with (Z.ones 48). by apply Z.land_ones. Qed.

(** C32: whatever the receiver returns, the client returns too, without a panic on any payload:
    errors and the lack of a transfer unchanged, and for a transfer the node identifier in it
    if it is an answer to this client and valid on the transport. That is so exactly if the
    first six bytes are the lower 48 bits of the CRC-64 of the client's unique identifier,
    the next byte says that there is one node identifier, and the two bytes after it (zero
    where the payload ends) are one that the transport allows. *)
Theorem pnp_receive_exact mem (self : Client) (now : I) (driver driver' : Drv) (receiver' : Rx) r :
  receiver_receive mem (pnp_receiver self) now driver = Ret (receiver', driver', r) →
  (∀ transfer, r = Ok (Some transfer) → bytes_ok (tr_payload transfer)) →
  receive mem self now driver =
    Ret (set_pnp_receiver self receiver', driver',
      match r with
      | Err e => Err e
      | Ok None => Ok None
      | Ok (Some transfer) => Ok (allocated (pnp_unique_id self) (tr_payload transfer))
      end).
Proof.
  intros Hrecv Hbytes. unfold pnp_receive. rewrite Hrecv. cbn [mbind exec_bind].
  destruct r as [[transfer|]|]; [|done|done]. rewrite (allocation_reads p _ (Hbytes _ eq_refl)). cbn [mbind exec_bind].
  unfold allocation_of, allocated. set (payload := tr_payload transfer).
  cbn [matches_unique_id message_node_id allocation_message]. unfold allocation_matches_unique_id, allocation_node_id.
  rewrite hash_mod. destruct (Z.ltb_spec 1 (byte_at payload 6)) as [Hlt|Hle].
  { rewrite (proj2 (Z.eqb_neq (byte_at payload 6) 1)) by lia. by rewrite andb_false_r. }
  cbn [unique_id_hash allocated_node_id]. destruct (_ =? _)%Z; cbn [andb]; [|done].
  destruct (byte_at payload 6 =? 1)%Z; [|done]. cbn [head mbind option_bind id_value]. by destruct node_id_try_from.
Qed.

(** The message that asks for an identifier. *)
Definition request_of (id : list u8) : NodeIDAllocationData := mkNodeIDAllocationData (crc64we id mod 2 ^ 48)%Z [].

(** A request of the client is one anonymous transfer of seven bytes, which are read as the
    hash of the unique identifier without a node identifier, and the next request has the next
    transfer identifier. The client panics if the transmitter returns any error, also one
    that asks it to try again, or has a smaller MTU. *)
Theorem pnp_request_exact mem (self : Client) (clock : C) (driver : Drv) mtu deadline :
  transmit_mtu (pnp_transmitter self) = Ret mtu → buffers_available mem →
  add_instant p (anon_timeout (pnp_publisher self)) (clock_now clock).2 = Ret deadline →
  ∃ payload, length payload = 7 ∧
    (∀ p' padding, bytes_ok padding →
      deserialize_from_bytes p' (payload ++ padding) = Ret (Ok (request_of (pnp_unique_id self)))) ∧
    send_request mem self clock driver =
      if mtu <? 7 then Panic else
      let publisher := pnp_publisher self in
      let header := Message (mkMessageHeader deadline (anon_next_transfer_id publisher) (anon_priority publisher)
        (anon_subject publisher) None) in
      '(transmitter, clock, driver, r) ← transmit_push (first_part mem) (pnp_transmitter self)
        (mkTransfer header payload) (clock_now clock).1 driver;
      match r with
      | Ok _ => Ret (mkPnpClient (pnp_unique_id self) (mkAnonymousPublisher (anon_priority publisher) (anon_subject publisher)
          (transfer_id_increment (anon_next_transfer_id publisher)) (anon_timeout publisher)) transmitter (pnp_receiver self),
          clock, driver)
      | Err _ => Panic
      end.
Proof.
  intros Hmtu Hbuf Hdl. set (message := request_of (pnp_unique_id self)).
  assert (Henc : encodable message).
  { split; [|split; [cbn; lia|constructor]]. unfold is_u. apply Z.mod_pos_bound. lia. }
  destruct (codec_roundtrip p p message Henc) as (payload & Hpay & Hlen & _ & _). exists payload.
  split; [by rewrite Hlen|]. split.
  { intros p' padding Hpad. destruct (codec_roundtrip p p' message Henc) as (payload' & E & _ & _ & Hr).
    rewrite Hpay in E. injection E as <-. by apply Hr. }
  assert (Hser : serializable message) by exact Henc.
  unfold pnp_send_request, anon_send. rewrite Hmtu. cbn [mbind exec_bind with_unique_id allocation_message].
  unfold allocation_with_unique_id. rewrite hash_mod. fold (request_of (pnp_unique_id self)). fold message.
  change ((size_bits message + 7) / 8) with 7. destruct (mtu <? 7); [done|].
  destruct (clock_now clock) as [clock1 now]. cbn [fst snd] in *. rewrite Hdl. cbn [mbind exec_bind].
  match goal with |- context [do_serialize p _ ?oom ?st message ?op] =>
    destruct (do_serialize_available p mem oom st message op Hser Hbuf) as (bytes & Hb & _ & ->) end.
  unfold encoded in Hb. rewrite Hpay in Hb. injection Hb as <-. unfold anon_send_payload.
  destruct (transmit_push _ _ _ _ _) as [[[[tx c] d] r]|]; [|done]. cbn [mbind exec_bind]. by destruct r.
Qed.
End client.

(** ** Examples *)

Module PnpExample.
Export NodeExample.

(** The CRC-64/WE, bit by bit. *)
Definition crc_bit (crc : Z) : Z :=
  wrap 64 (if Z.testbit crc 63 then Z.lxor (2 * crc) 0x42f0e1eba9ea3693 else 2 * crc).
Definition crc64we (l : list u8) : u64 :=
  wrap 64 (Z.lxor (foldl (λ crc b, Nat.iter 8 crc_bit (Z.lxor crc (b * 2 ^ 56))) (Z.ones 64) l) (Z.ones 64)).

(** The identifiers of CAN nodes. *)
Definition node_id_try_from (x : u16) : option CanNodeId :=
  match CanNodeId_try_from_u16 x with Ok id => Some id | Err _ => None end.

(** A receiver that holds the transfers that have arrived. *)
Abbreviation inbox := (list (Transfer (list u8) Instant32 CanNodeId CanTransferId)).
#[export] Instance inbox_receiver : Receiver inbox Instant32 Duration32 CanNodeId CanTransferId driver error := {
  receiver_receive _ rx _ d := Ret (tail rx, d, Ok (head rx));
  receiver_subscribe_message _ rx _ _ _ d := Ret (rx, d, Ok tt);
  receiver_unsubscribe_message rx _ d := Ret (rx, d);
  receiver_subscribe_request _ rx _ _ _ d := Ret (rx, d, Ok tt);
  receiver_unsubscribe_request rx _ d := Ret (rx, d);
  receiver_subscribe_response _ rx _ _ _ d := Ret (rx, d, Ok tt);
  receiver_unsubscribe_response rx _ d := Ret (rx, d);
}.

Definition unique_id : list u8 := Z.of_nat <$> seq 1 16.
Definition start_driver : driver := mkRecorder (QueueOnlyDriver_new 64) [].
Definition client (rx : inbox) : PnpClient Duration32 CanTransferId CanTransmitter inbox :=
  mkPnpClient unique_id
    (AnonymousPublisher_new (N := CanNodeId) allocation_SUBJECT Nominal (mkMicrosecondDuration32 1000000))
    (CanTransmitter_new Can8) rx.

Definition answer_with (count id : Z) : Transfer (list u8) Instant32 CanNodeId CanTransferId :=
  mkTransfer (Message (mkMessageHeader (mkMicroseconds32 0) 0%Z Nominal allocation_SUBJECT (Some 1%Z)))
    (to_le_bytes 6 (crc64we unique_id mod 2 ^ 48)%Z ++ [count; id; 0%Z]).
End PnpExample.

Section examples.
Import PnpExample.
#[local] Existing Instance allocation_message.

(** The answer 42 is taken, the answer 200 is not a node on CAN, an empty payload is no answer. *)
Lemma pnp_receive_exact_witness :
  let received rx := pnp_receive (M := NodeIDAllocationData) (I := Instant32) (Drv := driver) (ERx := error)
    (AllocationMessage0 := allocation_message crc64we node_id_try_from) Debug mem (client rx) (mkMicroseconds32 0) start_driver in
  received [answer_with 1 42] = Ret (client [], start_driver, Ok (Some 42%Z)) ∧
  received [answer_with 1 200] = Ret (client [], start_driver, Ok None) ∧
  received [mkTransfer (tr_header (answer_with 1 42)) []] = Ret (client [], start_driver, Ok None).
Proof.
  split_and!.
  - refine (pnp_receive_exact crc64we node_id_try_from Debug mem (client [answer_with 1 42])
      (mkMicroseconds32 0) start_driver start_driver [] (Ok (Some (answer_with 1 42))) eq_refl _).
    intros tr [= <-]. by apply bytes_valid.
  - refine (pnp_receive_exact crc64we node_id_try_from Debug mem (client [answer_with 1 200])
      (mkMicroseconds32 0) start_driver start_driver [] (Ok (Some (answer_with 1 200))) eq_refl _).
    intros tr [= <-]. by apply bytes_valid.
  - refine (pnp_receive_exact crc64we node_id_try_from Debug mem
      (client [mkTransfer (tr_header (answer_with 1 42)) []])
      (mkMicroseconds32 0) start_driver start_driver [] (Ok (Some (mkTransfer (tr_header (answer_with 1 42)) []))) eq_refl _).
    intros tr [= <-]. by apply bytes_valid.
Defined.

(** A request on CAN, which is one frame. *)
Lemma pnp_request_exact_witness :
  ∃ payload client' clock' driver', length payload = 7 ∧
    pnp_send_request (M := NodeIDAllocationData) (I := Instant32) (N := CanNodeId) (ETx := error)
      (AllocationMessage0 := allocation_message crc64we node_id_try_from) Release mem (client []) 0%Z start_driver =
      Ret (client', clock', driver') ∧
    anon_next_transfer_id (pnp_publisher client') = 1%Z ∧ tr_payload <$> rec_sent driver' = [payload].
Proof.
  destruct (pnp_request_exact crc64we node_id_try_from Release mem (client []) 0%Z start_driver 7
    (mkMicroseconds32 1000000)) as (payload & Hlen & _ & E); [by vm_compute|exact mem_available|by vm_compute|].
  exists payload. assert (Hret : pnp_send_request (M := NodeIDAllocationData) (I := Instant32) (N := CanNodeId) (ETx := error)
      (AllocationMessage0 := allocation_message crc64we node_id_try_from) Release mem (client []) 0%Z start_driver ≠ Panic)
    by (by vm_compute).
  cbn [transmit_push rec_transmitter] in E. change (7 <? 7) with false in E. cbv zeta in E.
  match type of E with context [transmit_push ?m ?tx ?tr ?c ?d] =>
    destruct (transmit_push m tx tr c d) as [[[[? ?] ?] [?|?]]|] end; cbn [mbind exec_bind] in E; [|exact (False_ind _ (Hret E))..].
  eexists _, _, _. split; [exact Hlen|]. split; [exact E|]. by split.
Defined.
End examples.
