(* ===== verification/DsdlTypes.v ===== *)
(** * DSDL data types

    Models the data of [canadensis_dsdl_frontend/src]: type keys ([type_key.rs]), the values of
    expressions and the types that are such values ([types.rs], [types/set.rs],
    [types/string.rs]), constants ([types/constant.rs], [constants.rs]) and compiled types
    ([compiled.rs]); with the functions of [types.rs] on the sizes of types. Text is a string
    of bytes. [BigInt] and [BigRational] are the integers and the rational numbers; a
    [BTreeSet] or [BTreeMap] is the list of its elements in ascending order. *)

From Stdlib Require QArith.Qcanon.
From stdpp Require Import strings.
From S2P Require Import Prelude BitLengths.

Abbreviation BigInt := Z (only parsing).
Abbreviation BigRational := Qcanon.Qc (only parsing).

(** ** Type keys *)

Record TypeVersion := mkTypeVersion { major : u8; minor : u8 }.

Record TypeFullName := mkTypeFullName { tfn_path : list string; tfn_name : string }.

(** The lowercase name is the one that is compared. *)
Record TypeKey := mkTypeKey {
  tk_name : TypeFullName;
  tk_lowercase_name : TypeFullName;
  tk_version : TypeVersion;
}.

#[global] Instance type_version_eq_dec : EqDecision TypeVersion.
Proof. solve_decision. Defined.
#[global] Instance type_full_name_eq_dec : EqDecision TypeFullName.
Proof. solve_decision. Defined.

(** ** Types *)

Inductive CastMode := Truncated | Saturated.

Inductive PrimitiveType :=
| PBoolean
| PInt (bits : u8)
| PUInt (bits : u8) (mode : CastMode)
| PFloat16 (mode : CastMode)
| PFloat32 (mode : CastMode)
| PFloat64 (mode : CastMode).

Inductive ScalarType :=
| SVersioned (key : TypeKey)
| SPrimitive (primitive : PrimitiveType)
| SVoid (bits : u8).

(** The type [Type]. *)
Inductive DType :=
| TScalar (scalar : ScalarType)
| TFixedArray (inner : ScalarType) (len : u64)
| TVariableArray (inner : ScalarType) (max_len : u64).

#[global] Instance cast_mode_eq_dec : EqDecision CastMode.
Proof. solve_decision. Defined.
#[global] Instance primitive_type_eq_dec : EqDecision PrimitiveType.
Proof. solve_decision. Defined.

Definition cast_mode (self : PrimitiveType) : CastMode :=
  match self with
  | PBoolean | PInt _ => Saturated
  | PUInt _ mode | PFloat16 mode | PFloat32 mode | PFloat64 mode => mode
  end.

Definition primitive_bit_length (self : PrimitiveType) : u64 :=
  match self with
  | PBoolean => 1
  | PInt bits | PUInt bits _ => bits
  | PFloat16 _ => 16
  | PFloat32 _ => 32
  | PFloat64 _ => 64
  end.

Definition primitive_alignment (self : PrimitiveType) : u32 := 1.

(** ** Values of expressions *)

(** Strings are in NFC. *)
Record StringValue := mkStringValue { sv_text : string }.

(** [Value::Set] has the values of the set in the order of [Value]. *)
Inductive DValue :=
| VRational (value : BigRational)
| VString (value : StringValue)
| VSet (values : list DValue)
| VBitLengthSet (lengths : BitLengthSet)
| VBoolean (value : bool)
| VType (ty : DType).

(** The types of expressions. *)
Inductive ExprType :=
| ETRational
| ETString
| ETSet (element : option ExprType)
| ETBoolean
| ETType.

(** ** Constants *)

(** Floating-point values are their bits. *)
Inductive ConstantValue :=
| CVBoolean (value : bool)
| CVInt (value : BigInt)
| CVFloat16 (bits : u16)
| CVFloat32 (bits : u32)
| CVFloat64 (bits : u64).

Record Constant := mkConstant {
  constant_ty : PrimitiveType;
  constant_dsdl_value : DValue;
  constant_value : ConstantValue;
}.

(** Names and constants. *)
Abbreviation Constants := (list (string * Constant)).

(** ** Compiled types *)

Inductive Extent := Sealed | Delimited (extent_bits : u64).

Inductive Message :=
| mkMessage (deprecated : bool) (extent : Extent) (kind : MessageKind) (bit_length : BitLengthSet)
    (constants : Constants)
with MessageKind :=
| Struct (fields : list Field)
| UnionOf (discriminant_bits : u8) (variants : list Variant)
with Field := mkField (kind : FieldKind) (always_aligned : bool)
with FieldKind :=
| PaddingField (bits : u8)
| DataField (ty : ResolvedType) (name : string)
with Variant := mkVariant (ty : ResolvedType) (name : string)
with ResolvedType :=
| RScalar (scalar : ResolvedScalarType)
| RFixedArray (inner : ResolvedScalarType) (len : u64)
| RVariableArray (inner : ResolvedScalarType) (max_len : u64)
with ResolvedScalarType :=
| RComposite (key : TypeKey) (inner : Message)
| RPrimitive (primitive : PrimitiveType)
| RVoid (bits : u8).

Definition msg_deprecated (self : Message) : bool := let 'mkMessage d _ _ _ _ := self in d.
Definition msg_extent (self : Message) : Extent := let 'mkMessage _ e _ _ _ := self in e.
Definition msg_kind (self : Message) : MessageKind := let 'mkMessage _ _ k _ _ := self in k.
Definition msg_bit_length (self : Message) : BitLengthSet := let 'mkMessage _ _ _ b _ := self in b.
Definition msg_constants (self : Message) : Constants := let 'mkMessage _ _ _ _ c := self in c.
Definition field_kind (self : Field) : FieldKind := let 'mkField k _ := self in k.
Definition always_aligned (self : Field) : bool := let 'mkField _ a := self in a.
Definition variant_ty (self : Variant) : ResolvedType := let 'mkVariant t _ := self in t.
Definition variant_name (self : Variant) : string := let 'mkVariant _ n := self in n.

Definition Field_data (ty : ResolvedType) (name : string) (always_aligned : bool) : Field :=
  mkField (DataField ty name) always_aligned.
Definition Field_padding (bits : u8) (always_aligned : bool) : Field :=
  mkField (PaddingField bits) always_aligned.
Definition field_name (self : Field) : option string :=
  match field_kind self with
  | PaddingField _ => None
  | DataField _ name => Some name
  end.

Inductive DsdlKind :=
| KindMessage (message : Message)
| KindService (request response : Message).

Record CompiledDsdl := mkCompiledDsdl {
  fixed_port_id : option u32;
  dsdl_kind : DsdlKind;
}.

(** ** Implicit fields *)

(** [u64::BITS - value.leading_zeros()]. *)
Definition bit_length_of (value : u64) : u32 := if (value =? 0)%Z then 0 else Z.log2 value + 1.
(** [std::cmp::max(value, 8).next_power_of_two()]. *)
Definition round_up_length (value : u32) : u32 := 2 ^ Z.log2_up (Z.max value 8).
Definition array_length_bits (max_items : u64) : u32 := round_up_length (bit_length_of max_items).

Inductive ImplicitField :=
| DelimiterHeader
| ArrayLength (bits : u8).

Definition PrimitiveType_from_implicit (implicit : ImplicitField) : PrimitiveType :=
  match implicit with
  | DelimiterHeader => PUInt 32 Saturated
  | ArrayLength bits => PUInt bits Saturated
  end.

(** ** Resolved types *)

Definition scalar_size (self : ResolvedScalarType) : BitLengthSet :=
  match self with
  | RComposite _ inner => msg_bit_length inner
  | RPrimitive primitive => bls_single (primitive_bit_length primitive)
  | RVoid bits => bls_single bits
  end.

Definition scalar_alignment (self : ResolvedScalarType) : u32 :=
  match self with
  | RComposite _ _ => 8
  | RPrimitive _ | RVoid _ => 1
  end.

Definition scalar_extent (self : ResolvedScalarType) : Extent :=
  match self with
  | RComposite _ inner => msg_extent inner
  | RPrimitive _ | RVoid _ => Sealed
  end.

Definition scalar_implicit_field (self : ResolvedScalarType) : option ImplicitField :=
  match self with
  | RComposite _ inner =>
      match msg_extent inner with
      | Sealed => None
      | Delimited _ => Some DelimiterHeader
      end
  | RPrimitive _ | RVoid _ => None
  end.

Definition type_size (self : ResolvedType) : BitLengthSet :=
  match self with
  | RScalar scalar => scalar_size scalar
  | RFixedArray inner len => repeat (scalar_size inner) len
  | RVariableArray inner max_len => repeat_range (scalar_size inner) max_len
  end.

Definition type_alignment (self : ResolvedType) : u32 :=
  match self with
  | RScalar scalar => scalar_alignment scalar
  | RFixedArray inner _ | RVariableArray inner _ => scalar_alignment inner
  end.

(** The number of bits of an array length always fits [u8]. *)
Definition implicit_field (self : ResolvedType) : option ImplicitField :=
  match self with
  | RScalar scalar => scalar_implicit_field scalar
  | RFixedArray _ _ => None
  | RVariableArray _ max_len => Some (ArrayLength (array_length_bits max_len))
  end.
