(* ===== verification/DsdlSyntax.v ===== *)
(** * The DSDL parser

    Models [canadensis_dsdl_parser/src]: syntax trees ([ast/types.rs]), their construction from
    the tree of pairs that pest makes with the grammar [dsdl.pest] ([ast.rs]), and the escape
    sequences of strings ([ast/unescape.rs]). A [char] is its code point; [as_str] of a pair is
    the list of its characters. Spans, which only errors use, are left out. The parsers that
    the crates pest and num-bigint provide are parameters. *)

From Stdlib Require Import QArith Qcanon.
From stdpp Require Import strings.
From S2P Require Import Prelude DsdlTypes.

#[local] Open Scope Z_scope.

Abbreviation char := Z (only parsing).

(** ** Syntax trees *)

Record VersionedType := mkVersionedType { vt_path : list string; vt_name : string; vt_version : TypeVersion }.

(** The primitive types of the parser and of the front end are the same. *)
Inductive AstScalarType :=
| AstVersioned (versioned : VersionedType)
| AstPrimitive (primitive : PrimitiveType)
| AstVoid (bits : u8).

Inductive Expression :=
| Atom (atom : ExpressionAtom)
| UnaryPlus (inner : Expression)
| UnaryMinus (inner : Expression)
| UnaryNot (inner : Expression)
| Attribute (lhs : Expression) (rhs : string)
| Exponent (base exponent : Expression)
| Multiply (lhs rhs : Expression)
| Divide (lhs rhs : Expression)
| Modulo (lhs rhs : Expression)
| Add (lhs rhs : Expression)
| Subtract (lhs rhs : Expression)
| BitOr (lhs rhs : Expression)
| BitXor (lhs rhs : Expression)
| BitAnd (lhs rhs : Expression)
| Equal (lhs rhs : Expression)
| NotEqual (lhs rhs : Expression)
| LessOrEqual (lhs rhs : Expression)
| GreaterOrEqual (lhs rhs : Expression)
| Less (lhs rhs : Expression)
| Greater (lhs rhs : Expression)
| LogicalOr (lhs rhs : Expression)
| LogicalAnd (lhs rhs : Expression)
with ExpressionAtom :=
| Parenthesized (inner : Expression)
| AtomType (ty : AstType)
| AtomLiteral (literal : LiteralType)
| AtomIdentifier (identifier : string)
with LiteralType :=
| LiteralSet (expressions : list Expression)
| LiteralNumber (value : BigRational)
| LiteralString (value : string)
| LiteralBoolean (value : bool)
with AstType :=
| AstScalar (scalar : AstScalarType)
| AstArray (element : AstScalarType) (length : ArrayLength)
with ArrayLength :=
| Fixed (length : Expression)
| Inclusive (length : Expression)
| Exclusive (length : Expression).

Inductive Statement :=
| Directive (name : string) (value : option Expression)
| ConstantDecl (ty : PrimitiveType) (name : string) (value : Expression)
| FieldDecl (ty : AstType) (name : string)
| PaddingDecl (bits : u8)
| ResponseMarker.

(** ** Errors *)

Inductive ParseError : Set :=
| GrammarError
| PaddingLength
| VoidLength
| InvalidVersion
| InvalidRealLiteral
| InvalidFractionalPart
| UnexpectedEscape (c : char)
| InvalidEscape (digits : nat)
| EscapeNotScalar (value : Z)
| UnexpectedEnd
| TruncatedBoolean
| FloatLength
| IntegerLength
| TruncatedSigned
| TypeLength.

Abbreviation parsed A := (exec (result ParseError A)).

Definition and_parse {A B} (m : parsed A) (f : A → parsed B) : parsed B :=
  r ← m;
  match r with Ok x => f x | Err e => Ret (Err e) end.
Notation "x ←! m ; f" := (and_parse m (λ x, f)) (at level 20, m at level 100, f at level 200, only parsing) : stdpp_scope.

(** ** Text *)

(** The bytes of a character. *)
Definition encode_utf8 (c : char) : list Z :=
  if c <? 0x80 then [c]
  else if c <? 0x800 then [Z.lor 0xc0 (Z.shiftr c 6); Z.lor 0x80 (Z.land c 0x3f)]
  else if c <? 0x10000 then
    [Z.lor 0xe0 (Z.shiftr c 12); Z.lor 0x80 (Z.land (Z.shiftr c 6) 0x3f); Z.lor 0x80 (Z.land c 0x3f)]
  else
    [Z.lor 0xf0 (Z.shiftr c 18); Z.lor 0x80 (Z.land (Z.shiftr c 12) 0x3f);
     Z.lor 0x80 (Z.land (Z.shiftr c 6) 0x3f); Z.lor 0x80 (Z.land c 0x3f)].
Definition byte_ascii (b : Z) : Ascii.ascii := Ascii.ascii_of_N (Z.to_N b).
(** A string with the characters. *)
Fixpoint text (l : list char) : string :=
  match l with
  | [] => EmptyString
  | c :: l => foldr (λ b s, String (byte_ascii b) s) (text l) (encode_utf8 c)
  end.

Fixpoint chars (s : string) : list char :=
  match s with
  | EmptyString => []
  | String c s => Z.of_N (Ascii.N_of_ascii c) :: chars s
  end.
Definition char_of (s : string) : char := default 0 (head (chars s)).

(** The value of a digit, if the character is one. *)
Definition digit_value (radix : Z) (c : char) : option Z :=
  let d :=
    if (48 <=? c) && (c <=? 57) then c - 48
    else if (97 <=? c) && (c <=? 102) then c - 87
    else if (65 <=? c) && (c <=? 70) then c - 55
    else 99 in
  if d <? radix then Some d else None.
Definition underscore : char := 95.
Definition plus_sign : char := 43.
Definition minus_sign : char := 45.
Definition backslash : char := 92.

(** [from_str_radix] and [FromStr::from_str] of an unsigned type: digits, after at most one
    plus sign, whose value fits. *)
Definition digits_value (radix : Z) (l : list char) : option Z :=
  foldl (λ v c, v ← v; d ← digit_value radix c; Some (v * radix + d)) (Some 0) l.
Definition from_str_radix (bits radix : Z) (l : list char) : option Z :=
  let l := match l with c :: rest => if c =? plus_sign then rest else l | [] => l end in
  match l with
  | [] => None
  | _ => v ← digits_value radix l; if v <? 2 ^ bits then Some v else None
  end.

(** [char::from_u32]. *)
Definition char_from_u32 (value : Z) : option char :=
  if (value <? 0xd800) || ((0xe000 <=? value) && (value <=? 0x10ffff)) then Some value else None.

(** ** Escape sequences *)

(** [UnicodeEscape 4 l] is [Unicode0of4] to [Unicode3of4], by the characters [l] that have been
    read, and [UnicodeEscape 8 l] is [Unicode0of8] to [Unicode7of8]. *)
Inductive UnescapeState :=
| Idle
| Backslash
| UnicodeEscape (n : nat) (escape_chars : list char).

(** The last character of a Unicode escape sequence of [n]. *)
Definition finish_escape (n : nat) (escape_chars : list char) : result ParseError char :=
  match from_str_radix (4 * Z.of_nat n) 16 escape_chars with
  | None => Err (InvalidEscape n)
  | Some value => match char_from_u32 value with Some c => Ok c | None => Err (EscapeNotScalar value) end
  end.

Definition unescape_step (state : UnescapeState) (unescaped : list char) (c : char)
    : result ParseError (UnescapeState * list char) :=
  match state with
  | Idle => if c =? backslash then Ok (Backslash, unescaped) else Ok (Idle, unescaped ++ [c])
  | Backslash =>
      if c =? backslash then Ok (Idle, unescaped ++ [backslash])
      else if c =? char_of "r" then Ok (Idle, unescaped ++ [13])
      else if c =? char_of "n" then Ok (Idle, unescaped ++ [10])
      else if c =? char_of "t" then Ok (Idle, unescaped ++ [9])
      else if c =? 39 then Ok (Idle, unescaped ++ [39])
      else if c =? 34 then Ok (Idle, unescaped ++ [34])
      else if c =? char_of "u" then Ok (UnicodeEscape 4 [], unescaped)
      else if c =? char_of "U" then Ok (UnicodeEscape 8 [], unescaped)
      else Err (UnexpectedEscape c)
  | UnicodeEscape n escape_chars =>
      let escape_chars := escape_chars ++ [c] in
      if (length escape_chars =? n)%nat then
        constructed ← finish_escape n escape_chars; Ok (Idle, unescaped ++ [constructed])
      else Ok (UnicodeEscape n escape_chars, unescaped)
  end.

Fixpoint unescape_loop (state : UnescapeState) (unescaped : list char) (s : list char) : result ParseError (list char) :=
  match s with
  | [] => match state with Idle => Ok unescaped | _ => Err UnexpectedEnd end
  | c :: s => '(state, unescaped) ← unescape_step state unescaped c; unescape_loop state unescaped s
  end.
Definition unescape_string (s : list char) : result ParseError (list char) := unescape_loop Idle [] s.

(** ** Pairs *)

(** The rules of the grammar that make pairs. *)
Inductive Rule : Set :=
| R_EOI | R_identifier
| R_statement_constant | R_statement_field | R_statement_padding_field | R_statement_service_response_marker
| R_statement_directive | R_statement_directive_with_expression | R_statement_directive_without_expression
| R_dtype | R_type_array | R_type_array_variable_inclusive | R_type_array_variable_exclusive | R_type_array_fixed
| R_type_scalar | R_type_versioned | R_type_version_specifier
| R_type_primitive | R_type_primitive_truncated | R_type_primitive_saturated | R_type_primitive_name
| R_type_primitive_name_boolean | R_type_primitive_name_unsigned_integer | R_type_primitive_name_signed_integer
| R_type_primitive_name_floating_point | R_type_void | R_type_bit_length_suffix
| R_expression | R_expression_list | R_expression_parenthesized | R_expression_atom
| R_ex_logical | R_ex_comparison | R_ex_bitwise | R_ex_additive | R_ex_multiplicative | R_ex_exponential | R_ex_attribute
| R_op1_form_log_not | R_op1_form_inv_pos | R_op1_form_inv_neg
| R_op2_log | R_op2_log_or | R_op2_log_and
| R_op2_cmp | R_op2_cmp_equ | R_op2_cmp_neq | R_op2_cmp_leq | R_op2_cmp_geq | R_op2_cmp_lss | R_op2_cmp_grt
| R_op2_bit | R_op2_bit_or | R_op2_bit_xor | R_op2_bit_and
| R_op2_add | R_op2_add_add | R_op2_add_sub
| R_op2_mul | R_op2_mul_mul | R_op2_mul_div | R_op2_mul_mod
| R_op2_exp | R_op2_exp_pow | R_op2_attrib
| R_literal | R_literal_set
| R_literal_integer | R_literal_integer_binary | R_literal_integer_octal | R_literal_integer_hexadecimal
| R_literal_integer_decimal
| R_literal_real | R_literal_real_exponent_notation | R_literal_real_point_notation | R_literal_real_fraction
| R_literal_real_exponent | R_literal_real_digits
| R_literal_string | R_literal_string_single_quoted | R_literal_string_double_quoted
| R_literal_boolean | R_literal_boolean_true | R_literal_boolean_false.

#[global] Instance rule_eq_dec : EqDecision Rule.
Proof. solve_decision. Defined.

Inductive Pair := mkPair (rule : Rule) (str : list char) (inner : list Pair).

Definition as_rule (self : Pair) : Rule := let 'mkPair rule _ _ := self in rule.
Definition as_str (self : Pair) : list char := let 'mkPair _ str _ := self in str.
Definition into_inner (self : Pair) : list Pair := let 'mkPair _ _ inner := self in inner.

(** The first of the inner pairs, and the one after it. *)
Definition first_inner (self : Pair) : exec Pair := unwrap (head (into_inner self)).
Definition second_inner (self : Pair) : exec Pair := unwrap (into_inner self !! 1%nat).

(** [BigInt::from_str] of num-bigint, and the parser that pest derives from the grammar. *)
Class ParserCrates := {
  bigint_from_str : list char → option BigInt;
  pest_parse : list char → result ParseError (list Pair);
}.

Section ast.
Context `{ParserCrates} (p : profile).

Definition debug_assert_rule (pair : Pair) (rule : Rule) : exec unit := debug_assert p (bool_decide (as_rule pair = rule)).

(** ** Numbers *)

(** The value of the digits; underscores are ignored and anything else panics. *)
Definition digits_loop (radix : Z) (l : list char) : exec BigInt :=
  foldl (λ value c,
    value ← value;
    if c =? underscore then Ret value else d ← unwrap (digit_value radix c); Ret (value * radix + d)) (Ret 0) l.

Definition parse_binary_literal (variant : Pair) : exec BigInt :=
  debug_assert_rule variant R_literal_integer_binary;; digits_loop 2 (drop 2 (as_str variant)).
Definition parse_octal_literal (variant : Pair) : exec BigInt :=
  debug_assert_rule variant R_literal_integer_octal;; digits_loop 8 (drop 2 (as_str variant)).
Definition parse_hex_literal (variant : Pair) : exec BigInt :=
  debug_assert_rule variant R_literal_integer_hexadecimal;; digits_loop 16 (drop 2 (as_str variant)).
Definition parse_decimal_digits (variant : Pair) : exec BigInt := digits_loop 10 (as_str variant).

Definition parse_integer_literal (literal : Pair) : exec BigInt :=
  variant ← first_inner literal;
  match as_rule variant with
  | R_literal_integer_binary => parse_binary_literal variant
  | R_literal_integer_octal => parse_octal_literal variant
  | R_literal_integer_hexadecimal => parse_hex_literal variant
  | R_literal_integer_decimal => parse_decimal_digits variant
  | _ => Panic
  end.

Definition from_integer (z : BigInt) : BigRational := Q2Qc (inject_Z z).

(** [BigRational::new]: a denominator of zero panics. *)
Definition rational_new (n d : BigInt) : exec BigRational :=
  match d with
  | Z.pos d => Ret (Q2Qc (n # d))
  | Z.neg d => Ret (Q2Qc (- n # d))
  | Z0 => Panic
  end.

(** Ten to the power of an integer. *)
Definition ten_pow (power : BigInt) : BigRational :=
  if power <? 0 then (1 / from_integer (10 ^ (- power)))%Qc else from_integer (10 ^ power).

(** The length in bytes of digits is their number. *)
Definition parse_real_point_notation (literal : Pair) : parsed BigRational :=
  debug_assert_rule literal R_literal_real_point_notation;;
  whole_number_digits ← first_inner literal;
  fractional_digits ←
    match into_inner literal !! 1%nat with
    | Some fraction => digits ← first_inner fraction; Ret (Some digits)
    | None => Ret None
    end;
  match bigint_from_str (as_str whole_number_digits) with
  | None => Ret (Err InvalidRealLiteral)
  | Some whole =>
      match fractional_digits with
      | Some digits =>
          debug_assert_rule digits R_literal_real_digits;;
          match bigint_from_str (as_str digits) with
          | None => Ret (Err InvalidFractionalPart)
          | Some fraction =>
              scaled ← rational_new fraction (10 ^ Z.of_nat (String.length (text (as_str digits))));
              Ret (Ok (from_integer whole + scaled)%Qc)
          end
      | None => Ret (Ok (from_integer whole))
      end
  end.

Definition parse_real_exponent_notation (literal : Pair) : parsed BigRational :=
  before_exp ← first_inner literal;
  exp ← second_inner literal;
  before_exp ←!
    match as_rule before_exp with
    | R_literal_real_point_notation => parse_real_point_notation before_exp
    | R_literal_real_digits => n ← parse_decimal_digits before_exp; Ret (Ok (from_integer n))
    | _ => Panic
    end;
  exp_sign ← unwrap (as_str exp !! 1%nat);
  digits ← first_inner exp;
  exp_value ← parse_decimal_digits digits;
  let exp_value := if exp_sign =? minus_sign then - exp_value else exp_value in
  Ret (Ok (before_exp * ten_pow exp_value)%Qc).

Definition parse_real_literal (literal : Pair) : parsed BigRational :=
  variant ← first_inner literal;
  match as_rule variant with
  | R_literal_real_exponent_notation => parse_real_exponent_notation variant
  | R_literal_real_point_notation => parse_real_point_notation variant
  | _ => Panic
  end.

(** ** Strings *)

Definition is_quote (c : char) : bool := (c =? 34) || (c =? 39).
Definition strip_prefix (f : char → bool) (l : list char) : option (list char) :=
  match l with c :: l => if f c then Some l else None | [] => None end.
Definition strip_suffix (f : char → bool) (l : list char) : option (list char) :=
  reverse <$> strip_prefix f (reverse l).

Definition parse_string_literal (literal : Pair) : parsed string :=
  literal ← first_inner literal;
  l ← unwrap (strip_prefix is_quote (as_str literal));
  between_quotes ← unwrap (strip_suffix is_quote l);
  Ret (text <$> unescape_string between_quotes).

(** ** Types *)

Definition parse_bit_length_suffix (suffix : Pair) : parsed u8 :=
  debug_assert_rule suffix R_type_bit_length_suffix;;
  Ret match from_str_radix 8 10 (as_str suffix) with Some n => Ok n | None => Err TypeLength end.

Definition valid_integer_length (bits : u8) : bool := (1 <=? bits) && (bits <=? 64).

Definition parse_integer_type (name_kind_rule : Rule) (bits : u8) (cast_mode : CastMode) : parsed PrimitiveType :=
  if valid_integer_length bits then
    match name_kind_rule with
    | R_type_primitive_name_unsigned_integer => Ret (Ok (PUInt bits cast_mode))
    | R_type_primitive_name_signed_integer =>
        match cast_mode with
        | Saturated => Ret (Ok (PInt bits))
        | Truncated => Ret (Err TruncatedSigned)
        end
    | _ => Panic
    end
  else Ret (Err IntegerLength).

Definition parse_primitive_type_name (name : Pair) (cast_mode : CastMode) : parsed PrimitiveType :=
  debug_assert_rule name R_type_primitive_name;;
  name_kind ← first_inner name;
  match as_rule name_kind with
  | R_type_primitive_name_boolean =>
      Ret match cast_mode with Truncated => Err TruncatedBoolean | Saturated => Ok PBoolean end
  | R_type_primitive_name_unsigned_integer | R_type_primitive_name_signed_integer =>
      suffix ← first_inner name_kind;
      bits ←! parse_bit_length_suffix suffix;
      parse_integer_type (as_rule name_kind) bits cast_mode
  | R_type_primitive_name_floating_point =>
      suffix ← first_inner name_kind;
      bits ←! parse_bit_length_suffix suffix;
      Ret (if bits =? 16 then Ok (PFloat16 cast_mode)
           else if bits =? 32 then Ok (PFloat32 cast_mode)
           else if bits =? 64 then Ok (PFloat64 cast_mode)
           else Err FloatLength)
  | _ => Panic
  end.

Definition parse_primitive_type (dtype : Pair) : parsed PrimitiveType :=
  debug_assert_rule dtype R_type_primitive;;
  inner ← first_inner dtype;
  type_name ← unwrap (last (into_inner inner));
  match as_rule inner with
  | R_type_primitive_truncated => parse_primitive_type_name type_name Truncated
  | R_type_primitive_saturated => parse_primitive_type_name type_name Saturated
  | _ => Panic
  end.

Definition parse_version_digits (pair : Pair) : parsed u8 :=
  Ret match from_str_radix 8 10 (as_str pair) with Some n => Ok n | None => Err InvalidVersion end.

(** The loop over the children of a versioned type, up to the version. *)
Fixpoint versioned_loop (children : list Pair) (path_and_name : list string)
    : parsed (list string * option TypeVersion) :=
  match children with
  | [] => Ret (Ok (path_and_name, None))
  | child :: children =>
      match as_rule child with
      | R_identifier => versioned_loop children (path_and_name ++ [text (as_str child)])
      | R_type_version_specifier =>
          version_major_lit ← first_inner child;
          version_minor_lit ← second_inner child;
          major ←! parse_version_digits version_major_lit;
          minor ←! parse_version_digits version_minor_lit;
          Ret (Ok (path_and_name, Some (mkTypeVersion major minor)))
      | _ => Panic
      end
  end.
Definition parse_versioned_type (versioned : Pair) : parsed VersionedType :=
  debug_assert_rule versioned R_type_versioned;;
  found ←! versioned_loop (into_inner versioned) [];
  name ← unwrap (last (fst found));
  version ← unwrap (snd found);
  Ret (Ok (mkVersionedType (removelast (fst found)) name version)).

(** A length of padding. *)
Definition parse_void_bits (e : ParseError) (void : Pair) : parsed u8 :=
  suffix ← first_inner void;
  bits ←! parse_bit_length_suffix suffix;
  Ret (if (1 <=? bits) && (bits <=? 64) then Ok bits else Err e).

Definition parse_scalar_type (dtype : Pair) : parsed AstScalarType :=
  debug_assert_rule dtype R_type_scalar;;
  child ← first_inner dtype;
  match as_rule child with
  | R_type_versioned => versioned ←! parse_versioned_type child; Ret (Ok (AstVersioned versioned))
  | R_type_primitive => primitive ←! parse_primitive_type child; Ret (Ok (AstPrimitive primitive))
  | R_type_void => bits ←! parse_void_bits VoidLength child; Ret (Ok (AstVoid bits))
  | _ => Panic
  end.

(** ** Expressions *)

Fixpoint get_deepest_rule (pair : Pair) : Rule :=
  let 'mkPair rule _ inner := pair in
  match inner with [] => rule | inner :: _ => get_deepest_rule inner end.

(** The closures that give the expression for an operator. *)
Definition logical_operator (rule : Rule) : option (Expression → Expression → Expression) :=
  match rule with R_op2_log_or => Some LogicalOr | R_op2_log_and => Some LogicalAnd | _ => None end.
Definition comparison_operator (rule : Rule) : option (Expression → Expression → Expression) :=
  match rule with
  | R_op2_cmp_equ => Some Equal | R_op2_cmp_neq => Some NotEqual
  | R_op2_cmp_leq => Some LessOrEqual | R_op2_cmp_geq => Some GreaterOrEqual
  | R_op2_cmp_lss => Some Less | R_op2_cmp_grt => Some Greater
  | _ => None
  end.
Definition bitwise_operator (rule : Rule) : option (Expression → Expression → Expression) :=
  match rule with
  | R_op2_bit_or => Some BitOr | R_op2_bit_xor => Some BitXor | R_op2_bit_and => Some BitAnd
  | _ => None
  end.
Definition additive_operator (rule : Rule) : option (Expression → Expression → Expression) :=
  match rule with R_op2_add_add => Some Add | R_op2_add_sub => Some Subtract | _ => None end.
Definition multiplicative_operator (rule : Rule) : option (Expression → Expression → Expression) :=
  match rule with
  | R_op2_mul_mul => Some Multiply | R_op2_mul_div => Some Divide | R_op2_mul_mod => Some Modulo
  | _ => None
  end.
Definition exponential_operator (rule : Rule) : option (Expression → Expression → Expression) :=
  match rule with R_op2_exp_pow => Some Exponent | _ => None end.

(** The loop of [parse_binary_op]. *)
Fixpoint binary_loop (parse : Pair → parsed Expression) (op_handler : Rule → option (Expression → Expression → Expression))
    (expression : Expression) (children : list Pair) : parsed Expression :=
  match children with
  | [] => Ret (Ok expression)
  | operator :: children =>
      match children with
      | [] => Panic
      | rhs :: children =>
          rhs ←! parse rhs;
          op ← unwrap (op_handler (get_deepest_rule operator));
          binary_loop parse op_handler (op expression rhs) children
      end
  end.
Definition parse_binary_op (parse : Pair → parsed Expression)
    (op_handler : Rule → option (Expression → Expression → Expression)) (children : list Pair) : parsed Expression :=
  match children with
  | [] => Panic
  | child :: children =>
      expression ←! parse child;
      binary_loop parse op_handler expression children
  end.

(** The loop over the attributes of an expression. *)
Fixpoint attribute_loop (expression : Expression) (children : list Pair) : parsed Expression :=
  match children with
  | [] => Ret (Ok expression)
  | op2_attrib :: children =>
      assert_ (bool_decide (as_rule op2_attrib = R_op2_attrib));;
      match children with
      | [] => Panic
      | rhs :: children =>
          assert_ (bool_decide (as_rule rhs = R_identifier));;
          attribute_loop (Attribute expression (text (as_str rhs))) children
      end
  end.

(** The expressions of a set: [map] and [collect]. *)
Fixpoint parse_all (parse : Pair → parsed Expression) (l : list Pair) : parsed (list Expression) :=
  match l with
  | [] => Ret (Ok [])
  | child :: l => e ←! parse child; es ←! parse_all parse l; Ret (Ok (e :: es))
  end.

(** The functions that [parse_expression] calls, which call it again. They match on inner
    pairs where the source takes them out of the iterator. *)

Definition parse_array_type (parse : Pair → parsed Expression) (dtype : Pair) : parsed AstType :=
  let 'mkPair rule _ children := dtype in
  debug_assert p (bool_decide (rule = R_type_array));;
  match children with
  | mkPair variant_rule _ (member_type :: length :: _) :: _ =>
      member_type ←! parse_scalar_type member_type;
      length ←! parse length;
      match variant_rule with
      | R_type_array_variable_inclusive => Ret (Ok (AstArray member_type (Inclusive length)))
      | R_type_array_variable_exclusive => Ret (Ok (AstArray member_type (Exclusive length)))
      | R_type_array_fixed => Ret (Ok (AstArray member_type (Fixed length)))
      | _ => Panic
      end
  | _ => Panic
  end.

Definition parse_data_type (parse : Pair → parsed Expression) (dtype : Pair) : parsed AstType :=
  let 'mkPair _ _ children := dtype in
  match children with
  | [] => Panic
  | array_or_scalar :: _ =>
      match as_rule array_or_scalar with
      | R_type_array => parse_array_type parse array_or_scalar
      | R_type_scalar => scalar ←! parse_scalar_type array_or_scalar; Ret (Ok (AstScalar scalar))
      | _ => Panic
      end
  end.

Definition parse_literal (parse : Pair → parsed Expression) (literal : Pair) : parsed LiteralType :=
  let 'mkPair rule _ children := literal in
  match rule with
  | R_literal_set =>
      match children with
      | mkPair _ _ expressions :: _ =>
          expressions ←! parse_all parse expressions; Ret (Ok (LiteralSet expressions))
      | [] => Panic
      end
  | R_literal_real => q ←! parse_real_literal literal; Ret (Ok (LiteralNumber q))
  | R_literal_integer => n ← parse_integer_literal literal; Ret (Ok (LiteralNumber (from_integer n)))
  | R_literal_string => s ←! parse_string_literal literal; Ret (Ok (LiteralString s))
  | R_literal_boolean =>
      match children with
      | bool_value :: _ =>
          match as_rule bool_value with
          | R_literal_boolean_true => Ret (Ok (LiteralBoolean true))
          | R_literal_boolean_false => Ret (Ok (LiteralBoolean false))
          | _ => Panic
          end
      | [] => Panic
      end
  | _ => Panic
  end.

Definition parse_expression_atom (parse : Pair → parsed Expression) (atom : Pair) : parsed ExpressionAtom :=
  let 'mkPair rule str children := atom in
  match rule with
  | R_expression_parenthesized =>
      match children with
      | child :: _ => e ←! parse child; Ret (Ok (Parenthesized e))
      | [] => Panic
      end
  | R_dtype => ty ←! parse_data_type parse atom; Ret (Ok (AtomType ty))
  | R_literal =>
      match children with
      | child :: _ => literal ←! parse_literal parse child; Ret (Ok (AtomLiteral literal))
      | [] => Panic
      end
  | R_identifier => Ret (Ok (AtomIdentifier (text str)))
  | _ => Panic
  end.

Fixpoint parse_expression (pair : Pair) : parsed Expression :=
  let 'mkPair rule _ children := pair in
  let parse_child make :=
    match children with
    | child :: _ => e ←! parse_expression child; Ret (Ok (make e))
    | [] => Panic
    end in
  match rule with
  | R_expression =>
      assert_ (length children =? 1)%nat;;
      match children with child :: _ => parse_expression child | [] => Panic end
  | R_expression_atom =>
      match children with
      | child :: _ => atom ←! parse_expression_atom parse_expression child; Ret (Ok (Atom atom))
      | [] => Panic
      end
  | R_ex_logical => parse_binary_op parse_expression logical_operator children
  | R_ex_comparison => parse_binary_op parse_expression comparison_operator children
  | R_ex_bitwise => parse_binary_op parse_expression bitwise_operator children
  | R_ex_additive => parse_binary_op parse_expression additive_operator children
  | R_ex_multiplicative => parse_binary_op parse_expression multiplicative_operator children
  | R_ex_exponential => parse_binary_op parse_expression exponential_operator children
  | R_ex_attribute =>
      match children with
      | child :: children => expression ←! parse_expression child; attribute_loop expression children
      | [] => Panic
      end
  | R_op1_form_log_not => parse_child UnaryNot
  | R_op1_form_inv_pos => parse_child UnaryPlus
  | R_op1_form_inv_neg => parse_child UnaryMinus
  | _ => Panic
  end.

(** ** Statements *)

Definition parse_directive (directive : Pair) : parsed Statement :=
  debug_assert_rule directive R_statement_directive;;
  inner ← first_inner directive;
  match as_rule inner with
  | R_statement_directive_with_expression | R_statement_directive_without_expression =>
      identifier ← first_inner inner;
      expr ←!
        match into_inner inner !! 1%nat with
        | Some expr => e ←! parse_expression expr; Ret (Ok (Some e))
        | None => Ret (Ok None)
        end;
      Ret (Ok (Directive (text (as_str identifier)) expr))
  | _ => Panic
  end.

Definition parse_constant (constant : Pair) : parsed Statement :=
  debug_assert_rule constant R_statement_constant;;
  dtype ← first_inner constant;
  identifier ← second_inner constant;
  value ← unwrap (into_inner constant !! 2%nat);
  ty ←! parse_primitive_type dtype;
  value ←! parse_expression value;
  Ret (Ok (ConstantDecl ty (text (as_str identifier)) value)).

Definition parse_field (field : Pair) : parsed Statement :=
  debug_assert_rule field R_statement_field;;
  dtype ← first_inner field;
  identifier ← second_inner field;
  ty ←! parse_data_type parse_expression dtype;
  Ret (Ok (FieldDecl ty (text (as_str identifier)))).

Definition parse_padding_field (field : Pair) : parsed Statement :=
  debug_assert_rule field R_statement_padding_field;;
  void ← first_inner field;
  bits ←! parse_void_bits PaddingLength void;
  Ret (Ok (PaddingDecl bits)).

(** The loop over the statements; [eof] tells whether the end of the file was seen. *)
Fixpoint statements_loop (statements : list Pair) (ast_statements : list Statement) (eof : bool) : parsed (list Statement) :=
  match statements with
  | [] => if eof then Ret (Ok ast_statements) else Panic
  | statement :: statements =>
      let push m := s ←! m; statements_loop statements (ast_statements ++ [s]) eof in
      match as_rule statement with
      | R_statement_directive => push (parse_directive statement)
      | R_statement_service_response_marker => push (Ret (Ok ResponseMarker))
      | R_statement_constant => push (parse_constant statement)
      | R_statement_field => push (parse_field statement)
      | R_statement_padding_field => push (parse_padding_field statement)
      | R_EOI => statements_loop statements ast_statements true
      | _ => Panic
      end
  end.
Definition parse_to_ast (statements : list Pair) : parsed (list Statement) := statements_loop statements [] false.

Definition parse (dsdl : list char) : parsed (list Statement) :=
  match pest_parse dsdl with
  | Ok parse_tree => parse_to_ast parse_tree
  | Err e => Ret (Err e)
  end.
End ast.
