(* ===== verification/DsdlBuild.v ===== *)
(** * Building a compiled type

    Models the state of a file in [canadensis_dsdl_frontend/src/compile.rs]: the transitions
    for fields, padding, the directives [@union], [@extent], [@sealed] and [@deprecated], the
    marker between request and response, and the end of the file. An error is its message;
    the place in the text that comes with it is left out. *)

From stdpp Require Import strings.
From S2P Require Import Prelude BitLengths DsdlTypes.

(** ** States *)

Inductive StructState :=
| SCollecting (fields : list Field)
| SEnd (fields : list Field) (extent : Extent).

Inductive UnionState :=
| UCollecting (variants : list Variant)
| UUsedOffset (variants : list Variant) (length : BitLengthSet)
| UEnd (variants : list Variant) (extent : Extent) (length : BitLengthSet).

Inductive State :=
| InMessage
| InMessageStruct (state : StructState) (length : BitLengthSet)
| InMessageUnion (state : UnionState)
| InResponse (request : Message)
| InResponseStruct (request : Message) (state : StructState) (length : BitLengthSet)
| InResponseUnion (request : Message) (state : UnionState).

(** [fs_state] is always [Some] except while a function matches on it. *)
Record FileState := mkFileState {
  fs_path : list string;
  fs_constants : Constants;
  fs_deprecated : bool;
  fs_state : option State;
}.

(** The messages of the errors. *)
Inductive BuildError : Set :=
| UnionAfterAttribute
| DeprecatedTwice
| DeprecatedAfterAttribute
| DeprecatedInResponse
| RequestNotEnded
| ExtraResponseMarker
| PaddingAfterEnd
| PaddingInUnion
| DuplicateConstant (name : string)
| DuplicateField (name : string)
| DuplicateVariant (name : string)
| FieldAfterOffset
| FieldAfterEnd
| FileNotEnded
| EndedTwice
| TooFewVariants.

Definition FileState_new (path : list string) : FileState := mkFileState path [] false (Some InMessage).

Definition set_state (self : FileState) (state : option State) : FileState :=
  mkFileState (fs_path self) (fs_constants self) (fs_deprecated self) state.
Definition set_constants (self : FileState) (constants : Constants) : FileState :=
  mkFileState (fs_path self) constants (fs_deprecated self) (fs_state self).
Definition set_deprecated (self : FileState) (deprecated : bool) : FileState :=
  mkFileState (fs_path self) (fs_constants self) deprecated (fs_state self).

(** [self.state.take().expect("No state")]. *)
Definition take_state (self : FileState) : exec (FileState * State) :=
  state ← unwrap (fs_state self); Ret (set_state self None, state).

(** The results of a function that puts a state back, and of one that fails without. *)
Definition put (self : FileState) (state : State) : exec (FileState * result BuildError unit) :=
  Ret (set_state self (Some state), Ok tt).
Definition fail (self : FileState) (e : BuildError) : exec (FileState * result BuildError unit) :=
  Ret (self, Err e).

(** ** Unions *)

Definition UNION_MIN_VARIANTS : usize := 2.
Definition COMPOSITE_ALIGNMENT : u32 := 8.
Definition BIT_LENGTH_ZERO : BitLengthSet := bls_single 0.

Definition calculate_discriminant_bits (num_variants : usize) : u8 := array_length_bits (Z.of_nat num_variants).

Definition unite_all (sizes : list BitLengthSet) : option BitLengthSet :=
  match sizes with
  | [] => None
  | size :: sizes => Some (foldl (λ size1 size2, unite size1 [size2]) size sizes)
  end.

Definition make_union_bit_length (variants : list Variant) : BitLengthSet :=
  let discriminant_bits := calculate_discriminant_bits (length variants) in
  let discriminant_length := bls_single discriminant_bits in
  let variant_lengths := default (bls_single 0) (unite_all ((λ v, type_size (variant_ty v)) <$> variants)) in
  concatenate discriminant_length [variant_lengths].

(** ** Directives *)

Definition handle_union (self : FileState) : exec (FileState * result BuildError unit) :=
  '(self, state) ← take_state self;
  match state with
  | InMessage => put self (InMessageUnion (UCollecting []))
  | InResponse m => put self (InResponseUnion m (UCollecting []))
  | _ => fail self UnionAfterAttribute
  end.

Definition apply_sealed_or_extent (self : FileState) (extent : Extent) : exec (FileState * result BuildError unit) :=
  '(self, state) ← take_state self;
  match state with
  | InMessageStruct (SEnd _ _) _ | InMessageUnion (UEnd _ _ _)
  | InResponseStruct _ (SEnd _ _) _ | InResponseUnion _ (UEnd _ _ _) => fail self EndedTwice
  | InMessage => put self (InMessageStruct (SEnd [] extent) (bls_single 0))
  | InResponse req => put self (InResponseStruct req (SEnd [] extent) (bls_single 0))
  | InMessageStruct (SCollecting fields) length => put self (InMessageStruct (SEnd fields extent) length)
  | InResponseStruct req (SCollecting fields) length => put self (InResponseStruct req (SEnd fields extent) length)
  | InMessageUnion (UCollecting fields) =>
      if UNION_MIN_VARIANTS <=? length fields then
        put self (InMessageUnion (UEnd fields extent (make_union_bit_length fields)))
      else fail self TooFewVariants
  | InMessageUnion (UUsedOffset fields len) =>
      if UNION_MIN_VARIANTS <=? length fields then put self (InMessageUnion (UEnd fields extent len))
      else fail self TooFewVariants
  | InResponseUnion req (UCollecting fields) =>
      if UNION_MIN_VARIANTS <=? length fields then
        put self (InResponseUnion req (UEnd fields extent (make_union_bit_length fields)))
      else fail self TooFewVariants
  | InResponseUnion req (UUsedOffset fields len) =>
      if UNION_MIN_VARIANTS <=? length fields then put self (InResponseUnion req (UEnd fields extent len))
      else fail self TooFewVariants
  end.

Definition handle_extent (self : FileState) (extent_bits : u64) : exec (FileState * result BuildError unit) :=
  apply_sealed_or_extent self (Delimited extent_bits).
Definition handle_sealed (self : FileState) : exec (FileState * result BuildError unit) :=
  apply_sealed_or_extent self Sealed.

Definition handle_deprecated (self : FileState) : exec (FileState * result BuildError unit) :=
  if fs_deprecated self then fail self DeprecatedTwice else
  state ← unwrap (fs_state self);
  match state with
  | InMessage => Ret (set_deprecated self true, Ok tt)
  | InMessageUnion (UCollecting variants) =>
      match variants with
      | [] => Ret (set_deprecated self true, Ok tt)
      | _ => fail self DeprecatedAfterAttribute
      end
  | InMessageStruct (SCollecting _ | SEnd _ _) _
  | InMessageUnion (UUsedOffset _ _ | UEnd _ _ _) => fail self DeprecatedAfterAttribute
  | InResponse _ | InResponseUnion _ _ | InResponseStruct _ _ _ => fail self DeprecatedInResponse
  end.

(** The variable [_offset_]: a union keeps the length and accepts no more variants. *)
Definition bit_length_set (self : FileState) : exec (FileState * BitLengthSet) :=
  '(self, state) ← take_state self;
  let state :=
    match state with
    | InMessageUnion (UCollecting fields) => InMessageUnion (UUsedOffset fields (make_union_bit_length fields))
    | InResponseUnion req (UCollecting fields) =>
        InResponseUnion req (UUsedOffset fields (make_union_bit_length fields))
    | other => other
    end in
  let self := set_state self (Some state) in
  match state with
  | InMessage | InResponse _ => Ret (self, BIT_LENGTH_ZERO)
  | InMessageStruct _ length | InResponseStruct _ _ length
  | InMessageUnion (UUsedOffset _ length | UEnd _ _ length)
  | InResponseUnion _ (UUsedOffset _ length | UEnd _ _ length) => Ret (self, length)
  | InMessageUnion (UCollecting _) | InResponseUnion _ (UCollecting _) => Panic
  end.

(** ** The response marker *)

(** [mem::take] of the deprecation flag and of the constants. *)
Definition take_message (self : FileState) (extent : Extent) (kind : MessageKind) (length : BitLengthSet)
    : FileState * Message :=
  (set_constants (set_deprecated self false) [],
   mkMessage (fs_deprecated self) extent kind length (fs_constants self)).

Definition handle_service_response_marker (self : FileState) : exec (FileState * result BuildError unit) :=
  '(self, state) ← take_state self;
  match state with
  | InMessageStruct (SEnd fields extent) length =>
      let '(self, message) := take_message self extent (Struct fields) length in
      put self (InResponse message)
  | InMessageUnion (UEnd variants extent len) =>
      let discriminant_bits := calculate_discriminant_bits (length variants) in
      let '(self, message) := take_message self extent (UnionOf discriminant_bits variants) len in
      put self (InResponse message)
  | InMessage | InMessageStruct (SCollecting _) _
  | InMessageUnion (UCollecting _ | UUsedOffset _ _) => fail self RequestNotEnded
  | InResponse _ | InResponseUnion _ _ | InResponseStruct _ _ _ => fail self ExtraResponseMarker
  end.

(** ** Fields *)

Section fields.
Context `{Combinatorics} (p : profile) (usize_bits : Z).

Definition add_padding_field (self : FileState) (bits : u8) : exec (FileState * result BuildError unit) :=
  let bits_added := bls_single bits in
  '(self, state) ← take_state self;
  match state with
  | InMessage => put self (InMessageStruct (SCollecting [Field_padding bits true]) bits_added)
  | InMessageStruct (SCollecting fields) length =>
      aligned ← is_byte_aligned p usize_bits length;
      put self (InMessageStruct (SCollecting (fields ++ [Field_padding bits aligned])) (concatenate length [bits_added]))
  | InResponse req => put self (InResponseStruct req (SCollecting [Field_padding bits true]) bits_added)
  | InResponseStruct req (SCollecting fields) length =>
      aligned ← is_byte_aligned p usize_bits length;
      put self (InResponseStruct req (SCollecting (fields ++ [Field_padding bits aligned]))
        (concatenate length [bits_added]))
  | InMessageStruct (SEnd _ _) _ | InResponseStruct _ (SEnd _ _) _ => fail self PaddingAfterEnd
  | InMessageUnion _ | InResponseUnion _ _ => fail self PaddingInUnion
  end.

(** The closure of [add_field]. *)
Definition update_struct_length (total_alignment : u32) (total_length length : BitLengthSet) : BitLengthSet :=
  pad_to_alignment (concatenate (pad_to_alignment length total_alignment) [total_length]) total_alignment.

Definition has_field (name : string) (fields : list Field) : bool :=
  existsb (λ existing, bool_decide (field_name existing = Some name)) fields.
Definition has_variant (name : string) (variants : list Variant) : bool :=
  existsb (λ existing, bool_decide (variant_name existing = name)) variants.

Definition add_field (self : FileState) (ty : ResolvedType) (name : string) (total_length : BitLengthSet)
    (total_alignment : u32) : exec (FileState * result BuildError unit) :=
  let update := update_struct_length total_alignment total_length in
  '(self, state) ← take_state self;
  match state with
  | InMessage => put self (InMessageStruct (SCollecting [Field_data ty name true]) (update (bls_single 0)))
  | InResponse req => put self (InResponseStruct req (SCollecting [Field_data ty name true]) (update (bls_single 0)))
  | InMessageStruct (SCollecting fields) length =>
      if has_field name fields then fail self (DuplicateField name) else
      aligned ← is_byte_aligned p usize_bits length;
      put self (InMessageStruct (SCollecting (fields ++ [Field_data ty name aligned])) (update length))
  | InResponseStruct req (SCollecting fields) length =>
      if has_field name fields then fail self (DuplicateField name) else
      aligned ← is_byte_aligned p usize_bits length;
      put self (InResponseStruct req (SCollecting (fields ++ [Field_data ty name aligned])) (update length))
  | InMessageUnion (UCollecting variants) =>
      if has_variant name variants then fail self (DuplicateVariant name) else
      put self (InMessageUnion (UCollecting (variants ++ [mkVariant ty name])))
  | InResponseUnion req (UCollecting variants) =>
      if has_variant name variants then fail self (DuplicateVariant name) else
      put self (InResponseUnion req (UCollecting (variants ++ [mkVariant ty name])))
  | InMessageUnion (UUsedOffset _ _) | InResponseUnion _ (UUsedOffset _ _) => fail self FieldAfterOffset
  | InMessageStruct (SEnd _ _) _ | InResponseStruct _ (SEnd _ _) _
  | InMessageUnion (UEnd _ _ _) | InResponseUnion _ (UEnd _ _ _) => fail self FieldAfterEnd
  end.

(** The length and the alignment of a field with its implicit field. *)
Definition field_total (ty : ResolvedType) : BitLengthSet * u32 :=
  let ty_alignment := type_alignment ty in
  let ty_length := type_size ty in
  match implicit_field ty with
  | Some implicit_length =>
      let implicit_type := PrimitiveType_from_implicit implicit_length in
      let implicit_bit_length := bls_single (primitive_bit_length implicit_type) in
      (concatenate ty_length [implicit_bit_length], Z.max ty_alignment (primitive_alignment implicit_type))
  | None => (ty_length, ty_alignment)
  end.

(** A field of a resolved type: the part of [compile_one_inner] for [Statement::Field] after
    the type is resolved. *)
Definition field_statement (self : FileState) (ty : ResolvedType) (name : string)
    : exec (FileState * result BuildError unit) :=
  let '(total_length, total_alignment) := field_total ty in
  add_field self ty name total_length total_alignment.

(** ** The statements of a file *)

(** [BTreeMap::insert] of a name that the map does not have. *)
Fixpoint insert_constant (name : string) (c : Constant) (constants : Constants) : Constants :=
  match constants with
  | [] => [(name, c)]
  | (n, x) :: rest =>
      match String.compare name n with
      | Lt => (name, c) :: constants
      | _ => (n, x) :: insert_constant name c rest
      end
  end.
Definition has_constant (name : string) (constants : Constants) : bool :=
  existsb (λ x, bool_decide (fst x = name)) constants.

(** Statements whose expressions and types have their values. *)
Inductive BuildStatement :=
| DirectiveUnion
| DirectiveExtent (extent_bits : u64)
| DirectiveSealed
| DirectiveDeprecated
| UseOffset
| ConstantStatement (name : string) (constant : Constant)
| FieldStatement (ty : ResolvedType) (name : string)
| PaddingFieldStatement (bits : u8)
| ServiceResponseMarker.

Definition run_statement (self : FileState) (statement : BuildStatement) : exec (FileState * result BuildError unit) :=
  match statement with
  | DirectiveUnion => handle_union self
  | DirectiveExtent extent_bits => handle_extent self extent_bits
  | DirectiveSealed => handle_sealed self
  | DirectiveDeprecated => handle_deprecated self
  | UseOffset => '(self, _) ← bit_length_set self; Ret (self, Ok tt)
  | ConstantStatement name constant =>
      if has_constant name (fs_constants self) then fail self (DuplicateConstant name)
      else Ret (set_constants self (insert_constant name constant (fs_constants self)), Ok tt)
  | FieldStatement ty name => field_statement self ty name
  | PaddingFieldStatement bits => add_padding_field self bits
  | ServiceResponseMarker => handle_service_response_marker self
  end.

(** The loop of [compile_one_inner]. *)
Fixpoint run_statements (self : FileState) (statements : list BuildStatement) : exec (FileState * result BuildError unit) :=
  match statements with
  | [] => Ret (self, Ok tt)
  | statement :: statements =>
      '(self, r) ← run_statement self statement;
      match r with
      | Ok _ => run_statements self statements
      | Err e => Ret (self, Err e)
      end
  end.
End fields.

(** ** The end of the file *)

Definition finish_message (self : FileState) (extent : Extent) (kind : MessageKind) (length : BitLengthSet) : Message :=
  mkMessage (fs_deprecated self) extent kind (pad_to_alignment length COMPOSITE_ALIGNMENT) (fs_constants self).

Definition finish (self : FileState) (port_id : option u32) : exec (result BuildError CompiledDsdl) :=
  state ← unwrap (fs_state self);
  match state with
  | InMessageStruct (SEnd fields extent) length =>
      Ret (Ok (mkCompiledDsdl port_id (KindMessage (finish_message self extent (Struct fields) length))))
  | InResponseStruct request (SEnd fields extent) length =>
      Ret (Ok (mkCompiledDsdl port_id (KindService request (finish_message self extent (Struct fields) length))))
  | InMessageUnion (UEnd variants extent len) =>
      let discriminant_bits := calculate_discriminant_bits (length variants) in
      Ret (Ok (mkCompiledDsdl port_id
        (KindMessage (finish_message self extent (UnionOf discriminant_bits variants) len))))
  | InResponseUnion request (UEnd variants extent len) =>
      let discriminant_bits := calculate_discriminant_bits (length variants) in
      Ret (Ok (mkCompiledDsdl port_id
        (KindService request (finish_message self extent (UnionOf discriminant_bits variants) len))))
  | InMessage | InMessageStruct (SCollecting _) _ | InMessageUnion (UCollecting _ | UUsedOffset _ _)
  | InResponse _ | InResponseStruct _ (SCollecting _) _
  | InResponseUnion _ (UCollecting _ | UUsedOffset _ _) => Ret (Err FileNotEnded)
  end.

(** [compile_one_inner], from the statements on. *)
Definition compile_statements `{Combinatorics} (p : profile) (usize_bits : Z) (path : list string)
    (statements : list BuildStatement) (port_id : option u32) : exec (result BuildError CompiledDsdl) :=
  '(state, r) ← run_statements p usize_bits (FileState_new path) statements;
  match r with
  | Ok _ => finish state port_id
  | Err e => Ret (Err e)
  end.
