(* ===== verification/DsdlValues.v ===== *)
(** * Values of DSDL expressions

    Models the operations on values of [canadensis_dsdl_frontend/src]: their types and order
    ([types.rs]), strings ([types/string.rs]), sets ([types/set.rs]), the operators that need
    no other file ([operators/*.rs], the arithmetic of [types/expression.rs]) and constants
    ([types/constant.rs]). A function that may compute the elements of a bit length set has a
    result in [exec]. Normalization of text, floating-point conversions and the order in which
    an unstable sort leaves elements that its comparison does not order are parameters. *)

From Stdlib Require Import QArith Qcanon.
From stdpp Require Import strings.
From S2P Require Import Prelude BitLengths DsdlTypes DsdlSyntax DsdlBuild.

#[local] Open Scope Z_scope.

(** ** Errors *)

Record TypeError := mkTypeError { te_left : ExprType; te_right : ExprType }.

(** The components of a path; each is its bytes. *)
Abbreviation Path := (list string).

(** The errors of [error.rs], with one constructor for each message of a [Compile] error and
    the values that its text is made from; the place in the text is left out, and so is the
    path in [CompileFile], which is that of the file with the key. *)
Inductive Error :=
| BuildFailed (e : BuildError)
| CantCalculate (lhs : ExprType) (symbol : string) (rhs : ExprType)
| CantCalculateIntegers (lhs : BigRational) (symbol : string) (rhs : BigRational)
| CantApplyUnary (symbol : string) (ty : ExprType)
| NoConversion (value : BigRational)
| NoRational
| InvalidTypeInSet (e : TypeError)
| HasNoAttribute (ty : ExprType) (name : string)
| SetHasNoAttribute (name : string)
| SetIsEmpty (name : string)
| SetNotOrdered (name : string) (element : ExprType)
| TypeHasNoAttribute (ty : DType) (name : string)
| ServiceHasNoAttributes (key : TypeKey)
| ReferenceToService
| IdentifierNotFound (name : string)
| NegativeArrayLength (length : BigInt)
| ArrayLengthTooLarge (length : BigInt)
| ArrayLengthNotInteger (length : BigRational)
| ArrayLengthNotRational (ty : ExprType)
| ArrayLengthNotPositive
| UnexpectedExpression (directive : string)
| MissingExpression (directive : string)
| ExtentNotMultiple (extent_bits : u64)
| ExtentTooLarge (extent_bits : BigInt)
| ExtentNotNatural (extent_bits : BigRational)
| ExtentNotRational (ty : ExprType)
| AssertionFailed
| AssertNotBoolean (value : DValue)
| UnrecognizedDirective (name : string)
| ReservedKeyword (name : string)
| StringNotAssignable (text : string) (declared : PrimitiveType)
| NotRepresentable (value : BigRational) (declared : PrimitiveType)
| NonIntegerConstant (value : BigRational)
| ConstantIncompatible (declared : PrimitiveType) (value : DValue)
| UnknownType (key : TypeKey)
| CompileFile (key : TypeKey) (inner : Error)
| ParseFailed (e : ParseError)
| WalkDirFailed (root : Path)
| FileReadFailed (path : Path)
| PathNotUtf8 (path : Path)
| InvalidFileName (path : Path)
| NameKeyword (keyword : string) (key : TypeKey)
| NameInvalidIdentifier (component : string) (key : TypeKey)
| TypeNameLength (key : TypeKey)
| VersionZero (key : TypeKey)
| TypeNotInNamespace (key : TypeKey)
| DuplicateKey (old new : TypeKey).

(** [?] in a function that may also panic. *)
Definition and_then {A B} (m : exec (result Error A)) (f : A → exec (result Error B)) : exec (result Error B) :=
  r ← m;
  match r with Ok x => f x | Err e => Ret (Err e) end.
Notation "x ←? m ; f" := (and_then m (λ x, f)) (at level 20, m at level 100, f at level 200, only parsing) : stdpp_scope.

(** ** Numbers *)

Definition numer (q : BigRational) : BigInt := Qnum (this q).
Definition denom (q : BigRational) : BigInt := Z.pos (Qden (this q)).
Definition is_integer (q : BigRational) : bool := denom q =? 1.

(** [/] and [%]: dividing by zero panics. *)
Definition rational_div (lhs rhs : BigRational) : exec BigRational :=
  if numer rhs =? 0 then Panic else Ret (lhs / rhs)%Qc.
Definition rational_rem (lhs rhs : BigRational) : exec BigRational :=
  if numer rhs =? 0 then Panic
  else Ret (Q2Qc (Z.rem (numer lhs * denom rhs) (numer rhs * denom lhs) # (Qden (this lhs) * Qden (this rhs)))).
(** [Pow::pow] with an integer: a negative power is the reciprocal. *)
Definition rational_pow (base : BigRational) (power : BigInt) : exec BigRational :=
  let r := (base ^ Z.to_nat (Z.abs power))%Qc in
  if power <? 0 then rational_div 1%Qc r else Ret r.

(** Conversions of crates, and the sort of the standard library. *)
Class Conversions := {
  (** unicode_normalization *)
  nfc : string → string;
  (** num-traits, half, and [f64::powf]; floating-point numbers are their bits *)
  to_f32 : BigRational → option u32;
  to_f64 : BigRational → option u64;
  from_f64 : u64 → option BigRational;
  f16_from_f32 : u32 → u16;
  powf : u64 → u64 → u64;
  f16_is_finite : u16 → bool;
  f32_is_finite : u32 → bool;
  f64_is_finite : u64 → bool;
  (** [slice::sort_unstable_by] *)
  sort_unstable_by {A} (cmp : A → A → exec comparison) (l : list A) : exec (list A);
}.

(** ** Strings *)

(** A [StringValue] of one ASCII character stands for its code. *)
Definition implicit_int (self : StringValue) : option u8 :=
  match sv_text self with
  | String c EmptyString => let n := Z.of_N (Ascii.N_of_ascii c) in if n <? 128 then Some n else None
  | _ => None
  end.

Section values.
Context `{Combinatorics} `{Conversions} (p : profile) (usize_bits : Z).

Definition StringValue_from (s : string) : StringValue := mkStringValue (nfc s).
Definition push_str (self : StringValue) (other : string) : StringValue :=
  mkStringValue (nfc (sv_text self +:+ other)).

(** ** Types of values *)

Fixpoint value_ty (self : DValue) : ExprType :=
  match self with
  | VRational _ => ETRational
  | VString _ => ETString
  | VSet l => ETSet (match l with [] => None | x :: _ => Some (value_ty x) end)
  | VBitLengthSet _ => ETSet (Some ETRational)
  | VBoolean _ => ETBoolean
  | VType _ => ETType
  end.

Fixpoint ty_eqb (a b : ExprType) : bool :=
  match a, b with
  | ETRational, ETRational | ETString, ETString | ETBoolean, ETBoolean | ETType, ETType => true
  | ETSet None, ETSet None => true
  | ETSet (Some a), ETSet (Some b) => ty_eqb a b
  | _, _ => false
  end.

(** ** Order and equality *)

(** Lexicographic: the first comparison unless it is [Eq]. *)
Definition then_cmp (c d : comparison) : comparison := match c with Eq => d | _ => c end.

Fixpoint strings_cmp (a b : list string) : comparison :=
  match a, b with
  | [], [] => Eq
  | [], _ => Lt
  | _, [] => Gt
  | x :: a, y :: b => then_cmp (String.compare x y) (strings_cmp a b)
  end.
Definition TypeFullName_cmp (a b : TypeFullName) : comparison :=
  then_cmp (strings_cmp (tfn_path a) (tfn_path b)) (String.compare (tfn_name a) (tfn_name b)).
Definition TypeVersion_cmp (a b : TypeVersion) : comparison :=
  then_cmp (major a ?= major b) (minor a ?= minor b).
Definition TypeKey_cmp (a b : TypeKey) : comparison :=
  then_cmp (TypeFullName_cmp (tk_lowercase_name a) (tk_lowercase_name b)) (TypeVersion_cmp (tk_version a) (tk_version b)).

Definition mode_number (m : CastMode) : Z := match m with Truncated => 0 | Saturated => 1 end.
(** The position of the constructor, and its fields. *)
Definition primitive_numbers (t : PrimitiveType) : Z * Z * Z :=
  match t with
  | PBoolean => (0, 0, 0)
  | PInt bits => (1, bits, 0)
  | PUInt bits mode => (2, bits, mode_number mode)
  | PFloat16 mode => (3, mode_number mode, 0)
  | PFloat32 mode => (4, mode_number mode, 0)
  | PFloat64 mode => (5, mode_number mode, 0)
  end.
Definition primitive_cmp (a b : PrimitiveType) : comparison :=
  let '(i, x, y) := primitive_numbers a in
  let '(j, z, w) := primitive_numbers b in
  then_cmp (i ?= j) (then_cmp (x ?= z) (y ?= w)).
Definition scalar_cmp (a b : ScalarType) : comparison :=
  match a, b with
  | SVersioned a, SVersioned b => TypeKey_cmp a b
  | SVersioned _, _ => Lt
  | _, SVersioned _ => Gt
  | SPrimitive a, SPrimitive b => primitive_cmp a b
  | SPrimitive _, _ => Lt
  | _, SPrimitive _ => Gt
  | SVoid a, SVoid b => a ?= b
  end.
Definition type_cmp (a b : DType) : comparison :=
  match a, b with
  | TScalar a, TScalar b => scalar_cmp a b
  | TScalar _, _ => Lt
  | _, TScalar _ => Gt
  | TFixedArray a n, TFixedArray b m | TVariableArray a n, TVariableArray b m => then_cmp (scalar_cmp a b) (n ?= m)
  | TFixedArray _ _, _ => Lt
  | _, TFixedArray _ _ => Gt
  end.

Definition bool_number (b : bool) : Z := if b then 1 else 0.

(** The position of the constructor of a value. *)
Definition value_number (v : DValue) : Z :=
  match v with
  | VRational _ => 0 | VString _ => 1 | VSet _ => 2 | VBitLengthSet _ => 3 | VBoolean _ => 4 | VType _ => 5
  end.

Fixpoint value_cmp (a b : DValue) : exec comparison :=
  match a, b with
  | VRational a, VRational b => Ret (Qccompare a b)
  | VString a, VString b => Ret (String.compare (sv_text a) (sv_text b))
  | VSet l, VSet k =>
      (fix list_cmp l k :=
        match l, k with
        | [], [] => Ret Eq
        | [], _ => Ret Lt
        | _, [] => Ret Gt
        | x :: l, y :: k => c ← value_cmp x y; match c with Eq => list_cmp l k | c => Ret c end
        end) l k
  | VBitLengthSet a, VBitLengthSet b => bls_cmp p usize_bits a b
  | VBoolean a, VBoolean b => Ret (bool_number a ?= bool_number b)
  | VType a, VType b => Ret (type_cmp a b)
  | a, b => Ret (value_number a ?= value_number b)
  end.

Definition is_Eq (c : comparison) : bool := match c with Eq => true | _ => false end.

Fixpoint value_eq (a b : DValue) : exec bool :=
  match a, b with
  | VRational a, VRational b => Ret (is_Eq (Qccompare a b))
  | VString a, VString b => Ret (String.eqb (sv_text a) (sv_text b))
  | VSet l, VSet k =>
      if (length l =? length k)%nat then
        (fix list_eq l k :=
          match l, k with
          | x :: l, y :: k => e ← value_eq x y; if e : bool then list_eq l k else Ret false
          | _, _ => Ret true
          end) l k
      else Ret false
  | VBitLengthSet a, VBitLengthSet b => bls_eq p usize_bits a b
  | VBoolean a, VBoolean b => Ret (Bool.eqb a b)
  | VType a, VType b => Ret (is_Eq (type_cmp a b))
  | _, _ => Ret false
  end.

(** ** Sets *)

(** [BTreeSet<Value>] is the list of its elements in ascending order. *)
Fixpoint btree_insert (x : DValue) (l : list DValue) : exec (list DValue) :=
  match l with
  | [] => Ret [x]
  | y :: l' =>
      c ← value_cmp x y;
      match c with
      | Lt => Ret (x :: l)
      | Eq => Ret l
      | Gt => l' ← btree_insert x l'; Ret (y :: l')
      end
  end.

(** A step through two sets in ascending order: which of the elements that are only in the
    left one, in both, or only in the right one are kept. *)
Fixpoint btree_merge (keep_left keep_both keep_right : bool) (l : list DValue) : list DValue → exec (list DValue) :=
  fix merge_right k :=
    match l, k with
    | [], k => Ret (if keep_right then k else [])
    | l, [] => Ret (if keep_left then l else [])
    | x :: l', y :: k' =>
        c ← value_cmp x y;
        match c with
        | Lt => rest ← btree_merge keep_left keep_both keep_right l' k; Ret (if keep_left then x :: rest else rest)
        | Eq => rest ← btree_merge keep_left keep_both keep_right l' k'; Ret (if keep_both then x :: rest else rest)
        | Gt => rest ← merge_right k'; Ret (if keep_right then y :: rest else rest)
        end
    end.

Fixpoint btree_contains (x : DValue) (l : list DValue) : exec bool :=
  match l with
  | [] => Ret false
  | y :: l => c ← value_cmp x y; if is_Eq c then Ret true else btree_contains x l
  end.

Definition set_ty (self : list DValue) : option ExprType := value_ty <$> head self.

Definition set_value_insert (self : list DValue) (value : DValue) : exec (result TypeError (list DValue)) :=
  match set_ty self with
  | Some ty =>
      if ty_eqb ty (value_ty value) then l ← btree_insert value self; Ret (Ok l)
      else
        match value with
        | VString s =>
            match implicit_int s with
            | Some n =>
                if ty_eqb ty ETRational then l ← btree_insert (VRational (from_integer n)) self; Ret (Ok l)
                else Ret (Err (mkTypeError ty ETString))
            | None => Ret (Err (mkTypeError ty ETString))
            end
        | _ => Ret (Err (mkTypeError ty (value_ty value)))
        end
  | None => l ← btree_insert value self; Ret (Ok l)
  end.

(** [Result<Set, TypeError>::from_iter] of values that are computed on the way: the first
    error of either kind ends it. *)
Fixpoint set_collect_map {A} (f : A → exec (result Error DValue)) (l : list A) (set : list DValue)
    : exec (result Error (list DValue)) :=
  match l with
  | [] => Ret (Ok set)
  | x :: l =>
      value ←? f x;
      r ← set_value_insert set value;
      match r with
      | Ok set => set_collect_map f l set
      | Err e => Ret (Err (InvalidTypeInSet e))
      end
  end.

(** [Set::from] of lengths. *)
Definition set_from_lengths (lengths : BTreeSet) : exec (list DValue) :=
  r ← set_collect_map (λ n, Ret (Ok (VRational (from_integer n)))) lengths [];
  expect r.

Definition check_element_types (l r : option ExprType) : result TypeError unit :=
  match l, r with
  | Some l, Some r => if ty_eqb l r then Ok tt else Err (mkTypeError l r)
  | _, _ => Ok tt
  end.
Definition is_compatible (self rhs : list DValue) : bool := is_ok (check_element_types (set_ty self) (set_ty rhs)).
Definition can_hold (self : list DValue) (ty : ExprType) : bool := is_ok (check_element_types (set_ty self) (Some ty)).

Fixpoint forall_exec {A} (f : A → exec bool) (l : list A) : exec bool :=
  match l with
  | [] => Ret true
  | x :: l => b ← f x; if b : bool then forall_exec f l else Ret false
  end.
Definition is_subset (self other : list DValue) : exec bool :=
  if (length other <? length self)%nat then Ret false else forall_exec (λ x, btree_contains x other) self.
Definition is_superset (self other : list DValue) : exec bool := is_subset other self.

Definition set_operation (keep_left keep_both keep_right : bool) (self other : list DValue)
    : exec (result TypeError (list DValue)) :=
  match check_element_types (set_ty self) (set_ty other) with
  | Ok _ => l ← btree_merge keep_left keep_both keep_right self other; Ret (Ok l)
  | Err e => Ret (Err e)
  end.
Definition set_union := set_operation true true true.
Definition set_intersection := set_operation false true false.
Definition set_symmetric_difference := set_operation true false true.

Definition set_values (v : DValue) : exec (list DValue) :=
  match v with
  | VSet l => Ret l
  | VBitLengthSet b => s ← bls_expand p usize_bits b; set_from_lengths s
  | _ => Panic
  end.

Definition sets_sorted (self : list DValue) : exec (list (list DValue)) :=
  inner_sets ← mapM set_values self;
  sort_unstable_by (λ a b,
    sub ← is_subset a b;
    if sub : bool then e ← value_eq (VSet a) (VSet b); Ret (if e : bool then Eq else Lt) else Ret Eq) inner_sets.

Definition string_as_ints (self : list DValue) : option (list u8) :=
  mapM (λ v, match v with VString s => implicit_int s | _ => None end) self.

Definition single_character_string (code : u8) : string := String (Ascii.ascii_of_N (Z.to_N code)) EmptyString.

(** The least and the greatest of the codes are what sorting them puts first and last. *)
Definition set_min_value (self : list DValue) : exec (option DValue) :=
  match set_ty self with
  | Some ETRational => Ret (head self)
  | Some (ETSet _) => sorted ← sets_sorted self; s ← unwrap (head sorted); Ret (Some (VSet s))
  | Some ETString =>
      match string_as_ints self with
      | Some (n :: l) => Ret (Some (VString (StringValue_from (single_character_string (foldl Z.min n l)))))
      | Some [] => Panic
      | None => Ret None
      end
  | _ => Ret None
  end.
Definition set_max_value (self : list DValue) : exec (option DValue) :=
  match set_ty self with
  | Some ETRational => Ret (last self)
  | Some (ETSet _) => sorted ← sets_sorted self; s ← unwrap (last sorted); Ret (Some (VSet s))
  | Some ETString =>
      match string_as_ints self with
      | Some (n :: l) => Ret (Some (VString (StringValue_from (single_character_string (foldl Z.max n l)))))
      | Some [] => Panic
      | None => Ret None
      end
  | _ => Ret None
  end.

(** ** Operators *)

Definition as_rational (v : DValue) : option BigRational :=
  match v with
  | VRational q => Some q
  | VString s => from_integer <$> implicit_int s
  | _ => None
  end.

(** A function on two rational numbers. *)
Abbreviation RationalOp := (BigRational → BigRational → exec (result Error DValue)).

Definition calculate_rational_binary (lhs rhs : DValue) (symbol : string) (rational_op : RationalOp)
    : exec (result Error DValue) :=
  match as_rational lhs, as_rational rhs with
  | Some l, Some r => rational_op l r
  | _, _ => Ret (Err (CantCalculate (value_ty lhs) symbol (value_ty rhs)))
  end.

(** A bit length set is replaced by the set of its elements. *)
Definition expand_value (v : DValue) : exec DValue :=
  match v with
  | VBitLengthSet b => s ← bls_expand p usize_bits b; l ← set_from_lengths s; Ret (VSet l)
  | v => Ret v
  end.

Definition calculate_elementwise_binary (lhs rhs : DValue) (symbol : string) (rational_op : RationalOp)
    : exec (result Error DValue) :=
  lhs ← expand_value lhs;
  rhs ← expand_value rhs;
  match lhs, rhs with
  | VRational l, VSet set =>
      if can_hold set ETRational then
        elements ←? set_collect_map (λ x, match x with VRational r => rational_op l r | _ => Panic end) set [];
        Ret (Ok (VSet elements))
      else calculate_rational_binary lhs rhs symbol rational_op
  | VSet set, VRational r =>
      if can_hold set ETRational then
        elements ←? set_collect_map (λ x, match x with VRational l => rational_op l r | _ => Panic end) set [];
        Ret (Ok (VSet elements))
      else calculate_rational_binary lhs rhs symbol rational_op
  | _, _ => calculate_rational_binary lhs rhs symbol rational_op
  end.

Definition calculate_rational_or_set_binary (lhs rhs : DValue) (symbol : string) (rational_op : RationalOp)
    (set_op : list DValue → list DValue → exec (list DValue)) (bit_length_set_op : BitLengthSet → BitLengthSet → exec DValue)
    : exec (result Error DValue) :=
  match lhs, rhs with
  | VSet l, VSet r =>
      if is_compatible l r then s ← set_op l r; Ret (Ok (VSet s))
      else calculate_rational_binary lhs rhs symbol rational_op
  | VBitLengthSet l, VBitLengthSet r => v ← bit_length_set_op l r; Ret (Ok v)
  | _, _ => calculate_rational_binary lhs rhs symbol rational_op
  end.

Definition calculate_rational_or_set_comparison (lhs rhs : DValue) (symbol : string)
    (rational_op : BigRational → BigRational → bool) (set_op : list DValue → list DValue → exec bool)
    : exec (result Error bool) :=
  lhs ← expand_value lhs;
  rhs ← expand_value rhs;
  let fall_back :=
    v ←? calculate_rational_binary lhs rhs symbol (λ l r, Ret (Ok (VBoolean (rational_op l r))));
    match v with VBoolean b => Ret (Ok b) | _ => Panic end in
  match lhs, rhs with
  | VSet l, VSet r => if is_compatible l r then b ← set_op l r; Ret (Ok b) else fall_back
  | _, _ => fall_back
  end.

(** *** Operators on numbers *)

Definition rational_op (f : BigRational → BigRational → exec BigRational) : RationalOp :=
  λ l r, q ← f l r; Ret (Ok (VRational q)).
Definition integer_op (symbol : string) (f : BigInt → BigInt → BigInt) : RationalOp :=
  λ l r,
    if is_integer l && is_integer r then Ret (Ok (VRational (from_integer (f (numer l) (numer r)))))
    else Ret (Err (CantCalculateIntegers l symbol r)).

Definition approx_exponent (base exponent : BigRational) : exec (result Error DValue) :=
  match to_f64 base with
  | None => Ret (Err (NoConversion base))
  | Some b =>
      match to_f64 exponent with
      | None => Ret (Err (NoConversion exponent))
      | Some e =>
          match from_f64 (powf b e) with
          | Some q => Ret (Ok (VRational q))
          | None => Ret (Err NoRational)
          end
      end
  end.
Definition rational_exponent : RationalOp := λ base exponent,
  if is_integer exponent then q ← rational_pow base (numer exponent); Ret (Ok (VRational q))
  else approx_exponent base exponent.

(** *** The operators *)

Definition unary_plus (inner : DValue) : result Error DValue :=
  match inner with
  | VRational n => Ok (VRational n)
  | other => Err (CantApplyUnary "+" (value_ty other))
  end.
Definition unary_minus (inner : DValue) : result Error DValue :=
  match inner with
  | VRational n => Ok (VRational (- n)%Qc)
  | other => Err (CantApplyUnary "-" (value_ty other))
  end.
Definition unary_not (inner : DValue) : result Error DValue :=
  match inner with
  | VBoolean value => Ok (VBoolean (negb value))
  | other => Err (CantApplyUnary "!" (value_ty other))
  end.

Definition exponent (base exponent : DValue) : exec (result Error DValue) :=
  calculate_elementwise_binary base exponent "**" rational_exponent.
Definition multiply (lhs rhs : DValue) : exec (result Error DValue) :=
  calculate_elementwise_binary lhs rhs "*" (rational_op (λ l r, Ret (l * r)%Qc)).
Definition divide (lhs rhs : DValue) : exec (result Error DValue) :=
  calculate_elementwise_binary lhs rhs "/" (rational_op rational_div).
Definition remainder (lhs rhs : DValue) : exec (result Error DValue) :=
  calculate_elementwise_binary lhs rhs "%" (rational_op rational_rem).
Definition add (lhs rhs : DValue) : exec (result Error DValue) :=
  match lhs, rhs with
  | VString l, VString r => Ret (Ok (VString (push_str l (sv_text r))))
  | _, _ => calculate_elementwise_binary lhs rhs "+" (rational_op (λ l r, Ret (l + r)%Qc))
  end.
Definition subtract (lhs rhs : DValue) : exec (result Error DValue) :=
  calculate_elementwise_binary lhs rhs "-" (rational_op (λ l r, Ret (l - r)%Qc)).

(** [unwrap] of an operation on sets. *)
Definition unwrap_set (op : list DValue → list DValue → exec (result TypeError (list DValue))) (l r : list DValue)
    : exec (list DValue) :=
  s ← op l r; expect s.
(** An operation on the elements of two bit length sets. *)
Definition on_elements (f : list u64 → list u64 → list u64) (l r : BitLengthSet) : exec DValue :=
  l ← bls_expand p usize_bits l;
  r ← bls_expand p usize_bits r;
  s ← set_from_lengths (f l r);
  Ret (VSet s).
Definition lengths_without (l r : list u64) : list u64 := filter (λ x, x ∉ r) l.

Definition bit_or (lhs rhs : DValue) : exec (result Error DValue) :=
  calculate_rational_or_set_binary lhs rhs "|" (integer_op "|" Z.lor) (unwrap_set set_union)
    (λ l r, Ret (VBitLengthSet (unite l [r]))).
Definition bit_xor (lhs rhs : DValue) : exec (result Error DValue) :=
  calculate_rational_or_set_binary lhs rhs "^" (integer_op "^" Z.lxor) (unwrap_set set_symmetric_difference)
    (on_elements (λ l r, collect (lengths_without l r ++ lengths_without r l))).
Definition bit_and (lhs rhs : DValue) : exec (result Error DValue) :=
  calculate_rational_or_set_binary lhs rhs "&" (integer_op "&" Z.land) (unwrap_set set_intersection)
    (on_elements (λ l r, filter (λ x, x ∈ r) l)).

Definition Qc_leb (l r : BigRational) : bool := match Qccompare l r with Gt => false | _ => true end.
Definition Qc_ltb (l r : BigRational) : bool := match Qccompare l r with Lt => true | _ => false end.
Definition Qc_eqb (l r : BigRational) : bool := is_Eq (Qccompare l r).

Definition to_boolean (m : exec (result Error bool)) : exec (result Error DValue) :=
  b ←? m; Ret (Ok (VBoolean b)).
Definition set_equal (l r : list DValue) : exec bool := value_eq (VSet l) (VSet r).

(** [==] and [!=]: [same] is applied to whether the operands are equal. *)
Definition compare_equal (same : bool → bool) (symbol : string) (lhs rhs : DValue) : exec (result Error DValue) :=
  to_boolean
    match lhs, rhs with
    | VString l, VString r => Ret (Ok (same (String.eqb (sv_text l) (sv_text r))))
    | VBoolean l, VBoolean r => Ret (Ok (same (Bool.eqb l r)))
    | _, _ =>
        calculate_rational_or_set_comparison lhs rhs symbol (λ l r, same (Qc_eqb l r))
          (λ l r, b ← set_equal l r; Ret (same b))
    end.
Definition equal : DValue → DValue → exec (result Error DValue) := compare_equal (λ b, b) "==".
Definition not_equal : DValue → DValue → exec (result Error DValue) := compare_equal negb "!=".

(** A proper subset. *)
Definition is_proper (sub : list DValue → list DValue → exec bool) (l r : list DValue) : exec bool :=
  b ← sub l r;
  if b : bool then e ← set_equal l r; Ret (negb e) else Ret false.
Definition less_or_equal (lhs rhs : DValue) : exec (result Error DValue) :=
  to_boolean (calculate_rational_or_set_comparison lhs rhs "<=" Qc_leb is_subset).
Definition greater_or_equal (lhs rhs : DValue) : exec (result Error DValue) :=
  to_boolean (calculate_rational_or_set_comparison lhs rhs ">=" (λ l r, Qc_leb r l) is_superset).
Definition less (lhs rhs : DValue) : exec (result Error DValue) :=
  to_boolean (calculate_rational_or_set_comparison lhs rhs "<" Qc_ltb (is_proper is_subset)).
Definition greater (lhs rhs : DValue) : exec (result Error DValue) :=
  to_boolean (calculate_rational_or_set_comparison lhs rhs ">" (λ l r, Qc_ltb r l) (is_proper is_superset)).

Definition logical (symbol : string) (f : bool → bool → bool) (lhs rhs : DValue) : result Error DValue :=
  match lhs, rhs with
  | VBoolean l, VBoolean r => Ok (VBoolean (f l r))
  | _, _ => Err (CantCalculate (value_ty lhs) symbol (value_ty rhs))
  end.
Definition logical_or : DValue → DValue → result Error DValue := logical "||" orb.
Definition logical_and : DValue → DValue → result Error DValue := logical "&&" andb.

(** *** Attributes of sets *)

Definition from_number (n : Z) : DValue := VRational (from_integer n).

Definition set_bound (attribute : string) (bound : list DValue → exec (option DValue)) (lhs : list DValue)
    : exec (result Error DValue) :=
  value ← bound lhs;
  match value with
  | Some value => Ret (Ok value)
  | None =>
      match set_ty lhs with
      | None => Ret (Err (SetIsEmpty "min"))
      | Some element_ty => Ret (Err (SetNotOrdered attribute element_ty))
      end
  end.
Definition evaluate_set_attr (lhs : list DValue) (rhs : string) : exec (result Error DValue) :=
  if String.eqb rhs "min" then set_bound "min" set_min_value lhs
  else if String.eqb rhs "max" then set_bound "max" set_max_value lhs
  else if String.eqb rhs "count" then Ret (Ok (from_number (Z.of_nat (length lhs))))
  else Ret (Err (SetHasNoAttribute rhs)).
Definition evaluate_bit_length_set_attr (lhs : BitLengthSet) (rhs : string) : exec (result Error DValue) :=
  if String.eqb rhs "min" then n ← min_value p lhs; Ret (Ok (from_number n))
  else if String.eqb rhs "max" then n ← max_value p lhs; Ret (Ok (from_number n))
  else if String.eqb rhs "count" then s ← bls_expand p usize_bits lhs; Ret (Ok (from_number (Z.of_nat (length s))))
  else Ret (Err (SetHasNoAttribute rhs)).

(** ** Constants *)

Definition in_range (z lower upper : BigInt) : bool := (lower <=? z) && (z <? upper).
Definition signed_int_bounds (bits : u8) : exec (BigInt * BigInt) :=
  n ← arith p 8 (bits - 1); Ret (- 2 ^ n, 2 ^ n).
Definition unsigned_int_bounds (bits : u8) : BigInt * BigInt := (0, 2 ^ bits).

(** A constant of an integer type. *)
Definition integer_constant (declared : PrimitiveType) (bounds : BigInt * BigInt) (value : BigRational)
    : result Error ConstantValue :=
  if is_integer value then
    if in_range (numer value) (fst bounds) (snd bounds) then Ok (CVInt (numer value))
    else Err (NotRepresentable value declared)
  else Err (NonIntegerConstant value).
(** A constant of a floating-point type. *)
Definition float_constant (declared : PrimitiveType) (value : BigRational) (convert : option Z) (is_finite : Z → bool)
    (make : Z → ConstantValue) : result Error ConstantValue :=
  match convert with
  | Some f => if is_finite f then Ok (make f) else Err (NotRepresentable value declared)
  | None => Err (NotRepresentable value declared)
  end.

Definition check_type_compatibility (declared : PrimitiveType) (value : DValue) : exec (result Error ConstantValue) :=
  match declared, value with
  | PBoolean, VBoolean value => Ret (Ok (CVBoolean value))
  | PUInt bits _, VString s =>
      if bits =? 8 then
        match implicit_int s with
        | Some n => Ret (Ok (CVInt n))
        | None => Ret (Err (StringNotAssignable (sv_text s) declared))
        end
      else Ret (Err (ConstantIncompatible declared value))
  | PInt bits, VRational value =>
      if is_integer value then bounds ← signed_int_bounds bits; Ret (integer_constant declared bounds value)
      else Ret (Err (NonIntegerConstant value))
  | PUInt bits _, VRational value => Ret (integer_constant declared (unsigned_int_bounds bits) value)
  | PFloat16 _, VRational value =>
      Ret (float_constant declared value (f16_from_f32 <$> to_f32 value) f16_is_finite CVFloat16)
  | PFloat32 _, VRational value => Ret (float_constant declared value (to_f32 value) f32_is_finite CVFloat32)
  | PFloat64 _, VRational value => Ret (float_constant declared value (to_f64 value) f64_is_finite CVFloat64)
  | declared, actual => Ret (Err (ConstantIncompatible declared actual))
  end.
End values.
