(* ===== verification/DsdlEval.v ===== *)
(** * Compiling packages of DSDL files

    Models the evaluation of expressions, types, constants and directives
    ([types/expression.rs], [types/directive.rs], [types.rs], [operators/attribute.rs]), the
    statements of a file and the files of a package ([compile.rs], [package.rs]), type keys
    ([type_key.rs]) and the rules for names ([types/keywords.rs]), of
    [canadensis_dsdl_frontend/src].

    A file can name types of other files, which are compiled when they are first needed.
    [Comp] is a computation with such lookups: [run] answers them from the state of the whole
    package, by a function that compiles files with [run] again. Its fuel is the number of
    files that are not compiled yet. *)

From Stdlib Require Import QArith Qcanon Ascii String.
From stdpp Require Import strings pretty.
From S2P Require Import Prelude Register BitLengths DsdlTypes DsdlSyntax DsdlBuild DsdlValues.

#[local] Open Scope Z_scope.

(** ** Computations with lookups *)

Inductive Comp (A : Type) :=
| CRet (a : A)
| CPanic
| CLookup (key : TypeKey) (k : result Error CompiledDsdl → Comp A).
Arguments CRet {A} a.
Arguments CPanic {A}.
Arguments CLookup {A} key k.

Fixpoint comp_bind {A B} (f : A → Comp B) (m : Comp A) : Comp B :=
  match m with
  | CRet a => f a
  | CPanic => CPanic
  | CLookup key k => CLookup key (λ r, comp_bind f (k r))
  end.

(** A step of the compilation of one file: [&mut CompileContext] gives it the state of the
    file and lookups. *)
Definition Eval (A : Type) : Type := FileState → Comp (FileState * result Error A).
#[global] Instance eval_ret : MRet Eval := λ A x fs, CRet (fs, Ok x).
#[global] Instance eval_bind : MBind Eval := λ A B f m fs,
  comp_bind (λ '(fs, r), match r with Ok x => f x fs | Err e => CRet (fs, Err e) end) (m fs).

Definition lift {A} (m : exec (result Error A)) : Eval A := λ fs,
  match m with Ret r => CRet (fs, r) | Panic => CPanic end.
Definition lift_result {A} (r : result Error A) : Eval A := lift (Ret r).
Definition eval_fail {A} (e : Error) : Eval A := lift_result (Err e).
(** A function of [DsdlBuild]. *)
Definition build (f : FileState → exec (FileState * result BuildError unit)) : Eval unit := λ fs,
  match f fs with Ret (fs, r) => CRet (fs, map_err BuildFailed r) | Panic => CPanic end.

(** ** Type keys *)

(** [to_lowercase] of a string of ASCII characters, which names are. *)
Definition ascii_lowercase (c : Ascii.ascii) : Ascii.ascii :=
  let n := Ascii.N_of_ascii c in
  if (65 <=? n)%N && (n <=? 90)%N then Ascii.ascii_of_N (n + 32) else c.
Fixpoint to_lowercase (s : string) : string :=
  match s with
  | EmptyString => EmptyString
  | String c s => String (ascii_lowercase c) (to_lowercase s)
  end.

Definition TypeFullName_to_lowercase (self : TypeFullName) : TypeFullName :=
  mkTypeFullName (to_lowercase <$> tfn_path self) (to_lowercase (tfn_name self)).
Definition TypeKey_new (name : TypeFullName) (version : TypeVersion) : TypeKey :=
  mkTypeKey name (TypeFullName_to_lowercase name) version.
Definition TypeKey_from_versioned (versioned_type : VersionedType) : TypeKey :=
  TypeKey_new (mkTypeFullName (vt_path versioned_type) (vt_name versioned_type)) (vt_version versioned_type).
(** [PartialEq] for type keys, and exact equality. *)
Definition key_eqb (a b : TypeKey) : bool :=
  bool_decide (tk_lowercase_name a = tk_lowercase_name b) && bool_decide (tk_version a = tk_version b).
Definition case_sensitive_equal (self other : TypeKey) : bool :=
  bool_decide (tk_name self = tk_name other) && bool_decide (tk_version self = tk_version other).
Definition TypeFullName_len (self : TypeFullName) : usize :=
  (sum_list_with (λ segment, String.length segment + 1) (tfn_path self) + String.length (tfn_name self))%nat.

Section eval.
Context `{Combinatorics} `{Conversions} (p : profile) (usize_bits : Z).

(** ** Types *)

(** [CompileContext::type_by_key]: a key without a path is of the package of the file. *)
Definition type_by_key (key : TypeKey) : Eval (TypeKey * CompiledDsdl) := λ fs,
  let key :=
    match tfn_path (tk_name key) with
    | [] => TypeKey_new (mkTypeFullName (fs_path fs) (tfn_name (tk_name key))) (tk_version key)
    | _ => key
    end in
  CLookup key (λ r, CRet (fs, match r with Ok dsdl => Ok (key, dsdl) | Err e => Err e end)).

(** The message of a type; services can't be referred to. *)
Definition message_by_key (key : TypeKey) : Eval (TypeKey * Message) :=
  '(key, dsdl) ← type_by_key key;
  match dsdl_kind dsdl with
  | KindMessage message => mret (key, message)
  | KindService _ _ => eval_fail ReferenceToService
  end.

Definition scalar_resolve (self : ScalarType) : Eval ResolvedScalarType :=
  match self with
  | SVersioned key => '(key, message) ← message_by_key key; mret (RComposite key message)
  | SPrimitive primitive => mret (RPrimitive primitive)
  | SVoid bits => mret (RVoid bits)
  end.
Definition type_resolve (self : DType) : Eval ResolvedType :=
  match self with
  | TScalar scalar => scalar ← scalar_resolve scalar; mret (RScalar scalar)
  | TFixedArray inner len => inner ← scalar_resolve inner; mret (RFixedArray inner len)
  | TVariableArray inner max_len => inner ← scalar_resolve inner; mret (RVariableArray inner max_len)
  end.

Definition scalar_bit_length_set (self : ScalarType) : Eval BitLengthSet :=
  match self with
  | SVersioned key => '(_, message) ← message_by_key key; mret (msg_bit_length message)
  | SPrimitive primitive => mret (bls_single (primitive_bit_length primitive))
  | SVoid bits => mret (bls_single bits)
  end.
Definition type_bit_length_set (self : DType) : Eval BitLengthSet :=
  match self with
  | TScalar scalar => scalar_bit_length_set scalar
  | TFixedArray inner len => element_length ← scalar_bit_length_set inner; mret (repeat element_length len)
  | TVariableArray inner max_len =>
      element_length ← scalar_bit_length_set inner; mret (repeat_range element_length max_len)
  end.

Definition ScalarType_from (ty : AstScalarType) : ScalarType :=
  match ty with
  | AstVersioned versioned => SVersioned (TypeKey_from_versioned versioned)
  | AstPrimitive primitive => SPrimitive primitive
  | AstVoid bits => SVoid bits
  end.

(** ** Expressions *)

Fixpoint find_constant (name : string) (constants : Constants) : option Constant :=
  match constants with
  | [] => None
  | (n, c) :: constants => if bool_decide (n = name) then Some c else find_constant name constants
  end.

Definition evaluate_type_attr (ty : DType) (rhs : string) : Eval DValue :=
  if String.eqb rhs "_bit_length_" then
    bit_length ← type_bit_length_set ty; mret (VBitLengthSet bit_length)
  else
    match ty with
    | TScalar (SVersioned key) =>
        '(key, dsdl) ← type_by_key key;
        match dsdl_kind dsdl with
        | KindMessage message =>
            match find_constant rhs (msg_constants message) with
            | Some constant => mret (constant_dsdl_value constant)
            | None => eval_fail (TypeHasNoAttribute (TScalar (SVersioned key)) rhs)
            end
        | KindService _ _ => eval_fail (ServiceHasNoAttributes key)
        end
    | ty => eval_fail (TypeHasNoAttribute ty rhs)
    end.

Definition evaluate_attribute (lhs : DValue) (rhs : string) : Eval DValue :=
  match lhs with
  | VSet lhs => lift (evaluate_set_attr p usize_bits lhs rhs)
  | VBitLengthSet lhs => lift (evaluate_bit_length_set_attr p usize_bits lhs rhs)
  | VType ty => evaluate_type_attr ty rhs
  | VRational _ | VString _ | VBoolean _ => eval_fail (HasNoAttribute (value_ty lhs) rhs)
  end.

(** [_offset_] and constants. *)
Definition evaluate_identifier (identifier : string) : Eval DValue := λ fs,
  if String.eqb identifier "_offset_" then
    match bit_length_set fs with
    | Ret (fs, bit_length) => CRet (fs, Ok (VBitLengthSet bit_length))
    | Panic => CPanic
    end
  else
    match find_constant identifier (fs_constants fs) with
    | Some constant => CRet (fs, Ok (constant_dsdl_value constant))
    | None => CRet (fs, Err (IdentifierNotFound identifier))
    end.

(** The length that a value is. *)
Definition array_length (value : DValue) : result Error u64 :=
  match value with
  | VRational rational =>
      if is_integer rational then
        let length := numer rational in
        if length <? 0 then Err (NegativeArrayLength length)
        else if is_ub 64 length then Ok length else Err (ArrayLengthTooLarge length)
      else Err (ArrayLengthNotInteger rational)
  | other => Err (ArrayLengthNotRational (value_ty other))
  end.

Definition insert_value (set : list DValue) (value : DValue) : Eval (list DValue) :=
  lift (r ← set_value_insert p usize_bits set value; Ret (map_err InvalidTypeInSet r)).

(** Both operands, and the operator. *)
Definition evaluate_binary (lhs rhs : Eval DValue) (op : DValue → DValue → exec (result Error DValue)) : Eval DValue :=
  lhs ← lhs; rhs ← rhs; lift (op lhs rhs).
Definition pure_op (op : DValue → DValue → result Error DValue) : DValue → DValue → exec (result Error DValue) :=
  λ lhs rhs, Ret (op lhs rhs).

(** The elements of a set literal. *)
Definition set_loop (evaluate : Expression → Eval DValue) : list Expression → list DValue → Eval (list DValue) :=
  fix set_loop l set :=
    match l with
    | [] => mret set
    | e :: l => value ← evaluate e; set ← insert_value set value; set_loop l set
    end.

(** *** Types and atoms

    The functions that [evaluate_expression] calls with parts of its expression, and that call
    it again: [evaluate] is [evaluate_expression]. *)
Definition evaluate_array_length (evaluate : Expression → Eval DValue) (length : Expression) : Eval u64 :=
  value ← evaluate length; lift_result (array_length value).
Definition convert_array (evaluate : Expression → Eval DValue) (element : ScalarType) (length : ArrayLength) : Eval DType :=
  match length with
  | Fixed length => length ← evaluate_array_length evaluate length; mret (TFixedArray element length)
  | Inclusive length => length ← evaluate_array_length evaluate length; mret (TVariableArray element length)
  | Exclusive length =>
      length ← evaluate_array_length evaluate length;
      if 0 <? length then mret (TVariableArray element (length - 1)) else eval_fail ArrayLengthNotPositive
  end.
Definition convert_type (evaluate : Expression → Eval DValue) (ty : AstType) : Eval DType :=
  match ty with
  | AstScalar scalar => mret (TScalar (ScalarType_from scalar))
  | AstArray element length => convert_array evaluate (ScalarType_from element) length
  end.

Definition evaluate_literal (evaluate : Expression → Eval DValue) (literal : LiteralType) : Eval DValue :=
  match literal with
  | LiteralSet expressions => set ← set_loop evaluate expressions []; mret (VSet set)
  | LiteralNumber value => mret (VRational value)
  | LiteralString value => mret (VString (StringValue_from value))
  | LiteralBoolean value => mret (VBoolean value)
  end.
Definition evaluate_atom (evaluate : Expression → Eval DValue) (atom : ExpressionAtom) : Eval DValue :=
  match atom with
  | Parenthesized inner => evaluate inner
  | AtomType ty => ty ← convert_type evaluate ty; mret (VType ty)
  | AtomLiteral literal => evaluate_literal evaluate literal
  | AtomIdentifier identifier => evaluate_identifier identifier
  end.

Fixpoint evaluate_expression (expression : Expression) : Eval DValue :=
  match expression with
  | Atom atom => evaluate_atom evaluate_expression atom
  | UnaryPlus inner => inner ← evaluate_expression inner; lift_result (unary_plus inner)
  | UnaryMinus inner => inner ← evaluate_expression inner; lift_result (unary_minus inner)
  | UnaryNot inner => inner ← evaluate_expression inner; lift_result (unary_not inner)
  | Attribute lhs rhs => lhs ← evaluate_expression lhs; evaluate_attribute lhs rhs
  | Exponent l r => evaluate_binary (evaluate_expression l) (evaluate_expression r) (exponent p usize_bits)
  | Multiply l r => evaluate_binary (evaluate_expression l) (evaluate_expression r) (multiply p usize_bits)
  | Divide l r => evaluate_binary (evaluate_expression l) (evaluate_expression r) (divide p usize_bits)
  | Modulo l r => evaluate_binary (evaluate_expression l) (evaluate_expression r) (remainder p usize_bits)
  | Add l r => evaluate_binary (evaluate_expression l) (evaluate_expression r) (add p usize_bits)
  | Subtract l r => evaluate_binary (evaluate_expression l) (evaluate_expression r) (subtract p usize_bits)
  | BitOr l r => evaluate_binary (evaluate_expression l) (evaluate_expression r) (bit_or p usize_bits)
  | BitXor l r => evaluate_binary (evaluate_expression l) (evaluate_expression r) (bit_xor p usize_bits)
  | BitAnd l r => evaluate_binary (evaluate_expression l) (evaluate_expression r) (bit_and p usize_bits)
  | Equal l r => evaluate_binary (evaluate_expression l) (evaluate_expression r) (equal p usize_bits)
  | NotEqual l r => evaluate_binary (evaluate_expression l) (evaluate_expression r) (not_equal p usize_bits)
  | LessOrEqual l r => evaluate_binary (evaluate_expression l) (evaluate_expression r) (less_or_equal p usize_bits)
  | GreaterOrEqual l r => evaluate_binary (evaluate_expression l) (evaluate_expression r) (greater_or_equal p usize_bits)
  | Less l r => evaluate_binary (evaluate_expression l) (evaluate_expression r) (less p usize_bits)
  | Greater l r => evaluate_binary (evaluate_expression l) (evaluate_expression r) (greater p usize_bits)
  | LogicalOr l r => evaluate_binary (evaluate_expression l) (evaluate_expression r) (pure_op logical_or)
  | LogicalAnd l r => evaluate_binary (evaluate_expression l) (evaluate_expression r) (pure_op logical_and)
  end.

(** ** Names *)

Definition is_digit (c : Ascii.ascii) : bool := let n := Ascii.N_of_ascii c in (48 <=? n)%N && (n <=? 57)%N.
Definition is_letter (c : Ascii.ascii) : bool :=
  let n := Ascii.N_of_ascii (ascii_lowercase c) in ((97 <=? n) && (n <=? 122) || (n =? 95))%N.
(** [\d*] and [\d+] to the end. *)
Definition all_digits (s : string) : bool := forallb is_digit (String.list_ascii_of_string s).
Definition some_digits (s : string) : bool := negb (String.eqb s "") && all_digits s.
Definition one_digit (s : string) : bool := (String.length s =? 1)%nat && all_digits s.

(** The rest of a string after a prefix. *)
Fixpoint after_prefix (prefix s : string) : option string :=
  match prefix, s with
  | EmptyString, s => Some s
  | String a prefix, String b s => if Ascii.eqb a b then after_prefix prefix s else None
  | _, EmptyString => None
  end.
Definition matches (prefix : string) (f : string → bool) (s : string) : bool :=
  match after_prefix prefix s with Some s => f s | None => false end.
(** [\d+_\d+]. *)
Fixpoint fixed_point_digits (seen : bool) (s : string) : bool :=
  match s with
  | EmptyString => false
  | String c s => if is_digit c then fixed_point_digits true s else seen && Ascii.eqb c "_"%char && some_digits s
  end.
(** [_.*_]. *)
Definition between_underscores (s : string) : bool :=
  (2 <=? String.length s)%nat && String.eqb (String.substring 0 1 s) "_" &&
  String.eqb (String.substring (String.length s - 1) 1 s) "_".

(** The regular expression [RESERVED], for a string of ASCII characters without line ends. *)
Definition is_reserved_keyword (identifier : string) : bool :=
  let s := to_lowercase identifier in
  existsb (String.eqb s)
    ["truncated"; "saturated"; "true"; "false"; "bool"; "optional"; "aligned"; "const"; "struct"; "super"; "template";
     "enum"; "self"; "and"; "or"; "not"; "auto"; "type"; "con"; "prn"; "aux"; "nul"]%string ||
  matches "int" all_digits s || matches "uint" all_digits s || matches "float" all_digits s ||
  matches "q" (fixed_point_digits false) s || matches "uq" (fixed_point_digits false) s ||
  matches "void" all_digits s || matches "com" one_digit s || matches "lpt" one_digit s || between_underscores s.

(** The regular expression [IDENTIFIER]. *)
Definition is_valid_identifier (identifier : string) : bool :=
  match identifier with
  | EmptyString => false
  | String c s => is_letter c && forallb (λ c, is_letter c || is_digit c) (String.list_ascii_of_string s)
  end.

(** ** Statements *)

Definition Constant_evaluate (ty : PrimitiveType) (name : string) (value : Expression) : Eval Constant :=
  if is_reserved_keyword name then eval_fail (ReservedKeyword name) else
  dsdl_value ← evaluate_expression value;
  value ← lift (check_type_compatibility p ty dsdl_value);
  mret (mkConstant ty dsdl_value value).

(** The value of an extent. *)
Definition extent_value (value : DValue) : result Error u64 :=
  match value with
  | VRational value =>
      if is_integer value && negb (numer value <? 0) then
        if is_ub 64 (numer value) then
          if numer value mod 8 =? 0 then Ok (numer value) else Err (ExtentNotMultiple (numer value))
        else Err (ExtentTooLarge (numer value))
      else Err (ExtentNotNatural value)
  | other => Err (ExtentNotRational (value_ty other))
  end.

(** A directive without an expression. *)
Definition plain_directive (name : string) (expression : option Expression) (f : Eval unit) : Eval unit :=
  match expression with None => f | Some _ => eval_fail (UnexpectedExpression name) end.

Definition evaluate_directive (name : string) (expression : option Expression) : Eval unit :=
  if String.eqb name "union" then plain_directive name expression (build handle_union)
  else if String.eqb name "extent" then
    match expression with
    | Some expression =>
        value ← evaluate_expression expression;
        extent ← lift_result (extent_value value);
        build (λ fs, handle_extent fs extent)
    | None => eval_fail (MissingExpression name)
    end
  else if String.eqb name "sealed" then plain_directive name expression (build handle_sealed)
  else if String.eqb name "deprecated" then plain_directive name expression (build handle_deprecated)
  else if String.eqb name "assert" then
    match expression with
    | Some expr =>
        value ← evaluate_expression expr;
        match value with
        | VBoolean true => mret tt
        | VBoolean false => eval_fail AssertionFailed
        | other => eval_fail (AssertNotBoolean other)
        end
    | None => eval_fail (MissingExpression name)
    end
  else if String.eqb name "print" then
    match expression with
    | Some expr => _ ← evaluate_expression expr; mret tt
    | None => mret tt
    end
  else eval_fail (UnrecognizedDirective name).

Definition get_constants : Eval Constants := λ fs, CRet (fs, Ok (fs_constants fs)).
Definition put_constants (constants : Constants) : Eval unit := λ fs, CRet (set_constants fs constants, Ok tt).

Definition evaluate_statement (statement : Statement) : Eval unit :=
  match statement with
  | Directive name value => evaluate_directive name value
  | ConstantDecl ty name value =>
      constants ← get_constants;
      if has_constant name constants then eval_fail (BuildFailed (DuplicateConstant name)) else
      constant ← Constant_evaluate ty name value;
      constants ← get_constants;
      put_constants (insert_constant name constant constants)
  | FieldDecl ty name =>
      ty ← convert_type evaluate_expression ty;
      ty ← type_resolve ty;
      build (λ fs, field_statement p usize_bits fs ty name)
  | PaddingDecl bits => build (λ fs, add_padding_field p usize_bits fs bits)
  | ResponseMarker => build handle_service_response_marker
  end.

Fixpoint evaluate_statements (statements : list Statement) : Eval unit :=
  match statements with
  | [] => mret tt
  | statement :: statements => _ ← evaluate_statement statement; evaluate_statements statements
  end.

(** ** Files *)

Inductive FileSource := SourceFile (path : Path) | SourceString (content : list char).
Record DsdlFile := mkDsdlFile { source : FileSource; df_fixed_port_id : option u32 }.

(** [std::fs::read_to_string]. *)
Context (read_to_string : Path → option (list char)) `{ParserCrates}.

Definition read (self : DsdlFile) : result Error (list char) :=
  match source self with
  | SourceFile path => match read_to_string path with Some content => Ok content | None => Err (FileReadFailed path) end
  | SourceString content => Ok content
  end.

(** The end of [compile_one_inner]. *)
Definition finish_file (port_id : option u32) : Eval CompiledDsdl := λ fs,
  match finish fs port_id with Ret r => CRet (fs, map_err BuildFailed r) | Panic => CPanic end.

Definition compile_one_inner (key : TypeKey) (input : DsdlFile) : Comp (result Error CompiledDsdl) :=
  let compile : Eval CompiledDsdl :=
    content ← lift_result (read input);
    ast ← lift (r ← parse p content; Ret (map_err ParseFailed r));
    _ ← evaluate_statements ast;
    finish_file (df_fixed_port_id input) in
  comp_bind (λ '(_, r), CRet r) (compile (FileState_new (tfn_path (tk_name key)))).

(** ** Packages *)

(** [BTreeMap<TypeKey, V>] is the list of its entries in ascending order of their keys. *)
Fixpoint map_get {V} (key : TypeKey) (m : list (TypeKey * V)) : option (TypeKey * V) :=
  match m with
  | [] => None
  | (k, v) :: m => if key_eqb k key then Some (k, v) else map_get key m
  end.
Fixpoint map_remove {V} (key : TypeKey) (m : list (TypeKey * V)) : option (V * list (TypeKey * V)) :=
  match m with
  | [] => None
  | (k, v) :: m =>
      if key_eqb k key then Some (v, m)
      else '(found, rest) ← map_remove key m; Some (found, (k, v) :: rest)
  end.
(** [insert] of a key that the map does not have. *)
Fixpoint map_insert {V} (key : TypeKey) (v : V) (m : list (TypeKey * V)) : list (TypeKey * V) :=
  match m with
  | [] => [(key, v)]
  | (k, w) :: m' => match TypeKey_cmp key k with Lt => (key, v) :: m | _ => (k, w) :: map_insert key v m' end
  end.

Record PersistentContext := mkPersistentContext {
  pending : list (TypeKey * DsdlFile);
  done : list (TypeKey * CompiledDsdl);
}.

Definition get_case_sensitive (m : list (TypeKey * CompiledDsdl)) (key : TypeKey) : option CompiledDsdl :=
  '(stored_key, value) ← map_get key m;
  if case_sensitive_equal stored_key key then Some value else None.

(** Answers the lookups of a computation. *)
Fixpoint run {S A} (lookup : S → TypeKey → exec (S * result Error CompiledDsdl)) (c : Comp A) (self : S) : exec (S * A) :=
  match c with
  | CRet a => Ret (self, a)
  | CPanic => Panic
  | CLookup key k => '(self, r) ← lookup self key; run lookup (k r) self
  end.

Definition compile_one {S} (lookup : S → TypeKey → exec (S * result Error CompiledDsdl)) (self : S)
    (key : TypeKey) (input : DsdlFile) : exec (S * result Error CompiledDsdl) :=
  '(self, r) ← run lookup (compile_one_inner key input) self;
  Ret (self, map_err (CompileFile key) r).

(** [PersistentContext::type_by_key]. *)
Fixpoint lookup_type (fuel : nat) (self : PersistentContext) (key : TypeKey)
    : exec (PersistentContext * result Error CompiledDsdl) :=
  match get_case_sensitive (done self) key with
  | Some dsdl => Ret (self, Ok dsdl)
  | None =>
      match map_remove key (pending self) with
      | Some (input, rest) =>
          match fuel with
          | O => Panic
          | S fuel =>
              '(self, r) ← compile_one (lookup_type fuel) (mkPersistentContext rest (done self)) key input;
              match r with
              | Ok compiled =>
                  match map_get key (done self) with
                  | None => Ret (mkPersistentContext (pending self) (map_insert key compiled (done self)), Ok compiled)
                  | Some _ => Panic
                  end
              | Err e => Ret (self, Err e)
              end
          end
      | None => Ret (self, Err (UnknownType key))
      end
  end.

(** The loop of [PersistentContext::compile]. *)
Fixpoint compile_loop (fuel : nat) (self : PersistentContext) : exec (result Error (list (TypeKey * CompiledDsdl))) :=
  match pending self with
  | [] => Ret (Ok (done self))
  | (key, input) :: rest =>
      match fuel with
      | O => Panic
      | S fuel =>
          '(self, r) ← compile_one (lookup_type fuel) (mkPersistentContext rest (done self)) key input;
          match r with
          | Ok output =>
              match map_get key (done self) with
              | None => compile_loop fuel (mkPersistentContext (pending self) (map_insert key output (done self)))
              | Some _ => Panic
              end
          | Err e => Ret (Err e)
          end
      end
  end.

Definition compile_package (fuel : nat) (files : list (TypeKey * DsdlFile))
    : exec (result Error (list (TypeKey * CompiledDsdl))) :=
  compile_loop fuel (mkPersistentContext files []).

(** [Package::compile]. *)
Definition compile (files : list (TypeKey * DsdlFile)) : exec (result Error (list (TypeKey * CompiledDsdl))) :=
  compile_package (length files) files.
End eval.

(** *** Adding files *)

Definition TYPE_NAME_LENGTH_MAX : usize := 255.

Fixpoint check_segments (key : TypeKey) (segments : list string) : result Error unit :=
  match segments with
  | [] => Ok tt
  | segment :: segments =>
      if negb (is_valid_identifier segment) then Err (NameInvalidIdentifier segment key)
      else if is_reserved_keyword segment then Err (NameKeyword segment key)
      else check_segments key segments
  end.

Definition validate_full_key (key : TypeKey) : result Error unit :=
  match tfn_path (tk_name key) with
  | [] => Err (TypeNotInNamespace key)
  | path =>
      if (TYPE_NAME_LENGTH_MAX <? TypeFullName_len (tk_name key))%nat then Err (TypeNameLength key) else
      _ ← check_segments key (path ++ [tfn_name (tk_name key)]);
      if (major (tk_version key) =? 0) && (minor (tk_version key) =? 0) then Err (VersionZero key) else Ok tt
  end.

Definition try_insert (files : list (TypeKey * DsdlFile)) (key : TypeKey) (dsdl : DsdlFile)
    : result Error (list (TypeKey * DsdlFile)) :=
  _ ← validate_full_key key;
  match map_get key files with
  | Some (old, _) => Err (DuplicateKey old key)
  | None => Ok (map_insert key dsdl files)
  end.

(** [Package::add_file] and [Package::add_string]. *)
Definition add_file (files : list (TypeKey * DsdlFile)) (fixed_port_id : option u32) (key : TypeKey) (path : Path)
    : result Error (list (TypeKey * DsdlFile)) :=
  try_insert files key (mkDsdlFile (SourceFile path) fixed_port_id).
Definition add_string (files : list (TypeKey * DsdlFile)) (fixed_port_id : option u32) (key : TypeKey) (dsdl : list char)
    : result Error (list (TypeKey * DsdlFile)) :=
  try_insert files key (mkDsdlFile (SourceString dsdl) fixed_port_id).

(** *** Names of files *)

(** [str::split] at dots. *)
Fixpoint split_dots (s : string) : list string :=
  match s with
  | EmptyString => [EmptyString]
  | String c s =>
      if Ascii.eqb c "."%char then EmptyString :: split_dots s
      else match split_dots s with part :: parts => String c part :: parts | [] => [String c EmptyString] end
  end.

(** [\d+] and [parse]. *)
Definition parse_digits (bits : Z) (s : string) : option Z :=
  if some_digits s then from_str_radix bits 10 (chars s) else None.

Record FileInfo := mkFileInfo { fi_port_id : option u32; fi_name : string; fi_version : TypeVersion }.

Definition parse_file_name (name : string) : option FileInfo :=
  let parse port_id short_name version_major version_minor extension :=
    if negb (String.eqb short_name "") && String.eqb extension "uavcan" then
      port_id ← match port_id with Some s => id ← parse_digits 32 s; Some (Some id) | None => Some None end;
      major ← parse_digits 8 version_major;
      minor ← parse_digits 8 version_minor;
      Some (mkFileInfo port_id short_name (mkTypeVersion major minor))
    else None in
  match split_dots name with
  | [short_name; version_major; version_minor; extension] => parse None short_name version_major version_minor extension
  | [port_id; short_name; version_major; version_minor; extension] =>
      parse (Some port_id) short_name version_major version_minor extension
  | _ => None
  end.

(** [Path::extension]: what follows the last dot of the name of a file, unless that is its
    first character. *)
Definition extension (path : Path) : option string :=
  name ← last path;
  match split_dots name with
  | [_] | ["" ; _] => None
  | parts => last parts
  end%string.

(** A file or directory that the crate walkdir finds. *)
Record DirEntry := mkDirEntry { de_is_file : bool; de_path : Path }.

Definition is_dsdl (entry : DirEntry) : bool :=
  if de_is_file entry then
    match extension (de_path entry) with Some extension => String.eqb extension "uavcan" | None => false end
  else false.

(** The loop over the components of the root. *)
Fixpoint consume_root (root file_components : Path) : exec Path :=
  match root, file_components with
  | [], _ | _, [] => Ret file_components
  | root_component :: root, file_component :: file_components =>
      assert_ (String.eqb root_component file_component);; consume_root root file_components
  end.

Definition to_str (component : string) : option string := if utf8_valid (chars component) then Some component else None.

Definition info_from_path (root file_path : Path) : exec (result Error (TypeKey * option u32)) :=
  file_components ← consume_root root file_path;
  match mapM to_str file_components with
  | None => Ret (Err (PathNotUtf8 file_path))
  | Some path_components =>
      file_name ← unwrap (last path_components);
      match parse_file_name file_name with
      | None => Ret (Err (InvalidFileName file_path))
      | Some name_info =>
          let full_name := mkTypeFullName (removelast path_components) (fi_name name_info) in
          Ret (Ok (TypeKey_new full_name (fi_version name_info), fi_port_id name_info))
      end
  end.

Definition add_file_from_path (files : list (TypeKey * DsdlFile)) (root file : Path)
    : exec (result Error (list (TypeKey * DsdlFile))) :=
  info ←? info_from_path root file;
  Ret (try_insert files (fst info) (mkDsdlFile (SourceFile file) (snd info))).

(** [Package::add_files], with the entries that walkdir gives; [None] is an error. *)
Fixpoint add_files (files : list (TypeKey * DsdlFile)) (root : Path) (entries : list (option DirEntry))
    : exec (list (TypeKey * DsdlFile) * result Error unit) :=
  match entries with
  | [] => Ret (files, Ok tt)
  | None :: _ => Ret (files, Err (WalkDirFailed root))
  | Some entry :: entries =>
      if is_dsdl entry then
        r ← add_file_from_path files root (de_path entry);
        match r with
        | Ok files => add_files files root entries
        | Err e => Ret (files, Err e)
        end
      else add_files files root entries
  end.

(** *** Text of type keys *)

(** [Display] of an unsigned integer. *)
Definition show_number (n : Z) : string := pretty (Z.to_N n).
Definition show_version (self : TypeVersion) : string := show_number (major self) +:+ "." +:+ show_number (minor self).
Definition show_full_name (self : TypeFullName) : string :=
  foldr (λ component s, component +:+ "." +:+ s) (tfn_name self) (tfn_path self).
Definition show_key (self : TypeKey) : string := show_full_name (tk_name self) +:+ "." +:+ show_version (tk_version self).

(** [FromStr] of type names and type keys; the error is [ParseError]. *)
Definition TypeFullName_from_components (components : list string) : option TypeFullName :=
  if (2 <=? length components)%nat then
    name ← last components; Some (mkTypeFullName (removelast components) name)
  else None.
Definition TypeKey_from_str (s : string) : option TypeKey :=
  let components := split_dots s in
  let count := length components in
  if (3 <=? count)%nat then
    let path_and_name := take (count - 2) components in
    if forallb (λ part, negb (String.eqb part "")) path_and_name then
      version_major ← components !! (count - 2)%nat;
      version_minor ← components !! (count - 1)%nat;
      if some_digits version_major && some_digits version_minor then
        name ← TypeFullName_from_components path_and_name;
        major ← parse_digits 8 version_major;
        minor ← parse_digits 8 version_minor;
        Some (TypeKey_new name (mkTypeVersion major minor))
      else None
    else None
  else None.
