(* ===== verification/DsdlEvalSpec.v ===== *)
(** * Compiling a package

    The files of a package are compiled on demand, each one once, and a file that is being
    compiled is neither pending nor done. [reference_type] has no state: it compiles a type and
    all that it depends on anew. A package compiles to what the reference has for its types. *)

From stdpp Require Import strings.
From S2P Require Import Prelude BitLengths DsdlTypes DsdlSyntax DsdlBuild DsdlValues DsdlEval.

#[local] Open Scope nat_scope.

(** ** Keys and maps *)

(** What keys are compared by. *)
Definition norm (key : TypeKey) : TypeFullName * TypeVersion := (tk_lowercase_name key, tk_version key).

Lemma key_eqb_norm a b : key_eqb a b = true ↔ norm a = norm b.
Proof.
  unfold key_eqb, norm. rewrite andb_true_iff, !bool_decide_eq_true. split; [by intros [-> ->]|by intros [= -> ->]].
Qed.

Section maps.
Context {V : Type}.
Implicit Types m : list (TypeKey * V).

Definition norms m : list (TypeFullName * TypeVersion) := norm <$> m.*1.

Lemma norms_elem m x : x ∈ norms m ↔ ∃ k v, (k, v) ∈ m ∧ norm k = x.
Proof.
  unfold norms. rewrite list_elem_of_fmap. setoid_rewrite list_elem_of_fmap. split.
  - intros (k & -> & [k' v] & -> & Hin). eauto.
  - intros (k & v & Hin & <-). exists k. split; [done|]. by exists (k, v).
Qed.

Lemma map_get_none key m : map_get key m = None ↔ norm key ∉ norms m.
Proof.
  induction m as [|[k v] m IH]; cbn [map_get]; [cbn; set_solver|]. change (norms ((k, v) :: m)) with (norm k :: norms m).
  rewrite not_elem_of_cons. destruct (key_eqb k key) eqn:E.
  - apply key_eqb_norm in E. split; [done|]. intros [Hne _]. by destruct Hne.
  - rewrite IH. split; [|by intros [_ ?]]. intros Hm. split; [|done]. intros Heq. symmetry in Heq. apply key_eqb_norm in Heq. congruence.
Qed.

Lemma map_get_some key m k v : NoDup (norms m) → map_get key m = Some (k, v) ↔ (k, v) ∈ m ∧ norm k = norm key.
Proof.
  induction m as [|[k' v'] m IH]; cbn [map_get]; [set_solver|]. change (norms ((k', v') :: m)) with (norm k' :: norms m).
  intros [Hni Hnd]%NoDup_cons. rewrite elem_of_cons. destruct (key_eqb k' key) eqn:E.
  - apply key_eqb_norm in E. split; [intros [= -> ->]; auto|]. intros [[[= -> ->]|Hin] Hk]; [done|].
    destruct Hni. apply norms_elem. exists k, v. split; [done|congruence].
  - rewrite (IH Hnd). split; [intros [? ?]; auto|]. intros [[[= -> ->]|Hin] Hk]; [|done]. apply key_eqb_norm in Hk. congruence.
Qed.

Lemma map_remove_none key m : map_remove key m = None ↔ norm key ∉ norms m.
Proof.
  induction m as [|[k v] m IH]; cbn [map_remove]; [cbn; set_solver|]. change (norms ((k, v) :: m)) with (norm k :: norms m).
  rewrite not_elem_of_cons. destruct (key_eqb k key) eqn:E.
  - apply key_eqb_norm in E. split; [done|]. intros [Hne _]. by destruct Hne.
  - assert (norm key ≠ norm k) by (intros Heq; symmetry in Heq; apply key_eqb_norm in Heq; congruence).
    destruct (map_remove key m) as [[]|]; cbn; [split; [done|intros [_ Hn]; by apply IH in Hn]|]. split; [|done]. intros _. split; [done|by apply IH].
Qed.

Lemma map_remove_some key m v rest : map_remove key m = Some (v, rest) →
  ∃ k, norm k = norm key ∧ m ≡ₚ (k, v) :: rest.
Proof.
  revert rest. induction m as [|[k w] m IH]; cbn [map_remove]; [done|]. intros rest. destruct (key_eqb k key) eqn:E.
  - intros [= -> ->]. exists k. split; [by apply key_eqb_norm|done].
  - destruct (map_remove key m) as [[found rest']|]; cbn; [|done]. intros [= -> <-].
    destruct (IH rest' eq_refl) as (k' & Hk & Hp). exists k'. split; [done|]. rewrite Hp. apply perm_swap.
Qed.

Lemma map_insert_perm key v m : map_insert key v m ≡ₚ (key, v) :: m.
Proof.
  induction m as [|[k w] m IH]; cbn [map_insert]; [done|]. destruct (TypeKey_cmp key k); try done; rewrite IH; apply perm_swap.
Qed.

Lemma norms_perm m m' : m ≡ₚ m' → norms m ≡ₚ norms m'.
Proof. intros Hp. unfold norms. by rewrite Hp. Qed.
End maps.

(** ** Computations that ask for types *)

Section run.
Context {S A : Type} (I : S → Prop).
Implicit Types (lookup : S → TypeKey → exec (S * result Error CompiledDsdl)) (c : Comp A).

(** An invariant of the lookups. *)
Definition keeps lookup : Prop := ∀ s key s' r, I s → lookup s key = Ret (s', r) → I s'.

Lemma run_keeps lookup c : keeps lookup → ∀ s s' a, I s → run lookup c s = Ret (s', a) → I s'.
Proof.
  intros Hk. induction c as [a| |key k IH]; intros s s' a' Hs; cbn [run]; [by intros [= <- _]|done|].
  destruct (lookup s key) as [[s1 r]|] eqn:E; [|done]. cbn [mbind exec_bind]. apply IH. by apply (Hk s key s1 r).
Qed.

Lemma run_ext lookup1 lookup2 c : keeps lookup1 → (∀ s key, I s → lookup1 s key = lookup2 s key) → ∀ s, I s →
  run lookup1 c s = run lookup2 c s.
Proof.
  intros Hk Heq. induction c as [a| |key k IH]; intros s Hs; cbn [run]; [done..|]. rewrite <- (Heq s key Hs).
  destruct (lookup1 s key) as [[s1 r]|] eqn:E; [|done]. cbn [mbind exec_bind]. apply IH. by apply (Hk s key s1 r).
Qed.
End run.

(** ** The state of a package *)

Definition all_norms (s : PersistentContext) : list (TypeFullName * TypeVersion) := norms (pending s) ++ norms (done s).

(** What compiling does to the state: pending files are taken, compiled files are added, and
    no key appears that was not there. *)
Record evolves (s s' : PersistentContext) : Prop := {
  ev_pending : pending s' ⊆+ pending s;
  ev_done : done s ⊆ done s';
  ev_norms : all_norms s' ⊆+ all_norms s;
}.

#[global] Instance evolves_preorder : PreOrder evolves.
Proof.
  split; [by intros s; split|]. intros s1 s2 s3 [Hp Hd Hn] [Hp' Hd' Hn'].
  split; [by trans (pending s2)|by trans (done s2)|by trans (all_norms s2)].
Qed.

(** No key was lost. *)
Definition lost_nothing (s s' : PersistentContext) : Prop := all_norms s ⊆ all_norms s'.
#[global] Instance lost_nothing_preorder : PreOrder lost_nothing.
Proof. split; [by intros s x|]. intros s1 s2 s3 H12 H23 x Hx. by apply H23, H12. Qed.

Definition distinct (s : PersistentContext) : Prop := NoDup (all_norms s).

Lemma evolves_distinct s s' : evolves s s' → distinct s → distinct s'.
Proof. intros [_ _ Hn] Hd. apply submseteq_Permutation in Hn as [l Hl]. unfold distinct in Hd. rewrite Hl in Hd. by apply NoDup_app in Hd as [Hd _]. Qed.
Lemma evolves_length s s' : evolves s s' → length (pending s') ≤ length (pending s).
Proof. intros [Hp _ _]. by apply submseteq_length. Qed.

(** A file is taken, and what it compiles to is added. *)
Definition taken (s : PersistentContext) (key : TypeKey) (input : DsdlFile) (rest : list (TypeKey * DsdlFile)) : Prop :=
  ∃ k, norm k = norm key ∧ pending s ≡ₚ (k, input) :: rest.
Definition added (s : PersistentContext) (key : TypeKey) (dsdl : CompiledDsdl) : PersistentContext :=
  mkPersistentContext (pending s) (map_insert key dsdl (done s)).

Section taken.
Context (s : PersistentContext) (key : TypeKey) (input : DsdlFile) (rest : list (TypeKey * DsdlFile)).
Hypothesis Htaken : taken s key input rest.
Abbreviation s1 := (mkPersistentContext rest (done s)).

Lemma taken_norms : all_norms s ≡ₚ norm key :: all_norms s1.
Proof. destruct Htaken as (k & Hk & Hp). unfold all_norms. rewrite (norms_perm _ _ Hp). cbn. by rewrite <- Hk. Qed.

Lemma taken_length : length (pending s) = S (length rest).
Proof. destruct Htaken as (k & _ & Hp). by rewrite Hp. Qed.

Lemma taken_evolves : evolves s s1.
Proof.
  destruct Htaken as (k & _ & Hp). split; cbn; [rewrite Hp; by apply submseteq_cons|done|].
  rewrite taken_norms. by apply submseteq_cons.
Qed.

Lemma taken_distinct : distinct s → distinct s1 ∧ norm key ∉ all_norms s1.
Proof. unfold distinct. rewrite taken_norms. intros [Hni Hnd]%NoDup_cons. done. Qed.

(** The key of a file that is being compiled does not come back. *)
Lemma taken_new s2 : distinct s → evolves s1 s2 → map_get key (done s2) = None.
Proof.
  intros [_ Hni]%taken_distinct [_ _ Hn]. apply map_get_none. intros Hin. apply Hni.
  eapply elem_of_submseteq; [|exact Hn]. apply elem_of_app. by right.
Qed.

Lemma added_evolves s2 dsdl : evolves s1 s2 → evolves s (added s2 key dsdl).
Proof.
  intros Hev. destruct (transitivity taken_evolves Hev) as [Hp Hd _]. split; cbn; [done|..].
  - etrans; [exact Hd|]. intros x Hx. rewrite map_insert_perm. by right.
  - rewrite taken_norms. unfold all_norms, added. cbn [pending done].
    rewrite (norms_perm _ _ (map_insert_perm key dsdl (done s2))). cbn. rewrite <- Permutation_middle.
    apply submseteq_skip, Hev.
Qed.
End taken.

Lemma removed_taken s key input rest : map_remove key (pending s) = Some (input, rest) → taken s key input rest.
Proof. intros (k & Hk & Hp)%map_remove_some. by exists k. Qed.
Lemma first_taken key input rest s : pending s = (key, input) :: rest → taken s key input rest.
Proof. intros Hp. exists key. by rewrite Hp. Qed.

(** ** The fuel is enough *)

Section package.
Context `{Combinatorics} `{Conversions} (p : profile) (usize_bits : Z).
Context (read_to_string : Path → option (list char)) `{ParserCrates}.
Abbreviation compile_file := (compile_one_inner p usize_bits read_to_string).
Abbreviation compile_with := (compile_one p usize_bits read_to_string).
Abbreviation lookup := (lookup_type p usize_bits read_to_string).
Abbreviation loop := (compile_loop p usize_bits read_to_string).

Lemma compile_with_run {A} (find : A → TypeKey → exec (A * result Error CompiledDsdl)) s key input s' r :
  compile_with find s key input = Ret (s', r) →
  ∃ r', run find (compile_file key input) s = Ret (s', r') ∧ r = map_err (CompileFile key) r'.
Proof.
  unfold compile_one. destruct (run find (compile_file key input) s) as [[s2 r']|] eqn:E; cbn [mbind exec_bind]; [|done].
  intros [= <- <-]. eauto.
Qed.

(** The three things that a lookup may do. *)
Lemma lookup_cases fuel s key s' r : lookup fuel s key = Ret (s', r) →
  (∃ dsdl, get_case_sensitive (done s) key = Some dsdl ∧ s' = s ∧ r = Ok dsdl) ∨
  (s' = s ∧ r = Err (UnknownType key)) ∨
  ∃ input rest fuel' s2 r', fuel = S fuel' ∧ taken s key input rest ∧
    run (lookup fuel') (compile_file key input) (mkPersistentContext rest (done s)) = Ret (s2, r') ∧
    match r' with
    | Ok dsdl => s' = added s2 key dsdl ∧ r = Ok dsdl
    | Err e => s' = s2 ∧ r = Err (CompileFile key e)
    end.
Proof.
  destruct fuel as [|fuel]; cbn [lookup_type]; (destruct (get_case_sensitive (done s) key) as [dsdl|]; [intros [= <- <-]; eauto|]);
    (destruct (map_remove key (pending s)) as [[input rest]|] eqn:Er; [|intros [= <- <-]; auto]); [done|].
  intros Hc. right; right. exists input, rest, fuel.
  destruct (compile_with (lookup fuel) _ key input) as [[s2 r2]|] eqn:E; cbn [mbind exec_bind] in Hc; [|done].
  apply compile_with_run in E as (r' & Hrun & ->). exists s2, r'. split_and!; [done|by apply removed_taken|done|].
  destruct r' as [dsdl|e]; cbn [map_err] in Hc; [|by injection Hc as <- <-].
  destruct (map_get key (done s2)); [done|]. by injection Hc as <- <-.
Qed.

Lemma lookup_evolves fuel : ∀ s key s' r, lookup fuel s key = Ret (s', r) → evolves s s'.
Proof.
  induction fuel as [|fuel IH]; intros s key s' r Hl; apply lookup_cases in Hl as
    [(dsdl & _ & -> & _)|[[-> _]|(input & rest & fuel' & s2 & r' & Hf & Ht & Hrun & Hr)]]; try done.
  injection Hf as <-. assert (Hev : evolves (mkPersistentContext rest (done s)) s2).
  { eapply (run_keeps (evolves (mkPersistentContext rest (done s)))); [|done|exact Hrun].
    intros s3 key3 s4 r4 Hs3 H4. etrans; [exact Hs3|by eapply IH]. }
  destruct r' as [dsdl|e]; destruct Hr as [-> ->]; [by eapply added_evolves|].
  etrans; [by eapply taken_evolves|done].
Qed.

Lemma lookup_keeps fuel s : keeps (evolves s) (lookup fuel).
Proof. intros s1 key s2 r Hs Hl. etrans; [exact Hs|by eapply lookup_evolves]. Qed.

Lemma run_evolves fuel {A} (c : Comp A) s s' a : run (lookup fuel) c s = Ret (s', a) → evolves s s'.
Proof. apply (run_keeps (evolves s)); [apply lookup_keeps|done]. Qed.

Lemma lookup_fuel n : ∀ m s key, length (pending s) ≤ n → length (pending s) ≤ m → lookup n s key = lookup m s key.
Proof.
  induction n as [|n IH]; intros m s key Hn Hm; destruct m as [|m]; cbn [lookup_type];
    (destruct (get_case_sensitive (done s) key) as [dsdl|]; [done|]);
    (destruct (map_remove key (pending s)) as [[input rest]|] eqn:Er; [|done]);
    pose proof (taken_length s key input rest (removed_taken _ _ _ _ Er)); try lia.
  unfold compile_one. rewrite (run_ext (evolves (mkPersistentContext rest (done s))) (lookup n) (lookup m)); try done.
  - apply lookup_keeps.
  - intros s1 key1 Hev%evolves_length. cbn in Hev. apply IH; lia.
Qed.

Lemma compile_with_fuel n m s key input : length (pending s) ≤ n → length (pending s) ≤ m →
  compile_with (lookup n) s key input = compile_with (lookup m) s key input.
Proof.
  intros Hn Hm. unfold compile_one. rewrite (run_ext (evolves s) (lookup n) (lookup m)); try done; [apply lookup_keeps|].
  intros s1 key1 Hev%evolves_length. apply lookup_fuel; lia.
Qed.

Lemma loop_fuel n : ∀ m s, length (pending s) ≤ n → length (pending s) ≤ m → loop n s = loop m s.
Proof.
  induction n as [|n IH]; intros m s Hn Hm; destruct m as [|m]; cbn [compile_loop];
    (destruct (pending s) as [|[key input] rest] eqn:Hp; [done|]); cbn in Hn, Hm; try lia.
  rewrite (compile_with_fuel n m) by (cbn; lia).
  destruct (compile_with (lookup m) _ key input) as [[s2 r]|] eqn:E; cbn [mbind exec_bind]; [|done].
  apply compile_with_run in E as (r' & Hev%run_evolves%evolves_length & ->). cbn in Hev.
  destruct r' as [dsdl|e]; cbn [map_err]; [|done]. destruct (map_get key (done s2)); [done|]. apply IH; cbn; lia.
Qed.

Lemma loop_norms n : ∀ s l, loop n s = Ret (Ok l) → norms l ⊆+ all_norms s.
Proof.
  induction n as [|n IH]; intros s l; cbn [compile_loop]; (destruct (pending s) as [|[key input] rest] eqn:Hp);
    try (intros [= <-]; unfold all_norms; by rewrite Hp); try done.
  destruct (compile_with (lookup n) _ key input) as [[s2 r]|] eqn:E; cbn [mbind exec_bind]; [|done].
  apply compile_with_run in E as (r' & Hev%run_evolves & ->). destruct r' as [dsdl|e]; cbn [map_err]; [|done].
  destruct (map_get key (done s2)); [done|]. intros Hl%IH. etrans; [exact Hl|].
  eapply added_evolves; [|exact Hev]. by apply first_taken.
Qed.
End package.

(** ** Steps of the compilation of a file *)

(** A property of steps that the evaluation of statements keeps. *)
Record closed `{Combinatorics} `{Conversions} (p : profile) (usize_bits : Z) (Good : ∀ A, Eval A → Prop) : Prop := {
  good_ret A (x : A) : Good A (mret x);
  good_bind A B (m : Eval A) (f : A → Eval B) : Good A m → (∀ x, Good B (f x)) → Good B (m ≫= f);
  good_lift A (m : exec (result Error A)) : Good A (lift m);
  good_lookup key : Good _ (type_by_key key);
  good_offset name : Good _ (evaluate_identifier name);
}.

Section closed.
Context `{Combinatorics} `{Conversions} (p : profile) (usize_bits : Z) (Good : ∀ A, Eval A → Prop).
Hypothesis Hc : closed p usize_bits Good.

Lemma ret_good {A} (x : A) : Good A (mret x).
Proof. apply (good_ret _ _ _ Hc). Qed.
Lemma bind_good {A B} (m : Eval A) (f : A → Eval B) : Good A m → (∀ x, Good B (f x)) → Good B (m ≫= f).
Proof. apply (good_bind _ _ _ Hc). Qed.
Lemma lift_good {A} (m : exec (result Error A)) : Good A (lift m).
Proof. apply (good_lift _ _ _ Hc). Qed.
Lemma lift_result_good {A} (r : result Error A) : Good A (lift_result r).
Proof. apply lift_good. Qed.
Lemma fail_good {A} e : Good A (eval_fail e).
Proof. apply lift_good. Qed.
Lemma lookup_good key : Good _ (type_by_key key).
Proof. apply (good_lookup _ _ _ Hc). Qed.
Lemma offset_good name : Good _ (evaluate_identifier name).
Proof. apply (good_offset _ _ _ Hc). Qed.
#[local] Hint Resolve ret_good lift_good lift_result_good fail_good lookup_good offset_good : core.

(** The steps of a definition. *)
Ltac good := repeat first
  [ by auto | apply bind_good; [by auto|intros ?] | match goal with |- context [match ?x with _ => _ end] => destruct x end ].

Lemma message_by_key_good key : Good _ (message_by_key key).
Proof. unfold message_by_key. good. Qed.
#[local] Hint Resolve message_by_key_good : core.

Lemma scalar_resolve_good s : Good _ (scalar_resolve s).
Proof. destruct s; cbn; good. Qed.
#[local] Hint Resolve scalar_resolve_good : core.
Lemma type_resolve_good ty : Good _ (type_resolve ty).
Proof. destruct ty; cbn; good. Qed.

Lemma scalar_lengths_good s : Good _ (scalar_bit_length_set s).
Proof. destruct s; cbn; good. Qed.
#[local] Hint Resolve scalar_lengths_good : core.
Lemma type_lengths_good ty : Good _ (type_bit_length_set ty).
Proof. destruct ty; cbn; good. Qed.
#[local] Hint Resolve type_lengths_good : core.

Lemma attribute_good v name : Good _ (evaluate_attribute p usize_bits v name).
Proof.
  destruct v; cbn; good. unfold evaluate_type_attr. destruct (String.eqb _ _); [good|].
  destruct ty as [[]| |]; good.
Qed.
#[local] Hint Resolve attribute_good : core.

Lemma binary_good l r op : Good _ l → Good _ r → Good _ (evaluate_binary l r op).
Proof. intros Hl Hr. unfold evaluate_binary. good. Qed.
Lemma insert_good set v : Good _ (insert_value p usize_bits set v).
Proof. apply lift_good. Qed.
#[local] Hint Resolve insert_good : core.

Lemma array_length_good evaluate e : Good _ (evaluate e) → Good _ (evaluate_array_length evaluate e).
Proof. intros He. unfold evaluate_array_length. good. Qed.
Lemma expression_good : ∀ e, Good _ (evaluate_expression p usize_bits e).
Proof.
  fix expr 1 with (atom (a : ExpressionAtom) {struct a} : Good _ (evaluate_atom p usize_bits (evaluate_expression p usize_bits) a))
    (literal (l : LiteralType) {struct l} : Good _ (evaluate_literal p usize_bits (evaluate_expression p usize_bits) l))
    (ty (t : AstType) {struct t} : Good _ (convert_type (evaluate_expression p usize_bits) t))
    (array s (l : ArrayLength) {struct l} : Good _ (convert_array (evaluate_expression p usize_bits) s l)).
  - intros []; cbn; try (apply binary_good; apply expr); [apply atom|..];
      (apply bind_good; [apply expr|intros ?]); good.
  - destruct a; cbn; [apply expr| |apply literal|good].
    apply bind_good; [apply ty|]. good.
  - destruct l as [es| | |]; cbn [evaluate_literal]; [|good..].
    apply bind_good; [|intros set; good].
    generalize (@nil DValue). induction es as [|e es IH]; intros set; cbn [set_loop]; [good|].
    apply bind_good; [apply expr|intros v]. apply bind_good; [apply insert_good|intros set']. apply IH.
  - destruct t; cbn; [good|apply array].
  - destruct l; cbn; (apply bind_good; [apply array_length_good, expr|intros v]); good.
Qed.
Lemma convert_type_good t : Good _ (convert_type (evaluate_expression p usize_bits) t).
Proof.
  destruct t as [scalar|s l]; cbn; [good|].
  destruct l; cbn; (apply bind_good; [apply array_length_good, expression_good|intros v]); good.
Qed.
End closed.

(** ** A lookup that fails fails the file *)

Inductive strict {B} (failed : B → Prop) : Comp B → Prop :=
| strict_ret b : strict failed (CRet b)
| strict_panic : strict failed CPanic
| strict_lookup key k : (∀ e, ∃ b, k (Err e) = CRet b ∧ failed b) → (∀ r, strict failed (k r)) →
    strict failed (CLookup key k).

Definition is_err {A} (r : result Error A) : Prop := match r with Ok _ => False | Err _ => True end.

Lemma strict_bind {B B'} (failed : B → Prop) (failed' : B' → Prop) (f : B → Comp B') m : strict failed m →
  (∀ b, failed b → ∃ b', f b = CRet b' ∧ failed' b') → (∀ b, strict failed' (f b)) → strict failed' (comp_bind f m).
Proof.
  intros Hm Hf Hf'. induction Hm as [b| |key k He Hk IH]; cbn [comp_bind]; [done|constructor|].
  constructor; [|done]. intros e. destruct (He e) as (b & -> & Hb). by apply Hf.
Qed.

Definition step_failed {A} (r : FileState * result Error A) : Prop := is_err (snd r).
Definition strict_step A (m : Eval A) : Prop := ∀ fs, strict step_failed (m fs).

Lemma strict_step_bind {A B} (m : Eval A) (f : A → Eval B) : strict_step A m → (∀ x, strict_step B (f x)) →
  strict_step B (m ≫= f).
Proof.
  intros Hm Hf fs. eapply strict_bind; [apply Hm|..].
  - intros [fs1 [x|e]] He; [done|]. by exists (fs1, Err e).
  - intros [fs1 [x|e]]; [apply Hf|constructor].
Qed.
Lemma strict_step_lift {A} (m : exec (result Error A)) : strict_step A (lift m).
Proof. intros fs. unfold lift. destruct m; constructor. Qed.
Lemma strict_step_build f : strict_step unit (build f).
Proof. intros fs. unfold build. destruct (f fs) as [[]|]; constructor. Qed.
#[local] Hint Resolve strict_step_lift strict_step_build : core.

Section strict.
Context `{Combinatorics} `{Conversions} (p : profile) (usize_bits : Z).

Lemma strict_closed : closed p usize_bits strict_step.
Proof.
  split.
  - intros A x fs. constructor.
  - intros A B m f. apply strict_step_bind.
  - intros A m. done.
  - intros key fs. constructor; [|intros []; constructor]. intros e. by eexists.
  - intros name fs. unfold evaluate_identifier. destruct (String.eqb _ _).
    + destruct (bit_length_set fs) as [[]|]; constructor.
    + destruct (find_constant _ _); constructor.
Qed.

Lemma strict_expression e : strict_step _ (evaluate_expression p usize_bits e).
Proof. apply (expression_good p usize_bits), strict_closed. Qed.
#[local] Hint Resolve strict_expression : core.

Lemma strict_plain name e f : strict_step unit f → strict_step unit (plain_directive name e f).
Proof. intros Hf. destruct e; [apply strict_step_lift|done]. Qed.

Lemma strict_directive name e : strict_step unit (evaluate_directive p usize_bits name e).
Proof.
  unfold evaluate_directive. destruct (String.eqb _ "union"); [by apply strict_plain|]. destruct (String.eqb _ "extent").
  { destruct e; [|apply strict_step_lift]. apply strict_step_bind; [done|intros v]. by apply strict_step_bind; [apply strict_step_lift|]. }
  destruct (String.eqb _ "sealed"); [by apply strict_plain|]. destruct (String.eqb _ "deprecated"); [by apply strict_plain|].
  destruct (String.eqb _ "assert").
  { destruct e; [|apply strict_step_lift]. apply strict_step_bind; [done|]. intros [| | | |[]|]; try apply strict_step_lift. intros fs. constructor. }
  destruct (String.eqb _ "print"); [|apply strict_step_lift]. destruct e; [|intros fs; constructor].
  apply strict_step_bind; [done|]. intros v fs. constructor.
Qed.

Lemma strict_statement s : strict_step unit (evaluate_statement p usize_bits s).
Proof.
  destruct s as [name e|ty name e|ty name|bits|]; cbn [evaluate_statement]; [apply strict_directive|..]; try done.
  - apply strict_step_bind; [intros fs; constructor|intros cs]. destruct (has_constant _ _); [apply strict_step_lift|].
    apply strict_step_bind; [|intros c; by apply strict_step_bind; [intros fs; constructor|intros ? fs; constructor]].
    unfold Constant_evaluate. destruct (is_reserved_keyword name); [apply strict_step_lift|].
    apply strict_step_bind; [done|intros v]. by apply strict_step_bind; [apply strict_step_lift|intros ? fs; constructor].
  - apply strict_step_bind; [by apply (convert_type_good p usize_bits), strict_closed|intros t].
    by apply strict_step_bind; [by apply (type_resolve_good p usize_bits), strict_closed|].
Qed.

Lemma strict_statements l : strict_step unit (evaluate_statements p usize_bits l).
Proof.
  induction l as [|s l IH]; cbn [evaluate_statements]; [intros fs; constructor|].
  apply strict_step_bind; [apply strict_statement|done].
Qed.

Lemma strict_file read_to_string `{ParserCrates} key input :
  strict is_err (compile_one_inner p usize_bits read_to_string key input).
Proof.
  unfold compile_one_inner. cbv zeta. eapply (strict_bind step_failed).
  - apply (strict_step_bind (lift_result _)); [apply strict_step_lift|intros content].
    apply (strict_step_bind (lift _)); [done|intros ast].
    apply (strict_step_bind (evaluate_statements _ _ _)); [apply strict_statements|intros []].
    intros fs. unfold finish_file. destruct (finish fs _); constructor.
  - intros [fs r] Hr. by exists r.
  - intros [fs r]. constructor.
Qed.
End strict.

(** ** The reference *)

(** A computation whose lookups are answered by a function. *)
Fixpoint answer {B} (f : TypeKey → option CompiledDsdl) (c : Comp B) : option B :=
  match c with
  | CRet b => Some b
  | CPanic => None
  | CLookup key k => d ← f key; answer f (k (Ok d))
  end.

Lemma answer_mono {B} (f g : TypeKey → option CompiledDsdl) (c : Comp B) b : (∀ key d, f key = Some d → g key = Some d) →
  answer f c = Some b → answer g c = Some b.
Proof.
  intros Hfg. induction c as [b'| |key k IH]; cbn; [done..|]. destruct (f key) as [d|] eqn:E; cbn; [|done].
  rewrite (Hfg _ _ E). cbn. apply IH.
Qed.

Section reference.
Context `{Combinatorics} `{Conversions} (p : profile) (usize_bits : Z).
Context (read_to_string : Path → option (list char)) `{ParserCrates}.
Abbreviation compile_file := (compile_one_inner p usize_bits read_to_string).
Abbreviation lookup := (lookup_type p usize_bits read_to_string).
Abbreviation loop := (compile_loop p usize_bits read_to_string).
Context (find : TypeKey → option DsdlFile).

Fixpoint reference_type (n : nat) (key : TypeKey) : option CompiledDsdl :=
  match n with
  | O => None
  | S n =>
      input ← find key;
      r ← answer (reference_type n) (compile_file key input);
      match r with Ok dsdl => Some dsdl | Err _ => None end
  end.

Lemma reference_step n key dsdl : reference_type (S n) key = Some dsdl ↔
  ∃ input, find key = Some input ∧ answer (reference_type n) (compile_file key input) = Some (Ok dsdl).
Proof.
  cbn. destruct (find key) as [input|]; cbn; [|naive_solver].
  split.
  - destruct (answer _ _) as [[d|e]|] eqn:E; cbn; [|done..]. intros [= ->]. eauto.
  - by intros (i & [= <-] & ->).
Qed.

Lemma reference_S n : ∀ key dsdl, reference_type n key = Some dsdl → reference_type (S n) key = Some dsdl.
Proof.
  induction n as [|n IH]; intros key dsdl; [done|]. rewrite !reference_step. intros (input & Hf & Ha).
  exists input. split; [done|]. by eapply answer_mono.
Qed.
Lemma reference_file n key dsdl : reference_type n key = Some dsdl → ∃ m input, n = S m ∧ find key = Some input.
Proof. destruct n as [|n]; [done|]. intros (input & Hf & _)%reference_step. eauto. Qed.
Lemma reference_mono n m key dsdl : n ≤ m → reference_type n key = Some dsdl → reference_type m key = Some dsdl.
Proof. induction 1; [done|]. intros Hr. apply reference_S. auto. Qed.

Definition denotes (key : TypeKey) (dsdl : CompiledDsdl) : Prop := ∃ n, reference_type n key = Some dsdl.

Lemma denotes_unique key d d' : denotes key d → denotes key d' → d = d'.
Proof.
  intros [n Hn] [m Hm]. apply (reference_mono n (n `max` m)) in Hn; [|lia]. apply (reference_mono m (n `max` m)) in Hm; [|lia].
  congruence.
Qed.

(** The level at which a type is compiled first. *)
Lemma reference_level n key dsdl : reference_type n key = Some dsdl →
  ∃ m, reference_type m key = None ∧ reference_type (S m) key = Some dsdl.
Proof.
  induction n as [|n IH]; [done|]. intros Hn. destruct (reference_type n key) as [d|] eqn:E; [|by exists n].
  assert (d = dsdl) as ->; [|by apply IH]. eapply denotes_unique; [by exists n|by exists (S n)].
Qed.

(** *** Sound states *)

Context (files : list (TypeKey * DsdlFile)).
Hypothesis Hfiles : NoDup (norms files).

(** What is done is right, and nothing was lost. *)
Record sound (s : PersistentContext) : Prop := {
  sound_distinct : distinct s;
  sound_pending : pending s ⊆+ files;
  sound_done key dsdl : (key, dsdl) ∈ done s → denotes key dsdl;
}.

Lemma sound_evolves s s' : sound s → evolves s s' → (∀ key dsdl, (key, dsdl) ∈ done s' → denotes key dsdl) → sound s'.
Proof. intros [Hd Hp Hs] Hev Hs'. split; [by eapply evolves_distinct|etrans; [apply Hev|done]|done]. Qed.

Lemma get_denotes s key dsdl : sound s → get_case_sensitive (done s) key = Some dsdl → denotes key dsdl.
Proof.
  intros Hs. unfold get_case_sensitive. destruct (map_get key (done s)) as [[k v]|] eqn:E; cbn; [|done].
  destruct (case_sensitive_equal k key) eqn:Ek; [|done]. intros [= ->].
  assert (Hnd : NoDup (norms (done s))) by (pose proof (sound_distinct s Hs) as Hd; by apply NoDup_app in Hd as (_ & _ & Hd)).
  apply map_get_some in E as [Hin Hn]; [|done]. assert (k = key) as <-; [|by apply Hs].
  unfold case_sensitive_equal in Ek. apply andb_true_iff in Ek as [E1%bool_decide_eq_true E2%bool_decide_eq_true].
  injection Hn as E3 _. destruct k, key. cbn in *. congruence.
Qed.

Lemma start_sound : sound (mkPersistentContext files []).
Proof. split; cbn; [|done|set_solver]. unfold distinct, all_norms. cbn. by rewrite app_nil_r. Qed.

(** ** What the reference has compiles

    Here types are found by their exact names. A file that is being compiled is neither pending
    nor done, but the types of a lower level than its own are: those it needs. *)

Section complete.
Hypothesis find_exact : ∀ key input, find key = Some input ↔ (key, input) ∈ files.

Definition live (s : PersistentContext) (key : TypeKey) : Prop :=
  (∃ input, (key, input) ∈ pending s) ∨ (∃ dsdl, (key, dsdl) ∈ done s).
Definition all_live (n : nat) (s : PersistentContext) : Prop := ∀ key d, reference_type n key = Some d → live s key.

Lemma run_complete (J : PersistentContext → Prop) fuel n {B} (c : Comp B) b :
  (∀ s key d, J s → reference_type n key = Some d → ∃ s', lookup fuel s key = Ret (s', Ok d) ∧ J s') →
  answer (reference_type n) c = Some b → ∀ s, J s → ∃ s', run (lookup fuel) c s = Ret (s', b) ∧ J s'.
Proof.
  intros Hl. induction c as [b'| |key k IH]; cbn [answer run]; intros Ha s Hs; [|done|].
  - injection Ha as ->. eauto.
  - destruct (reference_type n key) as [d|] eqn:E; cbn in Ha; [|done].
    destruct (Hl s key d Hs E) as (s1 & -> & Hs1). cbn [mbind exec_bind]. by apply IH.
Qed.

Lemma norms_one {V} (m : list (TypeKey * V)) k k' v v' : NoDup (norms m) → (k, v) ∈ m → (k', v') ∈ m → norm k = norm k' →
  k = k' ∧ v = v'.
Proof.
  intros Hnd H1' H2 Hk. assert (E1 : map_get k' m = Some (k, v)) by (by apply map_get_some).
  assert (E2 : map_get k' m = Some (k', v')) by (by apply map_get_some). split; congruence.
Qed.

Lemma get_done s key dsdl : distinct s → (key, dsdl) ∈ done s → get_case_sensitive (done s) key = Some dsdl.
Proof.
  intros (_ & _ & Hd)%NoDup_app Hin. unfold get_case_sensitive.
  assert (map_get key (done s) = Some (key, dsdl)) as -> by (by apply map_get_some). cbn.
  unfold case_sensitive_equal. by rewrite !bool_decide_eq_true_2.
Qed.

Lemma take_pending s key input : distinct s → (key, input) ∈ pending s →
  get_case_sensitive (done s) key = None ∧ ∃ rest, map_remove key (pending s) = Some (input, rest) ∧ pending s ≡ₚ (key, input) :: rest.
Proof.
  intros (Hp & Hn & _)%NoDup_app Hin. assert (Hk : norm key ∈ norms (pending s)) by (apply norms_elem; eauto). split.
  - unfold get_case_sensitive. by rewrite (proj2 (map_get_none key (done s)) (Hn _ Hk)).
  - destruct (map_remove key (pending s)) as [[v rest]|] eqn:E; [|by apply map_remove_none in E].
    apply map_remove_some in E as (k & Hk' & Hperm).
    destruct (norms_one (pending s) k key v input) as [-> ->]; [done|rewrite Hperm; left|done|done|]. by exists rest.
Qed.

Definition completes (fuel n : nat) : Prop := ∀ s key d, sound s → all_live n s → length (pending s) ≤ fuel →
  reference_type n key = Some d →
  ∃ s', lookup fuel s key = Ret (s', Ok d) ∧ sound s' ∧ (∀ key', live s key' → live s' key').

(** A file that is taken, at the level at which it is compiled first. *)
Lemma compile_complete fuel n s key input rest d : completes fuel n → sound s → all_live n s → length rest ≤ fuel →
  pending s ≡ₚ (key, input) :: rest → reference_type n key = None → reference_type (S n) key = Some d →
  ∃ s2, run (lookup fuel) (compile_file key input) (mkPersistentContext rest (done s)) = Ret (s2, Ok d) ∧
    map_get key (done s2) = None ∧ sound (added s2 key d) ∧ ∀ key', live s key' → live (added s2 key d) key'.
Proof.
  intros IH Hs Hlive Hfuel Hp Hnone Hd. assert (Ht : taken s key input rest) by (by exists key).
  pose proof (taken_evolves s key input rest Ht) as Hev.
  assert (Hs1 : sound (mkPersistentContext rest (done s))) by (apply (sound_evolves s); [done..|apply Hs]).
  assert (Hin : (key, input) ∈ files) by (eapply elem_of_submseteq; [|apply Hs]; rewrite Hp; left).
  apply find_exact in Hin. pose proof Hd as (input' & Hin' & Ha)%reference_step. rewrite Hin in Hin'. injection Hin' as <-.
  set (s1 := mkPersistentContext rest (done s)) in *.
  assert (Hlive1 : ∀ key', live s key' → key' = key ∨ live s1 key').
  { intros key' [[i Hi]|[x Hx]]; [|right; right; by exists x]. rewrite Hp, elem_of_cons in Hi.
    destruct Hi as [[= -> _]|Hi]; [by left|]. right. left. by exists i. }
  destruct (run_complete (λ s', sound s' ∧ evolves s1 s' ∧ ∀ key', live s1 key' → live s' key') fuel n (compile_file key input) (Ok d))
    with (s := s1) as (s2 & Hrun & Hs2 & Hev2 & Hl2); [|done|done|].
  - intros s3 key3 d3 (Hs3 & Hev3 & Hl3) H3. destruct (IH s3 key3 d3 Hs3) as (s4 & H4 & Hs4 & Hl4); [| |done|].
    + intros key' d' Hkey'. apply Hl3. destruct (Hlive1 key') as [->|]; [by eapply Hlive|congruence|done].
    + apply evolves_length in Hev3. cbn in Hev3. lia.
    + exists s4. split_and!; [done..| |auto]. etrans; [exact Hev3|by eapply lookup_evolves].
  - exists s2. split_and!; [done|by eapply taken_new; [|apply Hs|]| |].
    + eapply sound_evolves; [exact Hs|by eapply added_evolves|]. cbn. intros key' d'. rewrite map_insert_perm, elem_of_cons.
      intros [[= -> ->]|Hx]; [by exists (S n)|by apply Hs2].
    + assert (Hadd : ∀ key', key' = key ∨ live s2 key' → live (added s2 key d) key').
      { intros key' [->|[?|[x Hx]]]; [right; exists d|by left|right; exists x]; cbn; rewrite map_insert_perm; [by left|by right]. }
      intros key' Hkey'. apply Hadd. destruct (Hlive1 key' Hkey') as [->|]; auto.
Qed.

Lemma lookup_complete n : ∀ fuel, completes fuel n.
Proof.
  induction n as [|n IH]; intros fuel s key d Hs Hlive Hfuel Hd; [done|].
  destruct (reference_type n key) as [d'|] eqn:E.
  - assert (d' = d) as -> by (eapply denotes_unique; [by exists n|by exists (S n)]).
    apply IH; try done. intros key' x Hx. eapply Hlive. by apply reference_S.
  - destruct (Hlive key d Hd) as [[input Hin]|[x Hx]].
    + destruct (take_pending s key input (sound_distinct s Hs) Hin) as (Hg & rest & Hr & Hp).
      destruct fuel as [|fuel]; rewrite Hp in Hfuel; cbn in Hfuel; [lia|]. cbn [lookup_type]. rewrite Hg, Hr.
      destruct (compile_complete fuel n s key input rest d) as (s2 & Hrun & Hget & Hs3 & Hl3); try done; [|lia|].
      { intros key' d' Hkey'. eapply Hlive. by apply reference_S. }
      unfold compile_one. rewrite Hrun. cbn [mbind exec_bind map_err]. rewrite Hget. by eexists.
    + assert (x = d) as -> by (eapply denotes_unique; [by apply Hs|by exists (S n)]).
      exists s. split_and!; [|done..]. destruct fuel; cbn [lookup_type]; by rewrite (get_done s key d (sound_distinct s Hs) Hx).
Qed.

Lemma loop_complete fuel : ∀ s, sound s → length (pending s) ≤ fuel → (∀ key input, (key, input) ∈ files → ∃ d, denotes key d) →
  (∀ key input, (key, input) ∈ files → live s key) →
  ∃ l, loop fuel s = Ret (Ok l) ∧ sound (mkPersistentContext [] l) ∧ ∀ key, live s key → live (mkPersistentContext [] l) key.
Proof.
  induction fuel as [|fuel IH]; intros s Hs Hfuel Hall Hlive; cbn [compile_loop];
    (destruct (pending s) as [|[key input] rest] eqn:Hp; [exists (done s)|]).
  1,3: destruct s as [pend dn]; cbn in *; by subst pend.
  - cbn in Hfuel. lia.
  - cbn in Hfuel. assert (Hin : (key, input) ∈ files) by (eapply elem_of_submseteq; [|apply Hs]; rewrite Hp; left).
    destruct (Hall key input Hin) as [d [n Hd]]. apply reference_level in Hd as (m & Hnone & Hd).
    destruct (compile_complete fuel m s key input rest d) as (s2 & Hrun & Hget & Hs3 & Hl3); try done.
    + apply lookup_complete.
    + intros key' d' (m' & i & -> & Hf)%reference_file. by apply (Hlive key' i), find_exact.
    + lia.
    + by rewrite Hp.
    + unfold compile_one. rewrite Hrun. cbn [mbind exec_bind map_err]. rewrite Hget.
      destruct (IH (added s2 key d)) as (l & Hl & Hsl & Hll); [done| |done|eauto|].
      * apply run_evolves, evolves_length in Hrun. cbn in *. lia.
      * exists l. split_and!; auto.
Qed.

Lemma package_complete fuel : length files ≤ fuel → (∀ key input, (key, input) ∈ files → ∃ d, denotes key d) →
  ∃ l, compile_package p usize_bits read_to_string fuel files = Ret (Ok l) ∧ l.*1 ≡ₚ files.*1 ∧
    ∀ key d, (key, d) ∈ l → denotes key d.
Proof.
  intros Hfuel Hall. destruct (loop_complete fuel (mkPersistentContext files [])) as (l & Hl & Hs & Hlive); [apply start_sound|done|done|..].
  - intros key input Hin. left. by exists input.
  - exists l. split_and!; [done| |apply Hs]. pose proof (loop_norms _ _ _ _ _ _ Hl) as Hn. cbn in Hn. rewrite app_nil_r in Hn.
    symmetry. apply submseteq_length_Permutation.
    + apply NoDup_submseteq; [by apply (NoDup_fmap_1 norm (files.*1))|]. intros key ([k i] & -> & Hin)%list_elem_of_fmap.
      destruct (Hlive k) as [[i' Hi]|[x Hx]]; [left; by exists i|by cbn in Hi; set_solver|].
      apply list_elem_of_fmap. by exists (k, x).
    + apply submseteq_length in Hn. unfold norms in Hn. by rewrite !length_fmap in *.
Qed.
End complete.

(** ** What a package compiles to *)

(** A computation that does not fail has the answers of the reference, if the lookups have. *)
Lemma run_sound (I : PersistentContext → Prop) fuel {B} (failed : B → Prop) (c : Comp B) :
  (∀ s key s' d, I s → lookup fuel s key = Ret (s', Ok d) → I s' ∧ denotes key d) → strict failed c →
  ∀ s s' b, I s → run (lookup fuel) c s = Ret (s', b) → ¬ failed b →
  I s' ∧ ∃ n, answer (reference_type n) c = Some b.
Proof.
  intros Hl Hc. induction Hc as [b'| |key k He Hk IH]; intros s s' b Hs; cbn [run answer]; [|done|].
  { intros [= <- <-] _. split; [done|by exists 0]. }
  destruct (lookup fuel s key) as [[s1 [d|e]]|] eqn:E; cbn [mbind exec_bind]; [| |done].
  - intros Hrun Hb. destruct (Hl _ _ _ _ Hs E) as [Hs1 [n1 Hn1]].
    destruct (IH (Ok d) s1 s' b Hs1 Hrun Hb) as [Hs' [n2 Hn2]]. split; [done|]. exists (n1 `max` n2).
    rewrite (reference_mono n1 _ _ _ (Nat.le_max_l _ _) Hn1). cbn. eapply answer_mono; [|exact Hn2].
    intros k' d'. apply reference_mono. lia.
  - destruct (He e) as (b' & Hr & Hf). rewrite Hr. cbn [run]. by intros [= _ <-].
Qed.

Hypothesis find_file : ∀ k key input, (k, input) ∈ files → norm k = norm key → find key = Some input.

Lemma compile_sound fuel s key input rest s2 dsdl :
  (∀ s key s' d, sound s → lookup fuel s key = Ret (s', Ok d) → sound s' ∧ lost_nothing s s' ∧ denotes key d) →
  sound s → taken s key input rest →
  run (lookup fuel) (compile_file key input) (mkPersistentContext rest (done s)) = Ret (s2, Ok dsdl) →
  sound (added s2 key dsdl) ∧ lost_nothing s (added s2 key dsdl) ∧ denotes key dsdl.
Proof.
  intros IH Hs Ht Hrun. pose proof (taken_evolves s key input rest Ht) as Hev1.
  assert (Hs1 : sound (mkPersistentContext rest (done s))) by (apply (sound_evolves s); [done..|apply Hs]).
  pose proof (run_evolves _ _ _ _ _ _ _ _ Hrun) as Hev2.
  destruct (run_sound (λ s', sound s' ∧ lost_nothing (mkPersistentContext rest (done s)) s') fuel is_err (compile_file key input))
    with (s := mkPersistentContext rest (done s)) (s' := s2) (b := @Ok Error CompiledDsdl dsdl) as [[Hs2 Hlost] [n Ha]]; [| |by split; [|intros x]|done|by intros []|].
  - intros s3 key3 s4 d [H3 Hl3] H4. destruct (IH _ _ _ _ H3 H4) as (Hs4 & Hl4 & Hd). split; [split; [done|by etrans]|done].
  - apply strict_file.
  - assert (Hd : denotes key dsdl).
    { exists (S n). apply reference_step. exists input. split; [|done]. destruct Ht as (k & Hk & Hp). apply (find_file k); [|done].
      eapply elem_of_submseteq; [|apply Hs]. rewrite Hp. left. }
    split_and!; [|intros x|done].
    + eapply sound_evolves; [exact Hs|by eapply added_evolves|]. cbn. intros key' d. rewrite map_insert_perm, elem_of_cons.
      intros [[= -> ->]|Hin]; [done|by apply Hs2].
    + rewrite (taken_norms s key input rest Ht). unfold all_norms, added. cbn [pending done].
      rewrite (norms_perm _ _ (map_insert_perm key dsdl (done s2))). cbn. rewrite <- Permutation_middle, !elem_of_cons.
      intros [->|Hx]; [by left|right; by apply Hlost].
Qed.

Lemma lookup_sound fuel : ∀ s key s' dsdl, sound s → lookup fuel s key = Ret (s', Ok dsdl) →
  sound s' ∧ lost_nothing s s' ∧ denotes key dsdl.
Proof.
  induction fuel as [|fuel IH]; intros s key s' dsdl Hs Hl; apply lookup_cases in Hl as
    [(d & Hg & -> & [= ->])|[[_ [=]]|(input & rest & fuel' & s2 & r' & Hf & Ht & Hrun & Hr)]]; try done.
  1,2: split_and!; [done|by intros x|by eapply get_denotes].
  injection Hf as <-. destruct r' as [d|e]; destruct Hr as [-> [=]]. subst d. by eapply compile_sound.
Qed.

Lemma loop_sound fuel : ∀ s l, sound s → loop fuel s = Ret (Ok l) →
  sound (mkPersistentContext [] l) ∧ lost_nothing s (mkPersistentContext [] l).
Proof.
  induction fuel as [|fuel IH]; intros s l Hs; cbn [compile_loop];
    (destruct (pending s) as [|[key input] rest] eqn:Hp; [intros [= <-]|]).
  1,3: destruct s as [pend dn]; cbn in *; by subst pend.
  - done.
  - apply first_taken in Hp as Ht. unfold compile_one.
    destruct (run _ _ _) as [[s2 [d|e]]|] eqn:E; cbn [mbind exec_bind map_err]; [|done..].
    destruct (map_get key (done s2)); [done|]. intros Hloop.
    destruct (compile_sound fuel s key input rest s2 d) as (Hs3 & Hl3 & _); [apply lookup_sound|done..|].
    destruct (IH _ _ Hs3 Hloop) as (Hs4 & Hl4). split; [done|by etrans].
Qed.

Lemma package_sound fuel l : compile_package p usize_bits read_to_string fuel files = Ret (Ok l) →
  norms l ≡ₚ norms files ∧ ∀ key dsdl, (key, dsdl) ∈ l → denotes key dsdl.
Proof.
  intros Hl. pose proof (loop_norms _ _ _ _ _ _ Hl) as Hn. apply loop_sound in Hl as ([_ _ Hs] & Hlost); [|apply start_sound].
  split; [|done]. unfold lost_nothing, all_norms in Hlost, Hn. cbn in Hlost, Hn. rewrite app_nil_r in Hlost, Hn.
  apply (anti_symm submseteq); [done|by apply NoDup_submseteq].
Qed.
(** *** Nothing but a file panics *)

(** No file panics when its lookups have the answers of the reference. *)
Inductive may_panic {B} : Comp B → Prop :=
| may_panic_here : may_panic CPanic
| may_panic_later key d k : denotes key d → may_panic (k (Ok d)) → may_panic (CLookup key k).

Definition files_safe : Prop := ∀ key input, find key = Some input → ¬ may_panic (compile_file key input).

Lemma run_returns (I : PersistentContext → Prop) fuel {B} (failed : B → Prop) (c : Comp B) :
  (∀ s key, I s → lookup fuel s key ≠ Panic) →
  (∀ s key s' d, I s → lookup fuel s key = Ret (s', Ok d) → I s' ∧ denotes key d) → strict failed c → ¬ may_panic c →
  ∀ s, I s → run (lookup fuel) c s ≠ Panic.
Proof.
  intros Hret Hl Hc. induction Hc as [b'| |key k He Hk IH]; intros Hp s Hs; cbn [run]; [done|by destruct Hp; constructor|].
  destruct (lookup fuel s key) as [[s1 [d|e]]|] eqn:E; cbn [mbind exec_bind]; [| |by destruct (Hret s key Hs)].
  - destruct (Hl _ _ _ _ Hs E) as [Hs1 Hd]. apply IH; [|done]. intros Hm. apply Hp. by eapply may_panic_later.
  - destruct (He e) as (b' & -> & Hf). done.
Qed.

Lemma compile_taken_returns n s key input rest : files_safe →
  (∀ s key, length (pending s) ≤ n → sound s → lookup n s key ≠ Panic) →
  taken s key input rest → length rest ≤ n → sound s →
  ∃ s2 r, run (lookup n) (compile_file key input) (mkPersistentContext rest (done s)) = Ret (s2, r) ∧
    length (pending s2) ≤ length rest ∧ map_get key (done s2) = None ∧ ∀ d, r = Ok d → sound (added s2 key d).
Proof.
  intros Hsafe IH Ht Hn Hs. pose proof (taken_evolves s key input rest Ht) as Hev.
  assert (Hs1 : sound (mkPersistentContext rest (done s))) by (apply (sound_evolves s); [done..|apply Hs]).
  destruct (run (lookup n) _ _) as [[s2 r]|] eqn:E.
  - exists s2, r. pose proof (run_evolves _ _ _ _ _ _ _ _ E) as Hev2. split_and!; [done|by apply evolves_length in Hev2| |].
    + by eapply taken_new; [|apply Hs|].
    + intros d ->. apply (compile_sound n s key input rest s2 d (lookup_sound n) Hs Ht E).
  - exfalso. revert E. pose (s1 := mkPersistentContext rest (done s)).
    apply (run_returns (λ s', sound s' ∧ evolves s1 s') n is_err); [..|by split].
    + intros s3 key3 [Hs3 Hev3]. apply IH; [|done]. apply evolves_length in Hev3. cbn in Hev3. lia.
    + intros s3 key3 s4 d [Hs3 Hev3] H4. destruct (lookup_sound _ _ _ _ _ Hs3 H4) as (Hs4 & _ & Hd).
      split; [split; [done|]|done]. etrans; [exact Hev3|by eapply lookup_evolves].
    + apply strict_file.
    + apply Hsafe. destruct Ht as (k & Hk & Hp). apply (find_file k); [|done].
      eapply elem_of_submseteq; [|apply Hs]. rewrite Hp. left.
Qed.

Lemma lookup_returns n : files_safe → ∀ s key, length (pending s) ≤ n → sound s → lookup n s key ≠ Panic.
Proof.
  intros Hsafe. induction n as [|n IH]; intros s key Hn Hs; cbn [lookup_type];
    (destruct (get_case_sensitive (done s) key) as [dsdl|]; [done|]);
    (destruct (map_remove key (pending s)) as [[input rest]|] eqn:Er; [|done]); apply removed_taken in Er as Ht;
    pose proof (taken_length s key input rest Ht); [lia|].
  destruct (compile_taken_returns n s key input rest) as (s2 & r & Hrun & _ & Hget & _); try done; [lia|].
  unfold compile_one. rewrite Hrun. cbn [mbind exec_bind]. destruct r as [dsdl|e]; cbn [map_err]; [|done]. by rewrite Hget.
Qed.

Lemma loop_returns n : files_safe → ∀ s, length (pending s) ≤ n → sound s → loop n s ≠ Panic.
Proof.
  intros Hsafe. induction n as [|n IH]; intros s Hn Hs; cbn [compile_loop];
    (destruct (pending s) as [|[key input] rest] eqn:Hp; [done|]); cbn in Hn; [lia|]. apply first_taken in Hp as Ht.
  destruct (compile_taken_returns n s key input rest) as (s2 & r & Hrun & Hlen & Hget & Hs3); try done.
  - intros s3 key3. by apply lookup_returns.
  - lia.
  - unfold compile_one. rewrite Hrun. cbn [mbind exec_bind]. destruct r as [dsdl|e]; cbn [map_err]; [|done]. rewrite Hget.
    apply IH; [cbn; lia|by apply Hs3].
Qed.

End reference.
