(* ===== verification/RustCode.v ===== *)
(** * The Rust code that is generated, and its meaning

    The code generator of [canadensis_codegen_rust] prints Rust source. Here the printed
    functions are expressions and statements ([SizeExpr], [Stmt], [ReadExpr]) with a meaning
    as Rust gives it to them: calls of the cursor functions, casts, loops and matches. Where
    Rust finds a function by the type of a value (the implementations for a composite type,
    the length of a bit array, the target of [as _]), the code carries that type. *)

From stdpp Require Import strings.
From S2P Require Import Prelude EncCursor EncFields EncBits DsdlTypes RegisterTypes.

(** ** Values *)

(** Values of generated types. Integers of any type are their value, floating-point numbers
    their bits, arrays and [heapless::Vec]s their elements, structs their fields by name. *)
Inductive RustValue :=
| RBool (b : bool)
| RInt (z : Z)
| RFloat (bits : Z)
| RBits (a : BitArray)
| RArray (elements : list RustValue)
| RStruct (fields : list (string * RustValue))
| REnum (variant : string) (inner : RustValue).

Fixpoint field_of (name : string) (fields : list (string * RustValue)) : option RustValue :=
  match fields with
  | [] => None
  | (n, v) :: fields => if bool_decide (n = name) then Some v else field_of name fields
  end.

(** ** Code *)

(** [self.name], or the variable of a match arm, a loop or a closure. *)
Inductive Expr := ESelfField (name : string) | EVar.

(** [write_u12], [write_aligned_u16], and the like for reading. *)
Inductive IntFn := FnPlain (bits : u8) | FnAligned (bits : u8).

(** The integer that is written: a variable, the length of an array, a literal. *)
Inductive IntArg := AExpr (e : Expr) | ALen (e : Expr) | ALit (z : Z).

Inductive Stmt :=
| SWriteSelfBytes
| SWriteComposite (inner : Message) (e : Expr)
| SWriteBool (e : Expr)
| SWriteInt (fn : IntFn) (arg : IntArg) (cast : option u8)
| SWriteFloat (bits : u8) (e : Expr)
| SSkip (bits : u8)
| SSerializeBits (capacity : u64) (e : Expr)
| SForEach (e : Expr) (body : Stmt)
| SWriteBytes (e : Expr).

(** The body of [serialize]. *)
Inductive SerializeCode :=
| SerStruct (body : list Stmt)
| SerMatch (arms : list (string * list Stmt)).

Inductive SizeExpr :=
| SzLit (bits : u64)
| SzAdd (a b : SizeExpr)
| SzLenTimes (e : Expr) (bits : u64)
| SzSumElements (e : Expr) (element : SizeExpr)
| SzSizeBits (inner : Message) (e : Expr).

(** The body of [size_bits]. *)
Inductive SizeCode :=
| SizeOf (e : SizeExpr)
| SizeMatch (discriminant_bits : u8) (arms : list (string * SizeExpr)).

(** [read_u12() as i16]. *)
Record IntType := mkIntType { it_signed : bool; it_bits : u8 }.

Inductive ReadExpr :=
| RdComposite (inner : Message)
| RdBool
| RdInt (fn : IntFn) (ty : IntType)
| RdFloat (bits : u8)
| RdSkip (bits : u8)
| RdBits (capacity len : u64)
| RdBitsVar (capacity : u64) (length_bits : u8)
| RdArray (elements : list ReadExpr)
| RdVec (length_bits : u8) (max_len : u64) (element : ReadExpr).

(** The body of [deserialize]: a struct with the bits to skip before each field, or a match on
    the discriminant. *)
Inductive DeserializeCode :=
| DeZeroCopy
| DeStruct (fields : list (string * list u8 * ReadExpr))
| DeMatch (discriminant : IntFn) (arms : list (string * ReadExpr)).

(** The declaration of a struct, and its implementations. *)
Record TypeCode := mkTypeCode {
  tc_fields : list (string * ResolvedType);
  tc_extent_bytes : option u32;
  tc_size_bits : SizeCode;
  tc_serialize : SerializeCode;
  tc_deserialize : DeserializeCode;
}.

(** ** Meaning *)

(** What other code uses of a type: its implementations of the traits, and its values in
    memory, when it is [#[repr(C, packed)]]. *)
Record Impl := mkImpl {
  impl_extent : option u32;
  impl_size_bits : RustValue → usize;
  impl_serialize : profile → RustValue → WriteCursor → exec WriteCursor;
  impl_deserialize : profile → ReadCursor → exec (ReadCursor * result DeserializeError RustValue);
  impl_size_of : nat;
  impl_to_memory : RustValue → list u8;
  impl_from_memory : list u8 → RustValue;
}.

Definition impl_type (i : Impl) : DataType RustValue := {| EXTENT_BYTES := impl_extent i |}.
Definition impl_ser (i : Impl) : @Serialize RustValue (impl_type i) :=
  @Build_Serialize _ (impl_type i) (impl_size_bits i) (impl_serialize i).
Definition impl_de (i : Impl) : @Deserialize RustValue (impl_type i) :=
  @Build_Deserialize _ (impl_type i) (impl_deserialize i).

(** Rust's types exclude expressions without a value. *)
Definition no_value : RustValue := RArray [].

Definition int_of (v : RustValue) : Z := match v with RInt z => z | _ => 0 end.
Definition bool_of (v : RustValue) : bool := match v with RBool b => b | _ => false end.
Definition float_of (v : RustValue) : Z := match v with RFloat bits => bits | _ => 0 end.
Definition bits_of (v : RustValue) : BitArray := match v with RBits a => a | _ => mkBitArray [] 0 end.
Definition elements_of (v : RustValue) : list RustValue := match v with RArray l => l | _ => [] end.

(** [.len()] of arrays and of bit arrays. *)
Definition len_of (v : RustValue) : usize :=
  match v with RArray l => length l | RBits a => ba_len a | _ => 0 end.

Definition eval (self var : RustValue) (e : Expr) : RustValue :=
  match e with
  | ESelfField name => match self with RStruct fields => default no_value (field_of name fields) | _ => no_value end
  | EVar => var
  end.

(** Calls of the functions for integers. *)
Definition call_write (fn : IntFn) (p : profile) (c : WriteCursor) (z : Z) : exec WriteCursor :=
  match fn with
  | FnPlain bits => match write_fns !! Z.to_nat (bits - 1) with Some f => f p c z | None => Panic end
  | FnAligned bits =>
      if (bits =? 8)%Z then write_aligned_u8 c z
      else if (bits =? 16)%Z then write_aligned_u16 c z
      else if (bits =? 32)%Z then write_aligned_u32 c z
      else if (bits =? 64)%Z then write_aligned_u64 c z
      else Panic
  end.
Definition call_read (fn : IntFn) (p : profile) (c : ReadCursor) : exec (ReadCursor * Z) :=
  match fn with
  | FnPlain bits => match read_fns !! Z.to_nat (bits - 1) with Some f => f p c | None => Panic end
  | FnAligned bits =>
      if (bits =? 8)%Z then read_aligned_u8 c
      else if (bits =? 16)%Z then read_aligned_u16 c
      else if (bits =? 32)%Z then read_aligned_u32 c
      else if (bits =? 64)%Z then read_aligned_u64 c
      else Panic
  end.

(** [z as u16], [z as i16]. *)
Definition cast_int (ty : IntType) (z : Z) : Z :=
  if it_signed ty then as_signed (it_bits ty) (wrap (it_bits ty) z) else wrap (it_bits ty) z.

Definition eval_arg (self var : RustValue) (arg : IntArg) (cast : option u8) : Z :=
  let z :=
    match arg with
    | AExpr e => int_of (eval self var e)
    | ALen e => Z.of_nat (len_of (eval self var e))
    | ALit z => z
    end in
  match cast with Some bits => wrap bits z | None => z end.

Section meaning.
(** The implementations for the types of fields. *)
Context (inner : Message → Impl).

(** *** Memory *)

Definition scalar_size_of (ty : ResolvedScalarType) : nat :=
  match ty with
  | RComposite _ m => impl_size_of (inner m)
  | RPrimitive primitive => Z.to_nat (primitive_bit_length primitive / 8)
  | RVoid _ => 0
  end.
Definition scalar_to_memory (ty : ResolvedScalarType) (v : RustValue) : list u8 :=
  match ty with
  | RComposite _ m => impl_to_memory (inner m) v
  | RPrimitive (PInt bits | PUInt bits _) => to_le_bytes (Z.to_nat (bits / 8)) (wrap bits (int_of v))
  | RPrimitive p => to_le_bytes (Z.to_nat (primitive_bit_length p / 8)) (float_of v)
  | RVoid _ => []
  end.
Definition scalar_from_memory (ty : ResolvedScalarType) (l : list u8) : RustValue :=
  match ty with
  | RComposite _ m => impl_from_memory (inner m) l
  | RPrimitive (PInt bits) => RInt (as_signed bits (from_le_bytes l))
  | RPrimitive (PUInt bits _) => RInt (from_le_bytes l)
  | RPrimitive _ => RFloat (from_le_bytes l)
  | RVoid _ => no_value
  end.

Fixpoint chunks (n size : nat) (l : list u8) : list (list u8) :=
  match n with 0 => [] | S n => take size l :: chunks n size (drop size l) end.

Definition type_size_of (ty : ResolvedType) : nat :=
  match ty with
  | RScalar s => scalar_size_of s
  | RFixedArray s len => Z.to_nat len * scalar_size_of s
  | RVariableArray _ _ => 0
  end.
Definition type_to_memory (ty : ResolvedType) (v : RustValue) : list u8 :=
  match ty with
  | RScalar s => scalar_to_memory s v
  | RFixedArray s len => concat (scalar_to_memory s <$> elements_of v)
  | RVariableArray _ _ => []
  end.
Definition type_from_memory (ty : ResolvedType) (l : list u8) : RustValue :=
  match ty with
  | RScalar s => scalar_from_memory s l
  | RFixedArray s len => RArray (scalar_from_memory s <$> chunks (Z.to_nat len) (scalar_size_of s) l)
  | RVariableArray _ _ => no_value
  end.

Definition struct_size_of (fields : list (string * ResolvedType)) : nat :=
  sum_list_with (λ f, type_size_of (snd f)) fields.
Definition struct_to_memory (fields : list (string * ResolvedType)) (v : RustValue) : list u8 :=
  concat ((λ f, type_to_memory (snd f) (eval v no_value (ESelfField (fst f)))) <$> fields).
Fixpoint struct_from_memory (fields : list (string * ResolvedType)) (l : list u8) : list (string * RustValue) :=
  match fields with
  | [] => []
  | (name, ty) :: fields =>
      (name, type_from_memory ty (take (type_size_of ty) l)) :: struct_from_memory fields (drop (type_size_of ty) l)
  end.

(** *** [size_bits] *)

Fixpoint eval_size (self var : RustValue) (e : SizeExpr) : usize :=
  match e with
  | SzLit bits => Z.to_nat bits
  | SzAdd a b => eval_size self var a + eval_size self var b
  | SzLenTimes e bits => len_of (eval self var e) * Z.to_nat bits
  | SzSumElements e element => sum_list_with (λ x, eval_size self x element) (elements_of (eval self var e))
  | SzSizeBits m e => impl_size_bits (inner m) (eval self var e)
  end.

Fixpoint find_arm {A} (name : string) (arms : list (string * A)) : option A :=
  match arms with
  | [] => None
  | (n, a) :: arms => if bool_decide (n = name) then Some a else find_arm name arms
  end.

Definition run_size (code : SizeCode) (self : RustValue) : usize :=
  match code with
  | SizeOf e => eval_size self no_value e
  | SizeMatch bits arms =>
      match self with
      | REnum variant v => Z.to_nat bits + match find_arm variant arms with Some e => eval_size self v e | None => 0 end
      | _ => 0
      end
  end.

(** *** [serialize] *)

Fixpoint run_stmt (to_memory : RustValue → list u8) (p : profile) (self var : RustValue) (c : WriteCursor) (s : Stmt)
    : exec WriteCursor :=
  match s with
  | SWriteSelfBytes => write_aligned_bytes c (to_memory self)
  | SWriteComposite m e => @write_composite _ _ (impl_ser (inner m)) p c (eval self var e)
  | SWriteBool e => write_bool p c (bool_of (eval self var e))
  | SWriteInt fn arg cast => call_write fn p c (eval_arg self var arg cast)
  | SWriteFloat bits e =>
      let f := if (bits =? 16)%Z then write_f16 else if (bits =? 32)%Z then write_f32 else write_f64 in
      f p c (float_of (eval self var e))
  | SSkip bits => match wc_skip_fns !! Z.to_nat (bits - 1) with Some f => f c | None => Panic end
  | SSerializeBits capacity e => ba_serialize (Z.to_nat capacity) p (bits_of (eval self var e)) c
  | SForEach e body => write_elements (λ c x, run_stmt to_memory p self x c body) c (elements_of (eval self var e))
  | SWriteBytes e => write_bytes p c (int_of <$> elements_of (eval self var e))
  end.

Fixpoint run_stmts (to_memory : RustValue → list u8) (p : profile) (self var : RustValue) (c : WriteCursor) (l : list Stmt)
    : exec WriteCursor :=
  match l with
  | [] => Ret c
  | s :: l => c ← run_stmt to_memory p self var c s; run_stmts to_memory p self var c l
  end.

Definition run_serialize (to_memory : RustValue → list u8) (code : SerializeCode) (p : profile) (self : RustValue)
    (c : WriteCursor) : exec WriteCursor :=
  match code with
  | SerStruct body => run_stmts to_memory p self no_value c body
  | SerMatch arms =>
      match self with
      | REnum variant v =>
          match find_arm variant arms with Some body => run_stmts to_memory p self v c body | None => Panic end
      | _ => Panic
      end
  end.

(** *** [deserialize] *)

(** [[a, b, ..]]: the elements in order. *)
Fixpoint read_all (l : list (ReadCursor → exec (ReadCursor * result DeserializeError RustValue))) (c : ReadCursor)
    : exec (ReadCursor * result DeserializeError (list RustValue)) :=
  match l with
  | [] => Ret (c, Ok [])
  | f :: l => try_read (f c) (λ x c, try_read (read_all l c) (λ xs c, Ret (c, Ok (x :: xs))))
  end.

(** [for _ in 0..length { let _ = elements.push(..); }]. *)
Fixpoint push_all (f : ReadCursor → exec (ReadCursor * result DeserializeError RustValue)) (max_len : u64) (n : nat)
    (c : ReadCursor) (elements : list RustValue) : exec (ReadCursor * result DeserializeError (list RustValue)) :=
  match n with
  | 0 => Ret (c, Ok elements)
  | S n => try_read (f c) (λ x c, push_all f max_len n c (push_ignoring (Z.to_nat max_len) elements x))
  end.

(** The target of [as _] is [i32] where nothing but literals and a range depend on it. *)
Definition i32_type : IntType := mkIntType true 32.

Fixpoint run_read (p : profile) (e : ReadExpr) (c : ReadCursor) : exec (ReadCursor * result DeserializeError RustValue) :=
  match e with
  | RdComposite m => @read_composite _ _ (impl_de (inner m)) p c
  | RdBool => '(c, b) ← read_bool p c; Ret (c, Ok (RBool b))
  | RdInt fn ty => '(c, z) ← call_read fn p c; Ret (c, Ok (RInt (cast_int ty z)))
  | RdFloat bits =>
      let f := if (bits =? 16)%Z then read_f16 else if (bits =? 32)%Z then read_f32 else read_f64 in
      '(c, z) ← f p c; Ret (c, Ok (RFloat z))
  | RdSkip bits =>
      match rc_skip_fns !! Z.to_nat (bits - 1) with Some f => Ret (f c, Ok no_value) | None => Panic end
  | RdBits capacity len =>
      '(a, c) ← ba_deserialize (Z.to_nat capacity) p (Z.to_nat len) c; Ret (c, Ok (RBits a))
  | RdBitsVar capacity length_bits =>
      '(c, length) ← call_read (FnPlain length_bits) p c;
      '(a, c) ← ba_deserialize (Z.to_nat capacity) p (Z.to_nat length) c; Ret (c, Ok (RBits a))
  | RdArray elements => try_read (read_all (run_read p <$> elements) c) (λ l c, Ret (c, Ok (RArray l)))
  | RdVec length_bits max_len element =>
      '(c, length) ← call_read (FnPlain length_bits) p c;
      let length := cast_int i32_type length in
      if (length <=? max_len)%Z then
        try_read (push_all (run_read p element) max_len (Z.to_nat length) c []) (λ l c, Ret (c, Ok (RArray l)))
      else Ret (c, Err EncFields.ArrayLength)
  end.

Fixpoint skip_all (l : list u8) (c : ReadCursor) : exec ReadCursor :=
  match l with
  | [] => Ret c
  | bits :: l => match rc_skip_fns !! Z.to_nat (bits - 1) with Some f => skip_all l (f c) | None => Panic end
  end.

Fixpoint read_fields (p : profile) (fields : list (string * list u8 * ReadExpr)) (c : ReadCursor)
    : exec (ReadCursor * result DeserializeError (list (string * RustValue))) :=
  match fields with
  | [] => Ret (c, Ok [])
  | (name, skips, e) :: fields =>
      c ← skip_all skips c;
      try_read (run_read p e c) (λ v c, try_read (read_fields p fields c) (λ l c, Ret (c, Ok ((name, v) :: l))))
  end.

Definition run_deserialize (struct_fields : list (string * ResolvedType)) (code : DeserializeCode) (p : profile)
    (c : ReadCursor) : exec (ReadCursor * result DeserializeError RustValue) :=
  match code with
  | DeZeroCopy =>
      '(c, bytes) ← deserialize_zero_copy (struct_size_of struct_fields) c;
      Ret (c, Ok (RStruct (struct_from_memory struct_fields bytes)))
  | DeStruct fields => try_read (read_fields p fields c) (λ l c, Ret (c, Ok (RStruct l)))
  | DeMatch fn arms =>
      '(c, tag) ← call_read fn p c;
      match arms !! Z.to_nat tag with
      | Some (name, e) => try_read (run_read p e c) (λ v c, Ret (c, Ok (REnum name v)))
      | None => Ret (c, Err UnionTag)
      end
  end.

Definition run_type (code : TypeCode) : Impl := {|
  impl_extent := tc_extent_bytes code;
  impl_size_bits := run_size (tc_size_bits code);
  impl_serialize := run_serialize (struct_to_memory (tc_fields code)) (tc_serialize code);
  impl_deserialize := run_deserialize (tc_fields code) (tc_deserialize code);
  impl_size_of := struct_size_of (tc_fields code);
  impl_to_memory := struct_to_memory (tc_fields code);
  impl_from_memory l := RStruct (struct_from_memory (tc_fields code) l);
|}.
End meaning.
