(* ===== verification/RustGen.v ===== *)
(** * The Rust code generator

    Models [canadensis_codegen_rust/src]: the intermediate types, the names and the module tree
    of [lib.rs] and [module_tree.rs], and the implementations that [impl_serialize.rs],
    [impl_deserialize.rs], [size_bits.rs] and [impl_data_type.rs] print for a type. A panic is
    one of the generator. Documentation comments, derived traits, constants and the test of
    the layout, which it prints as well, are left out. *)

From stdpp Require Import strings pretty gmap.
From S2P Require Import Prelude BitLengths DsdlTypes RustCode.

Open Scope Z_scope.

(** ** Names *)

(** Names of packages and the Rust modules with their code. *)
Abbreviation ExternalPackages := (gmap (list string) (list string)).

(** The loop of [external_module], from prefixes of length [i] down. *)
Fixpoint external_module_from (package : list string) (external_packages : ExternalPackages) (i : nat)
    : option (list string) :=
  match i with
  | O => None
  | S i' =>
      match external_packages !! take i package with
      | Some rust_module => Some (rust_module ++ drop i package)
      | None => external_module_from package external_packages i'
      end
  end.
Definition external_module (package : list string) (external_packages : ExternalPackages) : option (list string) :=
  external_module_from package external_packages (length package).

Record RustTypeName := mkRustTypeName {
  internal : bool;
  rtn_path : list string;
  type_name : string;
}.

Definition make_rust_identifier (identifier : string) : string :=
  if bool_decide (identifier = "_"%string) then "_0"%string else identifier.

(** [Display] of a type key. *)
Definition TypeKey_to_string (key : TypeKey) : string :=
  String.concat "."%string (tfn_path (tk_name key) ++ [tfn_name (tk_name key);
    pretty (major (tk_version key)); pretty (minor (tk_version key))]).

(** ** Intermediate types *)

(** The text of a Rust type. *)
Inductive RustType :=
| RTBool | RTUnit
| RTInt (ty : IntType)
| RTFloat (bits : u8)
| RTNamed (name : RustTypeName)
| RTArray (element : RustType) (len : u64)
| RTVec (element : RustType) (capacity : u64)
| RTBitArray (bytes : u64).

Record GeneratedDataField := mkGeneratedDataField {
  gdf_name : string;
  gdf_ty : RustType;
  gdf_uavcan_ty : ResolvedType;
  gdf_always_aligned : bool;
}.

Inductive GeneratedField :=
| GData (field : GeneratedDataField)
| GPadding (bits : u8).

Record GeneratedVariant := mkGeneratedVariant {
  gv_name : string;
  gv_ty : RustType;
  gv_uavcan_ty : ResolvedType;
}.

Inductive GeneratedTypeKind :=
| GStruct (fields : list GeneratedField)
| GEnum (discriminant_bits : u8) (variants : list GeneratedVariant).

Inductive MessageRole := RoleMessage | RoleRequest | RoleResponse.

Record GeneratedType := mkGeneratedType {
  uavcan_name : string;
  gt_name : RustTypeName;
  gt_size : BitLengthSet;
  gt_extent : Extent;
  gt_role : MessageRole;
  gt_kind : GeneratedTypeKind;
  gt_constants : Constants;
}.

Definition round_up_integer_size (bits : u8) : exec u8 :=
  if bits <=? 8 then Ret 8 else if bits <=? 16 then Ret 16 else if bits <=? 32 then Ret 32
  else if bits <=? 64 then Ret 64 else Panic.

Definition is_boolean (ty : ResolvedScalarType) : bool :=
  match ty with RPrimitive PBoolean => true | _ => false end.

(** The bytes of the bit array for an array of [len] Booleans. *)
Definition bit_array_capacity (len : u64) : u64 := (len + 7) / 8.

Section generator.
(** The case conversions of the crate heck; the generator's own build. *)
Context (to_camel_case to_snake_case : string → string).
Context `{Combinatorics} (p : profile) (usize_bits : Z).

Definition RustTypeName_for_message_type (key : TypeKey) (external_packages : ExternalPackages) : RustTypeName :=
  let version_module :=
    (to_snake_case (tfn_name (tk_name key)) +:+ "_" +:+ pretty (major (tk_version key)) +:+ "_" +:+
     pretty (minor (tk_version key)))%string in
  let name := make_rust_identifier (tfn_name (tk_name key)) in
  match external_module (tfn_path (tk_name key)) external_packages with
  | Some external => mkRustTypeName false (external ++ [version_module]) name
  | None => mkRustTypeName true ((make_rust_identifier <$> tfn_path (tk_name key)) ++ [version_module]) name
  end.

Definition ServiceTypeNames_for_service_type (key : TypeKey) (external_packages : ExternalPackages)
    : RustTypeName * RustTypeName :=
  let base := RustTypeName_for_message_type key external_packages in
  let with_suffix suffix := mkRustTypeName (internal base) (rtn_path base) (type_name base +:+ suffix)%string in
  (with_suffix "Request"%string, with_suffix "Response"%string).

Definition scalar_to_rust_type (scalar : ResolvedScalarType) (external_packages : ExternalPackages) : exec RustType :=
  match scalar with
  | RComposite key _ => Ret (RTNamed (RustTypeName_for_message_type key external_packages))
  | RPrimitive primitive =>
      match primitive with
      | PBoolean => Ret RTBool
      | PInt bits => size ← round_up_integer_size bits; Ret (RTInt (mkIntType true size))
      | PUInt bits _ => size ← round_up_integer_size bits; Ret (RTInt (mkIntType false size))
      | PFloat16 _ => Ret (RTFloat 16)
      | PFloat32 _ => Ret (RTFloat 32)
      | PFloat64 _ => Ret (RTFloat 64)
      end
  | RVoid _ => Ret RTUnit
  end.

Definition to_rust_type (ty : ResolvedType) (external_packages : ExternalPackages) : exec RustType :=
  match ty with
  | RScalar scalar => scalar_to_rust_type scalar external_packages
  | RFixedArray inner len =>
      if is_boolean inner then n ← arith p 64 (len + 7); Ret (RTBitArray (n / 8))
      else element ← scalar_to_rust_type inner external_packages; Ret (RTArray element len)
  | RVariableArray inner max_len =>
      if is_boolean inner then n ← arith p 64 (max_len + 7); Ret (RTBitArray (n / 8))
      else element ← scalar_to_rust_type inner external_packages; Ret (RTVec element max_len)
  end.

Definition GeneratedField_data (ty : ResolvedType) (name : string) (always_aligned : bool)
    (external_packages : ExternalPackages) : exec GeneratedField :=
  rust_type ← to_rust_type ty external_packages;
  Ret (GData (mkGeneratedDataField (make_rust_identifier name) rust_type ty always_aligned)).

Definition GeneratedField_from (external_packages : ExternalPackages) (field : Field) : exec GeneratedField :=
  match field_kind field with
  | PaddingField bits => Ret (GPadding bits)
  | DataField ty name => GeneratedField_data ty name (always_aligned field) external_packages
  end.

Definition GeneratedVariant_new (ty : ResolvedType) (name : string) (external_packages : ExternalPackages)
    : exec GeneratedVariant :=
  rust_type ← to_rust_type ty external_packages;
  Ret (mkGeneratedVariant (to_camel_case (make_rust_identifier name)) rust_type ty).

Definition generate_rust_type (key : TypeKey) (message : Message) (rust_type : RustTypeName) (extent : Extent)
    (role : MessageRole) (external_packages : ExternalPackages) : exec GeneratedType :=
  kind ←
    match msg_kind message with
    | Struct fields =>
        fields ← mapM (GeneratedField_from external_packages) fields; Ret (GStruct fields)
    | UnionOf discriminant_bits variants =>
        variants ← mapM (λ v, GeneratedVariant_new (variant_ty v) (variant_name v) external_packages) variants;
        Ret (GEnum discriminant_bits variants)
    end;
  Ret (mkGeneratedType (TypeKey_to_string key) rust_type (msg_bit_length message) extent role kind
    (msg_constants message)).

(** *** Zero-copy types *)

(** The types of fields, with [message_supports_zero_copy] for the composite ones. *)
Definition scalar_supports_zero_copy (message_supports : Message → exec bool) (scalar : ResolvedScalarType) : exec bool :=
  match scalar with
  | RComposite _ inner => message_supports inner
  | RPrimitive primitive =>
      match primitive with
      | PBoolean => Ret false
      | PInt bits | PUInt bits _ =>
          Ret ((bits =? 8) || (bits =? 16) || (bits =? 32) || (bits =? 64))
      | PFloat16 _ | PFloat32 _ | PFloat64 _ => Ret true
      end
  | RVoid _ => Ret false
  end.
Definition type_supports_zero_copy (message_supports : Message → exec bool) (ty : ResolvedType) : exec bool :=
  match ty with
  | RScalar scalar => scalar_supports_zero_copy message_supports scalar
  | RFixedArray inner _ => scalar_supports_zero_copy message_supports inner
  | RVariableArray _ _ => Ret false
  end.

(** A loop that returns false at the first element for which [f] does. *)
Fixpoint all_exec {A} (f : A → exec bool) (l : list A) : exec bool :=
  match l with
  | [] => Ret true
  | x :: l => b ← f x; if b : bool then all_exec f l else Ret false
  end.

Fixpoint message_supports_zero_copy (message : Message) : exec bool :=
  let 'mkMessage _ _ kind bit_length _ := message in
  fixed ← is_fixed_size p bit_length;
  if negb fixed then Ret false else
  match kind with
  | Struct fields =>
      all_exec (λ field,
        let 'mkField kind aligned := field in
        if negb aligned then Ret false else
        match kind with
        | PaddingField _ => Ret false
        | DataField ty _ =>
            match ty with
            | RScalar (RComposite _ inner) | RFixedArray (RComposite _ inner) _ => message_supports_zero_copy inner
            | ty => type_supports_zero_copy (λ _, Ret false) ty
            end
        end) fields
  | UnionOf _ _ => Ret false
  end.

Definition supports_zero_copy (self : GeneratedType) : exec bool :=
  match gt_kind self with
  | GStruct fields =>
      fixed ← is_fixed_size p (gt_size self);
      if negb fixed then Ret false else
      all_exec (λ field,
        match field with
        | GData field => type_supports_zero_copy message_supports_zero_copy (gdf_uavcan_ty field)
        | GPadding _ => Ret false
        end) fields
  | GEnum _ _ => Ret false
  end.

(** *** [Serialize] *)

(** A call of a function for integers; [as_uint] is a cast to the unsigned type of the size. *)
Definition uint_cast (as_uint : bool) (bits : u8) : exec (option u8) :=
  if as_uint then size ← round_up_integer_size bits; Ret (Some size) else Ret None.

Definition aligned_fn (bits : u8) : exec IntFn :=
  if bits =? 0 then Panic
  else if (bits =? 8) || (bits =? 16) || (bits =? 32) || (bits =? 64) then Ret (FnAligned bits)
  else if bits <=? 63 then Ret (FnPlain bits)
  else Panic.

Definition CallWriteAligned (bits : u8) (name : IntArg) (as_uint : bool) : exec Stmt :=
  function_name ← aligned_fn bits;
  cast ← uint_cast as_uint bits;
  Ret (SWriteInt function_name name cast).

Definition CallWrite (bits : u8) (name : IntArg) (as_uint : bool) : exec Stmt :=
  cast ← uint_cast as_uint bits;
  Ret (SWriteInt (FnPlain bits) name cast).

Definition WriteArrayElements (element_type : ResolvedScalarType) (array_expr : Expr) : exec Stmt :=
  match element_type with
  | RComposite _ inner => Ret (SForEach array_expr (SWriteComposite inner EVar))
  | RPrimitive primitive =>
      match primitive with
      | PBoolean => Ret (SForEach array_expr (SWriteBool EVar))
      | PInt bits => body ← CallWrite bits (AExpr EVar) true; Ret (SForEach array_expr body)
      | PUInt bits _ =>
          if bits =? 8 then Ret (SWriteBytes array_expr)
          else body ← CallWrite bits (AExpr EVar) false; Ret (SForEach array_expr body)
      | PFloat16 _ => Ret (SForEach array_expr (SWriteFloat 16 EVar))
      | PFloat32 _ => Ret (SForEach array_expr (SWriteFloat 32 EVar))
      | PFloat64 _ => Ret (SForEach array_expr (SWriteFloat 64 EVar))
      end
  | RVoid _ => Panic
  end.

(** [WriteAlignedField] and [WriteUnalignedField], which differ in [call], the function for
    integers. *)
Definition WriteField (call : u8 → IntArg → bool → exec Stmt) (field_expr : Expr) (ty : ResolvedType) : exec (list Stmt) :=
  match ty with
  | RScalar scalar =>
      s ←
        match scalar with
        | RComposite _ inner => Ret (SWriteComposite inner field_expr)
        | RPrimitive primitive =>
            match primitive with
            | PBoolean => Ret (SWriteBool field_expr)
            | PInt bits => call bits (AExpr field_expr) true
            | PUInt bits _ => call bits (AExpr field_expr) false
            | PFloat16 _ => Ret (SWriteFloat 16 field_expr)
            | PFloat32 _ => Ret (SWriteFloat 32 field_expr)
            | PFloat64 _ => Ret (SWriteFloat 64 field_expr)
            end
        | RVoid bits => Ret (SSkip bits)
        end;
      Ret [s]
  | RFixedArray inner len =>
      if is_boolean inner then Ret [SSerializeBits (bit_array_capacity len) field_expr]
      else s ← WriteArrayElements inner field_expr; Ret [s]
  | RVariableArray inner max_len =>
      if is_boolean inner then Ret [SSerializeBits (bit_array_capacity max_len) field_expr]
      else
        match implicit_field ty with
        | Some (ArrayLength bits) =>
            n ← call bits (ALen field_expr) true;
            s ← WriteArrayElements inner field_expr;
            Ret [n; s]
        | _ => Panic
        end
  end.
Definition WriteAlignedField : Expr → ResolvedType → exec (list Stmt) := WriteField CallWriteAligned.
Definition WriteUnalignedField : Expr → ResolvedType → exec (list Stmt) := WriteField CallWrite.

Definition SerializeField (field : GeneratedField) : exec (list Stmt) :=
  match field with
  | GData data =>
      (if gdf_always_aligned data then WriteAlignedField else WriteUnalignedField)
        (ESelfField (gdf_name data)) (gdf_uavcan_ty data)
  | GPadding bits => Ret [SSkip bits]
  end.

Definition WriteVariant (ty : ResolvedType) : exec (list Stmt) :=
  match ty with
  | RScalar (RComposite _ inner) => Ret [SWriteComposite inner EVar]
  | other => WriteAlignedField EVar other
  end.

(** The arm of the variant number [i]. *)
Definition serialize_arm (discriminant_bits : u8) (i : nat) (variant : GeneratedVariant) : exec (string * list Stmt) :=
  body ← WriteVariant (gv_uavcan_ty variant);
  Ret (gv_name variant, SWriteInt (FnAligned discriminant_bits) (ALit (Z.of_nat i)) None :: body).

Fixpoint mapi_exec {A B} (f : nat → A → exec B) (i : nat) (l : list A) : exec (list B) :=
  match l with
  | [] => Ret []
  | x :: l => y ← f i x; ys ← mapi_exec f (S i) l; Ret (y :: ys)
  end.

Definition ImplementSerialize (ty : GeneratedType) (zero_copy : bool) : exec SerializeCode :=
  match gt_kind ty with
  | GStruct fields =>
      if zero_copy then Ret (SerStruct [SWriteSelfBytes])
      else body ← mapM SerializeField fields; Ret (SerStruct (concat body))
  | GEnum discriminant_bits variants =>
      arms ← mapi_exec (serialize_arm discriminant_bits) 0 variants; Ret (SerMatch arms)
  end.

(** *** [size_bits] *)

Definition WriteScalarSize (ty : ResolvedScalarType) (expr : Expr) : exec SizeExpr :=
  match ty with
  | RComposite _ inner =>
      inner_min_size ← min_value p (msg_bit_length inner);
      inner_max_size ← max_value p (msg_bit_length inner);
      let size := if inner_min_size =? inner_max_size then SzLit inner_min_size else SzSizeBits inner expr in
      Ret (match msg_extent inner with Delimited _ => SzAdd (SzLit 32) size | Sealed => size end)
  | RPrimitive primitive => Ret (SzLit (primitive_bit_length primitive))
  | RVoid bits => Ret (SzLit bits)
  end.

Definition WriteArrayElementSizes (ty : ResolvedScalarType) (expr : Expr) : exec SizeExpr :=
  let element_size := scalar_size ty in
  size_min ← min_value p element_size;
  size_max ← max_value p element_size;
  if size_min =? size_max then
    element_size ←
      match scalar_extent ty with
      | Delimited _ => arith p 64 (32 + size_min)
      | Sealed => Ret size_min
      end;
    Ret (SzLenTimes expr element_size)
  else element ← WriteScalarSize ty EVar; Ret (SzSumElements expr element).

Definition WriteFieldSize (ty : ResolvedType) (expr : Expr) : exec SizeExpr :=
  match ty with
  | RScalar scalar => WriteScalarSize scalar expr
  | RFixedArray inner _ => WriteArrayElementSizes inner expr
  | RVariableArray inner _ =>
      match implicit_field ty with
      | Some (ArrayLength bits) => elements ← WriteArrayElementSizes inner expr; Ret (SzAdd (SzLit bits) elements)
      | _ => Panic
      end
  end.

Fixpoint struct_size (fields : list GeneratedField) : exec SizeExpr :=
  match fields with
  | [] => Ret (SzLit 0)
  | field :: fields =>
      size ←
        match field with
        | GData field => WriteFieldSize (gdf_uavcan_ty field) (ESelfField (gdf_name field))
        | GPadding bits => Ret (SzLit bits)
        end;
      rest ← struct_size fields;
      Ret (SzAdd size rest)
  end.

Definition write_complex_size_expression (ty : GeneratedType) : exec SizeCode :=
  match gt_kind ty with
  | GStruct fields => size ← struct_size fields; Ret (SizeOf size)
  | GEnum discriminant_bits variants =>
      arms ← mapM (λ v, size ← WriteFieldSize (gv_uavcan_ty v) EVar; Ret (gv_name v, size)) variants;
      Ret (SizeMatch discriminant_bits arms)
  end.

Definition SizeBitsExpr (ty : GeneratedType) : exec SizeCode :=
  size_min ← min_value p (gt_size ty);
  size_max ← max_value p (gt_size ty);
  if size_min =? size_max then Ret (SizeOf (SzLit size_min)) else write_complex_size_expression ty.

(** *** [Deserialize] *)

Definition CallRead (bits : u8) (ty : IntType) : ReadExpr := RdInt (FnPlain bits) ty.

(** The type of an integer, which is that of the field. *)
Definition int_type (signed : bool) (bits : u8) : exec IntType :=
  size ← round_up_integer_size bits; Ret (mkIntType signed size).

Definition ReadUnalignedScalar (ty : ResolvedScalarType) : exec ReadExpr :=
  match ty with
  | RComposite _ inner => Ret (RdComposite inner)
  | RPrimitive primitive =>
      match primitive with
      | PBoolean => Ret RdBool
      | PInt bits => ty ← int_type true bits; Ret (CallRead bits ty)
      | PUInt bits _ => ty ← int_type false bits; Ret (CallRead bits ty)
      | PFloat16 _ => Ret (RdFloat 16)
      | PFloat32 _ => Ret (RdFloat 32)
      | PFloat64 _ => Ret (RdFloat 64)
      end
  | RVoid bits => Ret (RdSkip bits)
  end.

Definition ReadUnalignedField (ty : ResolvedType) : exec ReadExpr :=
  match ty with
  | RScalar scalar => ReadUnalignedScalar scalar
  | RFixedArray inner len =>
      if is_boolean inner then Ret (RdBits (bit_array_capacity len) len)
      else element ← ReadUnalignedScalar inner; Ret (RdArray (replicate (Z.to_nat len) element))
  | RVariableArray inner max_len =>
      match implicit_field ty with
      | Some (ArrayLength bits) =>
          if is_boolean inner then Ret (RdBitsVar (bit_array_capacity max_len) bits)
          else element ← ReadUnalignedScalar inner; Ret (RdVec bits max_len element)
      | _ => Panic
      end
  end.

(** The loop over the fields, with the padding that is not yet skipped. *)
Fixpoint deserialize_struct (fields : list GeneratedField) (padding_before_data : list u8)
    : exec (list (string * list u8 * ReadExpr)) :=
  match fields with
  | [] => Ret []
  | GData field :: fields =>
      e ← ReadUnalignedField (gdf_uavcan_ty field);
      rest ← deserialize_struct fields [];
      Ret ((gdf_name field, padding_before_data, e) :: rest)
  | GPadding bits :: fields => deserialize_struct fields (padding_before_data ++ [bits])
  end.

Definition deserialize_enum (discriminant_bits : u8) (variants : list GeneratedVariant) : exec DeserializeCode :=
  fn ← aligned_fn discriminant_bits;
  arms ← mapM (λ v, e ← ReadUnalignedField (gv_uavcan_ty v); Ret (gv_name v, e)) variants;
  Ret (DeMatch fn arms).

Definition ImplementDeserialize (ty : GeneratedType) (zero_copy : bool) : exec DeserializeCode :=
  match gt_kind ty with
  | GStruct fields =>
      if zero_copy then Ret DeZeroCopy
      else fields ← deserialize_struct fields []; Ret (DeStruct fields)
  | GEnum discriminant_bits variants => deserialize_enum discriminant_bits variants
  end.

(** *** [DataType], and everything together *)

Definition ImplementDataType (ty : GeneratedType) : exec (option u32) :=
  match gt_extent ty with
  | Sealed => Ret None
  | Delimited extent_bits =>
      let extent_bytes := extent_bits / 8 in
      assert_ (is_ub 32 extent_bytes);;
      Ret (Some extent_bytes)
  end.

(** The fields of the struct that is declared. *)
Definition struct_fields (ty : GeneratedType) : list (string * ResolvedType) :=
  match gt_kind ty with
  | GStruct fields =>
      omap (λ f, match f with GData f => Some (gdf_name f, gdf_uavcan_ty f) | GPadding _ => None end) fields
  | GEnum _ _ => []
  end.

(** [Display] of a generated type. *)
Definition GeneratedType_fmt (self : GeneratedType) : exec TypeCode :=
  zero_copy ← supports_zero_copy self;
  extent_bytes ← ImplementDataType self;
  size ← SizeBitsExpr self;
  ser ← ImplementSerialize self zero_copy;
  de ← ImplementDeserialize self zero_copy;
  Ret (mkTypeCode (struct_fields self) extent_bytes size ser de).
End generator.

(** ** Modules *)

Inductive GeneratedItem :=
| ItemType (ty : GeneratedType)
| ItemConstant (name : RustTypeName) (ty value : string).

Definition item_name (self : GeneratedItem) : RustTypeName :=
  match self with
  | ItemType ty => gt_name ty
  | ItemConstant name _ _ => name
  end.

(** The children are in the order of their names. *)
Inductive ModuleTree := mkModuleTree (items : list GeneratedItem) (children : list (string * ModuleTree)).

Definition ModuleTree_default : ModuleTree := mkModuleTree [] [].

(** [f] of the child with the name, which is the default one if there is none:
    [*self.children.entry(name).or_default()] before and after. *)
Fixpoint update_child (name : string) (f : ModuleTree → ModuleTree) (children : list (string * ModuleTree))
    : list (string * ModuleTree) :=
  match children with
  | [] => [(name, f ModuleTree_default)]
  | (n, tree) :: children' =>
      match String.compare name n with
      | Lt => (name, f ModuleTree_default) :: children
      | Eq => (n, f tree) :: children'
      | Gt => (n, tree) :: update_child name f children'
      end
  end.

Fixpoint add_item (path : list string) (generated : GeneratedItem) (self : ModuleTree) : ModuleTree :=
  let 'mkModuleTree items children := self in
  match path with
  | [] => mkModuleTree (items ++ [generated]) children
  | submodule :: rest_of_path =>
      mkModuleTree items (update_child submodule (add_item rest_of_path generated) children)
  end.

Definition ModuleTree_from_iter (l : list GeneratedItem) : ModuleTree :=
  foldl (λ tree generated_item, add_item (rtn_path (item_name generated_item)) generated_item tree) ModuleTree_default l.

Section modules.
Context (to_camel_case to_snake_case : string → string) `{Combinatorics} (p : profile).

Definition port_constant (path : list string) (name ty : string) (id : u32) : GeneratedItem :=
  ItemConstant (mkRustTypeName true path name) ("::canadensis_core::" +:+ ty)%string
    ("::canadensis_core::" +:+ ty +:+ "::from_truncating(" +:+ pretty id +:+ ")")%string.

Definition generate_from_dsdl (key : TypeKey) (dsdl : CompiledDsdl) (external_packages : ExternalPackages)
    : exec (list GeneratedItem) :=
  match dsdl_kind dsdl with
  | KindMessage message =>
      let rust_type := RustTypeName_for_message_type to_snake_case key external_packages in
      let constant :=
        match fixed_port_id dsdl with
        | Some subject_id => [port_constant (rtn_path rust_type) "SUBJECT" "SubjectId" subject_id]
        | None => []
        end in
      ty ← generate_rust_type to_camel_case to_snake_case p key message rust_type (msg_extent message) RoleMessage
        external_packages;
      Ret (constant ++ [ItemType ty])
  | KindService request response =>
      let '(request_type, response_type) := ServiceTypeNames_for_service_type to_snake_case key external_packages in
      let constant :=
        match fixed_port_id dsdl with
        | Some service_id => [port_constant (rtn_path request_type) "SERVICE" "ServiceId" service_id]
        | None => []
        end in
      req ← generate_rust_type to_camel_case to_snake_case p key request request_type (msg_extent request) RoleRequest
        external_packages;
      resp ← generate_rust_type to_camel_case to_snake_case p key response response_type (msg_extent response)
        RoleResponse external_packages;
      Ret (constant ++ [ItemType req; ItemType resp])
  end.

Fixpoint generate_items (package : list (TypeKey * CompiledDsdl)) (external_packages : ExternalPackages)
    : exec (list GeneratedItem) :=
  match package with
  | [] => Ret []
  | (key, dsdl) :: package =>
      match external_module (tfn_path (tk_name key)) external_packages with
      | None =>
          items ← generate_from_dsdl key dsdl external_packages;
          rest ← generate_items package external_packages;
          Ret (items ++ rest)
      | Some _ => generate_items package external_packages
      end
  end.

Definition generate_code (package : list (TypeKey * CompiledDsdl)) (external_packages : ExternalPackages)
    : exec ModuleTree :=
  generated_types ← generate_items package external_packages;
  Ret (ModuleTree_from_iter generated_types).

(** ** The implementations of a message *)

(** The code that is generated for a message. *)
Definition message_code (key : TypeKey) (rust_type : RustTypeName) (role : MessageRole)
    (external_packages : ExternalPackages) (message : Message) : exec TypeCode :=
  ty ← generate_rust_type to_camel_case to_snake_case p key message rust_type (msg_extent message) role external_packages;
  GeneratedType_fmt p ty.

(** What the code for a message, and the code for the messages in it, does; [fuel] is a bound
    on the depth of nesting. The names of types do not matter for it. *)
Definition no_impl : Impl :=
  mkImpl None (λ _, 0%nat) (λ _ _ _, Panic) (λ _ _, Panic) 0 (λ _, []) (λ _, no_value).

Definition some_version : TypeVersion := mkTypeVersion 1 0.
Definition some_full_name : TypeFullName := mkTypeFullName [] EmptyString.
Definition some_key : TypeKey := mkTypeKey some_full_name some_full_name some_version.
Definition some_name : RustTypeName := mkRustTypeName true [] EmptyString.

Fixpoint message_impl (fuel : nat) (message : Message) : Impl :=
  match fuel with
  | O => no_impl
  | S fuel =>
      match message_code some_key some_name RoleMessage ∅ message with
      | Ret code => run_type (message_impl fuel) code
      | Panic => no_impl
      end
  end.
End modules.
