(* ===== verification/BitStreams.v ===== *)
(** * Writing and reading given bits

    [writes]: a function appends exactly the given bits to a cursor; [reads]: a function takes
    the given bits from a cursor and returns a value, in any build. A serializer and a
    deserializer that agree with the same bits undo each other; the relations compose along the
    steps of each, which may start at any position [k] in the message. *)

From S2P Require Import Prelude EncCursor EncFields EncCursorSpec EncFieldsSpec EncBits.
From S2P Require Import NodeSpec DataTypesSpec RegisterTypes RegisterTypesSpec Codec.

(** ** Bits *)

(** The bits of an integer, least significant first. *)
Definition z_bits (n : nat) (z : Z) : list bool := (λ i, Z.testbit z (Z.of_nat i)) <$> seq 0 n.
Definition zeros (n : nat) : list bool := replicate n false.
(** Padding from bit [k] to the next byte. *)
Definition pad_bits (k : nat) : nat := (8 - k mod 8) mod 8.

Lemma length_z_bits n z : length (z_bits n z) = n.
Proof. unfold z_bits. by rewrite length_fmap, length_seq. Qed.
Lemma length_zeros n : length (zeros n) = n.
Proof. apply length_replicate. Qed.
Lemma lookup_z_bits n z i : i < n → z_bits n z !! i = Some (Z.testbit z (Z.of_nat i)).
Proof. intros Hi. unfold z_bits. rewrite list_lookup_fmap, lookup_seq_lt by done. done. Qed.
Lemma z_bits_wrap n z : z_bits n (wrap (Z.of_nat n) z) = z_bits n z.
Proof.
  apply list_eq_same_length with n; [apply length_z_bits..|]. intros i x y Hi.
  rewrite !lookup_z_bits by done. intros [= <-] [= <-]. rewrite testbit_wrap, bool_decide_true by lia. done.
Qed.
Lemma zeros_app n m : zeros n ++ zeros m = zeros (n + m).
Proof. unfold zeros. by rewrite replicate_add. Qed.
Lemma z_bits_app n m z : z_bits (n + m) z = z_bits n z ++ z_bits m (Z.shiftr z (Z.of_nat n)).
Proof.
  unfold z_bits. rewrite seq_app, fmap_app. f_equal. rewrite (Nat.add_comm 0 n), <- (fmap_add_seq n 0 m), <- list_fmap_compose.
  apply list_fmap_ext. intros i x _. cbn. rewrite Z.shiftr_spec by lia. f_equal. lia.
Qed.

Lemma pad_bits_0 k : k mod 8 = 0 → pad_bits k = 0.
Proof. unfold pad_bits. by intros ->. Qed.
Lemma pad_bits_spec k : (k + pad_bits k) mod 8 = 0.
Proof. unfold pad_bits. dlia. Qed.
Lemma pad_bits_lt k : pad_bits k < 8.
Proof. unfold pad_bits. dlia. Qed.

(** ** Writing *)

(** [c'] is [c] with the bits at its end. *)
Definition emitted (c c' : WriteCursor) (bits : list bool) : Prop :=
  wc_ok c' ∧ length (wc_bytes c') = length (wc_bytes c) ∧ bits_written c' = bits_written c + length bits ∧
  (∀ i, i < bits_written c → bit_at (wc_bytes c') i = bit_at (wc_bytes c) i) ∧
  ∀ i b, bits !! i = Some b → bit_at (wc_bytes c') (bits_written c + i) = b.

Definition writes (k : nat) (wr : profile → WriteCursor → exec WriteCursor) (bits : list bool) : Prop :=
  ∀ p c, wc_ok c → wc_bit_index c = k mod 8 → bits_written c + length bits ≤ 8 * length (wc_bytes c) →
  ∃ c', wr p c = Ret c' ∧ emitted c c' bits.

Lemma emitted_written c c' bits : emitted c c' bits → written c c' (length bits).
Proof. intros (H1 & H2 & H3 & H4 & _). by split_and!. Qed.

Lemma emitted_index c c' k bits : wc_ok c → wc_bit_index c = k mod 8 → emitted c c' bits →
  wc_bit_index c' = (k + length bits) mod 8.
Proof.
  intros Hc Hk H. rewrite (written_index _ _ _ Hc (emitted_written _ _ _ H)), Hk. apply Nat.Div0.add_mod_idemp_l.
Qed.

Lemma appended_emitted c c' v n : appended c c' v n → emitted c c' (z_bits n v).
Proof.
  intros (H1 & H2 & H3 & H4 & H5). unfold emitted. rewrite length_z_bits. split_and!; [done..|].
  intros i b Hb. pose proof (lookup_lt_Some _ _ _ Hb) as Hi. rewrite length_z_bits in Hi.
  rewrite lookup_z_bits in Hb by done. injection Hb as <-. by apply H5.
Qed.

Lemma writes_eq k wr bits bits' : writes k wr bits → bits = bits' → writes k wr bits'.
Proof. by intros ? <-. Qed.
Lemma writes_ext k wr wr' bits : (∀ p c, wr p c = wr' p c) → writes k wr bits → writes k wr' bits.
Proof. intros E H p c. rewrite <- E. apply H. Qed.

Lemma writes_nil k : writes k (λ _ c, Ret c) [].
Proof.
  intros p c Hc _ _. exists c. split; [done|]. split_and!; [done|done|cbn; lia|done|].
  intros i b Hb. by rewrite lookup_nil in Hb.
Qed.

Lemma writes_bind k wr1 wr2 bits1 bits2 : writes k wr1 bits1 → writes (k + length bits1) wr2 bits2 →
  writes k (λ p c, c ← wr1 p c; wr2 p c) (bits1 ++ bits2).
Proof.
  intros H1 H2 p c Hc Hk Hfit. rewrite length_app in Hfit. destruct (H1 p c Hc Hk) as (c1 & -> & E1); [lia|].
  cbn [mbind exec_bind]. pose proof (emitted_index _ _ _ _ Hc Hk E1) as I1. pose proof E1 as (Hc1 & L1 & B1 & O1 & N1).
  destruct (H2 p c1 Hc1 I1) as (c2 & -> & Hc2 & L2 & B2 & O2 & N2); [lia|]. exists c2. split; [done|].
  split_and!; [done|lia|rewrite length_app; lia|intros i Hi; rewrite O2, O1 by lia; done|].
  intros i b Hb. apply lookup_app_Some in Hb as [Hb|[Hi Hb]].
  - pose proof (lookup_lt_Some _ _ _ Hb). rewrite O2 by lia. by apply N1.
  - rewrite <- (N2 _ _ Hb), B1. f_equal. lia.
Qed.

Lemma writes_value n k v wr :
  (∀ p c, wc_ok c → wc_bit_index c = k mod 8 → bits_written c + n ≤ 8 * length (wc_bytes c) →
    ∃ c', wr p c = Ret c' ∧ appended c c' v n) →
  writes k wr (z_bits n v).
Proof.
  intros H p c Hc Hk Hfit. rewrite length_z_bits in Hfit. destruct (H p c Hc Hk Hfit) as (c' & E & A).
  exists c'. split; [done|by apply appended_emitted].
Qed.

Lemma writes_field n f k v : write_fns !! n = Some f → writes k (λ p c, f p c v) (z_bits (S n) v).
Proof. intros Hf. apply writes_value. intros. by apply (write_fns_spec n). Qed.

Lemma writes_bool k b : writes k (λ p c, write_bool p c b) [b].
Proof.
  eapply writes_eq; [apply writes_value; intros; by apply (write_bool_spec _ _ b)|]. by destruct b.
Qed.

Lemma writes_zeros k n : writes k (λ p c, wc_skip_bits c n) (zeros n).
Proof.
  intros p c Hc Hk Hfit. rewrite length_zeros in Hfit. destruct (wc_skip_spec c n Hc Hfit) as (c' & Hs & Hw).
  exists c'. split; [done|]. pose proof Hw as (Hc' & L & B & O). split_and!; [done|done|by rewrite length_zeros|done|].
  intros i b Hb. unfold zeros in Hb. apply lookup_replicate in Hb as [-> Hi].
  assert (E : wc_bytes c' = wc_bytes c).
  { unfold wc_skip_bits, wc_advance_bits in Hs. destruct (check_length c n); [|done]. by injection Hs as <-. }
  rewrite E. apply Hc. lia.
Qed.

Lemma writes_align k : writes k (λ p c, wc_align_to_8_bits c) (zeros (pad_bits k)).
Proof.
  intros p c Hc Hk Hfit. unfold wc_align_to_8_bits. destruct (Nat.eqb_spec (wc_bit_index c) 0) as [H0|H0]; cbn [negb].
  - rewrite pad_bits_0 in * by congruence. exact (writes_nil k p c Hc Hk Hfit).
  - unfold usize_sub. rewrite (proj2 (Nat.leb_le _ _)) by (destruct Hc; lia). cbn [mbind exec_bind].
    replace (8 - wc_bit_index c) with (pad_bits k); [by apply (writes_zeros k)|].
    unfold pad_bits. rewrite <- Hk. destruct Hc. dlia.
Qed.

Lemma writes_elements {A} (wr : profile → WriteCursor → A → exec WriteCursor) (bits : nat → A → list bool)
    (go : nat → list A → list bool) l : ∀ k,
  (∀ k, go k [] = []) → (∀ k x l, go k (x :: l) = bits k x ++ go (k + length (bits k x)) l) →
  (∀ k x, x ∈ l → writes k (λ p c, wr p c x) (bits k x)) →
  writes k (λ p c, write_elements (wr p) c l) (go k l).
Proof.
  intros k Hnil Hcons. revert k. induction l as [|x l IH]; intros k Hall; cbn [write_elements].
  - rewrite Hnil. apply writes_nil.
  - rewrite Hcons. apply (writes_bind k (λ p c, wr p c x)); [apply Hall; set_solver|]. apply IH. set_solver.
Qed.

(** ** Reading *)

(** The next bits that a cursor has. *)
Definition shows (r : ReadCursor) (bits : list bool) : Prop :=
  rc_ok r ∧ length bits ≤ rc_left r ∧ ∀ i b, bits !! i = Some b → stream r i = b.

Definition reads {A} (k : nat) (rd : profile → ReadCursor → exec (ReadCursor * A)) (bits : list bool) (a : A) : Prop :=
  ∀ p r, shows r bits → rc_bit_index r = k mod 8 → ∃ r', rd p r = Ret (r', a) ∧ consumed r r' (length bits).

Lemma shows_first r bits1 bits2 : shows r (bits1 ++ bits2) → shows r bits1.
Proof.
  intros (Hr & Hl & Hs). rewrite length_app in Hl. split_and!; [done|lia|].
  intros i b Hb. apply Hs. by apply lookup_app_l_Some.
Qed.
Lemma shows_rest r r1 bits1 bits2 : shows r (bits1 ++ bits2) → consumed r r1 (length bits1) → shows r1 bits2.
Proof.
  intros (Hr & Hl & Hs) (Hr1 & S1 & _ & L1). rewrite length_app in Hl. split_and!; [done|lia|].
  intros i b Hb. rewrite S1. apply Hs. rewrite lookup_app_r by lia.
  by replace (length bits1 + i - length bits1) with i by lia.
Qed.
Lemma consumed_index r r1 k n : rc_bit_index r = k mod 8 → consumed r r1 n → rc_bit_index r1 = (k + n) mod 8.
Proof. intros Hk (_ & _ & -> & _). rewrite Hk. apply Nat.Div0.add_mod_idemp_l. Qed.

Section reading.
Context {A B : Type}.
Implicit Types rd : profile → ReadCursor → exec (ReadCursor * A).

Lemma reads_eq k rd bits bits' a : reads k rd bits a → bits = bits' → reads k rd bits' a.
Proof. by intros ? <-. Qed.

Lemma reads_ret k (a : A) : reads k (λ _ r, Ret (r, a)) [] a.
Proof. intros p r (Hr & _) _. exists r. split; [done|by apply consumed_refl]. Qed.

Lemma reads_bind k rd (rd2 : profile → A → ReadCursor → exec (ReadCursor * B)) bits1 bits2 a b :
  reads k rd bits1 a → reads (k + length bits1) (λ p, rd2 p a) bits2 b →
  reads k (λ p r, '(r, x) ← rd p r; rd2 p x r) (bits1 ++ bits2) b.
Proof.
  intros H1 H2 p r Hs Hk. destruct (H1 p r (shows_first _ _ _ Hs) Hk) as (r1 & -> & C1). cbn [mbind exec_bind].
  destruct (H2 p r1) as (r2 & -> & C2); [exact (shows_rest _ _ _ _ Hs C1)|exact (consumed_index _ _ _ _ Hk C1)|].
  exists r2. split; [done|]. rewrite length_app. exact (consumed_trans _ _ _ _ _ C1 C2).
Qed.

(** A step after [?]. *)
Lemma reads_try k (rd : profile → ReadCursor → exec (ReadCursor * result DeserializeError A))
    (rd2 : profile → A → ReadCursor → exec (ReadCursor * result DeserializeError B)) bits1 bits2 a b :
  reads k rd bits1 (Ok a) → reads (k + length bits1) (λ p, rd2 p a) bits2 b →
  reads k (λ p r, try_read (rd p r) (rd2 p)) (bits1 ++ bits2) b.
Proof.
  intros H1 H2 p r Hs Hk. unfold try_read. destruct (H1 p r (shows_first _ _ _ Hs) Hk) as (r1 & -> & C1).
  cbn [mbind exec_bind].
  destruct (H2 p r1) as (r2 & -> & C2); [exact (shows_rest _ _ _ _ Hs C1)|exact (consumed_index _ _ _ _ Hk C1)|].
  exists r2. split; [done|]. rewrite length_app. exact (consumed_trans _ _ _ _ _ C1 C2).
Qed.

Lemma reads_finish k rd (f : A → B) bits a :
  reads k rd bits a → reads k (λ p r, '(r, x) ← rd p r; Ret (r, f x)) bits (f a).
Proof. intros H p r Hs Hk. destruct (H p r Hs Hk) as (r1 & -> & C). by exists r1. Qed.
Lemma reads_try_finish k (rd : profile → ReadCursor → exec (ReadCursor * result DeserializeError A)) (f : A → B) bits a :
  reads k rd bits (Ok a) → reads k (λ p r, try_read (rd p r) (λ x r, Ret (r, Ok (f x)))) bits (Ok (f a)).
Proof. intros H p r Hs Hk. unfold try_read. destruct (H p r Hs Hk) as (r1 & -> & C). by exists r1. Qed.

(** The bits that are skipped may be any. *)
Lemma reads_skip k n rd skipped bits a : length skipped = n → reads (k + n) rd bits a →
  reads k (λ p r, rd p (rc_advance_bits r n)) (skipped ++ bits) a.
Proof.
  intros Hn H p r Hs Hk. pose proof (rc_advance_spec r n (proj1 Hs)) as C. rewrite <- Hn in C at 2.
  destruct (H p (rc_advance_bits r n)) as (r2 & -> & C2);
    [exact (shows_rest _ _ _ _ Hs C)|rewrite <- Hn at 2; exact (consumed_index _ _ _ _ Hk C)|].
  exists r2. split; [done|]. rewrite length_app. exact (consumed_trans _ _ _ _ _ C C2).
Qed.
End reading.

Lemma reads_value n k v (rd : profile → ReadCursor → exec (ReadCursor * Z)) :
  (∀ p r, rc_ok r → rc_bit_index r = k mod 8 → ∃ r' x, rd p r = Ret (r', x) ∧ consumed r r' n ∧ next_bits r n x) →
  reads k rd (z_bits n v) (wrap (Z.of_nat n) v).
Proof.
  intros H p r (Hr & Hl & Hs) Hk. destruct (H p r Hr Hk) as (r' & x & -> & C & N). exists r'. rewrite length_z_bits.
  split; [|done]. rewrite (next_bits_unique r n v x N); [done|]. intros i Hi. apply Hs. by apply lookup_z_bits.
Qed.

Lemma reads_field n g k v : read_fns !! n = Some g → reads k g (z_bits (S n) v) (wrap (Z.of_nat (S n)) v).
Proof. intros Hg. apply reads_value. intros. by apply (read_fns_spec n). Qed.

Lemma reads_bool k b : reads k read_bool [b] b.
Proof.
  intros p r (Hr & _ & Hs) _. destruct (read_bool_spec p r Hr) as (r' & -> & C). exists r'.
  rewrite (Hs 0 b) by done. done.
Qed.

Lemma align_reads k r : rc_ok r → rc_bit_index r = k mod 8 →
  ∃ r', rc_align_to_8_bits r = Ret r' ∧ consumed r r' (pad_bits k).
Proof.
  intros Hr Hk. unfold rc_align_to_8_bits. destruct (Nat.eqb_spec (rc_bit_index r) 0) as [H0|H0]; cbn [negb].
  - exists r. rewrite pad_bits_0 by congruence. split; [done|by apply consumed_refl].
  - unfold usize_sub. rewrite (proj2 (Nat.leb_le _ _)) by (destruct Hr; lia). cbn [mbind exec_bind].
    eexists. split; [done|]. replace (pad_bits k) with (8 - rc_bit_index r); [by apply rc_advance_spec|].
    unfold pad_bits. rewrite <- Hk. destruct Hr. dlia.
Qed.

(** Positions matter within a byte only. *)
Lemma writes_mod k k' wr bits : k mod 8 = k' mod 8 → writes k wr bits → writes k' wr bits.
Proof. intros E H p c. rewrite <- E. apply H. Qed.
Lemma reads_mod {A} k k' (rd : profile → ReadCursor → exec (ReadCursor * A)) bits a :
  k mod 8 = k' mod 8 → reads k rd bits a → reads k' rd bits a.
Proof. intros E H p r. rewrite <- E. apply H. Qed.

(** ** Aligned integers *)

Lemma writes_aligned n k v : k mod 8 = 0 → writes k (λ p c, write_aligned n c v) (z_bits (8 * n) v).
Proof. intros Hk. apply writes_value. intros p c Hc H0 Hfit. apply (write_aligned_spec n); [done|congruence|done]. Qed.
Lemma writes_aligned_u8 k v : k mod 8 = 0 → is_u 8 v → writes k (λ p c, write_aligned_u8 c v) (z_bits 8 v).
Proof. intros Hk Hv. apply writes_value. intros p c Hc H0 Hfit. apply write_aligned_u8_spec; [done|congruence|done|done]. Qed.

(** An aligned read of two halves. *)
Lemma read_halves_spec n (half whole : ReadCursor → exec (ReadCursor * Z)) :
  (∀ r, whole r = ('(r, lsb) ← half r; '(r, msb) ← half r; Ret (r, Z.lor (shl (Z.of_nat (8 * n + 8 * n)) msb (Z.of_nat (8 * n))) lsb))) →
  (∀ r, rc_ok r → rc_bit_index r = 0 → ∃ r' x, half r = Ret (r', x) ∧ consumed r r' (8 * n) ∧ next_bits r (8 * n) x) →
  ∀ r, rc_ok r → rc_bit_index r = 0 →
    ∃ r' x, whole r = Ret (r', x) ∧ consumed r r' (8 * n + 8 * n) ∧ next_bits r (8 * n + 8 * n) x.
Proof.
  intros E H r Hr H0. rewrite E. destruct (H r Hr H0) as (r1 & x & -> & C1 & N1). cbn [mbind exec_bind].
  assert (H1 : rc_bit_index r1 = 0). { pose proof C1 as (_ & _ & -> & _). rewrite H0. dlia. }
  destruct (H r1 (proj1 C1) H1) as (r2 & y & -> & C2 & N2). cbn [mbind exec_bind]. eexists _, _. split_and!; [done| |].
  - exact (consumed_trans _ _ _ _ _ C1 C2).
  - rewrite Z.lor_comm. by apply (next_bits_lor _ r r1).
Qed.

Lemma reads_aligned n k v g :
  (∀ r, rc_ok r → rc_bit_index r = 0 → ∃ r' x, g r = Ret (r', x) ∧ consumed r r' (8 * n) ∧ next_bits r (8 * n) x) →
  k mod 8 = 0 → reads k (λ _, g) (z_bits (8 * n) v) (wrap (Z.of_nat (8 * n)) v).
Proof. intros H Hk. apply reads_value. intros p r Hr H0. apply H; [done|congruence]. Qed.

Lemma reads_aligned_u8 k v : k mod 8 = 0 → reads k (λ _, read_aligned_u8) (z_bits 8 v) (wrap 8 v).
Proof. apply (reads_aligned 1), read_aligned_u8_spec. Qed.
Lemma reads_aligned_u16 k v : k mod 8 = 0 → reads k (λ _, read_aligned_u16) (z_bits 16 v) (wrap 16 v).
Proof. apply (reads_aligned 2), (read_halves_spec 1 read_aligned_u8); [done|apply read_aligned_u8_spec]. Qed.
Lemma reads_aligned_u32 k v : k mod 8 = 0 → reads k (λ _, read_aligned_u32) (z_bits 32 v) (wrap 32 v).
Proof.
  apply (reads_aligned 4), (read_halves_spec 2 read_aligned_u16); [done|].
  apply (read_halves_spec 1 read_aligned_u8); [done|apply read_aligned_u8_spec].
Qed.
Lemma reads_aligned_u64 k v : k mod 8 = 0 → reads k (λ _, read_aligned_u64) (z_bits 64 v) (wrap 64 v).
Proof.
  apply (reads_aligned 8), (read_halves_spec 4 read_aligned_u32); [done|].
  apply (read_halves_spec 2 read_aligned_u16); [done|].
  apply (read_halves_spec 1 read_aligned_u8); [done|apply read_aligned_u8_spec].
Qed.

(** ** Bytes *)

Lemma writes_bytes k bytes : k mod 8 = 0 → bytes_ok bytes →
  writes k (λ p c, write_aligned_bytes c bytes) (z_bits (8 * length bytes) (of_bytes bytes)).
Proof.
  intros Hk Hb. apply writes_value. intros p c Hc H0 Hfit. apply write_aligned_bytes_spec; [done|congruence|done|done].
Qed.

Lemma reads_bytes k bytes : k mod 8 = 0 → bytes_ok bytes →
  reads k (λ p r, deserialize_zero_copy (length bytes) r) (z_bits (8 * length bytes) (of_bytes bytes)) bytes.
Proof.
  intros Hk Hb p r (Hr & Hl & Hs) H0. rewrite Hk in H0.
  destruct (zero_copy_spec (length bytes) r Hr H0) as (r' & l & -> & C & Hlen & Hok & Hbytes). exists r'.
  rewrite length_z_bits. split; [|done]. do 2 f_equal. apply list_eq_same_length with (length bytes); [done|done|].
  intros i x y Hi Hx Hy. rewrite Hbytes in Hx by done. injection Hx as <-.
  apply byte_eq; [apply byte_at_ok, Hr|by apply (Forall_lookup_1 _ _ _ _ Hb Hy)|]. intros j Hj.
  specialize (Hs (8 * i + j) _ (lookup_z_bits (8 * length bytes) (of_bytes bytes) (8 * i + j) ltac:(lia))). rewrite testbit_of_bytes in Hs by done.
  unfold stream, bit_at in Hs. rewrite H0, Nat.add_0_l in Hs.
  assert ((8 * i + j) / 8 = i ∧ (8 * i + j) mod 8 = j) as [E1 E2] by dlia. by rewrite E1, E2, Hy in Hs.
Qed.

(** ** Arrays of bits *)

Section bit_arrays.
Context (BYTES : nat).

(** The bits of an array. *)
Definition array_of_bits (a : BitArray) : list bool := bit_at (ba_bytes a) <$> seq 0 (ba_len a).

(** Bits after the end of an array are clear. *)
Definition ba_clean (a : BitArray) : Prop :=
  ba_ok BYTES a ∧ ∀ i, ba_len a ≤ i → bit_at (ba_bytes a) i = false.

Lemma array_of_bits_z a : ba_ok BYTES a → array_of_bits a = z_bits (ba_len a) (of_bytes (ba_bytes a)).
Proof.
  intros (_ & _ & Hok). unfold array_of_bits, z_bits. apply list_fmap_ext. intros i x _. by rewrite testbit_of_bytes.
Qed.

Lemma writes_bits k a : ba_ok BYTES a → writes k (λ p c, ba_serialize BYTES p a c) (array_of_bits a).
Proof.
  intros Ha. rewrite array_of_bits_z by done. apply writes_value. intros p c Hc _ Hfit. by apply ba_serialize_spec.
Qed.

Lemma bit_array_eq a a' : ba_clean a → ba_ok BYTES a' → ba_len a' = ba_len a →
  (∀ i, bit_at (ba_bytes a') i = bit_at (ba_bytes a) i) → a' = a.
Proof.
  destruct a as [l n], a' as [l' n']. unfold ba_len. cbn. intros [(Hl & _ & Hok) _] (Hl' & _ & Hok') -> Hbits. f_equal.
  cbn in *. apply list_eq_same_length with BYTES; [done|done|]. intros i x y Hi Hx Hy.
  apply byte_eq; [by apply (Forall_lookup_1 _ _ _ _ Hok' Hx)|by apply (Forall_lookup_1 _ _ _ _ Hok Hy)|].
  intros j Hj. specialize (Hbits (8 * i + j)). unfold bit_at in Hbits.
  assert ((8 * i + j) / 8 = i ∧ (8 * i + j) mod 8 = j) as [E1 E2] by dlia. by rewrite E1, E2, Hx, Hy in Hbits.
Qed.

(** An array as long as its storage allows, up to a byte. *)
Lemma reads_bits k a : ba_clean a → BYTES = (ba_len a + 7) / 8 →
  reads k (λ p r, '(a, r) ← ba_deserialize BYTES p (ba_len a) r; Ret (r, a)) (array_of_bits a) a.
Proof.
  intros Hcl HB p r (Hr & Hl & Hs) _. pose proof Hcl as [Ha Hz]. pose proof Ha as (_ & Hle & _).
  destruct (ba_deserialize_spec BYTES p (ba_len a) r Hle Hr) as (a' & r' & -> & Ha' & Hlen & C & Hb & Hz').
  cbn [mbind exec_bind]. exists r'. rewrite array_of_bits_z, length_z_bits in * by done.
  assert (D : deserialized_bits BYTES (ba_len a) r = ba_len a).
  { unfold deserialized_bits. destruct (Nat.eqb_spec (ba_len a mod 8) 0); [|done]. cbn [andb].
    destruct (rc_is_aligned_to_8_bits r); [|done]. dlia. }
  rewrite D in C, Hz'. split; [|done]. do 2 f_equal. apply bit_array_eq; [done|done|done|]. intros i.
  destruct (Nat.lt_ge_cases i (ba_len a)) as [Hi|Hi].
  - rewrite Hb by done. rewrite (Hs i _ (lookup_z_bits _ _ _ Hi)). apply testbit_of_bytes, Ha.
  - by rewrite Hz', Hz.
Qed.
End bit_arrays.

(** ** Composite values *)

(** The bits of a composite value: it starts and ends at bytes, after its length if it is
    delimited. *)
Definition whole (bits : list bool) : list bool := bits ++ zeros (pad_bits (length bits)).
Definition delimiter (delimited : bool) (body : list bool) : list bool :=
  if delimited then z_bits 32 (Z.of_nat (length (whole body) / 8)) else [].
Definition composite_frame (delimited : bool) (k : nat) (body : list bool) : list bool :=
  zeros (pad_bits k) ++ delimiter delimited body ++ whole body.

Lemma length_whole bits : length (whole bits) = whole_bytes (length bits).
Proof. unfold whole, whole_bytes. rewrite length_app, length_zeros. unfold pad_bits. dlia. Qed.
Lemma length_delimiter d body : length (delimiter d body) mod 8 = 0.
Proof. unfold delimiter. destruct d; [by rewrite length_z_bits|done]. Qed.

Section composites.
Context {M : Type} `{Serialize M, !Deserialize M} (v : M).

Lemma writes_composite k body : writes 0 (λ p c, serialize p v c) body →
  (is_delimited (T := M) = true → (size_bits v + 7) / 8 = length (whole body) / 8 ∧
    is_u 32 (Z.of_nat (length (whole body) / 8))) →
  writes k (λ p c, write_composite p c v) (composite_frame (is_delimited (T := M)) k body).
Proof.
  intros Hs Hd. unfold write_composite. apply (writes_bind k); [apply writes_align|]. rewrite length_zeros.
  set (k1 := k + pad_bits k). assert (K1 : k1 mod 8 = 0) by apply pad_bits_spec.
  refine (writes_bind k1 (λ p c, if is_delimited (T := M) then _ else Ret c) _ _ _ _ _).
  { unfold delimiter. destruct (is_delimited (T := M)); [|apply writes_nil]. destruct (Hd eq_refl) as [-> Hu].
    rewrite (proj2 (is_ub_spec _ _) Hu). cbn [assert_ mbind exec_bind]. by apply (writes_field 31). }
  set (k2 := k1 + length _). assert (K2 : k2 mod 8 = 0).
  { unfold k2. pose proof (length_delimiter (is_delimited (T := M)) body). dlia. }
  apply (writes_bind k2); [apply (writes_mod 0); [by rewrite K2|done]|].
  eapply writes_eq; [apply writes_align|]. f_equal. unfold pad_bits.
  f_equal. f_equal. rewrite <- Nat.Div0.add_mod_idemp_l, K2. done.
Qed.

(** The deserializer may leave bits at the end, which are padding or in a delimited value. *)
Lemma reads_composite_sealed k data rest : is_delimited (T := M) = false → reads 0 deserialize data (Ok v) →
  length (whole data) = length (whole (data ++ rest)) →
  reads k read_composite (composite_frame false k (data ++ rest)) (Ok v).
Proof.
  intros Hd Hr Hw p r Hs Hk. unfold read_composite, composite_frame in *. rewrite Hd. cbn [delimiter] in *.
  destruct (align_reads k r (proj1 Hs) Hk) as (r1 & -> & C1). cbn [mbind exec_bind].
  rewrite <- (length_zeros (pad_bits k)) in C1. pose proof (shows_rest _ _ _ _ Hs C1) as S1.
  pose proof (consumed_index _ _ _ _ Hk C1) as I1. rewrite length_zeros, pad_bits_spec in I1.
  cbn [app] in S1. unfold whole in S1 at 1. rewrite <- app_assoc in S1.
  destruct (Hr p r1 (shows_first _ _ _ S1) I1) as (r2 & -> & C2). cbn [mbind exec_bind].
  destruct (align_reads (length data) r2) as (r3 & -> & C3); [apply C2|exact (consumed_index _ _ 0 _ I1 C2)|].
  cbn [mbind exec_bind]. exists r3. split; [done|]. rewrite !length_app, <- Hw. cbn [length Nat.add].
  apply (consumed_trans _ r1); [done|]. unfold whole. rewrite length_app, length_zeros.
  exact (consumed_trans _ _ _ _ _ C2 C3).
Qed.

Lemma fork_reads r n bits rest : shows r (bits ++ rest) → rc_bit_index r = 0 → length bits = 8 * n →
  ∃ r1 r2, fork r n = Ret (r1, r2) ∧ consumed r r1 (8 * n) ∧ shows r2 bits ∧ rc_bit_index r2 = 0.
Proof.
  intros (Hr & Hl & Hs) Ha Hn. unfold rc_left in Hl. rewrite length_app, Ha in Hl. unfold fork.
  rewrite Ha, (proj2 (Nat.leb_le _ _)) by lia. cbn [Nat.eqb assert_ mbind exec_bind]. eexists _, _. split; [done|].
  split_and!; [| |done].
  - replace (mkReadCursor (drop n (rc_bytes r)) 0) with (rc_advance_bits r (8 * n));
      [by apply rc_advance_spec|].
    unfold rc_advance_bits, advance_bytes. cbn [rc_bytes rc_bit_index]. rewrite Ha, !Nat.add_0_l.
    replace (8 * n / 8) with n by dlia. replace ((8 * n) mod 8) with 0 by dlia. by rewrite Nat.min_l by lia.
  - split_and!; [split; cbn; [lia|apply Forall_take, Hr]|unfold rc_left; cbn; rewrite length_take; lia|].
    intros i b Hb. pose proof (lookup_lt_Some _ _ _ Hb) as Hi.
    rewrite <- (Hs i b) by (by apply lookup_app_l_Some). unfold stream, bit_at. cbn [rc_bytes rc_bit_index].
    rewrite Ha, Nat.add_0_l, lookup_take_lt; [done|]. apply Nat.Div0.div_lt_upper_bound. lia.
Qed.

Lemma reads_composite_delimited k data rest : is_delimited (T := M) = true → reads 0 deserialize data (Ok v) →
  is_u 32 (Z.of_nat (length (whole (data ++ rest)) / 8)) →
  reads k read_composite (composite_frame true k (data ++ rest)) (Ok v).
Proof.
  intros Hd Hr Hu p r Hs Hk. unfold read_composite, composite_frame in *. rewrite Hd. cbn [delimiter] in *.
  set (body := whole (data ++ rest)) in *.
  destruct (align_reads k r (proj1 Hs) Hk) as (r1 & -> & C1). cbn [mbind exec_bind].
  rewrite <- (length_zeros (pad_bits k)) in C1. pose proof (shows_rest _ _ _ _ Hs C1) as S1.
  pose proof (consumed_index _ _ _ _ Hk C1) as I1. rewrite length_zeros, pad_bits_spec in I1.
  destruct (reads_aligned_u32 0 (Z.of_nat (length body / 8)) eq_refl p r1 (shows_first _ _ _ S1) I1) as (r2 & -> & C2).
  cbn [mbind exec_bind]. pose proof (shows_rest _ _ _ _ S1 C2) as S2. rewrite (wrap_small 32 _ Hu), Nat2Z.id.
  pose proof (consumed_index _ _ 0 _ I1 C2) as I2. rewrite length_z_bits in I2.
  assert (Hlen : length body = 8 * (length body / 8)). { unfold body. rewrite length_whole. unfold whole_bytes. dlia. }
  rewrite <- (app_nil_r body) in S2. pose proof S2 as (_ & Hleft & _). unfold rc_left in Hleft. rewrite length_app in Hleft.
  rewrite (proj2 (Nat.ltb_ge _ _)) by lia.
  destruct (fork_reads r2 (length body / 8) body [] S2 I2 Hlen) as (r3 & rf & -> & C3 & Sf & If). cbn [mbind exec_bind].
  unfold body in Sf at 1. unfold whole in Sf. rewrite <- app_assoc in Sf.
  destruct (Hr p rf (shows_first _ _ _ Sf) If) as (r4 & -> & _). cbn [mbind exec_bind].
  pose proof (consumed_index _ _ 0 _ I2 C3) as I3. rewrite rc_aligned by (rewrite I3; dlia). cbn [mbind exec_bind].
  exists r3. split; [done|]. rewrite !length_app, Hlen. apply (consumed_trans _ r1); [done|].
  apply (consumed_trans _ r2); [done|]. exact C3.
Qed.
End composites.
