(* ===== verification/DsdlWire.v ===== *)
(** * The encoding of DSDL values

    The reference for the code that is generated: the values of a message in Rust
    ([message_typed]), the bits of a value as DSDL defines them ([message_bits]), and the
    messages for which the generator makes an encoder and a decoder of these bits
    ([message_regular]). The functions of this file follow the structure of a message; each
    takes, in the section, what it needs of the messages within. *)

From stdpp Require Import strings.
From S2P Require Import Prelude BitLengths BitLengthsSpec BitLengthsClaims.
From S2P Require Import EncCursor EncFields EncBits EncCursorSpec Codec BitStreams DsdlTypes RustCode RustGen.

#[local] Open Scope nat_scope.

(** ** Values *)

Definition primitive_typed (ty : PrimitiveType) (v : RustValue) : Prop :=
  match ty, v with
  | PBoolean, RBool _ => True
  | PInt bits, RInt z => is_i bits z
  | PUInt bits _, RInt z => is_u bits z
  | PFloat16 _, RFloat z => is_u 16 z
  | PFloat32 _, RFloat z => is_u 32 z
  | PFloat64 _, RFloat z => is_u 64 z
  | _, _ => False
  end.

(** A field of this type holds composite values. *)
Definition is_composite (ty : ResolvedScalarType) : bool :=
  match ty with RComposite _ _ => true | _ => false end.

Section wire.
Context (to_camel_case : string → string).

Definition field_ident (name : string) : string := make_rust_identifier name.
Definition variant_ident (name : string) : string := to_camel_case (make_rust_identifier name).

(** The field of a struct value. *)
Abbreviation field_value v name := (eval v no_value (ESelfField (field_ident name))).

Section typed.
Context (inner_typed : Message → RustValue → Prop).

Definition scalar_typed (ty : ResolvedScalarType) (v : RustValue) : Prop :=
  match ty with
  | RComposite _ m => inner_typed m v
  | RPrimitive primitive => primitive_typed primitive v
  | RVoid _ => False
  end.

(** An array with a number of elements. *)
Definition array_typed (ty : ResolvedScalarType) (len_ok : nat → Prop) (capacity : u64) (v : RustValue) : Prop :=
  if is_boolean ty then
    match v with RBits a => ba_clean (Z.to_nat capacity) a ∧ len_ok (ba_len a) | _ => False end
  else
    match v with RArray l => len_ok (length l) ∧ Forall (scalar_typed ty) l | _ => False end.

Definition type_typed (ty : ResolvedType) (v : RustValue) : Prop :=
  match ty with
  | RScalar scalar => scalar_typed scalar v
  | RFixedArray inner len => array_typed inner (λ n, n = Z.to_nat len) (bit_array_capacity len) v
  | RVariableArray inner max_len => array_typed inner (λ n, n ≤ Z.to_nat max_len) (bit_array_capacity max_len) v
  end.

Fixpoint fields_typed (fields : list Field) (l : list (string * RustValue)) : Prop :=
  match fields with
  | [] => l = []
  | mkField kind _ :: fields =>
      match kind with
      | PaddingField _ => fields_typed fields l
      | DataField ty name =>
          match l with
          | (n, v) :: l => n = field_ident name ∧ type_typed ty v ∧ fields_typed fields l
          | [] => False
          end
      end
  end.

Fixpoint variants_typed (variants : list Variant) (name : string) (v : RustValue) : Prop :=
  match variants with
  | [] => False
  | mkVariant ty n :: variants =>
      if bool_decide (variant_ident n = name) then type_typed ty v else variants_typed variants name v
  end.
End typed.

Fixpoint message_typed (m : Message) (v : RustValue) {struct m} : Prop :=
  match m with
  | mkMessage _ _ (Struct fields) _ _ =>
      match v with RStruct l => fields_typed message_typed fields l | _ => False end
  | mkMessage _ _ (UnionOf _ variants) _ _ =>
      match v with REnum name x => variants_typed message_typed variants name x | _ => False end
  end.

(** ** Bits *)

Definition primitive_bits (ty : PrimitiveType) (v : RustValue) : list bool :=
  match ty with
  | PBoolean => [bool_of v]
  | PInt bits | PUInt bits _ => z_bits (Z.to_nat bits) (int_of v)
  | _ => z_bits (Z.to_nat (primitive_bit_length ty)) (float_of v)
  end.

(** A message in a field is delimited unless it is sealed. *)
Definition msg_delimited (m : Message) : bool :=
  match msg_extent m with Sealed => false | Delimited _ => true end.

Section bits.
Context (inner_bits : Message → RustValue → list bool).

Definition scalar_bits (ty : ResolvedScalarType) (k : nat) (v : RustValue) : list bool :=
  match ty with
  | RComposite _ m => composite_frame (msg_delimited m) k (inner_bits m v)
  | RPrimitive primitive => primitive_bits primitive v
  | RVoid bits => zeros (Z.to_nat bits)
  end.

Fixpoint elements_bits (ty : ResolvedScalarType) (k : nat) (l : list RustValue) : list bool :=
  match l with
  | [] => []
  | x :: l => scalar_bits ty k x ++ elements_bits ty (k + length (scalar_bits ty k x)) l
  end.

Definition array_bits (ty : ResolvedScalarType) (k : nat) (v : RustValue) : list bool :=
  if is_boolean ty then array_of_bits (bits_of v) else elements_bits ty k (elements_of v).

(** An array starts where its elements may start, with its length if that may vary. *)
Definition type_bits (ty : ResolvedType) (k : nat) (v : RustValue) : list bool :=
  match ty with
  | RScalar scalar => scalar_bits scalar k v
  | RFixedArray inner _ =>
      let pad := if is_composite inner then zeros (pad_bits k) else [] in
      pad ++ array_bits inner (k + length pad) v
  | RVariableArray inner max_len =>
      let pad := if is_composite inner then zeros (pad_bits k) else [] in
      let prefix := z_bits (Z.to_nat (array_length_bits max_len)) (Z.of_nat (len_of v)) in
      pad ++ prefix ++ array_bits inner (k + length pad + length prefix) v
  end.

Definition field_bits (kind : FieldKind) (k : nat) (v : RustValue) : list bool :=
  match kind with
  | PaddingField bits => zeros (Z.to_nat bits)
  | DataField ty name => type_bits ty k (field_value v name)
  end.

Fixpoint fields_bits (fields : list Field) (k : nat) (v : RustValue) : list bool :=
  match fields with
  | [] => []
  | mkField kind _ :: fields =>
      field_bits kind k v ++ fields_bits fields (k + length (field_bits kind k v)) v
  end.

(** The variants from number [i] on. *)
Fixpoint variants_bits (tag_bits i : nat) (variants : list Variant) (name : string) (v : RustValue) : list bool :=
  match variants with
  | [] => []
  | mkVariant ty n :: variants =>
      if bool_decide (variant_ident n = name) then z_bits tag_bits (Z.of_nat i) ++ type_bits ty tag_bits v
      else variants_bits tag_bits (S i) variants name v
  end.
End bits.

Fixpoint message_bits (m : Message) (v : RustValue) {struct m} : list bool :=
  match m with
  | mkMessage _ _ (Struct fields) _ _ => fields_bits message_bits fields 0 v
  | mkMessage _ _ (UnionOf tag_bits variants) _ _ =>
      match v with
      | REnum name x => variants_bits message_bits (Z.to_nat tag_bits) 0 variants name x
      | _ => []
      end
  end.

(** The fields up to the last one with data; deserialization goes no further. *)
Fixpoint trim_padding (fields : list Field) : list Field :=
  match fields with
  | [] => []
  | mkField kind aligned :: fields =>
      match kind, trim_padding fields with
      | PaddingField _, [] => []
      | _, rest => mkField kind aligned :: rest
      end
  end.

Definition message_data_bits (m : Message) (v : RustValue) : list bool :=
  match msg_kind m with
  | Struct fields => fields_bits message_bits (trim_padding fields) 0 v
  | UnionOf _ _ => message_bits m v
  end.

(** ** Depth *)

Section depth.
Context (inner_depth : Message → nat).

Definition scalar_depth (ty : ResolvedScalarType) : nat :=
  match ty with RComposite _ m => inner_depth m | _ => 0 end.
Definition type_depth (ty : ResolvedType) : nat :=
  match ty with RScalar s | RFixedArray s _ | RVariableArray s _ => scalar_depth s end.
Fixpoint fields_depth (fields : list Field) : nat :=
  match fields with
  | [] => 0
  | mkField kind _ :: fields =>
      match kind with
      | PaddingField _ => fields_depth fields
      | DataField ty _ => max (type_depth ty) (fields_depth fields)
      end
  end.
Fixpoint variants_depth (variants : list Variant) : nat :=
  match variants with
  | [] => 0
  | mkVariant ty _ :: variants => max (type_depth ty) (variants_depth variants)
  end.
End depth.

(** How deep messages are nested. *)
Fixpoint message_depth (m : Message) : nat :=
  match m with
  | mkMessage _ _ (Struct fields) _ _ => S (fields_depth message_depth fields)
  | mkMessage _ _ (UnionOf _ variants) _ _ => S (variants_depth message_depth variants)
  end.
End wire.

(** ** The messages that the generated code encodes and decodes

    [message_regular] states what the code generator relies on, and what the values of a
    message must satisfy: integers have a type in Rust of their width if they are signed, the
    front end's flags and sets of lengths are right, the deserializer's position in a sealed
    composite value is in its last byte. [message_sized] states when the size of the buffer is
    right as well. *)

(** The widths of the integers of Rust. *)
Definition native_width (bits : u8) : Prop := bits = 8%Z ∨ bits = 16%Z ∨ bits = 32%Z ∨ bits = 64%Z.

Lemma native_width_bounds bits : native_width bits → (1 ≤ bits ≤ 64)%Z.
Proof. intros [->|[->|[->| ->]]]; lia. Qed.
Lemma native_width_bytes bits : native_width bits → Z.to_nat bits mod 8 = 0.
Proof. by intros [->|[->|[->| ->]]]. Qed.

(** The length of an array is an integer of Rust that can have any of its values. *)
Lemma array_length_bits_spec max_len : (0 ≤ max_len < 2 ^ 64)%Z →
  native_width (array_length_bits max_len) ∧ (max_len < 2 ^ array_length_bits max_len)%Z.
Proof.
  intros Hm. assert (Hb : (0 ≤ bit_length_of max_len ≤ 64)%Z ∧ (max_len < 2 ^ bit_length_of max_len)%Z).
  { unfold bit_length_of. destruct (Z.eqb_spec max_len 0) as [->|Hne]; [lia|].
    destruct (Z.log2_spec max_len) as [_ Hlt]; [lia|]. pose proof (Z.log2_nonneg max_len).
    pose proof (proj1 (Z.log2_lt_pow2 max_len 64 ltac:(lia)) ltac:(lia)). rewrite Z.add_1_r. lia. }
  destruct Hb as [Hb Hlt]. unfold array_length_bits, round_up_length. set (b := bit_length_of max_len) in *.
  assert (Hr : ∃ r, (2 ^ Z.log2_up (Z.max b 8) = r)%Z ∧ native_width r ∧ (b ≤ r)%Z).
  { unfold native_width. destruct (Z.le_gt_cases b 8); [exists 8%Z|destruct (Z.le_gt_cases b 16); [exists 16%Z|
      destruct (Z.le_gt_cases b 32); [exists 32%Z|exists 64%Z]]].
    - rewrite Z.max_r by done. split; [done|lia].
    - rewrite (Z.log2_up_unique _ 4) by (cbn; lia). split; [done|lia].
    - rewrite (Z.log2_up_unique _ 5) by (cbn; lia). split; [done|lia].
    - rewrite (Z.log2_up_unique _ 6) by (cbn; lia). split; [done|lia]. }
  destruct Hr as (r & -> & Hr & Hbr). split; [done|].
  eapply Z.lt_le_trans; [exact Hlt|]. apply Z.pow_le_mono_r; lia.
Qed.

Section regular.
Context (to_camel_case : string → string) `{Combinatorics} (p : profile) (usize_bits : Z).

Abbreviation typed := (message_typed to_camel_case).
Abbreviation bits := (message_bits to_camel_case).

(** The set of lengths has that of every value. *)
Definition lengths_sound (m : Message) : Prop :=
  bls_ok (msg_bit_length m) ∧ bls_fits usize_bits (msg_bit_length m) ∧
  ∀ v, typed m v → ∃ n, bls_lengths (msg_bit_length m) (Z.of_nat n) ∧ whole_bytes n = whole_bytes (length (bits m v)).

(** A field's flag is right, and arrays of composite values start at a byte. *)
Definition field_placed (kind : FieldKind) (aligned : bool) (k : nat) : Prop :=
  match kind with
  | PaddingField _ => True
  | DataField ty _ =>
      (aligned = true → k mod 8 = 0) ∧
      match ty with
      | RScalar _ => True
      | RFixedArray inner _ | RVariableArray inner _ => is_composite inner = true → k mod 8 = 0
      end
  end.

(** Any field with composite values starts at a byte. *)
Definition field_unpadded (kind : FieldKind) (_ : bool) (k : nat) : Prop :=
  match kind with
  | DataField (RScalar s | RFixedArray s _ | RVariableArray s _) _ => is_composite s = true → k mod 8 = 0
  | PaddingField _ => True
  end.

(** A property of each field and its position in a value. *)
Fixpoint fields_at (P : FieldKind → bool → nat → Prop) (fields : list Field) (k : nat) (v : RustValue) : Prop :=
  match fields with
  | [] => True
  | mkField kind aligned :: fields =>
      P kind aligned k ∧ fields_at P fields (k + length (field_bits bits kind k v)) v
  end.
Definition struct_at (P : FieldKind → bool → nat → Prop) (fields : list Field) : Prop :=
  ∀ l, fields_typed typed fields l → fields_at P fields 0 (RStruct l).

(** *** Sizes *)

Section sized.
Context (inner_sized : Message → Prop).

Definition scalar_sized (ty : ResolvedScalarType) : Prop :=
  match ty with
  | RComposite _ m => inner_sized m ∧ (∀ v, typed m v → length (bits m v) mod 8 = 0) ∧
      ∀ n, bls_lengths (msg_bit_length m) n → (n mod 8 = 0)%Z
  | _ => True
  end.
Definition type_sized (ty : ResolvedType) : Prop :=
  match ty with RScalar s | RFixedArray s _ | RVariableArray s _ => scalar_sized s end.
Fixpoint fields_sized (fields : list Field) : Prop :=
  match fields with
  | [] => True
  | mkField kind _ :: fields =>
      match kind with PaddingField _ => True | DataField ty _ => type_sized ty end ∧ fields_sized fields
  end.
Fixpoint variants_sized (variants : list Variant) : Prop :=
  match variants with
  | [] => True
  | mkVariant ty _ :: variants => type_sized ty ∧ variants_sized variants
  end.
End sized.

Fixpoint message_sized (m : Message) : Prop :=
  match m with
  | mkMessage _ _ (Struct fields) _ _ => fields_sized message_sized fields ∧ struct_at field_unpadded fields
  | mkMessage _ _ (UnionOf _ variants) _ _ => variants_sized message_sized variants
  end.

(** *** Code *)

Section code.
Context (inner_regular : Message → Prop).

Definition composite_regular (m : Message) : Prop :=
  match msg_extent m with
  | Sealed => ∀ v, typed m v →
      length (whole (message_data_bits to_camel_case m v)) = length (whole (bits m v))
  | Delimited _ => message_sized m ∧ (∀ v, typed m v → is_u 32 (Z.of_nat (length (whole (bits m v)) / 8))) ∧
      ∀ n, bls_lengths (msg_bit_length m) n → (n + 32 < 2 ^ 64)%Z
  end.

Definition scalar_regular (ty : ResolvedScalarType) : Prop :=
  match ty with
  | RComposite _ m => inner_regular m ∧ composite_regular m
  | RPrimitive (PInt bits) => native_width bits
  | RPrimitive (PUInt bits _) => (1 ≤ bits ≤ 64)%Z
  | RPrimitive _ => True
  | RVoid _ => False
  end.

(** An array that may be longer than [i32::MAX] cannot be read. *)
Definition type_regular (ty : ResolvedType) : Prop :=
  match ty with
  | RScalar s => scalar_regular s
  | RFixedArray s len => scalar_regular s ∧ (0 ≤ len ∧ len + 7 < 2 ^ 64)%Z
  | RVariableArray s max_len => scalar_regular s ∧ is_boolean s = false ∧ (0 ≤ max_len < 2 ^ 31)%Z
  end.

Fixpoint fields_regular (fields : list Field) : Prop :=
  match fields with
  | [] => True
  | mkField kind _ :: fields =>
      match kind with
      | PaddingField bits => (1 ≤ bits ≤ 64)%Z
      | DataField ty _ => type_regular ty
      end ∧ fields_regular fields
  end.
Fixpoint variants_regular (variants : list Variant) : Prop :=
  match variants with
  | [] => True
  | mkVariant ty _ :: variants => type_regular ty ∧ variants_regular variants
  end.
End code.

(** A struct that is copied as it is in memory has no delimited values in it. *)
Definition zero_copy_field (f : Field) : Prop :=
  match field_kind f with
  | PaddingField _ => False
  | DataField ty _ => type_supports_zero_copy (message_supports_zero_copy p) ty = Ret true
  end.
Definition sealed_field (f : Field) : Prop :=
  match field_kind f with
  | DataField (RScalar (RComposite _ m) | RFixedArray (RComposite _ m) _) _ => msg_extent m = Sealed
  | _ => True
  end.

Definition field_idents (fields : list Field) : list string :=
  omap (λ f, field_ident <$> field_name f) fields.

Fixpoint message_regular (m : Message) : Prop :=
  lengths_sound m ∧
  (match msg_extent m with Sealed => True | Delimited extent => is_u 32 (extent / 8) end) ∧
  match m with
  | mkMessage _ _ (Struct fields) _ _ =>
      fields_regular message_regular fields ∧ NoDup (field_idents fields) ∧ struct_at field_placed fields ∧
      (Forall zero_copy_field fields → Forall sealed_field fields)
  | mkMessage _ _ (UnionOf tag_bits variants) _ _ =>
      variants_regular message_regular variants ∧ native_width tag_bits ∧
      (Z.of_nat (length variants) ≤ 2 ^ tag_bits)%Z
  end.
End regular.

(** *** The fields of a value, by name *)

Lemma field_of_In n x l : NoDup (fst <$> l) → (n, x) ∈ l → field_of n l = Some x.
Proof.
  induction l as [|[n' x'] l IH]; [set_solver|]. cbn [fmap list_fmap fst field_of]. intros [Hn Hnd]%NoDup_cons Hx.
  apply elem_of_cons in Hx as [[= -> ->]|Hx]; [by rewrite bool_decide_true|].
  rewrite bool_decide_false; [by apply IH|]. intros ->. apply Hn. apply list_elem_of_fmap. by exists (n, x).
Qed.
Lemma struct_field_values inner_typed fields l : NoDup (field_idents fields) → fields_typed inner_typed fields l →
  ∀ n x, (n, x) ∈ l → eval (RStruct l) no_value (ESelfField n) = x.
Proof.
  intros Hnd Hl. assert (Hnames : fst <$> l = field_idents fields).
  { clear Hnd. revert l Hl. induction fields as [|[kind aligned] fields IH]; intros l Hl; [by rewrite Hl|].
    unfold field_idents in *. cbn. destruct kind as [n|ty name]; [by apply IH|]. destruct l as [|[n x] l]; [done|].
    destruct Hl as (-> & _ & Hl). cbn. f_equal. by apply IH. }
  rewrite <- Hnames in Hnd. intros n x Hx. cbn [eval]. by rewrite (field_of_In n x).
Qed.
