(* ===== verification/RustGenWrite.v ===== *)
(** * What the generated serializers write

    For a field of any type, the statements that the generator prints write the bits of the
    field's value, given that the implementations for the types within do. *)

From stdpp Require Import strings.
From S2P Require Import Prelude EncCursor EncFields EncBits EncCursorSpec EncFieldsSpec Codec RegisterTypes RegisterTypesSpec.
From S2P Require Import BitLengths BitLengthsSpec BitLengthsClaims.
From S2P Require Import BitStreams DsdlTypes RustCode RustGen DsdlWire.

#[local] Open Scope nat_scope.

(** ** The generator's loops *)

Lemma mapM_exec {A B} (f : A → exec B) (R : A → B → Prop) l :
  (∀ x, x ∈ l → ∃ y, f x = Ret y ∧ R x y) → ∃ l', mapM f l = Ret l' ∧ Forall2 R l l'.
Proof.
  induction l as [|x l IH]; intros Hall; [exists []; by split|].
  destruct (Hall x) as (y & E & Hy); [set_solver|]. destruct IH as (l' & El & Hl'); [set_solver|].
  exists (y :: l'). split; [|by constructor]. cbn. rewrite E. cbn [mbind exec_bind]. by rewrite El.
Qed.

Lemma mapi_exec_spec {A B} (f : nat → A → exec B) (R : nat → A → B → Prop) l : ∀ i,
  (∀ i x, x ∈ l → ∃ y, f i x = Ret y ∧ R i x y) →
  ∃ l', mapi_exec f i l = Ret l' ∧ length l' = length l ∧ ∀ j x, l !! j = Some x → ∃ y, l' !! j = Some y ∧ R (i + j) x y.
Proof.
  induction l as [|x l IH]; intros i Hall; cbn [mapi_exec]; [by exists []|].
  destruct (Hall i x) as (y & -> & Hy); [set_solver|]. cbn [mbind exec_bind].
  destruct (IH (S i)) as (l' & -> & Hlen & Hl'); [set_solver|]. cbn [mbind exec_bind]. exists (y :: l').
  split_and!; [done|cbn; lia|]. intros [|j] z Hz; cbn in *.
  - injection Hz as <-. exists y. by rewrite Nat.add_0_r.
  - destruct (Hl' j z Hz) as (y' & Hy' & HR). exists y'. by rewrite Nat.add_succ_r.
Qed.

(** ** Integers *)

Lemma round_up_integer_size_spec bits : (1 ≤ bits ≤ 64)%Z →
  ∃ size, round_up_integer_size bits = Ret size ∧ native_width size ∧ (bits ≤ size ≤ 64)%Z ∧ (native_width bits → size = bits).
Proof.
  intros Hb. unfold round_up_integer_size, native_width.
  repeat case_match; try lia; eexists; (split; [done|]); lia.
Qed.

Lemma z_bits_wrap_le n w z : (Z.of_nat n ≤ w)%Z → z_bits n (wrap w z) = z_bits n z.
Proof.
  intros Hw. apply list_eq_same_length with n; [apply length_z_bits..|]. intros i x y Hi.
  rewrite !lookup_z_bits by done. intros [= <-] [= <-]. rewrite testbit_wrap, bool_decide_true by lia. done.
Qed.

Lemma writes_call_plain k bits z : (1 ≤ bits ≤ 64)%Z →
  writes k (λ p c, call_write (FnPlain bits) p c z) (z_bits (Z.to_nat bits) z).
Proof.
  intros Hb. cbn [call_write]. destruct (fields_exist (Z.to_nat bits)) as [[f Hf] _]; [lia|].
  replace (Z.to_nat (bits - 1)) with (Z.to_nat bits - 1) by lia. rewrite Hf.
  replace (Z.to_nat bits) with (S (Z.to_nat bits - 1)) at 1 by lia. by apply writes_field.
Qed.

Lemma writes_call_aligned k bits z : native_width bits → k mod 8 = 0 → (bits = 8%Z → is_u 8 z) →
  writes k (λ p c, call_write (FnAligned bits) p c z) (z_bits (Z.to_nat bits) z).
Proof.
  intros [->|[->|[->| ->]]] Hk Hz; cbn [call_write Z.eqb Pos.eqb].
  - by apply writes_aligned_u8; [|apply Hz].
  - by apply (writes_aligned 2).
  - by apply (writes_aligned 4).
  - by apply (writes_aligned 8).
Qed.

(** The functions for integers of aligned and of other fields. *)
Definition int_call (aligned : bool) : u8 → IntArg → bool → exec Stmt :=
  if aligned then CallWriteAligned else CallWrite.

Lemma aligned_fn_spec bits : (1 ≤ bits ≤ 64)%Z →
  ∃ fn, aligned_fn bits = Ret fn ∧ ((fn = FnAligned bits ∧ native_width bits) ∨ fn = FnPlain bits).
Proof.
  intros Hb. unfold aligned_fn, native_width. rewrite (proj2 (Z.eqb_neq bits 0)) by lia.
  destruct (_ || _) eqn:E; [eexists; split; [done|left; split; [done|lia]]|].
  rewrite (proj2 (Z.leb_le bits 63)) by lia. eauto.
Qed.

Section write.
Context (inner : Message → Impl) (to_memory : RustValue → list u8).

Abbreviation runs self var s := (λ p c, run_stmt inner to_memory p self var c s).

Definition arg_value (self var : RustValue) (arg : IntArg) : Z := eval_arg self var arg None.

Lemma int_call_spec aligned bits arg as_uint : (1 ≤ bits ≤ 64)%Z →
  ∃ s, int_call aligned bits arg as_uint = Ret s ∧
    ∀ self var k, (aligned = true → k mod 8 = 0) → (as_uint = false → is_u bits (arg_value self var arg)) →
      writes k (runs self var s) (z_bits (Z.to_nat bits) (arg_value self var arg)).
Proof.
  intros Hb. destruct (round_up_integer_size_spec bits Hb) as (size & Hsize & _ & Hle & Hnat).
  assert (Hcast : ∃ cast, uint_cast as_uint bits = Ret cast ∧ ∀ self var,
    z_bits (Z.to_nat bits) (eval_arg self var arg cast) = z_bits (Z.to_nat bits) (arg_value self var arg) ∧
    ((as_uint = false → is_u bits (arg_value self var arg)) → native_width bits → is_u bits (eval_arg self var arg cast))).
  { unfold uint_cast. destruct as_uint.
    - rewrite Hsize. exists (Some size). split; [done|]. intros self var. unfold arg_value, eval_arg.
      split; [apply z_bits_wrap_le; lia|]. intros _ Hn. rewrite (Hnat Hn). apply is_u_wrap. lia.
    - exists None. split; [done|]. intros self var. split; [done|]. intros Hu _. by apply Hu. }
  destruct Hcast as (cast & Hc & Hz). unfold int_call. destruct aligned.
  - unfold CallWriteAligned. destruct (aligned_fn_spec bits Hb) as (fn & -> & Hfn). cbn [mbind exec_bind].
    rewrite Hc. cbn [mbind exec_bind]. eexists. split; [done|]. intros self var k Hk Hu.
    destruct (Hz self var) as [<- Hu']. cbn [run_stmt]. destruct Hfn as [[-> Hn]| ->].
    + apply writes_call_aligned; [done|by apply Hk|]. intros ->. by apply Hu'.
    + by apply writes_call_plain.
  - unfold CallWrite. rewrite Hc. cbn [mbind exec_bind]. eexists. split; [done|]. intros self var k _ _.
    destruct (Hz self var) as [<- _]. cbn [run_stmt]. by apply writes_call_plain.
Qed.

(** *** Floating-point numbers *)

Lemma writes_float k bits self var e z : bits = 16%Z ∨ bits = 32%Z ∨ bits = 64%Z →
  float_of (eval self var e) = z → writes k (runs self var (SWriteFloat bits e)) (z_bits (Z.to_nat bits) z).
Proof.
  intros [->|[->| ->]] <-; cbn [run_stmt Z.eqb Pos.eqb].
  - by apply (writes_field 15).
  - by apply (writes_field 31).
  - by apply (writes_field 63).
Qed.

(** *** Fields *)

Context (to_camel_case : string → string) `{Combinatorics} (p : profile) (usize_bits : Z) (ok : Message → Prop).
Abbreviation typed := (message_typed to_camel_case).
Abbreviation bits := (message_bits to_camel_case).
Abbreviation scalar_ok := (scalar_regular to_camel_case ok).
Abbreviation type_ok := (type_regular to_camel_case ok).

(** What the implementations for the types of fields do. *)
Hypothesis inner_delimited : ∀ m, ok m → @is_delimited RustValue (impl_type (inner m)) = msg_delimited m.
Hypothesis inner_writes : ∀ m v, ok m → typed m v → writes 0 (λ p c, impl_serialize (inner m) p v c) (bits m v).
Hypothesis inner_size : ∀ m v, ok m → message_sized to_camel_case m → typed m v →
  (impl_size_bits (inner m) v + 7) / 8 = length (whole (bits m v)) / 8.

Lemma writes_composite_value k m self var e v : scalar_ok (RComposite some_key m) → eval self var e = v → typed m v →
  writes k (runs self var (SWriteComposite m e)) (composite_frame (msg_delimited m) k (bits m v)).
Proof.
  intros [Hm Hc] <- Hv. cbn [run_stmt]. rewrite <- (inner_delimited m Hm).
  apply (@writes_composite RustValue (impl_type (inner m)) (impl_ser (inner m))); [by apply inner_writes|].
  rewrite inner_delimited by done. unfold msg_delimited. unfold composite_regular in Hc.
  destruct (msg_extent m) as [|extent]; [done|]. intros _. destruct Hc as (Hs & Hu & _). split; [by apply inner_size|by apply Hu].
Qed.

(** Elements that a statement writes. *)
Lemma writes_for_each k ty self var e body : (∀ x k, scalar_typed typed ty x → writes k (runs self x body) (scalar_bits bits ty k x)) →
  Forall (scalar_typed typed ty) (elements_of (eval self var e)) →
  writes k (runs self var (SForEach e body)) (elements_bits bits ty k (elements_of (eval self var e))).
Proof.
  intros Hbody Hl. cbn [run_stmt].
  apply (writes_elements (λ p c x, run_stmt inner to_memory p self x c body) (scalar_bits bits ty)); [done|done|].
  intros k' x Hx. apply Hbody. by apply (proj1 (Forall_forall _ _) Hl).
Qed.

Lemma write_scalar_spec aligned e ty : scalar_ok ty →
  ∃ s, WriteField (int_call aligned) e (RScalar ty) = Ret [s] ∧
    ∀ self var k, (aligned = true → k mod 8 = 0) → scalar_typed typed ty (eval self var e) →
      writes k (runs self var s) (scalar_bits bits ty k (eval self var e)).
Proof.
  intros Hok. cbn [WriteField]. destruct ty as [key m|[|bits|bits mode|mode|mode|mode]|bits]; [..|done]; cbn [mbind exec_bind].
  - eexists. split; [done|]. intros. by apply writes_composite_value.
  - eexists. split; [done|]. intros self var k _ Hv. cbn [run_stmt scalar_bits primitive_bits]. apply writes_bool.
  - destruct (int_call_spec aligned bits (AExpr e) true) as (s & -> & Hs); [destruct Hok as [->|[->|[->| ->]]]; lia|].
    cbn [mbind exec_bind]. exists s. split; [done|]. intros self var k Hk _. by apply Hs.
  - destruct (int_call_spec aligned bits (AExpr e) false) as (s & -> & Hs); [done|].
    cbn [mbind exec_bind]. exists s. split; [done|]. intros self var k Hk Hv. apply Hs; [done|]. intros _.
    unfold arg_value. cbn [eval_arg]. cbn in Hv. by destruct (eval self var e).
  - eexists. split; [done|]. intros self var k _ _. apply (writes_float k 16); [lia|done].
  - eexists. split; [done|]. intros self var k _ _. apply (writes_float k 32); [lia|done].
  - eexists. split; [done|]. intros self var k _ _. apply (writes_float k 64); [lia|done].
Qed.

Lemma write_bytes_map {A} (f : A → Z) pr l : ∀ c, write_bytes pr c (f <$> l) = write_elements (λ c x, write_u8 pr c (f x)) c l.
Proof.
  induction l as [|b l IH]; intros c; [done|]. cbn [write_bytes write_elements fmap list_fmap].
  destruct (write_u8 pr c (f b)); [apply IH|done].
Qed.

Lemma write_elements_spec e ty : scalar_ok ty → is_boolean ty = false →
  ∃ s, WriteArrayElements ty e = Ret s ∧
    ∀ self var k, Forall (scalar_typed typed ty) (elements_of (eval self var e)) →
      writes k (runs self var s) (elements_bits bits ty k (elements_of (eval self var e))).
Proof.
  intros Hok Hb. destruct ty as [key m|primitive|bits]; [| |done]; cbn [WriteArrayElements].
  { eexists. split; [done|]. intros. apply writes_for_each; [|done]. intros. by apply writes_composite_value. }
  destruct (write_scalar_spec false EVar (RPrimitive primitive) Hok) as (s & Hs & Hw). cbn [WriteField int_call] in Hs.
  destruct primitive as [|bits|bits mode|mode|mode|mode]; [done|..].
  - cbn [mbind exec_bind] in Hs. destruct (CallWrite bits (AExpr EVar) true); [|done]. injection Hs as ->.
    eexists. split; [done|]. intros. apply writes_for_each; [|done]. intros. by apply (Hw self x k0).
  - destruct (Z.eqb_spec bits 8) as [->|Hne].
    + eexists. split; [done|]. intros self var k Hl. cbn [run_stmt].
      eapply writes_ext; [intros; symmetry; apply write_bytes_map|].
      apply (writes_elements (λ pr c x, write_u8 pr c (int_of x)) (scalar_bits bits (RPrimitive (PUInt 8 mode)))); [done|done|].
      intros k' x _. by apply (writes_field 7).
    + cbn [mbind exec_bind] in Hs. destruct (CallWrite bits (AExpr EVar) false); [|done]. injection Hs as ->.
      eexists. split; [done|]. intros. apply writes_for_each; [|done]. intros. by apply (Hw self x k0).
  - eexists. split; [done|]. intros. apply writes_for_each; [|done]. intros. injection Hs as <-. by apply (Hw self x k0).
  - eexists. split; [done|]. intros. apply writes_for_each; [|done]. intros. injection Hs as <-. by apply (Hw self x k0).
  - eexists. split; [done|]. intros. apply writes_for_each; [|done]. intros. injection Hs as <-. by apply (Hw self x k0).
Qed.

Lemma writes_one k self var s bits : writes k (runs self var s) bits →
  writes k (λ p c, run_stmts inner to_memory p self var c [s]) bits.
Proof.
  intros Hw. eapply writes_ext; [|exact Hw]. intros pr c. cbn [run_stmts].
  by destruct (run_stmt inner to_memory pr self var c s).
Qed.

Lemma writes_app k self var l1 l2 bits1 bits2 :
  writes k (λ p c, run_stmts inner to_memory p self var c l1) bits1 →
  writes (k + length bits1) (λ p c, run_stmts inner to_memory p self var c l2) bits2 →
  writes k (λ p c, run_stmts inner to_memory p self var c (l1 ++ l2)) (bits1 ++ bits2).
Proof.
  intros H1 H2. eapply writes_ext; [|exact (writes_bind _ _ _ _ _ H1 H2)]. intros pr c. cbv beta. revert c.
  clear H1 H2. induction l1 as [|s l1 IH]; intros c; [done|]. cbn [run_stmts app].
  destruct (run_stmt inner to_memory pr self var c s); [apply IH|done].
Qed.

(** Where arrays of composite values start. *)
Definition array_at_byte (ty : ResolvedType) (k : nat) : Prop :=
  match ty with
  | RScalar _ => True
  | RFixedArray s _ | RVariableArray s _ => is_composite s = true → k mod 8 = 0
  end.

Lemma array_pad s k : (is_composite s = true → k mod 8 = 0) → (if is_composite s then zeros (pad_bits k) else []) = [].
Proof. intros Hk. destruct (is_composite s); [|done]. by rewrite pad_bits_0 by (by apply Hk). Qed.

Lemma write_field_spec aligned e ty : type_ok ty →
  ∃ l, WriteField (int_call aligned) e ty = Ret l ∧
    ∀ self var k, (aligned = true → k mod 8 = 0) → array_at_byte ty k → type_typed typed ty (eval self var e) →
      writes k (λ p c, run_stmts inner to_memory p self var c l) (type_bits bits ty k (eval self var e)).
Proof.
  destruct ty as [s|s len|s max_len]; cbn [type_regular].
  - intros Hok. destruct (write_scalar_spec aligned e s Hok) as (st & -> & Hw). eexists. split; [done|].
    intros self var k Hk _ Hv. apply writes_one. by apply Hw.
  - intros [Hok Hlen]. cbn [WriteField type_bits]. destruct (is_boolean s) eqn:Hb.
    + eexists. split; [done|]. intros self var k _ Hk Hv. rewrite array_pad by exact Hk. apply writes_one.
      cbn [run_stmt app]. unfold array_bits. cbn [type_typed] in Hv. unfold array_typed in Hv. rewrite Hb in *.
      destruct (eval self var e); try done. apply writes_bits, Hv.
    + destruct (write_elements_spec e s Hok Hb) as (st & -> & Hw). eexists. split; [done|].
      intros self var k _ Hk Hv. rewrite array_pad by exact Hk. apply writes_one.
      cbn [app length]. rewrite Nat.add_0_r. unfold array_bits. cbn [type_typed] in Hv. unfold array_typed in Hv.
      rewrite Hb in *. apply Hw. destruct (eval self var e); try done; apply Hv.
  - intros (Hok & Hb & Hm). cbn [WriteField type_bits implicit_field]. rewrite Hb.
    destruct (array_length_bits_spec max_len ltac:(lia)) as [Hn%native_width_bounds _].
    destruct (int_call_spec aligned (array_length_bits max_len) (ALen e) true) as (st1 & -> & Hw1); [lia|].
    destruct (write_elements_spec e s Hok Hb) as (st2 & -> & Hw2). cbn [mbind exec_bind]. eexists. split; [done|].
    intros self var k Hk Hc Hv. rewrite array_pad by exact Hc. cbn [app length]. rewrite Nat.add_0_r.
    apply (writes_app k self var [st1] [st2]); apply writes_one; [by apply (Hw1 self var)|].
    unfold array_bits. cbn [type_typed] in Hv. unfold array_typed in Hv. rewrite Hb in *. apply Hw2.
    destruct (eval self var e); try done; apply Hv.
Qed.

(** ** Structs and unions *)

(** The field of the generated type for a field of the message. *)
Definition generated_field (f : Field) (g : GeneratedField) : Prop :=
  match field_kind f with
  | PaddingField bits => g = GPadding bits
  | DataField ty name => ∃ rust_type, g = GData (mkGeneratedDataField (field_ident name) rust_type ty (always_aligned f))
  end.
Definition generated_variant (v : Variant) (g : GeneratedVariant) : Prop :=
  gv_uavcan_ty g = variant_ty v ∧ gv_name g = variant_ident to_camel_case (variant_name v).

Lemma skip_fns_spec n : (1 ≤ n ≤ 64)%Z →
  (∃ f, wc_skip_fns !! Z.to_nat (n - 1) = Some f ∧ ∀ c, f c = wc_skip_bits c (Z.to_nat n)) ∧
  (∃ f, rc_skip_fns !! Z.to_nat (n - 1) = Some f ∧ ∀ c, f c = rc_advance_bits c (Z.to_nat n)).
Proof.
  intros Hn. replace (Z.to_nat n) with (S (Z.to_nat (n - 1))) by lia.
  assert (Hlt : Z.to_nat (n - 1) < 64) by lia. revert Hlt. generalize (Z.to_nat (n - 1)). clear. intros i Hi.
  do 64 (destruct i as [|i]; [split; eexists; split; done|]). lia.
Qed.

Lemma serialize_field_spec kind aligned g : generated_field (mkField kind aligned) g →
  match kind with PaddingField bits => (1 ≤ bits ≤ 64)%Z | DataField ty _ => type_ok ty end →
  ∃ l, SerializeField g = Ret l ∧
    ∀ self k, field_placed kind aligned k →
      match kind with
      | PaddingField _ => True
      | DataField ty name => type_typed typed ty (eval self no_value (ESelfField (field_ident name)))
      end →
      writes k (λ p c, run_stmts inner to_memory p self no_value c l) (field_bits bits kind k self).
Proof.
  unfold generated_field. cbn [field_kind always_aligned]. destruct kind as [n|ty name].
  - intros -> Hn. eexists. split; [done|]. intros self k _ _. apply writes_one. cbn [run_stmt field_bits].
    destruct (skip_fns_spec n Hn) as [(f & -> & Hf) _]. eapply writes_ext; [|apply writes_zeros].
    intros pr c. by rewrite Hf.
  - intros [rt ->] Hty. cbn [SerializeField gdf_always_aligned gdf_name gdf_uavcan_ty].
    destruct (write_field_spec aligned (ESelfField (field_ident name)) ty Hty) as (l & Hl & Hw). exists l.
    split; [by destruct aligned|]. intros self k [Ha Hk] Hv. by apply Hw.
Qed.

Lemma serialize_fields_spec fields gs : Forall2 generated_field fields gs →
  fields_regular to_camel_case ok fields →
  ∃ body, mapM SerializeField gs = Ret body ∧
    ∀ self k l, fields_typed typed fields l →
      (∀ n x, (n, x) ∈ l → eval self no_value (ESelfField n) = x) →
      fields_at to_camel_case field_placed fields k self →
      writes k (λ p c, run_stmts inner to_memory p self no_value c (concat body)) (fields_bits bits fields k self).
Proof.
  induction 1 as [|[kind aligned] g fields gs Hg _ IH].
  { intros _. exists []. split; [done|]. intros. apply writes_nil. }
  intros [Hf Hfs]. destruct (serialize_field_spec kind aligned g Hg Hf) as (s & Hs & Hw).
  destruct (IH Hfs) as (body & Hbody & Hws). exists (s :: body). split.
  { cbn. rewrite Hs. cbn [mbind exec_bind]. by rewrite Hbody. }
  intros self k l Hl Hself [Hk Hks]. cbn [concat fields_bits]. apply writes_app.
  - apply Hw; [done|]. destruct kind as [n|ty name]; [done|]. cbn [fields_typed] in Hl.
    destruct l as [|[n x] l]; [done|]. destruct Hl as (-> & Hx & _). rewrite (Hself _ x) by set_solver. done.
  - destruct kind as [n|ty name]; cbn [fields_typed] in Hl; [by apply (Hws self _ l)|].
    destruct l as [|[n x] l]; [done|]. destruct Hl as (_ & _ & Hl). apply (Hws self _ l); [done|set_solver|done].
Qed.

Lemma WriteVariant_field ty : WriteVariant ty = WriteField (int_call true) EVar ty.
Proof. by destruct ty as [[key m|primitive|n]|s len|s max_len]. Qed.

Lemma serialize_arm_spec tag_bits i variant g : generated_variant variant g → native_width tag_bits →
  (Z.of_nat i < 2 ^ tag_bits)%Z → type_ok (variant_ty variant) →
  ∃ body, serialize_arm tag_bits i g = Ret (variant_ident to_camel_case (variant_name variant), body) ∧
    ∀ self v, type_typed typed (variant_ty variant) v →
      writes 0 (λ p c, run_stmts inner to_memory p self v c body)
        (z_bits (Z.to_nat tag_bits) (Z.of_nat i) ++ type_bits bits (variant_ty variant) (Z.to_nat tag_bits) v).
Proof.
  intros [Hty Hname] Htag Hi Hok. unfold serialize_arm. rewrite Hty, Hname, WriteVariant_field.
  destruct (write_field_spec true EVar (variant_ty variant) Hok) as (l & -> & Hw). cbn [mbind exec_bind].
  eexists. split; [done|]. intros self v Hv.
  pose proof (native_width_bytes _ Htag) as H8.
  apply (writes_app 0 self v [_] l).
  - apply writes_one. cbn [run_stmt eval_arg]. apply writes_call_aligned; [done|done|]. intros ->. split; lia.
  - rewrite length_z_bits. apply (Hw self v); [done| |done]. by destruct (variant_ty variant); cbn; [|intros _..].
Qed.

Lemma serialize_variants_spec tag_bits variants gs : Forall2 generated_variant variants gs → native_width tag_bits →
  variants_regular to_camel_case ok variants → ∀ i, (Z.of_nat (i + length variants) ≤ 2 ^ tag_bits)%Z →
  ∃ arms, mapi_exec (serialize_arm tag_bits) i gs = Ret arms ∧
    ∀ self name v, variants_typed to_camel_case typed variants name v →
      ∃ body, find_arm name arms = Some body ∧
        writes 0 (λ p c, run_stmts inner to_memory p self v c body)
          (variants_bits to_camel_case bits (Z.to_nat tag_bits) i variants name v).
Proof.
  intros HF Htag. induction HF as [|[ty n] g variants gs Hg _ IH]; intros Hok i Hi; [by exists []|].
  destruct Hok as [Hty Hok]. cbn [length] in Hi. cbn [mapi_exec].
  destruct (serialize_arm_spec tag_bits i (mkVariant ty n) g Hg Htag) as (body & -> & Hw); [lia|done|]. cbn [mbind exec_bind].
  destruct (IH Hok (S i)) as (arms & -> & Hws); [lia|]. cbn [mbind exec_bind]. eexists. split; [done|].
  intros self name v Hv. cbn [find_arm variants_bits variants_typed variant_name variant_ty] in *.
  case_bool_decide; [exists body; split; [done|by apply Hw]|by apply Hws].
Qed.
End write.
