(* ===== verification/RustGenRead.v ===== *)
(** * What the generated deserializers read

    For a field of any type, the expression that the generator prints reads back a value from
    its bits, given that the implementations for the types within do. *)

From stdpp Require Import strings.
From S2P Require Import Prelude EncCursor EncFields EncBits EncCursorSpec EncFieldsSpec Codec RegisterTypes RegisterTypesSpec.
From S2P Require Import BitLengths BitLengthsSpec BitLengthsClaims.
From S2P Require Import BitStreams DsdlTypes RustCode RustGen DsdlWire RustGenWrite.

#[local] Open Scope nat_scope.

(** ** Integers *)

Lemma reads_call_plain k bits z : (1 ≤ bits ≤ 64)%Z →
  reads k (λ p c, call_read (FnPlain bits) p c) (z_bits (Z.to_nat bits) z) (wrap bits z).
Proof.
  intros Hb. cbn [call_read]. destruct (fields_exist (Z.to_nat bits)) as [_ [g Hg]]; [lia|].
  replace (Z.to_nat (bits - 1)) with (Z.to_nat bits - 1) by lia. rewrite Hg.
  pose proof (reads_field _ _ k z Hg) as Hr. replace (S (Z.to_nat bits - 1)) with (Z.to_nat bits) in Hr by lia.
  by rewrite Z2Nat.id in Hr by lia.
Qed.

Lemma reads_call_aligned k bits z : native_width bits → k mod 8 = 0 →
  reads k (λ p c, call_read (FnAligned bits) p c) (z_bits (Z.to_nat bits) z) (wrap bits z).
Proof.
  intros [->|[->|[->| ->]]] Hk; cbn [call_read Z.eqb Pos.eqb].
  - by apply reads_aligned_u8.
  - by apply reads_aligned_u16.
  - by apply reads_aligned_u32.
  - by apply reads_aligned_u64.
Qed.

Lemma cast_signed bits z : native_width bits → is_i bits z → cast_int (mkIntType true bits) (wrap bits z) = z.
Proof.
  intros Hn Hz. pose proof (native_width_bounds bits Hn). unfold cast_int. cbn [it_signed it_bits].
  rewrite wrap_wrap by lia. apply as_signed_wrap; [lia|done].
Qed.
Lemma cast_unsigned bits size z : (0 ≤ bits ≤ size)%Z → is_u bits z → cast_int (mkIntType false size) (wrap bits z) = z.
Proof.
  intros Hb Hz. unfold cast_int. cbn [it_signed it_bits]. rewrite (wrap_small bits) by done.
  apply wrap_small. apply (is_u_mono bits); [done|lia].
Qed.
Lemma cast_i32 n : (0 ≤ n < 2 ^ 31)%Z → cast_int i32_type n = n.
Proof.
  intros Hn. unfold cast_int, i32_type. cbn [it_signed it_bits]. apply as_signed_wrap; [lia|]. unfold is_i. lia.
Qed.

(** ** Padding at the end *)

Section read.
Context (inner : Message → Impl) (to_camel_case : string → string) `{Combinatorics} (ok : Message → Prop).
Abbreviation typed := (message_typed to_camel_case).
Abbreviation bits := (message_bits to_camel_case).
Abbreviation scalar_ok := (scalar_regular to_camel_case ok).
Abbreviation type_ok := (type_regular to_camel_case ok).

Lemma trim_padding_bits fields v : ∀ k, ∃ n,
  fields_bits bits fields k v = fields_bits bits (trim_padding fields) k v ++ zeros n.
Proof.
  induction fields as [|[kind aligned] fields IH]; intros k; [by exists 0|].
  cbn [fields_bits trim_padding]. destruct (IH (k + length (field_bits bits kind k v))) as [n E]. rewrite E.
  destruct kind as [m|ty name], (trim_padding fields) as [|f rest] eqn:Ht.
  - cbn [field_bits fields_bits app]. exists (Z.to_nat m + n). by rewrite zeros_app.
  - exists n. cbn [fields_bits]. by rewrite <- app_assoc.
  - exists n. cbn [fields_bits]. by rewrite app_nil_r.
  - exists n. cbn [fields_bits]. by rewrite <- app_assoc.
Qed.

Lemma message_data_bits_first m v : typed m v →
  ∃ rest, bits m v = message_data_bits to_camel_case m v ++ rest.
Proof.
  destruct m as [d e [fields|tag_bits variants] bl cs]; intros _.
  - destruct (trim_padding_bits fields v 0) as [n E]. exists (zeros n). exact E.
  - exists []. by rewrite app_nil_r.
Qed.

Hypothesis inner_delimited : ∀ m, ok m → @is_delimited RustValue (impl_type (inner m)) = msg_delimited m.
Hypothesis inner_reads : ∀ m v, ok m → typed m v →
  reads 0 (impl_deserialize (inner m)) (message_data_bits to_camel_case m v) (Ok v).

Lemma reads_composite_value k m v : scalar_ok (RComposite some_key m) → typed m v →
  reads k (λ p, run_read inner p (RdComposite m)) (composite_frame (msg_delimited m) k (bits m v)) (Ok v).
Proof.
  intros [Hm Hc] Hv. pose proof (inner_delimited m Hm) as Hd. pose proof (inner_reads m v Hm Hv) as Hr.
  unfold composite_regular in Hc. unfold msg_delimited in *. cbn [run_read].
  destruct (message_data_bits_first m v Hv) as [rest E]. destruct (msg_extent m) as [|extent].
  - specialize (Hc v Hv). rewrite E in *. by apply (@reads_composite_sealed RustValue (impl_type (inner m)) (impl_de (inner m))).
  - destruct Hc as (_ & Hu & _). specialize (Hu v Hv). rewrite E in *.
    by apply (@reads_composite_delimited RustValue (impl_type (inner m)) (impl_de (inner m))).
Qed.

(** ** Fields *)

Abbreviation rdr e := (λ p, run_read inner p e).

Lemma reads_int k bits ty z x : (1 ≤ bits ≤ 64)%Z → cast_int ty (wrap bits z) = x →
  reads k (rdr (RdInt (FnPlain bits) ty)) (z_bits (Z.to_nat bits) z) (Ok (RInt x)).
Proof.
  intros Hb <-. cbn [run_read].
  apply (reads_finish k _ (λ x, Ok (RInt (cast_int ty x)))). by apply reads_call_plain.
Qed.

Lemma reads_float k bits z : bits = 16%Z ∨ bits = 32%Z ∨ bits = 64%Z → is_u bits z →
  reads k (rdr (RdFloat bits)) (z_bits (Z.to_nat bits) z) (Ok (RFloat z)).
Proof.
  intros Hb Hz. cbn [run_read]. apply (reads_finish k _ (λ x, Ok (RFloat x))).
  rewrite <- (wrap_small bits z) at 2 by done. destruct Hb as [->|[->| ->]]; cbn [Z.eqb Pos.eqb].
  - by apply (reads_field 15).
  - by apply (reads_field 31).
  - by apply (reads_field 63).
Qed.

Lemma read_scalar_spec ty : scalar_ok ty →
  ∃ e, ReadUnalignedScalar ty = Ret e ∧
    ∀ v k, scalar_typed typed ty v → reads k (rdr e) (scalar_bits bits ty k v) (Ok v).
Proof.
  intros Hok. unfold ReadUnalignedScalar. destruct ty as [key m|[|n|n mode|mode|mode|mode]|n]; [..|done].
  - eexists. split; [done|]. intros v k Hv. by apply reads_composite_value.
  - eexists. split; [done|]. intros [b| | | | | |] k Hv; try done. cbn [run_read scalar_bits primitive_bits].
    apply (reads_finish k _ (λ b, Ok (RBool b))), reads_bool.
  - cbn [scalar_regular] in Hok. pose proof (native_width_bounds n Hok) as Hb. unfold int_type, CallRead.
    destruct (round_up_integer_size_spec n Hb) as (size & -> & _ & _ & Hs). rewrite (Hs Hok). cbn [mbind exec_bind].
    eexists. split; [done|]. intros [|z| | | | |] k Hv; try done. apply reads_int; [done|by apply cast_signed].
  - cbn [scalar_regular] in Hok. unfold int_type, CallRead.
    destruct (round_up_integer_size_spec n Hok) as (size & -> & _ & Hs & _). cbn [mbind exec_bind].
    eexists. split; [done|]. intros [|z| | | | |] k Hv; try done. apply reads_int; [done|]. apply cast_unsigned; [lia|done].
  - eexists. split; [done|]. intros [| |z| | | |] k Hv; try done. apply (reads_float k 16); [lia|done].
  - eexists. split; [done|]. intros [| |z| | | |] k Hv; try done. apply (reads_float k 32); [lia|done].
  - eexists. split; [done|]. intros [| |z| | | |] k Hv; try done. apply (reads_float k 64); [lia|done].
Qed.

Section elements.
Context (ty : ResolvedScalarType) (e : ReadExpr).
Hypothesis element_reads : ∀ v k, scalar_typed typed ty v → reads k (rdr e) (scalar_bits bits ty k v) (Ok v).

Lemma read_all_spec l : Forall (scalar_typed typed ty) l → ∀ k,
  reads k (λ p, read_all (run_read inner p <$> replicate (length l) e)) (elements_bits bits ty k l) (Ok l).
Proof.
  induction 1 as [|v l Hv _ IH]; intros k; cbn [length replicate fmap list_fmap read_all elements_bits]; [apply reads_ret|].
  refine (reads_try k (rdr e) (λ p x c, try_read (read_all (run_read inner p <$> replicate (length l) e) c)
    (λ xs c, Ret (c, Ok (x :: xs)))) _ _ v _ (element_reads v k Hv) _).
  by apply (reads_try_finish _ _ (λ xs, v :: xs)).
Qed.

Lemma push_all_spec max_len l : Forall (scalar_typed typed ty) l → ∀ k acc,
  (Z.of_nat (length acc + length l) ≤ max_len)%Z →
  reads k (λ p c, push_all (run_read inner p e) max_len (length l) c acc) (elements_bits bits ty k l) (Ok (acc ++ l)).
Proof.
  induction 1 as [|v l Hv _ IH]; intros k acc Hlen; cbn [length push_all elements_bits] in *.
  { rewrite app_nil_r. apply reads_ret. }
  refine (reads_try k (rdr e) (λ p x c, push_all (run_read inner p e) max_len (length l) c (push_ignoring (Z.to_nat max_len) acc x))
    _ _ v _ (element_reads v k Hv) _).
  unfold push_ignoring. rewrite (proj2 (Nat.ltb_lt _ _)) by lia. rewrite (cons_middle v acc l), app_assoc.
  apply IH. rewrite length_app. cbn. lia.
Qed.
End elements.

Lemma read_field_spec ty : type_ok ty →
  ∃ e, ReadUnalignedField ty = Ret e ∧
    ∀ v k, array_at_byte ty k → type_typed typed ty v → reads k (rdr e) (type_bits bits ty k v) (Ok v).
Proof.
  destruct ty as [s|s len|s max_len]; cbn [type_regular ReadUnalignedField].
  - intros Hok. destruct (read_scalar_spec s Hok) as (e & -> & Hr). exists e. split; [done|]. intros. by apply Hr.
  - intros [Hok Hlen]. destruct (is_boolean s) eqn:Hb.
    + eexists. split; [done|]. intros v k Hk. cbn [type_typed type_bits]. unfold array_typed, array_bits. rewrite Hb.
      destruct v as [| | |a| | |]; try done. intros [Ha Hl]. rewrite array_pad by exact Hk. cbn [run_read app bits_of].
      rewrite <- Hl. destruct s as [|[]|]; try done.
      pose proof (reads_finish k _ (λ a, Ok (RBits a) : result DeserializeError RustValue) _ _ (reads_bits _ k a Ha ltac:(unfold bit_array_capacity; rewrite Hl;
        zify; Z.to_euclidean_division_equations; lia))) as Hr.
      intros pr r Hs Hi. destruct (Hr pr r Hs Hi) as (r' & E & C). exists r'. split; [|done].
      destruct (ba_deserialize (Z.to_nat (bit_array_capacity len)) pr (ba_len a) r) as [[a' r'']|]; [|done].
      exact E.
    + destruct (read_scalar_spec s Hok) as (e & -> & Hr). cbn [mbind exec_bind]. eexists. split; [done|].
      intros v k Hk. cbn [type_typed type_bits]. unfold array_typed, array_bits. rewrite Hb.
      destruct v as [| | | |l| |]; try done. intros [Hl Hall]. rewrite array_pad by exact Hk. cbn [run_read app length elements_of].
      rewrite Nat.add_0_r, <- Hl. apply (reads_try_finish k _ RArray). by apply (read_all_spec s).
  - intros (Hok & Hb & Hm). cbn [implicit_field]. rewrite Hb.
    destruct (read_scalar_spec s Hok) as (e & -> & Hr). cbn [mbind exec_bind]. eexists. split; [done|].
    intros v k Hk. cbn [type_typed type_bits]. unfold array_typed, array_bits. rewrite Hb.
    destruct v as [| | | |l| |]; try done. intros [Hl Hall]. rewrite array_pad by exact Hk.
    cbn [run_read app length elements_of len_of]. rewrite Nat.add_0_r.
    destruct (array_length_bits_spec max_len ltac:(lia)) as [Hn%native_width_bounds Hlt].
    refine (reads_bind k _ (λ p x c, let length := cast_int i32_type x in if (length <=? max_len)%Z then
      try_read (push_all (run_read inner p e) max_len (Z.to_nat length) c []) (λ l c, Ret (c, Ok (RArray l)))
      else Ret (c, Err EncFields.ArrayLength)) _ _ _ _ (reads_call_plain k _ _ _) _); [lia|].
    cbv zeta. rewrite wrap_small by (unfold is_u; lia). rewrite cast_i32, Nat2Z.id, (proj2 (Z.leb_le _ _)) by lia.
    apply (reads_try_finish _ _ RArray). apply (push_all_spec s e Hr max_len l Hall _ []). cbn. lia.
Qed.

(** ** Structs *)

Definition total_padding (skips : list u8) : nat := sum_list_with Z.to_nat skips.

Lemma total_padding_app a b : total_padding (a ++ b) = total_padding a + total_padding b.
Proof. apply sum_list_with_app. Qed.

Lemma reads_skips {A} skips (rd : profile → ReadCursor → exec (ReadCursor * A)) bits a :
  Forall (λ n, 1 ≤ n ≤ 64)%Z skips → ∀ k, reads (k + total_padding skips) rd bits a →
  reads k (λ p c, c ← skip_all skips c; rd p c) (zeros (total_padding skips) ++ bits) a.
Proof.
  induction 1 as [|n skips Hn _ IH]; intros k Hr; cbn [skip_all].
  { rewrite Nat.add_0_r in Hr. exact Hr. }
  change (total_padding (n :: skips)) with (Z.to_nat n + total_padding skips) in *. rewrite <- zeros_app, <- app_assoc. destruct (skip_fns_spec n Hn) as [_ (f & -> & Hf)].
  rewrite Nat.add_assoc in Hr. pose proof (reads_skip k (Z.to_nat n) _ (zeros (Z.to_nat n)) _ _ (length_zeros _) (IH _ Hr)) as HR.
  intros pr r Hs Hi. rewrite Hf. by apply HR.
Qed.

(** The bits from the padding before the fields to the last field. *)
Definition pending_bits (fields : list Field) (padding k : nat) (v : RustValue) : list bool :=
  match trim_padding fields with
  | [] => []
  | rest => zeros padding ++ fields_bits bits rest (k + padding) v
  end.

Lemma pending_bits_padding n aligned fields padding k v :
  pending_bits (mkField (PaddingField n) aligned :: fields) padding k v =
  pending_bits fields (padding + Z.to_nat n) k v.
Proof.
  unfold pending_bits. cbn [trim_padding]. destruct (trim_padding fields) as [|f rest]; [done|].
  cbn [fields_bits field_bits]. rewrite <- zeros_app, <- !app_assoc, length_zeros. by rewrite Nat.add_assoc.
Qed.
Lemma pending_bits_data ty name aligned fields padding k v :
  pending_bits (mkField (DataField ty name) aligned :: fields) padding k v =
  zeros padding ++ field_bits bits (DataField ty name) (k + padding) v ++
    pending_bits fields 0 (k + padding + length (field_bits bits (DataField ty name) (k + padding) v)) v.
Proof.
  unfold pending_bits. cbn [trim_padding fields_bits]. f_equal. f_equal. rewrite Nat.add_0_r.
  by destruct (trim_padding fields).
Qed.

Lemma deserialize_fields_spec fields gs : Forall2 generated_field fields gs → fields_regular to_camel_case ok fields →
  ∀ pending, Forall (λ n, 1 ≤ n ≤ 64)%Z pending →
  ∃ code, deserialize_struct gs pending = Ret code ∧
    ∀ self k l, fields_typed typed fields l → (∀ n x, (n, x) ∈ l → eval self no_value (ESelfField n) = x) →
      fields_at to_camel_case field_placed fields (k + total_padding pending) self →
      reads k (λ p, read_fields inner p code) (pending_bits fields (total_padding pending) k self) (Ok l).
Proof.
  induction 1 as [|[kind aligned] g fields gs Hg _ IH].
  { intros _ pending _. exists []. split; [done|]. intros self k l Hl _ _. cbn in Hl. subst l. apply reads_ret. }
  unfold generated_field in Hg. cbn [field_kind] in Hg. destruct kind as [n|ty name]; intros [Hf Hfs] pending Hpending.
  - rewrite Hg. cbn [deserialize_struct]. destruct (IH Hfs (pending ++ [n])) as (code & -> & Hr); [by apply Forall_app; split; [|constructor]|].
    exists code. split; [done|]. intros self k l Hl Hself [_ Hk]. rewrite pending_bits_padding.
    rewrite total_padding_app in Hr. cbn [total_padding sum_list_with] in Hr. rewrite Nat.add_0_r in Hr.
    apply Hr; [done|done|]. cbn [field_bits] in Hk. by rewrite length_zeros, <- Nat.add_assoc in Hk.
  - destruct Hg as [rt ->]. cbn [deserialize_struct gdf_uavcan_ty gdf_name].
    destruct (read_field_spec ty Hf) as (e & -> & He). cbn [mbind exec_bind].
    destruct (IH Hfs []) as (code & -> & Hr); [done|]. cbn [mbind exec_bind]. eexists. split; [done|].
    intros self k [|[n x] l] Hl Hself [[_ Hk] Hks]; [done|]. destruct Hl as (-> & Hx & Hl).
    rewrite pending_bits_data. cbn [read_fields].
    apply (reads_skips pending (λ p c, try_read (run_read inner p e c) (λ v c, try_read (read_fields inner p code c)
      (λ l c, Ret (c, Ok ((field_ident name, v) :: l)))))); [done|].
    assert (Ev : eval self no_value (ESelfField (field_ident name)) = x) by (apply Hself; set_solver).
    refine (reads_try _ (λ p, run_read inner p e) (λ p v c, try_read (read_fields inner p code c)
      (λ l c, Ret (c, Ok ((field_ident name, v) :: l)))) _ _ x _ _ _).
    + cbn [field_bits]. rewrite Ev. by apply He.
    + apply (reads_try_finish _ _ (λ l, (field_ident name, x) :: l)).
      apply Hr; [done|set_solver|]. cbn [total_padding sum_list_with]. by rewrite Nat.add_0_r.
Qed.

(** ** Unions *)

Lemma deserialize_variants_spec variants gs : Forall2 (generated_variant to_camel_case) variants gs →
  variants_regular to_camel_case ok variants →
  ∃ arms, mapM (λ v, e ← ReadUnalignedField (gv_uavcan_ty v); Ret (gv_name v, e)) gs = Ret arms ∧
    ∀ tag_bits i name v, tag_bits mod 8 = 0 → variants_typed to_camel_case typed variants name v →
      ∃ j e ty, arms !! j = Some (name, e) ∧ j < length variants ∧
        variants_bits to_camel_case bits tag_bits i variants name v =
          z_bits tag_bits (Z.of_nat (i + j)) ++ type_bits bits ty tag_bits v ∧
        reads tag_bits (rdr e) (type_bits bits ty tag_bits v) (Ok v).
Proof.
  induction 1 as [|[ty n] g variants gs [Hty Hname] _ IH].
  { intros _. by exists []. }
  intros [Hok Hoks]. cbn [variant_ty variant_name] in *. destruct (read_field_spec ty Hok) as (e & He & Hr).
  destruct (IH Hoks) as (arms & Harms & IH'). exists ((variant_ident to_camel_case n, e) :: arms). split.
  { cbn. rewrite Hty, He, Hname. cbn [mbind exec_bind]. by rewrite Harms. }
  intros tag_bits i name v Htag Hv. cbn [variants_typed variants_bits] in *. case_bool_decide as Hn.
  - exists 0, e, ty. rewrite Nat.add_0_r. subst name. split_and!; [done|cbn; lia|done|].
    apply Hr; [|done]. by destruct ty; cbn; [|intros _..].
  - destruct (IH' tag_bits (S i) name v Htag Hv) as (j & e' & ty' & Hj & Hlt & E & Hr'). exists (S j), e', ty'.
    split_and!; [done|cbn; lia|rewrite E; do 3 f_equal; lia|done].
Qed.
End read.
