(* ===== verification/RustGenSize.v ===== *)
(** * The sizes that the generated code computes

    The generated [size_bits] is the number of bits that [serialize] writes, up to a byte, for
    messages whose composite values start at bytes and take whole bytes. Types that the
    generator copies from and to memory have their encoding as their form there. *)

From stdpp Require Import strings.
From S2P Require Import Prelude EncCursor EncFields EncBits EncCursorSpec EncFieldsSpec Codec RegisterTypes RegisterTypesSpec.
From S2P Require Import BitLengths BitLengthsSpec BitLengthsClaims.
From S2P Require Import BitStreams DsdlTypes RustCode RustGen DsdlWire RustGenWrite RustGenRead.

#[local] Open Scope nat_scope.

Section size.
Context (inner : Message → Impl) (to_camel_case : string → string) `{CombinatoricsSpec} (p : profile) (usize_bits : Z).
Context (ok : Message → Prop).
Abbreviation typed := (message_typed to_camel_case).
Abbreviation bits := (message_bits to_camel_case).
Abbreviation sized := (message_sized to_camel_case).
Abbreviation scalar_ok := (scalar_regular to_camel_case ok).
Abbreviation type_ok := (type_regular to_camel_case ok).

(** The least and the greatest length of a message. *)
Lemma message_bounds m : lengths_sound to_camel_case usize_bits m →
  ∃ mn mx, min_value p (msg_bit_length m) = Ret mn ∧ max_value p (msg_bit_length m) = Ret mx ∧
    (0 ≤ mn)%Z ∧ bls_lengths (msg_bit_length m) mn ∧
    (mn = mx → ∀ v, typed m v → whole_bytes (Z.to_nat mn) = whole_bytes (length (bits m v))).
Proof.
  intros (Hok & Hf & Hl). destruct (bls_bounds_exact p usize_bits _ Hok Hf) as (mn & mx & s & E1 & E2 & _ & Hmn & Hmx & _).
  exists mn, mx. destruct Hmn as [Hmn Hleast], Hmx as [Hmx Hgreatest]. split_and!; [done|done| |done|].
  - exact (lengths_nonneg _ _ Hok Hmn).
  - intros <- v Hv. destruct (Hl v Hv) as (n & Hn & <-). f_equal.
    specialize (Hleast _ Hn). specialize (Hgreatest _ Hn). lia.
Qed.

Hypothesis inner_sound : ∀ m, ok m → lengths_sound to_camel_case usize_bits m.
(** The size of a value of a type without a fixed size. *)
Hypothesis inner_exact : ∀ m v, ok m → sized m → typed m v →
  min_value p (msg_bit_length m) ≠ max_value p (msg_bit_length m) →
  impl_size_bits (inner m) v = length (bits m v).

Abbreviation scalar_size_ok := (scalar_sized to_camel_case sized).

Lemma whole_bytes_mod n : n mod 8 = 0 → whole_bytes n = n.
Proof. unfold whole_bytes. dlia. Qed.

Lemma composite_bits_length m k v : k mod 8 = 0 → length (bits m v) mod 8 = 0 →
  length (composite_frame (msg_delimited m) k (bits m v)) = (if msg_delimited m then 32 else 0) + length (bits m v).
Proof.
  intros Hk Hb. unfold composite_frame. rewrite pad_bits_0, !length_app, length_whole, whole_bytes_mod by done.
  unfold delimiter. by destruct (msg_delimited m); [rewrite length_z_bits|].
Qed.

Lemma scalar_size_spec ty e : scalar_ok ty →
  ∃ sz, WriteScalarSize p ty e = Ret sz ∧
    (scalar_size_ok ty → ∀ self var k, (is_composite ty = true → k mod 8 = 0) → scalar_typed typed ty (eval self var e) →
      eval_size inner self var sz = length (scalar_bits bits ty k (eval self var e))).
Proof.
  intros Hok. destruct ty as [key m|primitive|n]; [..|done]; cbn [WriteScalarSize].
  - destruct (message_bounds m (inner_sound m (proj1 Hok))) as (mn & mx & E1 & E2 & Hnn & Hmn & Hfix).
    rewrite E1. cbn [mbind exec_bind]. rewrite E2. cbn [mbind exec_bind]. eexists. split; [done|].
    intros (Hsz & Hby & Hmul) self var k Hk Hv. cbn [scalar_bits is_composite scalar_typed] in *.
    rewrite composite_bits_length by auto. unfold msg_delimited.
    assert (Hs : eval_size inner self var (if (mn =? mx)%Z then SzLit mn else SzSizeBits m e) = length (bits m (eval self var e))).
    { destruct (Z.eqb_spec mn mx) as [E|E]; cbn [eval_size].
      - specialize (Hfix E _ Hv). specialize (Hmul _ Hmn). rewrite (whole_bytes_mod (length _)) in Hfix by auto.
        rewrite <- Hfix. symmetry. apply whole_bytes_mod. zify. Z.to_euclidean_division_equations. lia.
      - apply inner_exact; [apply Hok|done|done|]. rewrite E1, E2. congruence. }
    by destruct (msg_extent m); cbn [eval_size]; rewrite Hs.
  - eexists. split; [done|]. intros _ self var k _ Hv. cbn [eval_size scalar_bits].
    destruct primitive; cbn [primitive_bit_length primitive_bits]; try done; by rewrite length_z_bits.
Qed.

Lemma elements_size ty l : (is_composite ty = true → ∀ v k, scalar_typed typed ty v → length (scalar_bits bits ty k v) mod 8 = 0 ∨ k mod 8 ≠ 0) →
  ∀ (f : RustValue → nat) k,
  (∀ v k, scalar_typed typed ty v → (is_composite ty = true → k mod 8 = 0) → f v = length (scalar_bits bits ty k v)) →
  (is_composite ty = true → k mod 8 = 0) → Forall (scalar_typed typed ty) l →
  length (elements_bits bits ty k l) = sum_list_with f l.
Proof.
  intros Hm f k Hf Hk Hl. revert k Hk. induction Hl as [|v l Hv _ IH]; intros k Hk; [done|].
  cbn [elements_bits sum_list_with]. rewrite length_app, (Hf v k Hv Hk), IH; [done|].
  intros Hc. specialize (Hk Hc). destruct (Hm Hc v k Hv) as [E|E]; [|done]. rewrite <- Nat.Div0.add_mod_idemp_l, Hk. exact E.
Qed.

Lemma frame_mod m k v : k mod 8 = 0 → length (composite_frame (msg_delimited m) k (bits m v)) mod 8 = 0.
Proof.
  intros Hk. unfold composite_frame. rewrite pad_bits_0, !length_app, length_whole by done.
  pose proof (length_delimiter (msg_delimited m) (bits m v)). unfold whole_bytes. cbn [zeros replicate length]. dlia.
Qed.

Lemma elements_size_spec ty e : scalar_ok ty →
  ∃ sz, WriteArrayElementSizes p ty e = Ret sz ∧
    (scalar_size_ok ty → ∀ self var k, (is_composite ty = true → k mod 8 = 0) →
      (∃ len_ok cap, array_typed typed ty len_ok cap (eval self var e)) →
      eval_size inner self var sz = length (array_bits bits ty k (eval self var e))).
Proof.
  intros Hok. unfold WriteArrayElementSizes. destruct ty as [key m|primitive|n]; [..|done].
  - destruct (scalar_size_spec (RComposite key m) EVar Hok) as (sz & Esz & Hsz). cbn [scalar_size scalar_extent].
    destruct (message_bounds m (inner_sound m (proj1 Hok))) as (mn & mx & E1 & E2 & Hnn & Hmn & Hfix).
    rewrite E1. cbn [mbind exec_bind]. rewrite E2. cbn [mbind exec_bind].
    assert (Hel : ∀ self var k, scalar_size_ok (RComposite key m) → k mod 8 = 0 →
      (∃ len_ok cap, array_typed typed (RComposite key m) len_ok cap (eval self var e)) →
      length (array_bits bits (RComposite key m) k (eval self var e)) =
      sum_list_with (λ x, eval_size inner self x sz) (elements_of (eval self var e))).
    { intros self var k Hs Hk (len_ok & cap & Ha). unfold array_typed, array_bits in *. cbn [is_boolean] in *.
      destruct (eval self var e) as [| | | |l| |]; try done. cbn [elements_of]. apply elements_size.
      - intros _ v k' _. destruct (decide (k' mod 8 = 0)); [|by right]. left. by apply frame_mod.
      - intros v k' Hv Hk'. apply (Hsz Hs self v k' Hk' Hv).
      - by intros _.
      - apply Ha. }
    destruct (Z.eqb_spec mn mx) as [E|E].
    + subst mx. assert (Hlen : ∃ n, match msg_extent m with Delimited _ => arith p 64 (32 + mn) | Sealed => Ret mn end = Ret n ∧
        n = ((if msg_delimited m then 32 else 0) + mn)%Z).
      { unfold msg_delimited. unfold scalar_regular, composite_regular in Hok. destruct (msg_extent m); [by exists mn|].
        destruct Hok as (Hm & _ & _ & Hb). specialize (Hb _ Hmn). exists (32 + mn)%Z. split; [|done].
        apply arith_ok. unfold is_u. pose proof (lengths_nonneg _ _ (proj1 (inner_sound m Hm)) Hmn). lia. }
      destruct Hlen as (n & -> & ->). cbn [mbind exec_bind]. eexists. split; [done|].
      intros Hs self var k Hk Ha. rewrite (Hel self var k Hs (Hk eq_refl) Ha). cbn [eval_size].
      destruct Ha as (len_ok & cap & Ha). unfold array_typed in Ha. cbn [is_boolean] in Ha.
      destruct (eval self var e) as [| | | |l| |]; try done. cbn [len_of elements_of]. destruct Ha as [_ Hl].
      assert (Hone : Forall (λ v, eval_size inner self v sz = Z.to_nat ((if msg_delimited m then 32 else 0) + mn)) l).
      { eapply Forall_impl; [exact Hl|]. intros v Hv. rewrite (Hsz Hs self v 0) by done. cbn [scalar_bits].
        destruct Hs as (_ & Hby & Hmul). rewrite composite_bits_length by auto.
        specialize (Hfix eq_refl v Hv). specialize (Hmul _ Hmn). rewrite (whole_bytes_mod (length _)) in Hfix by auto.
        rewrite whole_bytes_mod in Hfix by (zify; Z.to_euclidean_division_equations; lia).
        cbn [eval]. rewrite <- Hfix. destruct (msg_delimited m); lia. }
      clear -Hone. induction Hone as [|v l Hv _ IH]; [done|]. cbn [length sum_list_with Nat.mul]. by rewrite Hv, <- IH.
    + rewrite Esz. cbn [mbind exec_bind]. eexists. split; [done|]. intros Hs self var k Hk Ha.
      rewrite (Hel self var k Hs (Hk eq_refl) Ha). done.
  - cbn [scalar_size scalar_extent]. change (min_value p (bls_single (primitive_bit_length primitive))) with (Ret (primitive_bit_length primitive)).
    change (max_value p (bls_single (primitive_bit_length primitive))) with (Ret (primitive_bit_length primitive)).
    cbn [mbind exec_bind]. rewrite Z.eqb_refl. cbn [mbind exec_bind]. eexists. split; [done|].
    intros _ self var k _ (len_ok & cap & Ha). unfold array_typed, array_bits in *. cbn [eval_size].
    destruct (is_boolean (RPrimitive primitive)) eqn:Hb.
    + destruct primitive; try done. destruct (eval self var e); try done. cbn [len_of bits_of primitive_bit_length].
      unfold array_of_bits. rewrite length_fmap, length_seq. lia.
    + destruct (eval self var e) as [| | | |l| |]; try done. cbn [len_of elements_of]. destruct Ha as [_ Hl].
      assert (Hp : ∀ v, length (primitive_bits primitive v) = Z.to_nat (primitive_bit_length primitive)).
      { intros v. destruct primitive; cbn [primitive_bits primitive_bit_length]; try done; apply length_z_bits. }
      clear -Hp. revert k. induction l as [|v l IH]; intros k; [done|]. cbn [elements_bits scalar_bits length Nat.mul].
      by rewrite length_app, Hp, <- IH.
Qed.

(** Composite values in a field start at a byte. *)
Definition type_at_byte (ty : ResolvedType) (k : nat) : Prop :=
  match ty with RScalar s | RFixedArray s _ | RVariableArray s _ => is_composite s = true → k mod 8 = 0 end.

Lemma field_size_spec ty e : type_ok ty →
  ∃ sz, WriteFieldSize p ty e = Ret sz ∧
    (type_sized to_camel_case sized ty → ∀ self var k, type_at_byte ty k → type_typed typed ty (eval self var e) →
      eval_size inner self var sz = length (type_bits bits ty k (eval self var e))).
Proof.
  destruct ty as [s|s len|s max_len]; cbn [type_regular WriteFieldSize type_sized type_at_byte type_typed type_bits].
  - intros Hok. by apply scalar_size_spec.
  - intros [Hok _]. destruct (elements_size_spec s e Hok) as (sz & -> & Hsz). exists sz. split; [done|].
    intros Hs self var k Hk Hv. rewrite array_pad by done. cbn [app length]. rewrite Nat.add_0_r. apply Hsz; eauto.
  - intros (Hok & Hb & Hm). cbn [implicit_field]. destruct (elements_size_spec s e Hok) as (sz & -> & Hsz).
    cbn [mbind exec_bind]. eexists. split; [done|]. intros Hs self var k Hk Hv. rewrite array_pad by done.
    cbn [app length eval_size]. rewrite Nat.add_0_r, length_app, length_z_bits.
    rewrite (Hsz Hs self var (k + Z.to_nat (array_length_bits max_len))); [done| |eauto].
    intros Hc. specialize (Hk Hc). destruct (array_length_bits_spec max_len ltac:(lia)) as [Hn _].
    apply native_width_bytes in Hn. dlia.
Qed.

Lemma struct_size_spec fields gs : Forall2 generated_field fields gs → fields_regular to_camel_case ok fields →
  ∃ sz, struct_size p gs = Ret sz ∧
    (fields_sized to_camel_case sized fields → ∀ self k l, fields_typed typed fields l →
      (∀ n x, (n, x) ∈ l → eval self no_value (ESelfField n) = x) →
      fields_at to_camel_case field_unpadded fields k self →
      eval_size inner self no_value sz = length (fields_bits bits fields k self)).
Proof.
  induction 1 as [|[kind aligned] g fields gs Hg _ IH]; [by exists (SzLit 0)|].
  intros [Hf Hfs]. unfold generated_field in Hg. cbn [field_kind struct_size] in *.
  destruct (IH Hfs) as (rest & Hrest & Hsz). destruct kind as [n|ty name].
  - rewrite Hg. cbn [mbind exec_bind]. rewrite Hrest. cbn [mbind exec_bind]. eexists. split; [done|].
    intros [_ Hs] self k l Hl Hself [_ Hk]. cbn [eval_size fields_bits field_bits]. rewrite length_app, length_zeros.
    f_equal. rewrite <- (length_zeros (Z.to_nat n)) at 1. by apply (Hsz Hs self _ l).
  - destruct Hg as [rt ->]. cbn [gdf_uavcan_ty gdf_name].
    destruct (field_size_spec ty (ESelfField (field_ident name)) Hf) as (sz & -> & Hfield). cbn [mbind exec_bind].
    rewrite Hrest. cbn [mbind exec_bind]. eexists. split; [done|].
    intros [Hs Hss] self k [|[n x] l] Hl Hself [Hk Hks]; [done|]. destruct Hl as (-> & Hx & Hl).
    cbn [eval_size fields_bits field_bits]. rewrite length_app. f_equal.
    + apply (Hfield Hs self); [by destruct ty|]. rewrite (Hself _ x) by set_solver. done.
    + apply (Hsz Hss self _ l); [done|set_solver|done].
Qed.

Lemma variants_size_spec variants gs : Forall2 (generated_variant to_camel_case) variants gs →
  variants_regular to_camel_case ok variants →
  ∃ arms, mapM (λ v, size ← WriteFieldSize p (gv_uavcan_ty v) EVar; Ret (gv_name v, size)) gs = Ret arms ∧
    (variants_sized to_camel_case sized variants → ∀ tag_bits i self name v, tag_bits mod 8 = 0 →
      variants_typed to_camel_case typed variants name v →
      ∃ sz, find_arm name arms = Some sz ∧
        tag_bits + eval_size inner self v sz = length (variants_bits to_camel_case bits tag_bits i variants name v)).
Proof.
  induction 1 as [|[ty n] g variants gs [Hty Hname] _ IH].
  { intros _. by exists []. }
  intros [Hok Hoks]. cbn [variant_ty variant_name] in *. destruct (field_size_spec ty EVar Hok) as (sz & Hsz & Hfield).
  destruct (IH Hoks) as (arms & Harms & IH'). exists ((variant_ident to_camel_case n, sz) :: arms). split.
  { cbn. rewrite Hty, Hsz, Hname. cbn [mbind exec_bind]. by rewrite Harms. }
  intros [Hs Hss] tag_bits i self name v Htag Hv. cbn [variants_typed variants_bits find_arm] in *. case_bool_decide.
  - exists sz. split; [done|]. rewrite length_app, length_z_bits. f_equal.
    apply (Hfield Hs self); [|done]. by destruct ty; cbn; intros _.
  - by apply IH'.
Qed.

(** *** [size_bits] *)

Lemma size_bits_spec m gt : lengths_sound to_camel_case usize_bits m → gt_size gt = msg_bit_length m →
  (∃ code, write_complex_size_expression p gt = Ret code ∧
    (sized m → ∀ v, typed m v → run_size inner code v = length (bits m v))) →
  ∃ code, SizeBitsExpr p gt = Ret code ∧
    (sized m → ∀ v, typed m v → whole_bytes (run_size inner code v) = whole_bytes (length (bits m v)) ∧
      (min_value p (msg_bit_length m) ≠ max_value p (msg_bit_length m) → run_size inner code v = length (bits m v))).
Proof.
  intros Hl Hg (code & Hcode & Hsz). unfold SizeBitsExpr. rewrite Hg.
  destruct (message_bounds m Hl) as (mn & mx & E1 & E2 & _ & _ & Hfix).
  rewrite E1. cbn [mbind exec_bind]. rewrite E2. cbn [mbind exec_bind]. destruct (Z.eqb_spec mn mx) as [E|E].
  - eexists. split; [done|]. intros _ v Hv. cbn [run_size eval_size]. split; [by apply Hfix|]. by subst.
  - exists code. split; [done|]. intros Hs v Hv. by rewrite (Hsz Hs v Hv).
Qed.
End size.

(** ** Types that are copied as they are in memory

    A value of a type with the attribute [repr(C, packed)] whose fields have whole bytes is, in
    memory, the bytes of its encoding; the host is little-endian. *)

(** *** Bits of bytes *)

Definition byte_bits (l : list u8) : list bool := bit_at l <$> seq 0 (8 * length l).

Lemma byte_bits_z l : bytes_ok l → byte_bits l = z_bits (8 * length l) (of_bytes l).
Proof. intros Hl. unfold byte_bits, z_bits. apply list_fmap_ext. intros i x _. by rewrite testbit_of_bytes. Qed.

Lemma length_byte_bits l : length (byte_bits l) = 8 * length l.
Proof. unfold byte_bits. by rewrite length_fmap, length_seq. Qed.

Lemma byte_bits_app a b : byte_bits (a ++ b) = byte_bits a ++ byte_bits b.
Proof.
  unfold byte_bits. rewrite length_app, Nat.mul_add_distr_l, seq_app, fmap_app. f_equal.
  - apply list_fmap_ext. intros i x Hx. apply lookup_seq in Hx as [-> Hi]. rewrite Nat.add_0_l. unfold bit_at.
    rewrite lookup_app_l; [done|]. apply Nat.Div0.div_lt_upper_bound. lia.
  - rewrite (Nat.add_comm 0 (8 * length a)), <- fmap_add_seq, <- list_fmap_compose. apply list_fmap_ext. intros i x _.
    unfold compose. rewrite <- (bit_at_drop (a ++ b) (length a)). by rewrite drop_app_length.
Qed.

Lemma byte_bits_le n z : byte_bits (to_le_bytes n z) = z_bits (8 * n) z.
Proof.
  unfold byte_bits, z_bits. rewrite to_le_bytes_length. apply list_fmap_ext. intros i x Hx.
  apply lookup_seq in Hx as [-> Hi]. unfold bit_at. cbn [Nat.add]. rewrite to_le_bytes_lookup by dlia. cbn [default from_option id].
  rewrite testbit_wrap, bool_decide_true, Z.shiftr_spec by dlia. cbn [andb]. f_equal. dlia.
Qed.

Section memory.
Context (inner : Message → Impl) (to_camel_case : string → string) `{Combinatorics} (p : profile) (ok : Message → Prop).
Abbreviation typed := (message_typed to_camel_case).
Abbreviation bits := (message_bits to_camel_case).
Abbreviation supports := (message_supports_zero_copy p).

(** A value is its encoding in memory, and can be taken from it. *)
Definition in_memory (to_memory : RustValue → list u8) (from_memory : list u8 → RustValue) (size : nat)
    (v : RustValue) (encoding : list bool) : Prop :=
  bytes_ok (to_memory v) ∧ length (to_memory v) = size ∧ from_memory (to_memory v) = v ∧
  encoding = byte_bits (to_memory v).

Hypothesis inner_memory : ∀ m v, ok m → supports m = Ret true → typed m v →
  in_memory (impl_to_memory (inner m)) (impl_from_memory (inner m)) (impl_size_of (inner m)) v (bits m v).

Lemma whole_byte_bits l : whole (byte_bits l) = byte_bits l.
Proof.
  unfold whole. rewrite length_byte_bits, pad_bits_0 by dlia. apply app_nil_r.
Qed.

(** The widths of integers in memory. *)
Lemma native_cases n : ((n =? 8) || (n =? 16) || (n =? 32) || (n =? 64))%Z = true → native_width n.
Proof. unfold native_width. lia. Qed.
Lemma native_bytes n : native_width n → 8 * Z.to_nat (n / 8) = Z.to_nat n ∧ (8 * Z.of_nat (Z.to_nat (n / 8)) = n)%Z.
Proof. by intros [->|[->|[->| ->]]]. Qed.

Lemma int_in_memory n z v mk back : native_width n →
  back (to_le_bytes (Z.to_nat (n / 8)) (wrap n z)) = v → mk v = to_le_bytes (Z.to_nat (n / 8)) (wrap n z) →
  in_memory mk back (Z.to_nat (n / 8)) v (z_bits (Z.to_nat n) z).
Proof.
  intros Hn Hb Hmk. destruct (native_bytes n Hn) as [E1 E2]. unfold in_memory. rewrite Hmk.
  split_and!; [apply to_le_bytes_ok|apply to_le_bytes_length|done|].
  rewrite byte_bits_le, E1. symmetry. apply z_bits_wrap_le. pose proof (native_width_bounds n Hn). lia.
Qed.

Lemma scalar_in_memory ty v k : scalar_supports_zero_copy supports ty = Ret true →
  scalar_regular to_camel_case ok ty → (∀ key m, ty = RComposite key m → msg_extent m = Sealed) →
  k mod 8 = 0 → scalar_typed typed ty v →
  in_memory (scalar_to_memory inner ty) (scalar_from_memory inner ty) (scalar_size_of inner ty) v (scalar_bits bits ty k v).
Proof.
  intros Hz Hok Hs Hk Hv. destruct ty as [key m|[|n|n mode|mode|mode|mode]|n]; cbn in Hz; try done.
  - destruct (inner_memory m v (proj1 Hok) Hz Hv) as (H1 & H2 & H3 & H4). split_and!; [done..|].
    cbn [scalar_bits scalar_to_memory]. unfold composite_frame, msg_delimited. rewrite (Hs _ _ eq_refl).
    rewrite pad_bits_0, H4, whole_byte_bits by done. done.
  - injection Hz as Hn%native_cases. destruct v as [|z| | | | |]; try done.
    apply int_in_memory; [done| |done]. cbn [scalar_from_memory]. rewrite from_to_le_bytes.
    rewrite (proj2 (native_bytes n Hn)), wrap_wrap by (pose proof (native_width_bounds n Hn); lia).
    f_equal. apply as_signed_wrap; [pose proof (native_width_bounds n Hn); lia|done].
  - injection Hz as Hn%native_cases. destruct v as [|z| | | | |]; try done.
    apply int_in_memory; [done| |done]. cbn [scalar_from_memory]. rewrite from_to_le_bytes.
    rewrite (proj2 (native_bytes n Hn)), wrap_wrap by (pose proof (native_width_bounds n Hn); lia).
    f_equal. by apply wrap_small.
  - destruct v as [| |z| | | |]; try done. apply (int_in_memory 16 z); [by right; left| |].
    + cbn [scalar_from_memory]. rewrite from_to_le_bytes. cbn in Hv. rewrite (wrap_small 16 z Hv). f_equal. exact (wrap_small 16 z Hv).
    + cbn [scalar_to_memory float_of]. cbn in Hv. by rewrite (wrap_small 16 z Hv).
  - destruct v as [| |z| | | |]; try done. apply (int_in_memory 32 z); [by right; right; left| |].
    + cbn [scalar_from_memory]. rewrite from_to_le_bytes. cbn in Hv. rewrite (wrap_small 32 z Hv). f_equal. exact (wrap_small 32 z Hv).
    + cbn [scalar_to_memory float_of]. cbn in Hv. by rewrite (wrap_small 32 z Hv).
  - destruct v as [| |z| | | |]; try done. apply (int_in_memory 64 z); [by right; right; right| |].
    + cbn [scalar_from_memory]. rewrite from_to_le_bytes. cbn in Hv. rewrite (wrap_small 64 z Hv). f_equal. exact (wrap_small 64 z Hv).
    + cbn [scalar_to_memory float_of]. cbn in Hv. by rewrite (wrap_small 64 z Hv).
Qed.

Lemma elements_in_memory ty l : scalar_supports_zero_copy supports ty = Ret true →
  scalar_regular to_camel_case ok ty → (∀ key m, ty = RComposite key m → msg_extent m = Sealed) →
  Forall (scalar_typed typed ty) l → ∀ k, k mod 8 = 0 →
  bytes_ok (concat (scalar_to_memory inner ty <$> l)) ∧
  length (concat (scalar_to_memory inner ty <$> l)) = length l * scalar_size_of inner ty ∧
  scalar_from_memory inner ty <$> chunks (length l) (scalar_size_of inner ty) (concat (scalar_to_memory inner ty <$> l)) = l ∧
  elements_bits bits ty k l = byte_bits (concat (scalar_to_memory inner ty <$> l)).
Proof.
  intros Hz Hok Hs. induction 1 as [|v l Hv _ IH]; intros k Hk; [by split_and!; [constructor|..]|].
  destruct (scalar_in_memory ty v k Hz Hok Hs Hk Hv) as (H1 & H2 & H3 & H4).
  destruct (IH (k + length (scalar_bits bits ty k v))) as (I1 & I2 & I3 & I4); [rewrite H4, length_byte_bits; dlia|].
  cbn [fmap list_fmap concat length chunks elements_bits]. split_and!.
  - by apply Forall_app.
  - rewrite length_app, H2, I2. done.
  - rewrite take_app_length', drop_app_length' by done. by rewrite H3, I3.
  - rewrite byte_bits_app, I4, H4. done.
Qed.

Lemma type_in_memory ty v k : type_supports_zero_copy supports ty = Ret true →
  type_regular to_camel_case ok ty →
  (∀ key m, ty = RScalar (RComposite key m) ∨ (∃ len, ty = RFixedArray (RComposite key m) len) → msg_extent m = Sealed) →
  k mod 8 = 0 → type_typed typed ty v →
  in_memory (type_to_memory inner ty) (type_from_memory inner ty) (type_size_of inner ty) v (type_bits bits ty k v).
Proof.
  destruct ty as [s|s len|s max_len]; cbn [type_supports_zero_copy type_regular type_typed]; intros Hz Hok Hs Hk Hv; [| |done].
  - apply (scalar_in_memory s); [done|done| |done|done]. intros key m ->. apply (Hs key). by left.
  - assert (Hb : is_boolean s = false) by (destruct s as [|[]|]; done).
    unfold array_typed in Hv. rewrite Hb in Hv. destruct v as [| | | |l| |]; try done. destruct Hv as [Hl Hall].
    destruct (elements_in_memory s l Hz (proj1 Hok)) with (k := k) as (H1 & H2 & H3 & H4); [|done|done|].
    { intros key m ->. apply (Hs key). right. by exists len. }
    unfold in_memory. cbn [type_to_memory type_from_memory type_size_of elements_of type_bits]. rewrite <- Hl.
    split_and!; [done|done|by f_equal|]. unfold array_bits. rewrite Hb. cbn [elements_of].
    rewrite array_pad by (by intros _). cbn [app length]. by rewrite Nat.add_0_r.
Qed.

(** *** Structs *)

Definition data_fields (gs : list GeneratedField) : list (string * ResolvedType) :=
  omap (λ f, match f with GData f => Some (gdf_name f, gdf_uavcan_ty f) | GPadding _ => None end) gs.

Lemma fields_in_memory fields gs : Forall2 generated_field fields gs → Forall (zero_copy_field p) fields →
  Forall sealed_field fields → fields_regular to_camel_case ok fields → ∀ k self l, k mod 8 = 0 →
  fields_typed typed fields l → (∀ n x, (n, x) ∈ l → eval self no_value (ESelfField n) = x) →
  let bytes := struct_to_memory inner (data_fields gs) self in
  bytes_ok bytes ∧ length bytes = struct_size_of inner (data_fields gs) ∧
  struct_from_memory inner (data_fields gs) bytes = l ∧ fields_bits bits fields k self = byte_bits bytes.
Proof.
  induction 1 as [|[kind aligned] g fields gs Hg _ IH]; intros Hz Hs Hok k self l Hk Hl Hself.
  { cbn in Hl. subst l. split_and!; [constructor|done..]. }
  apply Forall_cons in Hz as [Hz Hzs], Hs as [Hs Hss]. destruct Hok as [Ho Hos]. unfold generated_field in Hg.
  unfold zero_copy_field, sealed_field in *. cbn [field_kind] in *. destruct kind as [n|ty name]; [done|].
  destruct Hg as [rt ->]. destruct l as [|[n x] l]; [done|]. destruct Hl as (-> & Hx & Hl).
  assert (Ev : eval self no_value (ESelfField (field_ident name)) = x) by (apply Hself; set_solver).
  destruct (type_in_memory ty x k Hz Ho) as (H1 & H2 & H3 & H4); [|done|done|].
  { intros key m [->|[len ->]]; exact Hs. }
  destruct (IH Hzs Hss Hos (k + length (type_bits bits ty k x)) self l) as (I1 & I2 & I3 & I4);
    [rewrite H4, length_byte_bits; dlia|done|set_solver|].
  cbn [fields_bits field_bits]. rewrite Ev, I4, H4. unfold struct_to_memory, struct_size_of in *.
  cbn [data_fields omap list_omap gdf_name gdf_uavcan_ty fmap list_fmap concat fst snd sum_list_with struct_from_memory].
  rewrite Ev. split_and!.
  - by apply Forall_app.
  - rewrite length_app, H2. unfold data_fields in I2. by rewrite I2.
  - rewrite take_app_length', drop_app_length' by done. rewrite H3. f_equal. exact I3.
  - by rewrite byte_bits_app.
Qed.

(** *** When the generator copies *)

Lemma message_supports_field ty :
  match ty with
  | RScalar (RComposite _ m) | RFixedArray (RComposite _ m) _ => supports m
  | ty => type_supports_zero_copy (λ _, Ret false) ty
  end = type_supports_zero_copy supports ty.
Proof. by destruct ty as [[]|[]|[]]. Qed.

Lemma all_exec_true {A} (f : A → exec bool) l : all_exec f l = Ret true → Forall (λ x, f x = Ret true) l.
Proof.
  induction l as [|x l IH]; cbn [all_exec]; [by constructor|]. destruct (f x) as [[]|] eqn:E; cbn; [|done..].
  intros Hl. constructor; [done|by apply IH].
Qed.
Lemma all_exec_total {A} (f : A → exec bool) l : Forall (λ x, ∃ b, f x = Ret b) l → ∃ b, all_exec f l = Ret b.
Proof.
  induction 1 as [|x l [b E] _ [b' IH]]; cbn [all_exec]; [by exists true|]. rewrite E. cbn [mbind exec_bind].
  destruct b; eauto.
Qed.

Lemma message_supports_true m : supports m = Ret true →
  ∃ fields, msg_kind m = Struct fields ∧ Forall (zero_copy_field p) fields.
Proof.
  destruct m as [d e [fields|tag_bits variants] bl cs]; cbn [message_supports_zero_copy];
    (destruct (is_fixed_size p bl) as [[]|]; cbn [mbind exec_bind negb]; [|done..]); [|done].
  intros Hall%all_exec_true. exists fields. split; [done|]. eapply Forall_impl; [exact Hall|].
  intros [kind aligned]. destruct aligned; cbn [negb]; [|done]. destruct kind as [n|ty name]; [done|].
  unfold zero_copy_field. cbn [field_kind]. by rewrite <- message_supports_field.
Qed.

Lemma supports_zero_copy_true gt fields gs : gt_kind gt = GStruct gs → Forall2 generated_field fields gs →
  supports_zero_copy p gt = Ret true → Forall (zero_copy_field p) fields.
Proof.
  unfold supports_zero_copy. intros -> HF. destruct (is_fixed_size p (gt_size gt)) as [[]|]; cbn; [|done..].
  intros Hall%all_exec_true. induction HF as [|[kind aligned] g fields gs Hg _ IH]; [by constructor|].
  apply Forall_cons in Hall as [Hf Hall]. constructor; [|by apply IH]. unfold generated_field in Hg.
  unfold zero_copy_field. cbn [field_kind] in *. destruct kind as [n|ty name]; [by subst g|]. by destruct Hg as [rt ->].
Qed.
End memory.
