(* ===== verification/RustGenSpec.v ===== *)
(** * The generated code implements the encoding

    By induction on the nesting of a message, from the lemmas about fields: the generator does
    not panic, and the code it makes for a message that is [message_regular] writes the
    message's bits, reads them back, and knows their number. *)

From stdpp Require Import strings gmap.
From S2P Require Import Prelude EncCursor EncFields EncBits EncCursorSpec EncFieldsSpec Codec RegisterTypes RegisterTypesSpec.
From S2P Require Import BitLengths BitLengthsSpec BitLengthsClaims.
From S2P Require Import BitStreams DsdlTypes RustCode RustGen DsdlWire RustGenWrite RustGenRead RustGenSize.

#[local] Open Scope nat_scope.

(** ** The generated types *)

Section generated.
Context (to_camel_case to_snake_case : string → string) `{Combinatorics} (p : profile) (ok : Message → Prop).

Lemma scalar_to_rust_type_total ty ext : scalar_regular to_camel_case ok ty →
  ∃ rt, scalar_to_rust_type to_snake_case ty ext = Ret rt.
Proof.
  destruct ty as [key m|[|n|n mode|mode|mode|mode]|n]; cbn; try (by eexists); try done; intros Hn.
  - destruct (round_up_integer_size_spec n (native_width_bounds n Hn)) as (size & -> & _). by eexists.
  - destruct (round_up_integer_size_spec n Hn) as (size & -> & _). by eexists.
Qed.

Lemma to_rust_type_total ty ext : type_regular to_camel_case ok ty → ∃ rt, to_rust_type to_snake_case p ty ext = Ret rt.
Proof.
  destruct ty as [s|s len|s max_len]; cbn [type_regular to_rust_type].
  - by apply scalar_to_rust_type_total.
  - intros [Hok Hlen]. destruct (is_boolean s).
    + rewrite arith_ok by (unfold is_u; lia). by eexists.
    + destruct (scalar_to_rust_type_total s ext Hok) as [rt ->]. by eexists.
  - intros (Hok & Hb & _). rewrite Hb. destruct (scalar_to_rust_type_total s ext Hok) as [rt ->]. by eexists.
Qed.

Lemma generated_fields fields ext : fields_regular to_camel_case ok fields →
  ∃ gs, mapM (GeneratedField_from to_snake_case p ext) fields = Ret gs ∧ Forall2 generated_field fields gs.
Proof.
  intros Hok. apply mapM_exec. intros f Hf. assert (Hfield : match field_kind f with
    | PaddingField _ => True | DataField ty _ => type_regular to_camel_case ok ty end).
  { induction fields as [|[kind aligned] fields IH]; [set_solver|]. destruct Hok as [Ho Hok].
    apply elem_of_cons in Hf as [->|Hf]; [by destruct kind|by apply IH]. }
  unfold GeneratedField_from, generated_field. destruct (field_kind f) as [n|ty name]; [by eexists|].
  unfold GeneratedField_data. destruct (to_rust_type_total ty ext Hfield) as [rt ->]. cbn. eexists. split; [done|]. by exists rt.
Qed.

Lemma generated_variants variants ext : variants_regular to_camel_case ok variants →
  ∃ gs, mapM (λ v, GeneratedVariant_new to_camel_case to_snake_case p (variant_ty v) (variant_name v) ext) variants = Ret gs ∧
    Forall2 (generated_variant to_camel_case) variants gs.
Proof.
  intros Hok. apply mapM_exec. intros v Hv. assert (Hty : type_regular to_camel_case ok (variant_ty v)).
  { induction variants as [|[ty n] variants IH]; [set_solver|]. destruct Hok as [Ho Hok].
    apply elem_of_cons in Hv as [->|Hv]; [done|by apply IH]. }
  unfold GeneratedVariant_new. destruct (to_rust_type_total _ ext Hty) as [rt ->]. cbn. eexists. by split.
Qed.
End generated.

(** ** What an implementation promises *)

Section faithful.
Context (to_camel_case to_snake_case : string → string) `{CombinatoricsSpec} (p : profile) (usize_bits : Z).
Abbreviation typed := (message_typed to_camel_case).
Abbreviation bits := (message_bits to_camel_case).
Abbreviation sized := (message_sized to_camel_case).
Abbreviation regular := (message_regular to_camel_case p usize_bits).

Record faithful (i : Impl) (m : Message) : Prop := {
  faithful_delimited : @is_delimited RustValue (impl_type i) = msg_delimited m;
  faithful_writes : ∀ v, typed m v → writes 0 (λ p c, impl_serialize i p v c) (bits m v);
  faithful_reads : ∀ v, typed m v → reads 0 (impl_deserialize i) (message_data_bits to_camel_case m v) (Ok v);
  faithful_size : sized m → ∀ v, typed m v → whole_bytes (impl_size_bits i v) = whole_bytes (length (bits m v)) ∧
    (min_value p (msg_bit_length m) ≠ max_value p (msg_bit_length m) → impl_size_bits i v = length (bits m v));
  faithful_memory : message_supports_zero_copy p m = Ret true → ∀ v, typed m v →
    in_memory (impl_to_memory i) (impl_from_memory i) (impl_size_of i) v (bits m v);
  faithful_supports : ∃ b, message_supports_zero_copy p m = Ret b;
}.

(** *** Structs *)

Section step.
Context (inner : Message → Impl) (ok : Message → Prop).
Hypothesis inner_regular : ∀ m, ok m → regular m.
Hypothesis inner_faithful : ∀ m, ok m → faithful (inner m) m.

Lemma inner_delimited m : ok m → @is_delimited RustValue (impl_type (inner m)) = msg_delimited m.
Proof. intros Hm. apply faithful_delimited. by apply inner_faithful. Qed.
Lemma inner_writes m v : ok m → typed m v → writes 0 (λ p c, impl_serialize (inner m) p v c) (bits m v).
Proof. intros Hm. apply faithful_writes. by apply inner_faithful. Qed.
Lemma inner_reads m v : ok m → typed m v → reads 0 (impl_deserialize (inner m)) (message_data_bits to_camel_case m v) (Ok v).
Proof. intros Hm. apply faithful_reads. by apply inner_faithful. Qed.
Lemma inner_size m v : ok m → sized m → typed m v → (impl_size_bits (inner m) v + 7) / 8 = length (whole (bits m v)) / 8.
Proof.
  intros Hm Hs Hv. destruct (faithful_size _ _ (inner_faithful m Hm) Hs v Hv) as [E _].
  rewrite length_whole, <- E. unfold whole_bytes. dlia.
Qed.
Lemma inner_exact m v : ok m → sized m → typed m v → min_value p (msg_bit_length m) ≠ max_value p (msg_bit_length m) →
  impl_size_bits (inner m) v = length (bits m v).
Proof. intros Hm Hs Hv. by apply (faithful_size _ _ (inner_faithful m Hm) Hs v Hv). Qed.
Lemma inner_sound m : ok m → lengths_sound to_camel_case usize_bits m.
Proof. intros Hm%inner_regular. by destruct m; destruct Hm. Qed.
Lemma inner_memory m v : ok m → message_supports_zero_copy p m = Ret true → typed m v →
  in_memory (impl_to_memory (inner m)) (impl_from_memory (inner m)) (impl_size_of (inner m)) v (bits m v).
Proof. intros Hm Hz. by apply faithful_memory; [apply inner_faithful|]. Qed.

(** The flag of a fixed size is computed. *)
Lemma fixed_total m : lengths_sound to_camel_case usize_bits m → ∃ b, is_fixed_size p (msg_bit_length m) = Ret b.
Proof.
  intros (Hok & Hf & _). destruct (bls_bounds_exact p usize_bits _ Hok Hf) as (_ & _ & _ & _ & _ & _ & _ & _ & _ & f & E & _).
  by exists f.
Qed.

Lemma type_supports_total ty : type_regular to_camel_case ok ty →
  ∃ b, type_supports_zero_copy (message_supports_zero_copy p) ty = Ret b.
Proof.
  assert (Hs : ∀ s, scalar_regular to_camel_case ok s → ∃ b, scalar_supports_zero_copy (message_supports_zero_copy p) s = Ret b).
  { intros [key m|[]|n]; cbn; try (by eexists). intros [Hm _]. apply (faithful_supports (inner m)). by apply inner_faithful. }
  destruct ty as [s|s len|s max_len]; cbn [type_regular type_supports_zero_copy]; [apply Hs|intros [? _]; by apply Hs|by eexists].
Qed.

Lemma fields_supported fields gs : Forall2 generated_field fields gs → fields_regular to_camel_case ok fields →
  Forall (λ g, ∃ b, match g with
    | GData field => type_supports_zero_copy (message_supports_zero_copy p) (gdf_uavcan_ty field)
    | GPadding _ => Ret false end = Ret b) gs.
Proof.
  induction 1 as [|[kind aligned] g fields gs Hg _ IH]; [by constructor|]. intros [Hf Hfs]. constructor; [|by apply IH].
  unfold generated_field in Hg. cbn [field_kind] in Hg. destruct kind as [n|ty name]; [subst g; by eexists|].
  destruct Hg as [rt ->]. by apply type_supports_total.
Qed.

Lemma struct_supports_total d e fields bl cs : lengths_sound to_camel_case usize_bits (mkMessage d e (Struct fields) bl cs) →
  fields_regular to_camel_case ok fields → ∃ b, message_supports_zero_copy p (mkMessage d e (Struct fields) bl cs) = Ret b.
Proof.
  intros Hl Hok. destruct (fixed_total _ Hl) as [b Hb]. cbn [message_supports_zero_copy msg_bit_length] in *. rewrite Hb.
  cbn [mbind exec_bind]. destruct b; cbn [negb]; [|by exists false]. apply all_exec_total. clear Hb Hl.
  induction fields as [|[kind aligned] fields IH]; [by constructor|]. destruct Hok as [Hf Hok]. constructor; [|by apply IH].
  destruct aligned; cbn [negb]; [|by exists false]. destruct kind as [n|ty name]; [by exists false|].
  rewrite message_supports_field. by apply type_supports_total.
Qed.

Lemma trim_data_fields fields : Forall (zero_copy_field p) fields → trim_padding fields = fields.
Proof.
  induction 1 as [|[kind aligned] fields Hf _ IH]; [done|]. cbn [trim_padding]. rewrite IH.
  unfold zero_copy_field in Hf. cbn [field_kind] in Hf. by destruct kind.
Qed.

Context (key : TypeKey) (name : RustTypeName) (role : MessageRole) (ext : ExternalPackages).
Abbreviation code_of m := (message_code to_camel_case to_snake_case p key name role ext m).

Lemma extent_spec e : match e with Sealed => True | Delimited extent => is_u 32 (extent / 8) end →
  ∃ x, (∀ gt, gt_extent gt = e → ImplementDataType gt = Ret x) ∧
    match x with Some _ => true | None => false end = match e with Sealed => false | Delimited _ => true end.
Proof.
  destruct e as [|extent]; intros He.
  { exists None. split; [|done]. intros gt Hgt. unfold ImplementDataType. by rewrite Hgt. }
  exists (Some (extent / 8)%Z). split; [|done]. intros gt Hgt. unfold ImplementDataType. rewrite Hgt. by rewrite (proj2 (is_ub_spec _ _) He).
Qed.

Lemma struct_code d e fields bl cs : let m := mkMessage d e (Struct fields) bl cs in
  lengths_sound to_camel_case usize_bits m →
  match e with Sealed => True | Delimited extent => is_u 32 (extent / 8) end →
  fields_regular to_camel_case ok fields → NoDup (field_idents fields) →
  struct_at to_camel_case field_placed fields →
  (Forall (zero_copy_field p) fields → Forall sealed_field fields) →
  ∃ code, code_of m = Ret code ∧ faithful (run_type inner code) m.
Proof.
  intros m Hl He Hok Hnd Hat Hz. unfold message_code, generate_rust_type. cbn [msg_kind m].
  destruct (generated_fields to_camel_case to_snake_case p ok fields ext Hok) as (gs & -> & HF). cbn [mbind exec_bind].
  set (gt := mkGeneratedType _ _ _ _ _ _ _). unfold GeneratedType_fmt.
  assert (Hsup : ∃ b, supports_zero_copy p gt = Ret b).
  { unfold supports_zero_copy. cbn [gt_kind gt gt_size]. destruct (fixed_total m Hl) as [b ->]. cbn [mbind exec_bind].
    destruct b; cbn [negb]; [|by exists false]. apply all_exec_total. exact (fields_supported fields gs HF Hok). }
  destruct Hsup as [zc Hzc]. rewrite Hzc. cbn [mbind exec_bind].
  destruct (extent_spec e He) as (x & Hx & Hdel). rewrite (Hx gt eq_refl). cbn [mbind exec_bind].
  destruct (size_bits_spec inner to_camel_case p usize_bits ok m gt Hl eq_refl) as (sz & -> & Hsize).
  { destruct (struct_size_spec inner to_camel_case p usize_bits ok inner_sound inner_exact fields gs HF Hok) as (sz & Hsz & Hlen).
    exists (SizeOf sz). unfold write_complex_size_expression. cbn [gt_kind gt]. rewrite Hsz. split; [done|].
    intros [Hs Hun] [| | | | |l|] Hv; try done. cbn [run_size]. apply (Hlen Hs _ 0 l Hv).
    - by apply (struct_field_values (message_typed to_camel_case) fields).
    - by apply Hun. }
  cbn [mbind exec_bind].
  destruct (serialize_fields_spec inner (struct_to_memory inner (data_fields gs)) to_camel_case ok inner_delimited inner_writes inner_size fields gs HF Hok)
    as (body & Hbody & Hw).
  destruct (deserialize_fields_spec inner to_camel_case ok inner_delimited inner_reads fields gs HF Hok [])
    as (rcode & Hrcode & Hr); [done|].
  unfold ImplementSerialize, ImplementDeserialize. cbn [gt_kind gt]. rewrite Hbody, Hrcode.
  assert (Hvalues : ∀ l, fields_typed typed fields l → ∀ n x, (n, x) ∈ l → eval (RStruct l) no_value (ESelfField n) = x)
    by (intros l Hv; by apply (struct_field_values (message_typed to_camel_case) fields)).
  assert (Hmem : Forall (zero_copy_field p) fields → ∀ l, fields_typed typed fields l →
    in_memory (struct_to_memory inner (data_fields gs)) (λ b, RStruct (struct_from_memory inner (data_fields gs) b))
      (struct_size_of inner (data_fields gs)) (RStruct l) (bits m (RStruct l))).
  { intros Hzf l Hv. destruct (fields_in_memory inner to_camel_case p ok inner_memory fields gs HF Hzf (Hz Hzf) Hok 0
      (RStruct l) l eq_refl Hv (Hvalues l Hv)) as (M1 & M2 & M3 & M4). split_and!; [done|done|by rewrite M3|done]. }
  assert (Hcommon : ∀ ser de, (∀ l, fields_typed typed fields l →
      writes 0 (λ p c, run_serialize inner (struct_to_memory inner (data_fields gs)) ser p (RStruct l) c) (bits m (RStruct l)) ∧
      reads 0 (run_deserialize inner (data_fields gs) de) (message_data_bits to_camel_case m (RStruct l)) (Ok (RStruct l))) →
    faithful (run_type inner (mkTypeCode (struct_fields gt) x sz ser de)) m).
  { intros ser de Hsd. constructor.
    - exact Hdel.
    - intros [| | | | |l|] Hv; try done. by apply Hsd.
    - intros [| | | | |l|] Hv; try done. by apply Hsd.
    - exact Hsize.
    - intros (fields' & [= <-] & Hzf)%message_supports_true [| | | | |l|] Hv; try done. by apply Hmem.
    - by apply struct_supports_total. }
  destruct zc; cbn [mbind exec_bind]; eexists; (split; [done|]); apply Hcommon; intros l Hv.
  - pose proof (supports_zero_copy_true p gt fields gs eq_refl HF Hzc) as Hzf. destruct (Hmem Hzf l Hv) as (M1 & M2 & M3 & M4).
    cbn [run_serialize run_stmts run_stmt run_deserialize].
    assert (Hbits : bits m (RStruct l) = z_bits (8 * length (struct_to_memory inner (data_fields gs) (RStruct l)))
      (of_bytes (struct_to_memory inner (data_fields gs) (RStruct l)))) by (by rewrite M4, byte_bits_z).
    split.
    + rewrite Hbits. eapply writes_ext; [|by apply writes_bytes]. intros pr c. cbv beta. by destruct (write_aligned_bytes c _).
    + unfold run_deserialize, message_data_bits. cbn [msg_kind m]. rewrite (trim_data_fields fields Hzf).
      change (fields_bits bits fields 0 (RStruct l)) with (bits m (RStruct l)). rewrite Hbits, <- M2.
      pose proof (reads_finish 0 _ (λ b, Ok (RStruct (struct_from_memory inner (data_fields gs) b))
        : result DeserializeError RustValue) _ _ (reads_bytes 0 _ eq_refl M1)) as Hread.
      cbv beta in M3, Hread. rewrite M3 in Hread. exact Hread.
  - cbn [run_serialize run_deserialize]. split.
    + apply (Hw (RStruct l) 0 l Hv (Hvalues l Hv)). by apply Hat.
    + unfold run_deserialize, message_data_bits. apply (reads_try_finish 0 _ RStruct). cbn [msg_kind m].
      specialize (Hr (RStruct l) 0 l Hv (Hvalues l Hv) (Hat l Hv)). unfold pending_bits in Hr.
      eapply reads_eq; [exact Hr|]. by destruct (trim_padding fields).
Qed.

(** *** Unions *)

Lemma union_code d e tag_bits variants bl cs : let m := mkMessage d e (UnionOf tag_bits variants) bl cs in
  lengths_sound to_camel_case usize_bits m →
  match e with Sealed => True | Delimited extent => is_u 32 (extent / 8) end →
  variants_regular to_camel_case ok variants → native_width tag_bits → (Z.of_nat (length variants) ≤ 2 ^ tag_bits)%Z →
  ∃ code, code_of m = Ret code ∧ faithful (run_type inner code) m.
Proof.
  intros m Hl He Hok Htag Hlen. unfold message_code, generate_rust_type. cbn [msg_kind m].
  pose proof (native_width_bytes _ Htag) as H8.
  pose proof (native_width_bounds _ Htag) as Hb.
  destruct (generated_variants to_camel_case to_snake_case p ok variants ext Hok) as (gs & -> & HF). cbn [mbind exec_bind].
  set (gt := mkGeneratedType _ _ _ _ _ _ _). unfold GeneratedType_fmt.
  change (supports_zero_copy p gt) with (@Ret bool false). cbn [mbind exec_bind].
  destruct (extent_spec e He) as (x & Hx & Hdel). rewrite (Hx gt eq_refl). cbn [mbind exec_bind].
  destruct (size_bits_spec inner to_camel_case p usize_bits ok m gt Hl eq_refl) as (sz & -> & Hsize).
  { destruct (variants_size_spec inner to_camel_case p usize_bits ok inner_sound inner_exact variants gs HF Hok) as (arms & Harms & Hsz).
    unfold write_complex_size_expression. cbn [gt_kind gt]. rewrite Harms. eexists. split; [done|].
    intros Hs [| | | | | |name' v] Hv; try done.
    destruct (Hsz Hs (Z.to_nat tag_bits) 0 (REnum name' v) name' v H8 Hv) as (arm & Harm & E).
    cbn [run_size message_bits m]. by rewrite Harm, E. }
  destruct (serialize_variants_spec inner (struct_to_memory inner (struct_fields gt)) to_camel_case ok inner_delimited
    inner_writes inner_size tag_bits variants gs HF Htag Hok 0 Hlen) as (arms & Harms & Hw).
  destruct (deserialize_variants_spec inner to_camel_case ok inner_delimited inner_reads variants gs HF Hok) as (rarms & Hrarms & Hr).
  unfold ImplementSerialize, ImplementDeserialize, deserialize_enum. cbn [gt_kind gt]. rewrite Harms, Hrarms.
  destruct (aligned_fn_spec tag_bits Hb) as (fn & -> & Hfn). cbn [mbind exec_bind]. eexists. split; [done|]. constructor.
  - exact Hdel.
  - intros [| | | | | |name' v] Hv; try done. destruct (Hw (REnum name' v) name' v Hv) as (body & Hbody & Hwr).
    eapply writes_ext; [|exact Hwr]. intros pr c. cbn [run_type impl_serialize tc_serialize run_serialize tc_fields]. by rewrite Hbody.
  - intros [| | | | | |name' v] Hv; try done.
    destruct (Hr (Z.to_nat tag_bits) 0 name' v H8 Hv) as (j & re & ty & Hj & Hlt & E & Hrd).
    unfold message_data_bits. cbn [msg_kind m message_bits]. rewrite E. cbn [Nat.add].
    cbn [run_type impl_deserialize tc_deserialize]. unfold run_deserialize.
    refine (reads_bind 0 (λ p c, call_read fn p c) (λ p tag c, match rarms !! Z.to_nat tag with
      | Some (name, e) => try_read (run_read inner p e c) (λ v c, Ret (c, Ok (REnum name v)))
      | None => Ret (c, Err UnionTag) end) _ _ (wrap tag_bits (Z.of_nat j)) _ _ _).
    + destruct Hfn as [[-> _]| ->]; [by apply reads_call_aligned|by apply reads_call_plain].
    + rewrite wrap_small by (unfold is_u; lia). rewrite Nat2Z.id, Hj, length_z_bits.
      by apply (reads_try_finish _ _ (REnum name')).
  - exact Hsize.
  - intros (? & [=] & _)%message_supports_true.
  - destruct (fixed_total m Hl) as [b Hfx]. cbn [message_supports_zero_copy m msg_bit_length] in *. rewrite Hfx. by destruct b; eexists.
Qed.
End step.

(** *** Nesting *)

Lemma scalar_regular_depth n ty : scalar_regular to_camel_case regular ty → scalar_depth message_depth ty ≤ n →
  scalar_regular to_camel_case (λ m, regular m ∧ message_depth m ≤ n) ty.
Proof. destruct ty as [key m|[]|]; cbn [scalar_regular scalar_depth]; naive_solver. Qed.
Lemma type_regular_depth n ty : type_regular to_camel_case regular ty → type_depth message_depth ty ≤ n →
  type_regular to_camel_case (λ m, regular m ∧ message_depth m ≤ n) ty.
Proof.
  destruct ty; cbn [type_regular type_depth]; [by apply scalar_regular_depth|..];
    intros [Hs ?] ?; (split; [by apply scalar_regular_depth|done]).
Qed.
Lemma fields_regular_depth n fields : fields_regular to_camel_case regular fields → fields_depth message_depth fields ≤ n →
  fields_regular to_camel_case (λ m, regular m ∧ message_depth m ≤ n) fields.
Proof.
  induction fields as [|[[m|ty name] aligned] fields IH]; cbn [fields_regular fields_depth]; [done|..]; intros [Hf Hfs] Hd.
  - split; [done|by apply IH].
  - split; [apply type_regular_depth; [done|lia]|apply IH; [done|lia]].
Qed.
Lemma variants_regular_depth n variants : variants_regular to_camel_case regular variants → variants_depth message_depth variants ≤ n →
  variants_regular to_camel_case (λ m, regular m ∧ message_depth m ≤ n) variants.
Proof.
  induction variants as [|[ty name] variants IH]; cbn [variants_regular variants_depth]; [done|]. intros [Hf Hfs] Hd.
  split; [apply type_regular_depth; [done|lia]|apply IH; [done|lia]].
Qed.

(** The code of a message, in the context of implementations for the messages in it. *)
Lemma message_code_faithful n inner key name role ext m : regular m → message_depth m ≤ S n →
  (∀ m, regular m → message_depth m ≤ n → faithful (inner m) m) →
  ∃ code, message_code to_camel_case to_snake_case p key name role ext m = Ret code ∧ faithful (run_type inner code) m.
Proof.
  intros Hm Hd Hin. assert (Hin' : ∀ m, regular m ∧ message_depth m ≤ n → faithful (inner m) m) by (intros ? []; by apply Hin).
  assert (Hreg : ∀ m, regular m ∧ message_depth m ≤ n → regular m) by by intros ? [].
  destruct m as [d e [fields|tag_bits variants] bl cs]; cbn [message_depth] in Hd; apply le_S_n in Hd.
  - destruct Hm as (Hl & He & Hok & Hnd & Hat & Hz).
    apply (struct_code _ _ Hreg Hin'); [done|done|by apply fields_regular_depth|done..].
  - destruct Hm as (Hl & He & Hok & Htag & Hlen).
    apply (union_code _ _ Hreg Hin'); [done|done|by apply variants_regular_depth|done..].
Qed.

Lemma depth_pos m : message_depth m ≠ 0.
Proof. by destruct m as [? ? []]. Qed.

Lemma impl_faithful n : ∀ m, regular m → message_depth m ≤ n → faithful (message_impl to_camel_case to_snake_case p n m) m.
Proof.
  induction n as [|n IH]; intros m Hm Hd; [pose proof (depth_pos m); lia|]. cbn [message_impl].
  by destruct (message_code_faithful n _ some_key some_name RoleMessage ∅ m Hm Hd IH) as (code & -> & Hf).
Qed.
End faithful.
