(* ===== verification/RustGenClaims.v ===== *)
(** * The code generator, for whole messages

    A value that is serialized by the generated code is its DSDL encoding, byte for byte, and
    the generated deserializer gives the value for any bytes that start with its encoding. *)

From Stdlib Require Import Sorted.
From stdpp Require Import strings gmap.
From S2P Require Import Prelude EncCursor EncFields EncBits EncCursorSpec EncFieldsSpec Codec RegisterTypes RegisterTypesSpec.
From S2P Require Import BitLengths BitLengthsSpec BitLengthsClaims.
From S2P Require Import BitStreams DsdlTypes RustCode RustGen DsdlWire RustGenWrite RustGenRead RustGenSize.
From S2P Require Import RustGenSpec.

#[local] Open Scope nat_scope.

Section claims.
Context (to_camel_case to_snake_case : string → string) `{CombinatoricsSpec} (p : profile) (usize_bits : Z).
Abbreviation typed := (message_typed to_camel_case).
Abbreviation bits := (message_bits to_camel_case).
Abbreviation sized := (message_sized to_camel_case).
Abbreviation regular := (message_regular to_camel_case p usize_bits).
Abbreviation impl n m := (message_impl to_camel_case to_snake_case p n m).

(** The functions of [canadensis_encoding] for a type with an implementation. *)
Definition to_bytes (i : Impl) (pb : profile) (v : RustValue) (buffer : list u8) : exec (list u8) :=
  @serialize_to_bytes RustValue (impl_type i) (impl_ser i) pb v buffer.
Definition from_bytes (i : Impl) (pb : profile) (bytes : list u8) : exec (result DeserializeError RustValue) :=
  @deserialize_from_bytes RustValue (impl_type i) (impl_de i) pb bytes.

(** The bytes of a buffer after what was written into it. *)
Lemma emitted_bytes n c bits : emitted (WriteCursor_new (replicate n 0%Z)) c bits → length (whole bits) = 8 * n →
  byte_bits (wc_bytes c) = whole bits.
Proof.
  destruct (WriteCursor_new_ok (replicate n 0%Z)) as (_ & Hw & Hl). intros (Hc & L & B & _ & N) Hn.
  rewrite Hw in *. rewrite Hl, length_replicate in L. cbn [Nat.add] in *.
  apply list_eq_same_length with (8 * n); [done|rewrite length_byte_bits; lia|]. intros i x y Hi.
  unfold byte_bits. rewrite list_lookup_fmap, lookup_seq_lt by lia. intros [= <-] Hy.
  unfold whole in Hy. apply lookup_app_Some in Hy as [Hy|[Hge Hy]]; [by apply N|].
  unfold zeros in Hy. apply lookup_replicate in Hy as [-> _]. apply Hc. lia.
Qed.

(** C6: for a message that is regular and sized, nested to a depth of at most [n], the
    generator does not panic, and in any build the code that it prints serializes every value
    into a buffer of the size that [size_bits] gives, and leaves there exactly the DSDL
    encoding of the value, filled up to a byte. *)
Theorem generated_serializer_exact pb n m v : regular m → sized m → message_depth m ≤ n → typed m v →
  (∀ key name role ext, ∃ code, message_code to_camel_case to_snake_case p key name role ext m = Ret code) ∧
  ∃ bytes, to_bytes (impl n m) pb v (replicate ((impl_size_bits (impl n m) v + 7) / 8) 0%Z) = Ret bytes ∧
    byte_bits bytes = whole (bits m v).
Proof.
  intros Hm Hs Hd Hv. pose proof (impl_faithful to_camel_case to_snake_case p usize_bits n m Hm Hd) as Hf. split.
  { intros key name role ext. destruct n as [|n]; [pose proof (depth_pos m); lia|].
    destruct (message_code_faithful to_camel_case to_snake_case p usize_bits n _ key name role ext m Hm Hd
      (impl_faithful to_camel_case to_snake_case p usize_bits n)) as (code & E & _). by exists code. }
  destruct (faithful_size _ _ _ _ Hf Hs v Hv) as [Hsz _]. unfold to_bytes, serialize_to_bytes.
  set (k := (impl_size_bits (impl n m) v + 7) / 8).
  assert (Hk : length (whole (bits m v)) = 8 * k) by (rewrite length_whole, <- Hsz; done).
  destruct (WriteCursor_new_ok (replicate k 0%Z)) as (Hc & Hw & Hl).
  destruct (faithful_writes _ _ _ _ Hf v Hv pb (WriteCursor_new (replicate k 0%Z)) Hc eq_refl) as (c & E & Hem).
  { rewrite Hw, Hl, length_replicate, <- Hk. unfold whole. rewrite length_app. lia. }
  change (@serialize RustValue (impl_type (impl n m)) (impl_ser (impl n m))) with (impl_serialize (impl n m)).
  rewrite E. cbn [mbind exec_bind]. eexists. split; [done|]. by apply (emitted_bytes k).
Qed.

(** C7: for a message that is regular, nested to a depth of at most [n], the generated
    deserializer returns exactly the value, in any build, for any bytes that start with the
    DSDL encoding of the value up to the last field: padding at the end and everything after
    it is ignored. *)
Theorem generated_deserializer_exact pb n m v bytes : regular m → message_depth m ≤ n → typed m v →
  bytes_ok bytes → message_data_bits to_camel_case m v `prefix_of` byte_bits bytes →
  from_bytes (impl n m) pb bytes = Ret (Ok v).
Proof.
  intros Hm Hd Hv Hb [rest E]. pose proof (impl_faithful to_camel_case to_snake_case p usize_bits n m Hm Hd) as Hf.
  unfold from_bytes, deserialize_from_bytes.
  change (@deserialize RustValue (impl_type (impl n m)) (impl_de (impl n m))) with (impl_deserialize (impl n m)).
  destruct (faithful_reads _ _ _ _ Hf v Hv pb (ReadCursor_new bytes)) as (r & -> & _); [|done|done].
  split_and!; [split; [cbn; lia|done]|unfold rc_left; cbn [rc_bytes rc_bit_index ReadCursor_new]|].
  - rewrite Nat.sub_0_r, <- length_byte_bits, E, length_app. lia.
  - intros i b Hi. pose proof (lookup_lt_Some _ _ _ Hi) as Hlt.
    apply (lookup_app_l_Some _ rest) in Hi. rewrite <- E in Hi. unfold byte_bits in Hi.
    rewrite list_lookup_fmap in Hi. destruct (seq 0 (8 * length bytes) !! i) as [j|] eqn:Hj; [|done].
    apply lookup_seq in Hj as [-> _]. cbn in Hi. by injection Hi as <-.
Qed.
End claims.

(** ** A message *)

(** A struct with an integer of 12 bits, padding, a struct that is copied as it is in memory,
    a delimited union, and an array. *)
Module GenExample.

#[local] Existing Instance BlsExample.crates.
#[local] Existing Instance BlsExample.crates_spec.

Definition leaf (values : list Z) : BitLengthSet := mkBitLengthSet (Leaf values).
Definition uint (bits : u8) : ResolvedScalarType := RPrimitive (PUInt bits Saturated).

Definition point : Message :=
  mkMessage false Sealed
    (Struct [Field_data (RScalar (RPrimitive (PFloat32 Saturated))) "x" true;
             Field_data (RScalar (RPrimitive (PInt 16))) "y" true]) (leaf [48%Z]) [].
Definition choice : Message :=
  mkMessage false (Delimited 128)
    (UnionOf 8 [mkVariant (RScalar (uint 8)) "small"; mkVariant (RScalar (RPrimitive (PFloat32 Saturated))) "large"])
    (leaf [16; 40]%Z) [].
Definition report_fields : list Field :=
  [Field_data (RScalar (uint 12)) "a" true; Field_padding 4 false;
   Field_data (RScalar (RComposite some_key point)) "p" true;
   Field_data (RScalar (RComposite some_key choice)) "c" true;
   Field_data (RVariableArray (uint 16) 2) "d" true].

Definition report : Message :=
  mkMessage false Sealed
    (Struct report_fields)
    (leaf [120; 136; 144; 152; 160; 176]%Z) [].

Definition camel (name : string) : string := name.

(** Takes a value of a concrete message apart. *)
Ltac value_cases :=
  repeat match goal with
  | H : message_typed _ _ ?v |- _ => is_var v; destruct v; try done; cbn in H
  | H : fields_typed _ (_ :: _) ?l |- _ => is_var l; destruct l as [|[] ?]; try done
  | H : match ?l with [] => False | _ => _ end |- _ => is_var l; destruct l as [|[] ?]; try done
  | H : match ?v with RBool _ => _ | _ => _ end |- _ => is_var v; destruct v; try done
  | H : _ ∧ _ |- _ => destruct H
  | H : ?l = [] |- _ => is_var l; subst l
  | H : (if bool_decide ?P then _ else _) |- _ => case_bool_decide; subst; try done
  end.

Lemma leaf_sound l : StronglySorted Z.lt l → l ≠ [] → Forall (is_u 64) l → bls_ok (leaf l) ∧ bls_fits 64 (leaf l).
Proof. intros. split; [by apply leaf_ok|constructor]. Qed.

Lemma leaf_multiple l n : Forall (λ x, x mod 8 = 0)%Z l → bls_lengths (leaf l) n → (n mod 8 = 0)%Z.
Proof. intros Hl Hn. inversion Hn; subst. by apply (proj1 (Forall_forall _ _) Hl). Qed.

(** The lengths of the values of the three types. *)
Lemma point_bits v : message_typed camel point v → length (message_bits camel point v) = 48.
Proof. intros Hv. by value_cases. Qed.
Lemma choice_bits v : message_typed camel choice v →
  length (message_bits camel choice v) = 16 ∨ length (message_bits camel choice v) = 40.
Proof. intros Hv. value_cases; by (left + right). Qed.

Lemma point_regular : message_regular camel Debug 64 point.
Proof.
  split_and!.
  - destruct (leaf_sound [48%Z]) as [? ?]; [repeat constructor; lia|done|repeat constructor; lia|]. split_and!; [done|done|].
    intros v Hv. exists 48. rewrite point_bits by done. split; [constructor; set_solver|done].
  - done.
  - cbn. split_and!; try done; [unfold native_width; lia].
  - repeat constructor; set_solver.
  - intros l Hl. by value_cases.
  - intros _. repeat constructor.
Qed.

Lemma choice_sound : lengths_sound camel 64 choice.
Proof.
  destruct (leaf_sound [16; 40]%Z) as [? ?]; [repeat constructor; lia|done|repeat constructor; lia|]. split_and!; [done|done|].
  intros v Hv. destruct (choice_bits v Hv) as [-> | ->]; eexists; (split; [|done]); constructor; set_solver.
Qed.

Lemma choice_sized : message_sized camel choice.
Proof. done. Qed.

Lemma choice_regular : message_regular camel Debug 64 choice.
Proof.
  split; [exact choice_sound|]. split; [unfold is_u; cbn; lia|].
  cbn. unfold native_width. split_and!; try done; lia.
Qed.

Lemma report_sized : message_sized camel report.
Proof.
  assert (Hc : ∀ v, message_typed camel choice v → length (message_bits camel choice v) mod 8 = 0).
  { intros v Hv. by destruct (choice_bits v Hv) as [-> | ->]. }
  split.
  - cbn -[message_typed message_bits]. split_and!; try done.
    + intros n Hn. by apply leaf_multiple in Hn; [|repeat constructor].
    + intros n Hn. by apply leaf_multiple in Hn; [|repeat constructor].
  - intros l Hl. cbn -[message_typed message_bits] in Hl. value_cases.
Qed.

Lemma report_sound : lengths_sound camel 64 report.
Proof.
  destruct (leaf_sound [120; 136; 144; 152; 160; 176]%Z) as [? ?]; [repeat constructor; lia|done|repeat constructor; lia|].
  split_and!; [done|done|]. intros v Hv. value_cases.
  all: destruct elements as [|? [|? [|? ?]]]; cbn in *; [..|lia].
  all: eexists; (split; [|reflexivity]); constructor; cbn; set_solver.
Qed.

Lemma report_fields_regular : fields_regular camel (message_regular camel Debug 64) report_fields.
Proof.
  cbn -[message_regular composite_regular]. unfold native_width. split_and!; try done; try lia.
  - exact point_regular.
  - exact choice_regular.
  - split; [done|]. split.
    + intros v Hv. rewrite length_whole. destruct (choice_bits v Hv) as [-> | ->]; by vm_compute.
    + intros n Hn. inversion Hn; subst. set_unfold. naive_solver.
Qed.

Lemma report_no_zero_copy : Forall (zero_copy_field Debug) report_fields → Forall sealed_field report_fields.
Proof. intros Hz. by inv Hz as [|? ? _ Hz']; inv Hz' as [|? ? Hpad _]. Qed.

Lemma report_regular : message_regular camel Debug 64 report.
Proof.
  split; [exact report_sound|]. split; [done|]. split; [exact report_fields_regular|].
  split; [repeat constructor; set_solver|]. split; [intros l Hl; cbn in Hl; by value_cases|exact report_no_zero_copy].
Qed.

(** A value of the type. *)
Definition report_value : RustValue :=
  RStruct [("a", RInt 2748);
           ("p", RStruct [("x", RFloat 1065353216); ("y", RInt (-2))]);
           ("c", REnum "large" (RFloat 1073741824));
           ("d", RArray [RInt 513; RInt 1027])]%string%Z.

Lemma report_typed : message_typed camel report report_value.
Proof.
  cbn. unfold is_u, is_i. split_and!; try done; try lia. repeat constructor; unfold is_u; lia.
Qed.

Definition report_impl : Impl := message_impl camel camel Debug 2 report.
Definition report_bytes : list u8 :=
  [188; 10; 0; 0; 128; 63; 254; 255; 5; 0; 0; 0; 1; 0; 0; 0; 64; 2; 1; 2; 3; 4]%Z.
End GenExample.

Import GenExample.
#[local] Existing Instance BlsExample.crates.
#[local] Existing Instance BlsExample.crates_spec.

Lemma generated_serializer_exact_witness :
  to_bytes report_impl Release report_value (replicate 22 0%Z) = Ret report_bytes ∧
  byte_bits report_bytes = whole (message_bits camel report report_value).
Proof.
  destruct (generated_serializer_exact camel camel Debug 64 Release 2 report report_value report_regular report_sized)
    as (_ & bytes & E & Hb); [cbn; lia|exact report_typed|].
  assert (Hs : to_bytes report_impl Release report_value (replicate 22 0%Z) = Ret report_bytes) by (vm_compute; reflexivity).
  split; [exact Hs|]. assert (Eb : Ret bytes = Ret report_bytes) by (rewrite <- E, <- Hs; vm_compute; reflexivity).
  injection Eb as <-. exact Hb.
Defined.

Lemma generated_deserializer_exact_witness :
  from_bytes report_impl Release (report_bytes ++ [7; 9]%Z) = Ret (Ok report_value).
Proof.
  apply (generated_deserializer_exact camel camel Debug 64 Release 2 report report_value _ report_regular);
    [cbn; lia|exact report_typed|apply bytes_valid; reflexivity|].
  apply (bool_decide_unpack _). vm_compute. exact I.
Defined.

(** ** Generated code that goes wrong

    Messages outside [message_regular] and [message_sized], and what the code that is generated
    for them does. *)


Definition struct_of (extent : Extent) (fields : list Field) (lengths : list Z) : Message :=
  mkMessage false extent (Struct fields) (leaf lengths) [].
Definition code_for (m : Message) : Impl := message_impl camel camel Debug 3 m.
Definition written_bytes (m : Message) (v : RustValue) : exec (list u8) :=
  let i := code_for m in to_bytes i Debug v (replicate ((impl_size_bits i v + 7) / 8) 0%Z).
Definition boolean : ResolvedScalarType := RPrimitive PBoolean.

(** A negative integer of 12 bits: reading does not extend its sign. *)
Definition small_int : Message :=
  struct_of Sealed [Field_data (RScalar (RPrimitive (PInt 12))) "x" true] [16]%Z.
Lemma sign_is_lost :
  written_bytes small_int (RStruct [("x"%string, RInt (-1))]) = Ret [255; 15]%Z ∧
  from_bytes (code_for small_int) Debug [255; 15]%Z = Ret (Ok (RStruct [("x"%string, RInt 4095)])).
Proof. split; vm_compute; reflexivity. Qed.

(** An array of up to 8 Booleans: its length is read but not written. *)
Definition flags : Message :=
  struct_of Sealed [Field_data (RVariableArray boolean 8) "x" true] [8; 16]%Z.
Lemma bits_have_no_length :
  written_bytes flags (RStruct [("x"%string, RBits (mkBitArray [5%Z] 3))]) = Ret [5; 0]%Z ∧
  from_bytes (code_for flags) Debug [5; 0]%Z = Ret (Ok (RStruct [("x"%string, RBits (mkBitArray [0%Z] 5))])).
Proof. split; vm_compute; reflexivity. Qed.

(** A sealed struct with a byte of padding at its end, in another one: the padding is written
    but not skipped, so the next field reads it. *)
Definition padded : Message :=
  struct_of Sealed [Field_data (RScalar (uint 8)) "a" true; Field_padding 8 true] [16]%Z.
Definition around_padded : Message :=
  struct_of Sealed [Field_data (RScalar (RComposite some_key padded)) "p" true; Field_data (RScalar (uint 8)) "b" true] [24]%Z.
Lemma padding_is_not_skipped :
  let v b := RStruct [("p", RStruct [("a", RInt 7)]); ("b", RInt b)]%string in
  written_bytes around_padded (v 9%Z) = Ret [7; 0; 9]%Z ∧
  from_bytes (code_for around_padded) Debug [7; 0; 9]%Z = Ret (Ok (v 0%Z)).
Proof. split; vm_compute; reflexivity. Qed.

(** Composite values that do not start at a byte: the size has no padding for them, and
    serialization into a buffer of that size panics. *)
Definition byte_struct : Message := struct_of Sealed [Field_data (RScalar (uint 8)) "n" true] [8]%Z.
Definition scattered : Message :=
  struct_of Sealed
    [Field_data (RScalar boolean) "a" true; Field_data (RScalar (RComposite some_key byte_struct)) "b" false;
     Field_data (RScalar boolean) "c" true; Field_data (RScalar (RComposite some_key byte_struct)) "d" false;
     Field_data (RVariableArray (uint 8) 1) "e" true] [40; 48]%Z.
Lemma padding_is_not_counted :
  let v := RStruct [("a", RBool true); ("b", RStruct [("n", RInt 1)]); ("c", RBool true);
                    ("d", RStruct [("n", RInt 2)]); ("e", RArray [])]%string in
  impl_size_bits (code_for scattered) v = 26%nat ∧ written_bytes scattered v = Panic ∧
  to_bytes (code_for scattered) Debug v (replicate 5 0%Z) = Ret [1; 1; 1; 2; 0]%Z.
Proof. split_and!; vm_compute; reflexivity. Qed.

(** A delimited struct of a fixed size, in another one: both are copied as they are in memory,
    without the delimiter header. *)
Definition delimited_byte : Message :=
  struct_of (Delimited 64) [Field_data (RScalar (uint 8)) "n" true] [8]%Z.
Definition around_delimited : Message :=
  struct_of Sealed [Field_data (RScalar (RComposite some_key delimited_byte)) "d" true] [40]%Z.
Lemma header_is_not_written :
  written_bytes around_delimited (RStruct [("d", RStruct [("n", RInt 7)])]%string) = Ret [7; 0; 0; 0; 0]%Z ∧
  from_bytes (code_for around_delimited) Debug [1; 0; 0; 0; 7]%Z = Ret (Ok (RStruct [("d", RStruct [("n", RInt 1)])]%string)).
Proof. split; vm_compute; reflexivity. Qed.

(** A length of an array that is negative as an [i32] is taken for an empty array. *)
Definition long_array : Message :=
  struct_of Sealed [Field_data (RVariableArray (uint 8) 100000) "x" true] [32]%Z.
Lemma negative_length_is_empty :
  from_bytes (code_for long_array) Debug [0; 0; 0; 128]%Z = Ret (Ok (RStruct [("x"%string, RArray [])])) ∧
  from_bytes (code_for long_array) Debug [0; 0; 0; 64]%Z = Ret (Err EncFields.ArrayLength).
Proof. split; vm_compute; reflexivity. Qed.

(** An empty array of composite values after a single bit: the field after it is taken to
    start at a byte, and writing it panics. *)
Definition after_empty : Message :=
  struct_of Sealed
    [Field_data (RScalar boolean) "a" true; Field_data (RVariableArray (RComposite some_key byte_struct) 2) "b" false;
     Field_data (RScalar (uint 8)) "c" true] [24; 32; 40]%Z.
Lemma empty_array_panics :
  let v l := RStruct [("a", RBool true); ("b", RArray l); ("c", RInt 5)]%string in
  to_bytes (code_for after_empty) Debug (v []) (replicate 5 0%Z) = Panic ∧
  to_bytes (code_for after_empty) Debug (v [RStruct [("n", RInt 3)]]%string) (replicate 5 0%Z) = Ret [3; 0; 3; 5; 0]%Z.
Proof. split; vm_compute; reflexivity. Qed.
