(* ===== verification/DsdlBuildSpec.v ===== *)
(** * What the front end computes about a type

    The sets of lengths and the flags that the front end attaches to a type are those of its
    DSDL encoding ([DsdlWire]): whatever the order of the statements, the set of lengths of a
    struct has the length of every value, and fields are flagged as aligned only where every
    value has them at a byte. *)

From stdpp Require Import strings.
From S2P Require Import Prelude BitLengths BitLengthsSpec BitLengthsClaims.
From S2P Require Import EncCursor EncFields EncBits EncCursorSpec Codec BitStreams DsdlTypes RustCode RustGen DsdlWire.
From S2P Require Import DsdlBuild.

#[local] Open Scope nat_scope.

(** ** Lengths *)

Lemma lengths_single x n : bls_lengths (bls_single x) n ↔ n = x.
Proof. split; [inversion 1; set_solver|]. intros ->. constructor. set_solver. Qed.

Lemma lengths_pair a b n : bls_lengths (concatenate a [b]) n ↔ ∃ x y, bls_lengths a x ∧ bls_lengths b y ∧ n = (x + y)%Z.
Proof.
  unfold bls_lengths, concatenate, bls_extend. cbn. split.
  - inversion 1 as [| |? ms Hms| | |]; subst. inv Hms as [|? x ? l Hx Hl]. inv Hl as [|? y ? l' Hy Hl']. inv Hl'.
    exists x, y. split_and!; [done|done|]. cbn. lia.
  - intros (x & y & Hx & Hy & ->). replace (x + y)%Z with (zsum [x; y]) by (cbn; lia).
    constructor. by repeat constructor.
Qed.

Lemma pad_zero_alignment m n : bls_lengths (pad_to_alignment m 1) n ↔ bls_lengths m n.
Proof.
  unfold bls_lengths, pad_to_alignment. cbn. split.
  - inversion 1 as [|? ? x ? Hx [_ Hr]| | | |]; subst. replace n with x by lia. done.
  - intros Hn. econstructor; [exact Hn|]. split; [apply Z.divide_1_l|lia].
Qed.

(** A position and the padding after it. *)
Lemma pad_byte_lengths m k : bls_lengths m (Z.of_nat k) → bls_lengths (pad_to_alignment m 8) (Z.of_nat (k + pad_bits k)).
Proof.
  intros Hk. unfold bls_lengths, pad_to_alignment. cbn [operator]. econstructor; [exact Hk|]. pose proof (pad_bits_lt k). split; [|lia].
  pose proof (pad_bits_spec k). exists (Z.of_nat ((k + pad_bits k) / 8)). pose proof (Nat.div_mod_eq (k + pad_bits k) 8). lia.
Qed.

Section spec.
Context (to_camel_case : string → string) `{CombinatoricsSpec} (p : profile) (usize_bits : Z).
Abbreviation typed := (message_typed to_camel_case).
Abbreviation bits := (message_bits to_camel_case).

(** ** Types of fields *)

(** A set of lengths that computations modulo 8 accept. *)
Definition lengths_valid (b : BitLengthSet) : Prop := bls_ok b ∧ compatible 8 (operator b).

Lemma valid_single x : is_u 64 x → lengths_valid (bls_single x).
Proof. intros Hx. split; [|constructor]. apply leaf_ok; [done|by apply list.Forall_singleton|repeat constructor]. Qed.
Lemma valid_pair a b : lengths_valid a → lengths_valid b → lengths_valid (concatenate a [b]).
Proof. intros [? ?] [? ?]. split; constructor; try done; by repeat constructor. Qed.
Lemma valid_pad a n : lengths_valid a → n = 1%Z ∨ n = 8%Z → lengths_valid (pad_to_alignment a n).
Proof.
  intros [? ?] Hn. split; constructor; try done; [lia|]. left. destruct Hn as [->| ->]; [apply Z.divide_1_l|done].
Qed.

(** The lengths of the values of a type, and its alignment, as the front end has them: an
    array of delimited values has no room for the headers of its elements, so it is excluded. *)
Definition scalar_sound (ty : ResolvedScalarType) : Prop :=
  match ty with
  | RComposite _ m => lengths_valid (msg_bit_length m) ∧
      ∀ v, typed m v → bls_lengths (msg_bit_length m) (Z.of_nat (length (whole (bits m v))))
  | RPrimitive (PInt bits | PUInt bits _) => is_u 8 bits
  | RPrimitive _ => True
  | RVoid _ => False
  end.
Definition type_sound (ty : ResolvedType) : Prop :=
  match ty with
  | RScalar s => scalar_sound s
  | RFixedArray s len | RVariableArray s len => scalar_sound s ∧ is_u 64 len ∧ scalar_extent s = Sealed
  end.

Lemma scalar_size_valid s : scalar_sound s → lengths_valid (scalar_size s).
Proof.
  destruct s as [key m|[]|]; cbn; [by intros [? _]|..]; try done; intros Hb; apply valid_single; unfold is_u in *; cbn; lia.
Qed.

(** The delimiter header. *)
Definition header_bits (s : ResolvedScalarType) : nat := match scalar_extent s with Sealed => 0 | Delimited _ => 32 end.

(** The padding before a value, the delimiter header, and the value. *)
Definition align_pad (s : ResolvedScalarType) (k : nat) : nat := if is_composite s then pad_bits k else 0.

Lemma scalar_bits_length s v k : scalar_sound s → scalar_typed typed s v →
  ∃ n, bls_lengths (scalar_size s) (Z.of_nat n) ∧ (is_composite s = true → n mod 8 = 0) ∧
    length (scalar_bits bits s k v) = align_pad s k + header_bits s + n.
Proof.
  intros Hs Hv. unfold align_pad. destruct s as [key m|primitive|]; [| |done].
  - destruct Hs as [_ Hl]. exists (length (whole (bits m v))). split_and!; [by apply Hl| |].
    { intros _. rewrite length_whole. unfold whole_bytes. dlia. }
    unfold header_bits. cbn [scalar_bits scalar_extent is_composite]. unfold composite_frame, delimiter, msg_delimited.
    rewrite !length_app, length_zeros, Nat.add_assoc. by destruct (msg_extent m); [|rewrite length_z_bits].
  - exists (length (primitive_bits primitive v)). split_and!; [|done|done]. cbn [scalar_size]. rewrite lengths_single.
    destruct primitive; cbn [primitive_bits primitive_bit_length] in *; rewrite ?length_z_bits; cbn in Hs; unfold is_u in *;
      try done; lia.
Qed.

Lemma elements_bits_length s l : scalar_sound s → scalar_extent s = Sealed → Forall (scalar_typed typed s) l → ∀ k,
  (is_composite s = true → k mod 8 = 0) →
  ∃ ns, length ns = length l ∧ Forall (bls_lengths (scalar_size s)) (Z.of_nat <$> ns) ∧
    (is_composite s = true → sum_list ns mod 8 = 0) ∧ length (elements_bits bits s k l) = sum_list ns.
Proof.
  intros Hs He. induction 1 as [|v l Hv _ IH]; intros k Hk; [by exists []|].
  destruct (scalar_bits_length s v k Hs Hv) as (n & Hn & H8 & Hlen). unfold header_bits, align_pad in Hlen. rewrite He in Hlen.
  rewrite Nat.add_0_r in Hlen. replace (if is_composite s then pad_bits k else 0) with 0 in Hlen
    by (destruct (is_composite s); [by rewrite pad_bits_0 by (by apply Hk)|done]). cbn [Nat.add] in Hlen.
  destruct (IH (k + length (scalar_bits bits s k v))) as (ns & Hns & Hall & Hsum & Hlens).
  { intros Hc. rewrite Hlen. specialize (Hk Hc). specialize (H8 Hc). dlia. }
  exists (n :: ns). cbn [elements_bits length fmap list_fmap]. change (sum_list (n :: ns)) with (n + sum_list ns).
  rewrite length_app, Hlens, Hlen, Hns. split_and!; [done|by constructor| |done].
  intros Hc. specialize (H8 Hc). specialize (Hsum Hc). rewrite <- Nat.Div0.add_mod_idemp_l, H8. exact Hsum.
Qed.

(** An array, from where its elements may start. *)
Lemma array_bits_length s v k len_ok cap : scalar_sound s → scalar_extent s = Sealed → array_typed typed s len_ok cap v →
  (is_composite s = true → k mod 8 = 0) →
  ∃ ns, len_ok (length ns) ∧ Forall (bls_lengths (scalar_size s)) (Z.of_nat <$> ns) ∧
    (is_composite s = true → sum_list ns mod 8 = 0) ∧ length (array_bits bits s k v) = sum_list ns.
Proof.
  intros Hs He. unfold array_typed, array_bits. destruct (is_boolean s) eqn:Hb; intros Ha Hk.
  - destruct s as [|[]|]; try done. destruct v as [| | |a| | |]; try done. destruct Ha as [_ Hl].
    exists (replicate (ba_len a) 1). rewrite length_replicate, fmap_replicate. split_and!; [done| |done|].
    + apply Forall_replicate. by apply (lengths_single 1).
    + cbn [bits_of]. unfold array_of_bits. rewrite length_fmap, length_seq, sum_list_replicate. lia.
  - destruct v as [| | | |l| |]; try done. destruct Ha as [Hl Hall]. cbn [elements_of].
    destruct (elements_bits_length s l Hs He Hall k Hk) as (ns & En & Hns & Hsum & E). exists ns. rewrite En. by split_and!.
Qed.

Lemma zsum_sum_list ns : zsum (Z.of_nat <$> ns) = Z.of_nat (sum_list ns).
Proof.
  induction ns as [|n ns IH]; [done|]. cbn [fmap list_fmap]. change (sum_list (n :: ns)) with (n + sum_list ns).
  cbn [zsum foldr]. cbn in IH. rewrite IH. lia.
Qed.

Definition type_scalar (ty : ResolvedType) : ResolvedScalarType :=
  match ty with RScalar s | RFixedArray s _ | RVariableArray s _ => s end.

Lemma field_total_alignment ty : snd (field_total ty) = if is_composite (type_scalar ty) then 8%Z else 1%Z.
Proof.
  unfold field_total. destruct ty as [[key m| |]|[]|[]]; cbn [implicit_field scalar_implicit_field]; try done.
  by destruct (msg_extent m).
Qed.

(** A field's bits: padding, and a length that the front end has for it. *)
Lemma type_bits_length ty v k : type_sound ty → type_typed typed ty v →
  ∃ n, bls_lengths (fst (field_total ty)) (Z.of_nat n) ∧ (is_composite (type_scalar ty) = true → n mod 8 = 0) ∧
    length (type_bits bits ty k v) = align_pad (type_scalar ty) k + n.
Proof.
  destruct ty as [s|s len|s max_len]; cbn [type_sound type_typed type_bits type_scalar].
  - intros Hs Hv. destruct (scalar_bits_length s v k Hs Hv) as (n & Hn & H8 & E). exists (header_bits s + n).
    split_and!; [| |rewrite E; lia].
    + unfold field_total, header_bits. cbn [implicit_field type_size].
      destruct s as [key m| |]; [|done..]. cbn [scalar_implicit_field scalar_extent]. destruct (msg_extent m); [done|].
      cbn [fst]. apply lengths_pair. exists (Z.of_nat n), 32%Z. split_and!; [done|by apply lengths_single|lia].
    + intros Hc. specialize (H8 Hc). unfold header_bits. destruct (scalar_extent s); dlia.
  - intros (Hs & Hlen & He) Hv. set (k' := k + _). destruct (array_bits_length s v k' _ _ Hs He Hv) as (ns & Hl & Hall & H8 & E).
    { intros Hc. unfold k'. rewrite Hc, length_zeros. apply pad_bits_spec. }
    exists (sum_list ns). split_and!; [|done|].
    + unfold field_total. cbn [implicit_field type_size fst]. unfold bls_lengths, repeat. cbn [operator].
      rewrite <- zsum_sum_list. constructor; [|done]. rewrite length_fmap, Hl. unfold is_u in Hlen. lia.
    + rewrite length_app, E. unfold align_pad. by destruct (is_composite s); [rewrite length_zeros|].
  - intros (Hs & Hlen & He) Hv. destruct (array_length_bits_spec max_len Hlen) as [Hn _].
    pose proof (native_width_bytes _ Hn) as H8n. pose proof (native_width_bounds _ Hn) as Hb.
    set (k' := k + _ + _). destruct (array_bits_length s v k' _ _ Hs He Hv) as (ns & Hl & Hall & H8 & E).
    { intros Hc. unfold k'. rewrite Hc, length_zeros, length_z_bits. pose proof (pad_bits_spec k). dlia. }
    exists (Z.to_nat (array_length_bits max_len) + sum_list ns). split_and!.
    + unfold field_total. cbn [implicit_field type_size fst PrimitiveType_from_implicit primitive_bit_length].
      apply lengths_pair. exists (Z.of_nat (sum_list ns)), (array_length_bits max_len).
      split_and!; [|by apply lengths_single|lia]. unfold bls_lengths, repeat_range. cbn [operator].
      rewrite <- zsum_sum_list. constructor; [|done]. rewrite length_fmap. unfold is_u in Hlen. lia.
    + intros Hc. specialize (H8 Hc). rewrite <- Nat.Div0.add_mod_idemp_l, H8n. exact H8.
    + rewrite !length_app, length_z_bits, E. unfold align_pad. destruct (is_composite s); [rewrite length_zeros|cbn [length]]; lia.
Qed.

Lemma field_total_valid ty : type_sound ty → lengths_valid (fst (field_total ty)).
Proof.
  assert (Hs : ∀ s, scalar_sound s → lengths_valid (scalar_size s)) by apply scalar_size_valid.
  destruct ty as [s|s len|s max_len]; cbn [type_sound]; unfold field_total; cbn [implicit_field type_size].
  - intros Hok. destruct (scalar_implicit_field s) as [i|] eqn:Hi; [|by apply Hs]. cbn [fst].
    apply valid_pair; [by apply Hs|]. destruct s as [key m| |]; try done. cbn in Hi. destruct (msg_extent m); [done|].
    injection Hi as <-. apply valid_single. unfold is_u. cbn. lia.
  - intros (Hok & Hlen & _). destruct (Hs s Hok). split; by constructor.
  - intros (Hok & Hlen & _). cbn [fst]. apply valid_pair; [destruct (Hs s Hok); split; by constructor|].
    apply valid_single. cbn [PrimitiveType_from_implicit primitive_bit_length].
    pose proof (native_width_bounds _ (proj1 (array_length_bits_spec max_len Hlen))). unfold is_u. lia.
Qed.

(** ** Structs *)

(** A value has a value of the type of every field. *)
Definition fields_valued (fields : list Field) (self : RustValue) : Prop :=
  Forall (λ f, match field_kind f with
    | PaddingField _ => True
    | DataField ty name => type_typed typed ty (eval self no_value (ESelfField (field_ident name)))
    end) fields.
Definition flag_right (_ : FieldKind) (aligned : bool) (k : nat) : Prop := aligned = true → k mod 8 = 0.

Definition struct_layout (fields : list Field) (lengths : BitLengthSet) : Prop :=
  lengths_valid lengths ∧
  (bls_fits usize_bits lengths → ∀ self, fields_valued fields self →
    bls_lengths lengths (Z.of_nat (length (fields_bits bits fields 0 self))) ∧
    fields_at to_camel_case flag_right fields 0 self).

Lemma fields_bits_app fields1 fields2 self : ∀ k, fields_bits bits (fields1 ++ fields2) k self =
  fields_bits bits fields1 k self ++ fields_bits bits fields2 (k + length (fields_bits bits fields1 k self)) self.
Proof.
  induction fields1 as [|[kind aligned] fields1 IH]; intros k; cbn [app fields_bits]; [by rewrite Nat.add_0_r|].
  rewrite IH, length_app, Nat.add_assoc. by rewrite app_assoc.
Qed.
Lemma fields_at_app P fields1 fields2 self : ∀ k, fields_at to_camel_case P (fields1 ++ fields2) k self ↔
  fields_at to_camel_case P fields1 k self ∧
  fields_at to_camel_case P fields2 (k + length (fields_bits bits fields1 k self)) self.
Proof.
  induction fields1 as [|[kind aligned] fields1 IH]; intros k; cbn [app fields_bits fields_at]; [rewrite Nat.add_0_r; naive_solver|].
  rewrite IH, length_app, Nat.add_assoc. naive_solver.
Qed.

Lemma struct_layout_nil : struct_layout [] (bls_single 0).
Proof. split; [by apply valid_single|]. intros _ self _. split; [by apply lengths_single|done]. Qed.

(** The flag of a new field, from the lengths so far. *)
Definition flag_for (aligned : bool) (lengths : BitLengthSet) : Prop :=
  bls_fits usize_bits lengths → aligned = true → ∀ n, bls_lengths lengths n → (8 | n)%Z.

Lemma flag_for_position aligned lengths k : flag_for aligned lengths → bls_fits usize_bits lengths →
  bls_lengths lengths (Z.of_nat k) → flag_right (PaddingField 0) aligned k.
Proof. intros Hf Hfit Hk Ha. destruct (Hf Hfit Ha _ Hk) as [x Hx]. dlia. Qed.

Lemma flag_computed lengths aligned : lengths_valid lengths → is_byte_aligned p usize_bits lengths = Ret aligned →
  flag_for aligned lengths.
Proof.
  intros [Hok Hc] E Hfit ->. destruct (is_aligned_spec p usize_bits lengths 8 Hok Hfit) as (f & Ef & Hf); [lia|done|].
  unfold is_byte_aligned in E. rewrite E in Ef. injection Ef as <-. by apply Hf.
Qed.

(** Sets that are parts of one that fits. *)
Lemma fits_pair a b : bls_fits usize_bits (concatenate a [b]) → bls_fits usize_bits a ∧ bls_fits usize_bits b.
Proof. unfold bls_fits. cbn. intros Hf. inv Hf as [| |? Hall _| | |]. inv Hall as [|? ? Ha Hb]. by inv Hb. Qed.
Lemma fits_pad a n : bls_fits usize_bits (pad_to_alignment a n) → bls_fits usize_bits a.
Proof. unfold bls_fits. cbn. intros Hf. by inv Hf. Qed.

Lemma struct_layout_padding fields lengths n aligned : struct_layout fields lengths → is_u 8 n → flag_for aligned lengths →
  struct_layout (fields ++ [Field_padding n aligned]) (concatenate lengths [bls_single n]).
Proof.
  intros [Hok Hl] Hn Hflag. split; [apply valid_pair; [done|apply valid_single; unfold is_u in *; lia]|].
  intros [Hfit _]%fits_pair self [Hv _]%Forall_app. destruct (Hl Hfit self Hv) as [Hlen Hat].
  rewrite fields_bits_app, fields_at_app. cbn [fields_bits fields_at field_bits Field_padding]. split.
  - rewrite app_nil_r, length_app, length_zeros. apply lengths_pair. eexists _, n.
    split_and!; [exact Hlen|by apply lengths_single|unfold is_u in Hn; lia].
  - split_and!; [done| |done]. by apply (flag_for_position aligned lengths).
Qed.

Lemma struct_layout_data fields lengths ty name aligned : struct_layout fields lengths → type_sound ty → flag_for aligned lengths →
  struct_layout (fields ++ [Field_data ty name aligned])
    (update_struct_length (snd (field_total ty)) (fst (field_total ty)) lengths).
Proof.
  intros [Hok Hl] Hty Hflag. rewrite field_total_alignment. set (a := if is_composite _ then 8%Z else 1%Z).
  assert (Ha : a = 1%Z ∨ a = 8%Z) by (unfold a; destruct (is_composite _); lia). unfold update_struct_length. split.
  { apply valid_pad; [|done]. apply valid_pair; [by apply valid_pad|by apply field_total_valid]. }
  intros [Hfit%fits_pad _]%fits_pad%fits_pair self [Hv Hx]%Forall_app. apply Forall_cons in Hx as [Hx _]. cbn [field_kind Field_data] in Hx.
  destruct (Hl Hfit self Hv) as [Hlen Hat]. rewrite fields_bits_app, fields_at_app.
  cbn [fields_bits fields_at field_bits Field_data]. rewrite app_nil_r, length_app. set (k := length (fields_bits bits fields 0 self)) in *.
  destruct (type_bits_length ty (eval self no_value (ESelfField (field_ident name))) (0 + k) Hty Hx) as (n & Hn & H8 & E). rewrite E. split.
  - unfold a. unfold align_pad. destruct (is_composite (type_scalar ty)).
    + specialize (H8 eq_refl). assert (Hz : pad_bits (k + (pad_bits (0 + k) + n)) = 0).
      { apply pad_bits_0. pose proof (pad_bits_spec k) as Hp. cbn [Nat.add]. rewrite Nat.add_assoc, <- Nat.Div0.add_mod_idemp_l, Hp. exact H8. }
      assert (Hsum : bls_lengths (concatenate (pad_to_alignment lengths 8) [fst (field_total ty)]) (Z.of_nat (k + (pad_bits (0 + k) + n)))).
      { apply lengths_pair. exists (Z.of_nat (k + pad_bits k)), (Z.of_nat n).
        split_and!; [by apply pad_byte_lengths|done|cbn [Nat.add]; lia]. }
      apply pad_byte_lengths in Hsum. rewrite Hz, Nat.add_0_r in Hsum. exact Hsum.
    + apply pad_zero_alignment, lengths_pair. exists (Z.of_nat k), (Z.of_nat n).
      split_and!; [by apply pad_zero_alignment|done|lia].
  - split_and!; [done| |done]. by apply (flag_for_position aligned lengths).
Qed.

(** ** Unions *)

Lemma unite_all_lengths l : l ≠ [] → ∃ b, unite_all l = Some b ∧
  ∀ c n, c ∈ l → bls_lengths c n → bls_lengths b n.
Proof.
  destruct l as [|c l]; [done|]. intros _. cbn [unite_all]. eexists. split; [done|].
  assert (Hfold : ∀ l c n, (bls_lengths c n ∨ ∃ d, d ∈ l ∧ bls_lengths d n) →
    bls_lengths (foldl (λ size1 size2, unite size1 [size2]) c l) n).
  { clear. induction l as [|d l IH]; intros c n Hn; cbn [foldl]; [destruct Hn as [?|(? & Hd & _)]; [done|set_solver]|].
    apply IH. destruct Hn as [Hc|(d' & Hd & Hn)].
    - left. unfold bls_lengths, unite. cbn. apply (lengths_union _ (operator c)); [set_solver|done].
    - apply elem_of_cons in Hd as [->|Hd]; [|right; by exists d'].
      left. unfold bls_lengths, unite. cbn. apply (lengths_union _ (operator d)); [set_solver|done]. }
  intros d n Hd Hn. apply Hfold. apply elem_of_cons in Hd as [->|Hd]; [by left|right; by exists d].
Qed.

Lemma unite_all_valid l b : Forall lengths_valid l → unite_all l = Some b → lengths_valid b.
Proof.
  destruct l as [|c l]; [done|]. cbn [unite_all]. intros [Hc Hl]%Forall_cons [= <-]. revert c Hc.
  induction Hl as [|d l Hd _ IH]; intros c Hc; cbn [foldl]; [done|]. apply IH. destruct Hc, Hd.
  split; constructor; try done; by repeat constructor.
Qed.

Definition variants_sound (variants : list Variant) : Prop := Forall (λ v, type_sound (variant_ty v)) variants.

(** The variant that a value has. *)
Lemma variants_bits_length tag_bits variants name v : variants_sound variants → tag_bits mod 8 = 0 →
  variants_typed to_camel_case typed variants name v → ∀ i, ∃ w n, w ∈ variants ∧
    bls_lengths (fst (field_total (variant_ty w))) (Z.of_nat n) ∧
    length (variants_bits to_camel_case bits tag_bits i variants name v) = tag_bits + n.
Proof.
  intros Hs Htag. induction Hs as [|[ty name'] variants Hty _ IH]; cbn [variants_typed variants_bits]; [done|].
  intros Hv i. case_bool_decide.
  - destruct (type_bits_length ty v tag_bits Hty Hv) as (n & Hn & _ & E). exists (mkVariant ty name'), n.
    split_and!; [set_solver|done|]. rewrite length_app, length_z_bits, E. unfold align_pad.
    rewrite pad_bits_0 by done. by destruct (is_composite _).
  - destruct (IH Hv (S i)) as (w & n & Hw & Hn & E). exists w, n. split_and!; [set_solver|done|done].
Qed.

Lemma type_size_valid ty : type_sound ty → lengths_valid (type_size ty).
Proof.
  destruct ty as [s|s len|s max_len]; cbn [type_sound type_size]; [by apply scalar_size_valid|..];
    intros (Hok & Hlen & _); destruct (scalar_size_valid s Hok); split; by constructor.
Qed.

Section union.
Context (variants : list Variant).
Hypothesis sound : variants_sound variants.
Hypothesis count : (Z.of_nat (length variants) < 2 ^ 64)%Z.

Lemma discriminant_native : native_width (calculate_discriminant_bits (length variants)).
Proof. apply array_length_bits_spec. lia. Qed.

Lemma union_valid : lengths_valid (make_union_bit_length variants).
Proof.
  unfold make_union_bit_length. pose proof (native_width_bounds _ discriminant_native).
  apply valid_pair; [apply valid_single; unfold is_u; lia|].
  destruct (unite_all _) as [b|] eqn:E; cbn [default from_option id]; [|by apply valid_single].
  eapply unite_all_valid; [|exact E]. apply Forall_fmap. eapply Forall_impl; [exact sound|]. intros v. apply type_size_valid.
Qed.

(** Right only if no variant has a length or a header of its own. *)
Lemma union_lengths name v : Forall (λ v, implicit_field (variant_ty v) = None) variants →
  variants_typed to_camel_case typed variants name v →
  bls_lengths (make_union_bit_length variants) (Z.of_nat (length
    (variants_bits to_camel_case bits (Z.to_nat (calculate_discriminant_bits (length variants))) 0 variants name v))).
Proof.
  intros Hi Hv. pose proof (native_width_bytes _ discriminant_native) as H8. pose proof (native_width_bounds _ discriminant_native).
  destruct (variants_bits_length _ variants name v sound H8 Hv 0) as (w & n & Hw & Hn & ->).
  unfold make_union_bit_length. destruct (unite_all_lengths ((λ v, type_size (variant_ty v)) <$> variants)) as (b & -> & Hb);
    [destruct variants; [set_solver|done]|]. cbn [default from_option id].
  apply lengths_pair. eexists _, (Z.of_nat n). split_and!; [by apply lengths_single| |lia].
  apply (Hb (type_size (variant_ty w))); [apply list_elem_of_fmap; by exists w|].
  apply (proj1 (Forall_forall _ _) Hi) in Hw. unfold field_total in Hn. by rewrite Hw in Hn.
Qed.
End union.

(** ** Messages *)

(** The bits of a whole message, which are padded except in a request. *)
Definition final_bits (padded : bool) (n : nat) : nat := if padded then whole_bytes n else n.

Definition message_layout (padded : bool) (m : Message) : Prop :=
  match msg_kind m with
  | Struct fields =>
      NoDup (omap field_name fields) ∧ lengths_valid (msg_bit_length m) ∧
      (bls_fits usize_bits (msg_bit_length m) → ∀ self, fields_valued fields self →
        bls_lengths (msg_bit_length m) (Z.of_nat (final_bits padded (length (fields_bits bits fields 0 self)))) ∧
        fields_at to_camel_case flag_right fields 0 self)
  | UnionOf tag_bits variants =>
      2 ≤ length variants ∧ NoDup (variant_name <$> variants) ∧
      tag_bits = calculate_discriminant_bits (length variants) ∧
      ((Z.of_nat (length variants) < 2 ^ 64)%Z → lengths_valid (msg_bit_length m) ∧
        (Forall (λ v, implicit_field (variant_ty v) = None) variants → ∀ name v,
          variants_typed to_camel_case typed variants name v →
          bls_lengths (msg_bit_length m)
            (Z.of_nat (final_bits padded (length (variants_bits to_camel_case bits (Z.to_nat tag_bits) 0 variants name v))))))
  end.

(** ** States *)

Definition fields_state (fields : list Field) (lengths : BitLengthSet) : Prop :=
  struct_layout fields lengths ∧ NoDup (omap field_name fields).
Definition variants_state (variants : list Variant) : Prop :=
  variants_sound variants ∧ NoDup (variant_name <$> variants).

Definition struct_state_ok (state : StructState) (lengths : BitLengthSet) : Prop :=
  match state with SCollecting fields | SEnd fields _ => fields_state fields lengths end.
Definition union_state_ok (state : UnionState) : Prop :=
  match state with
  | UCollecting variants => variants_state variants
  | UUsedOffset variants lengths => variants_state variants ∧ lengths = make_union_bit_length variants
  | UEnd variants _ lengths => variants_state variants ∧ lengths = make_union_bit_length variants ∧ 2 ≤ length variants
  end.
Definition state_ok (state : State) : Prop :=
  match state with
  | InMessage => True
  | InMessageStruct state lengths => struct_state_ok state lengths
  | InMessageUnion state => union_state_ok state
  | InResponse request => message_layout false request
  | InResponseStruct request state lengths => message_layout false request ∧ struct_state_ok state lengths
  | InResponseUnion request state => message_layout false request ∧ union_state_ok state
  end.

(** The state is there between statements, and is right. *)
Definition file_ok (self : FileState) : Prop := ∃ state, fs_state self = Some state ∧ state_ok state.

Definition statement_sound (statement : BuildStatement) : Prop :=
  match statement with
  | FieldStatement ty _ => type_sound ty
  | PaddingFieldStatement n => is_u 8 n
  | _ => True
  end.

Lemma put_ok self state self' : put self state = Ret (self', Ok tt) → state_ok state → file_ok self'.
Proof. intros [= <-] Hs. by exists state. Qed.

Lemma has_field_names name fields : has_field name fields = false → name ∉ omap field_name fields.
Proof.
  unfold has_field. intros Hf Hin. apply list_elem_of_omap in Hin as (f & Hf' & E).
  assert (Ht : existsb (λ existing, bool_decide (field_name existing = Some name)) fields = true).
  { apply existsb_exists. exists f. split; [by apply list_elem_of_In|by apply bool_decide_eq_true_2]. }
  congruence.
Qed.
Lemma has_variant_names name variants : has_variant name variants = false → name ∉ variant_name <$> variants.
Proof.
  unfold has_variant. intros Hf Hin. apply list_elem_of_fmap in Hin as (v & -> & Hv).
  assert (Ht : existsb (λ existing, bool_decide (variant_name existing = variant_name v)) variants = true).
  { apply existsb_exists. exists v. split; [by apply list_elem_of_In|by apply bool_decide_eq_true_2]. }
  congruence.
Qed.

Lemma NoDup_snoc {A} (l : list A) x : NoDup l → x ∉ l → NoDup (l ++ [x]).
Proof. intros Hl Hx. apply NoDup_app. split_and!; [done|set_solver|apply NoDup_singleton]. Qed.

Lemma flag_for_start : flag_for true (bls_single 0).
Proof. intros _ _ n ->%lengths_single. apply Z.divide_0_r. Qed.

Lemma fields_state_data fields lengths ty name aligned : fields_state fields lengths → type_sound ty →
  flag_for aligned lengths → has_field name fields = false →
  fields_state (fields ++ [Field_data ty name aligned])
    (update_struct_length (snd (field_total ty)) (fst (field_total ty)) lengths).
Proof.
  intros [Hl Hnd] Hty Hf Hn. split; [by apply struct_layout_data|]. rewrite omap_app.
  apply NoDup_snoc; [done|by apply has_field_names].
Qed.
Lemma fields_state_padding fields lengths n aligned : fields_state fields lengths → is_u 8 n → flag_for aligned lengths →
  fields_state (fields ++ [Field_padding n aligned]) (concatenate lengths [bls_single n]).
Proof. intros [Hl Hnd] Hn Hf. split; [by apply struct_layout_padding|]. rewrite omap_app. by rewrite app_nil_r. Qed.
Lemma fields_state_first_padding n : is_u 8 n → fields_state [Field_padding n true] (bls_single n).
Proof.
  intros Hn. split; [|constructor]. split; [apply valid_single; unfold is_u in *; lia|]. intros _ self _.
  cbn [fields_bits fields_at field_bits Field_padding]. rewrite app_nil_r, length_zeros. split; [|done].
  apply lengths_single. unfold is_u in Hn. lia.
Qed.
Lemma variants_state_new variants ty name : variants_state variants → type_sound ty → has_variant name variants = false →
  variants_state (variants ++ [mkVariant ty name]).
Proof.
  intros [Hs Hnd] Hty Hn. split; [apply Forall_app; by split; [|constructor]|].
  rewrite fmap_app. apply NoDup_snoc; [done|by apply has_variant_names].
Qed.

(** Messages that are complete. *)
Lemma struct_request d e fields lengths cs : fields_state fields lengths → message_layout false (mkMessage d e (Struct fields) lengths cs).
Proof. intros [[Hv Hl] Hnd]. by split_and!. Qed.
Lemma union_request d e variants cs : variants_state variants → 2 ≤ length variants →
  message_layout false (mkMessage d e (UnionOf (calculate_discriminant_bits (length variants)) variants) (make_union_bit_length variants) cs).
Proof.
  intros [Hs Hnd] H2. split_and!; [done|done|done|]. intros Hc. split; [by apply union_valid|].
  intros Hi name v Hv. by apply union_lengths.
Qed.

Lemma whole_bytes_pad n : whole_bytes n = n + pad_bits n.
Proof. unfold whole_bytes, pad_bits. dlia. Qed.

(** Padding at the end of a message. *)
Lemma message_padded d e k lengths cs d' e' cs' : message_layout false (mkMessage d e k lengths cs) →
  message_layout true (mkMessage d' e' k (pad_to_alignment lengths COMPOSITE_ALIGNMENT) cs').
Proof.
  unfold message_layout. cbn [msg_kind msg_bit_length final_bits]. destruct k as [fields|tag_bits variants].
  - intros (Hnd & Hv & Hl). split_and!; [done|by apply valid_pad; [|right]|]. intros Hfit%fits_pad self Hself.
    destruct (Hl Hfit self Hself) as [Hlen Hat]. split; [|done]. rewrite whole_bytes_pad. by apply pad_byte_lengths.
  - intros (H2 & Hnd & Htag & Hl). split_and!; [done|done|done|]. intros Hc. destruct (Hl Hc) as [Hv Hlen].
    split; [by apply valid_pad; [|right]|]. intros Hi name v Hv'. rewrite whole_bytes_pad. apply pad_byte_lengths. by apply Hlen.
Qed.

(** *** Statements *)

Lemma add_field_ok self state ty name self' : fs_state self = Some state → state_ok state → type_sound ty →
  field_statement p usize_bits self ty name = Ret (self', Ok tt) → file_ok self'.
Proof.
  unfold field_statement, add_field, take_state. intros -> Hs Hty. destruct (field_total ty) as [total align] eqn:Ht.
  assert (Hdata : ∀ fields lengths aligned, fields_state fields lengths → flag_for aligned lengths → has_field name fields = false →
    fields_state (fields ++ [Field_data ty name aligned]) (update_struct_length align total lengths)).
  { intros. replace align with (snd (field_total ty)) by by rewrite Ht. replace total with (fst (field_total ty)) by by rewrite Ht.
    by apply fields_state_data. }
  assert (Hfirst : fields_state [Field_data ty name true] (update_struct_length align total (bls_single 0))).
  { apply (Hdata [] _ true); [split; [apply struct_layout_nil|constructor]|apply flag_for_start|done]. }
  cbn [unwrap mbind exec_bind].
  destruct state as [|[fields|fields e] lengths|[vs|vs len|vs e len]|req|req [fields|fields e] lengths|req [vs|vs len|vs e len]];
    try discriminate; cbn [state_ok struct_state_ok union_state_ok] in Hs; intros Hrun.
  - by eapply put_ok.
  - destruct (has_field name fields) eqn:Hf; [discriminate|]. destruct (is_byte_aligned _ _ _) as [aligned|] eqn:Ha; [|discriminate].
    eapply put_ok; [exact Hrun|]. apply Hdata; [done|by apply flag_computed; [apply Hs|]|done].
  - destruct (has_variant name vs) eqn:Hf; [discriminate|]. eapply put_ok; [exact Hrun|]. by apply variants_state_new.
  - by eapply put_ok.
  - destruct (has_field name fields) eqn:Hf; [discriminate|]. destruct (is_byte_aligned _ _ _) as [aligned|] eqn:Ha; [|discriminate].
    destruct Hs as [Hr Hs]. eapply put_ok; [exact Hrun|]. split; [done|].
    apply Hdata; [done|by apply flag_computed; [apply Hs|]|done].
  - destruct (has_variant name vs) eqn:Hf; [discriminate|]. destruct Hs as [Hr Hs]. eapply put_ok; [exact Hrun|].
    split; [done|by apply variants_state_new].
Qed.

Lemma add_padding_ok self state n self' : fs_state self = Some state → state_ok state → is_u 8 n →
  add_padding_field p usize_bits self n = Ret (self', Ok tt) → file_ok self'.
Proof.
  unfold add_padding_field, take_state. intros -> Hs Hn. cbn [unwrap mbind exec_bind].
  destruct state as [|[fields|fields e] lengths|[vs|vs len|vs e len]|req|req [fields|fields e] lengths|req [vs|vs len|vs e len]];
    try discriminate; cbn [state_ok struct_state_ok union_state_ok] in Hs; intros Hrun.
  - eapply put_ok; [exact Hrun|]. by apply fields_state_first_padding.
  - destruct (is_byte_aligned _ _ _) as [aligned|] eqn:Ha; [|discriminate].
    eapply put_ok; [exact Hrun|]. apply fields_state_padding; [done|done|by apply flag_computed; [apply Hs|]].
  - eapply put_ok; [exact Hrun|]. split; [done|by apply fields_state_first_padding].
  - destruct (is_byte_aligned _ _ _) as [aligned|] eqn:Ha; [|discriminate]. destruct Hs as [Hr Hs].
    eapply put_ok; [exact Hrun|]. split; [done|]. apply fields_state_padding; [done|done|by apply flag_computed; [apply Hs|]].
Qed.

Lemma extent_ok self state e self' : fs_state self = Some state → state_ok state →
  apply_sealed_or_extent self e = Ret (self', Ok tt) → file_ok self'.
Proof.
  assert (Hnil : fields_state [] (bls_single 0)) by (split; [apply struct_layout_nil|constructor]).
  unfold apply_sealed_or_extent, take_state, UNION_MIN_VARIANTS. intros -> Hs. cbn [unwrap mbind exec_bind].
  destruct state as [|[fields|fields e'] lengths|[vs|vs len|vs e' len]|req|req [fields|fields e'] lengths|req [vs|vs len|vs e' len]];
    try discriminate; cbn [state_ok struct_state_ok union_state_ok] in Hs; intros Hrun.
  all: try (destruct (Nat.leb_spec 2 (length vs)); [|discriminate]).
  all: eapply put_ok; [exact Hrun|]; cbn [state_ok struct_state_ok union_state_ok]; naive_solver.
Qed.

Lemma marker_ok self state self' : fs_state self = Some state → state_ok state →
  handle_service_response_marker self = Ret (self', Ok tt) → file_ok self'.
Proof.
  unfold handle_service_response_marker, take_state, take_message. intros -> Hs. cbn [unwrap mbind exec_bind].
  destruct state as [|[fields|fields e'] lengths|[vs|vs len|vs e' len]|req|req [fields|fields e'] lengths|req [vs|vs len|vs e' len]];
    try discriminate; cbn [state_ok struct_state_ok union_state_ok] in Hs; intros Hrun.
  - eapply put_ok; [exact Hrun|]. by apply struct_request.
  - destruct Hs as (Hv & -> & H2). eapply put_ok; [exact Hrun|]. by apply union_request.
Qed.

Lemma statement_ok self statement self' : file_ok self → statement_sound statement →
  run_statement p usize_bits self statement = Ret (self', Ok tt) → file_ok self'.
Proof.
  intros (state & Hst & Hs) Hsound. destruct statement as [|bits| | | |name c|ty name|n|]; cbn [run_statement statement_sound] in *.
  - unfold handle_union, take_state. rewrite Hst. cbn [unwrap mbind exec_bind]. intros Hrun.
    destruct state; try discriminate; (eapply put_ok; [exact Hrun|]); repeat split; cbn in *; (done || constructor).
  - by apply (extent_ok self state).
  - by apply (extent_ok self state).
  - unfold handle_deprecated. destruct (fs_deprecated self); [discriminate|]. rewrite Hst. cbn [unwrap mbind exec_bind].
    intros Hrun. assert (E : fs_state self' = Some state); [|by exists state].
    destruct state as [|[]|[[|]| |]| | |]; try discriminate; by injection Hrun as <-.
  - unfold bit_length_set, take_state. rewrite Hst. cbn [unwrap mbind exec_bind]. intros Hrun.
    destruct state as [|[] ?|[]|?|? [] ?|? []]; cbn in Hrun; injection Hrun as <-; eexists; (split; [done|]); cbn in *; naive_solver.
  - destruct (has_constant name (fs_constants self)); [discriminate|]. intros [= <-]. by exists state.
  - by apply (add_field_ok self state).
  - by apply (add_padding_ok self state).
  - by apply (marker_ok self state).
Qed.

Lemma statements_ok statements : ∀ self self', file_ok self → Forall statement_sound statements →
  run_statements p usize_bits self statements = Ret (self', Ok tt) → file_ok self'.
Proof.
  induction statements as [|statement statements IH]; intros self self' Hok Hall; cbn [run_statements].
  { by intros [= <-]. }
  apply Forall_cons in Hall as [Hst Hall]. destruct (run_statement _ _ self statement) as [[self1 [[]|e]]|] eqn:E; cbn [mbind exec_bind];
    [|discriminate..]. apply IH; [by apply (statement_ok self statement)|done].
Qed.

(** ** The end of the file *)

Definition compiled_layout (dsdl : CompiledDsdl) : Prop :=
  match dsdl_kind dsdl with
  | KindMessage message => message_layout true message
  | KindService request response => message_layout false request ∧ message_layout true response
  end.

Lemma finish_layout self port_id dsdl : file_ok self → finish self port_id = Ret (Ok dsdl) →
  fixed_port_id dsdl = port_id ∧ compiled_layout dsdl.
Proof.
  intros (state & Hst & Hs). unfold compiled_layout.
  unfold finish, finish_message. rewrite Hst. cbn [unwrap mbind exec_bind].
  destruct state as [|[fields|fields e'] lengths|[vs|vs len|vs e' len]|req|req [fields|fields e'] lengths|req [vs|vs len|vs e' len]];
    try discriminate; cbn [state_ok struct_state_ok union_state_ok] in Hs; intros [= <-]; (split; [done|]); cbn [dsdl_kind].
  - by apply (message_padded false Sealed _ _ []), struct_request.
  - destruct Hs as (Hv & -> & H2). apply (message_padded false Sealed _ _ []); by apply union_request.
  - destruct Hs as [Hr Hs]. split; [done|by apply (message_padded false Sealed _ _ []), struct_request].
  - destruct Hs as (Hr & Hv & -> & H2). split; [done|apply (message_padded false Sealed _ _ []); by apply union_request].
Qed.

Lemma compile_file path statements port_id dsdl : compile_statements p usize_bits path statements port_id = Ret (Ok dsdl) →
  ∃ self, run_statements p usize_bits (FileState_new path) statements = Ret (self, Ok tt) ∧ finish self port_id = Ret (Ok dsdl).
Proof.
  unfold compile_statements.
  destruct (run_statements p usize_bits (FileState_new path) statements) as [[self [[]|e]]|] eqn:E; cbn [mbind exec_bind];
    [|discriminate..]. intros Hf. by exists self.
Qed.
Lemma new_file_ok path : file_ok (FileState_new path).
Proof. by exists InMessage. Qed.
End spec.
