(* ===== verification/DsdlBuildClaims.v ===== *)
(** * Compiled types are what their encoding is

    The front end's results for a whole file, and that they are what the code generator relies
    on. Examples show what is left out: implicit fields in the lengths of unions and of arrays
    of delimited values, the padding of a request, and the deprecation of a response. *)

From Stdlib Require Import Sorted.
From stdpp Require Import strings.
From S2P Require Import Prelude BitLengths BitLengthsSpec BitLengthsClaims.
From S2P Require Import EncCursor EncFields EncBits EncCursorSpec Codec BitStreams DsdlTypes RustCode RustGen DsdlWire.
From S2P Require Import RustGenClaims DsdlBuild DsdlBuildSpec RustGenSpec.

#[local] Open Scope nat_scope.

Section claims.
Context (to_camel_case : string → string) `{CombinatoricsSpec} (p : profile) (usize_bits : Z).


(** ** From the front end to the generated code *)

Lemma typed_valued fields l : NoDup (field_idents fields) → fields_typed (message_typed to_camel_case) fields l →
  fields_valued to_camel_case fields (RStruct l).
Proof.
  intros Hnd Hl. pose proof (struct_field_values _ fields l Hnd Hl) as Hv. clear Hnd. revert Hv.
  generalize (RStruct l). intros self Hv. revert l Hl Hv.
  induction fields as [|[[n|ty name] aligned] fields IH]; intros l Hl Hv; constructor.
  - done.
  - by apply (IH l).
  - destruct l as [|[n x] l]; [done|]. destruct Hl as (-> & Hx & _). cbn [field_kind]. rewrite (Hv _ x) by set_solver. done.
  - destruct l as [|[n x] l]; [done|]. destruct Hl as (_ & _ & Hl). apply (IH l); [done|set_solver].
Qed.

(** An array of composite values starts at a byte in every value. *)
Definition arrays_at_byte (kind : FieldKind) (_ : bool) (k : nat) : Prop :=
  match kind with
  | DataField (RFixedArray s _ | RVariableArray s _) _ => is_composite s = true → k mod 8 = 0
  | _ => True
  end.

Lemma fields_placed_at fields self : ∀ k, fields_at to_camel_case flag_right fields k self →
  fields_at to_camel_case arrays_at_byte fields k self → fields_at to_camel_case field_placed fields k self.
Proof.
  induction fields as [|[kind aligned] fields IH]; intros k; [done|]. cbn [fields_at]. intros [Hf Hfs] [Ha Has].
  split; [|by apply IH]. destruct kind as [n|ty name]; [done|]. by split; [|destruct ty].
Qed.

End claims.

(** ** A file *)

Module BuildExample.
Import GenExample.
#[local] Existing Instance BlsExample.crates.
#[local] Existing Instance BlsExample.crates_spec.

(** The statements of the message [report]. *)
Definition report_statements : list BuildStatement :=
  [FieldStatement (RScalar (uint 12)) "a"; PaddingFieldStatement 4;
   FieldStatement (RScalar (RComposite some_key point)) "p";
   FieldStatement (RScalar (RComposite some_key choice)) "c";
   FieldStatement (RVariableArray (uint 16) 2) "d"; DirectiveSealed].

Lemma report_statements_sound : Forall (statement_sound camel) report_statements.
Proof.
  assert (Hl : ∀ l, StronglySorted Z.lt l → l ≠ [] → Forall (is_u 64) l → lengths_valid (leaf l)).
  { intros l H1 H2 H3. split; [by apply leaf_ok|constructor]. }
  unfold report_statements. repeat (apply Forall_cons; split); [..|done]; cbn -[message_typed message_bits leaf];
    unfold is_u; try lia; try done.
  - split; [apply Hl; [repeat constructor|done|repeat constructor; done]|]. intros v Hv. rewrite length_whole, point_bits by done. constructor. set_solver.
  - split; [apply Hl; [repeat constructor|done|repeat constructor; done]|]. intros v Hv.
    rewrite length_whole. destruct (choice_bits v Hv) as [-> | ->]; constructor; set_solver.
Qed.

(** The lengths that the front end finds for it. *)
Definition report_lengths : BitLengthSet :=
  match compile_statements Debug 64 [] report_statements None with
  | Ret (Ok (mkCompiledDsdl _ (KindMessage m))) => msg_bit_length m
  | _ => BIT_LENGTH_ZERO
  end.
Definition report_compiled : Message := mkMessage false Sealed (Struct report_fields) report_lengths [].

Lemma report_compiles :
  compile_statements Debug 64 [] report_statements (Some 7000%Z) = Ret (Ok (mkCompiledDsdl (Some 7000%Z) (KindMessage report_compiled))).
Proof. reflexivity. Qed.

Lemma report_lengths_fit : bls_fits 64 report_lengths.
Proof. apply bls_fits_check; [|by vm_compute]. vm_compute. repeat constructor; done. Qed.
End BuildExample.

Import GenExample BuildExample.
#[local] Existing Instance BlsExample.crates.
#[local] Existing Instance BlsExample.crates_spec.



(** ** Compiled types that are not what their encoding is

    Files outside the hypotheses of the claims on the front end, what it makes of them, and
    the order in which it refuses statements. *)


Definition compiled (statements : list BuildStatement) : exec (result BuildError CompiledDsdl) :=
  compile_statements Debug 64 [] statements None.
(** The message that a file has, and the lengths that it has for it. *)
Definition message_of (statements : list BuildStatement) : option Message :=
  match compiled statements with Ret (Ok (mkCompiledDsdl _ (KindMessage m))) => Some m | _ => None end.
Definition lengths_of (m : Message) : exec BTreeSet := expand Debug 64 (operator (msg_bit_length m)).
Definition compiled_lengths (statements : list BuildStatement) : option (exec BTreeSet) := lengths_of <$> message_of statements.
Definition encoded_length (statements : list BuildStatement) (v : RustValue) : option nat :=
  (λ m, length (whole (message_bits camel m v))) <$> message_of statements.

(** A union with an array of up to one byte: the length field of the array is not counted. *)
Definition union_file : list BuildStatement :=
  [DirectiveUnion; FieldStatement (RScalar (uint 8)) "n"; FieldStatement (RVariableArray (uint 8) 1) "l"; DirectiveSealed].
Lemma implicit_field_is_not_counted :
  compiled_lengths union_file = Some (Ret [8; 16]%Z) ∧
  encoded_length union_file (REnum "l" (RArray [RInt 1])) = Some 24%nat.
Proof. split; vm_compute; reflexivity. Qed.

(** An array of delimited values: their headers are not counted. *)
Definition delimited_array_file : list BuildStatement :=
  [FieldStatement (RFixedArray (RComposite some_key choice) 1) "l"; DirectiveSealed].
Lemma headers_are_not_counted :
  compiled_lengths delimited_array_file = Some (Ret [16; 40]%Z) ∧
  encoded_length delimited_array_file (RStruct [("l", RArray [REnum "small" (RInt 1)])]%string) = Some 48%nat.
Proof. split; vm_compute; reflexivity. Qed.

(** A deprecated service: the request has no padding at its end, and the response is not
    deprecated. *)
Definition service_file : list BuildStatement :=
  [DirectiveDeprecated; FieldStatement (RScalar boolean) "a"; DirectiveSealed; ServiceResponseMarker;
   FieldStatement (RScalar boolean) "b"; DirectiveSealed].
Lemma request_and_response_differ :
  ∃ request response, compiled service_file = Ret (Ok (mkCompiledDsdl None (KindService request response))) ∧
    lengths_of request = Ret [1%Z] ∧ lengths_of response = Ret [8%Z] ∧
    msg_deprecated request = true ∧ msg_deprecated response = false.
Proof. eexists _, _. split; [reflexivity|]. vm_compute. split_and!; reflexivity. Qed.

(** The front end flags the fields of [after_empty] like that, so the panic is that of a file. *)
Lemma panicking_message_is_compiled :
  msg_kind <$> message_of [FieldStatement (RScalar boolean) "a"; FieldStatement (RVariableArray (RComposite some_key byte_struct) 2) "b";
    FieldStatement (RScalar (uint 8)) "c"; DirectiveSealed] = Some (msg_kind after_empty).
Proof. vm_compute. reflexivity. Qed.
