(* ===== verification/DsdlEvalClaims.v ===== *)
(** * What compiling a package gives

    The results for whole packages: compiling returns, what it gives is what the reference has
    for each file, and every package that the reference has compiles. A file that compiles is
    one of [DsdlBuild] with the types that its lookups found, so the sets of lengths of the
    types of a package, which are made from those of other files, are those of their encodings. *)

From Stdlib Require Import QArith Qcanon.
From stdpp Require Import strings.
From S2P Require Import Prelude BitLengths BitLengthsSpec BitLengthsClaims.
From S2P Require Import EncCursor EncFields EncBits EncCursorSpec Codec BitStreams DsdlTypes RustCode RustGen DsdlWire.
From S2P Require Import DsdlSyntax DsdlBuild DsdlBuildSpec RustGenClaims DsdlBuildClaims DsdlValues DsdlEval DsdlEvalSpec.

#[local] Open Scope nat_scope.

(** ** A file is one of [DsdlBuild] *)

Lemma answer_bind {A B} f (g : A → Comp B) c : answer f (comp_bind g c) = a ← answer f c; answer f (g a).
Proof.
  induction c as [a| |key k IH]; cbn [comp_bind answer]; [done..|]. destruct (f key) as [d|]; cbn; [apply IH|done].
Qed.

Section build.
Context `{Combinatorics} `{Conversions} (p : profile) (usize_bits : Z) (f : TypeKey → option CompiledDsdl).

Lemma run_app fs fs1 l1 l2 : run_statements p usize_bits fs l1 = Ret (fs1, Ok tt) →
  run_statements p usize_bits fs (l1 ++ l2) = run_statements p usize_bits fs1 l2.
Proof.
  revert fs. induction l1 as [|s l1 IH]; intros fs; cbn [app run_statements]; [by intros [= ->]|].
  destruct (run_statement _ _ fs s) as [[fs2 [[]|e]]|]; cbn [mbind exec_bind]; [apply IH|done..].
Qed.

(** The steps of a computation that ends well. *)
Lemma answer_step {A B} (m : Eval A) (g : A → Eval B) fs fs' y : answer f ((m ≫= g) fs) = Some (fs', Ok y) →
  ∃ fs1 x, answer f (m fs) = Some (fs1, Ok x) ∧ answer f (g x fs1) = Some (fs', Ok y).
Proof.
  unfold mbind, eval_bind. rewrite answer_bind. destruct (answer f (m fs)) as [[fs1 [x|e]]|]; cbn; [|done..]. eauto.
Qed.
Lemma answer_lift {A} (m : exec (result Error A)) fs fs' x : answer f (lift m fs) = Some (fs', Ok x) → fs' = fs ∧ m = Ret (Ok x).
Proof. unfold lift. destruct m as [r|]; [|done]. by intros [= -> ->]. Qed.
Lemma answer_result {A} (r : result Error A) fs fs' x : answer f (lift_result r fs) = Some (fs', Ok x) → fs' = fs ∧ r = Ok x.
Proof. intros Ha. apply (answer_lift (Ret r)) in Ha as [-> [= ->]]. done. Qed.
Lemma answer_build b fs fs' x : answer f (build b fs) = Some (fs', Ok x) → b fs = Ret (fs', Ok tt).
Proof. unfold build. destruct (b fs) as [[fs1 [[]|e]]|]; cbn; [|done..]. by intros [= ->]. Qed.

(** Expressions only read [_offset_]. *)
Definition only_reads A (m : Eval A) : Prop := ∀ fs fs' x, answer f (m fs) = Some (fs', Ok x) →
  ∃ n, run_statements p usize_bits fs (replicate n UseOffset) = Ret (fs', Ok tt).

Lemma only_reads_closed : closed p usize_bits only_reads.
Proof.
  split.
  - intros A x fs fs' y [= -> _]. by exists 0.
  - intros A B m g Hm Hg fs fs' y (fs1 & x & Hx & Hy)%answer_step.
    destruct (Hm fs fs1 x Hx) as [n1 H1], (Hg x fs1 fs' y Hy) as [n2 H2]. exists (n1 + n2).
    by rewrite replicate_add, (run_app _ _ _ _ H1).
  - intros A m fs fs' x [-> _]%answer_lift. by exists 0.
  - intros key fs fs' x. unfold type_by_key. cbn [answer]. destruct (f _) as [d|]; cbn; [|done]. intros [= -> _]. by exists 0.
  - intros name fs fs' x. unfold evaluate_identifier. destruct (String.eqb _ _).
    + destruct (bit_length_set fs) as [[fs1 b]|] eqn:E; cbn; [|done]. intros [= -> _]. exists 1.
      cbn [replicate run_statements run_statement]. by rewrite E.
    + destruct (find_constant _ _); cbn; [|done]. intros [= -> _]. by exists 0.
Qed.

(** The types of fields are those that were found. *)
Definition scalar_found (s : ResolvedScalarType) : Prop :=
  match s with RComposite key m => ∃ key' d, f key' = Some d ∧ dsdl_kind d = KindMessage m | _ => True end.
Definition statement_found (s : BuildStatement) : Prop :=
  match s with FieldStatement ty _ => scalar_found (type_scalar ty) | _ => True end.

Lemma resolve_scalar s fs fs' r : answer f (scalar_resolve s fs) = Some (fs', Ok r) → fs' = fs ∧ scalar_found r.
Proof.
  destruct s as [key|prim|n]; cbn [scalar_resolve]; [|by intros [= <- <-]..].
  intros (fs1 & [key1 m] & Hm & [= <- <-])%answer_step. apply answer_step in Hm as (fs2 & [key2 d] & Hd & Hm).
  unfold type_by_key in Hd. cbn [answer] in Hd. set (key' := match tfn_path (tk_name key) with [] => _ | _ => _ end) in Hd.
  destruct (f key') as [d'|] eqn:E; cbn in Hd; [|done]. injection Hd as <- _ ->.
  destruct (dsdl_kind d) as [m'|] eqn:Ek; [|by apply answer_result in Hm as [_ [=]]]. injection Hm as <- _ <-. split; [done|]. by exists key', d.
Qed.
Lemma resolve_type ty fs fs' r : answer f (type_resolve ty fs) = Some (fs', Ok r) → fs' = fs ∧ scalar_found (type_scalar r).
Proof.
  destruct ty; cbn [type_resolve]; intros (fs1 & s & [-> Hs]%resolve_scalar & [= <- <-])%answer_step; done.
Qed.

Lemma expression_reads e fs fs' v : answer f (evaluate_expression p usize_bits e fs) = Some (fs', Ok v) →
  ∃ n, run_statements p usize_bits fs (replicate n UseOffset) = Ret (fs', Ok tt).
Proof. apply (expression_good p usize_bits only_reads only_reads_closed). Qed.
Lemma convert_reads t fs fs' ty : answer f (convert_type (evaluate_expression p usize_bits) t fs) = Some (fs', Ok ty) →
  ∃ n, run_statements p usize_bits fs (replicate n UseOffset) = Ret (fs', Ok tt).
Proof. apply (convert_type_good p usize_bits only_reads only_reads_closed). Qed.

(** A statement, after the reads of its expressions. *)
Definition replayed (fs fs' : FileState) : Prop := ∃ l,
  run_statements p usize_bits fs l = Ret (fs', Ok tt) ∧ Forall statement_found l.

Lemma replay_reads n s fs fs1 fs' : run_statements p usize_bits fs (replicate n UseOffset) = Ret (fs1, Ok tt) →
  run_statement p usize_bits fs1 s = Ret (fs', Ok tt) → statement_found s → replayed fs fs'.
Proof.
  intros H1' H2 Hs. exists (replicate n UseOffset ++ [s]). split.
  - rewrite (run_app _ _ _ _ H1'). cbn [run_statements]. by rewrite H2.
  - apply Forall_app. split; [|by repeat constructor]. apply list.Forall_replicate. done.
Qed.
Lemma replay_only_reads n fs fs' : run_statements p usize_bits fs (replicate n UseOffset) = Ret (fs', Ok tt) → replayed fs fs'.
Proof. intros Hr. exists (replicate n UseOffset). split; [done|]. apply list.Forall_replicate. done. Qed.
Lemma replay_one s fs fs' : run_statement p usize_bits fs s = Ret (fs', Ok tt) → statement_found s → replayed fs fs'.
Proof. by apply (replay_reads 0). Qed.

Lemma plain_build name e b fs fs' : answer f (plain_directive name e (build b) fs) = Some (fs', Ok tt) → b fs = Ret (fs', Ok tt).
Proof. destruct e; [by intros [_ [=]]%answer_result|apply answer_build]. Qed.

Lemma replay_directive name e fs fs' : answer f (evaluate_directive p usize_bits name e fs) = Some (fs', Ok tt) → replayed fs fs'.
Proof.
  unfold evaluate_directive. destruct (String.eqb _ "union"); [intros Hb%plain_build; by apply (replay_one DirectiveUnion)|].
  destruct (String.eqb _ "extent").
  { destruct e; [|by intros [_ [=]]%answer_result]. intros (fs1 & v & [n Hn]%expression_reads & Hx)%answer_step.
    apply answer_step in Hx as (fs2 & extent & [-> _]%answer_result & Hb%answer_build).
    by apply (replay_reads n (DirectiveExtent extent) fs fs1). }
  destruct (String.eqb _ "sealed"); [intros Hb%plain_build; by apply (replay_one DirectiveSealed)|].
  destruct (String.eqb _ "deprecated"); [intros Hb%plain_build; by apply (replay_one DirectiveDeprecated)|].
  destruct (String.eqb _ "assert").
  { destruct e; [|by intros [_ [=]]%answer_result]. intros (fs1 & v & [n Hn]%expression_reads & Hx)%answer_step.
    apply (replay_only_reads n). destruct v as [| | | |[]|]; try (by apply answer_result in Hx as [_ [=]]).
    by injection Hx as ->. }
  destruct (String.eqb _ "print"); [|by intros [_ [=]]%answer_result].
  destruct e; [|intros [= ->]; by apply (replay_only_reads 0)].
  intros (fs1 & v & [n Hn]%expression_reads & [= ->])%answer_step. by apply (replay_only_reads n).
Qed.

Lemma run_reads_constants n : ∀ fs fs', run_statements p usize_bits fs (replicate n UseOffset) = Ret (fs', Ok tt) →
  fs_constants fs' = fs_constants fs.
Proof.
  induction n as [|n IH]; intros fs fs'; cbn [replicate run_statements run_statement]; [by intros [= ->]|].
  unfold bit_length_set, take_state. destruct (fs_state fs) as [st|]; cbn [unwrap mbind exec_bind]; [|done].
  destruct st as [|[] ?|[]|?|? [] ?|? []]; cbn [mbind exec_bind]; intros Hr; by apply IH in Hr.
Qed.

Lemma replay_constant ty name e fs fs' : answer f (evaluate_statement p usize_bits (ConstantDecl ty name e) fs) = Some (fs', Ok tt) →
  replayed fs fs'.
Proof.
  cbn [evaluate_statement]. intros (fs1 & cs & [= <- <-] & Hx)%answer_step.
  destruct (has_constant name (fs_constants fs)) eqn:Hc; [by apply answer_result in Hx as [_ [=]]|].
  apply answer_step in Hx as (fs1 & c & Hx & Hput). unfold Constant_evaluate in Hx.
  destruct (is_reserved_keyword name); [by apply answer_result in Hx as [_ [=]]|].
  apply answer_step in Hx as (fs2 & v & [n Hn]%expression_reads & Hx).
  apply answer_step in Hx as (fs3 & cv & [-> _]%answer_lift & [= <- <-]).
  injection Hput as <-. apply (replay_reads n (ConstantStatement name (mkConstant ty v cv)) fs fs2); [done| |done].
  cbn [run_statement]. rewrite (run_reads_constants _ _ _ Hn), Hc. by rewrite <- (run_reads_constants _ _ _ Hn).
Qed.

Lemma replay_statement s fs fs' : answer f (evaluate_statement p usize_bits s fs) = Some (fs', Ok tt) → replayed fs fs'.
Proof.
  destruct s as [name e|ty name e|ty name|bits|]; [apply replay_directive|apply replay_constant|..]; cbn [evaluate_statement].
  - intros (fs1 & t & [n Hn]%convert_reads & Hx)%answer_step.
    apply answer_step in Hx as (fs2 & r & [-> Hr]%resolve_type & Hb%answer_build).
    by apply (replay_reads n (FieldStatement r name) fs fs1).
  - intros Hb%answer_build. by apply (replay_one (PaddingFieldStatement bits)).
  - intros Hb%answer_build. by apply (replay_one ServiceResponseMarker).
Qed.

Lemma replay_statements l : ∀ fs fs', answer f (evaluate_statements p usize_bits l fs) = Some (fs', Ok tt) → replayed fs fs'.
Proof.
  induction l as [|s l IH]; intros fs fs'; cbn [evaluate_statements]; [intros [= ->]; by apply (replay_only_reads 0)|].
  intros (fs1 & [] & (l1 & H1' & Hf1)%replay_statement & (l2 & H2 & Hf2)%IH)%answer_step.
  exists (l1 ++ l2). split; [by rewrite (run_app _ _ _ _ H1')|by apply Forall_app].
Qed.

Lemma replay_file read_to_string `{ParserCrates} key input d :
  answer f (compile_one_inner p usize_bits read_to_string key input) = Some (Ok d) →
  ∃ l, compile_statements p usize_bits (tfn_path (tk_name key)) l (df_fixed_port_id input) = Ret (Ok d) ∧
    Forall statement_found l.
Proof.
  unfold compile_one_inner. cbv zeta. rewrite answer_bind.
  destruct (answer f _) as [[fs r]|] eqn:E; cbn [mbind option_bind answer]; [|done]. intros [= ->].
  apply answer_step in E as (fs1 & content & [-> _]%answer_result & E).
  apply answer_step in E as (fs1 & ast & [-> _]%answer_lift & E).
  apply answer_step in E as (fs1 & [] & (l & Hrun & Hl)%replay_statements & E).
  exists l. split; [|done]. unfold compile_statements. rewrite Hrun. cbn [mbind exec_bind].
  unfold finish_file in E. destruct (finish fs1 _) as [[d'|e]|]; cbn in E; [|done..]. by injection E as _ ->.
Qed.
End build.

(** ** Fields are kept *)

Definition kinds_of (m : MessageKind) : list FieldKind :=
  match m with
  | Struct fields => field_kind <$> fields
  | UnionOf _ variants => (λ v, DataField (variant_ty v) (variant_name v)) <$> variants
  end.
Definition message_kinds (m : Message) : list FieldKind := kinds_of (msg_kind m).
Definition dsdl_kinds (d : CompiledDsdl) : list FieldKind :=
  match dsdl_kind d with
  | KindMessage m => message_kinds m
  | KindService request response => message_kinds request ++ message_kinds response
  end.

Definition struct_fields (s : StructState) : list Field := match s with SCollecting fields | SEnd fields _ => fields end.
Definition union_variants (s : UnionState) : list Variant :=
  match s with UCollecting vs | UUsedOffset vs _ | UEnd vs _ _ => vs end.
Definition state_kinds (s : State) : list FieldKind :=
  match s with
  | InMessage => []
  | InMessageStruct s _ => kinds_of (Struct (struct_fields s))
  | InMessageUnion s => kinds_of (UnionOf 0 (union_variants s))
  | InResponse m => message_kinds m
  | InResponseStruct m s _ => message_kinds m ++ kinds_of (Struct (struct_fields s))
  | InResponseUnion m s => message_kinds m ++ kinds_of (UnionOf 0 (union_variants s))
  end.
Definition file_kinds (fs : FileState) : list FieldKind := match fs_state fs with Some s => state_kinds s | None => [] end.

(** The field of a statement. *)
Definition statement_kind (s : BuildStatement) : list FieldKind :=
  match s with
  | FieldStatement ty name => [DataField ty name]
  | PaddingFieldStatement n => [PaddingField n]
  | _ => []
  end.

Section kept.
Context `{Combinatorics} (p : profile) (usize_bits : Z).

(** The cases of a statement that ends well. *)
Ltac kept_cases := unfold take_state, take_message, put, fail; intros Hrun;
  repeat match goal with
  | H : context [unwrap (fs_state ?fs)] |- _ => destruct (fs_state fs) as [st|] eqn:?; cbn [unwrap mbind exec_bind] in H; [|discriminate H]
  | H : context [match ?x with _ => _ end] |- _ => is_var x; destruct x; cbn [mbind exec_bind] in H
  | H : context [if ?b then _ else _] |- _ => destruct b; cbn [mbind exec_bind] in H
  | H : context [is_byte_aligned ?a ?b ?c] |- _ => destruct (is_byte_aligned a b c) as [aligned|]; cbn [mbind exec_bind] in H
  | H : Ret (_, Ok tt) = Ret (?fs, Ok tt) |- _ => injection H as <-
  | H : context [field_total ?ty] |- _ => destruct (field_total ty)
  | H : Panic = Ret _ |- _ => discriminate H
  | H : Ret (_, Err _) = Ret _ |- _ => discriminate H
  end; cbn in *; repeat match goal with H : fs_state _ = Some _ |- _ => rewrite H; clear H end.

Lemma statement_keeps fs s fs' : run_statement p usize_bits fs s = Ret (fs', Ok tt) →
  file_kinds fs' = file_kinds fs ++ statement_kind s.
Proof.
  unfold file_kinds. destruct s; cbn [run_statement statement_kind];
    unfold handle_union, handle_extent, handle_sealed, apply_sealed_or_extent, handle_deprecated, handle_service_response_marker,
    bit_length_set, add_padding_field, field_statement, add_field; kept_cases;
    rewrite ?fmap_app, ?app_nil_r, <- ?app_assoc; try done.
Qed.

Lemma statements_keep l : ∀ fs fs', run_statements p usize_bits fs l = Ret (fs', Ok tt) →
  file_kinds fs' = file_kinds fs ++ concat (statement_kind <$> l).
Proof.
  induction l as [|s l IH]; intros fs fs'; cbn [run_statements]; [intros [= ->]; by rewrite app_nil_r|].
  destruct (run_statement _ _ fs s) as [[fs1 [[]|e]]|] eqn:E; cbn [mbind exec_bind]; [|done..].
  intros ->%IH. rewrite (statement_keeps _ _ _ E). cbn. by rewrite app_assoc.
Qed.

Lemma finish_keeps fs port_id d : finish fs port_id = Ret (Ok d) → dsdl_kinds d = file_kinds fs.
Proof.
  unfold finish, file_kinds. destruct (fs_state fs) as [st|]; cbn [unwrap mbind exec_bind]; [|done].
  by destruct st as [|[] ?|[]|?|? [] ?|? []]; intros [= <-].
Qed.

(** The fields of a compiled file are those of its statements, in their order. *)
Lemma compiled_kinds path l port_id d : compile_statements p usize_bits path l port_id = Ret (Ok d) →
  dsdl_kinds d = concat (statement_kind <$> l).
Proof. intros (fs & Hr & Hf)%compile_file. by rewrite (finish_keeps _ _ _ Hf), (statements_keep _ _ _ Hr). Qed.
End kept.

(** ** Sets of lengths *)

Section plain.
Context (inner_plain : Message → Prop).

(** Types that the front end has the lengths of: not arrays of delimited values. *)
Definition scalar_plain (s : ResolvedScalarType) : Prop :=
  match s with
  | RComposite _ m => inner_plain m
  | RPrimitive (PInt bits | PUInt bits _) => is_u 8 bits
  | RPrimitive _ => True
  | RVoid _ => False
  end.
Definition type_plain (ty : ResolvedType) : Prop :=
  match ty with
  | RScalar s => scalar_plain s
  | RFixedArray s len | RVariableArray s len => scalar_plain s ∧ is_u 64 len ∧ scalar_extent s = Sealed
  end.
Fixpoint fields_plain (fields : list Field) : Prop :=
  match fields with
  | [] => True
  | mkField kind _ :: fields =>
      match kind with PaddingField n => is_u 8 n | DataField ty _ => type_plain ty end ∧ fields_plain fields
  end.
(** An implicit field is not counted in the length of a union. *)
Fixpoint variants_plain (variants : list Variant) : Prop :=
  match variants with
  | [] => True
  | mkVariant ty _ :: variants => type_plain ty ∧ implicit_field ty = None ∧ variants_plain variants
  end.
End plain.

(** A message whose lengths the front end has, if they fit its integers. *)
Fixpoint message_plain (usize_bits : Z) (m : Message) : Prop :=
  match m with
  | mkMessage _ _ (Struct fields) lengths _ =>
      fields_plain (message_plain usize_bits) fields ∧ bls_fits usize_bits lengths ∧ NoDup (field_idents fields)
  | mkMessage _ _ (UnionOf _ variants) _ _ =>
      variants_plain (message_plain usize_bits) variants ∧ (Z.of_nat (length variants) < 2 ^ 64)%Z
  end.

Definition kind_plain (usize_bits : Z) (kind : FieldKind) : Prop :=
  match kind with PaddingField n => is_u 8 n | DataField ty _ => type_plain (message_plain usize_bits) ty end.

Lemma message_plain_kinds usize_bits m : message_plain usize_bits m → Forall (kind_plain usize_bits) (message_kinds m).
Proof.
  destruct m as [d e [fields|tag variants] lengths cs]; cbn; [intros [Hf _]|intros [Hv _]]; unfold message_kinds; cbn.
  - induction fields as [|[kind aligned] fields IH]; constructor; [by destruct Hf|apply IH, Hf].
  - induction variants as [|[ty name] variants IH]; constructor; [by destruct Hv|apply IH, Hv].
Qed.

Definition dsdl_plain (usize_bits : Z) (d : CompiledDsdl) : Prop :=
  match dsdl_kind d with
  | KindMessage m => message_plain usize_bits m
  | KindService request response => message_plain usize_bits request ∧ message_plain usize_bits response
  end.

Section layout.
Context (to_camel_case : string → string) `{CombinatoricsSpec} `{Conversions} (p : profile) (usize_bits : Z).
Context (read_to_string : Path → option (list char)) `{ParserCrates} (find : TypeKey → option DsdlFile).
Abbreviation typed := (message_typed to_camel_case).
Abbreviation bits := (message_bits to_camel_case).
Abbreviation reference := (reference_type p usize_bits read_to_string find).

Definition lengths_exact (m : Message) : Prop := lengths_valid (msg_bit_length m) ∧
  ∀ v, typed m v → bls_lengths (msg_bit_length m) (Z.of_nat (length (whole (bits m v)))).

Lemma layout_exact m : message_layout to_camel_case usize_bits true m → message_plain usize_bits m → lengths_exact m.
Proof.
  destruct m as [d e [fields|tag variants] lengths cs]; unfold message_layout; cbn [msg_kind msg_bit_length message_plain].
  - intros (_ & Hok & Hl) (_ & Hfit & Hnd). split; [done|]. intros [| | | | |l|] Hv; try done.
    destruct (Hl Hfit (RStruct l)) as [Hlen _]; [by eapply (typed_valued to_camel_case)|].
    cbn [final_bits message_bits] in *. by rewrite length_whole.
  - intros (_ & _ & -> & Hl) [Hp Hn]. destruct (Hl Hn) as [Hok Hlen]. split; [done|]. intros [| | | | | |name x] Hv; try done.
    cbn [message_typed message_bits] in *. rewrite length_whole. apply Hlen; [|done].
    clear -Hp. induction variants as [|[ty n] variants IH]; constructor; [apply Hp|apply IH, Hp].
Qed.

Lemma plain_found f s : (∀ key d m, f key = Some d → dsdl_kind d = KindMessage m → message_plain usize_bits m → lengths_exact m) →
  scalar_found f s → scalar_plain (message_plain usize_bits) s → scalar_sound to_camel_case s.
Proof.
  intros Hf. destruct s as [key m| |]; cbn; [|by destruct primitive|done]. intros (key' & d & Hd & Hk) Hm. by apply (Hf key' d).
Qed.

Lemma statements_sound f l : (∀ key d m, f key = Some d → dsdl_kind d = KindMessage m → message_plain usize_bits m → lengths_exact m) →
  Forall (statement_found f) l → Forall (kind_plain usize_bits) (concat (statement_kind <$> l)) →
  Forall (statement_sound to_camel_case) l.
Proof.
  intros Hf Hl. induction Hl as [|s l Hs Hl IH]; [constructor|]. cbn. rewrite Forall_app. intros [Hk Hkl].
  constructor; [|auto]. destruct s; cbn in *; try done; apply Forall_cons in Hk as [Hk _]; cbn in Hk; [|done].
  destruct ty as [s|s n|s n]; cbn in *; [by eapply plain_found|..]; (destruct Hk as (Hk & ? & ?); split_and!; [by eapply plain_found|done..]).
Qed.

Lemma dsdl_plain_kinds d : dsdl_plain usize_bits d → Forall (kind_plain usize_bits) (dsdl_kinds d).
Proof.
  unfold dsdl_plain, dsdl_kinds. destruct (dsdl_kind d); [apply message_plain_kinds|].
  intros [Hreq Hresp]. apply Forall_app. split; by apply message_plain_kinds.
Qed.

Lemma reference_layout n : ∀ key d, reference n key = Some d → dsdl_plain usize_bits d →
  compiled_layout to_camel_case usize_bits d.
Proof.
  induction n as [|n IH]; intros key d; [done|]. intros (input & _ & (l & Hc & Hl)%replay_file)%reference_step Hp.
  pose proof (compiled_kinds _ _ _ _ _ _ Hc) as Hk. pose proof (dsdl_plain_kinds d Hp) as Hkinds. rewrite Hk in Hkinds.
  apply compile_file in Hc as (fs & Hrun & Hf). refine (proj2 (finish_layout to_camel_case usize_bits fs _ d _ Hf)).
  refine (statements_ok to_camel_case p usize_bits l _ fs (new_file_ok _ _ _) _ Hrun).
  eapply statements_sound; [|exact Hl|exact Hkinds]. intros key' d' m Hd' Hm Hpm. apply layout_exact; [|done].
  specialize (IH key' d' Hd'). unfold compiled_layout, dsdl_plain in IH. rewrite Hm in IH. by apply IH.
Qed.
End layout.

(** ** Packages *)

(** The file with a key, and the file with exactly this key. *)
Definition find_any (files : list (TypeKey * DsdlFile)) (key : TypeKey) : option DsdlFile := snd <$> map_get key files.
Definition find_exactly (files : list (TypeKey * DsdlFile)) (key : TypeKey) : option DsdlFile :=
  '(k, input) ← map_get key files; if case_sensitive_equal k key then Some input else None.

Section find.
Context (files : list (TypeKey * DsdlFile)).
Hypothesis Hfiles : NoDup (norms files).

Lemma find_any_file k key input : (k, input) ∈ files → norm k = norm key → find_any files key = Some input.
Proof. intros Hin Hk. unfold find_any. by rewrite (proj2 (map_get_some key files k input Hfiles)). Qed.

Lemma same_key k key : norm k = norm key → case_sensitive_equal k key = true → k = key.
Proof.
  unfold case_sensitive_equal. intros Hn [E1%bool_decide_eq_true E2%bool_decide_eq_true]%andb_true_iff. injection Hn as E3 _.
  destruct k, key. cbn in *. congruence.
Qed.

Lemma find_exactly_file key input : find_exactly files key = Some input ↔ (key, input) ∈ files.
Proof.
  unfold find_exactly. split.
  - destruct (map_get key files) as [[k i]|] eqn:E; cbn; [|done]. apply map_get_some in E as [Hin Hn]; [|done].
    destruct (case_sensitive_equal k key) eqn:Ek; [|done]. intros [= ->]. by rewrite <- (same_key k key).
  - intros Hin. rewrite (proj2 (map_get_some key files key input Hfiles)) by done. cbn.
    unfold case_sensitive_equal. by rewrite !bool_decide_eq_true_2.
Qed.
End find.

Section claims.
Context `{Combinatorics} `{Conversions} (p : profile) (usize_bits : Z).
Context (read_to_string : Path → option (list char)) `{ParserCrates} (files : list (TypeKey * DsdlFile)).
Abbreviation compile_files := (compile p usize_bits read_to_string files).

(** C13: compiling a package ends: fuel for as many files as there are gives the result of any
    greater fuel, and unless a file panics by itself, with the types it needs, the result is
    compiled types or an error - although types are compiled in the middle of other files, none
    is compiled twice and cycles do not recurse. *)
Theorem package_returns n : NoDup (norms files) → length files ≤ n →
  files_safe p usize_bits read_to_string (find_any files) →
  ∃ r, compile_files = Ret r ∧ compile_package p usize_bits read_to_string n files = Ret r.
Proof.
  intros Hf Hn Hsafe. unfold compile, compile_package. set (start := mkPersistentContext files []).
  rewrite <- (loop_fuel p usize_bits read_to_string (length files) n start); [|done..].
  pose proof (loop_returns p usize_bits read_to_string (find_any files) files (find_any_file files Hf) (length files)
    Hsafe start (le_n _) (start_sound _ _ _ _ _ Hf)) as Hr.
  destruct (compile_loop _ _ _ _ start) as [r|]; [by exists r|done].
Qed.

(** C10: a package that compiles has a type for each of its files and for nothing else, and each
    is what its file compiles to when every type it refers to is compiled anew, with no state:
    the results do not depend on the order of the files or on which was compiled first. *)
Theorem package_refines_reference l : NoDup (norms files) → compile_files = Ret (Ok l) →
  norms l ≡ₚ norms files ∧
  ∀ key dsdl, (key, dsdl) ∈ l → denotes p usize_bits read_to_string (find_any files) key dsdl.
Proof.
  intros Hf Hl. apply (package_sound p usize_bits read_to_string (find_any files) files Hf (find_any_file files Hf) (length files)).
  exact Hl.
Qed.

(** C12: a package all of whose files the reference compiles, with references that are exact,
    compiles; whatever order the files are compiled in, no type is missing because it is
    being compiled. *)
Theorem package_compiles : NoDup (norms files) →
  (∀ key input, (key, input) ∈ files → ∃ dsdl, denotes p usize_bits read_to_string (find_exactly files) key dsdl) →
  ∃ l, compile_files = Ret (Ok l) ∧ l.*1 ≡ₚ files.*1 ∧
    ∀ key dsdl, (key, dsdl) ∈ l → denotes p usize_bits read_to_string (find_exactly files) key dsdl.
Proof.
  intros Hf Hall. by apply (package_complete p usize_bits read_to_string (find_exactly files) files Hf
    (find_exactly_file files Hf) (length files)).
Qed.

End claims.

(** ** A package of two types *)

Module PackageExample.
Import GenExample.
#[local] Existing Instance BlsExample.crates.
#[local] Existing Instance BlsExample.crates_spec.

(** An insertion sort, and conversions that are not used. *)
Fixpoint insert_by {A} (cmp : A → A → exec comparison) (x : A) (l : list A) : exec (list A) :=
  match l with
  | [] => Ret [x]
  | y :: l' => c ← cmp x y; match c with Gt => l' ← insert_by cmp x l'; Ret (y :: l') | _ => Ret (x :: l) end
  end.
#[local] Instance conversions : Conversions := {
  nfc s := s;
  to_f32 _ := None;
  to_f64 _ := None;
  from_f64 _ := None;
  f16_from_f32 _ := 0%Z;
  powf b _ := b;
  f16_is_finite _ := true;
  f32_is_finite _ := true;
  f64_is_finite _ := true;
  sort_unstable_by A cmp l := foldr (λ x l, l ← l; insert_by cmp x l) (Ret []) l
}.

(** A file with a field of eight bits, and files with a field of a type of the package. *)
Definition node (rule : Rule) (s : string) (inner : list Pair) : Pair := mkPair rule (chars s) inner.
Definition newline : list Z := [10%Z].
Definition sealed_text : list Z := newline ++ chars "@sealed".
Definition file_tree (dtype : Pair) (name : string) : list Pair :=
  [mkPair R_statement_field (as_str dtype ++ chars (" " ++ name)) [dtype; node R_identifier name []];
   node R_statement_directive "@sealed" [node R_statement_directive_without_expression "@sealed" [node R_identifier "sealed" []]];
   node R_EOI "" []].

Definition byte_type : Pair :=
  foldr (λ '(rule, s) inner, node rule s [inner]) (node R_type_bit_length_suffix "8" [])
    [(R_dtype, "uint8"); (R_type_scalar, "uint8"); (R_type_primitive, "uint8"); (R_type_primitive_saturated, "uint8");
     (R_type_primitive_name, "uint8"); (R_type_primitive_name_unsigned_integer, "uint8")]%string.
Definition named_type (name : string) : Pair :=
  let s := ("a." ++ name ++ ".1.0")%string in
  node R_dtype s [node R_type_scalar s [node R_type_versioned s
    [node R_identifier "a" []; node R_identifier name [];
     node R_type_version_specifier "1.0" [node R_literal_integer_decimal "1" []; node R_literal_integer_decimal "0" []]]]].

Definition file_text (dtype : Pair) (name : string) : list Z := as_str dtype ++ chars (" " ++ name) ++ sealed_text.
Definition known_types : list Pair := byte_type :: (named_type <$> ["A"; "B"; "b"]%string).

#[local] Instance parser_crates : ParserCrates := {
  bigint_from_str l := match l with [] => None | _ => digits_value 10 l end;
  pest_parse s :=
    match list_find (λ dtype, file_text dtype "x" = s) known_types with
    | Some (_, dtype) => Ok (file_tree dtype "x")
    | None => Err GrammarError
    end
}.

Definition key (name : string) : TypeKey := TypeKey_new (mkTypeFullName ["a"%string] name) (mkTypeVersion 1 0).
Definition file (dtype : Pair) : DsdlFile := mkDsdlFile (SourceString (file_text dtype "x")) None.
Abbreviation compile_files := (compile Debug 64 (λ _, None)).

(** [a.A] has a field of [a.B], which is compiled first. *)
Definition package : list (TypeKey * DsdlFile) :=
  [(key "A", file (named_type "B")); (key "B", file byte_type)].

Definition compiled_package : list (TypeKey * CompiledDsdl) :=
  match compile_files package with Ret (Ok l) => l | _ => [] end.
Lemma package_compiled : compile_files package = Ret (Ok compiled_package) ∧ length compiled_package = 2.
Proof. vm_compute. done. Qed.

Lemma package_distinct : NoDup (norms package).
Proof. apply (bool_decide_unpack _). by vm_compute. Qed.

(** What the files mean. *)
Abbreviation denotes_any := (denotes Debug 64 (λ _, None) (find_any package)).
Abbreviation denotes_exactly := (denotes Debug 64 (λ _, None) (find_exactly package)).
Definition compiled_b : CompiledDsdl := default (mkCompiledDsdl None (KindMessage BuildExample.report_compiled))
  (snd <$> compiled_package !! 1).

Lemma b_denotes : denotes_any (key "B") compiled_b.
Proof. exists 1. by vm_compute. Qed.

Lemma package_safe : files_safe Debug 64 (λ _, None) (find_any package).
Proof.
  intros k input Hf Hp. unfold find_any in Hf. cbn in Hf. destruct (key_eqb (key "A") k).
  - injection Hf as <-. inversion Hp as [|k' d c Hd Hc]. subst.
    assert (d = compiled_b) as ->. { eapply denotes_unique; [exact Hd|exact b_denotes]. }
    clear Hp Hd. inversion Hc.
  - destruct (key_eqb (key "B") k); [|done]. injection Hf as <-. inversion Hp.
Qed.

Lemma package_denotes k input : (k, input) ∈ package → ∃ dsdl, denotes_exactly k dsdl.
Proof. intros [[= -> ->]|[[= -> ->]|[]%elem_of_nil]%elem_of_cons]%elem_of_cons; eexists; exists 2; by vm_compute. Qed.

(** [a.A] in the compiled package. *)
Definition compiled_a : CompiledDsdl := default compiled_b (snd <$> compiled_package !! 0).
Lemma a_plain : dsdl_plain 64 compiled_a.
Proof.
  lazy -[is_u bls_fits]. repeat match goal with |- _ ∧ _ => split end; try done;
    first [apply bls_fits_check; [repeat constructor; done|by vm_compute]|apply (bool_decide_unpack _); by vm_compute].
Qed.
End PackageExample.

Import GenExample PackageExample.
#[local] Existing Instance BlsExample.crates.
#[local] Existing Instance BlsExample.crates_spec.
#[local] Existing Instance conversions.
#[local] Existing Instance parser_crates.

Lemma package_returns_witness :
  ∃ r, compile Debug 64 (λ _, None) package = Ret r ∧ compile_package Debug 64 (λ _, None) 5 package = Ret r.
Proof. apply (package_returns Debug 64 (λ _, None) package 5 package_distinct); [cbn; lia|exact package_safe]. Defined.

Lemma package_refines_reference_witness :
  norms compiled_package ≡ₚ norms package ∧
  ∀ k d, (k, d) ∈ compiled_package → denotes Debug 64 (λ _, None) (find_any package) k d.
Proof.
  apply (package_refines_reference Debug 64 (λ _, None) package compiled_package package_distinct). by vm_compute.
Defined.

Lemma package_compiles_witness :
  ∃ l, compile Debug 64 (λ _, None) package = Ret (Ok l) ∧ l.*1 ≡ₚ package.*1 ∧
    ∀ k d, (k, d) ∈ l → denotes Debug 64 (λ _, None) (find_exactly package) k d.
Proof. apply (package_compiles Debug 64 (λ _, None) package package_distinct). exact package_denotes. Defined.


(** *** Names in another case

    A type that is not compiled yet is found by a name in another case, and is then compiled
    under that name: the package compiles, and the type has the wrong name in it. A type that
    is already compiled is not found by such a name, and a type under a wrong name is not found
    by its own. *)

Lemma wrong_case_is_compiled :
  (∃ a b, compile Debug 64 (λ _, None) [(key "A", file (named_type "b")); (key "B", file byte_type)] =
    Ret (Ok [(key "A", a); (key "b", b)])) ∧
  compile Debug 64 (λ _, None) [(key "B", file byte_type); (key "C", file (named_type "b"))] =
    Ret (Err (CompileFile (key "C") (UnknownType (key "b")))) ∧
  compile Debug 64 (λ _, None) [(key "A", file (named_type "b")); (key "B", file byte_type); (key "C", file (named_type "B"))] =
    Ret (Err (CompileFile (key "C") (UnknownType (key "B")))).
Proof. split_and!; [eexists _, _|..]; by vm_compute. Qed.

(** A type that has a field of itself is unknown while it is compiled. *)
Lemma cycle_is_unknown : compile Debug 64 (λ _, None) [(key "A", file (named_type "A"))] =
  Ret (Err (CompileFile (key "A") (UnknownType (key "A")))).
Proof. by vm_compute. Qed.
