(* ===== verification/DsdlValuesSpec.v ===== *)
(** * What the values of DSDL expressions are

    Constants have exactly the values that their types can hold, the operators on sets of
    numbers are those of set theory, escape sequences stand for the characters that they
    describe, and names of types and files are read as they are written. *)

From Stdlib Require Import QArith Qcanon Ascii String Sorted.
From stdpp Require Import strings pretty.
From S2P Require Import Prelude Register BitLengths BitLengthsClaims DsdlTypes DsdlSyntax DsdlBuild DsdlValues DsdlEval DsdlEvalClaims.

#[local] Open Scope Z_scope.

(** ** Constants *)

Lemma this_from_integer z : this (from_integer z) = (z # 1).
Proof. unfold from_integer, inject_Z. apply Qred_identity. cbn. by rewrite Z.gcd_1_r. Qed.
Lemma is_integer_from z : is_integer (from_integer z) = true ∧ numer (from_integer z) = z.
Proof. unfold is_integer, denom, numer. by rewrite this_from_integer. Qed.
Lemma integer_from q : is_integer q = true → q = from_integer (numer q).
Proof.
  unfold is_integer, denom, numer. intros Hd%Z.eqb_eq. apply Qc_decomp. rewrite this_from_integer.
  destruct q as [[n d] Hq]. cbn in *. by injection Hd as ->.
Qed.

(** A character that stands for its code. *)
Lemma implicit_int_spec s n : implicit_int s = Some n ↔ ∃ c, s = mkStringValue (String c "") ∧ n = Z.of_N (N_of_ascii c) ∧ n < 128.
Proof.
  destruct s as [[|c [|c' s]]]; cbn; (split; [|intros (a & E & -> & Hn)]); try done.
  - destruct (Z.ltb_spec (Z.of_N (N_of_ascii c)) 128); [|done]. intros [= <-]. by exists c.
  - injection E as ->. by rewrite (proj2 (Z.ltb_lt _ _)) by done.
Qed.

Section constants.
Context `{Conversions} (p : profile).

(** The types whose widths the parser accepts. *)
Definition constant_type (declared : PrimitiveType) : Prop :=
  match declared with PInt bits | PUInt bits _ => 1 ≤ bits ≤ 64 | _ => True end.

(** The values that constants of a type may be given. *)
Inductive constant_of : PrimitiveType → DValue → ConstantValue → Prop :=
| constant_boolean b : constant_of PBoolean (VBoolean b) (CVBoolean b)
| constant_signed bits z : - 2 ^ (bits - 1) ≤ z < 2 ^ (bits - 1) →
    constant_of (PInt bits) (VRational (from_integer z)) (CVInt z)
| constant_unsigned bits mode z : 0 ≤ z < 2 ^ bits →
    constant_of (PUInt bits mode) (VRational (from_integer z)) (CVInt z)
| constant_character mode c : (N_of_ascii c < 128)%N →
    constant_of (PUInt 8 mode) (VString (mkStringValue (String c ""))) (CVInt (Z.of_N (N_of_ascii c)))
| constant_float16 mode q f : to_f32 q = Some f → f16_is_finite (f16_from_f32 f) = true →
    constant_of (PFloat16 mode) (VRational q) (CVFloat16 (f16_from_f32 f))
| constant_float32 mode q f : to_f32 q = Some f → f32_is_finite f = true →
    constant_of (PFloat32 mode) (VRational q) (CVFloat32 f)
| constant_float64 mode q f : to_f64 q = Some f → f64_is_finite f = true →
    constant_of (PFloat64 mode) (VRational q) (CVFloat64 f).
#[local] Hint Constructors constant_of : core.

Lemma integer_constant_spec declared a b q c : integer_constant declared (a, b) q = Ok c ↔
  ∃ z, q = from_integer z ∧ a ≤ z < b ∧ c = CVInt z.
Proof.
  unfold integer_constant, in_range. cbn [fst snd]. split.
  - destruct (is_integer q) eqn:Hi; [|done]. apply integer_from in Hi.
    destruct (Z.leb_spec a (numer q)), (Z.ltb_spec (numer q) b); cbn; try done. intros [= <-]. eauto with lia.
  - intros (z & -> & Hz & ->). destruct (is_integer_from z) as [-> ->].
    by rewrite (proj2 (Z.leb_le _ _)), (proj2 (Z.ltb_lt _ _)) by lia.
Qed.

Lemma float_constant_spec declared q convert finite make c : float_constant declared q convert finite make = Ok c ↔
  ∃ f, convert = Some f ∧ finite f = true ∧ c = make f.
Proof.
  unfold float_constant. destruct convert as [f|]; [|by split; [|intros (f & ? & _)]].
  destruct (finite f) eqn:E; (split; [intros [= <-]; by exists f|intros (f' & [= <-] & Hf & ->); congruence]).
Qed.

(** C14: a constant is accepted exactly if its value is one that its type can hold - whole
    numbers in the range of an integer type, characters for [uint8], numbers whose conversion
    to a floating-point type is finite - and has that value; anything else is an error, without
    an overflow for any width. *)
Theorem constants_exact declared value : constant_type declared →
  ∃ r, check_type_compatibility p declared value = Ret r ∧ ∀ c, r = Ok c ↔ constant_of declared value c.
Proof.
  intros Hd. destruct declared as [|bits|bits mode|mode|mode|mode], value as [q|s| | |b|]; cbn [check_type_compatibility];
    try (eexists; split; [done|]; intros c; split; [done|by inversion 1]).
  - eexists. split; [done|]. intros c. split; [intros [= <-]; done|by inversion 1].
  - cbn in Hd. destruct (is_integer q) eqn:Hi.
    + unfold signed_int_bounds, arith. rewrite (proj2 (is_ub_spec 8 (bits - 1))) by (unfold is_u; lia).
      cbn [mbind exec_bind]. eexists. split; [done|]. intros c. rewrite integer_constant_spec. split.
      * intros (z & -> & Hz & ->). by constructor.
      * inversion 1; subst. eauto.
    + eexists. split; [done|]. intros c. split; [done|]. inversion 1; subst.
      by rewrite (proj1 (is_integer_from z)) in Hi.
  - eexists. split; [done|]. intros c. unfold unsigned_int_bounds. rewrite integer_constant_spec. split.
    + intros (z & -> & Hz & ->). by constructor.
    + inversion 1; subst. eauto.
  - destruct (Z.eqb_spec bits 8) as [->|Hne].
    + destruct (implicit_int s) as [n|] eqn:E; (eexists; split; [done|]); intros c.
      * apply implicit_int_spec in E as (a & -> & -> & Ha). split; [intros [= <-]; constructor; lia|by inversion 1].
      * split; [done|]. inversion 1; subst. exfalso. rewrite (proj2 (implicit_int_spec _ (Z.of_N (N_of_ascii c0)))) in E; [done|].
        exists c0. split_and!; [done..|lia].
    + eexists. split; [done|]. intros c. split; [done|by inversion 1].
  - eexists. split; [done|]. intros c. rewrite float_constant_spec. split.
    + intros (f & Hf & Hfin & ->). destruct (to_f32 q) as [f'|] eqn:E; [|done]. injection Hf as <-. by constructor.
    + inversion 1; subst. eexists. split_and!; [|done..]. by rewrite H3.
  - eexists. split; [done|]. intros c. rewrite float_constant_spec. split.
    + intros (f & Hf & Hfin & ->). by constructor.
    + inversion 1; subst. eauto.
  - eexists. split; [done|]. intros c. rewrite float_constant_spec. split.
    + intros (f & Hf & Hfin & ->). by constructor.
    + inversion 1; subst. eauto.
Qed.
End constants.

(** ** Sets of numbers *)

(** The value of a set of numbers, which are in ascending order. *)
Definition rationals (l : list BigRational) : list DValue := VRational <$> l.
Abbreviation ascending := (StronglySorted Qclt).

Lemma ascending_not_below x l q : Forall (Qclt x) l → q ∈ l → (x < q)%Qc.
Proof. intros Hl Hq. by apply (proj1 (list.Forall_forall _ _) Hl). Qed.

(** What comparing two numbers tells. *)
Lemma Qccompare_cases a b (P : comparison → Prop) : (a = b → P Eq) → ((a < b)%Qc → P Lt) → ((b < a)%Qc → P Gt) → P (Qccompare a b).
Proof.
  intros He Hl Hg. destruct (Qccompare a b) eqn:E; [by apply He, Qceq_alt|by apply Hl, Qclt_alt|by apply Hg, Qcgt_alt].
Qed.

Section sets.
Context `{Combinatorics} `{Conversions} (p : profile) (usize_bits : Z).
Abbreviation merge := (btree_merge p usize_bits).

(** The elements that a step through two sets keeps. *)
Definition kept (kl kb kr : bool) (l k : list BigRational) (q : BigRational) : Prop :=
  (q ∈ l ∧ (q ∉ k) ∧ kl = true) ∨ (q ∈ l ∧ q ∈ k ∧ kb = true) ∨ ((q ∉ l) ∧ q ∈ k ∧ kr = true).

Lemma kept_left kl kb kr x l k q : x ∉ l → x ∉ k →
  kept kl kb kr (x :: l) k q ↔ (q = x ∧ kl = true) ∨ kept kl kb kr l k q.
Proof. intros Hl Hk. unfold kept. rewrite elem_of_cons. destruct (decide (q = x)) as [->|]; tauto. Qed.
Lemma kept_right kl kb kr y l k q : y ∉ l → y ∉ k →
  kept kl kb kr l (y :: k) q ↔ (q = y ∧ kr = true) ∨ kept kl kb kr l k q.
Proof. intros Hl Hk. unfold kept. rewrite elem_of_cons. destruct (decide (q = y)) as [->|]; tauto. Qed.
Lemma kept_both kl kb kr x l k q : x ∉ l → x ∉ k →
  kept kl kb kr (x :: l) (x :: k) q ↔ (q = x ∧ kb = true) ∨ kept kl kb kr l k q.
Proof. intros Hl Hk. unfold kept. rewrite !elem_of_cons. destruct (decide (q = x)) as [->|]; tauto. Qed.

(** An element before the others. *)
Lemma kept_first (b : bool) x u (P : BigRational → Prop) : ascending u → (∀ q, q ∈ u ↔ P q) → (∀ q, P q → x < q)%Qc →
  ascending (if b then x :: u else u) ∧ ∀ q, q ∈ (if b then x :: u else u) ↔ (q = x ∧ b = true) ∨ P q.
Proof.
  intros Hs He Hx. destruct b; [|split; [done|]; intros q; rewrite He; naive_solver]. split.
  - constructor; [done|]. apply list.Forall_forall. intros q ?%He. auto.
  - intros q. rewrite elem_of_cons, He. tauto.
Qed.

Lemma merge_step kl kb kr x l y k : merge kl kb kr (x :: l) (y :: k) =
  c ← value_cmp p usize_bits x y;
  match c with
  | Lt => rest ← merge kl kb kr l (y :: k); Ret (if kl then x :: rest else rest)
  | Eq => rest ← merge kl kb kr l k; Ret (if kb then x :: rest else rest)
  | Gt => rest ← merge kl kb kr (x :: l) k; Ret (if kr then y :: rest else rest)
  end.
Proof. done. Qed.

Lemma merge_keeps kl kb kr : ∀ l k, ascending l → ascending k →
  ∃ u, merge kl kb kr (rationals l) (rationals k) = Ret (rationals u) ∧ ascending u ∧ ∀ q, q ∈ u ↔ kept kl kb kr l k q.
Proof.
  induction l as [|x l IHl]; intros k Hl Hk.
  { exists (if kr then k else []). unfold kept. destruct k, kr; cbn; (split; [done|]); (split; [done || constructor|]); intros ?; set_solver. }
  apply StronglySorted_inv in Hl as Hl'. destruct Hl' as [Hl' Hx]. induction k as [|y k IHk].
  { exists (if kl then x :: l else []). unfold kept. destruct kl; cbn; (split; [done|]); (split; [done || constructor|]); intros ?; set_solver. }
  apply StronglySorted_inv in Hk as Hk'. destruct Hk' as [Hk' Hy].
  pose proof (λ q, ascending_not_below x l q Hx) as Hbx. pose proof (λ q, ascending_not_below y k q Hy) as Hby.
  assert (Hne : ∀ a b : Qc, (a < b)%Qc → a ≠ b) by apply Qclt_not_eq.
  assert (Hxl : x ∉ l) by (intros Hin; by apply (Hne x x (Hbx x Hin))). assert (Hyk : y ∉ k) by (intros Hin; by apply (Hne y y (Hby y Hin))).
  change (rationals (x :: l)) with (VRational x :: rationals l) in *. change (rationals (y :: k)) with (VRational y :: rationals k).
  rewrite merge_step. cbn [value_cmp mbind exec_bind]. apply Qccompare_cases; [intros <-|intros Hlt|intros Hlt]; cbn [mbind exec_bind].
  - destruct (IHl k Hl' Hk') as (u & -> & Hs & He). cbn [mbind exec_bind].
    destruct (kept_first kb x u _ Hs He) as [Hs' He']; [intros q [(?&?)|[(?&?)|(?&?&?)]]; auto|].
    exists (if kb then x :: u else u). split_and!; [by destruct kb|done|]. intros q. by rewrite He', kept_both.
  - destruct (IHl (y :: k) Hl' Hk) as (u & Hu & Hs & He). change (rationals (y :: k)) with (VRational y :: rationals k) in Hu. rewrite Hu. cbn [mbind exec_bind].
    assert (Hbk : ∀ q, q ∈ y :: k → (x < q)%Qc).
    { intros q [->|Hin]%elem_of_cons; [done|]. eapply Qclt_trans; [exact Hlt|auto]. }
    destruct (kept_first kl x u _ Hs He) as [Hs' He']; [intros q [(?&?)|[(?&?)|(?&?&?)]]; auto|].
    exists (if kl then x :: u else u). split_and!; [by destruct kl|done|]. intros q. rewrite He', kept_left; [done..|].
    intros Hin. by apply (Hne x x (Hbk x Hin)).
  - destruct (IHk Hk') as (u & Hu & Hs & He). change (rationals (x :: l)) with (VRational x :: rationals l) in Hu. rewrite Hu. cbn [mbind exec_bind].
    assert (Hbl : ∀ q, q ∈ x :: l → (y < q)%Qc).
    { intros q [->|Hin]%elem_of_cons; [done|]. eapply Qclt_trans; [exact Hlt|auto]. }
    destruct (kept_first kr y u _ Hs He) as [Hs' He']; [intros q [(?&?)|[(?&?)|(?&?&?)]]; auto|].
    exists (if kr then y :: u else u). split_and!; [by destruct kr|done|]. intros q. rewrite He', kept_right; [done| |done].
    intros Hin. by apply (Hne y y (Hbl y Hin)).
Qed.

(** *** Membership and equality *)

Lemma ascending_nodup l : ascending l → NoDup l.
Proof.
  induction 1 as [|x l Hl IH Hx]; constructor; [|done]. intros Hin. by apply (Qclt_not_eq x x (ascending_not_below x l x Hx Hin)).
Qed.

Lemma length_rationals l : length (rationals l) = length l.
Proof. apply length_fmap. Qed.
Lemma contains_rational x l : btree_contains p usize_bits (VRational x) (rationals l) = Ret (bool_decide (x ∈ l)).
Proof.
  induction l as [|y l IH]; cbn [rationals fmap list_fmap btree_contains value_cmp mbind exec_bind]; [by rewrite bool_decide_eq_false_2 by set_solver|].
  fold (rationals l). rewrite IH.
  apply Qccompare_cases; [intros <-|intros Hne%Qclt_not_eq..]; cbn [is_Eq]; f_equal; [by rewrite bool_decide_eq_true_2 by set_solver|..];
    apply bool_decide_ext; rewrite elem_of_cons; naive_solver.
Qed.

Lemma subset_rationals l k : ascending l → is_subset p usize_bits (rationals l) (rationals k) = Ret (bool_decide (Forall (λ q, q ∈ k) l)).
Proof.
  intros Hl. unfold is_subset. rewrite !length_rationals. destruct (Nat.ltb_spec (length k) (length l)) as [Hlt|_].
  - rewrite bool_decide_eq_false_2; [done|]. rewrite list.Forall_forall. intros Hs.
    apply (Nat.lt_irrefl (length k)). eapply Nat.lt_le_trans; [exact Hlt|]. apply submseteq_length, NoDup_submseteq; [by apply ascending_nodup|done].
  - clear Hl. induction l as [|x l IH]; [by rewrite bool_decide_eq_true_2 by constructor|].
    change (rationals (x :: l)) with (VRational x :: rationals l). cbn [forall_exec]. rewrite contains_rational. cbn [mbind exec_bind]. destruct (bool_decide_reflect (x ∈ k)).
    + rewrite IH. f_equal. apply bool_decide_ext. rewrite list.Forall_cons. tauto.
    + rewrite bool_decide_eq_false_2; [done|]. by intros [? _]%list.Forall_cons.
Qed.

Lemma equal_rationals l k : set_equal p usize_bits (rationals l) (rationals k) = Ret (bool_decide (l = k)).
Proof.
  unfold set_equal, rationals. cbn [value_eq]. rewrite !length_fmap. destruct (Nat.eqb_spec (length l) (length k)) as [He|Hne].
  - revert k He. induction l as [|x l IH]; intros [|y k]; cbn [fmap list_fmap value_eq mbind exec_bind length]; intros He; try done.
    injection He as He. apply Qccompare_cases; cbn [is_Eq]; [intros <-|intros Hn%Qclt_not_eq..].
    + rewrite IH by done. f_equal. apply bool_decide_ext. naive_solver.
    + rewrite bool_decide_eq_false_2; [done|naive_solver].
    + rewrite bool_decide_eq_false_2; [done|naive_solver].
  - rewrite bool_decide_eq_false_2; [done|naive_solver].
Qed.

Lemma compatible_rationals l k : is_compatible (rationals l) (rationals k) = true ∧
  check_element_types (set_ty (rationals l)) (set_ty (rationals k)) = Ok tt.
Proof. by destruct l, k. Qed.

(** *** Insertion *)

Lemma insert_rational x l : ascending l → ∃ u, btree_insert p usize_bits (VRational x) (rationals l) = Ret (rationals u) ∧
  ascending u ∧ ∀ q, q ∈ u ↔ q = x ∨ q ∈ l.
Proof.
  induction 1 as [|y l Hl IH Hy]; cbn [rationals fmap list_fmap btree_insert value_cmp mbind exec_bind].
  { exists [x]. split_and!; [done|repeat constructor|]. intros q. rewrite list_elem_of_singleton. set_solver. }
  fold (rationals l). apply Qccompare_cases; [intros <-|intros Hlt|intros Hlt].
  - exists (x :: l). split_and!; [done|by constructor|]. intros q. set_solver.
  - exists (x :: y :: l). split_and!; [done| |set_solver]. constructor; [by constructor|]. constructor; [done|].
    eapply Forall_impl; [exact Hy|]. intros z Hz. by eapply Qclt_trans.
  - destruct IH as (u & -> & Hu & He). exists (y :: u). split_and!; [done| |set_solver]. constructor; [done|].
    apply list.Forall_forall. intros q [->|Hq]%He; [done|by eapply ascending_not_below].
Qed.

Lemma value_insert_rational x l : ascending l → ∃ u,
  set_value_insert p usize_bits (rationals l) (VRational x) = Ret (Ok (rationals u)) ∧ ascending u ∧ ∀ q, q ∈ u ↔ q = x ∨ q ∈ l.
Proof.
  intros Hl. destruct (insert_rational x l Hl) as (u & Hu & Hs). exists u. split; [|done]. unfold set_value_insert.
  assert (Hty : set_ty (rationals l) = None ∨ set_ty (rationals l) = Some ETRational) by (destruct l; auto).
  destruct Hty as [-> | ->]; cbn [ty_eqb value_ty]; by rewrite Hu.
Qed.

Lemma collect_rationals f g l : (∀ r, f (VRational r) = Ret (Ok (VRational (g r)))) → ∀ s, ascending s → ∃ u,
  set_collect_map p usize_bits f (rationals l) (rationals s) = Ret (Ok (rationals u)) ∧ ascending u ∧
  ∀ q, q ∈ u ↔ q ∈ s ∨ ∃ x, x ∈ l ∧ q = g x.
Proof.
  intros Hf. induction l as [|x l IH]; intros s Hs.
  { exists s. split_and!; [done..|]. intros q. split; [by left|]. intros [?|(x & []%elem_of_nil & _)]; done. }
  change (rationals (x :: l)) with (VRational x :: rationals l). cbn [set_collect_map]. rewrite Hf. cbn [and_then mbind exec_bind].
  destruct (value_insert_rational (g x) s Hs) as (s' & -> & Hs' & He). cbn [mbind exec_bind].
  destruct (IH s' Hs') as (u & -> & Hu & Hue). exists u. split_and!; [done..|]. intros q. rewrite Hue, He. split.
  - intros [[->|Hq]|(y & Hy & ->)]; [right; exists x; set_solver|by left|right; exists y; set_solver].
  - intros [Hq|(y & [->|Hy]%elem_of_cons & ->)]; [by left; right|by left; left|right; by exists y].
Qed.

Lemma elementwise_rationals op symbol (f : BigRational → BigRational → BigRational) l x :
  (∀ a b, op a b = Ret (Ok (VRational (f a b)))) → (∃ u,
    calculate_elementwise_binary p usize_bits (VRational x) (VSet (rationals l)) symbol op = Ret (Ok (VSet (rationals u))) ∧
    ascending u ∧ ∀ q, q ∈ u ↔ ∃ y, y ∈ l ∧ q = f x y) ∧ (∃ u,
    calculate_elementwise_binary p usize_bits (VSet (rationals l)) (VRational x) symbol op = Ret (Ok (VSet (rationals u))) ∧
    ascending u ∧ ∀ q, q ∈ u ↔ ∃ y, y ∈ l ∧ q = f y x).
Proof.
  intros Hop. assert (Hc : can_hold (rationals l) ETRational = true) by (by destruct l).
  split; [destruct (collect_rationals (λ v, match v with VRational r => op x r | _ => Panic end) (f x) l) with (s := @nil BigRational)
      as (u & Hu & Hs & He); [intros r; apply Hop|constructor|]|
    destruct (collect_rationals (λ v, match v with VRational r => op r x | _ => Panic end) (λ r, f r x) l) with (s := @nil BigRational)
      as (u & Hu & Hs & He); [intros r; apply Hop|constructor|]]; exists u;
    unfold calculate_elementwise_binary; cbn [expand_value mbind exec_bind]; rewrite Hc; change (@nil DValue) with (rationals []);
    rewrite Hu; cbn [and_then mbind exec_bind]; (split_and!; [done..|]); intros q; rewrite He; set_solver.
Qed.

(** The result of an operator is a set, or tells whether something is the case. *)
Definition gives (r : exec (result Error DValue)) (P : BigRational → Prop) : Prop :=
  ∃ u, r = Ret (Ok (VSet (rationals u))) ∧ ascending u ∧ ∀ q, q ∈ u ↔ P q.
Definition tells (r : exec (result Error DValue)) (P : Prop) : Prop := ∃ b, r = Ret (Ok (VBoolean b)) ∧ (b = true ↔ P).

Lemma operation_gives kl kb kr l k symbol op lengths_op : ascending l → ascending k →
  gives (calculate_rational_or_set_binary (VSet (rationals l)) (VSet (rationals k)) symbol op
    (unwrap_set (set_operation p usize_bits kl kb kr)) lengths_op) (kept kl kb kr l k).
Proof.
  intros Hl Hk. destruct (merge_keeps kl kb kr l k Hl Hk) as (u & Hu & Hs & He). exists u. split; [|done].
  destruct (compatible_rationals l k) as [Hc Ht]. unfold calculate_rational_or_set_binary, unwrap_set, set_operation.
  by rewrite Hc, Ht, Hu.
Qed.
Lemma gives_ext r (P Q : BigRational → Prop) : gives r P → (∀ q, P q ↔ Q q) → gives r Q.
Proof. intros (u & Hu & Hs & He) HPQ. exists u. split_and!; [done..|]. intros q. by rewrite He, HPQ. Qed.

Lemma comparison_tells l k symbol rop sop b (P : Prop) : sop (rationals l) (rationals k) = Ret b → (b = true ↔ P) →
  tells (to_boolean (calculate_rational_or_set_comparison p usize_bits (VSet (rationals l)) (VSet (rationals k)) symbol rop sop)) P.
Proof.
  intros Hs Hb. exists b. split; [|done]. unfold to_boolean, calculate_rational_or_set_comparison. cbn [expand_value mbind exec_bind].
  destruct (compatible_rationals l k) as [-> _]. by rewrite Hs.
Qed.

Lemma proper_rationals sub l k b : sub (rationals l) (rationals k) = Ret b →
  is_proper p usize_bits sub (rationals l) (rationals k) = Ret (b && negb (bool_decide (l = k))).
Proof. intros Hs. unfold is_proper. rewrite Hs. destruct b; cbn [mbind exec_bind]; [by rewrite equal_rationals|done]. Qed.


(** An operator of a number and a set of numbers is applied to each element. *)
Theorem number_arithmetic_elementwise x l :
  let each op f :=
    gives (op (VRational x) (VSet (rationals l))) (λ q, ∃ y, y ∈ l ∧ q = f x y) ∧
    gives (op (VSet (rationals l)) (VRational x)) (λ q, ∃ y, y ∈ l ∧ q = f y x) in
  each (add p usize_bits) Qcplus ∧ each (subtract p usize_bits) Qcminus ∧ each (multiply p usize_bits) Qcmult.
Proof. by split_and!; apply elementwise_rationals. Qed.
End sets.

(** Dividing by zero panics, also in a file that is otherwise right. *)
Lemma dividing_by_zero_panics `{Combinatorics} `{Conversions} p usize_bits :
  divide p usize_bits (VRational 1) (VRational 0) = Panic ∧ remainder p usize_bits (VRational 1) (VRational 0) = Panic ∧
  exponent p usize_bits (VRational 0) (VRational (- 1)) = Panic.
Proof. done. Qed.

(** ** Escape sequences *)

(** What stands for a character in a string literal. A Unicode escape sequence has the digits
    of [from_str_radix], which takes a sign as well. *)
Inductive stands_for : list char → char → Prop :=
| stands_itself c : c ≠ backslash → stands_for [c] c
| stands_escape s c : (s, c) ∈ [(backslash, backslash); (char_of "r", 13); (char_of "n", 10); (char_of "t", 9); (39, 39); (34, 34)] →
    stands_for [backslash; s] c
| stands_unicode u n digits v c : (u, n) ∈ [(char_of "u", 4%nat); (char_of "U", 8%nat)] → length digits = n →
    from_str_radix (4 * Z.of_nat n) 16 digits = Some v → char_from_u32 v = Some c →
    stands_for (backslash :: u :: digits) c.

Lemma finish_escape_ok n digits c : finish_escape n digits = Ok c ↔
  ∃ v, from_str_radix (4 * Z.of_nat n) 16 digits = Some v ∧ char_from_u32 v = Some c.
Proof.
  unfold finish_escape. destruct (from_str_radix _ _ _) as [v|]; [|naive_solver].
  destruct (char_from_u32 v) as [c'|] eqn:E; split; try naive_solver.
Qed.

(** The digits of a Unicode escape sequence. *)
Lemma unescape_digits n digits : ∀ read out s, (0 < n)%nat → length (read ++ digits) = n → (length read < n)%nat →
  unescape_loop (UnicodeEscape n read) out (digits ++ s) =
  match finish_escape n (read ++ digits) with
  | Ok c => unescape_loop Idle (out ++ [c]) s
  | Err e => Err e
  end.
Proof.
  induction digits as [|d digits IH]; intros read out s Hn Hlen Hread; [rewrite app_nil_r in Hlen; lia|].
  cbn [app unescape_loop unescape_step]. rewrite length_app in *. cbn [length] in *.
  destruct (Nat.eqb_spec (length read + 1) n) as [He|Hne].
  - destruct digits as [|d' digits]; [|cbn in Hlen; lia]. destruct (finish_escape n (read ++ [d])); done.
  - cbn [mbind result_bind]. rewrite (IH (read ++ [d])); rewrite ?length_app; cbn [length]; [|lia..]. by rewrite <- app_assoc.
Qed.

Lemma unescape_short n s : ∀ read out, (length read + length s < n)%nat → unescape_loop (UnicodeEscape n read) out s = Err UnexpectedEnd.
Proof.
  induction s as [|c s IH]; intros read out Hlen; [done|]. cbn [unescape_loop unescape_step length] in *. rewrite length_app. cbn [length].
  destruct (Nat.eqb_spec (length read + 1) n); [lia|]. cbn [mbind result_bind]. apply IH. rewrite length_app. cbn [length]. lia.
Qed.

Lemma unescape_part part c out s : stands_for part c → unescape_loop Idle out (part ++ s) = unescape_loop Idle (out ++ [c]) s.
Proof.
  intros [c' Hc|s' c' Hin|u n digits v c' Hin Hlen Hv Hc].
  - cbn [app unescape_loop unescape_step]. by rewrite (proj2 (Z.eqb_neq _ _) Hc).
  - rewrite !elem_of_cons in Hin. by repeat destruct Hin as [[= -> ->]|Hin]; [..|apply elem_of_nil in Hin].
  - assert (Hf : finish_escape n digits = Ok c') by (apply finish_escape_ok; eauto).
    assert (Hn : unescape_loop Idle out ((backslash :: u :: digits) ++ s) = unescape_loop (UnicodeEscape n []) out (digits ++ s)).
    { rewrite !elem_of_cons in Hin. by repeat destruct Hin as [[= -> ->]|Hin]; [..|apply elem_of_nil in Hin]. }
    rewrite Hn, unescape_digits; cbn [app length]; [by rewrite Hf|..]; rewrite ?Hlen; try done;
      rewrite !elem_of_cons in Hin; (repeat destruct Hin as [[= -> ->]|Hin]; [lia..|by apply elem_of_nil in Hin]).
Qed.

(** After a backslash. *)
Lemma unescape_backslash out c s r : unescape_loop Backslash out (c :: s) = Ok r →
  (∃ x, (c, x) ∈ [(backslash, backslash); (char_of "r", 13); (char_of "n", 10); (char_of "t", 9); (39, 39); (34, 34)] ∧
    unescape_loop Idle (out ++ [x]) s = Ok r) ∨
  ∃ n, (c, n) ∈ [(char_of "u", 4%nat); (char_of "U", 8%nat)] ∧ unescape_loop (UnicodeEscape n []) out s = Ok r.
Proof.
  cbn [unescape_loop unescape_step]. intros Hr.
  repeat match type of Hr with
  | context [if (?a =? ?b) then _ else _] => destruct (Z.eqb_spec a b) as [->|_]; cbn [mbind result_bind] in Hr
  end; try done; first [left; eexists; split; [|exact Hr]; set_solver|right; eexists; split; [|exact Hr]; set_solver].
Qed.

Lemma unescape_parts n : ∀ s out r, (length s ≤ n)%nat → unescape_loop Idle out s = Ok r →
  ∃ parts cs, r = out ++ cs ∧ s = concat parts ∧ Forall2 stands_for parts cs.
Proof.
  induction n as [|n IH]; intros s out r Hlen Hr; (destruct s as [|c s]; [injection Hr as <-; exists [], []; by rewrite app_nil_r|]); cbn in Hlen; [lia|].
  assert (Hnext : ∀ part x s', c :: s = part ++ s' → stands_for part x → unescape_loop Idle (out ++ [x]) s' = Ok r → (length s' ≤ n)%nat →
    ∃ parts cs, r = out ++ cs ∧ c :: s = concat parts ∧ Forall2 stands_for parts cs).
  { intros part x s' Heq Hx Hr' Hs'. destruct (IH s' (out ++ [x]) r Hs' Hr') as (parts & cs & -> & -> & Hp).
    exists (part :: parts), (x :: cs). rewrite <- app_assoc. split_and!; [done..|by constructor]. }
  destruct (decide (c = backslash)) as [->|Hc].
  - cbn [unescape_loop unescape_step] in Hr. destruct s as [|c s]; [done|].
    assert (Hr' : unescape_loop Backslash out (c :: s) = Ok r) by done.
    apply unescape_backslash in Hr' as [(x & Hx & Hr')|(m & Hm & Hr')].
    + apply (Hnext [backslash; c] x s); [done|by constructor|done|cbn in Hlen; lia].
    + destruct (decide (length s < m)%nat) as [Hlt|Hge]; [by rewrite unescape_short in Hr'|].
      rewrite <- (take_drop m s), unescape_digits in Hr'; cbn [app length]; rewrite ?length_take; [|..].
      * destruct (finish_escape m _) as [x|] eqn:E; [|done]. apply finish_escape_ok in E as (v & Hv & Hx).
        apply (Hnext (backslash :: c :: take m s) x (drop m s)); [cbn; by rewrite take_drop| |done|rewrite length_drop; cbn in Hlen; lia].
        apply (stands_unicode c m _ v); [done|rewrite length_take; lia|done|done].
      * rewrite !elem_of_cons in Hm. repeat destruct Hm as [[= -> ->]|Hm]; [lia..|by apply elem_of_nil in Hm].
      * lia.
      * rewrite !elem_of_cons in Hm. repeat destruct Hm as [[= -> ->]|Hm]; [lia..|by apply elem_of_nil in Hm].
  - apply (Hnext [c] c s); [done|by constructor| |lia]. cbn [unescape_loop unescape_step] in Hr. by rewrite (proj2 (Z.eqb_neq _ _) Hc) in Hr.
Qed.


(** ** Names with dots *)

(** A part of a name: what [validate_full_key] accepts has no dot, and is not empty. *)
Definition no_dot (s : string) : Prop := "."%char ∉ String.list_ascii_of_string s.

Lemma split_one s : no_dot s → split_dots s = [s].
Proof.
  unfold no_dot. induction s as [|c s IH]; cbn; [done|]. rewrite not_elem_of_cons. intros [Hc Hs].
  destruct (Ascii.eqb_spec c "."%char) as [->|_]; [done|]. by rewrite IH.
Qed.
Lemma split_app s t : split_dots (s +:+ "." +:+ t) = split_dots s ++ split_dots t.
Proof.
  change ("." +:+ t) with (String "."%char t).
  induction s as [|c s IH]; [done|].
  change (String c s +:+ String "."%char t) with (String c (s +:+ String "."%char t)). cbn [split_dots]. rewrite IH.
  destruct (Ascii.eqb c "."%char); [done|]. destruct (split_dots s) as [|part parts] eqn:E; [|done].
  exfalso. destruct s as [|c' s]; cbn in E; [done|]. destruct (Ascii.eqb c' _); [done|]. by destruct (split_dots s).
Qed.

(** *** Numbers *)

Definition digits_fold (v : option Z) (s : string) : option Z :=
  foldl (λ v c, v ← v; d ← digit_value 10 c; Some (v * 10 + d)) v (chars s).

Lemma digit_char n : (n < 10)%N → let c := pretty_N_char n in
  digit_value 10 (Z.of_N (N_of_ascii c)) = Some (Z.of_N n) ∧ is_digit c = true ∧ c ≠ "."%char.
Proof.
  intros Hn. assert (Hc : n = 0%N ∨ n = 1%N ∨ n = 2%N ∨ n = 3%N ∨ n = 4%N ∨ n = 5%N ∨ n = 6%N ∨ n = 7%N ∨ n = 8%N ∨ n = 9%N) by lia.
  by repeat destruct Hc as [->|Hc]; [..|subst n].
Qed.

Lemma pretty_go_fold x : ∀ s, digits_fold (Some 0) (pretty_N_go x s) = digits_fold (Some (Z.of_N x)) s.
Proof.
  induction (N.lt_wf_0 x) as [x _ IH]. intros s. destruct (decide (0 < x)%N) as [Hx|Hx].
  - rewrite pretty_N_go_step by done. rewrite IH by (apply N.div_lt; lia). unfold digits_fold. cbn [chars foldl].
    destruct (digit_char (x `mod` 10)%N) as (-> & _); [by apply N.mod_lt|]. cbn [mbind option_bind].
    do 2 f_equal. rewrite N2Z.inj_mod, N2Z.inj_div. pose proof (Z.div_mod (Z.of_N x) 10). lia.
  - assert (x = 0%N) as -> by lia. done.
Qed.

Lemma pretty_go_chars (P : ascii → Prop) x : (∀ n, (n < 10)%N → P (pretty_N_char n)) → ∀ s,
  Forall P (String.list_ascii_of_string s) → Forall P (String.list_ascii_of_string (pretty_N_go x s)).
Proof.
  intros HP. induction (N.lt_wf_0 x) as [x _ IH]. intros s Hs. destruct (decide (0 < x)%N) as [Hx|Hx].
  - rewrite pretty_N_go_step by done. apply IH; [apply N.div_lt; lia|]. cbn. constructor; [by apply HP, N.mod_lt|done].
  - assert (x = 0%N) as -> by lia. done.
Qed.

Lemma show_chars n (P : ascii → Prop) : (∀ n, (n < 10)%N → P (pretty_N_char n)) →
  Forall P (String.list_ascii_of_string (show_number n)).
Proof.
  intros HP. unfold show_number, pretty, pretty_N. destruct (decide _) as [E|Hn]; [cbn; constructor; [by apply (HP 0%N)|constructor]|].
  by apply pretty_go_chars; [|constructor].
Qed.

Lemma show_no_dot n : no_dot (show_number n).
Proof.
  pose proof (show_chars n (λ c, c ≠ "."%char) (λ n Hn, proj2 (proj2 (digit_char n Hn)))) as Hc. intros Hin.
  rewrite list.Forall_forall in Hc. by apply (Hc _ Hin).
Qed.

Lemma digits_value_fold s : digits_value 10 (chars s) = digits_fold (Some 0) s.
Proof. done. Qed.

Lemma show_digits n : 0 ≤ n → some_digits (show_number n) = true ∧ digits_value 10 (chars (show_number n)) = Some n.
Proof.
  intros Hn. assert (Hv : digits_value 10 (chars (show_number n)) = Some n).
  { rewrite digits_value_fold. unfold show_number, pretty, pretty_N. destruct (decide _) as [E|Hne].
    - assert (n = 0) as -> by lia. done.
    - rewrite pretty_go_fold. cbn. by rewrite Z2N.id. }
  split; [|done]. unfold some_digits, all_digits. apply andb_true_iff. split.
  - destruct (show_number n) as [|c s] eqn:E; [|done]. injection Hv as <-. discriminate E.
  - apply forallb_forall. intros c Hc%list_elem_of_In.
    pose proof (show_chars n (λ c, is_digit c = true) (λ n Hn, proj1 (proj2 (digit_char n Hn)))) as Hall.
    rewrite list.Forall_forall in Hall. by apply Hall.
Qed.

Lemma parse_shown bits n : 0 ≤ n < 2 ^ bits → parse_digits bits (show_number n) = Some n.
Proof.
  intros Hn. destruct (show_digits n) as [Hd Hv]; [lia|]. unfold parse_digits. rewrite Hd. unfold from_str_radix.
  destruct (show_number n) as [|c s] eqn:E; [done|]. cbn [chars].
  assert (Hc : is_digit c = true). { unfold some_digits, all_digits in Hd. cbn in Hd. by apply andb_true_iff in Hd as [Hd _]. }
  assert (Hp : (Z.of_N (N_of_ascii c) =? plus_sign) = false). { unfold is_digit in Hc. unfold plus_sign. lia. }
  rewrite Hp. cbn [chars] in Hv. rewrite Hv. cbn [mbind option_bind]. by rewrite (proj2 (Z.ltb_lt _ _)) by lia.
Qed.

(** *** Keys and files *)

(** The characters of names: letters, digits and underscores. *)
Definition plain (s : string) : Prop := Forall (λ c, (N_of_ascii c < 128)%N ∧ c ≠ "."%char) (String.list_ascii_of_string s).

Lemma plain_no_dot s : plain s → no_dot s.
Proof. unfold plain, no_dot. rewrite list.Forall_forall. intros Hs Hin. by destruct (Hs _ Hin). Qed.

Lemma identifier_plain s : is_valid_identifier s = true → plain s ∧ s ≠ ""%string.
Proof.
  assert (Hl : ∀ c, is_letter c = true → (N_of_ascii c < 128)%N ∧ c ≠ "."%char) by (intros [[] [] [] [] [] [] [] []]; vm_compute; done).
  assert (Hd : ∀ c, is_digit c = true → (N_of_ascii c < 128)%N ∧ c ≠ "."%char) by (intros [[] [] [] [] [] [] [] []]; vm_compute; done).
  destruct s as [|c s]; [done|]. cbn [is_valid_identifier]. intros [Hc Hs]%andb_true_iff. split; [|done].
  constructor; [by apply Hl|]. rewrite list.Forall_forall. intros x Hx%list_elem_of_In. rewrite forallb_forall in Hs.
  apply Hs, orb_true_iff in Hx as [Hx|Hx]; auto.
Qed.

Lemma number_plain n : plain (show_number n).
Proof. apply show_chars. intros d Hd. destruct (digit_char d Hd) as (_ & Hc & Hdot). unfold is_digit in Hc. split; [lia|done]. Qed.

Lemma valid_key_parts key : validate_full_key key = Ok tt →
  tfn_path (tk_name key) ≠ [] ∧ Forall (λ s, plain s ∧ s ≠ ""%string) (tfn_path (tk_name key) ++ [tfn_name (tk_name key)]).
Proof.
  unfold validate_full_key. destruct (tfn_path (tk_name key)) as [|s path]; [done|]. intros Hv. split; [done|]. revert Hv.
  destruct (_ <? _)%nat; [done|]. generalize ((s :: path) ++ [tfn_name (tk_name key)]). intros l.
  destruct (check_segments key l) as [[]|] eqn:E; [|done]. intros _. revert E.
  induction l as [|x l IH]; cbn [check_segments]; [by constructor|].
  destruct (is_valid_identifier x) eqn:Hx; [|done]. destruct (is_reserved_keyword x); [done|]. intros Hl.
  constructor; [by apply identifier_plain|auto].
Qed.

Lemma split_full_name path name : Forall no_dot path → no_dot name →
  split_dots (show_full_name (mkTypeFullName path name)) = path ++ [name].
Proof.
  intros Hp Hn. unfold show_full_name. cbn [tfn_path tfn_name]. induction Hp as [|s path Hs Hp IH]; cbn [foldr]; [by apply split_one|].
  rewrite split_app, IH. by rewrite split_one.
Qed.

(** The text of a key is divided at its dots. *)
Lemma split_key key : Forall (λ s, plain s ∧ s ≠ ""%string) (tfn_path (tk_name key) ++ [tfn_name (tk_name key)]) →
  split_dots (show_key key) = tfn_path (tk_name key) ++ [tfn_name (tk_name key)] ++
    [show_number (major (tk_version key)); show_number (minor (tk_version key))].
Proof.
  intros Hp. assert (Hd : Forall no_dot (tfn_path (tk_name key) ++ [tfn_name (tk_name key)])).
  { eapply Forall_impl; [exact Hp|]. intros s [Hs _]. by apply plain_no_dot. }
  apply Forall_app in Hd as [Hd Hn]. rewrite list.Forall_singleton in Hn.
  unfold show_key, show_version. rewrite !split_app.
  destruct (tk_name key) as [path name]. cbn [tfn_path tfn_name] in *. rewrite split_full_name by done.
  rewrite !split_one by apply show_no_dot. by rewrite <- app_assoc.
Qed.

(** The name of the file of a type, and the file in the directories of its path. *)
Definition file_name (key : TypeKey) (port_id : option u32) : string :=
  let name :=
    tfn_name (tk_name key) +:+ "." +:+ show_number (major (tk_version key)) +:+ "." +:+ show_number (minor (tk_version key)) +:+
    "." +:+ "uavcan" in
  match port_id with Some id => show_number id +:+ "." +:+ name | None => name end.

Lemma split_file_name key port_id : plain (tfn_name (tk_name key)) →
  split_dots (file_name key port_id) =
  match port_id with Some id => [show_number id] | None => [] end ++
  [tfn_name (tk_name key); show_number (major (tk_version key)); show_number (minor (tk_version key)); "uavcan"%string].
Proof.
  intros Hn%plain_no_dot. unfold file_name. destruct port_id as [id|]; rewrite !split_app, !split_one by done || apply show_no_dot; done.
Qed.

Lemma plain_valid_text s : plain s → utf8_valid (chars s) = true.
Proof.
  unfold plain. induction s as [|c s IH]; [done|]. cbn [String.list_ascii_of_string]. intros [[Hc _] Hs]%list.Forall_cons.
  cbn [chars utf8_valid]. rewrite (proj2 (Z.ltb_lt _ _)) by lia. auto.
Qed.
Lemma ascii_app s t : Forall (λ c, (N_of_ascii c < 128)%N) (String.list_ascii_of_string s) →
  utf8_valid (chars (s +:+ t)) = utf8_valid (chars t).
Proof.
  induction s as [|c s IH]; [done|]. cbn [String.list_ascii_of_string]. intros [Hc Hs]%list.Forall_cons.
  change (String c s +:+ t) with (String c (s +:+ t)). cbn [chars utf8_valid]. rewrite (proj2 (Z.ltb_lt _ _)) by lia. auto.
Qed.
Lemma plain_app s t : plain s → utf8_valid (chars (s +:+ t)) = utf8_valid (chars t).
Proof. intros Hs. apply ascii_app. eapply Forall_impl; [exact Hs|]. by intros c [Hc _]. Qed.
Lemma dot_app t : utf8_valid (chars ("." +:+ t)) = utf8_valid (chars t).
Proof. by apply ascii_app; repeat constructor. Qed.

Lemma file_name_text key port_id : plain (tfn_name (tk_name key)) → utf8_valid (chars (file_name key port_id)) = true.
Proof.
  intros Hn. pose proof number_plain as Hnum. unfold file_name.
  destruct port_id as [id|]; repeat (rewrite plain_app by auto; rewrite dot_app || idtac); done.
Qed.

Lemma consume_same root path : consume_root root (root ++ path) = Ret path.
Proof. induction root as [|c root IH]; cbn [consume_root app]; [by destruct path|]. by rewrite String.eqb_refl. Qed.

(** C17: names are read as they are written: the text of a key that a package accepts is parsed
    into the key again, and a file in the directories of its path, with a name made of its port
    identifier, its name and its version, is added under this key with this port identifier. *)
Theorem names_read_back root key port_id : validate_full_key key = Ok tt →
  tk_lowercase_name key = TypeFullName_to_lowercase (tk_name key) →
  is_u 8 (major (tk_version key)) → is_u 8 (minor (tk_version key)) →
  match port_id with Some id => is_u 32 id | None => True end →
  TypeKey_from_str (show_key key) = Some key ∧
  info_from_path root (root ++ tfn_path (tk_name key) ++ [file_name key port_id]) = Ret (Ok (key, port_id)).
Proof.
  intros [Hpath Hp]%valid_key_parts Hlow Hmaj Hmin Hport. pose proof (split_key key Hp) as Hsplit.
  destruct key as [[path name] low [maj min]]. cbn [tk_name tk_lowercase_name tk_version tfn_path tfn_name major minor] in *. subst low.
  apply Forall_app in Hp as Hp'. destruct Hp' as [Hpp Hpn]. rewrite list.Forall_singleton in Hpn. destruct Hpn as [Hpn Hne].
  split.
  - unfold TypeKey_from_str. rewrite Hsplit. rewrite app_assoc. set (full := path ++ [name]) in *.
    rewrite !length_app. change (length [show_number maj; show_number min]) with 2%nat.
    assert (Hlen : (2 ≤ length full)%nat) by (unfold full; rewrite length_app; destruct path; [done|cbn; lia]).
    replace (length full + 2 - 2)%nat with (length full) by lia. replace (length full + 2 - 1)%nat with (length full + 1)%nat by lia.
    assert (E1 : (full ++ [show_number maj; show_number min]) !! length full = Some (show_number maj))
      by (by rewrite lookup_app_r, Nat.sub_diag by lia).
    assert (E2 : (full ++ [show_number maj; show_number min]) !! (length full + 1)%nat = Some (show_number min))
      by (rewrite lookup_app_r by lia; by replace (length full + 1 - length full)%nat with 1%nat by lia).
    rewrite (proj2 (Nat.leb_le 3 _)), take_app_length, E1 by lia. cbn [mbind option_bind]. rewrite E2. cbn [mbind option_bind].
    destruct (show_digits maj) as [-> _]; [unfold is_u in *; lia|].
    destruct (show_digits min) as [-> _]; [unfold is_u in *; lia|].
    assert (Hne' : forallb (λ part, negb (String.eqb part "")) full = true).
    { apply forallb_forall. intros s Hs%list_elem_of_In. rewrite list.Forall_forall in Hp. destruct (Hp s Hs) as [_ Hs'].
      by destruct (String.eqb_spec s ""). }
    rewrite Hne'. unfold TypeFullName_from_components. rewrite (proj2 (Nat.leb_le 2 _)) by done. unfold full.
    rewrite last_snoc. cbn [mbind option_bind andb]. rewrite removelast_last, !parse_shown by done. done.
  - unfold info_from_path. rewrite consume_same. cbn [mbind exec_bind].
    set (key := mkTypeKey _ _ _) in *. assert (Htext : mapM to_str (path ++ [file_name key port_id]) = Some (path ++ [file_name key port_id])).
    { apply mapM_Some, Forall_Forall2_diag, Forall_app. split; [|apply list.Forall_singleton].
      - eapply Forall_impl; [exact Hpp|]. intros s [Hs _]. unfold to_str. by rewrite plain_valid_text.
      - unfold to_str. by rewrite file_name_text. }
    rewrite Htext, last_snoc. cbn [unwrap mbind exec_bind]. rewrite removelast_last. unfold parse_file_name. rewrite split_file_name by done.
    unfold key. cbn [tk_name tfn_name tk_version major minor]. destruct port_id as [id|]; cbn [app].
    all: destruct (String.eqb_spec name ""); [done|]; cbn [negb andb]; rewrite !parse_shown by done; done.
Qed.

(** ** Examples *)

Module ValuesExample.
(** [BigInt::from_str] ignores underscores after the first digit. *)
#[local] Instance crates : ParserCrates := {
  bigint_from_str l := match l with [] => None | _ => digits_value 10 (filter (λ c, c ≠ underscore) l) end;
  pest_parse _ := Err GrammarError
}.

Definition leaf (rule : Rule) (s : string) : Pair := mkPair rule (chars s) [].
(** [0.1_0], and [.5]. *)
Definition with_underscore : Pair :=
  mkPair R_literal_real_point_notation (chars "0.1_0")
    [leaf R_literal_real_digits "0"; mkPair R_literal_real_fraction (chars ".1_0") [leaf R_literal_real_digits "1_0"]].
Definition without_whole_digits : Pair :=
  mkPair R_literal_real_point_notation (chars ".5") [mkPair R_literal_real_fraction (chars ".5") [leaf R_literal_real_digits "5"]].

(** The fraction is scaled by the length of its text, with the underscores. *)
Lemma underscore_scales_fraction : parse_real_point_notation Debug with_underscore = Ret (Ok (Q2Qc (1 # 100))).
Proof. by vm_compute. Qed.
(** The fraction is taken for the digits before the point. *)
Lemma leading_point_is_rejected : parse_real_point_notation Debug without_whole_digits = Ret (Err InvalidRealLiteral).
Proof. by vm_compute. Qed.
(** The digits of an escape sequence may start with a sign. *)
Lemma sign_in_escape_is_accepted : unescape_string (chars "\u+041") = Ok [65].
Proof. by vm_compute. Qed.
End ValuesExample.

Import PackageExample.
#[local] Existing Instance BlsExample.crates.
#[local] Existing Instance conversions.

Lemma constants_exact_witness :
  ∃ r, check_type_compatibility Debug (PInt 12) (VRational (from_integer (-2048))) = Ret r ∧
    ∀ c, r = Ok c ↔ constant_of (PInt 12) (VRational (from_integer (-2048))) c.
Proof. apply (constants_exact Debug (PInt 12)). cbn. lia. Defined.


Lemma names_read_back_witness :
  TypeKey_from_str (show_key (key "A")) = Some (key "A") ∧
  info_from_path ["dsdl"] (["dsdl"] ++ ["a"] ++ [file_name (key "A") (Some 7509)]) = Ret (Ok (key "A", Some 7509)).
Proof. apply (names_read_back ["dsdl"%string] (key "A") (Some 7509)); by vm_compute. Defined.

Lemma file_name_example : file_name (key "A") (Some 7509) = "7509.A.1.0.uavcan"%string.
Proof. done. Qed.
